(* ===== verification/_CoqProject ===== *)
-Q . S2P
Prelude.v
CString.v
ScanNumbers.v
Unicode.v
Tokens.v
StrView.v
StdString.v
LineIterator.v
Punycode.v
UnicodeRange.v
HttpMethod.v
Headers.v
Clock.v
Lexer.v
LexerSafety.v
LexerBehaviour.v
LexerLayout.v
LexerOperators.v
LexerText.v
Ast.v
Parser.v
Cmdline.v
Arg.v
Interp.v
BaseX.v
Normalize.v
Escapes.v
WrapLines.v
Validators.v
BuildError.v
Palette.v
Console.v
Files.v
Util.v
Main.v
Curl.v
CurlProtocol.v
CurlOwnership.v
CurlResponse.v
CurlReactor.v
JsonText.v
JsonValue.v
JsonWriter.v
JsonReader.v
JsonGrammar.v
JsonReading.v
JsonRoundTrip.v
JsonStyled.v
JsonStyling.v
JsonStreams.v
JsonContainers.v
JsonPath.v
JsonSafety.v
