(* ===== verification/Prelude.v ===== *)
(** * The intent C++ core: a verification library

    The intent programming language has a C++ core under old/src: a lexer, a
    parser and a syntax tree (old/src/lang), and the libraries they stand on
    (old/src/core: text, cli, net, time, util, work), with one program (old/src/i).
    This library is a model of that core, function by function, with theorems
    about each component.  Paths below are relative to old/src.

    ** How the code is modelled

    This file holds what every component shares.

    - [res] is the outcome of running code: a value, an exception, undefined
      behaviour ([Undef]: an access to an address where nothing lives, a signed
      overflow, a dangling pointer) or a loop out of fuel ([Spin]).  A theorem that
      says [= Ok v] therefore says that the code returns, has no undefined
      behaviour and throws nothing; [wp m Q] is total correctness.
    - [mem] is a map from addresses to live bytes; a pointer is an address and
      nullptr is 0.  [load] and [store] are undefined elsewhere, so an
      out-of-range access is visible.  [holds m a l] says that the block [l]
      is at [a].  Objects with identity (header impls, tree nodes, curl handles)
      live in heaps of the same kind, with their reference counts.
    - integers are [Z], wrapped where the code's type wraps: [u8], [u16], [u32],
      [u64], [i32], [i64], [to_char]; templates on an unsigned type take its width.
    - loops are [iterate fuel body state].  The fuel is always an explicit bound and
      the theorems show that it is enough: [span_fuel p e] = distance + 1 for a
      pointer that moves from [p] to [e]; [S (size m)] for a walk to a NUL,
      since no block is longer than the memory; [S (length l)] for a binary
      search; 33 turns for the 32-bit loops of punycode; [S w] for the digits of a
      [w]-bit number; [S (size h)] and [S (S (size h))] for walks up or down a tree or
      chain of impls in a heap [h]; [S (S width)] for a wrapped line; 16 and 17 for the
      rows of 16 chars of a palette; 32 for the names of number formats; [parse_fuel], the smaller of the length of a
      JSON document and the limit of the reader's stack, for nested values, [depth]
      for writing one, and one more than its length for the text of a path.  A loop
      of the client ([lex]) has its own bound, which [LexerSafety] proves enough
      for every text and [LexerText] gives exactly.
    - what is outside the repository is an argument of the definitions that use it:
      the C library's [pow] and [printf], what an uninitialised byte holds
      ([garbage]), where [operator new] puts an object and whether [realloc] succeeds,
      the steady clock, libcurl (handles, response codes, what runs inside
      [curl_multi_socket_action]), what other threads do while a lock is not
      held, Boost's file status and size, PCRE's matching, the function for
      the next glyph, what printf and scanf make of a double ([printf_17g],
      [sscanf_lf]) and what negating the least 64-bit integer gives
      ([negate_min]).  Theorems hold for all of them, or name what they rely on.

    ** Files and sources

    Text (core/text).  [CString]: strutil.  [ScanNumbers]: scan_numbers,
    numeric_formats.  [Unicode]: unicode.  [UnicodeRange]: unicode_range and its
    table.  [StrView]: str_view.  [StdString]: the part of std::string the code
    uses.  [LineIterator]: line_iterator.  [Punycode]: punycode.  [Arg]: arg.
    [Interp]: interp.  [BaseX]: base_x_encode.  [Normalize]: normalize_identifier.
    [Escapes]: escape_sequence.  [WrapLines]: wrap_lines.

    Language (lang).  [Tokens]: token_type, issue and their tables.  [Lexer]: the
    lexer, token, note and code_site; [LexerSafety]: it is safe and ends;
    [LexerBehaviour]: single tokens and the places where it goes wrong;
    [LexerLayout]: gaps, indents and dedents; [LexerOperators]: the switch on
    operators; [LexerText]: whole texts.  [Ast]: ast/node.  [Parser]: parser.
    [BuildError]: build_error.

    Console (core/cli, i).  [Cmdline]: cmdline.  [Validators]: cmdline_validators.
    [Palette]: ansi_color_palette.  [Console]: ansi_color and tty.
    [Main]: i/main.cpp.

    Network (core/net).  [HttpMethod]: http_method.  [Headers]: headers.  [Curl]:
    requests, responses, sessions and channels of net/curl; [CurlProtocol]: the life
    of a session; [CurlOwnership]: the counts of references; [CurlResponse]: the
    callbacks that store bodies and headers; [CurlReactor]: the sockets, timer and
    thread of a channel.

    Data (core/data/json).  [JsonText]: tool.h and value_to_string, numbers and strings as
    text.  [JsonValue]: class value, a tree with references as paths into it.
    [JsonWriter]: fast_writer.  [JsonStyled]: the three styled writers, copies of each
    other, and their builder.  [JsonReader]: both readers, their builder and the functions
    on streams.  [JsonPath]: class path and the iterators.
    [JsonGrammar]: the specification, texts of RFC 8259 and the values they
    mean.  [JsonReading]: the reader refines the grammar, operation by operation.
    [JsonRoundTrip], [JsonStyling]: the writers stay inside the grammar, so the reader reads
    them back.  [JsonStreams]: values through streams, with the builders' defaults.
    [JsonContainers]: values as lists and as finite maps.  [JsonSafety]: the reader on
    documents that are not JSON.

    The rest.  [Clock]: core/time.  [Util]: core/util (dbc, scope_guard, monotonic_id,
    range), core/err/circuit_breaker.h and core/work.  [Files]: core/io/ioutil,
    core/data/xsv.cpp and core/dev/space.cpp.

    The components meet where the code's do: the lexer reads [CString]'s memory
    through [StrView]'s views with [ScanNumbers] and [Unicode]; the parser drives the
    lexer and builds nodes of [Ast]; the program drives [Cmdline], which wraps its help
    with [WrapLines] and [Interp]; sessions and responses own [Headers]; the reader, the
    writers and the paths of JSON work on the values of [JsonValue], in which their builders
    keep their settings too.  An
    operation keeps the name it has in the code; where one function has several
    overloads or loops, each has its own definition.

    ** What the theorems show

    - Data: [reader_reads_json], the reader accepts every JSON text with the value that the
      grammar gives it; [parse_safe], on any document it ends, stays inside it and reports
      an error or succeeds; [json_round_trip], [styled_round_trip] and [streams_round_trip],
      it reads back what the writers write; [array_refines_list] and [object_refines_map],
      sequences of operations on a value against those on lists and maps;
      [path_finds_what_it_made].
    - Language: [lexer_refines_layout], the lexer returns exactly the tokens of an
      abstract lexer on any program; [lex_total], it is safe on any ASCII text;
      what the unfinished parser leaks ([build_ast_leaks]); [add_child_grafts], [delete_frees_tree] and
      [has_ancestor_generations] for the tree.
    - Text: round trips ([utf8_roundtrip], [escape_roundtrip],
      [punycode_roundtrip], [insert_then_expand]), walks that return on every
      input ([utf8_walks_total], [punycode_decode_safe]), specifications of each
      routine ([split_pieces], [scan_digits_value], [lines_are_iterated],
      [base_x_encode_correct], [normalize_identifier_returns]) and refinements of
      abstract descriptions ([interp_renders_template], [wrap_lines_fills]).
    - Network: exact reference counts and layered lookup for headers
      ([headers_reference_counts], [headers_layers]),
      exact counts of the requests and responses of programs that use sessions
      ([curl_reference_counts]), the protocol of sessions, the bytes and the headers a
      response keeps and the sockets a channel tracks ([session_one_at_a_time],
      [body_received], [headers_received], [sockets_tracked]).
    - Time: [stopwatch_refines_ideal], and the count of sessions under any
      interleaving of threads ([session_count_exact]).
    - Console: [cmdline_invariant], [help_layout], [palette_maps_names], the
      validators, and [main_fails].
    - Files: [read_file_whole]; readers of separated values read nothing and the root
      of a sandbox is the nearest one ([text_reader_spec], [find_root_spec]).

    Several theorems state what the code does where that is not what it means to do
    (a sign that is lost, blocks that the end of a text does not close, a parser that
    drops its nodes, a program that always fails, a reader that reads nothing); each
    says so in its comment.

    ** What is not modelled

    - Vendored libraries: old/src/external holds asio and googletest.
    - Of the standard streams, their state: a stream is the chars left in it.
    - core/work/discrete_task, which does not compile: it names a variable and a member that
      do not exist.
    - What only talks to the system or to a library: process_util (one macOS call),
      the RAII wrappers easy.h, multi.h, share.h and libcurl.h around libcurl handles,
      uuid.h, filesystem.h, process.h, gil.h and units.h (names for Boost).
    - What is declared but not defined: curl options, shared_cookies,
      shared_tls_handshake, the classes of lang/ast other than node and token_node,
      the destructor of trie and its insert; trie::find and trie::contains return
      nullptr and false whatever they are given, and find_insert_position does not
      compile when it is used.  core/text/any_str.h is an older copy of arg's
      declarations.
    - What has no behaviour: the marks (empty macros), mux/no_op_mutex, namespaces,
      value_semantics, already_locked, deprecate and countof macros.
    - perftest, a tool that measures the machine it runs on: what it prints are
      quotients of readings of the real clock.
    - The Python front end (intent/) and the grammar tools (old/grammar) are
      written in other languages; the tests under old/test are not part of
      the program. *)

From stdpp Require Import base tactics list gmap strings.
From Stdlib Require Import ZArith Lia.

#[global] Open Scope Z_scope.

#[global] Arguments Z.eqb : simpl never.
#[global] Arguments Z.leb : simpl never.
#[global] Arguments Z.ltb : simpl never.
#[global] Arguments Z.add : simpl never.
#[global] Arguments Z.sub : simpl never.
#[global] Arguments Z.mul : simpl never.

(** ** Outcomes of running C++ code *)

(** What a C++ exception carries in the modelled code; a call of [exit] is
    [process_exit]. *)
Inductive exn : Type :=
| contract_violation (what : string)
| state_error (what : list Z)
| bad_alloc
| runtime_error (what : list Z)
| logic_error (what : list Z)
| process_exit (code : Z).

(** [Ok a]: the code returned [a].  [Throw e]: it threw [e].  [Undef]: it
    reached an operation with no defined behaviour, such as reading or writing
    an address that holds no object.  [Spin]: the fuel of a loop ran out. *)
Inductive res (A : Type) : Type :=
| Ok (a : A)
| Throw (e : exn)
| Undef
| Spin.
Arguments Ok {A} a.
Arguments Throw {A} e.
Arguments Undef {A}.
Arguments Spin {A}.

Definition bind {A B} (m : res A) (k : A -> res B) : res B :=
  match m with
  | Ok a => k a
  | Throw e => Throw e
  | Undef => Undef
  | Spin => Spin
  end.

Declare Scope res_scope.
Delimit Scope res_scope with res.
#[global] Open Scope res_scope.

Notation "'let!' x ':=' m 'in' k" := (bind m (fun x => k))
  (at level 10, x pattern, m at level 100, k at level 200,
   format "'[v' 'let!'  x  ':='  m  'in' '/' k ']'") : res_scope.

(** The [precondition(expr)] macro of core/util/dbc.h. *)
Definition precondition (b : bool) (what : string) : res unit :=
  if b then Ok tt else Throw (contract_violation what).

Lemma bind_assoc {A B C} (m : res A) (f : A -> res B) (g : B -> res C) :
  bind (bind m f) g = bind m (fun x => bind (f x) g).
Proof. by destruct m. Qed.

Lemma bind_Ok_inv {A B} (m : res A) (k : A -> res B) b :
  bind m k = Ok b -> exists a, m = Ok a /\ k a = Ok b.
Proof. destruct m; simpl; naive_solver. Qed.

(** ** Loops *)

(** [iterate fuel body s] runs [body] from state [s] until it leaves the loop
    with [inr]. *)
Fixpoint iterate {S A} (fuel : nat) (body : S -> res (S + A)) (s : S) : res A :=
  match fuel with
  | O => Spin
  | Datatypes.S fuel' =>
      let! r := body s in
      match r with
      | inl s' => iterate fuel' body s'
      | inr a => Ok a
      end
  end.

(** Total correctness: the code returns, and what it returns satisfies [Q]. *)
Definition wp {A} (m : res A) (Q : A -> Prop) : Prop :=
  match m with Ok a => Q a | _ => False end.

Lemma wp_Ok_iff {A} (m : res A) Q : wp m Q <-> exists a, m = Ok a /\ Q a.
Proof. destruct m; naive_solver. Qed.

Lemma wp_bind {A B} (m : res A) (k : A -> res B) Q :
  wp m (fun a => wp (k a) Q) -> wp (bind m k) Q.
Proof. by destruct m. Qed.

Lemma wp_mono {A} (m : res A) (P Q : A -> Prop) :
  (forall a, P a -> Q a) -> wp m P -> wp m Q.
Proof. destruct m; naive_solver. Qed.

(** The rule for loops: an invariant [I] and a measure that every turn which
    stays in the loop decreases. *)
Lemma wp_iterate {S A} (I : S -> Prop) (measure : S -> nat) (Q : A -> Prop)
    (body : S -> res (S + A)) :
  (forall s, I s ->
     wp (body s) (fun r => match r with
                           | inl s' => I s' /\ (measure s' < measure s)%nat
                           | inr a => Q a
                           end)) ->
  forall fuel s, I s -> (measure s < fuel)%nat -> wp (iterate fuel body s) Q.
Proof.
  intros Hbody. induction fuel as [|fuel IH]; intros s HI Hf; [lia|]. simpl.
  apply wp_bind. eapply wp_mono; [|by apply Hbody].
  intros [s'|a]; [|done]. intros [HI' Hm]. apply IH; [done|lia].
Qed.

(** More fuel does not change an outcome other than running out of it. *)
Lemma iterate_fuel_mono {S A} (body : S -> res (S + A)) fuel fuel' s :
  iterate fuel body s <> Spin -> (fuel <= fuel')%nat ->
  iterate fuel' body s = iterate fuel body s.
Proof.
  revert fuel' s. induction fuel as [|fuel IH]; intros fuel' s Hr Hle; [done|].
  destruct fuel' as [|fuel']; [lia|]. simpl in *.
  destruct (body s) as [[s'|a]| | |]; simpl in *; try done.
  apply IH; [done|lia].
Qed.

(** ** Memory *)

(** Memory maps the addresses of live bytes to their contents, as values of
    [char], which is signed: -128 .. 127.  The null pointer is address 0. *)
Abbreviation mem := (gmap Z Z).

Definition load (m : mem) (a : Z) : res Z :=
  match m !! a with Some c => Ok c | None => Undef end.

Definition store (m : mem) (a c : Z) : res mem :=
  match m !! a with Some _ => Ok (<[a := c]> m) | None => Undef end.

(** [m] holds the bytes [l] from address [a] on. *)
Fixpoint holds (m : mem) (a : Z) (l : list Z) : Prop :=
  match l with
  | [] => True
  | c :: l' => m !! a = Some c /\ holds m (a + 1) l'
  end.

#[export] Instance holds_dec m a l : Decision (holds m a l).
Proof. revert a. induction l as [|c l IH]; intros a; simpl; apply _. Defined.

Definition Zlen {A} (l : list A) : Z := Z.of_nat (length l).

Lemma Zlen_nil {A} : Zlen (@nil A) = 0.
Proof. done. Qed.
Lemma Zlen_cons {A} (x : A) l : Zlen (x :: l) = 1 + Zlen l.
Proof. unfold Zlen; simpl; lia. Qed.
Lemma Zlen_app {A} (l k : list A) : Zlen (l ++ k) = Zlen l + Zlen k.
Proof. unfold Zlen; rewrite length_app; lia. Qed.
Lemma Zlen_insert {A} i (x : A) l : Zlen (<[i := x]> l) = Zlen l.
Proof. unfold Zlen. by rewrite length_insert. Qed.
Lemma Zlen_nonneg {A} (l : list A) : 0 <= Zlen l.
Proof. unfold Zlen; lia. Qed.

Lemma take_app_Zlen {A} (l k : list A) : take (Z.to_nat (Zlen l)) (l ++ k) = l.
Proof. unfold Zlen. by rewrite Nat2Z.id, take_app_length. Qed.

Lemma drop_app_Zlen {A} (l k : list A) : drop (Z.to_nat (Zlen l)) (l ++ k) = k.
Proof. unfold Zlen. by rewrite Nat2Z.id, drop_app_length. Qed.

Create HintDb intent discriminated.
Create Rewrite HintDb intent.
#[export] Hint Rewrite @Zlen_nil @Zlen_cons @Zlen_app : intent.
#[export] Hint Resolve Zlen_nonneg : intent.

Lemma load_Some m a c : m !! a = Some c -> load m a = Ok c.
Proof. unfold load. by intros ->. Qed.

Lemma holds_app m a l k : holds m a (l ++ k) <-> holds m a l /\ holds m (a + Zlen l) k.
Proof.
  revert a. induction l as [|c l IH]; intros a; simpl.
  - rewrite Zlen_nil, Z.add_0_r. naive_solver.
  - rewrite IH, Zlen_cons, Z.add_assoc. naive_solver.
Qed.

(** The rest of a block from the address [q] in it. *)
Lemma holds_split_at m a l q : holds m a l -> a <= q <= a + Zlen l ->
  exists l', holds m q l' /\ a + Zlen l = q + Zlen l'.
Proof.
  intros Hm Hq. exists (drop (Z.to_nat (q - a)) l). rewrite <-(take_drop (Z.to_nat (q - a)) l) in Hm. apply holds_app in Hm as [_ Hm].
  unfold Zlen in *. rewrite length_take in Hm. rewrite length_drop. split; [|lia].
  by replace (a + Z.of_nat (Z.to_nat (q - a) `min` length l)) with q in Hm by lia.
Qed.

Lemma holds_lookup m a l i c :
  holds m a l -> l !! i = Some c -> m !! (a + Z.of_nat i) = Some c.
Proof.
  revert a i. induction l as [|d l IH]; intros a i Hm Hi; [done|].
  destruct Hm as [Hd Hm]. destruct i as [|i]; simpl in Hi.
  - rewrite Z.add_0_r. naive_solver.
  - replace (a + Z.of_nat (Datatypes.S i)) with (a + 1 + Z.of_nat i) by lia. eauto.
Qed.

Lemma holds_of_lookup m a l :
  (forall i c, l !! i = Some c -> m !! (a + Z.of_nat i) = Some c) -> holds m a l.
Proof.
  revert a. induction l as [|d l IH]; intros a Hm; simpl; [done|]. split.
  - specialize (Hm O d eq_refl). by rewrite Z.add_0_r in Hm.
  - apply IH. intros i c Hi. specialize (Hm (Datatypes.S i) c Hi).
    by replace (a + 1 + Z.of_nat i) with (a + Z.of_nat (Datatypes.S i)) by lia.
Qed.

Lemma holds_map_seqZ a l : holds (map_seqZ a l) a l.
Proof.
  apply holds_of_lookup. intros i c Hi. apply lookup_map_seqZ_Some. split; [lia|].
  by replace (Z.to_nat (a + Z.of_nat i - a)) with i by lia.
Qed.

(** A write outside the range of a block leaves the block alone. *)
Lemma holds_insert_ne m a l b c :
  b < a \/ a + Zlen l <= b -> holds m a l -> holds (<[b := c]> m) a l.
Proof.
  revert a. induction l as [|d l IH]; intros a Hb; simpl; [done|].
  rewrite Zlen_cons in Hb. pose proof (Zlen_nonneg l).
  intros [Hd Hl]. rewrite lookup_insert_ne by lia. split; [done|].
  apply IH; [lia|done].
Qed.

(** ** Scanning a block

    Many loops of the code walk a pointer towards an end pointer while each
    char is accepted, accumulating a value.  [scan_fold f l a] is the pure
    account of such a walk over the chars [l]: how many chars it accepts, and
    the value it ends with. *)
Fixpoint scan_fold {A} (f : Z -> A -> option A) (l : list Z) (a : A) : Z * A :=
  match l with
  | [] => (0, a)
  | c :: l' =>
      match f c a with
      | Some a' => let '(k, r) := scan_fold f l' a' in (1 + k, r)
      | None => (0, a)
      end
  end.

Lemma scan_fold_bounds {A} (f : Z -> A -> option A) l a :
  0 <= (scan_fold f l a).1 <= Zlen l.
Proof.
  revert a. induction l as [|c l IH]; intros a; simpl; [unfold Zlen; simpl; lia|].
  rewrite Zlen_cons. pose proof (Zlen_nonneg l).
  destruct (f c a) as [a'|]; simpl; [|lia]. specialize (IH a').
  destruct (scan_fold f l a') as [k r]; simpl in *. lia.
Qed.

(** The fuel of a loop that moves a pointer from [p] up to [e] at most. *)
Definition span_fuel (p e : Z) : nat := Datatypes.S (Z.to_nat (e - p)).

Lemma span_fuel_gt p e : (Z.to_nat (e - p) < span_fuel p e)%nat.
Proof. unfold span_fuel. lia. Qed.

Lemma iterate_scan_fold {A} (f : Z -> A -> option A) (m : mem) e (body : Z * A -> res (Z * A + Z * A)) l p a fuel :
  (forall q b c, m !! q = Some c -> q < e ->
     body (q, b) = Ok (match f c b with
                       | Some b' => inl (q + 1, b')
                       | None => inr (q, b)
                       end)) ->
  (forall b, body (e, b) = Ok (inr (e, b))) ->
  holds m p l -> e = p + Zlen l -> (length l < fuel)%nat ->
  iterate fuel body (p, a) = Ok (p + (scan_fold f l a).1, (scan_fold f l a).2).
Proof.
  intros Hin Hout. revert p a fuel.
  induction l as [|c l IH]; intros p a fuel Hm He Hf;
    (destruct fuel as [|fuel]; [simpl in Hf; lia|]); simpl in *.
  - rewrite Zlen_nil, Z.add_0_r in He. subst p. by rewrite Hout, Z.add_0_r.
  - rewrite Zlen_cons in He. pose proof (Zlen_nonneg l). destruct Hm as [Hc Hl].
    rewrite (Hin _ _ _ Hc) by lia. simpl.
    destruct (f c a) as [a'|]; simpl; [|by rewrite Z.add_0_r].
    rewrite (IH (p + 1) a') by (done || lia).
    destruct (scan_fold f l a') as [k r]; simpl. by rewrite Z.add_assoc.
Qed.

(** The same for a walk that only moves a pointer: [scan_len ok l] chars of
    [l] are accepted. *)
Fixpoint scan_len (ok : Z -> bool) (l : list Z) : Z :=
  match l with
  | [] => 0
  | c :: l' => if ok c then 1 + scan_len ok l' else 0
  end.

Lemma scan_len_bounds ok l : 0 <= scan_len ok l <= Zlen l.
Proof.
  induction l as [|c l IH]; simpl; [unfold Zlen; simpl; lia|].
  rewrite Zlen_cons. pose proof (Zlen_nonneg l). destruct (ok c); lia.
Qed.

(** The chars [scan_len] accepts, and the rest. *)
Lemma scan_len_split ok l :
  exists l1 l2, l = l1 ++ l2 /\ Zlen l1 = scan_len ok l /\
    Forall (fun c => ok c = true) l1 /\ (forall c, head l2 = Some c -> ok c = false).
Proof.
  induction l as [|c l IH]; simpl; [by exists [], []|].
  destruct (ok c) eqn:Hc; [|by exists [], (c :: l); naive_solver].
  destruct IH as (l1 & l2 & -> & Hlen & Hall & Hhd).
  exists (c :: l1), l2. rewrite Zlen_cons. split_and!; auto; lia.
Qed.

Lemma scan_len_app_all ok l k :
  Forall (fun c => ok c = true) l -> scan_len ok (l ++ k) = Zlen l + scan_len ok k.
Proof.
  induction 1 as [|c l Hc _ IH]; simpl; [done|]. rewrite Hc, IH, Zlen_cons. lia.
Qed.

Lemma iterate_scan_len (ok : Z -> bool) (m : mem) e (body : Z -> res (Z + Z)) l p fuel :
  (forall q c, m !! q = Some c -> q < e ->
     body q = Ok (if ok c then inl (q + 1) else inr q)) ->
  body e = Ok (inr e) ->
  holds m p l -> e = p + Zlen l -> (length l < fuel)%nat ->
  iterate fuel body p = Ok (p + scan_len ok l).
Proof.
  intros Hin Hout. revert p fuel.
  induction l as [|c l IH]; intros p fuel Hm He Hf;
    (destruct fuel as [|fuel]; [simpl in Hf; lia|]); simpl in *.
  - rewrite Zlen_nil, Z.add_0_r in He. subst p. by rewrite Hout, Z.add_0_r.
  - rewrite Zlen_cons in He. pose proof (Zlen_nonneg l). destruct Hm as [Hc Hl].
    rewrite (Hin _ _ Hc) by lia. simpl.
    destruct (ok c); simpl; [|by rewrite Z.add_0_r].
    rewrite (IH (p + 1)) by (done || lia). by rewrite Z.add_assoc.
Qed.

(** A block lives at distinct addresses, so no more of them than memory has:
    [size m] turns are enough fuel for a walk to the end of a C string. *)
Lemma holds_length m a l : holds m a l -> (length l <= size m)%nat.
Proof.
  revert a m. induction l as [|c l IH]; intros a m Hm; simpl; [lia|].
  destruct Hm as [Hc Hl].
  assert (holds (delete a m) (a + 1) l) as Hd.
  { apply holds_of_lookup. intros i d Hi. rewrite lookup_delete_ne by lia.
    by apply (holds_lookup _ _ l). }
  apply IH in Hd. rewrite map_size_delete_Some in Hd by (by eexists).
  assert (size m <> O); [|lia].
  intros H0%map_size_empty_inv. subst m. by rewrite lookup_empty in Hc.
Qed.

Lemma length_lt_span_fuel {A} (l : list A) p e :
  e = p + Zlen l -> (length l < span_fuel p e)%nat.
Proof. unfold span_fuel, Zlen. lia. Qed.
#[export] Hint Resolve length_lt_span_fuel : intent.

(** ** Machine integers and chars *)

Definition u8 (x : Z) : Z := x mod 2 ^ 8.
Definition u16 (x : Z) : Z := x mod 2 ^ 16.
Definition u32 (x : Z) : Z := x mod 2 ^ 32.
Definition u64 (x : Z) : Z := x mod 2 ^ 64.

(** Conversions to the signed types (two's complement, as every target of the
    code does). *)
Definition to_char (x : Z) : Z := (x + 2 ^ 7) mod 2 ^ 8 - 2 ^ 7.
Definition i32 (x : Z) : Z := (x + 2 ^ 31) mod 2 ^ 32 - 2 ^ 31.
Definition i64 (x : Z) : Z := (x + 2 ^ 63) mod 2 ^ 64 - 2 ^ 63.

Definition is_char (c : Z) : Prop := -128 <= c <= 127.
#[export] Instance is_char_dec c : Decision (is_char c).
Proof. unfold is_char. apply _. Defined.

Lemma u8_range x : 0 <= u8 x < 256.
Proof. unfold u8. apply Z.mod_pos_bound. lia. Qed.
Lemma u32_range x : 0 <= u32 x < 2 ^ 32.
Proof. unfold u32. apply Z.mod_pos_bound. lia. Qed.
Lemma u64_range x : 0 <= u64 x < 2 ^ 64.
Proof. unfold u64. apply Z.mod_pos_bound. lia. Qed.
Lemma to_char_range x : is_char (to_char x).
Proof. unfold is_char, to_char. pose proof (Z.mod_pos_bound (x + 2 ^ 7) (2 ^ 8)). lia. Qed.
Lemma u32_small x : 0 <= x < 2 ^ 32 -> u32 x = x.
Proof. apply Z.mod_small. Qed.
Lemma u64_small x : 0 <= x < 2 ^ 64 -> u64 x = x.
Proof. apply Z.mod_small. Qed.

Lemma u64_add_l a b : u64 (u64 a + b) = u64 (a + b).
Proof. apply Zplus_mod_idemp_l. Qed.
Lemma u64_mul_l a b : u64 (u64 a * b) = u64 (a * b).
Proof. apply Zmult_mod_idemp_l. Qed.
Lemma u64_u64 a : u64 (u64 a) = u64 a.
Proof. apply Z.mod_mod. lia. Qed.
Lemma u64_add_l2 a b c : u64 (u64 a + b + c) = u64 (a + b + c).
Proof. by rewrite <- Z.add_assoc, u64_add_l, Z.add_assoc. Qed.
#[export] Hint Rewrite u64_add_l u64_add_l2 u64_mul_l u64_u64 : intent.

Lemma u8_inj c d : is_char c -> is_char d -> u8 c = u8 d -> c = d.
Proof.
  intros Hc Hd E. apply (f_equal to_char) in E. unfold is_char, to_char, u8 in *.
  rewrite !Zplus_mod_idemp_l, !Z.mod_small in E by lia. lia.
Qed.

(** A byte stored as a [char] and read back as [uint8_t]. *)
Lemma u8_to_char b : 0 <= b < 256 -> u8 (to_char b) = b.
Proof.
  intros Hb. unfold u8, to_char.
  rewrite <- (Z.mod_small b (2 ^ 8)) at 2 by lia.
  rewrite <- Zminus_mod_idemp_l, Z.mod_mod by lia.
  rewrite Zminus_mod_idemp_l. f_equal. lia.
Qed.

(** Case analysis on the integer tests of a goal, innermost first, closing
    impossible branches. *)
Ltac no_match t :=
  lazymatch t with context [match _ with _ => _ end] => fail | _ => idtac end.
Ltac ztest :=
  repeat (match goal with
          | |- context [Z.leb ?a ?b] => no_match a; no_match b; destruct (Z.leb_spec a b)
          | |- context [Z.ltb ?a ?b] => no_match a; no_match b; destruct (Z.ltb_spec a b)
          | |- context [Z.eqb ?a ?b] => no_match a; no_match b; destruct (Z.eqb_spec a b)
          end; simpl; try lia).

(** The same for the tests of a hypothesis. *)
Ltac ztest_in H :=
  repeat (match type of H with
          | context [Z.leb ?a ?b] => no_match a; no_match b; destruct (Z.leb_spec a b)
          | context [Z.ltb ?a ?b] => no_match a; no_match b; destruct (Z.ltb_spec a b)
          | context [Z.eqb ?a ?b] => no_match a; no_match b; destruct (Z.eqb_spec a b)
          end; simpl in H; try lia; try discriminate H).

(** Rewrites a test whose outcome is known. *)
Ltac ztrue a := replace a with true by (symmetry; ztest).
Ltac zfalse a := replace a with false by (symmetry; ztest).

(** A decidable fact about concrete data, by evaluating its decision. *)
Ltac decided := apply (bool_decide_unpack _); vm_compute; exact I.

(** ** Char literals and strings *)

Definition parse_ch (l : list Byte.byte) : option Z :=
  match l with [b] => Some (Z.of_N (Byte.to_N b)) | _ => None end.
Definition print_ch (z : Z) : option (list Byte.byte) := None.
Declare Scope ch_scope.
Delimit Scope ch_scope with ch.
String Notation Z parse_ch print_ch : ch_scope.

Notation TAB := 9 (only parsing).
Notation LF := 10 (only parsing).
Notation CR := 13 (only parsing).
Notation DQUOTE := 34 (only parsing).
Notation BACKSLASH := 92 (only parsing).

(** The chars of a string literal. *)
Fixpoint str (s : string) : list Z :=
  match s with
  | EmptyString => []
  | String a s' => to_char (Z.of_N (Ascii.N_of_ascii a)) :: str s'
  end.

(** A C string literal at address [a]: its chars and the terminating NUL. *)
Definition cstr_at (a : Z) (s : string) : mem := map_seqZ a (str s ++ [0]).

Lemma holds_cstr_at a s : holds (cstr_at a s) a (str s ++ [0]).
Proof. apply holds_map_seqZ. Qed.

Example ch_literals : ("a"%ch, "0"%ch, " "%ch, "'"%ch) = (97, 48, 32, 39).
Proof. reflexivity. Qed.

(** ** Binary search *)

(** [std::lower_bound] on an array, as the offset it returns: [below x] is
    [comp(x, value)].  The fuel is one more than the number of elements. *)
Definition lower_bound {A} (below : A -> bool) (l : list A) : res nat :=
  iterate (S (length l)) (fun '(first, len) =>
    if (len =? 0)%nat then Ok (inr first)
    else
      let half := (len / 2)%nat in
      let mid := (first + half)%nat in
      match l !! mid with
      | None => Undef
      | Some x =>
          if below x then Ok (inl (S mid, len - S half)%nat) else Ok (inl (first, half))
      end) (0%nat, length l).

(** [l] is partitioned by [below]: first the elements below, then the others. *)
Definition partitioned {A} (below : A -> bool) (l : list A) : Prop :=
  forall i j x y, (i <= j)%nat -> l !! i = Some x -> l !! j = Some y -> below y = true -> below x = true.

(** It returns the number of elements before the first that is not below. *)
Lemma lower_bound_spec {A} (below : A -> bool) (l : list A) :
  partitioned below l ->
  exists k, lower_bound below l = Ok k /\ (k <= length l)%nat /\
    (forall i x, l !! i = Some x -> below x = true <-> (i < k)%nat).
Proof.
  intros Hpart. unfold lower_bound.
  match goal with |- exists k, iterate ?fuel ?body ?s = Ok k /\ _ =>
    assert (wp (iterate fuel body s) (fun k => (k <= length l)%nat /\
      forall i x, l !! i = Some x -> below x = true <-> (i < k)%nat)) as Hwp end.
  - eapply (wp_iterate (fun '(first, len) => (first + len <= length l)%nat /\
      (forall i x, l !! i = Some x -> (i < first)%nat -> below x = true) /\
      (forall i x, l !! i = Some x -> (first + len <= i)%nat -> below x = false))
      (fun '(_, len) => len)).
    + intros [first len] (Hle & Hlo & Hhi). destruct (Nat.eqb_spec len 0) as [->|Hlen]; cbv beta iota zeta.
      * simpl. split; [lia|]. intros i x Hx. split; [|eauto].
        intros Hb. destruct (Nat.lt_ge_cases i first); [done|].
        rewrite (Hhi i x Hx) in Hb; [done|lia].
      * assert (len / 2 < len)%nat as Hhalf by (apply Nat.div_lt; lia).
        set (half := (len / 2)%nat) in *.
        destruct (lookup_lt_is_Some_2 l (first + half)) as [y Hy]; [lia|]. rewrite Hy.
        destruct (below y) eqn:Hb; simpl; repeat split; try lia; intros i x Hx Hi; eauto with lia.
        -- apply (Hpart i (first + half)%nat x y); [lia|done..].
        -- destruct (below x) eqn:Hbx; [|done].
           rewrite (Hpart (first + half)%nat i y x) in Hb; [done|lia|done..].
    + split; [lia|]. split; [lia|]. intros i x Hx%lookup_lt_Some. lia.
    + lia.
  - apply wp_Ok_iff in Hwp as (k & Hk & Hk'). by exists k.
Qed.
