(* ===== verification/CString.v ===== *)
(** * String utilities: core/text/strutil.h, strutil-inline.h and strutil.cpp

    Pointers are addresses into a [mem]; 0 is nullptr.  A C string that is only
    handed to [strchr] (a set of chars) is given by its chars. *)

From stdpp Require Import base tactics list gmap strings.
From Stdlib Require Import ZArith Lia.
From S2P Require Import Prelude.
#[local] Open Scope Z_scope.

(** ** Char classes *)

Definition is_ascii_lower (c : Z) : bool := ("a"%ch <=? c) && (c <=? "z"%ch).
Definition is_ascii_upper (c : Z) : bool := ("A"%ch <=? c) && (c <=? "Z"%ch).
Definition is_ascii_alpha (c : Z) : bool :=
  ("A"%ch <=? c) && (c <=? "z"%ch) && (("a"%ch <=? c) || (c <=? "Z"%ch)).
Definition is_ascii_digit (c : Z) : bool := (c <=? "9"%ch) && ("0"%ch <=? c).
Definition is_ascii_alphanumeric (c : Z) : bool :=
  ((c <=? "9"%ch) && ("0"%ch <=? c)) ||
  (("A"%ch <=? c) && (c <=? "z"%ch) && (("a"%ch <=? c) || (c <=? "Z"%ch))).
Definition is_ascii_hex (c : Z) : bool :=
  if c <=? "9"%ch then "0"%ch <=? c
  else if c <=? "F"%ch then "A"%ch <=? c
  else if c <=? "f"%ch then "a"%ch <=? c else false.
Definition is_ascii_space_tab_or_eol (c : Z) : bool :=
  (c =? " "%ch) || (c =? TAB) || (c =? CR) || (c =? LF).
Definition is_ascii_whitespace (c : Z) : bool :=
  (c =? " "%ch) || ((c <=? CR) && (TAB <=? c)).

Definition get_ascii_digit_value (c : Z) : Z :=
  if (c <=? "9"%ch) && ("0"%ch <=? c) then c - "0"%ch else -1.
Definition get_ascii_hex_value (c : Z) : Z :=
  if (c <=? "9"%ch) && ("0"%ch <=? c) then c - "0"%ch
  else if "A"%ch <=? c then
    if c <=? "F"%ch then c - "A"%ch + 10
    else if ("a"%ch <=? c) && (c <=? "f"%ch) then c - "a"%ch + 10 else -1
  else -1.

Definition ascii_to_lower_case (c : Z) : Z :=
  if (c <=? "Z"%ch) && ("A"%ch <=? c) then to_char (c + 32) else c.
Definition ascii_to_upper_case (c : Z) : Z :=
  if ("a"%ch <=? c) && (c <=? "z"%ch) then to_char (c - 32) else c.

(** [strchr(set, c) != nullptr]: the terminating NUL of [set] counts. *)
Definition strchr_in (set : list Z) (c : Z) : bool := bool_decide (c ∈ set ++ [0]).

Definition ANY_WHITESPACE : list Z := [32; 9; 13; 10].
Definition LINE_WHITESPACE : list Z := [32; 9].

(** ** Searching and trimming *)

Definition find_char (m : mem) (p c e : Z) : res Z :=
  if p =? 0 then Ok 0
  else if e <? p then Ok p
  else iterate (span_fuel p e) (fun p =>
    if p <? e then
      let! x := load m p in
      if x =? c then Ok (inr p) else Ok (inl (p + 1))
    else Ok (inr e)) p.

Definition find_any_char (m : mem) (p : Z) (any : list Z) (e : Z) : res Z :=
  if p =? 0 then Ok 0
  else if e <? p then Ok p
  else iterate (span_fuel p e) (fun p =>
    if p <? e then
      let! x := load m p in
      if strchr_in any x then Ok (inr p) else Ok (inl (p + 1))
    else Ok (inr e)) p.

(** [None] for the [chars] argument is nullptr. *)
Definition ltrim (m : mem) (b e : Z) (chars : option (list Z)) : res Z :=
  if b =? 0 then Ok 0
  else if e <? b then Ok b
  else
    let chars := default ANY_WHITESPACE chars in
    iterate (span_fuel b e) (fun b =>
      if b <? e then
        let! x := load m b in
        if strchr_in chars x then Ok (inl (b + 1)) else Ok (inr b)
      else Ok (inr b)) b.

Definition rtrim (m : mem) (b e : Z) (chars : option (list Z)) : res Z :=
  if b =? 0 then Ok 0
  else if e <? b then Ok b
  else
    let chars := default ANY_WHITESPACE chars in
    iterate (span_fuel b e) (fun e =>
      let e := e - 1 in
      if b <=? e then
        let! x := load m e in
        if strchr_in chars x then Ok (inl e) else Ok (inr (e + 1))
      else Ok (inr b)) e.

Definition is_null_or_empty (m : mem) (p : Z) : res bool :=
  if p =? 0 then Ok true else let! c := load m p in Ok (c =? 0).

Definition scan_spaces_and_tabs (m : mem) (p e : Z) : res Z :=
  iterate (span_fuel p e) (fun p =>
    if p <? e then
      let! c := load m p in
      if negb (c =? " "%ch) && negb (c =? TAB) then Ok (inr p) else Ok (inl (p + 1))
    else Ok (inr p)) p.

Definition consume_line_break (m : mem) (p e : Z) : res Z :=
  let! p :=
    if p + 1 <? e then
      let! c := load m p in
      if c =? CR then
        let! d := load m (p + 1) in
        if d =? LF then Ok (p + 1) else Ok p
      else Ok p
    else Ok p in
  Ok (p + 1).

Section fold_case.
(** The overloads of [ascii_to_lower_case] and [ascii_to_upper_case] on buffers
    differ only in the char function [f]: one folds a NUL-terminated buffer in
    place, the other a range. *)
Context (f : Z -> Z).

Definition fold_case_step (st : mem * Z) : res (mem * Z + mem) :=
  let '(m, p) := st in
  let! c := load m p in
  if c =? 0 then Ok (inr m)
  else let! m := store m p (f c) in Ok (inl (m, p + 1)).
Definition fold_case_cstr (m : mem) (ptr : Z) : res (mem * Z) :=
  if negb (ptr =? 0) then
    let! m := iterate (S (size m)) fold_case_step (m, ptr) in Ok (m, ptr)
  else Ok (m, ptr).

Definition fold_case_range_step (e : Z) (st : mem * Z) : res (mem * Z + mem) :=
  let '(m, p) := st in
  if p <? e then
    let! c := load m p in
    let! m := store m p (f c) in Ok (inl (m, p + 1))
  else Ok (inr m).
Definition fold_case_range (m : mem) (ptr e : Z) : res (mem * Z) :=
  if negb (ptr =? 0) then
    let! m := iterate (span_fuel ptr e) (fold_case_range_step e) (m, ptr) in Ok (m, ptr)
  else Ok (m, ptr).
End fold_case.

Definition ascii_to_lower_case_cstr := fold_case_cstr ascii_to_lower_case.
Definition ascii_to_lower_case_range := fold_case_range ascii_to_lower_case.
Definition ascii_to_upper_case_cstr := fold_case_cstr ascii_to_upper_case.
Definition ascii_to_upper_case_range := fold_case_range ascii_to_upper_case.

(** ** Case-insensitive comparison *)

(** The difference of two chars, [n] in the loop body, after the conditionals
    that move a lower case letter to upper case when the other char is an upper
    case letter. *)
Definition char_diff (cha chb : Z) : Z :=
  let n := cha - chb in
  if negb (n =? 0) then
    if ("a"%ch <=? cha) && (chb <=? "Z"%ch) && ("A"%ch <=? chb) && (cha <=? "z"%ch)
    then to_char (cha - 32) - chb
    else if ("a"%ch <=? chb) && (cha <=? "Z"%ch) && ("A"%ch <=? cha) && (chb <=? "z"%ch)
    then cha - to_char (chb - 32)
    else n
  else n.

Definition compare_str_ascii_case_insensitive (m : mem) (a b : Z) : res Z :=
  if negb (a =? 0) then
    if negb (b =? 0) then
      iterate (S (size m)) (fun '(a, b) =>
        let! cha := load m a in
        let! chb := load m b in
        let n := char_diff cha chb in
        if negb (n =? 0) then Ok (inr (if 0 <? n then 1 else -1))
        else if cha =? 0 then Ok (inr 0)
        else Ok (inl (a + 1, b + 1))) (a, b)
    else Ok 1
  else Ok (if negb (b =? 0) then -1 else 0).

(** ** Splitting *)

(** [split_impl]: the pieces as pairs of their begin and end pointers.  The loop
    carries [p], [begin] and [returned]. *)
Definition split_step (m : mem) (splitters : list Z) (st : Z * Z * list (Z * Z)) :
    res (Z * Z * list (Z * Z) + list (Z * Z)) :=
  let '(p, b, returned) := st in
  let! c := load m p in
  if c =? 0 then
    Ok (inr (if negb (b =? 0) then returned ++ [(b, p)] else returned))
  else if strchr_in splitters c then
    if negb (b =? 0) then Ok (inl (p + 1, 0, returned ++ [(b, p)]))
    else Ok (inl (p + 1, b, returned))
  else
    if b =? 0 then Ok (inl (p + 1, p, returned)) else Ok (inl (p + 1, b, returned)).

Definition split_impl (m : mem) (txt : Z) (splitters : list Z) : res (list (Z * Z)) :=
  let! nothing := is_null_or_empty m txt in
  if nothing then Ok []
  else iterate (S (size m)) (split_step m splitters) (txt, 0, []).

(** The bytes of [[p, e)]. *)
Fixpoint load_n (m : mem) (p : Z) (n : nat) : res (list Z) :=
  match n with
  | O => Ok []
  | S n' => let! c := load m p in let! l := load_n m (p + 1) n' in Ok (c :: l)
  end.
Definition load_range (m : mem) (p e : Z) : res (list Z) := load_n m p (Z.to_nat (e - p)).

(** [split<std::string>]. *)
Fixpoint split_strings (m : mem) (pieces : list (Z * Z)) : res (list (list Z)) :=
  match pieces with
  | [] => Ok []
  | (b, e) :: rest =>
      let! s := load_range m b e in
      let! l := split_strings m rest in
      Ok (s :: l)
  end.
Definition split (m : mem) (p : Z) (splitters : list Z) : res (list (list Z)) :=
  let! pieces := split_impl m p splitters in split_strings m pieces.

(** * Specifications *)

Definition is_blank (c : Z) : bool := (c =? " "%ch) || (c =? TAB).

Lemma scan_spaces_and_tabs_spec m p l :
  holds m p l ->
  scan_spaces_and_tabs m p (p + Zlen l) = Ok (p + scan_len is_blank l).
Proof.
  intros Hm. unfold scan_spaces_and_tabs.
  eapply iterate_scan_len; eauto with intent.
  - intros q c Hc Hq. simpl. ztrue (q <? p + Zlen l). rewrite (load_Some _ _ _ Hc).
    simpl. unfold is_blank. by destruct (c =? 32), (c =? 9).
  - simpl. by rewrite Z.ltb_irrefl.
Qed.

Lemma find_char_spec m p c l :
  p <> 0 -> holds m p l ->
  find_char m p c (p + Zlen l) = Ok (p + scan_len (fun x => negb (x =? c)) l).
Proof.
  intros Hp Hm. unfold find_char. pose proof (Zlen_nonneg l).
  zfalse (p =? 0). zfalse (p + Zlen l <? p).
  eapply iterate_scan_len; eauto with intent.
  - intros q x Hx Hq. simpl. ztrue (q <? p + Zlen l). rewrite (load_Some _ _ _ Hx).
    simpl. by destruct (x =? c).
  - simpl. by rewrite Z.ltb_irrefl.
Qed.

Lemma find_any_char_spec m p any l :
  p <> 0 -> holds m p l ->
  find_any_char m p any (p + Zlen l) =
    Ok (p + scan_len (fun x => negb (strchr_in any x)) l).
Proof.
  intros Hp Hm. unfold find_any_char. pose proof (Zlen_nonneg l).
  zfalse (p =? 0). zfalse (p + Zlen l <? p).
  eapply iterate_scan_len; eauto with intent.
  - intros q x Hx Hq. simpl. ztrue (q <? p + Zlen l). rewrite (load_Some _ _ _ Hx).
    simpl. by destruct (strchr_in any x).
  - simpl. by rewrite Z.ltb_irrefl.
Qed.

Lemma ltrim_spec m p chars l :
  p <> 0 -> holds m p l ->
  ltrim m p (p + Zlen l) chars =
    Ok (p + scan_len (strchr_in (default ANY_WHITESPACE chars)) l).
Proof.
  intros Hp Hm. unfold ltrim. pose proof (Zlen_nonneg l).
  zfalse (p =? 0). zfalse (p + Zlen l <? p).
  eapply iterate_scan_len; eauto with intent.
  - intros q x Hx Hq. simpl. ztrue (q <? p + Zlen l). rewrite (load_Some _ _ _ Hx).
    simpl. by destruct (strchr_in _ x).
  - simpl. by rewrite Z.ltb_irrefl.
Qed.

(** Trimming on the right accepts from the last char backwards. *)
Lemma rtrim_spec m p chars l :
  p <> 0 -> holds m p l ->
  rtrim m p (p + Zlen l) chars =
    Ok (p + Zlen l - scan_len (strchr_in (default ANY_WHITESPACE chars)) (rev l)).
Proof.
  intros Hp Hm. unfold rtrim. pose proof (Zlen_nonneg l).
  zfalse (p =? 0). zfalse (p + Zlen l <? p). clear H.
  assert (length l < span_fuel p (p + Zlen l))%nat as Hf by eauto with intent.
  revert Hf. generalize (span_fuel p (p + Zlen l)). revert Hm.
  induction l as [|c l IH] using rev_ind; intros Hm fuel Hf;
    (destruct fuel as [|fuel]; [simpl in Hf; lia|]).
  - simpl. rewrite Zlen_nil, Z.add_0_r, Z.sub_0_r. by zfalse (p <=? p - 1).
  - rewrite rev_app_distr, Zlen_app, Zlen_cons, Zlen_nil. simpl.
    apply holds_app in Hm as [Hm [Hc _]]. pose proof (Zlen_nonneg l).
    replace (p + (Zlen l + (1 + 0)) - 1) with (p + Zlen l) by lia.
    ztrue (p <=? p + Zlen l). rewrite (load_Some _ _ _ Hc). simpl.
    destruct (strchr_in _ c); simpl; [|f_equal; lia].
    rewrite IH; [f_equal; lia|done|]. rewrite length_app in Hf. simpl in Hf. lia.
Qed.

(** ** Comparison *)

(** The comparison of two chars. *)
Definition char_cmp (c d : Z) : Z :=
  let n := char_diff c d in if n =? 0 then 0 else if 0 <? n then 1 else -1.

Fixpoint ci_cmp (la lb : list Z) : Z :=
  match la, lb with
  | [], [] => 0
  | [], d :: _ => char_cmp 0 d
  | c :: _, [] => char_cmp c 0
  | c :: la', d :: lb' =>
      let n := char_cmp c d in if n =? 0 then ci_cmp la' lb' else n
  end.

(** The chars of a C string: no NUL among them. *)
Definition no_nul (l : list Z) : Prop := 0 ∉ l.

Lemma no_nul_cons c l : no_nul (c :: l) <-> c <> 0 /\ no_nul l.
Proof. unfold no_nul. rewrite not_elem_of_cons. naive_solver. Qed.

Lemma to_char_small c : is_char c -> to_char c = c.
Proof. intros Hc. unfold is_char, to_char in *. rewrite Z.mod_small; lia. Qed.

Ltac char_cases :=
  unfold char_cmp, char_diff, ascii_to_upper_case;
  ztest; rewrite ?to_char_small in * by (unfold is_char; lia); ztest; try lia.

(** Two chars compare equal exactly when they agree up to case. *)
Lemma char_diff_0 c d :
  char_diff c d = 0 <-> ascii_to_upper_case c = ascii_to_upper_case d.
Proof. char_cases. Qed.

Lemma char_cmp_0 c d :
  char_cmp c d = 0 <-> ascii_to_upper_case c = ascii_to_upper_case d.
Proof. rewrite <- char_diff_0. unfold char_cmp. ztest. Qed.

(** [m] holds the C string [l] at [a]. *)
Definition holds_cstr (m : mem) (a : Z) (l : list Z) : Prop :=
  0 < a /\ holds m a (l ++ [0]) /\ no_nul l.
#[export] Instance holds_cstr_dec m a l : Decision (holds_cstr m a l).
Proof. unfold holds_cstr, no_nul. apply _. Defined.

Lemma holds_cstr_cons m a c l :
  holds m a ((c :: l) ++ [0]) <-> m !! a = Some c /\ holds m (a + 1) (l ++ [0]).
Proof. done. Qed.

Lemma holds_cstr_size m a l : holds m a (l ++ [0]) -> (length l < S (size m))%nat.
Proof. intros Hm%holds_length. rewrite length_app in Hm. simpl in Hm. lia. Qed.

Lemma compare_str_spec m a b la lb :
  holds_cstr m a la -> holds_cstr m b lb ->
  compare_str_ascii_case_insensitive m a b = Ok (ci_cmp la lb).
Proof.
  intros (Ha0 & Ha & Hla) (Hb0 & Hb & Hlb). unfold compare_str_ascii_case_insensitive.
  zfalse (a =? 0). zfalse (b =? 0). cbn [negb]. pose proof (holds_cstr_size _ _ _ Ha) as Hf.
  clear Ha0 Hb0. revert Hf. generalize (S (size m)). revert a b lb Ha Hb Hla Hlb.
  induction la as [|c la IH]; intros a b lb Ha Hb Hla Hlb fuel Hf;
    (destruct fuel as [|fuel]; [simpl in Hf; lia|]); simpl.
  - destruct Ha as [Ha _]. rewrite (load_Some _ _ _ Ha). simpl.
    destruct lb as [|d lb]; simpl in Hb; destruct Hb as [Hb _];
      rewrite (load_Some _ _ _ Hb); simpl; [done|].
    apply no_nul_cons in Hlb as [Hd _].
    assert (char_diff 0 d <> 0) as Hn by (unfold char_diff; ztest).
    unfold char_cmp. by zfalse (char_diff 0 d =? 0).
  - destruct Ha as [Ha Ha']. rewrite (load_Some _ _ _ Ha). simpl.
    apply no_nul_cons in Hla as [Hc Hla].
    destruct lb as [|d lb]; simpl in Hb; destruct Hb as [Hb Hb'];
      rewrite (load_Some _ _ _ Hb); simpl.
    + assert (char_diff c 0 <> 0) as Hn by (unfold char_diff; ztest).
      unfold char_cmp. by zfalse (char_diff c 0 =? 0).
    + apply no_nul_cons in Hlb as [_ Hlb].
      specialize (IH (a + 1) (b + 1) lb Ha' Hb' Hla Hlb fuel ltac:(simpl in Hf; lia)).
      unfold char_cmp. destruct (Z.eqb_spec (char_diff c d) 0); simpl.
      * zfalse (c =? 0). by rewrite <- IH.
      * by destruct (0 <? char_diff c d).
Qed.

(** ** The order on C strings *)

Lemma char_cmp_antisym c d : char_cmp d c = - char_cmp c d.
Proof. char_cases. Qed.

Lemma char_cmp_refl c : char_cmp c c = 0.
Proof. by apply char_cmp_0. Qed.

Lemma upper_nul c : is_char c -> ascii_to_upper_case c = 0 <-> c = 0.
Proof. intros ?. char_cases. Qed.

Lemma ci_cmp_antisym la lb : ci_cmp lb la = - ci_cmp la lb.
Proof.
  revert lb. induction la as [|c la IH]; intros [|d lb]; simpl;
    rewrite 1?(char_cmp_antisym _ 0), 1?(char_cmp_antisym 0); try done; try lia.
  rewrite (char_cmp_antisym c d), IH.
  destruct (Z.eqb_spec (char_cmp c d) 0) as [->|?]; [done|].
  by zfalse (- char_cmp c d =? 0).
Qed.

Lemma ci_cmp_range la lb : -1 <= ci_cmp la lb <= 1.
Proof.
  assert (forall c d, -1 <= char_cmp c d <= 1) as Hc by (intros; unfold char_cmp; ztest).
  revert lb. induction la as [|c la IH]; intros [|d lb]; simpl; auto; [lia|].
  destruct (char_cmp c d =? 0); auto.
Qed.

Lemma ci_cmp_0 la lb :
  no_nul la -> no_nul lb -> Forall is_char la -> Forall is_char lb ->
  ci_cmp la lb = 0 <-> map ascii_to_upper_case la = map ascii_to_upper_case lb.
Proof.
  revert lb. induction la as [|c la IH]; intros [|d lb] Hla Hlb Ha Hb; simpl; try done.
  - apply no_nul_cons in Hlb as [Hd _]. apply Forall_cons in Hb as [Hb _].
    rewrite char_cmp_0. pose proof (upper_nul d Hb). split; [|done].
    intros E. symmetry in E. change (ascii_to_upper_case 0) with 0 in E. tauto.
  - apply no_nul_cons in Hla as [Hc _]. apply Forall_cons in Ha as [Ha _].
    rewrite char_cmp_0. pose proof (upper_nul c Ha). split; [|done].
    intros E. change (ascii_to_upper_case 0) with 0 in E. tauto.
  - apply no_nul_cons in Hla as [_ Hla], Hlb as [_ Hlb].
    apply Forall_cons in Ha as [_ Ha], Hb as [_ Hb].
    destruct (Z.eqb_spec (char_cmp c d) 0) as [E|E].
    + rewrite IH by done. apply char_cmp_0 in E. rewrite E. split; [by intros ->|by intros [=]].
    + split; [lia|]. intros [= E' _]. by apply char_cmp_0 in E'.
Qed.

(** The six chars between 'Z' and 'a' sit on different sides of a letter
    depending on its case, so they are kept out of the ordering laws. *)
Definition plain_char (c : Z) : Prop := is_char c /\ ~ ("Z"%ch < c < "a"%ch).

Lemma char_cmp_upper c d :
  plain_char c -> plain_char d ->
  char_cmp c d = Z.sgn (ascii_to_upper_case c - ascii_to_upper_case d).
Proof. unfold plain_char. intros [Hc Hc'] [Hd Hd']. char_cases. Qed.

(** Lexicographic comparison, a string ending like a NUL. *)
Fixpoint zlex (la lb : list Z) : Z :=
  match la, lb with
  | [], [] => 0
  | [], d :: _ => Z.sgn (0 - d)
  | c :: _, [] => Z.sgn (c - 0)
  | c :: la', d :: lb' =>
      let n := Z.sgn (c - d) in if n =? 0 then zlex la' lb' else n
  end.

Lemma ci_cmp_zlex la lb :
  Forall plain_char la -> Forall plain_char lb ->
  ci_cmp la lb = zlex (map ascii_to_upper_case la) (map ascii_to_upper_case lb).
Proof.
  assert (plain_char 0) as H0 by (unfold plain_char, is_char; lia).
  intros Ha. revert lb. induction Ha as [|c la Hc Ha IH]; intros lb Hb;
    destruct Hb as [|d lb Hd Hb]; simpl; rewrite ?char_cmp_upper by done; try done.
  by rewrite IH.
Qed.

Lemma zlex_trans la lb lc :
  no_nul la -> no_nul lb -> no_nul lc ->
  zlex la lb <= 0 -> zlex lb lc <= 0 ->
  zlex la lc <= 0 /\ (zlex la lc = 0 -> zlex la lb = 0 /\ zlex lb lc = 0).
Proof.
  revert lb lc. induction la as [|a la IH]; intros [|b lb] [|c lc] Ha Hb Hc; simpl;
    rewrite ?no_nul_cons in *; try (ztest; lia).
  specialize (IH lb lc ltac:(naive_solver) ltac:(naive_solver) ltac:(naive_solver)).
  ztest; intros; try (split; [lia|]; intros; lia).
Qed.

Lemma upper_no_nul l : Forall is_char l -> no_nul l -> no_nul (map ascii_to_upper_case l).
Proof.
  intros Hl. induction Hl as [|c l Hc Hl IH]; simpl; [done|].
  rewrite !no_nul_cons, upper_nul by done. naive_solver.
Qed.

(** ** Splitting *)

Lemma load_range_spec m b l : holds m b l -> load_range m b (b + Zlen l) = Ok l.
Proof.
  unfold load_range. replace (b + Zlen l - b) with (Zlen l) by lia.
  unfold Zlen. rewrite Nat2Z.id. revert b.
  induction l as [|c l IH]; intros b; simpl; [done|]. intros [Hc Hl].
  rewrite (load_Some _ _ _ Hc). simpl. by rewrite IH.
Qed.

(** The maximal runs of chars that are not separators; [cur] is the run being
    read. *)
Fixpoint runs (sep : Z -> bool) (l cur : list Z) : list (list Z) :=
  match l with
  | [] => if decide (cur = []) then [] else [cur]
  | c :: l' =>
      if sep c then (if decide (cur = []) then [] else [cur]) ++ runs sep l' []
      else runs sep l' (cur ++ [c])
  end.

(** The runs are what is left of the text when the separators go, and no run
    is empty or has a separator in it. *)
Lemma runs_concat sep l cur :
  concat (runs sep l cur) = cur ++ filter (fun c => sep c = false) l.
Proof.
  revert cur. induction l as [|c l IH]; intros cur; simpl.
  - case_decide; subst; simpl; by rewrite ?app_nil_r.
  - rewrite filter_cons. destruct (sep c) eqn:Hc.
    + rewrite (decide_False (P := true = false)) by done. rewrite concat_app, IH. f_equal.
      case_decide; subst; simpl; by rewrite ?app_nil_r.
    + rewrite (decide_True (P := false = false)) by done. rewrite IH. by rewrite <- app_assoc.
Qed.

Lemma runs_pieces sep l cur :
  Forall (fun c => sep c = false) cur ->
  Forall (fun r => r <> [] /\ Forall (fun c => sep c = false) r) (runs sep l cur).
Proof.
  revert cur. induction l as [|c l IH]; intros cur Hcur; simpl.
  - case_decide; auto.
  - destruct (sep c) eqn:Hc.
    + apply Forall_app. split; [|by apply IH]. case_decide; auto.
    + apply IH. apply Forall_app. by repeat constructor.
Qed.

(** Pieces given by pointers, and what they hold. *)
Definition piece_holds (m : mem) (be : Z * Z) (l : list Z) : Prop :=
  be.1 <> 0 /\ holds m be.1 l /\ be.2 = be.1 + Zlen l.

Lemma split_strings_spec m ps ls :
  Forall2 (piece_holds m) ps ls -> split_strings m ps = Ok ls.
Proof.
  induction 1 as [|[b e] l ps ls (_ & Hl & He) _ IH]; simpl; [done|]. simpl in *.
  subst e. by rewrite load_range_spec, IH.
Qed.

(** What [begin] says about the run being read: null when there is none. *)
Definition run_at (m : mem) (b p : Z) (cur : list Z) : Prop :=
  if decide (cur = []) then b = 0 else piece_holds m (b, p) cur /\ 0 < b.

Lemma run_at_push m b p cur acc accl :
  run_at m b p cur -> Forall2 (piece_holds m) acc accl ->
  Forall2 (piece_holds m) (if negb (b =? 0) then acc ++ [(b, p)] else acc)
    (accl ++ (if decide (cur = []) then [] else [cur])).
Proof.
  unfold run_at. intros Hb Hacc. case_decide.
  - subst b. simpl. by rewrite app_nil_r.
  - zfalse (b =? 0). simpl. apply Forall2_app; [done|]. constructor; [by destruct Hb|constructor].
Qed.

Lemma run_at_snoc m b p cur c :
  run_at m b p cur -> m !! p = Some c -> 0 < p ->
  run_at m (if b =? 0 then p else b) (p + 1) (cur ++ [c]).
Proof.
  unfold run_at. intros Hb Hc Hp. rewrite (decide_False (P := cur ++ [c] = [])) by (by destruct cur).
  case_decide as Hd.
  - subst. rewrite Z.eqb_refl. repeat split; simpl; auto; lia.
  - destruct Hb as [(Hb0 & Hcur & He) Hb]. simpl in *. zfalse (b =? 0).
    repeat split; simpl; [lia| |rewrite Zlen_app, Zlen_cons, Zlen_nil; lia|lia].
    apply holds_app. simpl. rewrite <- He. naive_solver.
Qed.

Lemma split_loop m splitters l : forall fuel p b cur acc accl,
  holds m p (l ++ [0]) -> no_nul l -> (length l < fuel)%nat -> 0 < p ->
  run_at m b p cur -> Forall2 (piece_holds m) acc accl ->
  exists ps, iterate fuel (split_step m splitters) (p, b, acc) = Ok ps /\
    Forall2 (piece_holds m) ps (accl ++ runs (strchr_in splitters) l cur).
Proof.
  induction l as [|c l IH]; intros fuel p b cur acc accl Hm Hl Hf Hp Hb Hacc;
    (destruct fuel as [|fuel]; [simpl in Hf; lia|]); destruct Hm as [Hc Hm];
    simpl; rewrite (load_Some _ _ _ Hc); simpl.
  - eexists. split; [done|]. by apply run_at_push.
  - apply no_nul_cons in Hl as [Hc0 Hl]. zfalse (c =? 0). simpl in Hf.
    destruct (strchr_in splitters c) eqn:Hs.
    + destruct (IH fuel (p + 1) 0 [] (if negb (b =? 0) then acc ++ [(b, p)] else acc)
        (accl ++ (if decide (cur = []) then [] else [cur]))) as (ps & Hit & Hps);
        auto using run_at_push; try lia; [done|].
      exists ps. rewrite <- app_assoc in Hps. split; [|done]. rewrite <- Hit.
      destruct (Z.eqb_spec b 0) as [->|]; reflexivity.
    + destruct (IH fuel (p + 1) (if b =? 0 then p else b) (cur ++ [c]) acc accl)
        as (ps & Hit & Hps); auto using run_at_snoc; try lia.
      exists ps. split; [|done]. rewrite <- Hit. by destruct (b =? 0).
Qed.

Lemma split_spec m txt splitters l :
  holds_cstr m txt l ->
  split m txt splitters = Ok (runs (strchr_in splitters) l []).
Proof.
  intros (Htxt & Hm & Hl). unfold split, split_impl, is_null_or_empty. zfalse (txt =? 0).
  destruct (split_loop m splitters l (S (size m)) txt 0 [] [] []) as (ps & Hit & Hps);
    [done|done|by eapply holds_cstr_size|done|done|constructor|].
  destruct l as [|c l].
  - destruct Hm as [Hc _]. by rewrite (load_Some _ _ _ Hc).
  - pose proof Hm as [Hc _]. rewrite (load_Some _ _ _ Hc). cbn [bind].
    pose proof Hl as [Hc' _]%no_nul_cons. zfalse (c =? 0). rewrite Hit. cbn [bind].
    by apply split_strings_spec.
Qed.

(** ** Trimming both ends *)

Lemma rtrim_split ok l :
  exists l1 l2, l = l1 ++ l2 /\ Zlen l2 = scan_len ok (rev l) /\
    Forall (fun c => ok c = true) l2 /\ (forall c, last l1 = Some c -> ok c = false).
Proof.
  destruct (scan_len_split ok (rev l)) as (a & b & Hl & Hlen & Ha & Hb).
  exists (rev b), (rev a). apply (f_equal (@rev Z)) in Hl.
  rewrite rev_involutive, rev_app_distr in Hl. split_and!; [done| | |].
  - rewrite <- Hlen. unfold Zlen. by rewrite length_rev.
  - by apply Forall_rev.
  - intros c Hc. apply Hb. apply last_Some in Hc as [b' E].
    apply (f_equal (@rev Z)) in E. rewrite rev_involutive, rev_app_distr in E. by subst.
Qed.

(** ** Folding case in place *)

(** [m'] holds [l'] where [m] holds [l], and is [m] elsewhere. *)
Definition updates (m m' : mem) (a : Z) (l' : list Z) : Prop :=
  holds m' a l' /\ forall b, b < a \/ a + Zlen l' <= b -> m' !! b = m !! b.

Lemma updates_snoc m0 m ptr pre p c d :
  updates m0 m ptr pre -> p = ptr + Zlen pre -> m !! p = Some c ->
  updates m0 (<[p := d]> m) ptr (pre ++ [d]).
Proof.
  intros [Hpre Helse] Hp Hc. pose proof (Zlen_nonneg pre). split.
  - apply holds_app. simpl. rewrite <- Hp, lookup_insert_eq. split; [|done].
    apply holds_insert_ne; [lia|done].
  - intros b Hb. rewrite Zlen_app, Zlen_cons, Zlen_nil in Hb.
    rewrite lookup_insert_ne by lia. apply Helse. lia.
Qed.

Lemma fold_case_loop f m0 ptr l : forall fuel m p pre,
  holds m p (l ++ [0]) -> no_nul l -> (length l < fuel)%nat ->
  updates m0 m ptr pre -> p = ptr + Zlen pre ->
  exists m', iterate fuel (fold_case_step f) (m, p) = Ok m' /\ updates m0 m' ptr (pre ++ map f l).
Proof.
  induction l as [|c l IH]; intros fuel m p pre Hm Hl Hf Hup Hp;
    (destruct fuel as [|fuel]; [simpl in Hf; lia|]); destruct Hm as [Hc Hm];
    simpl; rewrite (load_Some _ _ _ Hc); simpl.
  - exists m. by rewrite app_nil_r.
  - apply no_nul_cons in Hl as [Hc0 Hl]. zfalse (c =? 0). unfold store. rewrite Hc. simpl.
    replace (pre ++ f c :: map f l) with ((pre ++ [f c]) ++ map f l) by by rewrite <- app_assoc.
    apply IH; [|done|simpl in Hf; lia|by eapply updates_snoc|].
    + apply holds_insert_ne; [lia|done].
    + rewrite Zlen_app, Zlen_cons, Zlen_nil. lia.
Qed.

Lemma fold_case_range_loop f m0 ptr l : forall fuel m p pre,
  holds m p l -> (length l < fuel)%nat ->
  updates m0 m ptr pre -> p = ptr + Zlen pre ->
  exists m', iterate fuel (fold_case_range_step f (p + Zlen l)) (m, p) = Ok m' /\
    updates m0 m' ptr (pre ++ map f l).
Proof.
  induction l as [|c l IH]; intros fuel m p pre Hm Hf Hup Hp;
    (destruct fuel as [|fuel]; [simpl in Hf; lia|]); simpl.
  - rewrite Zlen_nil, Z.add_0_r, Z.ltb_irrefl. exists m. by rewrite app_nil_r.
  - destruct Hm as [Hc Hm]. rewrite Zlen_cons. pose proof (Zlen_nonneg l).
    ztrue (p <? p + (1 + Zlen l)). rewrite (load_Some _ _ _ Hc). simpl. unfold store. rewrite Hc. simpl.
    replace (pre ++ f c :: map f l) with ((pre ++ [f c]) ++ map f l) by by rewrite <- app_assoc.
    rewrite Z.add_assoc. apply IH; [|simpl in Hf; lia|by eapply updates_snoc|].
    + apply holds_insert_ne; [lia|done].
    + rewrite Zlen_app, Zlen_cons, Zlen_nil. lia.
Qed.

Lemma fold_case_cstr_spec f m a l :
  holds_cstr m a l ->
  exists m', fold_case_cstr f m a = Ok (m', a) /\ updates m m' a (map f l).
Proof.
  intros (Ha & Hm & Hl). unfold fold_case_cstr. zfalse (a =? 0). cbn [negb].
  destruct (fold_case_loop f m a l (S (size m)) m a []) as (m' & Hit & Hup);
    [done|done|by eapply holds_cstr_size|by split|by rewrite Zlen_nil, Z.add_0_r|].
  exists m'. by rewrite Hit.
Qed.

Lemma fold_case_range_spec f m a l :
  0 < a -> holds m a l ->
  exists m', fold_case_range f m a (a + Zlen l) = Ok (m', a) /\ updates m m' a (map f l).
Proof.
  intros Ha Hm. unfold fold_case_range. zfalse (a =? 0). cbn [negb].
  destruct (fold_case_range_loop f m a l (span_fuel a (a + Zlen l)) m a []) as (m' & Hit & Hup);
    eauto with intent; [by split|by rewrite Zlen_nil, Z.add_0_r|].
  exists m'. by rewrite Hit.
Qed.

(** A C string outside the updated block, and the updated block itself. *)
Lemma holds_cstr_outside m m' a l' b lb :
  updates m m' a l' -> holds_cstr m b lb -> b + Zlen lb < a \/ a + Zlen l' <= b ->
  holds_cstr m' b lb.
Proof.
  intros [_ Helse] (Hb & Hm & Hl) Hdis. split; [done|]. split; [|done].
  apply holds_of_lookup. intros i c Hi. rewrite Helse; [by eapply holds_lookup|].
  apply lookup_lt_Some in Hi. rewrite length_app in Hi. simpl in Hi. unfold Zlen in *. lia.
Qed.

Lemma updates_cstr m m' a l l' :
  updates m m' a l' -> holds_cstr m a l -> length l' = length l -> no_nul l' ->
  holds_cstr m' a l'.
Proof.
  intros [Hl' Helse] (Ha & Hm & _) Hlen Hnul. split; [done|]. split; [|done].
  apply holds_app. split; [done|]. simpl. split; [|done].
  pose proof (Zlen_nonneg l'). rewrite Helse by lia.
  apply holds_app in Hm as [_ [Hm _]]. by replace (Zlen l') with (Zlen l) by (unfold Zlen; lia).
Qed.

Lemma lower_range c : is_char c -> is_char (ascii_to_lower_case c) /\ (ascii_to_lower_case c = 0 <-> c = 0).
Proof.
  intros Hc. unfold ascii_to_lower_case. unfold is_char in *.
  ztest; rewrite ?to_char_small by (unfold is_char; lia); lia.
Qed.

Lemma lower_is_char l : Forall is_char l -> Forall is_char (map ascii_to_lower_case l).
Proof. induction 1; constructor; [by apply lower_range|done]. Qed.

Lemma lower_no_nul l : Forall is_char l -> no_nul l -> no_nul (map ascii_to_lower_case l).
Proof.
  induction 1 as [|c l Hc Hl IH]; simpl; [done|].
  rewrite !no_nul_cons. pose proof (lower_range c Hc). naive_solver.
Qed.

Lemma upper_lower c : ascii_to_upper_case (ascii_to_lower_case c) = ascii_to_upper_case c.
Proof.
  unfold ascii_to_lower_case, ascii_to_upper_case.
  ztest; rewrite ?to_char_small in * by (unfold is_char; lia); lia.
Qed.

(** * Properties *)

(** [compare_str_ascii_case_insensitive] on two C strings returns -1, 0 or
    1; swapping its arguments negates the result; and it returns 0 exactly when
    the strings are equal up to ASCII case. *)
Theorem compare_str_equality m a b la lb :
  holds_cstr m a la -> holds_cstr m b lb -> Forall is_char la -> Forall is_char lb ->
  exists n,
    compare_str_ascii_case_insensitive m a b = Ok n /\
    compare_str_ascii_case_insensitive m b a = Ok (- n) /\
    -1 <= n <= 1 /\
    (n = 0 <-> map ascii_to_upper_case la = map ascii_to_upper_case lb).
Proof.
  intros Ha Hb Hla Hlb. exists (ci_cmp la lb).
  rewrite (compare_str_spec m a b la lb), (compare_str_spec m b a lb la) by done.
  rewrite (ci_cmp_antisym la lb). split; [done|]. split; [done|]. split; [apply ci_cmp_range|].
  destruct Ha as (_ & _ & ?), Hb as (_ & _ & ?). by apply ci_cmp_0.
Qed.

(** Two literals in one memory. *)
Definition two_strings : mem := cstr_at 16 "Content-Type" ∪ cstr_at 64 "CONTENT-type".

Lemma compare_str_equality_witness :
  exists n,
    compare_str_ascii_case_insensitive two_strings 16 64 = Ok n /\
    compare_str_ascii_case_insensitive two_strings 64 16 = Ok (- n) /\
    -1 <= n <= 1 /\
    (n = 0 <-> map ascii_to_upper_case (str "Content-Type") =
               map ascii_to_upper_case (str "CONTENT-type")).
Proof.
  apply (compare_str_equality two_strings 16 64 (str "Content-Type") (str "CONTENT-type"));
    decided.
Defined.

(** [split] on a C string returns the text between separators: joined
    together the pieces are the text without its separators, in order, no piece is empty
    and no piece has a separator in it. *)
Theorem split_pieces m txt splitters l :
  holds_cstr m txt l ->
  exists pieces,
    split m txt splitters = Ok pieces /\
    concat pieces = filter (fun c => strchr_in splitters c = false) l /\
    Forall (fun r => r <> [] /\ Forall (fun c => strchr_in splitters c = false) r) pieces.
Proof.
  intros Hm. exists (runs (strchr_in splitters) l []).
  split; [by apply split_spec|]. split; [apply runs_concat|by apply runs_pieces].
Qed.

Lemma split_pieces_witness :
  exists pieces,
    split (cstr_at 16 " a,bc, d") 16 (str " ,") = Ok pieces /\
    concat pieces = filter (fun c => strchr_in (str " ,") c = false) (str " a,bc, d") /\
    Forall (fun r => r <> [] /\ Forall (fun c => strchr_in (str " ,") c = false) r) pieces.
Proof. apply (split_pieces (cstr_at 16 " a,bc, d") 16 (str " ,") (str " a,bc, d")). decided. Defined.

(** trimming a non-null block on the left and then on the right leaves what is
    between the maximal runs of trimmed chars at its ends. *)
Theorem trim_both_ends m p chars l :
  0 < p -> holds m p l ->
  let trimmed := strchr_in (default ANY_WHITESPACE chars) in
  exists l1 mid l2, l = l1 ++ mid ++ l2 /\
    ltrim m p (p + Zlen l) chars = Ok (p + Zlen l1) /\
    rtrim m (p + Zlen l1) (p + Zlen l) chars = Ok (p + Zlen l1 + Zlen mid) /\
    Forall (fun c => trimmed c = true) l1 /\ Forall (fun c => trimmed c = true) l2 /\
    (forall c, head mid = Some c -> trimmed c = false) /\
    (forall c, last mid = Some c -> trimmed c = false).
Proof.
  intros Hp Hm trimmed.
  destruct (scan_len_split trimmed l) as (l1 & l' & -> & Hlen & Hl1 & Hhd).
  destruct (rtrim_split trimmed l') as (mid & l2 & -> & Hlen2 & Hl2 & Hlast).
  exists l1, mid, l2. pose proof (Zlen_nonneg l1).
  pose proof Hm as [_ Hm']%holds_app. split; [done|].
  rewrite (ltrim_spec m p) by (done || lia). fold trimmed. rewrite <- Hlen.
  rewrite (Zlen_app l1), Z.add_assoc, (rtrim_spec m (p + Zlen l1)) by (done || lia).
  fold trimmed. rewrite <- Hlen2. split; [done|]. split; [rewrite Zlen_app; f_equal; lia|].
  split; [done|]. split; [done|]. split; [|done].
  intros c Hc. apply Hhd. by destruct mid.
Qed.

Lemma trim_both_ends_witness :
  let trimmed := strchr_in (default ANY_WHITESPACE None) in
  exists l1 mid l2, str "  a b " = l1 ++ mid ++ l2 /\
    ltrim (cstr_at 16 "  a b ") 16 (16 + Zlen (str "  a b ")) None = Ok (16 + Zlen l1) /\
    rtrim (cstr_at 16 "  a b ") (16 + Zlen l1) (16 + Zlen (str "  a b ")) None =
      Ok (16 + Zlen l1 + Zlen mid) /\
    Forall (fun c => trimmed c = true) l1 /\ Forall (fun c => trimmed c = true) l2 /\
    (forall c, head mid = Some c -> trimmed c = false) /\
    (forall c, last mid = Some c -> trimmed c = false).
Proof.
  apply (trim_both_ends (cstr_at 16 "  a b ") 16 None (str "  a b ")); decided.
Defined.

(** folding a C string to lower case in place maps each of its chars, keeps every
    other byte of memory, and keeps it equal to the same strings up to case. *)
Theorem fold_lower_case_in_place m a b l lb :
  holds_cstr m a l -> holds_cstr m b lb -> Forall is_char l -> Forall is_char lb ->
  b + Zlen lb < a \/ a + Zlen l < b ->
  exists m',
    ascii_to_lower_case_cstr m a = Ok (m', a) /\
    updates m m' a (map ascii_to_lower_case l) /\
    (compare_str_ascii_case_insensitive m' a b = Ok 0 <->
     compare_str_ascii_case_insensitive m a b = Ok 0).
Proof.
  intros Ha Hb Hl Hlb Hdis.
  destruct (fold_case_cstr_spec ascii_to_lower_case m a l Ha) as (m' & Hrun & Hup).
  exists m'. split; [done|]. split; [done|].
  rewrite (compare_str_spec m a b l lb) by done.
  rewrite (compare_str_spec m' a b (map ascii_to_lower_case l) lb).
  - destruct Ha as (_ & _ & Hnl), Hb as (_ & _ & Hnlb).
    assert (forall x y : Z, @Ok Z x = Ok y <-> x = y) as Hok by naive_solver.
    rewrite !Hok, !ci_cmp_0 by eauto using lower_no_nul, lower_is_char.
    by rewrite map_map, (map_ext _ _ upper_lower).
  - apply (updates_cstr m m' a l); [done|done|by rewrite length_map|].
    destruct Ha as (_ & _ & ?). by apply lower_no_nul.
  - eapply holds_cstr_outside; eauto. unfold Zlen in *. rewrite length_map. lia.
Qed.

Lemma fold_lower_case_in_place_witness :
  exists m',
    ascii_to_lower_case_cstr two_strings 16 = Ok (m', 16) /\
    updates two_strings m' 16 (map ascii_to_lower_case (str "Content-Type")) /\
    (compare_str_ascii_case_insensitive m' 16 64 = Ok 0 <->
     compare_str_ascii_case_insensitive two_strings 16 64 = Ok 0).
Proof.
  apply (fold_lower_case_in_place two_strings 16 64 (str "Content-Type") (str "CONTENT-type"));
    decided.
Defined.
