(* ===== verification/ScanNumbers.v ===== *)
(** * Reading numbers: core/text/scan_numbers.cpp and numeric_formats.h/.cpp

    [uint64_t] accumulators wrap at 2^64.  A [double] is an IEEE 754 binary64
    value of [SpecFloat]; the C library's [pow] is a parameter. *)

From stdpp Require Import base tactics list gmap strings.
From Stdlib Require Import ZArith Lia.
From Stdlib Require Import SpecFloat.
From S2P Require Import Prelude CString.
#[local] Open Scope Z_scope.

(** ** Doubles *)

Definition double := spec_float.
Definition double_of_Z (z : Z) : double := binary_normalize 53 1024 z 0 false.
Definition dadd : double -> double -> double := SFadd 53 1024.
Definition dmul : double -> double -> double := SFmul 53 1024.
Definition ddiv : double -> double -> double := SFdiv 53 1024.

(** ** Digit scanners *)

Definition scan_hex_digits (m : mem) (p e : Z) : res (Z * Z) :=
  iterate (span_fuel p e) (fun '(p, n) =>
    if p <? e then
      let! c := load m p in
      if ("0"%ch <=? c) && (c <=? "9"%ch) then
        Ok (inl (p + 1, u64 (u64 (n * 16) + (c - "0"%ch))))
      else if ("a"%ch <=? c) && (c <=? "f"%ch) then
        Ok (inl (p + 1, u64 (u64 (u64 (n * 16) + 10) + (c - "a"%ch))))
      else if ("A"%ch <=? c) && (c <=? "F"%ch) then
        Ok (inl (p + 1, u64 (u64 (u64 (n * 16) + 10) + (c - "A"%ch))))
      else if negb (c =? "_"%ch) then Ok (inr (p, n))
      else Ok (inl (p + 1, n))
    else Ok (inr (p, n))) (p, 0).

Definition scan_binary_digits (m : mem) (p e : Z) : res (Z * Z) :=
  iterate (span_fuel p e) (fun '(p, n) =>
    if p <? e then
      let! c := load m p in
      if c =? "0"%ch then Ok (inl (p + 1, u64 (Z.shiftl n 1)))
      else if c =? "1"%ch then Ok (inl (p + 1, Z.lor (u64 (Z.shiftl n 1)) 1))
      else if negb (c =? "_"%ch) then Ok (inr (p, n))
      else Ok (inl (p + 1, n))
    else Ok (inr (p, n))) (p, 0).

Definition scan_octal_digits (m : mem) (p e : Z) : res (Z * Z) :=
  iterate (span_fuel p e) (fun '(p, n) =>
    if p <? e then
      let! c := load m p in
      if ("0"%ch <=? c) && (c <=? "7"%ch) then
        Ok (inl (p + 1, u64 (u64 (n * 8) + (c - "0"%ch))))
      else if negb (c =? "_"%ch) then Ok (inr (p, n))
      else Ok (inl (p + 1, n))
    else Ok (inr (p, n))) (p, 0).

Definition scan_decimal_digits_pre_radix (m : mem) (p e : Z) : res (Z * Z) :=
  iterate (span_fuel p e) (fun '(p, n) =>
    if p <? e then
      let! c := load m p in
      if ("0"%ch <=? c) && (c <=? "9"%ch) then
        Ok (inl (p + 1, u64 (u64 (n * 10) + (c - "0"%ch))))
      else if negb (c =? "_"%ch) then Ok (inr (p, n))
      else Ok (inl (p + 1, n))
    else Ok (inr (p, n))) (p, 0).

Definition scan_decimal_digits_post_radix (m : mem) (p e : Z) : res (Z * double) :=
  let! (p, (n, _)) :=
    iterate (span_fuel p e) (fun '(p, (n, divisor)) =>
      if p <? e then
        let! c := load m p in
        if ("0"%ch <=? c) && (c <=? "9"%ch) then
          Ok (inl (p + 1, (dadd n (ddiv (double_of_Z (c - "0"%ch)) divisor),
                           dmul divisor (double_of_Z 10))))
        else if negb (c =? "_"%ch) then Ok (inr (p, (n, divisor)))
        else Ok (inl (p + 1, (n, divisor)))
      else Ok (inr (p, (n, divisor)))) (p, (double_of_Z 0, double_of_Z 10)) in
  Ok (p, n).

(** Returns the pointer, [negative] and [n]. *)
Definition scan_decimal_number (m : mem) (p e : Z) : res (Z * bool * Z) :=
  if negb (p =? 0) && (p <? e) then
    let! c := load m p in
    let negative := c =? "-"%ch in
    let p := if (c =? "+"%ch) || (c =? "-"%ch) then p + 1 else p in
    let! (p, n) := scan_decimal_digits_pre_radix m p e in
    Ok (p, negative, n)
  else Ok (p, false, 0).

(** ** Numeric formats: a bit set in an [unsigned] *)

Definition nf_decimal : Z := 1.
Definition nf_octal : Z := 2.
Definition nf_hex : Z := 4.
Definition nf_binary : Z := 8.
Definition nf_floating_point_only : Z := 16.
Definition nf_floating_point : Z := Z.lor 16 1.
Definition nf_all : Z := 31.

(** The bitwise operators core/util/enum_operators.h gives such enums. *)
Definition enum_or (lhs rhs : Z) : Z := u32 (Z.lor (u32 lhs) (u32 rhs)).
Definition enum_and (lhs rhs : Z) : Z := u32 (Z.land (u32 lhs) (u32 rhs)).
Definition enum_xor (lhs rhs : Z) : Z := u32 (Z.lxor (u32 lhs) (u32 rhs)).
Definition enum_not (lhs : Z) : Z := u32 (Z.lnot (u32 lhs)).

Definition numeric_format_name (this_bit : Z) : string :=
  if this_bit =? nf_decimal then "decimal"
  else if this_bit =? nf_octal then "octal"
  else if this_bit =? nf_hex then "hex"
  else if this_bit =? nf_binary then "binary"
  else if this_bit =? nf_floating_point_only then "float"
  else "".

(** The loop shifts [i] from the lowest bit while it is below [all]: the fuel is
    the number of bits of an [unsigned]. *)
Definition get_names_for_numeric_formats (f : Z) (delim : list Z) : res (list Z) :=
  iterate 32 (fun '(i, n, ss) =>
    if i <? nf_all then
      let this_bit := enum_and f i in
      let i' := u32 (Z.shiftl i 1) in
      if negb (this_bit =? 0) then
        let ss := if negb (n =? 0) then ss ++ delim else ss in
        Ok (inl (i', u32 (n + 1), ss ++ str (numeric_format_name this_bit)))
      else Ok (inl (i', n, ss))
    else Ok (inr ss)) (nf_decimal, 0, []).

(** ** Whole numbers and floating point *)

Inductive number : Type :=
| floating_point (d : double)
| whole_number (n : Z).

Record number_info : Type := {
  format : Z;
  value : number;
  negative : bool;
}.

Section scan_number.
Context (pow : double -> double -> double).

(** The part of [scan_number] from the decimal digits on: [floating] is
    [floating_point] and [whole] is [info.whole_number] so far. *)
Definition scan_radix_and_exponent (m : mem) (p e : Z) (floating negative : bool)
    (whole : Z) : res (Z * Z * number) :=
  let! (p, floating, significand) :=
    if negb floating && (p <? e) then
      let! c := load m p in
      if c =? "."%ch then
        let! (p, d) := scan_decimal_digits_post_radix m (p + 1) e in
        Ok (p, true, d)
      else Ok (p, floating, double_of_Z 0)
    else Ok (p, floating, double_of_Z 0) in
  let significand :=
    if floating then dadd significand (double_of_Z whole) else significand in
  let! c := if p + 1 <? e then load m p else Ok 0 in
  if (p + 1 <? e) && ((c =? "e"%ch) || (c =? "E"%ch)) then
    let! (p, negative_exponent, exponent) := scan_decimal_number m (p + 1) e in
    let exp := double_of_Z exponent in
    let exp := if negative_exponent then dmul exp (double_of_Z (-1)) else exp in
    let v := dmul significand (pow (double_of_Z 10) exp) in
    let v := if negative then dmul v (double_of_Z (-1)) else v in
    Ok (p, nf_floating_point_only, floating_point v)
  else if floating then Ok (p, nf_floating_point_only, floating_point significand)
  else Ok (p, nf_decimal, whole_number whole).

(** The optional sign: the pointer after it, the char there, and whether the
    sign is a minus. *)
Definition read_sign (m : mem) (text : Z) : res (Z * Z * bool) :=
  let! c := load m text in
  if (c =? "+"%ch) || (c =? "-"%ch)
  then let! d := load m (text + 1) in Ok (text + 1, d, c =? "-"%ch)
  else Ok (text, c, c =? "-"%ch).

Definition scan_number (m : mem) (text e allowed_formats : Z) : res (Z * number_info) :=
  let! (p, c, neg) := read_sign m text in
  let floating := c =? "."%ch in
  let finish p fmt v :=
    Ok (if negb (enum_and fmt allowed_formats =? 0) then p else text,
        {| format := fmt; value := v; negative := neg |}) in
  let! prefixed :=
    if negb floating && (c =? "0"%ch) && (p + 2 <? e) then
      let! c := load m (p + 1) in
      if (c =? "x"%ch) || (c =? "X"%ch) then
        let! (p, n) := scan_hex_digits m (p + 2) e in Ok (Some (p, nf_hex, n))
      else if (c =? "b"%ch) || (c =? "B"%ch) then
        let! (p, n) := scan_binary_digits m (p + 2) e in Ok (Some (p, nf_binary, n))
      else if ("0"%ch <=? c) && (c <=? "7"%ch) then
        let! (p, n) := scan_octal_digits m (p + 2) e in Ok (Some (p, nf_octal, n))
      else Ok None
    else Ok None in
  match prefixed with
  | Some (p, fmt, n) => finish p fmt (whole_number n)
  | None =>
      let! (p, whole) :=
        if negb floating then scan_decimal_digits_pre_radix m p e else Ok (p, 0) in
      let! (p, fmt, v) := scan_radix_and_exponent m p e floating neg whole in
      finish p fmt v
  end.
End scan_number.

(** * Specifications *)

(** The value of a digit in a base up to 16, by the character classes of
    strutil; [_] groups digits and has no value. *)
Definition digit_value (base c : Z) : option Z :=
  let v := get_ascii_hex_value c in
  if (0 <=? v) && (v <? base) then Some v else None.

Definition is_numeral_char (base c : Z) : bool :=
  match digit_value base c with Some _ => true | None => c =? "_"%ch end.

(** The number a numeral denotes (Horner's rule). *)
Definition numeral_value (base : Z) (l : list Z) : Z :=
  fold_left (fun n c => match digit_value base c with
                        | Some v => n * base + v
                        | None => n
                        end) l 0.

Inductive radix : Type := Hex | Decimal | Octal | Binary.

Definition radix_base (r : radix) : Z :=
  match r with Hex => 16 | Decimal => 10 | Octal => 8 | Binary => 2 end.

(** The scanner of each radix. *)
Definition scan_digits (r : radix) : mem -> Z -> Z -> res (Z * Z) :=
  match r with
  | Hex => scan_hex_digits
  | Decimal => scan_decimal_digits_pre_radix
  | Octal => scan_octal_digits
  | Binary => scan_binary_digits
  end.

Definition digit_step (base c n : Z) : option Z :=
  match digit_value base c with
  | Some v => Some (n * base + v)
  | None => if c =? "_"%ch then Some n else None
  end.

Lemma hex_value_range c : -1 <= get_ascii_hex_value c <= 15.
Proof. unfold get_ascii_hex_value. ztest. Qed.

Lemma lor_double_1 n : Z.lor (u64 (Z.shiftl n 1)) 1 = u64 (n * 2 + 1).
Proof.
  rewrite Z.shiftl_mul_pow2 by lia. change (2 ^ 1) with 2. unfold u64.
  change (2 ^ 64) with (2 * 2 ^ 63). rewrite (Z.mul_comm n 2), Z.mul_mod_distr_l by lia.
  rewrite (Z.add_comm _ 1), Z.rem_mul_r by lia.
  replace ((1 + 2 * n) mod 2) with 1 by (rewrite Z.mul_comm, Z_mod_plus_full; done).
  replace ((1 + 2 * n) / 2) with n by (rewrite Z.mul_comm, Z.div_add by lia; done).
  pose proof (Z.mod_pos_bound n (2 ^ 63) ltac:(lia)) as Hn.
  destruct (n mod 2 ^ 63) as [|k|k]; [done|done|lia].
Qed.

(** The same step on a 64-bit accumulator. *)
Definition digit_step_u64 (base c n : Z) : option Z :=
  match digit_value base c with
  | Some v => Some (u64 (n * base + v))
  | None => if c =? "_"%ch then Some n else None
  end.

(** Reading with a wrapping accumulator is reading modulo 2^64. *)
Lemma scan_fold_u64 base l n :
  scan_fold (digit_step_u64 base) l (u64 n) =
    let '(k, v) := scan_fold (digit_step base) l n in (k, u64 v).
Proof.
  revert n. induction l as [|c l IH]; intros n; simpl; [done|].
  unfold digit_step_u64 at 1, digit_step at 1. destruct (digit_value base c) as [v|].
  - replace (u64 (u64 n * base + v)) with (u64 (n * base + v)).
    + rewrite IH. by destruct (scan_fold _ _ _).
    + rewrite <- (u64_add_l (u64 n * base)). by autorewrite with intent.
  - destruct (c =? 95); [|done]. rewrite IH. by destruct (scan_fold _ _ _).
Qed.

Lemma scan_fold_numeral base l n :
  scan_fold (digit_step base) l n =
    let k := scan_len (is_numeral_char base) l in
    (k, fold_left (fun n c => match digit_value base c with
                              | Some v => n * base + v | None => n end)
          (take (Z.to_nat k) l) n).
Proof.
  revert n. induction l as [|c l IH]; intros n; simpl; [done|].
  unfold digit_step at 1, is_numeral_char at 1 3. pose proof (scan_len_bounds (is_numeral_char base) l).
  destruct (digit_value base c) as [v|] eqn:Hv; simpl.
  - rewrite IH. simpl.
    rewrite Z2Nat.inj_add by lia. simpl. by rewrite Hv.
  - destruct (c =? 95); [|done].
    rewrite IH. simpl. rewrite Z2Nat.inj_add by lia. simpl. by rewrite Hv.
Qed.

(** The four digit scanners read the longest numeral of their radix, and return
    its value modulo 2^64. *)
Lemma shift_double n : u64 (Z.shiftl n 1) = u64 (n * 2).
Proof. by rewrite Z.shiftl_mul_pow2. Qed.

(** One turn of a scanner, against [digit_step_u64]: the tests pick out the
    value of the char. *)
Ltac digit_cases :=
  unfold digit_step_u64, digit_value, get_ascii_hex_value;
  rewrite ?lor_double_1, ?shift_double; ztest; autorewrite with intent;
  match goal with
  | |- Ok (inl (_, u64 ?x)) = Ok (inl (_, u64 ?y)) => by replace y with x by lia
  | |- _ => done
  end.

Lemma scan_digits_spec r m p l :
  holds m p l ->
  let k := scan_len (is_numeral_char (radix_base r)) l in
  scan_digits r m p (p + Zlen l) =
    Ok (p + k, u64 (numeral_value (radix_base r) (take (Z.to_nat k) l))).
Proof.
  intros Hm k. pose proof (scan_fold_u64 (radix_base r) l 0) as Hw.
  rewrite scan_fold_numeral in Hw. fold k in Hw. change (u64 0) with 0 in Hw.
  transitivity (Ok (let '(k, v) := scan_fold (digit_step_u64 (radix_base r)) l 0
                    in (p + k, v))); [|by rewrite Hw].
  rewrite (surjective_pairing (scan_fold _ _ _)).
  destruct r; simpl; eapply iterate_scan_fold; eauto with intent;
    try (intros b; simpl; by rewrite Z.ltb_irrefl);
    intros q b c Hc Hq; simpl; ztrue (q <? p + Zlen l); rewrite (load_Some _ _ _ Hc); simpl.
  all: digit_cases.
Qed.

(** ** Digits after the radix point *)

(** The sum of the digits over growing powers of ten, rounded at each step. *)
Definition fraction_step (st : double * double) (c : Z) : double * double :=
  let '(n, divisor) := st in
  if is_ascii_digit c
  then (dadd n (ddiv (double_of_Z (c - "0"%ch)) divisor), dmul divisor (double_of_Z 10))
  else (n, divisor).
Definition fraction (l : list Z) : double :=
  (fold_left fraction_step l (double_of_Z 0, double_of_Z 10)).1.

Definition fraction_char (c : Z) : bool := is_ascii_digit c || (c =? "_"%ch).

Lemma scan_fold_fraction l st :
  scan_fold (fun c st => if fraction_char c then Some (fraction_step st c) else None) l st =
    let k := scan_len fraction_char l in
    (k, fold_left fraction_step (take (Z.to_nat k) l) st).
Proof.
  revert st. induction l as [|c l IH]; intros st; simpl; [done|].
  pose proof (scan_len_bounds fraction_char l). destruct (fraction_char c) eqn:Hc; [|done].
  rewrite IH. cbv zeta. rewrite Z2Nat.inj_add by lia. done.
Qed.

Lemma scan_post_radix_spec m p l :
  holds m p l ->
  let k := scan_len fraction_char l in
  scan_decimal_digits_post_radix m p (p + Zlen l) = Ok (p + k, fraction (take (Z.to_nat k) l)).
Proof.
  intros Hm k. unfold scan_decimal_digits_post_radix.
  pose proof (scan_fold_fraction l (double_of_Z 0, double_of_Z 10)) as Hfold. fold k in Hfold.
  erewrite (iterate_scan_fold (fun c st => if fraction_char c then Some (fraction_step st c) else None));
    [|..|exact Hm|reflexivity|eauto with intent].
  - rewrite Hfold. cbn [fst snd bind]. unfold fraction. by destruct (fold_left _ _ _).
  - intros q [n d] c Hc Hq. ztrue (q <? p + Zlen l). rewrite (load_Some _ _ _ Hc). cbn [bind].
    unfold fraction_char, fraction_step, is_ascii_digit.
    rewrite (andb_comm (c <=? 57)). destruct ((48 <=? c) && (c <=? 57)); [done|].
    by destruct (c =? 95).
  - intros [n d]. by rewrite Z.ltb_irrefl.
Qed.

(** ** Whole-number literals *)

Lemma take_scan_len ok l : (Z.to_nat (scan_len ok l) <= length l)%nat.
Proof. pose proof (scan_len_bounds ok l). unfold Zlen in *. lia. Qed.

(** A literal: an optional sign, then a body. *)
Inductive sign : Type := NoSign | Plus | Minus.
Definition sign_chars (s : sign) : list Z :=
  match s with NoSign => [] | Plus => ["+"%ch] | Minus => ["-"%ch] end.
Definition is_minus (s : sign) : bool :=
  match s with Minus => true | _ => false end.

(** The marker after the leading 0 of a prefixed literal, its radix and the
    number of chars before the digits. *)
Definition marker_radix (x : Z) : option radix :=
  if (x =? "x"%ch) || (x =? "X"%ch) then Some Hex
  else if (x =? "b"%ch) || (x =? "B"%ch) then Some Binary
  else if ("0"%ch <=? x) && (x <=? "7"%ch) then Some Octal
  else None.

Definition radix_format (r : radix) : Z :=
  match r with Hex => nf_hex | Decimal => nf_decimal | Octal => nf_octal | Binary => nf_binary end.

Definition accepted (fmt allowed p text : Z) : Z :=
  if negb (enum_and fmt allowed =? 0) then p else text.

Definition is_sign (c : Z) : bool := (c =? "+"%ch) || (c =? "-"%ch).

Lemma read_sign_spec m t s c l :
  holds m t (sign_chars s ++ c :: l) -> is_sign c = false ->
  read_sign m t = Ok (t + Zlen (sign_chars s), c, is_minus s).
Proof.
  unfold read_sign, is_sign. intros Hm [Hp Hn]%orb_false_iff.
  destruct s; cbn [sign_chars app] in *; destruct Hm as [Hs Hm];
    rewrite (load_Some _ _ _ Hs); simpl.
  - by rewrite Hp, Hn, Zlen_nil, Z.add_0_r.
  - destruct Hm as [Hc _]. by rewrite (load_Some _ _ _ Hc).
  - destruct Hm as [Hc _]. by rewrite (load_Some _ _ _ Hc).
Qed.

(** A prefixed literal: after [0x], [0b] or [0] and an octal digit, everything
    up to the end of the numeral is read in the radix of the prefix. *)
Lemma scan_number_prefixed_spec pow m t s x l allowed r :
  holds m t (sign_chars s ++ "0"%ch :: x :: l) -> l <> [] -> marker_radix x = Some r ->
  let p := t + Zlen (sign_chars s) + 2 in
  let k := scan_len (is_numeral_char (radix_base r)) l in
  scan_number pow m t (p + Zlen l) allowed =
    Ok (accepted (radix_format r) allowed (p + k) t,
        {| format := radix_format r;
           value := whole_number (u64 (numeral_value (radix_base r) (take (Z.to_nat k) l)));
           negative := is_minus s |}).
Proof.
  intros Hm Hl Hr p k.
  assert (0 < Zlen l) as Hlen by (destruct l; [done|rewrite Zlen_cons; pose proof (Zlen_nonneg l); lia]).
  unfold scan_number. rewrite (read_sign_spec _ _ _ _ _ Hm) by done. simpl.
  apply holds_app in Hm as [_ (_ & Hx & Hd)].
  replace (t + Zlen (sign_chars s) + 1 + 1) with p in Hd by (unfold p; lia).
  ztrue (t + Zlen (sign_chars s) + 2 <? p + Zlen l).
  rewrite (load_Some _ _ _ Hx). cbn [bind]. fold p.
  unfold marker_radix in Hr. pose proof (scan_digits_spec r m p l Hd) as Hscan.
  destruct ((x =? 120) || (x =? 88)); [|destruct ((x =? 98) || (x =? 66));
    [|destruct ((48 <=? x) && (x <=? 55)); [|done]]];
    injection Hr as <-; cbn [scan_digits] in Hscan; rewrite Hscan; done.
Qed.

(** A decimal whole number: its numeral is not followed by a radix point, nor by
    an exponent marker with something after it, and does not start like a
    prefixed literal. *)
Definition ends_numeral (rest : list Z) : Prop :=
  match rest with
  | [] => True
  | c :: rest' => is_numeral_char 10 c = false /\ c <> "."%ch /\
      (rest' <> [] -> c <> "e"%ch /\ c <> "E"%ch)
  end.

Lemma scan_len_numeral l rest :
  Forall (fun c => is_numeral_char 10 c = true) l -> ends_numeral rest ->
  scan_len (is_numeral_char 10) (l ++ rest) = Zlen l.
Proof.
  intros Hl Hrest. rewrite scan_len_app_all by done.
  destruct rest as [|c rest]; simpl; [lia|]. destruct Hrest as [-> _]. lia.
Qed.

Lemma scan_decimal_spec m p e l rest :
  holds m p (l ++ rest) -> e = p + Zlen l + Zlen rest ->
  Forall (fun c => is_numeral_char 10 c = true) l ->
  (forall c, head rest = Some c -> is_numeral_char 10 c = false) ->
  scan_decimal_digits_pre_radix m p e = Ok (p + Zlen l, u64 (numeral_value 10 l)).
Proof.
  intros Hm -> Hl Hrest. pose proof (scan_digits_spec Decimal m p _ Hm) as H. simpl in H.
  rewrite Zlen_app, Z.add_assoc in H.
  rewrite H, scan_len_app_all by done.
  assert (scan_len (is_numeral_char 10) rest = 0) as ->.
  { destruct rest as [|c rest]; simpl; [done|]. by rewrite (Hrest c). }
  rewrite Z.add_0_r. unfold Zlen. by rewrite Nat2Z.id, take_app_length.
Qed.

Lemma numeral_char_not_sign c : is_numeral_char 10 c = true -> is_sign c = false /\ c <> "."%ch.
Proof. unfold is_numeral_char, digit_value, get_ascii_hex_value, is_sign. ztest. Qed.

Lemma scan_decimal_number_spec m p e s l rest :
  holds m p (sign_chars s ++ l ++ rest) -> 0 < p ->
  e = p + Zlen (sign_chars s) + Zlen l + Zlen rest ->
  l <> [] -> Forall (fun c => is_numeral_char 10 c = true) l ->
  (forall c, head rest = Some c -> is_numeral_char 10 c = false) ->
  scan_decimal_number m p e =
    Ok (p + Zlen (sign_chars s) + Zlen l, is_minus s, u64 (numeral_value 10 l)).
Proof.
  intros Hm Hp He Hne Hl Hrest. destruct l as [|d l]; [done|].
  pose proof (Forall_inv Hl) as Hd. simpl in Hd.
  destruct (numeral_char_not_sign d Hd) as [Hs _].
  pose proof (Zlen_nonneg (sign_chars s)). pose proof (Zlen_nonneg rest). pose proof (Zlen_nonneg l).
  pose proof (Zlen_cons d l).
  unfold scan_decimal_number. zfalse (p =? 0). ztrue (p <? e). cbn [negb andb].
  pose proof Hm as [Hsg Hm']%holds_app.
  unfold is_sign in Hs. apply orb_false_iff in Hs as [Hplus Hminus].
  destruct s; cbn [sign_chars app is_minus] in *; rewrite ?Zlen_nil, ?Z.add_0_r in *.
  - pose proof Hm as [Hc _]. rewrite (load_Some _ _ _ Hc). cbn [bind].
    rewrite Hplus, Hminus. simpl. by rewrite (scan_decimal_spec m p e (d :: l) rest).
  - destruct Hsg as [Hc _]. rewrite (load_Some _ _ _ Hc). simpl.
    by rewrite (scan_decimal_spec m (p + 1) e (d :: l) rest).
  - destruct Hsg as [Hc _]. rewrite (load_Some _ _ _ Hc). simpl.
    by rewrite (scan_decimal_spec m (p + 1) e (d :: l) rest).
Qed.

Lemma scan_number_decimal_spec pow m t e s d l rest allowed :
  holds m t (sign_chars s ++ (d :: l) ++ rest) ->
  e = t + Zlen (sign_chars s) + Zlen (d :: l) + Zlen rest ->
  Forall (fun c => is_numeral_char 10 c = true) (d :: l) -> d <> "0"%ch -> ends_numeral rest ->
  scan_number pow m t e allowed =
    Ok (accepted nf_decimal allowed (t + Zlen (sign_chars s) + Zlen (d :: l)) t,
        {| format := nf_decimal; value := whole_number (u64 (numeral_value 10 (d :: l)));
           negative := is_minus s |}).
Proof.
  intros Hm He Hl Hd Hrest. pose proof (Forall_inv Hl) as Hdig. simpl in Hdig.
  destruct (numeral_char_not_sign d Hdig) as [Hs Hdot].
  unfold scan_number. rewrite (read_sign_spec _ _ _ _ _ Hm) by done. cbn [bind].
  apply holds_app in Hm as [_ Hm]. set (p := t + Zlen (sign_chars s)) in *.
  zfalse (d =? 46). zfalse (d =? 48). cbn [negb andb bind].
  rewrite (scan_decimal_spec m p e (d :: l) rest) by
    (done || (destruct rest; simpl in *; [done|]; intros ? [= <-]; tauto)).
  cbn [bind]. unfold scan_radix_and_exponent. cbn [negb andb].
  apply holds_app in Hm as [_ Hm]. set (q := p + Zlen (d :: l)) in *.
  destruct rest as [|c rest]; rewrite ?Zlen_nil, ?Zlen_cons, ?Z.add_0_r in He; subst e; simpl.
  - rewrite Z.ltb_irrefl. simpl. by zfalse (q + 1 <? q).
  - destruct Hrest as (_ & Hc & Hexp), Hm as [Hcm _]. pose proof (Zlen_nonneg rest).
    ztrue (q <? q + (1 + Zlen rest)). rewrite (load_Some _ _ _ Hcm). simpl.
    zfalse (c =? 46). simpl.
    destruct (Z.ltb_spec (q + 1) (q + (1 + Zlen rest))) as [Hlt|]; [|done].
    destruct Hexp as [He HE]; [intros ->; rewrite Zlen_nil in Hlt; lia|].
    rewrite (load_Some _ _ _ Hcm). cbn [bind andb].
    zfalse (c =? 101). by zfalse (c =? 69).
Qed.

(** A literal with an exponent but no radix point. *)
Lemma scan_number_exponent_spec pow m t e s d l ec x exps rest :
  holds m t (sign_chars s ++ (d :: l) ++ ec :: sign_chars x ++ exps ++ rest) -> 0 < t ->
  let p := t + Zlen (sign_chars s) + Zlen (d :: l) + 1 + Zlen (sign_chars x) + Zlen exps in
  e = p + Zlen rest ->
  Forall (fun c => is_numeral_char 10 c = true) (d :: l) -> d <> "0"%ch ->
  ec = "e"%ch \/ ec = "E"%ch ->
  exps <> [] -> Forall (fun c => is_numeral_char 10 c = true) exps ->
  (forall c, head rest = Some c -> is_numeral_char 10 c = false) ->
  let exp := double_of_Z (u64 (numeral_value 10 exps)) in
  let v := dmul (double_of_Z 0)
             (pow (double_of_Z 10) (if is_minus x then dmul exp (double_of_Z (-1)) else exp)) in
  scan_number pow m t e nf_all =
    Ok (p, {| format := nf_floating_point_only;
              value := floating_point (if is_minus s then dmul v (double_of_Z (-1)) else v);
              negative := is_minus s |}).
Proof.
  intros Hm Ht p He Hl Hd Hec Hne Hexps Hrest exp v.
  pose proof (Forall_inv Hl) as Hdig. simpl in Hdig.
  destruct (numeral_char_not_sign d Hdig) as [Hs Hdot].
  unfold scan_number. rewrite (read_sign_spec _ _ _ _ _ Hm) by done. cbn [bind].
  apply holds_app in Hm as [_ Hm].
  set (q := t + Zlen (sign_chars s)) in *.
  zfalse (d =? 46). zfalse (d =? 48). cbn [negb andb bind].
  assert (is_numeral_char 10 ec = false) as Hecn by (by destruct Hec as [-> | ->]).
  rewrite (scan_decimal_spec m q e (d :: l) _ Hm) by
    (done || (intros ? [= <-]; done) ||
     (rewrite He; unfold p; autorewrite with intent; lia)).
  cbn [bind]. unfold scan_radix_and_exponent. cbn [negb andb].
  apply holds_app in Hm as [_ [Hcm Hm]].
  set (q' := q + Zlen (d :: l)) in *.
  assert (0 < Zlen exps) by (destruct exps as [|y exps]; [done|rewrite Zlen_cons; pose proof (Zlen_nonneg exps); lia]).
  pose proof (Zlen_nonneg (sign_chars s)). pose proof (Zlen_nonneg (d :: l)).
  pose proof (Zlen_nonneg (sign_chars x)). pose proof (Zlen_nonneg rest).
  ztrue (q' <? e). rewrite (load_Some _ _ _ Hcm). cbn [bind].
  replace (ec =? 46) with false by (by destruct Hec as [-> | ->]). cbn [bind].
  ztrue (q' + 1 <? e). rewrite (load_Some _ _ _ Hcm). cbn [bind].
  replace ((ec =? 101) || (ec =? 69)) with true by (by destruct Hec as [-> | ->]). cbn [andb].
  rewrite (scan_decimal_number_spec m (q' + 1) e x exps rest) by (done || lia).
  done.
Qed.

(** * Properties *)

(** C40: the hex, decimal, octal and binary digit scanners stop after the longest
    run of digits of their radix and underscores, and return the number it denotes
    modulo 2^64. *)
Theorem scan_digits_value r m p l :
  holds m p l ->
  exists numeral rest, l = numeral ++ rest /\
    Forall (fun c => is_numeral_char (radix_base r) c = true) numeral /\
    (forall c, head rest = Some c -> is_numeral_char (radix_base r) c = false) /\
    scan_digits r m p (p + Zlen l) =
      Ok (p + Zlen numeral, u64 (numeral_value (radix_base r) numeral)).
Proof.
  intros Hm. destruct (scan_len_split (is_numeral_char (radix_base r)) l)
    as (l1 & l2 & Hl & Hlen & Hall & Hhd).
  exists l1, l2. split_and!; auto. rewrite (scan_digits_spec r m p l Hm), <- Hlen.
  by rewrite Hl, (take_app_Zlen l1).
Qed.

Lemma scan_digits_value_witness :
  exists numeral rest, str "dead_BEEFg" = numeral ++ rest /\
    Forall (fun c => is_numeral_char (radix_base Hex) c = true) numeral /\
    (forall c, head rest = Some c -> is_numeral_char (radix_base Hex) c = false) /\
    scan_digits Hex (cstr_at 16 "dead_BEEFg") 16 (16 + Zlen (str "dead_BEEFg")) =
      Ok (16 + Zlen numeral, u64 (numeral_value (radix_base Hex) numeral)).
Proof. apply (scan_digits_value Hex (cstr_at 16 "dead_BEEFg") 16 (str "dead_BEEFg")). decided. Defined.

(** [scan_number] reads a decimal whole number with an optional sign:
    it returns its digits' value modulo 2^64 and the sign apart, and moves past the numeral
    when decimal numbers are allowed. *)
Theorem scan_number_decimal pow m t e s d l rest allowed :
  holds m t (sign_chars s ++ (d :: l) ++ rest) ->
  e = t + Zlen (sign_chars s) + Zlen (d :: l) + Zlen rest ->
  Forall (fun c => is_numeral_char 10 c = true) (d :: l) -> d <> "0"%ch -> ends_numeral rest ->
  scan_number pow m t e allowed =
    Ok (accepted nf_decimal allowed (t + Zlen (sign_chars s) + Zlen (d :: l)) t,
        {| format := nf_decimal; value := whole_number (u64 (numeral_value 10 (d :: l)));
           negative := is_minus s |}).
Proof. apply scan_number_decimal_spec. Qed.

Lemma scan_number_decimal_witness :
  scan_number (fun _ x => x) (cstr_at 16 "-293_842 ") 16 25 nf_all =
    Ok (accepted nf_decimal nf_all 24 16,
        {| format := nf_decimal; value := whole_number 293842; negative := true |}).
Proof.
  apply (scan_number_decimal (fun _ x => x) (cstr_at 16 "-293_842 ") 16 25 Minus "2"%ch
           (str "93_842") (str " ") nf_all); [decided|reflexivity|decided|lia|].
  simpl. split; [reflexivity|]. split; [discriminate|]. by intros [].
Defined.

(** [scan_number] reads hex and binary literals: after the [0x] or [0b] prefix it
    takes the longest numeral of the radix and returns its value modulo 2^64. *)
Theorem scan_number_prefixed pow m t s x l allowed r :
  holds m t (sign_chars s ++ "0"%ch :: x :: l) -> l <> [] ->
  marker_radix x = Some r -> r = Hex \/ r = Binary ->
  let p := t + Zlen (sign_chars s) + 2 in
  let k := scan_len (is_numeral_char (radix_base r)) l in
  scan_number pow m t (p + Zlen l) allowed =
    Ok (accepted (radix_format r) allowed (p + k) t,
        {| format := radix_format r;
           value := whole_number (u64 (numeral_value (radix_base r) (take (Z.to_nat k) l)));
           negative := is_minus s |}).
Proof. intros. by apply scan_number_prefixed_spec with x. Qed.

Lemma scan_number_prefixed_witness :
  scan_number (fun _ x => x) (cstr_at 16 "+0x409") 16 22 nf_hex =
    Ok (22, {| format := nf_hex; value := whole_number 1033; negative := false |}).
Proof.
  apply (scan_number_prefixed (fun _ x => x) (cstr_at 16 "+0x409") 16 Plus "x"%ch
           (str "409") nf_hex Hex); [decided|discriminate|reflexivity|by left].
Defined.

(** in an octal literal, 0 followed by at least two digits, [scan_number] drops
    the digit after the 0: whichever octal digit [d] is there, the value is the value of
    the digits after it, so 0755 reads as 055. *)
Theorem scan_number_octal_drops_digit pow m t d l :
  holds m t ("0"%ch :: d :: l) -> l <> [] ->
  "0"%ch <= d <= "7"%ch -> Forall (fun c => is_numeral_char 8 c = true) l ->
  scan_number pow m t (t + 2 + Zlen l) nf_all =
    Ok (t + 2 + Zlen l,
        {| format := nf_octal; value := whole_number (u64 (numeral_value 8 l));
           negative := false |}).
Proof.
  intros Hm Hl Hd Hall.
  assert (marker_radix d = Some Octal) as Hr by (unfold marker_radix; ztest; done).
  pose proof (scan_number_prefixed_spec pow m t NoSign d l nf_all Octal Hm Hl Hr) as H.
  cbn [sign_chars radix_base is_minus radix_format] in H. rewrite Zlen_nil, Z.add_0_r in H.
  pose proof (scan_len_app_all _ l [] Hall) as Hk. rewrite app_nil_r in Hk.
  cbn [scan_len] in Hk. rewrite Z.add_0_r in Hk.
  rewrite H, Hk. unfold Zlen. by rewrite Nat2Z.id, take_ge.
Qed.

Lemma scan_number_octal_drops_digit_witness :
  scan_number (fun _ x => x) (cstr_at 16 "0755") 16 20 nf_all =
    Ok (20, {| format := nf_octal; value := whole_number 45; negative := false |}).
Proof.
  apply (scan_number_octal_drops_digit (fun _ x => x) (cstr_at 16 "0755") 16 "7"%ch (str "55"));
    [decided|discriminate|lia|decided].
Defined.

(** in a literal with an exponent but no radix point, such as 3e5, [scan_number]
    loses the digits before the exponent: the value is 0.0 times the power of ten. *)
Theorem scan_number_exponent_loses_whole_part pow m t e s d l ec x exps rest :
  holds m t (sign_chars s ++ (d :: l) ++ ec :: sign_chars x ++ exps ++ rest) -> 0 < t ->
  let p := t + Zlen (sign_chars s) + Zlen (d :: l) + 1 + Zlen (sign_chars x) + Zlen exps in
  e = p + Zlen rest ->
  Forall (fun c => is_numeral_char 10 c = true) (d :: l) -> d <> "0"%ch ->
  ec = "e"%ch \/ ec = "E"%ch ->
  exps <> [] -> Forall (fun c => is_numeral_char 10 c = true) exps ->
  (forall c, head rest = Some c -> is_numeral_char 10 c = false) ->
  let exp := double_of_Z (u64 (numeral_value 10 exps)) in
  let v := dmul (double_of_Z 0)
             (pow (double_of_Z 10) (if is_minus x then dmul exp (double_of_Z (-1)) else exp)) in
  scan_number pow m t e nf_all =
    Ok (p, {| format := nf_floating_point_only;
              value := floating_point (if is_minus s then dmul v (double_of_Z (-1)) else v);
              negative := is_minus s |}).
Proof. exact (scan_number_exponent_spec pow m t e s d l ec x exps rest). Qed.

Lemma scan_number_exponent_loses_whole_part_witness :
  scan_number (fun _ x => x) (cstr_at 16 "3e5") 16 19 nf_all =
    Ok (19, {| format := nf_floating_point_only; value := floating_point (double_of_Z 0);
               negative := false |}).
Proof.
  apply (scan_number_exponent_loses_whole_part (fun _ x => x) (cstr_at 16 "3e5") 16 19 NoSign
           "3"%ch [] "e"%ch NoSign (str "5") []);
    try decided; try lia; by intros.
Defined.
