(* ===== verification/Unicode.v ===== *)
(** * UTF-8 and escape sequences: core/text/unicode.cpp, unicode.h and unicode-inline.h

    A [codepoint_t] is an unsigned 32-bit integer; bytes in memory are signed
    chars.  Functions with a [codepoint_t &] or pointer-reference parameter
    return its new value. *)

From stdpp Require Import base tactics list gmap strings.
From Stdlib Require Import ZArith Lia.
From S2P Require Import Prelude CString ScanNumbers.
#[local] Open Scope Z_scope.

Definition MAX_UNICODE_CHAR : Z := 0x10FFFF.
Definition UNICODE_REPLACEMENT_CHAR : Z := 0xFFFD.
Definition HIGH_SURROGATE_BEGIN : Z := 0xD800.
Definition HIGH_SURROGATE_END : Z := 0xDBFF.
Definition LOW_SURROGATE_BEGIN : Z := 0xDC00.
Definition LOW_SURROGATE_END : Z := 0xDFFF.

(** ** Lead and continuation bytes *)

Definition is_utf8_continuation_byte (c : Z) : bool := Z.land (u8 c) 0xC0 =? 0x80.
Definition is_utf8_lead_byte (c : Z) : bool := (0xC2 <=? u8 c) && (u8 c <=? 0xF4).

Definition predict_length_of_codepoint_from_lead_byte (ch : Z) : Z :=
  let c := u8 ch in
  if c <? 0x80 then if negb (c =? 0) then 1 else 0
  else if Z.land c 0xE0 =? 0xC0 then if 0xC2 <=? c then 2 else 0
  else if Z.land c 0xF0 =? 0xE0 then 3
  else if (Z.land c 0xF0 =? 0xF0) && (c <=? 0xF4) then 4
  else 0.

Definition proper_length_of_codepoint (cp : Z) : Z :=
  if cp <=? 0x007F then 1 else if cp <=? 0x07FF then 2 else if cp <=? 0xFFFF then 3 else 4.

Definition is_surrogate (cp : Z) : bool :=
  (HIGH_SURROGATE_BEGIN <=? cp) && (cp <=? LOW_SURROGATE_END).
Definition is_low_surrogate (cp : Z) : bool :=
  (LOW_SURROGATE_BEGIN <=? cp) && (cp <=? LOW_SURROGATE_END).
Definition is_high_surrogate (cp : Z) : bool :=
  (HIGH_SURROGATE_BEGIN <=? cp) && (cp <=? HIGH_SURROGATE_END).

(** ** Decoding *)

(** The [or_continuation_byte] macro, [n] times; [inr] is its early return with
    the replacement char. *)
Fixpoint or_continuation_bytes (n : nat) (m : mem) (utf8 cp : Z) : res (Z * Z + Z * Z) :=
  match n with
  | O => Ok (inl (utf8, cp))
  | S n' =>
      let cp := u32 (Z.shiftl cp 6) in
      let! c := load m utf8 in
      let utf8 := utf8 + 1 in
      if negb (is_utf8_continuation_byte c) then Ok (inr (utf8 - 1, UNICODE_REPLACEMENT_CHAR))
      else or_continuation_bytes n' m utf8 (Z.lor cp (Z.land c 0x3F))
  end.

Definition get_codepoint_from_utf8 (m : mem) (utf8 : Z) : res (Z * Z) :=
  if utf8 =? 0 then Ok (0, UNICODE_REPLACEMENT_CHAR)
  else
    let! c := load m utf8 in
    let utf8 := utf8 + 1 in
    let byte_count := predict_length_of_codepoint_from_lead_byte c in
    if byte_count =? 1 then Ok (utf8, u32 c)
    else if byte_count =? 2 then
      let! r := or_continuation_bytes 1 m utf8 (Z.land c 0x1F) in
      match r with inl r => Ok r | inr r => Ok r end
    else if byte_count =? 3 then
      let! r := or_continuation_bytes 2 m utf8 (Z.land c 0x0F) in
      match r with inl r => Ok r | inr r => Ok r end
    else if byte_count =? 4 then
      let! r := or_continuation_bytes 3 m utf8 (Z.land c 0x07) in
      match r with
      | inl (utf8, cp) =>
          if MAX_UNICODE_CHAR <? cp then Ok (utf8 - 3, UNICODE_REPLACEMENT_CHAR)
          else Ok (utf8, cp)
      | inr r => Ok r
      end
    else Ok (utf8, UNICODE_REPLACEMENT_CHAR).

Definition length_of_codepoint (m : mem) (txt : Z) : res Z :=
  if txt =? 0 then Ok 0
  else
    let cont i := let! c := load m (txt + i) in Ok (is_utf8_continuation_byte c) in
    let! c := load m txt in
    let n := predict_length_of_codepoint_from_lead_byte c in
    if n =? 1 then Ok 1
    else if n =? 2 then let! b := cont 1 in Ok (if b : bool then 2 else 0)
    else if n =? 3 then
      let! b := cont 1 in
      if b : bool then let! b := cont 2 in Ok (if b : bool then 3 else 0) else Ok 0
    else if n =? 4 then
      let! b1 := cont 1 in
      if negb b1 then Ok 0 else
      let! b2 := cont 2 in
      if negb b2 then Ok 0 else
      let! b3 := cont 3 in
      if negb b3 then Ok 0 else
      let! (_, cp) := get_codepoint_from_utf8 m txt in
      if MAX_UNICODE_CHAR <? cp then Ok 0 else Ok 4
    else Ok 0.

Definition next_utf8_char (m : mem) (txt : Z) : res Z :=
  iterate (S (size m)) (fun txt =>
    let txt := txt + 1 in
    let! c := load m txt in
    if (0x80 <=? u8 c) && negb (is_utf8_lead_byte c) then Ok (inl txt) else Ok (inr txt)) txt.

(** ** Encoding *)

(** Consecutive stores, in order. *)
Fixpoint stores (m : mem) (a : Z) (l : list Z) : res mem :=
  match l with
  | [] => Ok m
  | c :: l' => let! m := store m a c in stores m (a + 1) l'
  end.

(** The state of the writers: memory, [buf] and [buf_length]. *)
Definition writer : Type := mem * Z * Z.

Definition add_codepoint_to_utf8 (w : writer) (cp : Z) : res (bool * writer) :=
  let '(m, buf, buf_length) := w in
  if (buf =? 0) || (buf_length <? 1) then Ok (false, w)
  else
    let put l := let! m := stores m buf l in Ok (true, (m, buf + Zlen l, buf_length)) in
    if cp <? 0x80 then put [to_char cp]
    else if cp <? 0x800 then
      if buf_length <? 2 then Ok (false, w)
      else put [to_char (Z.lor (Z.shiftr cp 6) 0xC0); to_char (Z.lor (Z.land cp 0x3F) 0x80)]
    else if cp <? 0x10000 then
      if buf_length <? 3 then Ok (false, w)
      else put [to_char (Z.lor (Z.shiftr cp 12) 0xE0);
                to_char (Z.lor (Z.land (Z.shiftr cp 6) 0x3F) 0x80);
                to_char (Z.lor (Z.land cp 0x3F) 0x80)]
    else if cp <? 0x110000 then
      if buf_length <? 4 then Ok (false, w)
      else put [to_char (Z.lor (Z.shiftr cp 18) 0xF0);
                to_char (Z.lor (Z.land (Z.shiftr cp 12) 0x3F) 0x80);
                to_char (Z.lor (Z.land (Z.shiftr cp 6) 0x3F) 0x80);
                to_char (Z.lor (Z.land cp 0x3F) 0x80)]
    else Ok (true, w).

(** The [cat_] wrappers: room for the terminator is set aside, and it is written
    when [add] succeeds. *)
Definition terminate (add : writer -> res (bool * writer)) (w : writer) : res (bool * writer) :=
  let '(m, buf, buf_length) := w in
  let! (ok, w') := add (m, buf, u64 (buf_length - 1)) in
  let '(m', buf', buf_length_temp) := w' in
  if ok : bool then
    let! m' := store m' buf' 0 in Ok (true, (m', buf' + 1, buf_length_temp))
  else Ok (false, (m', buf', buf_length)).

Definition cat_codepoint_to_utf8 (w : writer) (cp : Z) : res (bool * writer) :=
  if negb (w.2 =? 0) then terminate (fun w => add_codepoint_to_utf8 w cp) w else Ok (false, w).

(** ** Walks over a text *)

Definition count_codepoints_in_utf8 (m : mem) (utf8 e : Z) : res Z :=
  iterate (span_fuel utf8 e) (fun '(utf8, count) =>
    if utf8 <? e then
      let! (utf8, _) := get_codepoint_from_utf8 m utf8 in Ok (inl (utf8, u64 (count + 1)))
    else Ok (inr count)) (utf8, 0).

Definition find_codepoint_step (m : mem) (cp utf8 : Z) : res (Z + Z) :=
  let! c := load m utf8 in
  if c =? 0 then Ok (inr 0)
  else
    let! (p, found) := get_codepoint_from_utf8 m utf8 in
    if cp =? found then Ok (inr utf8) else Ok (inl p).
Definition find_codepoint_in_utf8 (m : mem) (utf8 cp : Z) : res Z :=
  if utf8 =? 0 then Ok 0 else iterate (S (size m)) (find_codepoint_step m cp) utf8.

Definition find_codepoint_in_utf8_range (m : mem) (utf8 e cp : Z) : res Z :=
  if utf8 =? 0 then Ok 0
  else iterate (span_fuel utf8 e) (fun utf8 =>
    if e <=? utf8 then Ok (inr 0)
    else
      let! (p, found) := get_codepoint_from_utf8 m utf8 in
      if cp =? found then Ok (inr utf8) else Ok (inl p)) utf8.

Definition is_well_formed_step (m : mem) (txt : Z) : res (Z + bool) :=
  let! c := load m txt in
  if c =? 0 then Ok (inr true)
  else
    let! (next, cp) := get_codepoint_from_utf8 m txt in
    if (cp =? UNICODE_REPLACEMENT_CHAR) && (next =? txt + 1) then Ok (inr false)
    else
      let byte_count := u64 (next - txt) in
      if (1 <? byte_count) && (proper_length_of_codepoint cp <? byte_count) then Ok (inr false)
      else if is_surrogate cp then Ok (inr false)
      else Ok (inl next).

Definition is_well_formed_utf8 (m : mem) (txt : Z) : res bool :=
  if txt =? 0 then Ok false else iterate (S (size m)) (is_well_formed_step m) txt.

(** ** Escape sequences *)

Definition NEED_1CHAR_ESCAPES : list Z := [10; 13; 9; 12; 11; 8; 7].
Definition CHARS_FOR_1CHAR_ESCAPES : list Z := Eval cbv in str "nrtfvba".

(** [strchr(s, c)] as an offset into the C string [s]; the terminator counts. *)
Definition strchr (s : list Z) (c : Z) : option nat := fst <$> list_find (fun x => x = c) (s ++ [0]).

(** [s[i]] for a C string. *)
Definition char_at (s : list Z) (i : nat) : Z := nth i (s ++ [0]) 0.

(** The end of the function, when digits are to be read: [scan_func] must
    consume exactly the chars up to [e]. *)
Definition scan_escape_digits (m : mem) (seq e : Z) (scan_func : mem -> Z -> Z -> res (Z * Z)) :
    res (Z * Z) :=
  let! (p, n) := scan_func m seq e in
  if p =? e then
    if (e =? seq + 8) && (MAX_UNICODE_CHAR <? n) then Ok (seq, UNICODE_REPLACEMENT_CHAR)
    else Ok (p, u32 n)
  else Ok (seq, UNICODE_REPLACEMENT_CHAR).

Definition scan_unicode_escape_sequence (m : mem) (seq cp : Z) : res (Z * Z) :=
  if seq =? 0 then Ok (0, cp)
  else
    let e := seq + 1 in
    let! c := load m seq in
    let seq := seq + 1 in
    if c =? "x"%ch then scan_escape_digits m seq (seq + 2) scan_hex_digits
    else if c =? "u"%ch then scan_escape_digits m seq (seq + 4) scan_hex_digits
    else if c =? "U"%ch then scan_escape_digits m seq (seq + 8) scan_hex_digits
    else if c =? BACKSLASH then Ok (e, BACKSLASH)
    else if c =? DQUOTE then Ok (e, DQUOTE)
    else if c =? "'"%ch then Ok (e, "'"%ch)
    else if ("0"%ch <=? c) && (c <=? "7"%ch) then
      let seq := seq - 1 in scan_escape_digits m seq (seq + 3) scan_octal_digits
    else
      match (if negb (c =? 0) then strchr CHARS_FOR_1CHAR_ESCAPES c else None) with
      | Some i => Ok (e, char_at NEED_1CHAR_ESCAPES i)
      | None => Ok (seq, UNICODE_REPLACEMENT_CHAR)
      end.

(** [%.nX]: the upper case hex digits of a number that needs at most [n]. *)
Definition hex_char (v : Z) : Z := if v <? 10 then "0"%ch + v else "A"%ch + (v - 10).
Fixpoint hex_digits (n : nat) (v : Z) : list Z :=
  match n with
  | O => []
  | S n' => hex_digits n' (v / 16) ++ [hex_char (v mod 16)]
  end.

(** [snprintf] of a text: at most [n - 1] chars of it, and a NUL. *)
Definition snprintf (m : mem) (buf n : Z) (text : list Z) : res mem :=
  if n =? 0 then Ok m else stores m buf (take (Z.to_nat (n - 1)) text ++ [0]).

Definition advance_and_return_true (m : mem) (buf buf_length n : Z) : res (bool * writer) :=
  Ok (true, (m, buf + n, u64 (buf_length + n))).

Definition write_2byte_sequence (w : writer) (c : Z) : res (bool * writer) :=
  let '(m, buf, buf_length) := w in
  if 2 <=? buf_length then
    let! m := stores m buf [BACKSLASH; c] in advance_and_return_true m buf buf_length 2
  else Ok (false, w).

Definition add_escape_sequence (w : writer) (cp : Z) : res (bool * writer) :=
  let '(m, buf, buf_length) := w in
  let print n text :=
    let! m := snprintf m buf buf_length text in advance_and_return_true m buf buf_length n in
  match (if cp <? " "%ch then strchr NEED_1CHAR_ESCAPES (to_char cp) else None) with
  | Some i => write_2byte_sequence w (char_at CHARS_FOR_1CHAR_ESCAPES i)
  | None =>
      if (cp =? 0) || (cp <=? 0x7F) then
        if 4 <? buf_length then print 4 (BACKSLASH :: "x"%ch :: hex_digits 2 (u8 cp))
        else Ok (false, w)
      else if cp <=? 0xFFFF then
        if 6 <=? buf_length then print 6 (BACKSLASH :: "u"%ch :: hex_digits 4 (u16 cp))
        else Ok (false, w)
      else if 10 <=? buf_length then print 10 (BACKSLASH :: "U"%ch :: hex_digits 8 cp)
      else Ok (false, w)
  end.

Definition cat_escape_sequence (w : writer) (cp : Z) : res (bool * writer) :=
  terminate (fun w => add_escape_sequence w cp) w.

Definition add_utf8_or_escape_sequence (w : writer) (cp : Z) : res (bool * writer) :=
  let '(m, buf, buf_length) := w in
  let print n text :=
    let! m := snprintf m buf buf_length text in advance_and_return_true m buf buf_length n in
  let print_U :=
    if 10 <=? buf_length then print 10 (BACKSLASH :: "U"%ch :: hex_digits 8 cp)
    else Ok (false, w) in
  if (buf =? 0) || (buf_length <? 1) then Ok (false, w)
  else if cp <? 0x80 then
    if cp <? " "%ch then
      match (if negb (cp =? 0) then strchr NEED_1CHAR_ESCAPES (to_char cp) else None) with
      | Some i => write_2byte_sequence w (char_at CHARS_FOR_1CHAR_ESCAPES i)
      | None =>
          if 4 <? buf_length then print 4 (BACKSLASH :: "x"%ch :: hex_digits 2 (u8 cp))
          else Ok (false, w)
      end
    else if strchr_in [BACKSLASH; DQUOTE; "'"%ch] (to_char cp) then write_2byte_sequence w (to_char cp)
    else if cp =? 0x7f then
      if 4 <=? buf_length then
        let! m := stores m buf (BACKSLASH :: str "x7F") in
        advance_and_return_true m buf buf_length 4
      else Ok (false, w)
    else
      let! m := stores m buf [to_char (u8 cp)] in advance_and_return_true m buf buf_length 1
  else if cp <=? 0xFFFF then
    if 6 <=? buf_length then print 6 (BACKSLASH :: "u"%ch :: hex_digits 4 (u16 cp))
    else Ok (false, w)
  else print_U.

Definition cat_utf8_or_escape_sequence (w : writer) (cp : Z) : res (bool * writer) :=
  if negb (w.2 =? 0) then terminate (fun w => add_utf8_or_escape_sequence w cp) w
  else Ok (false, w).

(** * Specifications *)

(** ** Facts about bytes *)

(** A fact about all bytes, by evaluation. *)
Lemma byte_forall (P : Z -> bool) :
  forallb P (seqZ 0 256) = true -> forall b, 0 <= b < 256 -> P b = true.
Proof. rewrite forallb_forall. intros H b Hb. apply H, list_elem_of_In, elem_of_seqZ. lia. Qed.

Definition lead_length (b : Z) : Z :=
  if b =? 0 then 0 else if b <? 0x80 then 1 else if b <? 0xC2 then 0
  else if b <? 0xE0 then 2 else if b <? 0xF0 then 3 else if b <=? 0xF4 then 4 else 0.

Lemma predict_length_spec b :
  0 <= b < 256 -> predict_length_of_codepoint_from_lead_byte (to_char b) = lead_length b.
Proof.
  intros Hb. apply Z.eqb_eq. revert b Hb.
  apply (byte_forall (fun b => predict_length_of_codepoint_from_lead_byte (to_char b) =? lead_length b)).
  vm_compute. reflexivity.
Qed.

Lemma continuation_spec b :
  0 <= b < 256 -> is_utf8_continuation_byte (to_char b) = (0x80 <=? b) && (b <? 0xC0).
Proof.
  intros Hb. apply eqb_prop. revert b Hb.
  apply (byte_forall (fun b => eqb (is_utf8_continuation_byte (to_char b)) ((0x80 <=? b) && (b <? 0xC0)))).
  vm_compute. reflexivity.
Qed.

Lemma to_char_mod x k : 0 <= k <= 8 -> to_char x mod 2 ^ k = x mod 2 ^ k.
Proof.
  intros Hk. unfold to_char.
  replace (2 ^ 8) with (2 ^ (8 - k) * 2 ^ k) by (rewrite <- Z.pow_add_r by lia; f_equal; lia).
  rewrite <- Zminus_mod_idemp_l, (Z.mul_comm (2 ^ (8 - k))).
  rewrite Z.rem_mul_r by lia.
  rewrite (Z.mul_comm (2 ^ k)), Z_mod_plus_full, Z.mod_mod, Zminus_mod_idemp_l by lia.
  f_equal. lia.
Qed.

(** Setting high bits is adding. *)
Lemma lor_add k a b : 0 <= k -> 0 <= a < 2 ^ k -> Z.lor a (b * 2 ^ k) = a + b * 2 ^ k.
Proof.
  intros Hk Ha. rewrite <- Z.lxor_lor, <- Z.add_nocarry_lxor; auto;
    apply Z.bits_inj'; intros i Hi; rewrite Z.land_spec, Z.bits_0, Z.mul_pow2_bits by lia;
    (destruct (Z.lt_ge_cases i k); [by rewrite (Z.testbit_neg_r b) by lia; apply andb_false_r|]);
    rewrite <- (Z.mod_small a (2 ^ k)), Z.mod_pow2_bits_high by lia; done.
Qed.

(** ** Encoding and decoding one codepoint *)

(** UTF-8, as byte values. *)
Definition utf8_bytes (cp : Z) : list Z :=
  if cp <? 0x80 then [cp]
  else if cp <? 0x800 then [0xC0 + cp / 64; 0x80 + cp mod 64]
  else if cp <? 0x10000 then [0xE0 + cp / 4096; 0x80 + cp / 64 mod 64; 0x80 + cp mod 64]
  else [0xF0 + cp / 262144; 0x80 + cp / 4096 mod 64; 0x80 + cp / 64 mod 64; 0x80 + cp mod 64].

Definition utf8_chars (cp : Z) : list Z := map to_char (utf8_bytes cp).

Lemma utf8_length cp : Zlen (utf8_chars cp) = proper_length_of_codepoint cp.
Proof.
  unfold Zlen, utf8_chars. rewrite length_map. unfold utf8_bytes, proper_length_of_codepoint.
  ztest.
Qed.

Lemma stores_spec m a l0 l :
  holds m a l0 -> length l0 = length l ->
  exists m', stores m a l = Ok m' /\ updates m m' a l.
Proof.
  revert m a l0. induction l as [|c l IH]; intros m a l0 Hm Hlen; simpl.
  - exists m. done.
  - destruct l0 as [|c0 l0]; [done|]. destruct Hm as [Hc Hm]. unfold store. rewrite Hc. simpl.
    destruct (IH (<[a := c]> m) (a + 1) l0) as (m' & Hrun & Hl & Helse);
      [apply holds_insert_ne; [lia|done]|by injection Hlen|].
    exists m'. split; [done|]. split.
    + split; [|done]. rewrite Helse by lia. by rewrite lookup_insert_eq.
    + intros b Hb. rewrite Zlen_cons in Hb. pose proof (Zlen_nonneg l).
      rewrite Helse by lia. rewrite lookup_insert_ne by lia. done.
Qed.

Lemma lor_C0 x : 0 <= x < 64 -> Z.lor x 0xC0 = 0xC0 + x.
Proof. intros. change 0xC0 with (3 * 2 ^ 6). rewrite lor_add by lia. lia. Qed.
Lemma lor_80 x : 0 <= x < 64 -> Z.lor x 0x80 = 0x80 + x.
Proof. intros. change 0x80 with (2 * 2 ^ 6). rewrite lor_add by lia. lia. Qed.
Lemma lor_E0 x : 0 <= x < 16 -> Z.lor x 0xE0 = 0xE0 + x.
Proof. intros. change 0xE0 with (14 * 2 ^ 4). rewrite lor_add by lia. lia. Qed.
Lemma lor_F0 x : 0 <= x < 16 -> Z.lor x 0xF0 = 0xF0 + x.
Proof. intros. change 0xF0 with (15 * 2 ^ 4). rewrite lor_add by lia. lia. Qed.
Lemma land_3F x : Z.land x 0x3F = x mod 64.
Proof. apply (Z.land_ones x 6). lia. Qed.
Lemma land_1F x : Z.land x 0x1F = x mod 32.
Proof. apply (Z.land_ones x 5). lia. Qed.
Lemma land_0F x : Z.land x 0x0F = x mod 16.
Proof. apply (Z.land_ones x 4). lia. Qed.
Lemma land_07 x : Z.land x 0x07 = x mod 8.
Proof. apply (Z.land_ones x 3). lia. Qed.

Lemma add_codepoint_spec m buf len cp :
  0 <= cp <= MAX_UNICODE_CHAR -> buf <> 0 -> proper_length_of_codepoint cp <= len ->
  add_codepoint_to_utf8 (m, buf, len) cp =
    let! m' := stores m buf (utf8_chars cp) in
    Ok (true, (m', buf + proper_length_of_codepoint cp, len)).
Proof.
  unfold MAX_UNICODE_CHAR. intros Hcp Hbuf Hlen. rewrite <- utf8_length in *.
  unfold add_codepoint_to_utf8, utf8_chars, utf8_bytes in *.
  zfalse (buf =? 0).
  rewrite !land_3F, !Z.shiftr_div_pow2 by lia.
  change (2 ^ 6) with 64. change (2 ^ 12) with 4096. change (2 ^ 18) with 262144.
  assert (forall x, 0 <= x mod 64 < 64) as Hmod by (intros; apply Z.mod_pos_bound; lia).
  destruct (Z.ltb_spec cp 0x80); [|destruct (Z.ltb_spec cp 0x800); [|destruct (Z.ltb_spec cp 0x10000)]];
    cbn [map] in *; autorewrite with intent in Hlen; cbn [orb].
  - by zfalse (len <? 1).
  - zfalse (len <? 1). zfalse (len <? 2).
    rewrite lor_C0, lor_80 by (done || (split; [apply Z.div_pos|apply Z.div_lt_upper_bound]; lia)). done.
  - zfalse (len <? 1). zfalse (len <? 3).
    rewrite lor_E0, !lor_80 by (done || (split; [apply Z.div_pos|apply Z.div_lt_upper_bound]; lia)). done.
  - zfalse (len <? 1). zfalse (len <? 4). ztrue (cp <? 0x110000).
    rewrite lor_F0, !lor_80 by (done || (split; [apply Z.div_pos|apply Z.div_lt_upper_bound]; lia)). done.
Qed.

(** One continuation byte. *)
Lemma or_continuation_step n m p cp y :
  m !! p = Some (to_char (0x80 + y)) -> 0 <= y < 64 -> 0 <= cp < 2 ^ 26 ->
  or_continuation_bytes (S n) m p cp = or_continuation_bytes n m (p + 1) (cp * 64 + y).
Proof.
  intros Hm Hy Hcp. simpl. rewrite (load_Some _ _ _ Hm). simpl.
  rewrite continuation_spec by lia. ztrue (128 <=? 128 + y). ztrue (128 + y <? 192). simpl.
  rewrite land_3F. change 64 with (2 ^ 6) at 1. rewrite to_char_mod by lia. change (2 ^ 6) with 64.
  replace ((128 + y) mod 64) with y by (rewrite <- (Z_mod_plus_full (128 + y) (-2)); rewrite Z.mod_small; lia).
  rewrite Z.shiftl_mul_pow2, u32_small by lia.
  rewrite Z.lor_comm, (lor_add 6) by lia. f_equal. lia.
Qed.

Lemma to_char_ascii x : 0 <= x < 128 -> to_char x = x.
Proof. intros. apply to_char_small. unfold is_char. lia. Qed.

(** Decoding by the length the lead byte announces. *)
Definition after_lead (m : mem) (a b : Z) : res (Z * Z) :=
  let n := lead_length b in
  if n =? 1 then Ok (a, b)
  else if n =? 0 then Ok (a, UNICODE_REPLACEMENT_CHAR)
  else
    let! r := or_continuation_bytes (Z.to_nat (n - 1)) m a (b mod 2 ^ (7 - n)) in
    match r with
    | inl (utf8, cp) =>
        if MAX_UNICODE_CHAR <? cp then Ok (utf8 - 3, UNICODE_REPLACEMENT_CHAR) else Ok (utf8, cp)
    | inr r => Ok r
    end.

(** Two or three bytes cannot reach past the last codepoint. *)
Lemma or_continuation_bound n : forall m p cp p' cp' k,
  or_continuation_bytes n m p cp = Ok (inl (p', cp')) -> 0 <= cp < 2 ^ k ->
  0 <= k -> k + 6 * Z.of_nat n <= 32 ->
  0 <= cp' < 2 ^ (k + 6 * Z.of_nat n) /\ p' = p + Z.of_nat n.
Proof.
  induction n as [|n IH]; intros m p cp p' cp' k Hrun Hcp Hk Hn; simpl in Hrun.
  - injection Hrun as <- <-. rewrite Z.add_0_r. split; [done|lia].
  - apply bind_Ok_inv in Hrun as (c & _ & Hrun).
    destruct (is_utf8_continuation_byte c); [|done]. simpl in Hrun.
    apply (IH _ _ _ _ _ (k + 6)) in Hrun; [|clear Hrun|lia|lia].
    + destruct Hrun as [H1 ->]. split; [|lia].
      by replace (k + 6 * Z.of_nat (S n)) with (k + 6 + 6 * Z.of_nat n) by lia.
    + rewrite land_3F, Z.shiftl_mul_pow2 by lia.
      assert (2 ^ (k + 6) = 2 ^ k * 64) as E by (rewrite Z.pow_add_r by lia; done).
      assert (2 ^ (k + 6) <= 2 ^ 32) by (apply Z.pow_le_mono_r; lia).
      change (2 ^ 6) with 64 in *.
      rewrite u32_small by lia. pose proof (Z.mod_pos_bound c 64).
      pose proof (lor_add 6 (c mod 64) cp ltac:(lia) ltac:(lia)) as El. change (2 ^ 6) with 64 in El.
      rewrite Z.lor_comm, El. nia.
Qed.

Lemma within_bound n m p cp k :
  0 <= cp < 2 ^ k -> 0 <= k /\ k + 6 * Z.of_nat n <= 16 ->
  (let! r := or_continuation_bytes n m p cp in match r with inl r => Ok r | inr r => Ok r end) =
  (let! r := or_continuation_bytes n m p cp in
   match r with
   | inl (utf8, cp) =>
       if MAX_UNICODE_CHAR <? cp then Ok (utf8 - 3, UNICODE_REPLACEMENT_CHAR) else Ok (utf8, cp)
   | inr r => Ok r
   end).
Proof.
  intros Hcp Hk. destruct (or_continuation_bytes n m p cp) as [[[p' cp']|r]| | |] eqn:Hrun; try done.
  apply (or_continuation_bound n _ _ _ _ _ k) in Hrun as [Hcp' _]; [|done|lia|lia].
  assert (2 ^ (k + 6 * Z.of_nat n) <= 2 ^ 16) by (apply Z.pow_le_mono_r; lia).
  simpl. unfold MAX_UNICODE_CHAR. by zfalse (1114111 <? cp').
Qed.

Lemma get_codepoint_after_lead m a b :
  m !! a = Some (to_char b) -> 0 <= b < 256 -> a <> 0 ->
  get_codepoint_from_utf8 m a = after_lead m (a + 1) b.
Proof.
  intros Hm Hb Ha. unfold get_codepoint_from_utf8, after_lead.
  zfalse (a =? 0). rewrite (load_Some _ _ _ Hm). cbn [bind].
  rewrite predict_length_spec by done.
  rewrite land_1F, land_0F, land_07.
  change 32 with (2 ^ 5). change 16 with (2 ^ 4). change 8 with (2 ^ 3).
  rewrite !to_char_mod by lia.
  assert (lead_length b = 0 \/ lead_length b = 1 /\ b < 128 \/ lead_length b = 2 \/
          lead_length b = 3 \/ lead_length b = 4) as [E|[[E Hb']|[E|[E|E]]]]
    by (unfold lead_length; ztest);
    rewrite E; [done|rewrite to_char_ascii, u32_small by lia; done| | |done].
  - apply (within_bound 1 _ _ _ 5); [apply Z.mod_pos_bound|]; lia.
  - apply (within_bound 2 _ _ _ 4); [apply Z.mod_pos_bound|]; lia.
Qed.

Lemma after_lead_tail m a b n a' cp :
  lead_length b = n -> 2 <= n ->
  or_continuation_bytes (Z.to_nat (n - 1)) m a (b mod 2 ^ (7 - n)) = Ok (inl (a', cp)) ->
  cp <= MAX_UNICODE_CHAR -> after_lead m a b = Ok (a', cp).
Proof.
  intros Hn Hn2 Hrun Hcp. unfold after_lead. rewrite Hn.
  zfalse (n =? 1). zfalse (n =? 0). rewrite Hrun. simpl. by zfalse (MAX_UNICODE_CHAR <? cp).
Qed.

Lemma mod_small_offset x q b k : x = k + q * b -> 0 <= k < b -> x mod b = k.
Proof. intros -> Hk. rewrite Z_mod_plus_full. by apply Z.mod_small. Qed.

Lemma get_codepoint_spec m a cp :
  0 < cp <= MAX_UNICODE_CHAR -> a <> 0 -> holds m a (utf8_chars cp) ->
  get_codepoint_from_utf8 m a = Ok (a + proper_length_of_codepoint cp, cp).
Proof.
  unfold MAX_UNICODE_CHAR. intros Hcp Ha Hm. rewrite <- utf8_length.
  assert (forall x, 0 <= x mod 64 < 64) as Hmod by (intros; apply Z.mod_pos_bound; lia).
  pose proof (Z.div_mod cp 64 ltac:(lia)). pose proof (Z.div_mod (cp / 64) 64 ltac:(lia)).
  pose proof (Z.div_mod (cp / 64 / 64) 64 ltac:(lia)).
  pose proof (Hmod cp). pose proof (Hmod (cp / 64)). pose proof (Hmod (cp / 64 / 64)).
  unfold utf8_chars, utf8_bytes in *.
  replace (cp / 262144) with (cp / 64 / 64 / 64) in * by (rewrite !Z.div_div by lia; done).
  replace (cp / 4096) with (cp / 64 / 64) in * by (rewrite !Z.div_div by lia; done).
  set (c1 := cp / 64) in *. set (c2 := c1 / 64) in *. set (c3 := c2 / 64) in *.
  set (d0 := cp mod 64) in *. set (d1 := c1 mod 64) in *. set (d2 := c2 mod 64) in *.
  destruct (Z.ltb_spec cp 0x80); [|destruct (Z.ltb_spec cp 0x800); [|destruct (Z.ltb_spec cp 0x10000)]];
    cbn [map holds] in *; autorewrite with intent.
  - destruct Hm as [Hm _]. rewrite (get_codepoint_after_lead m a cp) by (done || lia).
    unfold after_lead. replace (lead_length cp) with 1 by (unfold lead_length; ztest). done.
  - destruct Hm as (Hm & Hm1 & _). rewrite (get_codepoint_after_lead m a _ Hm) by lia.
    apply (after_lead_tail _ _ _ 2); [unfold lead_length; ztest|lia| |unfold MAX_UNICODE_CHAR; lia].
    rewrite (mod_small_offset _ 6 (2 ^ (7 - 2)) c1) by lia.
    rewrite (or_continuation_step 0 _ _ _ d0) by (done || lia). simpl. do 3 f_equal; lia.
  - destruct Hm as (Hm & Hm1 & Hm0 & _). rewrite (get_codepoint_after_lead m a _ Hm) by lia.
    apply (after_lead_tail _ _ _ 3); [unfold lead_length; ztest|lia| |unfold MAX_UNICODE_CHAR; lia].
    rewrite (mod_small_offset _ 14 (2 ^ (7 - 3)) c2) by lia.
    rewrite (or_continuation_step 1 _ _ _ d1), (or_continuation_step 0 _ _ _ d0) by (done || lia).
    simpl. do 3 f_equal; lia.
  - destruct Hm as (Hm & Hm2 & Hm1 & Hm0 & _). rewrite (get_codepoint_after_lead m a _ Hm) by lia.
    apply (after_lead_tail _ _ _ 4); [unfold lead_length; ztest|lia| |unfold MAX_UNICODE_CHAR; lia].
    rewrite (mod_small_offset _ 30 (2 ^ (7 - 4)) c3) by lia.
    rewrite (or_continuation_step 2 _ _ _ d2), (or_continuation_step 1 _ _ _ d1),
      (or_continuation_step 0 _ _ _ d0) by (done || lia).
    simpl. do 3 f_equal; lia.
Qed.

(** ** Decoding arbitrary bytes *)

Lemma to_char_u8 c : is_char c -> to_char (u8 c) = c.
Proof.
  intros Hc. unfold is_char in Hc. unfold to_char, u8.
  rewrite Zplus_mod_idemp_l, Z.mod_small; lia.
Qed.

(** Continuation bytes never run past the NUL. *)
Lemma or_continuation_total n : forall m p cp l,
  holds m p (l ++ [0]) ->
  exists r, or_continuation_bytes n m p cp = Ok r /\
    match r with
    | inl (p', _) => p <= p' <= p + Zlen l
    | inr (p', cp') => p <= p' <= p + Zlen l /\ cp' = UNICODE_REPLACEMENT_CHAR
    end.
Proof.
  induction n as [|n IH]; intros m p cp l Hm; simpl.
  - eexists; split; [done|]. simpl. pose proof (Zlen_nonneg l). lia.
  - destruct l as [|c l]; destruct Hm as [Hc Hm]; rewrite (load_Some _ _ _ Hc); simpl.
    + change (is_utf8_continuation_byte 0) with false. simpl.
      eexists; split; [done|]. simpl. rewrite Zlen_nil. split; [lia|done].
    + destruct (is_utf8_continuation_byte c); simpl.
      * destruct (IH m (p + 1) (Z.lor (u32 (Z.shiftl cp 6)) (Z.land c 63)) l Hm) as (r & -> & Hr).
        exists r. split; [done|]. rewrite Zlen_cons. destruct r as [[p' cp']|[p' cp']]; lia.
      * eexists; split; [done|]. simpl. rewrite Zlen_cons. pose proof (Zlen_nonneg l). split; [lia|done].
Qed.

Lemma lead_length_range b : 0 <= lead_length b <= 4.
Proof. unfold lead_length. ztest. Qed.

(** On any C string the decoder moves by at least one byte, not past the NUL, and
    returns a codepoint. *)
Lemma get_codepoint_total m a c l :
  a <> 0 -> holds m a ((c :: l) ++ [0]) -> is_char c ->
  exists p cp, get_codepoint_from_utf8 m a = Ok (p, cp) /\
    a < p <= a + Zlen (c :: l) /\ 0 <= cp <= MAX_UNICODE_CHAR.
Proof.
  intros Ha [Hm Hl] Hc. rewrite Zlen_cons. pose proof (Zlen_nonneg l).
  rewrite <- (to_char_u8 c) in Hm by done. pose proof (u8_range c) as Hb.
  rewrite (get_codepoint_after_lead _ _ _ Hm Hb Ha). unfold after_lead.
  destruct (Z.eqb_spec (lead_length (u8 c)) 1) as [E1|E1].
  { eexists _, _. split; [done|]. unfold MAX_UNICODE_CHAR. lia. }
  destruct (Z.eqb_spec (lead_length (u8 c)) 0) as [E0|E0].
  { eexists _, _. split; [done|]. unfold MAX_UNICODE_CHAR, UNICODE_REPLACEMENT_CHAR. lia. }
  pose proof (lead_length_range (u8 c)).
  set (n := lead_length (u8 c)) in *.
  destruct (or_continuation_total (Z.to_nat (n - 1)) m (a + 1) (u8 c mod 2 ^ (7 - n)) l Hl)
    as (r & Hrun & Hr).
  rewrite Hrun. simpl. destruct r as [[p cp]|[p cp]].
  - apply (or_continuation_bound _ _ _ _ _ _ (7 - n)) in Hrun as [Hcp Hp];
      [|apply Z.mod_pos_bound; lia|lia|lia].
    unfold MAX_UNICODE_CHAR, UNICODE_REPLACEMENT_CHAR.
    destruct (Z.ltb_spec 0x10FFFF cp) as [Hbig|Hsmall]; (eexists _, _; split; [done|]).
    + assert (n = 4); [|lia]. destruct (Z.le_gt_cases n 3); [|lia].
      assert (2 ^ (7 - n + 6 * Z.of_nat (Z.to_nat (n - 1))) <= 2 ^ 16) by (apply Z.pow_le_mono_r; lia).
      lia.
    + lia.
  - destruct Hr as [Hr ->]. eexists _, _. split; [done|].
    unfold MAX_UNICODE_CHAR, UNICODE_REPLACEMENT_CHAR. lia.
Qed.

(** ** Walks over a C string *)

(** A loop that decodes from the position it is at, and leaves or goes on from the next one, returns on
    every C string. *)
Lemma holds_drop m a l k :
  0 <= k <= Zlen l -> holds m a (l ++ [0]) ->
  exists l', holds m (a + k) (l' ++ [0]) /\ Zlen l' = Zlen l - k /\ l' = drop (Z.to_nat k) l.
Proof.
  intros Hk Hm. exists (drop (Z.to_nat k) l). split; [|split; [|done]].
  - rewrite <- (take_drop (Z.to_nat k) l), <- app_assoc in Hm.
    apply holds_app in Hm as [_ Hm]. unfold Zlen in *. rewrite length_take in Hm.
    by replace (a + k) with (a + Z.of_nat (Z.to_nat k `min` length l)) by lia.
  - unfold Zlen in *. rewrite length_drop. lia.
Qed.

Lemma walk_total {A} (body : Z -> res (Z + A)) m :
  (forall p c l, 0 < p -> holds m p ((c :: l) ++ [0]) -> is_char c -> c <> 0 ->
     exists r, body p = Ok r /\
       match r with inl p' => p < p' <= p + Zlen (c :: l) | inr _ => True end) ->
  (forall p, 0 < p -> m !! p = Some 0 -> exists r, body p = Ok (inr r)) ->
  forall n l a fuel, (length l <= n)%nat -> (n < fuel)%nat ->
  0 < a -> holds m a (l ++ [0]) -> no_nul l -> Forall is_char l ->
  exists r, iterate fuel body a = Ok r.
Proof.
  intros Hbody Hnul. induction n as [|n IH]; intros l a fuel Hn Hf Ha Hm Hl Hchars;
    (destruct fuel as [|fuel]; [lia|]); destruct l as [|c l]; simpl in Hn; try lia; simpl.
  1, 2: destruct Hm as [Hm _]; destruct (Hnul a Ha Hm) as (r & ->); by exists r.
  pose proof Hl as [Hc Hl']%no_nul_cons. pose proof Hchars as [Hchar Hchars']%Forall_cons.
  destruct (Hbody a c l Ha Hm Hchar Hc) as ([p|r] & -> & Hp); simpl; [|by exists r].
  rewrite Zlen_cons in Hp.
  destruct (holds_drop m (a + 1) l (p - a - 1)) as (l' & Hm' & Hlen & Hl''); [lia|by destruct Hm|].
  apply (IH l'); [unfold Zlen in *; lia|lia|lia| | |].
  - by replace p with (a + 1 + (p - a - 1)) by lia.
  - subst l'. intros Hin. apply Hl'.
    rewrite <- (take_drop (Z.to_nat (p - a - 1)) l). apply elem_of_app. by right.
  - subst l'. by apply Forall_drop.
Qed.

(** ** Well-formed text *)

(** A Unicode scalar value other than NUL. *)
Definition is_scalar (cp : Z) : Prop := 0 < cp <= MAX_UNICODE_CHAR /\ is_surrogate cp = false.
#[export] Instance is_scalar_dec cp : Decision (is_scalar cp).
Proof. unfold is_scalar. apply _. Defined.

Definition utf8_text (cps : list Z) : list Z := concat (map utf8_chars cps).

Lemma proper_length_range cp : 1 <= proper_length_of_codepoint cp <= 4.
Proof. unfold proper_length_of_codepoint. ztest. Qed.

Lemma to_char_nonzero b : 0 < b < 256 -> to_char b <> 0.
Proof. intros Hb E. pose proof (u8_to_char b ltac:(lia)) as E'. rewrite E in E'. cbv in E'. lia. Qed.

Lemma utf8_chars_head cp :
  0 < cp <= MAX_UNICODE_CHAR -> exists c l, utf8_chars cp = c :: l /\ c <> 0.
Proof.
  unfold MAX_UNICODE_CHAR, utf8_chars, utf8_bytes. intros Hcp.
  assert (0 <= cp / 64 /\ (cp < 2048 -> cp / 64 < 32)) by
    (split; [apply Z.div_pos|intros; apply Z.div_lt_upper_bound]; lia).
  assert (0 <= cp / 4096 /\ (cp < 65536 -> cp / 4096 < 16)) by
    (split; [apply Z.div_pos|intros; apply Z.div_lt_upper_bound]; lia).
  assert (0 <= cp / 262144 < 5) by
    (split; [apply Z.div_pos|apply Z.div_lt_upper_bound]; lia).
  destruct (Z.ltb_spec cp 0x80); [|destruct (Z.ltb_spec cp 0x800); [|destruct (Z.ltb_spec cp 0x10000)]];
    eexists _, _; (split; [reflexivity|]); apply to_char_nonzero; lia.
Qed.

Lemma well_formed_step_scalar m a cp :
  is_scalar cp -> 0 < a -> holds m a (utf8_chars cp) ->
  is_well_formed_step m a = Ok (inl (a + proper_length_of_codepoint cp)).
Proof.
  intros [Hcp Hsur] Ha Hm. unfold is_well_formed_step.
  destruct (utf8_chars_head cp Hcp) as (c & l & E & Hc). pose proof Hm as Hm'.
  rewrite E in Hm'. destruct Hm' as [Hmc _]. rewrite (load_Some _ _ _ Hmc). simpl. zfalse (c =? 0).
  rewrite (get_codepoint_spec m a cp) by (done || lia). simpl. rewrite Hsur.
  pose proof (proper_length_range cp).
  replace (a + proper_length_of_codepoint cp - a) with (proper_length_of_codepoint cp) by lia.
  rewrite u64_small, Z.ltb_irrefl, andb_false_r by lia.
  destruct (Z.eqb_spec cp UNICODE_REPLACEMENT_CHAR) as [->|]; [|done].
  simpl. unfold proper_length_of_codepoint, UNICODE_REPLACEMENT_CHAR. simpl.
  by zfalse (a + 3 =? a + 1).
Qed.

Lemma utf8_text_cons cp cps : utf8_text (cp :: cps) = utf8_chars cp ++ utf8_text cps.
Proof. done. Qed.

Lemma utf8_text_length cps :
  Forall is_scalar cps -> Zlen cps <= Zlen (utf8_text cps).
Proof.
  induction 1 as [|cp cps Hcp _ IH]; [done|].
  rewrite utf8_text_cons, Zlen_app, utf8_length, Zlen_cons. pose proof (proper_length_range cp). lia.
Qed.

Lemma well_formed_loop m cps : forall a fuel,
  Forall is_scalar cps -> 0 < a -> holds m a (utf8_text cps ++ [0]) -> (length cps < fuel)%nat ->
  iterate fuel (is_well_formed_step m) a = Ok true.
Proof.
  induction cps as [|cp cps IH]; intros a fuel Hcps Ha Hm Hf;
    (destruct fuel as [|fuel]; [simpl in Hf; lia|]).
  - destruct Hm as [Hm _]. simpl. unfold is_well_formed_step. by rewrite (load_Some _ _ _ Hm).
  - apply Forall_cons in Hcps as [Hcp Hcps]. rewrite utf8_text_cons, <- app_assoc in Hm.
    apply holds_app in Hm as [Hm Hm']. simpl. rewrite (well_formed_step_scalar m a cp) by done. simpl.
    rewrite utf8_length in Hm'. pose proof (proper_length_range cp).
    apply IH; [done|lia|done|simpl in Hf; lia].
Qed.

Lemma count_loop m cps : forall a e n fuel,
  Forall is_scalar cps -> 0 < a -> holds m a (utf8_text cps) -> e = a + Zlen (utf8_text cps) ->
  (length cps < fuel)%nat -> 0 <= n -> n + Zlen cps < 2 ^ 64 ->
  iterate fuel (fun '(utf8, count) =>
    if utf8 <? e then
      let! (utf8, _) := get_codepoint_from_utf8 m utf8 in Ok (inl (utf8, u64 (count + 1)))
    else Ok (inr count)) (a, n) = Ok (n + Zlen cps).
Proof.
  induction cps as [|cp cps IH]; intros a e n fuel Hcps Ha Hm He Hf Hn Hsmall;
    (destruct fuel as [|fuel]; [simpl in Hf; lia|]); simpl.
  - change (Zlen (utf8_text [])) with 0 in He. zfalse (a <? e). simpl.
    by rewrite Zlen_nil, Z.add_0_r.
  - apply Forall_cons in Hcps as [[Hcp _] Hcps].
    rewrite utf8_text_cons, Zlen_app, utf8_length in He. rewrite Zlen_cons in *.
    rewrite utf8_text_cons in Hm. apply holds_app in Hm as [Hm Hm'].
    pose proof (proper_length_range cp). pose proof (Zlen_nonneg (utf8_text cps)).
    pose proof (Zlen_nonneg cps). ztrue (a <? e).
    rewrite (get_codepoint_spec m a cp) by (done || lia). simpl. rewrite u64_small by lia.
    rewrite utf8_length in Hm'.
    rewrite (IH _ e); [f_equal; lia|done|lia|done|lia|simpl in Hf; lia|lia|lia].
Qed.

(** A three-byte sequence cut short by an ASCII char is stepped over. *)
Lemma truncated_step m a b y c :
  0 < a -> 0xE0 <= b < 0xF0 -> 0x80 <= y < 0xC0 -> 0 < c < 0x80 ->
  m !! a = Some (to_char b) -> m !! (a + 1) = Some (to_char y) -> m !! (a + 1 + 1) = Some c ->
  is_well_formed_step m a = Ok (inl (a + 2)).
Proof.
  intros Ha Hb Hy Hc Hmb Hmy Hmc.
  unfold is_well_formed_step. rewrite (load_Some _ _ _ Hmb). simpl.
  pose proof (to_char_nonzero b ltac:(lia)).
  zfalse (to_char b =? 0). rewrite (get_codepoint_after_lead m a b) by (done || lia).
  unfold after_lead. replace (lead_length b) with 3 by (unfold lead_length; ztest).
  cbn [Z.eqb]. change (Z.to_nat (3 - 1)) with 2%nat.
  replace y with (0x80 + (y - 0x80)) in Hmy by lia.
  rewrite (or_continuation_step 1 _ _ _ (y - 0x80)) by
    (done || lia || (pose proof (Z.mod_pos_bound b (2 ^ (7 - 3))); lia)).
  simpl. rewrite (load_Some _ _ _ Hmc). simpl.
  rewrite <- (to_char_ascii c) by lia. rewrite continuation_spec by lia.
  zfalse (128 <=? c). simpl. change (UNICODE_REPLACEMENT_CHAR =? UNICODE_REPLACEMENT_CHAR) with true.
  zfalse (a + 1 + 1 + 1 - 1 =? a + 1). simpl.
  replace (a + 1 + 1 + 1 - 1 - a) with 2 by lia. replace (a + 1 + 1 + 1 - 1) with (a + 2) by lia. done.
Qed.

(** ** Escape sequences *)

Lemma hex_digits_length n v : length (hex_digits n v) = n.
Proof. revert v. induction n as [|n IH]; intros v; simpl; [done|]. rewrite length_app, IH. simpl. lia. Qed.

Lemma digit_value_hex_char d : 0 <= d < 16 -> digit_value 16 (hex_char d) = Some d.
Proof. intros Hd. unfold digit_value, hex_char, get_ascii_hex_value. ztest; f_equal; lia. Qed.

Lemma hex_digits_numeral n v : Forall (fun c => is_numeral_char 16 c = true) (hex_digits n v).
Proof.
  revert v. induction n as [|n IH]; intros v; simpl; [constructor|].
  apply Forall_app. split; [apply IH|]. constructor; [|constructor].
  unfold is_numeral_char. rewrite digit_value_hex_char; [done|]. by apply Z.mod_pos_bound.
Qed.

Lemma hex_digits_value n v : 0 <= v < 16 ^ Z.of_nat n -> numeral_value 16 (hex_digits n v) = v.
Proof.
  revert v. induction n as [|n IH]; intros v Hv; simpl; [simpl in Hv; unfold numeral_value; simpl; lia|].
  unfold numeral_value in *. rewrite fold_left_app. simpl.
  rewrite Nat2Z.inj_succ, Z.pow_succ_r in Hv by lia.
  rewrite IH by (split; [apply Z.div_pos|apply Z.div_lt_upper_bound]; lia).
  rewrite digit_value_hex_char by by apply Z.mod_pos_bound.
  pose proof (Z.div_mod v 16). lia.
Qed.

Lemma scan_hex_digits_full m p n v :
  holds m p (hex_digits n v) -> 0 <= v < 16 ^ Z.of_nat n -> v < 2 ^ 64 ->
  scan_hex_digits m p (p + Z.of_nat n) = Ok (p + Z.of_nat n, v).
Proof.
  intros Hm Hv Hv64. pose proof (scan_digits_spec Hex m p _ Hm) as H. cbn [radix_base scan_digits] in H.
  pose proof (scan_len_app_all _ _ [] (hex_digits_numeral n v)) as Hk. rewrite app_nil_r in Hk.
  cbn [scan_len] in Hk. rewrite Z.add_0_r in Hk. rewrite Hk in H. unfold Zlen in H.
  rewrite hex_digits_length, Nat2Z.id, take_ge in H by (rewrite hex_digits_length; lia).
  by rewrite hex_digits_value, u64_small in H by lia.
Qed.

(** The hex escapes: their marker and number of digits. *)
Definition hex_escape (mark : Z) (n : nat) : Prop :=
  mark = "x"%ch /\ n = 2%nat \/ mark = "u"%ch /\ n = 4%nat \/ mark = "U"%ch /\ n = 8%nat.

Lemma scan_hex_escape m a cp0 mark n v :
  hex_escape mark n -> 0 < a -> holds m a (mark :: hex_digits n v) ->
  0 <= v < 16 ^ Z.of_nat n -> v <= MAX_UNICODE_CHAR ->
  scan_unicode_escape_sequence m a cp0 = Ok (a + 1 + Z.of_nat n, v).
Proof.
  intros Hmark Ha [Hm Hd] Hv Hmax. unfold scan_unicode_escape_sequence.
  zfalse (a =? 0). rewrite (load_Some _ _ _ Hm). cbn [bind].
  assert (v < 2 ^ 64) by (unfold MAX_UNICODE_CHAR in Hmax; lia).
  pose proof (scan_hex_digits_full m (a + 1) n v Hd Hv ltac:(lia)) as Hscan.
  destruct Hmark as [[-> ->]|[[-> ->]|[-> ->]]]; simpl; unfold scan_escape_digits;
    change (Z.of_nat 2) with 2 in *; change (Z.of_nat 4) with 4 in *; change (Z.of_nat 8) with 8 in *;
    rewrite Hscan; cbn [bind]; rewrite Z.eqb_refl;
    (zfalse (MAX_UNICODE_CHAR <? v); rewrite andb_false_r);
    unfold MAX_UNICODE_CHAR in Hmax; by rewrite u32_small by lia.
Qed.

(** The one-char escapes read back as the chars they stand for. *)
Definition one_char_reads (cp : Z) : bool :=
  match strchr NEED_1CHAR_ESCAPES (to_char cp) with
  | None => true
  | Some i =>
      let m := map_seqZ 1 [char_at CHARS_FOR_1CHAR_ESCAPES i] in
      match scan_unicode_escape_sequence m 1 0 with
      | Ok (p, cp') => (p =? 2) && (cp' =? cp)
      | _ => false
      end
  end.

Lemma one_char_escapes_read : forallb one_char_reads (seqZ 1 31) = true.
Proof. vm_compute. reflexivity. Qed.

Lemma scan_one_char_escape m a cp0 cp i :
  0 < cp < 32 -> strchr NEED_1CHAR_ESCAPES (to_char cp) = Some i -> 0 < a ->
  m !! a = Some (char_at CHARS_FOR_1CHAR_ESCAPES i) ->
  scan_unicode_escape_sequence m a cp0 = Ok (a + 1, cp).
Proof.
  intros Hcp Hi Ha Hm. pose proof one_char_escapes_read as H. rewrite forallb_forall in H.
  specialize (H cp). rewrite <- list_elem_of_In, elem_of_seqZ in H. specialize (H ltac:(lia)).
  unfold one_char_reads in H. rewrite Hi in H.
  assert (In (char_at CHARS_FOR_1CHAR_ESCAPES i) (CHARS_FOR_1CHAR_ESCAPES ++ [0])) as Hin.
  { unfold char_at. apply nth_In. apply fmap_Some in Hi as ([j x] & Hi & ->).
    apply list_find_Some in Hi as (Hj & _). apply lookup_lt_Some in Hj. exact Hj. }
  unfold scan_unicode_escape_sequence. zfalse (a =? 0). rewrite (load_Some _ _ _ Hm). cbn [bind].
  destruct (scan_unicode_escape_sequence (map_seqZ 1 _) 1 0) as [[p cp']| | |] eqn:Hs; try done.
  apply andb_true_iff in H as [_ ->%Z.eqb_eq]. revert Hs.
  generalize (a + 1) as e. intros e. simpl in Hin.
  repeat (destruct Hin as [<-|Hin]; [vm_compute; by intros [= <- <-]|]). done.
Qed.

(** Writing a text into a live buffer with room for it and a NUL. *)
Lemma snprintf_spec m buf len old text :
  holds m buf old -> (length text < length old)%nat -> Zlen text < len ->
  exists m', snprintf m buf len text = Ok m' /\ holds m' buf text.
Proof.
  intros Hold Hlen Hroom. pose proof (Zlen_nonneg text). unfold snprintf. zfalse (len =? 0).
  rewrite take_ge by (unfold Zlen in *; lia).
  rewrite <- (take_drop (length (text ++ [0])) old) in Hold. apply holds_app in Hold as [Hold _].
  destruct (stores_spec m buf _ (text ++ [0]) Hold) as (m' & -> & [Hm _]).
  - rewrite length_take, length_app. simpl. lia.
  - exists m'. split; [done|]. by apply holds_app in Hm as [Hm _].
Qed.

(** * Properties *)

(** C28: [add_codepoint_to_utf8] and [get_codepoint_from_utf8] are a round trip: for
    each codepoint from 1 to 0x10FFFF and a live buffer with room for it, the
    encoder succeeds, moves past the bytes it wrote and changes no other byte, and the decoder
    reads the same codepoint back from them and stops where the encoder did. *)
Theorem utf8_roundtrip m buf len cp old :
  0 < cp <= MAX_UNICODE_CHAR -> 0 < buf ->
  holds m buf old -> Zlen old = proper_length_of_codepoint cp -> Zlen old <= len ->
  exists m' buf',
    add_codepoint_to_utf8 (m, buf, len) cp = Ok (true, (m', buf', len)) /\
    buf' = buf + proper_length_of_codepoint cp /\
    (forall a, a < buf \/ buf' <= a -> m' !! a = m !! a) /\
    get_codepoint_from_utf8 m' buf = Ok (buf', cp).
Proof.
  intros Hcp Hbuf Hold Hlen Hroom.
  destruct (stores_spec m buf old (utf8_chars cp) Hold) as (m' & Hrun & Hnew & Helse);
    [pose proof (utf8_length cp); unfold Zlen in *; lia|].
  exists m', (buf + proper_length_of_codepoint cp). rewrite <- utf8_length in *.
  rewrite add_codepoint_spec by (rewrite <- ?utf8_length; lia). rewrite Hrun. simpl.
  rewrite <- utf8_length. split; [done|]. split; [done|]. split; [done|].
  rewrite utf8_length. by apply get_codepoint_spec; [|lia|].
Qed.

(** A buffer of eight bytes, all 1. *)
Definition scratch : mem := map_seqZ 100 [1; 1; 1; 1; 1; 1; 1; 1].

Lemma utf8_roundtrip_witness :
  exists m' buf',
    add_codepoint_to_utf8 (scratch, 100, 8) 0x1F600 = Ok (true, (m', buf', 8)) /\
    buf' = 100 + proper_length_of_codepoint 0x1F600 /\
    (forall a, a < 100 \/ buf' <= a -> m' !! a = scratch !! a) /\
    get_codepoint_from_utf8 m' 100 = Ok (buf', 0x1F600).
Proof.
  apply (utf8_roundtrip scratch 100 8 0x1F600 [1; 1; 1; 1]);
    [unfold MAX_UNICODE_CHAR; lia|lia|decided|reflexivity|unfold Zlen; simpl; lia].
Defined.

(** C31: on every C string, whatever its bytes, the decoding walks return: the
    well-formedness test and the search for a codepoint never read past the
    terminating NUL. *)
Theorem utf8_walks_total m a l cp :
  holds_cstr m a l -> Forall is_char l ->
  exists b p,
    is_well_formed_utf8 m a = Ok b /\ find_codepoint_in_utf8 m a cp = Ok p.
Proof.
  intros (Ha & Hm & Hl) Hchars. pose proof (holds_cstr_size _ _ _ Hm) as Hf.
  destruct (walk_total (is_well_formed_step m) m) with (n := length l) (l := l) (a := a)
    (fuel := S (size m)) as [b Hb]; try done.
  - intros p c l' Hp Hm' Hc Hc0. unfold is_well_formed_step. pose proof Hm' as [Hmc _].
    rewrite (load_Some _ _ _ Hmc). simpl. zfalse (c =? 0).
    destruct (get_codepoint_total m p c l') as (next & cp' & -> & Hnext & _); [lia|done|done|].
    simpl. repeat case_match; eexists; (split; [done|]); done.
  - intros p _ Hm'. unfold is_well_formed_step. rewrite (load_Some _ _ _ Hm'). by eexists.
  - destruct (walk_total (find_codepoint_step m cp) m) with (n := length l) (l := l) (a := a)
      (fuel := S (size m)) as [p Hp]; try done.
    + intros q c l' Hq Hm' Hc Hc0. unfold find_codepoint_step. pose proof Hm' as [Hmc _].
      rewrite (load_Some _ _ _ Hmc). simpl. zfalse (c =? 0).
      destruct (get_codepoint_total m q c l') as (next & cp' & -> & Hnext & _); [lia|done|done|].
      simpl. destruct (cp =? cp'); by eexists.
    + intros q _ Hm'. unfold find_codepoint_step. rewrite (load_Some _ _ _ Hm'). by eexists.
    + exists b, p. unfold is_well_formed_utf8, find_codepoint_in_utf8. by zfalse (a =? 0).
Qed.

Lemma utf8_walks_total_witness :
  exists b p,
    is_well_formed_utf8 (map_seqZ 16 [-31; -128; 65; -16; 0]) 16 = Ok b /\
    find_codepoint_in_utf8 (map_seqZ 16 [-31; -128; 65; -16; 0]) 16 65 = Ok p.
Proof. apply (utf8_walks_total _ 16 [-31; -128; 65; -16]); decided. Defined.

(** C30: the UTF-8 of any sequence of scalar values other than NUL is accepted by
    [is_well_formed_utf8], and [count_codepoints_in_utf8] counts the values. *)
Theorem utf8_text_accepted m a cps :
  Forall is_scalar cps -> 0 < a -> holds m a (utf8_text cps ++ [0]) -> Zlen cps < 2 ^ 64 ->
  is_well_formed_utf8 m a = Ok true /\
  count_codepoints_in_utf8 m a (a + Zlen (utf8_text cps)) = Ok (Zlen cps).
Proof.
  intros Hcps Ha Hm Hsmall. pose proof (utf8_text_length cps Hcps) as Hlen.
  pose proof (holds_cstr_size _ _ _ Hm) as Hf. split.
  - unfold is_well_formed_utf8. zfalse (a =? 0).
    apply well_formed_loop with cps; [done|done|done|unfold Zlen in *; lia].
  - apply holds_app in Hm as [Hm _]. unfold count_codepoints_in_utf8.
    rewrite (count_loop m cps) by
      (done || lia || (unfold span_fuel, Zlen in *; lia)). done.
Qed.

Lemma utf8_text_accepted_witness :
  is_well_formed_utf8 (map_seqZ 16 (utf8_text [0x41; 0xE9; 0x20AC; 0x1F600] ++ [0])) 16 = Ok true /\
  count_codepoints_in_utf8 (map_seqZ 16 (utf8_text [0x41; 0xE9; 0x20AC; 0x1F600] ++ [0])) 16
    (16 + Zlen (utf8_text [0x41; 0xE9; 0x20AC; 0x1F600])) = Ok 4.
Proof.
  apply (utf8_text_accepted _ 16 [0x41; 0xE9; 0x20AC; 0x1F600]); decided.
Defined.

(** [is_well_formed_utf8] accepts malformed text: a three-byte lead byte with a
    single continuation byte, before an ASCII char. *)
Theorem well_formed_accepts_truncated m a b y c :
  0 < a -> 0xE0 <= b < 0xF0 -> 0x80 <= y < 0xC0 -> 0 < c < 0x80 ->
  holds m a [to_char b; to_char y; c; 0] ->
  is_well_formed_utf8 m a = Ok true.
Proof.
  intros Ha Hb Hy Hc (Hmb & Hmy & Hmc & Hm0 & _). unfold is_well_formed_utf8. zfalse (a =? 0).
  assert (3 < S (size m))%nat as Hf.
  { pose proof (holds_length m a [to_char b; to_char y; c; 0]) as H. simpl in H. assert (4 <= size m)%nat by (apply H; tauto). lia. }
  destruct (S (size m)) as [|[|[|fuel]]]; [lia|lia|lia|]. cbn [iterate]. clear Hf.
  rewrite (truncated_step m a b y c) by done.
  cbn [bind].
  assert (is_well_formed_step m (a + 2) = Ok (inl (a + 3))) as ->.
  { rewrite (well_formed_step_scalar m (a + 2) c); [|split| |].
    - unfold proper_length_of_codepoint. ztrue (c <=? 127). do 2 f_equal. lia.
    - unfold MAX_UNICODE_CHAR. lia.
    - unfold is_surrogate, HIGH_SURROGATE_BEGIN. by zfalse (55296 <=? c).
    - lia.
    - unfold utf8_chars, utf8_bytes. ztrue (c <? 128). simpl. rewrite to_char_ascii by lia.
      by replace (a + 2) with (a + 1 + 1) by lia. }
  cbn [bind]. unfold is_well_formed_step.
  by replace (a + 3) with (a + 1 + 1 + 1) by lia; rewrite (load_Some _ _ _ Hm0).
Qed.

Lemma well_formed_accepts_truncated_witness :
  is_well_formed_utf8 (map_seqZ 16 [-31; -128; 65; 0]) 16 = Ok true.
Proof. apply (well_formed_accepts_truncated _ 16 0xE1 0x80 65); [lia|lia|lia|lia|decided]. Defined.

(** C29: [add_escape_sequence] and [scan_unicode_escape_sequence] are a round trip: in
    a live buffer of at least eleven bytes each codepoint from 1 to 0x10FFFF is written as a
    backslash and a sequence that reads back as the same codepoint, ending where the
    writer stopped. *)
Theorem escape_roundtrip m buf len cp cp0 old :
  0 < cp <= MAX_UNICODE_CHAR -> 0 < buf -> holds m buf old -> 11 <= Zlen old -> 11 <= len ->
  exists m' buf' len',
    add_escape_sequence (m, buf, len) cp = Ok (true, (m', buf', len')) /\
    m' !! buf = Some BACKSLASH /\
    scan_unicode_escape_sequence m' (buf + 1) cp0 = Ok (buf', cp).
Proof.
  intros Hcp Hbuf Hold Hsize Hlen.
  assert (forall mark n v, hex_escape mark n -> 0 <= v < 16 ^ Z.of_nat n -> v = cp ->
    exists m' buf' len',
      (let! m := snprintf m buf len (BACKSLASH :: mark :: hex_digits n v) in
       advance_and_return_true m buf len (2 + Z.of_nat n)) = Ok (true, (m', buf', len')) /\
      m' !! buf = Some BACKSLASH /\
      scan_unicode_escape_sequence m' (buf + 1) cp0 = Ok (buf', cp)) as Hhex.
  { intros mark n v Hmark Hv ->.
    assert (n <= 8)%nat by (destruct Hmark as [[_ ->]|[[_ ->]|[_ ->]]]; lia).
    destruct (snprintf_spec m buf len old (BACKSLASH :: mark :: hex_digits n cp) Hold) as (m' & -> & Hm').
    1, 2: unfold Zlen in *; simpl; rewrite hex_digits_length; lia.
    destruct Hm' as [Hbs Hm']. eexists _, _, _. split; [done|]. split; [done|].
    rewrite (scan_hex_escape m' (buf + 1) cp0 mark n cp) by (done || lia). do 2 f_equal. lia. }
  unfold add_escape_sequence, MAX_UNICODE_CHAR in *.
  destruct (if cp <? 32 then strchr NEED_1CHAR_ESCAPES (to_char cp) else None) as [i|] eqn:Hi.
  - destruct (Z.ltb_spec cp 32); [|done]. unfold write_2byte_sequence. ztrue (2 <=? len).
    destruct old as [|o0 [|o1 old]]; unfold Zlen in Hsize; simpl in Hsize; try lia.
    destruct (stores_spec m buf [o0; o1] [BACKSLASH; char_at CHARS_FOR_1CHAR_ESCAPES i])
      as (m' & -> & (Hbs & Hc & _) & _); [destruct Hold as (? & ? & _); done|done|].
    eexists _, _, _. split; [done|]. split; [done|].
    rewrite (scan_one_char_escape m' (buf + 1) cp0 cp i) by (done || lia). do 2 f_equal. lia.
  - zfalse (cp =? 0). cbn [orb].
    destruct (Z.leb_spec cp 0x7F); [|destruct (Z.leb_spec cp 0xFFFF)].
    + ztrue (4 <? len). apply (Hhex "x"%ch 2%nat); [by left|apply u8_range|].
      unfold u8. by rewrite Z.mod_small by lia.
    + ztrue (6 <=? len). apply (Hhex "u"%ch 4%nat); [by right; left|by apply Z.mod_pos_bound|].
      unfold u16. by rewrite Z.mod_small by lia.
    + ztrue (10 <=? len). apply (Hhex "U"%ch 8%nat); [by right; right|simpl; lia|done].
Qed.

Definition scratch16 : mem := map_seqZ 100 (replicate 16 1).

Lemma escape_roundtrip_witness :
  exists m' buf' len',
    add_escape_sequence (scratch16, 100, 16) 0x20AC = Ok (true, (m', buf', len')) /\
    m' !! 100 = Some BACKSLASH /\
    scan_unicode_escape_sequence m' (100 + 1) 0 = Ok (buf', 0x20AC).
Proof.
  apply (escape_roundtrip scratch16 100 16 0x20AC 0 (replicate 16 1));
    [unfold MAX_UNICODE_CHAR; lia|lia|decided|decided|lia].
Defined.

(** with exactly six bytes left, [add_escape_sequence] reports success for a
    codepoint from 0x80 to 0xFFFF and moves six bytes on, but the last hex digit is not
    there: [snprintf] put its NUL in the sixth byte. *)
Theorem escape_truncated m buf cp old :
  0x80 <= cp <= 0xFFFF -> holds m buf old -> Zlen old = 6 ->
  exists m',
    add_escape_sequence (m, buf, 6) cp = Ok (true, (m', buf + 6, 12)) /\
    holds m' buf (BACKSLASH :: "u"%ch :: take 3 (hex_digits 4 cp) ++ [0]).
Proof.
  intros Hcp Hold Hlen. unfold add_escape_sequence.
  zfalse (cp <? 32). zfalse (cp =? 0). zfalse (cp <=? 0x7F). ztrue (cp <=? 0xFFFF). cbn [orb].
  unfold u16. rewrite Z.mod_small by lia. unfold snprintf. cbn [Z.eqb].
  change (Z.to_nat (6 - 1)) with 5%nat.
  destruct (stores_spec m buf old (take 5 (BACKSLASH :: "u"%ch :: hex_digits 4 cp) ++ [0]) Hold)
    as (m' & Hrun & Hm' & _); [unfold Zlen in Hlen; simpl; lia|].
  change (6 =? 0) with false. cbn [bind].
  exists m'. change (6 <=? 6) with true. cbn [bind]. rewrite Hrun. done.
Qed.

Lemma escape_truncated_witness :
  exists m',
    add_escape_sequence (map_seqZ 100 [1; 1; 1; 1; 1; 1], 100, 6) 0x20AC = Ok (true, (m', 100 + 6, 12)) /\
    holds m' 100 (BACKSLASH :: "u"%ch :: take 3 (hex_digits 4 0x20AC) ++ [0]).
Proof.
  apply (escape_truncated _ 100 0x20AC [1; 1; 1; 1; 1; 1]); [lia|decided|reflexivity].
Defined.
