(* ===== verification/Tokens.v ===== *)
(** * Token types and issues: lang/token_type.h/.cpp, token_type.tuples, operator.tuples and issue.cpp

    An enum value is its number.  A [char const *] that is only compared or
    returned is an [option string]: [None] is nullptr. *)

From stdpp Require Import base tactics list gmap strings.
From Stdlib Require Import ZArith Lia Ascii.
From S2P Require Import Prelude.
#[local] Open Scope Z_scope.

(** ** Token numbers *)

Definition tt_none : Z := 0x0.
Definition tt_error : Z := 0x1.
Definition tt_indent : Z := 0x2.
Definition tt_dedent : Z := 0x3.
Definition tt_line_break : Z := 0x4.
Definition tt_soft_break : Z := 0x5.
Definition tt_noun : Z := 0x6.
Definition tt_verb : Z := 0x7.
Definition tt_keyword_mask : Z := 0x1000.
Definition tt_if : Z := 0x1001.
Definition tt_else : Z := 0x1002.
Definition tt_end : Z := 0x1003.
Definition tt_while : Z := 0x1004.
Definition tt_handle : Z := 0x1005.
Definition tt_when : Z := 0x1006.
Definition tt_try : Z := 0x1007.
Definition tt_catch : Z := 0x1008.
Definition tt_finally : Z := 0x1009.
Definition tt_return : Z := 0x100a.
Definition tt_literal_mask : Z := 0x2000.
Definition tt_number_literal_mask : Z := 0x2100.
Definition tt_binary_number : Z := 0x2101.
Definition tt_decimal_number : Z := 0x2102.
Definition tt_hex_number : Z := 0x2103.
Definition tt_octal_number : Z := 0x2104.
Definition tt_floating_point_number : Z := 0x2105.
Definition tt_string_literal_mask : Z := 0x2200.
Definition tt_quoted_string : Z := 0x2201.
Definition tt_char_literal : Z := 0x2202.
Definition tt_regex : Z := 0x2203.
Definition tt_date_literal_mask : Z := 0x2400.
Definition tt_iso8601_date : Z := 0x2401.
Definition tt_epoch_date : Z := 0x2402.
Definition tt_duration : Z := 0x2403.
Definition tt_comment_mask : Z := 0x4000.
Definition tt_comment : Z := 0x4001.
Definition tt_doc_comment : Z := 0x4002.
Definition tt_heredoc : Z := 0x4003.
Definition tt_explanation : Z := 0x4004.
Definition tt_operator_mask : Z := 0x8000.
Definition tt_operator_paren : Z := Z.lor 0x8000 0x101.
Definition tt_operator_close_paren : Z := Z.lor 0x8000 0x102.
Definition tt_operator_dot : Z := Z.lor 0x8000 0x103.
Definition tt_operator_safe_dot : Z := Z.lor 0x8000 0x104.
Definition tt_operator_spread : Z := Z.lor 0x8000 0x105.
Definition tt_operator_brace : Z := Z.lor 0x8000 0x110.
Definition tt_operator_safe_subscript : Z := Z.lor 0x8000 0x111.
Definition tt_operator_safe_empty : Z := Z.lor 0x8000 0x112.
Definition tt_operator_safe_subscript_safe_empty : Z := Z.lor 0x8000 0x113.
Definition tt_operator_close_brace : Z := Z.lor 0x8000 0x114.
Definition tt_operator_positive_mark : Z := Z.lor 0x8000 0x201.
Definition tt_operator_negative_mark : Z := Z.lor 0x8000 0x202.
Definition tt_operator_double_positive_mark : Z := Z.lor 0x8000 0x203.
Definition tt_operator_double_negative_mark : Z := Z.lor 0x8000 0x204.
Definition tt_operator_bit_not : Z := Z.lor 0x8000 0x210.
Definition tt_operator_bool_not : Z := Z.lor 0x8000 0x211.
Definition tt_operator_star : Z := Z.lor 0x8000 0x401.
Definition tt_operator_slash : Z := Z.lor 0x8000 0x402.
Definition tt_operator_mod : Z := Z.lor 0x8000 0x403.
Definition tt_operator_plus : Z := Z.lor 0x8000 0x501.
Definition tt_operator_minus : Z := Z.lor 0x8000 0x502.
Definition tt_operator_increment : Z := Z.lor 0x8000 0x503.
Definition tt_operator_decrement : Z := Z.lor 0x8000 0x504.
Definition tt_operator_lshift : Z := Z.lor 0x8000 0x601.
Definition tt_operator_rshift : Z := Z.lor 0x8000 0x602.
Definition tt_operator_unsigned_rshift : Z := Z.lor 0x8000 0x603.
Definition tt_operator_greater : Z := Z.lor 0x8000 0x701.
Definition tt_operator_less : Z := Z.lor 0x8000 0x702.
Definition tt_operator_greater_equal : Z := Z.lor 0x8000 0x703.
Definition tt_operator_less_equal : Z := Z.lor 0x8000 0x704.
Definition tt_operator_instance_of : Z := Z.lor 0x8000 0x710.
Definition tt_operator_bool_equal : Z := Z.lor 0x8000 0x801.
Definition tt_operator_not_equal : Z := Z.lor 0x8000 0x802.
Definition tt_operator_spaceship : Z := Z.lor 0x8000 0x810.
Definition tt_operator_qspaceship : Z := Z.lor 0x8000 0x811.
Definition tt_operator_spaceshipq : Z := Z.lor 0x8000 0x812.
Definition tt_operator_in : Z := Z.lor 0x8000 0x820.
Definition tt_operator_not_in : Z := Z.lor 0x8000 0x821.
Definition tt_operator_bit_and : Z := Z.lor 0x8000 0x901.
Definition tt_operator_bit_xor : Z := Z.lor 0x8000 0xa01.
Definition tt_operator_bit_or : Z := Z.lor 0x8000 0xb01.
Definition tt_operator_bool_and : Z := Z.lor 0x8000 0xc01.
Definition tt_operator_bool_or : Z := Z.lor 0x8000 0xd01.
Definition tt_operator_ternary : Z := Z.lor 0x8000 0xe01.
Definition tt_operator_elvis : Z := Z.lor 0x8000 0xe02.
Definition tt_operator_colon : Z := Z.lor 0x8000 0xf01.
Definition tt_operator_gets : Z := Z.lor 0x8000 0xf02.
Definition tt_operator_assign_equals : Z := Z.lor 0x8000 0xf03.
Definition tt_operator_plus_equals : Z := Z.lor 0x8000 0xf20.
Definition tt_operator_minus_equals : Z := Z.lor 0x8000 0xf21.
Definition tt_operator_times_equals : Z := Z.lor 0x8000 0xf22.
Definition tt_operator_divide_equals : Z := Z.lor 0x8000 0xf23.
Definition tt_operator_mod_equals : Z := Z.lor 0x8000 0xf24.
Definition tt_operator_bit_and_equals : Z := Z.lor 0x8000 0xf25.
Definition tt_operator_bit_xor_equals : Z := Z.lor 0x8000 0xf26.
Definition tt_operator_bit_or_equals : Z := Z.lor 0x8000 0xf27.
Definition tt_operator_lshift_equals : Z := Z.lor 0x8000 0xf28.
Definition tt_operator_rshift_equals : Z := Z.lor 0x8000 0xf29.
Definition tt_operator_comma : Z := Z.lor 0x8000 0xfff.

Inductive operator_associativity : Type := oa_left_to_right | oa_right_to_left.

Record token_type_info : Type := {
  name : string;
  number : Z;
  example : string;
  comment : string;
}.

Record operator_info : Type := {
  op_number : Z;
  precedence : Z;
  associativity : operator_associativity;
}.

(** The table [tt_infos]: the tokens, then the operators. *)
Definition tt_infos : list token_type_info :=
 [
  Build_token_type_info "tt_none" tt_none "" "placeholder or uninitialized token value";
  Build_token_type_info "tt_error" tt_error "<error>" "represents a tokenization error, typically caused by invalid syntax";
  Build_token_type_info "tt_indent" tt_indent (String "009"%char EmptyString) "increase nesting";
  Build_token_type_info "tt_dedent" tt_dedent (String "008"%char EmptyString) "decrease nesting";
  Build_token_type_info "tt_line_break" tt_line_break (String "010"%char EmptyString) "separate one line from another";
  Build_token_type_info "tt_soft_break" tt_soft_break "... " "continue current statement on new line";
  Build_token_type_info "tt_noun" tt_noun "foo" "";
  Build_token_type_info "tt_verb" tt_verb "Do something" "";
  Build_token_type_info "tt_keyword_mask" tt_keyword_mask "" "";
  Build_token_type_info "tt_if" tt_if "if" "";
  Build_token_type_info "tt_else" tt_else "else" "";
  Build_token_type_info "tt_end" tt_end "end" "assert end of block";
  Build_token_type_info "tt_while" tt_while "while" "";
  Build_token_type_info "tt_handle" tt_handle "handle" "";
  Build_token_type_info "tt_when" tt_when "when" "";
  Build_token_type_info "tt_try" tt_try "try" "";
  Build_token_type_info "tt_catch" tt_catch "catch" "";
  Build_token_type_info "tt_finally" tt_finally "finally" "";
  Build_token_type_info "tt_return" tt_return "return" "";
  Build_token_type_info "tt_literal_mask" tt_literal_mask "" "";
  Build_token_type_info "tt_number_literal_mask" tt_number_literal_mask "" "";
  Build_token_type_info "tt_binary_number" tt_binary_number "0b0111001" "";
  Build_token_type_info "tt_decimal_number" tt_decimal_number "42" "";
  Build_token_type_info "tt_hex_number" tt_hex_number "0xdeadbeef" "";
  Build_token_type_info "tt_octal_number" tt_octal_number "033" "";
  Build_token_type_info "tt_floating_point_number" tt_floating_point_number "3.14159" "";
  Build_token_type_info "tt_string_literal_mask" tt_string_literal_mask "" "";
  Build_token_type_info "tt_quoted_string" tt_quoted_string (String "034"%char (String "097"%char (String "098"%char (String "099"%char (String "034"%char EmptyString))))) "";
  Build_token_type_info "tt_char_literal" tt_char_literal "" "";
  Build_token_type_info "tt_regex" tt_regex "" "";
  Build_token_type_info "tt_date_literal_mask" tt_date_literal_mask "" "";
  Build_token_type_info "tt_iso8601_date" tt_iso8601_date "2014-06-12 8:25:00.12345Z" "";
  Build_token_type_info "tt_epoch_date" tt_epoch_date "1970+23y4m2d" "";
  Build_token_type_info "tt_duration" tt_duration "5h3m2s" "";
  Build_token_type_info "tt_comment_mask" tt_comment_mask "" "";
  Build_token_type_info "tt_comment" tt_comment "#" "";
  Build_token_type_info "tt_doc_comment" tt_doc_comment "###" "";
  Build_token_type_info "tt_heredoc" tt_heredoc "" "";
  Build_token_type_info "tt_explanation" tt_explanation "" "";
  Build_token_type_info "tt_operator_mask" tt_operator_mask "" "";
  Build_token_type_info "tt_operator_paren" tt_operator_paren "(" "group";
  Build_token_type_info "tt_operator_close_paren" tt_operator_close_paren ")" "ungroup";
  Build_token_type_info "tt_operator_dot" tt_operator_dot "." "navigate a namespace";
  Build_token_type_info "tt_operator_safe_dot" tt_operator_safe_dot "?." "navigate a possibly null namespace";
  Build_token_type_info "tt_operator_spread" tt_operator_spread "*." "spread across all members of a container";
  Build_token_type_info "tt_operator_brace" tt_operator_brace "[" "subscript";
  Build_token_type_info "tt_operator_safe_subscript" tt_operator_safe_subscript "?[" "subscript on a possibly null container";
  Build_token_type_info "tt_operator_safe_empty" tt_operator_safe_empty "[?" "subscript in a possibly empty container";
  Build_token_type_info "tt_operator_safe_subscript_safe_empty" tt_operator_safe_subscript_safe_empty "?[?" "subscript in a possibly null, possibly empty container";
  Build_token_type_info "tt_operator_close_brace" tt_operator_close_brace "]" "end of subscript";
  Build_token_type_info "tt_operator_positive_mark" tt_operator_positive_mark "+<" "positive mark";
  Build_token_type_info "tt_operator_negative_mark" tt_operator_negative_mark "-<" "negative mark";
  Build_token_type_info "tt_operator_double_positive_mark" tt_operator_double_positive_mark "++<" "double positive mark";
  Build_token_type_info "tt_operator_double_negative_mark" tt_operator_double_negative_mark "--<" "double negative mark";
  Build_token_type_info "tt_operator_bit_not" tt_operator_bit_not "~" "bitwise not";
  Build_token_type_info "tt_operator_bool_not" tt_operator_bool_not "!" "logical not";
  Build_token_type_info "tt_operator_star" tt_operator_star "*" "multiply";
  Build_token_type_info "tt_operator_slash" tt_operator_slash "/" "divide";
  Build_token_type_info "tt_operator_mod" tt_operator_mod "%" "remainder";
  Build_token_type_info "tt_operator_plus" tt_operator_plus "+" "add";
  Build_token_type_info "tt_operator_minus" tt_operator_minus "-" "subtract";
  Build_token_type_info "tt_operator_increment" tt_operator_increment "++" "increment";
  Build_token_type_info "tt_operator_decrement" tt_operator_decrement "--" "decrement";
  Build_token_type_info "tt_operator_lshift" tt_operator_lshift "<<" "shift left";
  Build_token_type_info "tt_operator_rshift" tt_operator_rshift ">>" "shift right";
  Build_token_type_info "tt_operator_unsigned_rshift" tt_operator_unsigned_rshift ">>>" "unsigned shift right";
  Build_token_type_info "tt_operator_greater" tt_operator_greater ">" "greater than";
  Build_token_type_info "tt_operator_less" tt_operator_less "<" "less than";
  Build_token_type_info "tt_operator_greater_equal" tt_operator_greater_equal ">=" "greater than or equal to";
  Build_token_type_info "tt_operator_less_equal" tt_operator_less_equal "<=" "less than or equal to";
  Build_token_type_info "tt_operator_instance_of" tt_operator_instance_of "::" "is an instance of";
  Build_token_type_info "tt_operator_bool_equal" tt_operator_bool_equal "==" "test equality";
  Build_token_type_info "tt_operator_not_equal" tt_operator_not_equal "!=" "test non-equality";
  Build_token_type_info "tt_operator_spaceship" tt_operator_spaceship "<=>" "compare -1 0 or 1";
  Build_token_type_info "tt_operator_qspaceship" tt_operator_qspaceship "?<=>" "compare tolerating null; nulls sort first";
  Build_token_type_info "tt_operator_spaceshipq" tt_operator_spaceshipq "<=>?" "compare tolerating null; nulls sort last";
  Build_token_type_info "tt_operator_in" tt_operator_in "-[" "in (test set membership)";
  Build_token_type_info "tt_operator_not_in" tt_operator_not_in "!-[" "not in (negate set membership)";
  Build_token_type_info "tt_operator_bit_and" tt_operator_bit_and "&" "bitwise and";
  Build_token_type_info "tt_operator_bit_xor" tt_operator_bit_xor "^" "bitwise xor";
  Build_token_type_info "tt_operator_bit_or" tt_operator_bit_or "|" "bitwise or";
  Build_token_type_info "tt_operator_bool_and" tt_operator_bool_and "&&" "boolean and";
  Build_token_type_info "tt_operator_bool_or" tt_operator_bool_or "||" "boolean or";
  Build_token_type_info "tt_operator_ternary" tt_operator_ternary "?" "if ... else ...";
  Build_token_type_info "tt_operator_elvis" tt_operator_elvis "?:" "collapse ternary operator";
  Build_token_type_info "tt_operator_colon" tt_operator_colon ":" "define";
  Build_token_type_info "tt_operator_gets" tt_operator_gets ":=" "define and assign";
  Build_token_type_info "tt_operator_assign_equals" tt_operator_assign_equals "=" "assignment";
  Build_token_type_info "tt_operator_plus_equals" tt_operator_plus_equals "+=" "increment";
  Build_token_type_info "tt_operator_minus_equals" tt_operator_minus_equals "-=" "decrement";
  Build_token_type_info "tt_operator_times_equals" tt_operator_times_equals "*=" "times equals";
  Build_token_type_info "tt_operator_divide_equals" tt_operator_divide_equals "/=" "divide equals";
  Build_token_type_info "tt_operator_mod_equals" tt_operator_mod_equals "%=" "remainder equals";
  Build_token_type_info "tt_operator_bit_and_equals" tt_operator_bit_and_equals "&=" "bitwise and";
  Build_token_type_info "tt_operator_bit_xor_equals" tt_operator_bit_xor_equals "^=" "bitwise xor";
  Build_token_type_info "tt_operator_bit_or_equals" tt_operator_bit_or_equals "|=" "bitwise or";
  Build_token_type_info "tt_operator_lshift_equals" tt_operator_lshift_equals "<<=" "shift left and assign";
  Build_token_type_info "tt_operator_rshift_equals" tt_operator_rshift_equals ">>=" "shift right and assign";
  Build_token_type_info "tt_operator_comma" tt_operator_comma "," "sequence"
 ].

Definition op_infos : list operator_info :=
 [
  Build_operator_info tt_operator_paren 1 oa_left_to_right;
  Build_operator_info tt_operator_close_paren 1 oa_left_to_right;
  Build_operator_info tt_operator_dot 1 oa_left_to_right;
  Build_operator_info tt_operator_safe_dot 1 oa_left_to_right;
  Build_operator_info tt_operator_spread 1 oa_left_to_right;
  Build_operator_info tt_operator_brace 1 oa_left_to_right;
  Build_operator_info tt_operator_safe_subscript 1 oa_left_to_right;
  Build_operator_info tt_operator_safe_empty 1 oa_left_to_right;
  Build_operator_info tt_operator_safe_subscript_safe_empty 1 oa_left_to_right;
  Build_operator_info tt_operator_close_brace 1 oa_left_to_right;
  Build_operator_info tt_operator_positive_mark 2 oa_right_to_left;
  Build_operator_info tt_operator_negative_mark 2 oa_right_to_left;
  Build_operator_info tt_operator_double_positive_mark 2 oa_right_to_left;
  Build_operator_info tt_operator_double_negative_mark 2 oa_right_to_left;
  Build_operator_info tt_operator_bit_not 2 oa_right_to_left;
  Build_operator_info tt_operator_bool_not 2 oa_right_to_left;
  Build_operator_info tt_operator_star 4 oa_left_to_right;
  Build_operator_info tt_operator_slash 4 oa_left_to_right;
  Build_operator_info tt_operator_mod 4 oa_left_to_right;
  Build_operator_info tt_operator_plus 5 oa_left_to_right;
  Build_operator_info tt_operator_minus 5 oa_left_to_right;
  Build_operator_info tt_operator_increment 5 oa_left_to_right;
  Build_operator_info tt_operator_decrement 5 oa_left_to_right;
  Build_operator_info tt_operator_lshift 6 oa_left_to_right;
  Build_operator_info tt_operator_rshift 6 oa_left_to_right;
  Build_operator_info tt_operator_unsigned_rshift 6 oa_left_to_right;
  Build_operator_info tt_operator_greater 7 oa_left_to_right;
  Build_operator_info tt_operator_less 7 oa_left_to_right;
  Build_operator_info tt_operator_greater_equal 7 oa_left_to_right;
  Build_operator_info tt_operator_less_equal 7 oa_left_to_right;
  Build_operator_info tt_operator_instance_of 7 oa_left_to_right;
  Build_operator_info tt_operator_bool_equal 8 oa_left_to_right;
  Build_operator_info tt_operator_not_equal 8 oa_left_to_right;
  Build_operator_info tt_operator_spaceship 8 oa_left_to_right;
  Build_operator_info tt_operator_qspaceship 8 oa_left_to_right;
  Build_operator_info tt_operator_spaceshipq 8 oa_left_to_right;
  Build_operator_info tt_operator_in 8 oa_left_to_right;
  Build_operator_info tt_operator_not_in 8 oa_left_to_right;
  Build_operator_info tt_operator_bit_and 9 oa_left_to_right;
  Build_operator_info tt_operator_bit_xor 10 oa_left_to_right;
  Build_operator_info tt_operator_bit_or 11 oa_left_to_right;
  Build_operator_info tt_operator_bool_and 12 oa_left_to_right;
  Build_operator_info tt_operator_bool_or 13 oa_left_to_right;
  Build_operator_info tt_operator_ternary 14 oa_right_to_left;
  Build_operator_info tt_operator_elvis 14 oa_right_to_left;
  Build_operator_info tt_operator_colon 15 oa_right_to_left;
  Build_operator_info tt_operator_gets 15 oa_right_to_left;
  Build_operator_info tt_operator_assign_equals 15 oa_right_to_left;
  Build_operator_info tt_operator_plus_equals 15 oa_right_to_left;
  Build_operator_info tt_operator_minus_equals 15 oa_right_to_left;
  Build_operator_info tt_operator_times_equals 15 oa_right_to_left;
  Build_operator_info tt_operator_divide_equals 15 oa_right_to_left;
  Build_operator_info tt_operator_mod_equals 15 oa_right_to_left;
  Build_operator_info tt_operator_bit_and_equals 15 oa_right_to_left;
  Build_operator_info tt_operator_bit_xor_equals 15 oa_right_to_left;
  Build_operator_info tt_operator_bit_or_equals 15 oa_right_to_left;
  Build_operator_info tt_operator_lshift_equals 15 oa_right_to_left;
  Build_operator_info tt_operator_rshift_equals 15 oa_right_to_left;
  Build_operator_info tt_operator_comma 15 oa_left_to_right
 ].

(** ** Classes of tokens *)

Definition has_mask (tt mask : Z) : bool := Z.land tt mask =? mask.
Definition is_comment (tt : Z) : bool := has_mask tt tt_comment_mask.
Definition is_literal (tt : Z) : bool := has_mask tt tt_literal_mask.
Definition is_number_literal (tt : Z) : bool := has_mask tt tt_number_literal_mask.
Definition is_string_literal (tt : Z) : bool := has_mask tt tt_string_literal_mask.
Definition is_date_literal (tt : Z) : bool := has_mask tt tt_date_literal_mask.
Definition is_operator (tt : Z) : bool := has_mask tt tt_operator_mask.

(** ** Lookups in the tables *)

Definition get_token_type_count : Z := Zlen tt_infos.

Definition get_token_type_by_index (i : Z) : Z :=
  match tt_infos !! Z.to_nat i with
  | Some info => if i <? get_token_type_count then number info else tt_none
  | None => tt_none
  end.

Definition get_token_type_from_name (n : option string) : Z :=
  match n with
  | None => tt_none
  | Some n =>
      if bool_decide (n = EmptyString) then tt_none
      else match list_find (fun info => name info = n) tt_infos with
           | Some (_, info) => number info
           | None => tt_none
           end
  end.

Definition find_tt_info (tt : Z) : res (option token_type_info) :=
  let! i := lower_bound (fun info => number info <? tt) tt_infos in Ok (tt_infos !! i).

Definition get_token_type_name (tt : Z) : res (option string) :=
  let! info := find_tt_info tt in Ok (name <$> info).
Definition get_token_type_example (tt : Z) : res (option string) :=
  let! info := find_tt_info tt in Ok (example <$> info).
Definition get_token_type_comment (tt : Z) : res (option string) :=
  let! info := find_tt_info tt in Ok (comment <$> info).

Definition find_op_info (tt : Z) : res (option operator_info) :=
  let! i := lower_bound (fun info => op_number info <? tt) op_infos in Ok (op_infos !! i).

Definition get_operator_precedence (tt : Z) : res Z :=
  let! info := find_op_info tt in Ok (default 100 (precedence <$> info)).
Definition get_operator_associativity (tt : Z) : res operator_associativity :=
  let! info := find_op_info tt in Ok (default oa_left_to_right (associativity <$> info)).

(** ** Issues *)

Definition ii_none : Z := 0.
Definition ii_unterminated_string_literal : Z := 1.
Definition ii_unexpected_continuation : Z := 2.

Record issue_info : Type := {
  id : Z;
  issue_name : string;
  msg : string;
}.

Definition issue_infos : list issue_info :=
  [Build_issue_info ii_unterminated_string_literal "ii_unterminated_string_literal"
     "String literal ends without a closing quote.";
   Build_issue_info ii_unexpected_continuation "ii_unexpected_continuation"
     "It makes no sense for a line continuation to appear here."].

Definition get_issue_count : Z := Zlen issue_infos.

Definition get_issue_id_by_index (i : Z) : Z :=
  match issue_infos !! Z.to_nat i with
  | Some info => if i <? get_issue_count then id info else ii_none
  | None => ii_none
  end.

Definition get_issue_id_from_name (n : option string) : Z :=
  match n with
  | None => ii_none
  | Some n =>
      if bool_decide (n = EmptyString) then ii_none
      else match list_find (fun info => issue_name info = n) issue_infos with
           | Some (_, info) => id info
           | None => ii_none
           end
  end.

Definition find_issue (i : Z) : res (option issue_info) :=
  let! k := lower_bound (fun info => id info <? i) issue_infos in Ok (issue_infos !! k).

Definition get_issue_name (i : Z) : res (option string) :=
  let! info := find_issue i in Ok (issue_name <$> info).
Definition get_issue_msg (i : Z) : res (option string) :=
  let! info := find_issue i in Ok (msg <$> info).

(** * Specifications *)

(** A table is sorted by a key when each key is greater than those before it. *)
Fixpoint increasing (l : list Z) : bool :=
  match l with
  | x :: ((y :: _) as l') => (x <? y) && increasing l'
  | _ => true
  end.

Lemma increasing_tail x l : increasing (x :: l) = true -> increasing l = true.
Proof. destruct l; simpl; [done|]. by intros [_ ?]%andb_true_iff. Qed.

Lemma increasing_lt l i j x y :
  increasing l = true -> (i < j)%nat -> l !! i = Some x -> l !! j = Some y -> x < y.
Proof.
  revert i j x. induction l as [|a l IH]; intros i j x Hl Hij Hi Hj; [done|].
  destruct j as [|j]; [lia|]. simpl in Hj. pose proof (increasing_tail _ _ Hl) as Hl'.
  destruct i as [|i]; simpl in Hi; [|by eapply (IH i j); eauto; lia].
  injection Hi as ->. destruct l as [|b l]; [done|].
  simpl in Hl. apply andb_true_iff in Hl as [Hab%Z.ltb_lt _].
  destruct j as [|j]; simpl in Hj; [congruence|].
  specialize (IH O (S j) b Hl' ltac:(lia) eq_refl Hj). lia.
Qed.

(** [lower_bound] on a table sorted by [key] finds the first entry whose key is
    at least the value. *)
Lemma lower_bound_sorted {A} (key : A -> Z) (table : list A) v :
  increasing (map key table) = true ->
  exists k, lower_bound (fun x => key x <? v) table = Ok k /\ (k <= length table)%nat /\
    forall i x, table !! i = Some x -> key x < v <-> (i < k)%nat.
Proof.
  intros Hinc. destruct (lower_bound_spec (fun x => key x <? v) table) as (k & Hk & Hle & Hspec).
  - intros i j x y Hij Hx Hy. rewrite !Z.ltb_lt. intros Hv.
    destruct (decide (i = j)) as [->|Hne]; [congruence|].
    assert (key x < key y); [|lia].
    apply (increasing_lt (map key table) i j); [done|lia| |]; rewrite list_lookup_fmap; by rewrite ?Hx, ?Hy.
  - exists k. split; [done|]. split; [done|]. intros i x Hx. rewrite <- (Hspec i x Hx). by rewrite Z.ltb_lt.
Qed.

(** An entry is found under its own key. *)
Lemma lower_bound_own {A} (key : A -> Z) (table : list A) i x :
  increasing (map key table) = true -> table !! i = Some x ->
  lower_bound (fun y => key y <? key x) table = Ok i.
Proof.
  intros Hinc Hx. destruct (lower_bound_sorted key table (key x) Hinc) as (k & -> & Hle & Hk).
  f_equal. pose proof (Hk i x Hx). destruct (Nat.lt_trichotomy k i) as [Hlt|[->|Hlt]]; [|done|lia].
  destruct (lookup_lt_is_Some_2 table k) as [y Hy]; [apply lookup_lt_Some in Hx; lia|].
  pose proof (Hk k y Hy). exfalso.
  assert (key y < key x); [|lia].
  apply (increasing_lt (map key table) k i); [done|lia| |]; rewrite list_lookup_fmap; by rewrite ?Hx, ?Hy.
Qed.

(** The first entry of a table with a key of at least [v]. *)
Definition first_from {A} (key : A -> Z) (table : list A) (v : Z) : option A :=
  snd <$> list_find (fun x => v <= key x) table.

Lemma lower_bound_first {A} (key : A -> Z) (table : list A) v :
  increasing (map key table) = true ->
  (let! i := lower_bound (fun x => key x <? v) table in Ok (table !! i)) = Ok (first_from key table v).
Proof.
  intros Hinc. destruct (lower_bound_sorted key table v Hinc) as (k & -> & Hle & Hk).
  simpl. f_equal. unfold first_from. destruct (table !! k) as [x|] eqn:Hx.
  - assert (list_find (fun x => v <= key x) table = Some (k, x)) as ->; [|done].
    apply list_find_Some. split; [done|]. pose proof (Hk k x Hx). split; [lia|].
    intros j y Hy Hj. pose proof (Hk j y Hy). lia.
  - assert (list_find (fun x => v <= key x) table = None) as ->; [|done].
    apply list_find_None, Forall_lookup. intros j y Hy. pose proof (Hk j y Hy).
    apply lookup_ge_None in Hx. apply lookup_lt_Some in Hy. lia.
Qed.

Lemma tt_infos_sorted : increasing (map number tt_infos) = true.
Proof. vm_compute. reflexivity. Qed.
Lemma op_infos_sorted : increasing (map op_number op_infos) = true.
Proof. vm_compute. reflexivity. Qed.
Lemma issue_infos_sorted : increasing (map id issue_infos) = true.
Proof. vm_compute. reflexivity. Qed.

Lemma find_tt_info_own i info :
  tt_infos !! i = Some info -> find_tt_info (number info) = Ok (Some info).
Proof.
  intros Hi. unfold find_tt_info. rewrite (lower_bound_own number tt_infos i info) by (done || apply tt_infos_sorted).
  simpl. by rewrite Hi.
Qed.

(** A unique name finds its own entry. *)
Lemma list_find_unique {A} (key : A -> string) (table : list A) i x :
  NoDup (map key table) -> table !! i = Some x ->
  list_find (fun y => key y = key x) table = Some (i, x).
Proof.
  intros Hnd Hx. apply list_find_Some. split; [done|]. split; [done|].
  intros j y Hy Hj E. assert (j = i); [|lia].
  apply (NoDup_lookup _ j i (key x) Hnd); rewrite list_lookup_fmap; [by rewrite Hy, <- E|by rewrite Hx].
Qed.

Lemma tt_names_unique : NoDup (map name tt_infos).
Proof. decided. Qed.

(** * Properties *)

(** the lookups of the token table invert one another: for each index the token
    type there has a name that leads back to the type and an entry of its own, so name
    and example are those of the table. *)
Theorem token_table_roundtrip i info :
  tt_infos !! i = Some info ->
  get_token_type_by_index (Z.of_nat i) = number info /\
  get_token_type_name (number info) = Ok (Some (name info)) /\
  get_token_type_example (number info) = Ok (Some (example info)) /\
  get_token_type_comment (number info) = Ok (Some (comment info)) /\
  get_token_type_from_name (Some (name info)) = number info.
Proof.
  intros Hi. unfold get_token_type_by_index, get_token_type_name, get_token_type_example,
    get_token_type_comment, get_token_type_from_name, get_token_type_count.
  rewrite Nat2Z.id, Hi, (find_tt_info_own i info Hi). pose proof (lookup_lt_Some _ _ _ Hi).
  assert ((Z.of_nat i <? Zlen tt_infos) = true) as -> by (apply Z.ltb_lt; unfold Zlen; lia).
  rewrite (list_find_unique name tt_infos i info tt_names_unique Hi).
  rewrite bool_decide_eq_false_2; [done|].
  assert (Forall (fun info => name info <> EmptyString) tt_infos) as Hne by decided.
  by apply (Forall_lookup_1 _ _ _ _ Hne Hi).
Qed.

Lemma token_table_roundtrip_witness :
  get_token_type_by_index 6 = tt_noun /\
  get_token_type_name tt_noun = Ok (Some "tt_noun"%string) /\
  get_token_type_example tt_noun = Ok (Some "foo"%string) /\
  get_token_type_comment tt_noun = Ok (Some EmptyString) /\
  get_token_type_from_name (Some "tt_noun"%string) = tt_noun.
Proof. apply (token_table_roundtrip 6 (Build_token_type_info "tt_noun" tt_noun "foo" "")). reflexivity. Defined.

(** the name, precedence and associativity of any number, in the tables or
    not, are those of the first entry with at least that number: only a number above all
    entries gets nullptr, precedence 100 and left-to-right. *)
Theorem token_lookup_first tt :
  get_token_type_name tt = Ok (name <$> first_from number tt_infos tt) /\
  get_operator_precedence tt = Ok (default 100 (precedence <$> first_from op_number op_infos tt)) /\
  get_operator_associativity tt =
    Ok (default oa_left_to_right (associativity <$> first_from op_number op_infos tt)).
Proof.
  unfold get_token_type_name, get_operator_precedence, get_operator_associativity,
    find_tt_info, find_op_info.
  rewrite (lower_bound_first number tt_infos tt tt_infos_sorted).
  by rewrite (lower_bound_first op_number op_infos tt op_infos_sorted).
Qed.

(** the number of an operator encodes its precedence: the byte above the lowest,
    without the operator bit.  Every operator of the table is an operator token, no literal
    and no comment, and its precedence is found. *)
Theorem operator_precedence_encoded i info :
  op_infos !! i = Some info ->
  get_operator_precedence (op_number info) = Ok (precedence info) /\
  get_operator_associativity (op_number info) = Ok (associativity info) /\
  precedence info = Z.land (Z.shiftr (op_number info) 8) 0x7F /\
  is_operator (op_number info) = true /\
  is_literal (op_number info) = false /\ is_comment (op_number info) = false.
Proof.
  intros Hi. unfold get_operator_precedence, get_operator_associativity, find_op_info.
  rewrite (lower_bound_own op_number op_infos i info op_infos_sorted Hi). simpl. rewrite Hi.
  split; [done|]. split; [done|].
  assert (Forall (fun info => precedence info = Z.land (Z.shiftr (op_number info) 8) 0x7F /\
    is_operator (op_number info) = true /\
    is_literal (op_number info) = false /\ is_comment (op_number info) = false) op_infos) as H by decided.
  apply (Forall_lookup_1 _ _ _ _ H Hi).
Qed.

Lemma operator_precedence_encoded_witness :
  get_operator_precedence tt_operator_bit_xor = Ok 10 /\
  get_operator_associativity tt_operator_bit_xor = Ok oa_left_to_right /\
  10 = Z.land (Z.shiftr tt_operator_bit_xor 8) 0x7F /\
  is_operator tt_operator_bit_xor = true /\
  is_literal tt_operator_bit_xor = false /\ is_comment tt_operator_bit_xor = false.
Proof.
  apply (operator_precedence_encoded 39 (Build_operator_info tt_operator_bit_xor 10 oa_left_to_right)).
  reflexivity.
Defined.
