(* ===== verification/StrView.v ===== *)
(** * String views: core/text/str_view.h and str_view-inline.h

    A view is a begin pointer and a length; the template is modelled at
    [char].  [strlen], [strcmp] and [strncmp] of the C library read memory. *)

From stdpp Require Import base tactics list gmap strings.
From Stdlib Require Import ZArith Lia.
From S2P Require Import Prelude CString.
#[local] Open Scope Z_scope.

(** ** The C library *)

Definition strlen (m : mem) (s : Z) : res Z :=
  let! p := iterate (S (size m)) (fun p =>
    let! c := load m p in
    if c =? 0 then Ok (inr p) else Ok (inl (p + 1))) s in
  Ok (p - s).

(** At most [n] chars, compared as unsigned; only the sign of the result
    is defined. *)
Definition strncmp (m : mem) (a b n : Z) : res Z :=
  iterate (S (size m)) (fun '(a, b, n) =>
    if n =? 0 then Ok (inr 0)
    else
      let! c := load m a in
      let! d := load m b in
      if negb (c =? d) then Ok (inr (Z.sgn (u8 c - u8 d)))
      else if c =? 0 then Ok (inr 0)
      else Ok (inl (a + 1, b + 1, n - 1))) (a, b, n).

(** ** Views *)

Record str_view : Type := {
  begin : Z;
  length : Z;
}.

Definition view_null : str_view := {| begin := 0; length := 0 |}.
Definition view_of_length (b len : Z) : str_view := {| begin := b; length := len |}.
Definition view_of_range (b e : Z) : str_view :=
  {| begin := b; length := if negb (b =? 0) && (b <? e) then e - b else 0 |}.
Definition view_of_cstr (m : mem) (b : Z) : res str_view :=
  if negb (b =? 0) then let! n := strlen m b in Ok {| begin := b; length := n |}
  else Ok {| begin := b; length := 0 |}.

(** From a std::string of [size] chars whose chars are at [c_str]. *)
Definition view_of_string (c_str size : Z) : str_view := view_of_length c_str size.
(** The same with a length [len], which the constructor does not look at: its
    [length] is the member, of which no one knows the value yet. *)
Definition view_of_string_prefix (garbage c_str size len : Z) : str_view :=
  view_of_length c_str (Z.min garbage size).

(** A move copies; [make_null] and the three [assign]s are constructors again. *)
Definition view_move (x : str_view) : str_view := {| begin := begin x; length := length x |}.
Definition make_null (v : str_view) : str_view := {| begin := 0; length := 0 |}.
Definition assign_range (v : str_view) (b e : Z) : str_view := view_of_range b e.
Definition assign_length (v : str_view) (b len : Z) : str_view := view_of_length b len.
Definition assign_cstr (m : mem) (v : str_view) (b : Z) : res str_view := view_of_cstr m b.

Definition view_end (v : str_view) : Z := begin v + length v.
Definition is_empty (v : str_view) : bool := length v =? 0.
Definition is_null (v : str_view) : bool := begin v =? 0.
Definition view_bool (v : str_view) : bool := negb (is_empty v).
Definition view_eq (v w : str_view) : bool := (begin v =? begin w) && (length v =? length w).
Definition view_ne (v w : str_view) : bool := negb (view_eq v w).

Definition begin_at (v : str_view) (new_begin : Z) : str_view :=
  if begin v <? new_begin then
    let shortened := new_begin - begin v in
    {| begin := new_begin; length := if length v <=? shortened then 0 else length v - shortened |}
  else if new_begin <? begin v then
    {| begin := new_begin;
       length := if negb (new_begin =? 0) then u64 (length v + (begin v - new_begin)) else 0 |}
  else v.

Definition end_at (v : str_view) (new_end : Z) : str_view :=
  if negb (begin v =? 0) then
    {| begin := begin v; length := if begin v <=? new_end then new_end - begin v else 0 |}
  else v.

(** ** Comparison: the overloads on a C string and a view, both ways, and on two
    views *)

Definition strcmp_cstr_view (m : mem) (a : Z) (b : str_view) : res Z :=
  if negb (a =? 0) then
    if negb (is_null b) then
      let! n := strncmp m a (begin b) (length b) in
      if n =? 0 then
        let! c := load m (a + length b) in Ok (if negb (c =? 0) then 1 else 0)
      else Ok n
    else Ok 1
  else Ok (if negb (is_null b) then -1 else 0).

Definition strcmp_view_cstr (m : mem) (a : str_view) (b : Z) : res Z :=
  if negb (is_null a) then
    if negb (b =? 0) then
      let! n := strncmp m (begin a) b (length a) in
      if n =? 0 then
        let! c := load m (b + length a) in Ok (if negb (c =? 0) then -1 else 0)
      else Ok n
    else Ok 1
  else Ok (if negb (b =? 0) then -1 else 0).

Definition strcmp_view_view (m : mem) (a b : str_view) : res Z :=
  if negb (is_null a) then
    if negb (is_null b) then
      let! n := strncmp m (begin a) (begin b) (Z.min (length a) (length b)) in
      if n =? 0 then Ok (i32 (i32 (length a) - i32 (length b))) else Ok n
    else Ok 1
  else Ok (if view_bool b then -1 else 0).

Definition strncmp_cstr_view (m : mem) (a : Z) (b : str_view) (len : Z) : res Z :=
  if negb (a =? 0) then
    if negb (is_null b) then strncmp m a (begin b) (Z.min len (length b)) else Ok 1
  else Ok (if negb (length b =? 0) then -1 else 0).

Definition strncmp_view_cstr (m : mem) (a : str_view) (b len : Z) : res Z :=
  if negb (is_null a) then
    if negb (b =? 0) then strncmp m (begin a) b (Z.min len (length a)) else Ok 1
  else Ok (if negb (b =? 0) then -1 else 0).

Definition strncmp_view_view (m : mem) (a b : str_view) (len : Z) : res Z :=
  if negb (is_null a) then
    if negb (is_null b) then
      strncmp m (begin a) (begin b) (Z.min len (Z.min (length a) (length b)))
    else Ok 1
  else Ok (if view_bool b then -1 else 0).

(** ** Printing: [operator<<] appends the chars to the stream [out].  Its loop
    compares pointers with [!=]. *)

Definition print_view (m : mem) (out : list Z) (slice : str_view) : res (list Z) :=
  if view_bool slice then
    let e := view_end slice in
    iterate (span_fuel (begin slice) e) (fun '(p, out) =>
      if p =? e then Ok (inr out)
      else let! c := load m p in Ok (inl (p + 1, out ++ [c]))) (begin slice, out)
  else Ok out.

(** * Specifications *)

(** What a view shows. *)
Definition shows (m : mem) (v : str_view) (l : list Z) : Prop :=
  0 < begin v /\ length v = Zlen l /\ holds m (begin v) l.

(** [strncmp] on two blocks without NULs that are at least [n] long: the first
    difference decides. *)
Fixpoint bytes_cmp (n : nat) (la lb : list Z) : Z :=
  match n, la, lb with
  | S n', c :: la', d :: lb' =>
      if c =? d then bytes_cmp n' la' lb' else Z.sgn (u8 c - u8 d)
  | _, _, _ => 0
  end.

Lemma strncmp_spec m a b la lb n :
  holds m a la -> holds m b lb -> no_nul la ->
  0 <= n <= Zlen la -> n <= Zlen lb ->
  strncmp m a b n = Ok (bytes_cmp (Z.to_nat n) la lb).
Proof.
  intros Ha Hb Hla Hna Hnb. unfold strncmp.
  pose proof (holds_length _ _ _ Ha) as Hf.
  assert (Datatypes.length la < S (size m))%nat as Hf' by lia. revert Hf'. clear Hf.
  generalize (S (size m)). revert a b lb n Ha Hb Hla Hna Hnb.
  induction la as [|c la IH]; intros a b lb n Ha Hb Hla Hna Hnb fuel Hf;
    (destruct fuel as [|fuel]; [simpl in Hf; lia|]); simpl.
  - change (Zlen (@nil Z)) with 0 in Hna. replace n with 0 by lia. done.
  - rewrite Zlen_cons in Hna. destruct (Z.eqb_spec n 0) as [->|Hn]; [done|].
    destruct lb as [|d lb]; [rewrite Zlen_nil in Hnb; lia|]. rewrite Zlen_cons in Hnb.
    destruct Ha as [Hc Ha], Hb as [Hd Hb].
    rewrite (load_Some _ _ _ Hc), (load_Some _ _ _ Hd). simpl.
    replace (Z.to_nat n) with (S (Z.to_nat (n - 1))) by lia. simpl.
    destruct (Z.eqb_spec c d) as [->|Hne]; simpl; [|done].
    apply no_nul_cons in Hla as [Hd0 Hla]. zfalse (d =? 0). simpl.
    apply IH; try done; try lia. simpl in Hf. lia.
Qed.

Lemma bytes_cmp_0 n la lb :
  Forall is_char la -> Forall is_char lb -> (n <= Datatypes.length la)%nat -> (n <= Datatypes.length lb)%nat ->
  bytes_cmp n la lb = 0 <-> take n la = take n lb.
Proof.
  intros Ha. revert n lb. induction Ha as [|c la Hc Ha IH]; intros [|n] lb Hb Hna Hnb; simpl in *; try done; try lia.
  destruct Hb as [|d lb Hd Hb]; simpl in *; [lia|].
  destruct (Z.eqb_spec c d) as [->|Hne].
  - rewrite IH by (done || lia). split; [by intros ->|by intros [=]].
  - split; [|by intros [=]]. intros E. exfalso. apply Hne. apply u8_inj; [done..|].
    destruct (Z.sgn_spec (u8 c - u8 d)) as [[? ?]|[[? ?]|[? ?]]]; lia.
Qed.

Lemma i32_small x : - 2 ^ 31 <= x < 2 ^ 31 -> i32 x = x.
Proof. intros Hx. unfold i32. rewrite Z.mod_small; lia. Qed.

(** [strlen] finds the NUL of a C string. *)
Lemma strlen_spec m s l : holds m s (l ++ [0]) -> no_nul l -> strlen m s = Ok (Zlen l).
Proof.
  intros Hm Hnul. unfold strlen.
  assert (forall p fuel, holds m p (l ++ [0]) -> (Datatypes.length l < fuel)%nat ->
    iterate fuel (fun p => let! c := load m p in if c =? 0 then Ok (inr p) else Ok (inl (p + 1))) p
      = Ok (p + Zlen l)) as Hloop.
  { clear Hm. induction l as [|c l IH]; intros p fuel Hm Hf; (destruct fuel as [|fuel]; [simpl in Hf; lia|]);
      destruct Hm as [Hc Hm]; simpl; rewrite (load_Some _ _ _ Hc); simpl.
    - do 2 f_equal. unfold Zlen. simpl. lia.
    - apply no_nul_cons in Hnul as [Hc0 Hnul]. zfalse (c =? 0). simpl in *.
      rewrite IH by (done || lia). rewrite Zlen_cons. f_equal. lia. }
  rewrite Hloop by (done || by eapply holds_cstr_size). simpl. f_equal. lia.
Qed.

(** A view that shows a text prints it; an empty one prints nothing, wherever it
    begins. *)
Lemma print_view_spec m out v l : shows m v l -> print_view m out v = Ok (out ++ l).
Proof.
  intros (_ & Hlen & Hm). unfold print_view, view_bool, is_empty, view_end. rewrite Hlen.
  destruct l as [|c l]; [by rewrite app_nil_r|]. pose proof (Zlen_nonneg l).
  rewrite Zlen_cons at 1. zfalse (1 + Zlen l =? 0). cbn [negb].
  pose proof (length_lt_span_fuel (c :: l) (begin v) (begin v + Zlen (c :: l)) eq_refl) as Hf.
  revert Hf Hm. clear Hlen. generalize (span_fuel (begin v) (begin v + Zlen (c :: l))).
  generalize (begin v), (c :: l), out. clear. intros p l. revert p.
  induction l as [|c l IH]; intros p out fuel Hf Hm; (destruct fuel as [|fuel]; [simpl in Hf; lia|]); simpl.
  - rewrite Zlen_nil, Z.add_0_r, Z.eqb_refl. by rewrite app_nil_r.
  - destruct Hm as [Hc Hm]. rewrite Zlen_cons. pose proof (Zlen_nonneg l).
    zfalse (p =? p + (1 + Zlen l)). rewrite (load_Some _ _ _ Hc). simpl.
    replace (p + (1 + Zlen l)) with (p + 1 + Zlen l) by lia.
    rewrite IH by (done || (simpl in Hf; lia)). by rewrite <- app_assoc.
Qed.

Lemma print_view_empty m out b : print_view m out (view_of_length b 0) = Ok out.
Proof. done. Qed.

(** * Properties *)

(** two views that show NUL-free text of less than 2 GiB compare equal exactly
    when the texts are equal; [end_at] and [begin_at] cut a view at a pointer inside
    it into views that show its two parts. *)
Theorem view_comparison m v w lv lw k :
  shows m v lv -> shows m w lw -> no_nul lv -> no_nul lw ->
  Forall is_char lv -> Forall is_char lw -> Zlen lv < 2 ^ 31 -> Zlen lw < 2 ^ 31 ->
  0 <= k <= Zlen lv ->
  (exists n, strcmp_view_view m v w = Ok n /\ (n = 0 <-> lv = lw)) /\
  shows m (end_at v (begin v + k)) (take (Z.to_nat k) lv) /\
  shows m (begin_at v (begin v + k)) (drop (Z.to_nat k) lv).
Proof.
  intros (Hv & Hlv & Hmv) (Hw & Hlw & Hmw) Hnv Hnw Hcv Hcw Hsv Hsw Hk.
  pose proof (Zlen_nonneg lv). pose proof (Zlen_nonneg lw). split; [|split].
  - unfold strcmp_view_view, is_null. zfalse (begin v =? 0). zfalse (begin w =? 0). simpl.
    rewrite Hlv, Hlw. rewrite (strncmp_spec m _ _ lv lw) by (done || lia). simpl.
    pose proof (bytes_cmp_0 (Z.to_nat (Z.min (Zlen lv) (Zlen lw))) lv lw Hcv Hcw
      ltac:(unfold Zlen; lia) ltac:(unfold Zlen; lia)) as Hcmp0.
    rewrite !i32_small by (rewrite ?i32_small; lia).
    destruct (Z.eqb_spec (bytes_cmp (Z.to_nat (Z.min (Zlen lv) (Zlen lw))) lv lw) 0) as [E|E];
      (eexists; split; [done|]).
    + apply Hcmp0 in E. split; [|intros ->; lia]. intros El. unfold Zlen in *.
      rewrite !take_ge in E by lia. done.
    + split; [done|]. intros ->. by apply Hcmp0.
  - unfold end_at, shows. zfalse (begin v =? 0). ztrue (begin v <=? begin v + k). simpl.
    split; [done|]. unfold Zlen in *. rewrite length_take. split; [lia|].
    rewrite <- (take_drop (Z.to_nat k) lv) in Hmv. by apply holds_app in Hmv as [? _].
  - rewrite <- (take_drop (Z.to_nat k) lv) in Hmv. apply holds_app in Hmv as [_ Hmv].
    assert (Zlen (take (Z.to_nat k) lv) = k) as Ek by (unfold Zlen in *; rewrite length_take; lia).
    rewrite Ek in Hmv. unfold begin_at, shows. rewrite Hlv.
    assert (Zlen (drop (Z.to_nat k) lv) = Zlen lv - k) as Ed by (unfold Zlen in *; rewrite length_drop; lia).
    rewrite Ed. destruct (Z.ltb_spec (begin v) (begin v + k)).
    + simpl. split; [lia|]. split; [|done]. ztest.
    + replace k with 0 in * by lia. zfalse (begin v + 0 <? begin v). rewrite Z.add_0_r in Hmv.
      split; [done|]. split; [lia|done].
Qed.

Lemma view_comparison_witness :
  (exists n, strcmp_view_view two_strings (view_of_length 16 7) (view_of_length 64 7) = Ok n /\
     (n = 0 <-> str "Content" = str "CONTENT")) /\
  shows two_strings (end_at (view_of_length 16 7) (16 + 3)) (str "Con") /\
  shows two_strings (begin_at (view_of_length 16 7) (16 + 3)) (str "tent").
Proof.
  apply (view_comparison two_strings (view_of_length 16 7) (view_of_length 64 7)
           (str "Content") (str "CONTENT") 3); try (unfold shows, no_nul); decided.
Defined.
