(* ===== verification/StdString.v ===== *)
(** * std::string, as far as the modelled code uses it

    A string is the list of its chars; a [char const *] argument points into a
    [mem].  The functions of <cctype> are those of the C locale. *)

From stdpp Require Import base tactics list gmap strings.
From Stdlib Require Import ZArith Lia.
From S2P Require Import Prelude CString StrView.
#[local] Open Scope Z_scope.

(** [c_str()]: the chars up to the first NUL. *)
Fixpoint c_str (s : list Z) : list Z :=
  match s with
  | [] => []
  | c :: s' => if c =? 0 then [] else c :: c_str s'
  end.

Lemma c_str_no_nul k : no_nul k -> c_str k = k.
Proof.
  induction k as [|c k IH]; intros Hk; simpl; [done|].
  apply no_nul_cons in Hk as [Hc Hk]. zfalse (c =? 0). by rewrite IH.
Qed.

(** [std::string(p)]: undefined for nullptr. *)
Definition string_of_cstr (m : mem) (p : Z) : res (list Z) :=
  if p =? 0 then Undef else let! n := strlen m p in load_range m p (p + n).

Lemma string_of_cstr_spec m p l : holds_cstr m p l -> string_of_cstr m p = Ok l.
Proof.
  intros (Hp & Hm & Hnul). unfold string_of_cstr. zfalse (p =? 0). rewrite (strlen_spec m p l) by done. cbn [bind].
  apply load_range_spec. by apply holds_app in Hm as [Hm _].
Qed.

Lemma is_null_or_empty_spec m p l : holds_cstr m p l -> is_null_or_empty m p = Ok (bool_decide (l = [])).
Proof.
  intros (Hp & Hm & Hnul). unfold is_null_or_empty. zfalse (p =? 0). destruct l as [|c l]; simpl in Hm.
  - by rewrite (load_Some _ _ 0) by apply Hm.
  - rewrite (load_Some _ _ c) by apply Hm. apply no_nul_cons in Hnul as [Hc _]. cbn [bind]. by zfalse (c =? 0).
Qed.

(** [isalnum] and [toupper] want an [unsigned char] or EOF, -1. *)
Definition isalnum (c : Z) : res bool :=
  if (-1 <=? c) && (c <=? 255) then Ok (is_ascii_alphanumeric c) else Undef.
Definition toupper (c : Z) : res Z :=
  if (-1 <=? c) && (c <=? 255) then Ok (ascii_to_upper_case c) else Undef.

(** An unsigned number in decimal; twenty digits are enough for 64 bits. *)
Fixpoint dec_digits (fuel : nat) (n : Z) (acc : list Z) : list Z :=
  match fuel with
  | O => acc
  | S fuel' =>
      let acc := "0"%ch + n mod 10 :: acc in
      if n / 10 =? 0 then acc else dec_digits fuel' (n / 10) acc
  end.
Definition show_unsigned (n : Z) : list Z := dec_digits 20 n [].

(** Strings separated by [sep]. *)
Definition join (sep : list Z) (l : list (list Z)) : list Z :=
  match l with [] => [] | s :: l => s ++ concat (map (app sep) l) end.

Lemma join_snoc sep l s : l <> [] -> join sep (l ++ [s]) = join sep l ++ sep ++ s.
Proof.
  destruct l as [|x l]; [done|]. intros _. simpl. rewrite map_app, concat_app. simpl. by rewrite app_nil_r, app_assoc.
Qed.

Lemma join_cons sep s s' l : join sep (s :: s' :: l) = s ++ sep ++ join sep (s' :: l).
Proof. unfold join. simpl. by rewrite <-app_assoc. Qed.
