(* ===== verification/LineIterator.v ===== *)
(** * Line iteration: core/text/line_iterator.h and line_iterator.cpp

    An iterator holds the view of the current line and the end of the text. *)

From stdpp Require Import base tactics list gmap strings.
From Stdlib Require Import ZArith Lia.
From S2P Require Import Prelude CString StrView.
#[local] Open Scope Z_scope.

Record line_iterator : Type := {
  line : str_view;
  iter_end : Z;
}.

Definition line_breaks : list Z := [CR; LF].

(** [line_iterator(begin, end)].  Without an end, the text is a C string. *)
Definition line_iterator_of_range (m : mem) (b e : Z) : res line_iterator :=
  if negb (b =? 0) then
    let! fin := if e =? 0 then let! n := strlen m b in Ok (b + n) else Ok e in
    let line := {| begin := b; length := 0 |} in
    let! p := find_any_char m b line_breaks fin in
    Ok {| line := if negb (p =? fin) then end_at line p else end_at line fin; iter_end := fin |}
  else Ok {| line := view_null; iter_end := e |}.

Definition line_iterator_of_view (m : mem) (txt : str_view) : res line_iterator :=
  line_iterator_of_range m (begin txt) (view_end txt).

Definition line_iterator_eq (i j : line_iterator) : bool := view_eq (line i) (line j).
Definition line_iterator_bool (i : line_iterator) : bool := view_bool (line i).

(** [operator ++]. *)
Definition next_line (m : mem) (i : line_iterator) : res line_iterator :=
  let p := view_end (line i) in
  if p + 1 <=? iter_end i then
    let! c := load m p in
    let! p :=
      if c =? CR then
        let! crlf :=
          if p + 1 <? iter_end i then let! d := load m (p + 1) in Ok (d =? LF) else Ok false in
        Ok (if crlf then p + 2 else p + 1)
      else Ok (p + 1) in
    let! e := find_any_char m p line_breaks (iter_end i) in
    Ok {| line := end_at {| begin := p; length := length (line i) |} e; iter_end := iter_end i |}
  else Ok {| line := view_null; iter_end := iter_end i |}.

(** The views a loop sees that goes on until the iterator equals the default
    iterator, the end, whose line is null. *)
Definition each_line (m : mem) (i : line_iterator) : res (list str_view) :=
  iterate (Z.to_nat (iter_end i - begin (line i)) + 2) (fun '(i, seen) =>
    if is_null (line i) then Ok (inr seen)
    else let! i' := next_line m i in Ok (inl (i', seen ++ [line i])))
  (i, []).

(** * Specifications *)

(** The lines of a text: it is cut at each CRLF, CR and LF, and at NUL, which
    the search for a line break stops at as well. *)
Definition is_break (c : Z) : bool := strchr_in line_breaks c.

Fixpoint text_lines (l cur : list Z) : list (list Z) :=
  match l with
  | [] => [cur]
  | c :: l' =>
      if is_break c then
        cur :: match c, l' with
               | CR, LF :: l'' => text_lines l'' []
               | _, _ => text_lines l' []
               end
      else text_lines l' (cur ++ [c])
  end.

Example text_lines_mixed :
  text_lines (str "this" ++ [LF] ++ str "is" ++ [CR; LF] ++ str "a" ++ [CR] ++ str "test" ++ [LF; LF]) [] =
    [str "this"; str "is"; str "a"; str "test"; []; []].
Proof. reflexivity. Qed.

Definition not_break (c : Z) : bool := negb (strchr_in line_breaks c).

(** What follows a line break [c :: l] starts with. *)
Definition after_break (c : Z) (l : list Z) : list Z :=
  match l with
  | d :: l' => if (c =? CR) && (d =? LF) then l' else l
  | [] => []
  end.

Lemma text_lines_break (c : Z) (l : list Z) :
  match c, l with
  | CR, LF :: l' => text_lines l' []
  | _, _ => text_lines l []
  end = text_lines (after_break c l) [].
Proof.
  destruct l as [|d l]; [by repeat case_match|]. simpl after_break.
  destruct (Z.eqb_spec c CR) as [->|Hc]; [destruct (Z.eqb_spec d LF) as [->|Hd]; [done|]|]; simpl;
    repeat (case_match; try done).
Qed.

(** A text is its first line and, when a break ends that line, the lines after
    the break. *)
Lemma text_lines_first l cur :
  let k := Z.to_nat (scan_len not_break l) in
  text_lines l cur = (cur ++ take k l) ::
    match drop k l with [] => [] | c :: l' => text_lines (after_break c l') [] end.
Proof.
  revert cur. induction l as [|c l IH]; intros cur; simpl; [by rewrite app_nil_r|].
  rewrite text_lines_break. unfold is_break, not_break in *.
  destruct (strchr_in line_breaks c); simpl; [by rewrite app_nil_r|].
  pose proof (scan_len_bounds (fun c => negb (strchr_in line_breaks c)) l) as Hb.
  rewrite IH. replace (Z.to_nat (1 + _)) with (S (Z.to_nat (scan_len (fun c => negb (strchr_in line_breaks c)) l))) by lia.
  simpl. by rewrite <- app_assoc.
Qed.

Lemma after_break_length c l : (Datatypes.length (after_break c l) <= Datatypes.length l)%nat.
Proof. destruct l as [|d l]; simpl; [lia|]. case_match; simpl; lia. Qed.

(** The iterator stands at the first line of the rest [l] of the text. *)
Definition at_line (m : mem) (i : line_iterator) (l : list Z) : Prop :=
  0 < begin (line i) /\ length (line i) = scan_len not_break l /\
  iter_end i = begin (line i) + Zlen l /\ holds m (begin (line i)) l.

Lemma at_line_shows m i l :
  at_line m i l -> shows m (line i) (take (Z.to_nat (scan_len not_break l)) l).
Proof.
  intros (Hp & Hlen & _ & Hm). pose proof (scan_len_bounds not_break l) as Hb.
  unfold shows, Zlen in *. rewrite length_take. split; [done|]. split; [lia|].
  rewrite <- (take_drop (Z.to_nat (scan_len not_break l)) l) in Hm. by apply holds_app in Hm as [? _].
Qed.

Lemma line_found m p n l :
  0 < p -> holds m p l ->
  find_any_char m p line_breaks (p + Zlen l) = Ok (p + scan_len not_break l) /\
  end_at {| begin := p; length := n |} (p + scan_len not_break l) = {| begin := p; length := scan_len not_break l |}.
Proof.
  intros Hp Hm. split; [rewrite (find_any_char_spec m p line_breaks l) by (done || lia); done|].
  unfold end_at. simpl. pose proof (scan_len_bounds not_break l). zfalse (p =? 0).
  ztrue (p <=? p + scan_len not_break l). simpl. f_equal. lia.
Qed.

Lemma next_line_spec m i l :
  at_line m i l ->
  match drop (Z.to_nat (scan_len not_break l)) l with
  | [] => next_line m i = Ok {| line := view_null; iter_end := iter_end i |}
  | c :: l' => exists i', next_line m i = Ok i' /\ at_line m i' (after_break c l') /\ iter_end i' = iter_end i
  end.
Proof.
  intros (Hp & Hlen & He & Hm). pose proof (scan_len_bounds not_break l) as Hb.
  set (k := scan_len not_break l) in *.
  rewrite <- (take_drop (Z.to_nat k) l) in Hm, He. rewrite Zlen_app in He.
  apply holds_app in Hm as [_ Hm].
  assert (Zlen (take (Z.to_nat k) l) = k) as Ek by (unfold Zlen in *; rewrite length_take; lia).
  rewrite Ek in Hm, He. unfold next_line, view_end. rewrite Hlen.
  destruct (drop (Z.to_nat k) l) as [|c l'].
  { change (Zlen []) with 0 in He. by zfalse (begin (line i) + k + 1 <=? iter_end i). }
  rewrite Zlen_cons in He. pose proof (Zlen_nonneg l'). destruct Hm as [Hc Hm].
  ztrue (begin (line i) + k + 1 <=? iter_end i). rewrite (load_Some _ _ _ Hc). cbn [bind].
  assert (exists q, (if c =? CR then
        let! crlf :=
          if begin (line i) + k + 1 <? iter_end i then
            let! d := load m (begin (line i) + k + 1) in Ok (d =? LF) else Ok false in
        Ok (if crlf then begin (line i) + k + 2 else begin (line i) + k + 1)
      else Ok (begin (line i) + k + 1)) = Ok q /\ 0 < q /\ holds m q (after_break c l') /\
      iter_end i = q + Zlen (after_break c l')) as (q & -> & Hq & Hmq & Heq).
  { destruct l' as [|d l'].
    - change (Zlen []) with 0 in He.
      zfalse (begin (line i) + k + 1 <? iter_end i). eexists. split; [by destruct (c =? CR)|].
      simpl. split; [lia|]. split; [done|]. change (Zlen []) with 0. lia.
    - rewrite Zlen_cons in He, H. destruct Hm as [Hd Hm]. simpl after_break.
      pose proof (Zlen_nonneg l').
      ztrue (begin (line i) + k + 1 <? iter_end i). rewrite (load_Some _ _ _ Hd). cbn [bind].
      destruct (c =? CR), (d =? LF); (eexists; split; [done|]); simpl; rewrite ?Zlen_cons;
        (split; [lia|]); (split; [|lia]); try done.
      by replace (begin (line i) + k + 2) with (begin (line i) + k + 1 + 1) by lia. }
  cbn [bind]. destruct (line_found m q k _ Hq Hmq) as [Hf Hend]. rewrite Heq, Hf. cbn [bind].
  rewrite Hend. eexists. split; [done|]. split; [|done]. by split_and!.
Qed.

Lemma each_line_loop m body n : forall l i seen fuel,
  body = (fun '(i, seen) =>
    if is_null (line i) then Ok (inr seen)
    else let! i' := next_line m i in Ok (inl (i', seen ++ [line i]))) ->
  (Datatypes.length l <= n)%nat -> (n + 1 < fuel)%nat -> at_line m i l ->
  exists vs, iterate fuel body (i, seen) = Ok (seen ++ vs) /\ Forall2 (shows m) vs (text_lines l []).
Proof.
  induction n as [n IH] using lt_wf_ind. intros l i seen fuel Hbody Hl Hf Hat.
  destruct fuel as [|fuel]; [lia|]. simpl. rewrite Hbody. pose proof Hat as (Hp & _).
  unfold is_null at 1. zfalse (begin (line i) =? 0). cbn beta iota.
  apply next_line_spec in Hat as Hnext. apply at_line_shows in Hat as Hshows.
  rewrite text_lines_first. simpl.
  destruct (drop (Z.to_nat (scan_len not_break l)) l) as [|c l'] eqn:Hdrop.
  - rewrite Hnext. simpl. destruct fuel as [|fuel]; [lia|]. simpl. unfold is_null. simpl.
    exists [line i]. split; [done|]. by constructor.
  - destruct Hnext as (i' & Hi' & Hat' & _). rewrite Hi'. simpl.
    pose proof (after_break_length c l') as Hlen.
    assert (Datatypes.length (c :: l') <= Datatypes.length l)%nat as Hle
      by (rewrite <- Hdrop, length_drop; lia). simpl in Hle.
    destruct (IH (n - 1)%nat ltac:(lia) (after_break c l') i' (seen ++ [line i]) fuel)
      as (vs & Hvs & Hall); [done|lia..|done|].
    rewrite <- Hbody, Hvs. exists (line i :: vs). rewrite <- app_assoc. split; [done|]. by constructor.
Qed.

Lemma line_iterator_at m b l :
  0 < b -> holds m b l ->
  exists i, line_iterator_of_range m b (b + Zlen l) = Ok i /\ at_line m i l /\ begin (line i) = b.
Proof.
  intros Hb Hm. unfold line_iterator_of_range. pose proof (Zlen_nonneg l).
  zfalse (b =? 0). zfalse (b + Zlen l =? 0). cbn [negb bind].
  destruct (line_found m b 0 l Hb Hm) as [-> Hend]. cbn [bind].
  assert ((if negb (b + scan_len not_break l =? b + Zlen l)
    then end_at {| begin := b; length := 0 |} (b + scan_len not_break l)
    else end_at {| begin := b; length := 0 |} (b + Zlen l)) =
    {| begin := b; length := scan_len not_break l |}) as ->.
  { destruct (Z.eqb_spec (b + scan_len not_break l) (b + Zlen l)) as [E|E]; simpl; [|done].
    by rewrite <- E. }
  eexists. split; [done|]. by split_and!.
Qed.

(** * Properties *)

(** C33: iterating over the text [l] at address [b] sees exactly its lines, in order,
    each as a view into the text: CRLF, CR and LF end a line alike, an empty line
    between two breaks and the one after a last break are seen too.  On a C string
    the end may be left out. *)
Theorem lines_are_iterated m b l :
  0 < b -> holds m b l ->
  (exists i vs, line_iterator_of_range m b (b + Zlen l) = Ok i /\ each_line m i = Ok vs /\
     Forall2 (shows m) vs (text_lines l [])) /\
  (holds_cstr m b l -> line_iterator_of_range m b 0 = line_iterator_of_range m b (b + Zlen l)).
Proof.
  intros Hb Hm. split.
  - destruct (line_iterator_at m b l Hb Hm) as (i & Hi & Hat & Hbi).
    destruct (each_line_loop m _ (Datatypes.length l) l i [] (Z.to_nat (iter_end i - begin (line i)) + 2) eq_refl)
      as (vs & Hvs & Hall); [lia| |done|].
    + destruct Hat as (_ & _ & -> & _). unfold Zlen. lia.
    + exists i, vs. done.
  - intros (_ & Hcstr & Hnul). unfold line_iterator_of_range. pose proof (Zlen_nonneg l).
    zfalse (b =? 0). zfalse (b + Zlen l =? 0). simpl. by rewrite (strlen_spec m b l).
Qed.

Definition mixed_breaks : list Z := Eval cbv in str "this" ++ [LF] ++ str "is" ++ [CR; LF] ++ str "a" ++ [CR; LF; LF].
Definition mixed_memory : mem := map_seqZ 10 (mixed_breaks ++ [0]).

Lemma lines_are_iterated_witness :
  (exists i vs, line_iterator_of_range mixed_memory 10 (10 + Zlen mixed_breaks) = Ok i /\
     each_line mixed_memory i = Ok vs /\
     Forall2 (shows mixed_memory) vs [str "this"; str "is"; str "a"; []; []]) /\
  (holds_cstr mixed_memory 10 mixed_breaks ->
   line_iterator_of_range mixed_memory 10 0 =
     line_iterator_of_range mixed_memory 10 (10 + Zlen mixed_breaks)).
Proof. apply (lines_are_iterated mixed_memory 10 mixed_breaks); [lia|decided]. Defined.
