(* ===== verification/Punycode.v ===== *)
(** * Punycode: core/text/punycode.h and punycode.cpp

    [punycode_uint] is a 32-bit unsigned int.  A buffer of the caller is the list
    of its cells; the code passes its size as [*output_length]. *)

From stdpp Require Import base tactics list gmap strings.
From Stdlib Require Import ZArith Lia.
From S2P Require Import Prelude.
#[local] Open Scope Z_scope.

(** ** Bootstring parameters *)

Definition base : Z := 36.
Definition tmin : Z := 1.
Definition tmax : Z := 26.
Definition skew : Z := 38.
Definition damp : Z := 700.
Definition initial_bias : Z := 72.
Definition initial_n : Z := 0x80.
Definition delimiter : Z := 0x2D.
Definition maxint : Z := u32 (-1).

Inductive punycode_status : Type :=
| punycode_success | punycode_bad_input | punycode_big_output | punycode_overflow.

(** An early return of a status, or a value to go on with. *)
Definition status_bind {A B} (r : res (punycode_status + A)) (k : A -> res (punycode_status + B)) :
    res (punycode_status + B) :=
  let! r := r in match r with inl s => Ok (inl s) | inr a => k a end.
#[local] Notation "'let?' x ':=' m 'in' k" := (status_bind m (fun x => k))
  (at level 10, x pattern, m at level 100, k at level 200) : res_scope.

(** ** Arrays *)

Definition get (arr : list Z) (i : Z) : res Z :=
  if 0 <=? i then match arr !! Z.to_nat i with Some c => Ok c | None => Undef end else Undef.
Definition put (arr : list Z) (i c : Z) : res (list Z) :=
  if (0 <=? i) && (i <? Zlen arr) then Ok (<[Z.to_nat i := c]> arr) else Undef.

(** [memmove(arr + dst, arr + src, n)], [n] in cells. *)
Definition memmove (arr : list Z) (dst src n : Z) : res (list Z) :=
  if (0 <=? dst) && (0 <=? src) && (0 <=? n) && (dst + n <=? Zlen arr) && (src + n <=? Zlen arr) then
    Ok (take (Z.to_nat dst) arr ++ take (Z.to_nat n) (drop (Z.to_nat src) arr)
        ++ drop (Z.to_nat (dst + n)) arr)
  else Undef.

(** A null array is [None]. *)
Definition put_opt (arr : option (list Z)) (i c : Z) : res (option (list Z)) :=
  match arr with None => Ok None | Some a => let! a := put a i c in Ok (Some a) end.

(** ** Digits *)

Definition basic (cp : Z) : bool := u32 cp <? 0x80.
Definition delim (cp : Z) : bool := cp =? delimiter.

Definition decode_digit (cp : Z) : Z :=
  if u32 (cp - 48) <? 10 then u32 (cp - 22)
  else if u32 (cp - 65) <? 26 then u32 (cp - 65)
  else if u32 (cp - 97) <? 26 then u32 (cp - 97)
  else base.

Definition encode_digit (d flag : Z) : Z :=
  to_char (d + 22 + 75 * Z.b2z (d <? 26) - Z.shiftl (Z.b2z (negb (flag =? 0))) 5).

Definition flagged (bcp : Z) : Z := Z.b2z (u32 (bcp - 65) <? 26).

Definition encode_basic (bcp flag : Z) : Z :=
  let bcp := u32 (bcp - Z.shiftl (Z.b2z (u32 (bcp - 97) <? 26)) 5) in
  to_char (bcp + Z.shiftl (Z.b2z ((flag =? 0) && (u32 (bcp - 65) <? 26))) 5).

(** Both thresholds of the two main loops. *)
Definition threshold (k bias : Z) : Z :=
  if k <=? bias then tmin else if bias + tmax <=? k then tmax else k - bias.

(** Each turn divides by 35, so 32 bits last for less than 32 turns. *)
Definition adapt (delta numpoints : Z) (firsttime : bool) : res Z :=
  let delta := if firsttime then delta / damp else Z.shiftr delta 1 in
  if numpoints =? 0 then Undef
  else
    let delta := u32 (delta + delta / numpoints) in
    iterate 33 (fun '(delta, k) =>
      if (base - tmin) * tmax / 2 <? delta then Ok (inl (delta / (base - tmin), u32 (k + base)))
      else Ok (inr (u32 (k + (base - tmin + 1) * delta / (delta + skew))))) (delta, 0).

(** ** Encoding *)

(** The variables [delta], [h], [bias], [out] and the output. *)
Definition encoder : Type := Z * Z * Z * Z * list Z.

Fixpoint encode_basics (case_flags : option (list Z)) (max_out j : Z) (input : list Z)
    (out : Z) (output : list Z) : res (punycode_status + (Z * list Z)) :=
  match input with
  | [] => Ok (inr (out, output))
  | c :: input' =>
      if basic c then
        if u32 (max_out - out) <? 2 then Ok (inl punycode_big_output)
        else
          let! ch :=
            match case_flags with
            | Some flags => let! f := get flags j in Ok (encode_basic c f)
            | None => Ok (to_char c)
            end in
          let! output := put output out ch in
          encode_basics case_flags max_out (j + 1) input' (u32 (out + 1)) output
      else encode_basics case_flags max_out (j + 1) input' out output
  end.

(** The smallest code point from [n] on. *)
Definition next_codepoint (n : Z) (input : list Z) : Z :=
  foldl (fun m c => if (n <=? c) && (c <? m) then c else m) maxint input.

(** The loop that writes a variable-length integer, up to its last digit [q].
    Each turn divides [q] by 10 at least. *)
Definition encode_varint_step (max_out bias : Z) (st : Z * Z * Z * list Z) :
    res (Z * Z * Z * list Z + (punycode_status + (Z * Z * list Z))) :=
  let '(q, k, out, output) := st in
  if max_out <=? out then Ok (inr (inl punycode_big_output))
  else
    let t := threshold k bias in
    if q <? t then Ok (inr (inr (q, out, output)))
    else
      let! output := put output out (encode_digit (t + (q - t) mod (base - t)) 0) in
      Ok (inl ((q - t) / (base - t), u32 (k + base), u32 (out + 1), output)).

Definition encode_varint (max_out bias : Z) (q out : Z) (output : list Z) :
    res (punycode_status + (Z * Z * list Z)) :=
  iterate 33 (encode_varint_step max_out bias) (q, base, out, output).

Fixpoint encode_pass (case_flags : option (list Z)) (max_out n b j : Z) (input : list Z)
    (st : encoder) : res (punycode_status + encoder) :=
  match input with
  | [] => Ok (inr st)
  | c :: input' =>
      let '(delta, h, bias, out, output) := st in
      let? delta :=
        if c <? n then
          let delta := u32 (delta + 1) in
          if delta =? 0 then Ok (inl punycode_overflow) else Ok (inr delta)
        else Ok (inr delta) in
      let? st :=
        if c =? n then
          let? (q, out, output) := encode_varint max_out bias delta out output in
          let! flag := match case_flags with Some flags => get flags j | None => Ok 0 end in
          let! output := put output out (encode_digit q flag) in
          let! bias := adapt delta (u32 (h + 1)) (h =? b) in
          Ok (inr (0, u32 (h + 1), bias, u32 (out + 1), output))
        else Ok (inr (delta, h, bias, out, output)) in
      encode_pass case_flags max_out n b (j + 1) input' st
  end.

Definition encode_step (input : list Z) (case_flags : option (list Z)) (max_out b : Z)
    (st : Z * encoder) : res (Z * encoder + (punycode_status + encoder)) :=
  let '(n, (delta, h, bias, out, output)) := st in
  if h <? Zlen input then
    let m := next_codepoint n input in
    if (maxint - delta) / (h + 1) <? u32 (m - n) then Ok (inr (inl punycode_overflow))
    else
      let delta := u32 (delta + u32 (m - n) * (h + 1)) in
      let! r := encode_pass case_flags max_out m b 0 input (delta, h, bias, out, output) in
      match r with
      | inl s => Ok (inr (inl s))
      | inr (delta, h, bias, out, output) =>
          Ok (inl (u32 (m + 1), (u32 (delta + 1), h, bias, out, output)))
      end
  else Ok (inr (inr (delta, h, bias, out, output))).

(** Returns the output length and the output, or the status of a failure.  Each
    turn of the main loop handles a code point. *)
Definition punycode_encode (input : list Z) (case_flags : option (list Z)) (output_length : Z)
    (output : list Z) : res (punycode_status + (Z * list Z)) :=
  let? (out, output) := encode_basics case_flags output_length 0 input 0 output in
  let b := out in
  let! (out, output) :=
    if 0 <? b then let! output := put output out delimiter in Ok (u32 (out + 1), output)
    else Ok (out, output) in
  let? (_, _, _, out, output) :=
    iterate (S (length input)) (encode_step input case_flags output_length b)
      (initial_n, (0, b, initial_bias, out, output)) in
  Ok (inr (out, output)).

(** ** Decoding *)

(** The index of the last delimiter, or 0. *)
Fixpoint last_delim (j b : Z) (input : list Z) : Z :=
  match input with
  | [] => b
  | c :: input' => last_delim (j + 1) (if delim c then j else b) input'
  end.

Fixpoint decode_basics (n : nat) (input : list Z) (j out : Z) (output : list Z)
    (case_flags : option (list Z)) : res (punycode_status + (Z * list Z * option (list Z))) :=
  match n with
  | O => Ok (inr (out, output, case_flags))
  | S n =>
      let! c := get input j in
      let! case_flags := put_opt case_flags out (flagged c) in
      if negb (basic c) then Ok (inl punycode_bad_input)
      else
        let! output := put output out (u32 c) in
        decode_basics n input (j + 1) (out + 1) output case_flags
  end.

(** Reads a variable-length integer from index [inp] on and adds it to [i]. *)
Definition varint_step (input : list Z) (bias : Z) (st : Z * Z * Z * Z) :
    res (Z * Z * Z * Z + (punycode_status + (Z * Z))) :=
  let '(inp, i, w, k) := st in
  if Zlen input <=? inp then Ok (inr (inl punycode_bad_input))
  else
    let! c := get input inp in
    let digit := decode_digit (u32 c) in
    let inp := u32 (inp + 1) in
    if base <=? digit then Ok (inr (inl punycode_bad_input))
    else if (maxint - i) / w <? digit then Ok (inr (inl punycode_overflow))
    else
      let i := u32 (i + digit * w) in
      let t := threshold k bias in
      if digit <? t then Ok (inr (inr (inp, i)))
      else if maxint / (base - t) <? w then Ok (inr (inl punycode_overflow))
      else Ok (inl (inp, i, u32 (w * (base - t)), u32 (k + base))).

Definition decode_varint (input : list Z) (inp i bias : Z) : res (punycode_status + (Z * Z)) :=
  iterate (S (length input)) (varint_step input bias) (inp, i, 1, base).

(** The variables [in], [out], [i], [n], [bias], the output and the flags. *)
Definition decoder : Type := Z * Z * Z * Z * Z * list Z * option (list Z).

Definition decode_step (input : list Z) (max_out : Z) (st : decoder) :
    res (decoder + (punycode_status + decoder)) :=
  let '(inp, out, i, n, bias, output, case_flags) := st in
  if inp <? Zlen input then
    let oldi := i in
    let! r := decode_varint input inp i bias in
    match r with
    | inl s => Ok (inr (inl s))
    | inr (inp, i) =>
        let! bias := adapt (u32 (i - oldi)) (u32 (out + 1)) (oldi =? 0) in
        if maxint - n <? i / (out + 1) then Ok (inr (inl punycode_overflow))
        else
          let n := u32 (n + i / (out + 1)) in
          let i := i mod (out + 1) in
          if max_out <=? out then Ok (inr (inl punycode_big_output))
          else
            let! case_flags :=
              match case_flags with
              | None => Ok None
              | Some flags =>
                  let! flags := memmove flags (i + 1) i (out - i) in
                  let! c := get input (inp - 1) in
                  let! flags := put flags i (flagged c) in
                  Ok (Some flags)
              end in
            let! output := memmove output (i + 1) i (out - i) in
            let! output := put output i n in
            Ok (inl (inp, u32 (out + 1), u32 (i + 1), n, bias, output, case_flags))
    end
  else Ok (inr (inr st)).

Definition punycode_decode (input : list Z) (output_length : Z) (output : list Z)
    (case_flags : option (list Z)) :
    res (punycode_status + (Z * list Z * option (list Z))) :=
  let b := last_delim 0 0 input in
  if output_length <? b then Ok (inl punycode_big_output)
  else
    let? (out, output, case_flags) := decode_basics (Z.to_nat b) input 0 0 output case_flags in
    let? (_, out, _, _, _, output, case_flags) :=
      iterate (S (length input)) (decode_step input output_length)
        (if 0 <? b then b + 1 else 0, out, 0, initial_n, initial_bias, output, case_flags) in
    Ok (inr (out, output, case_flags)).

Example encode_muenchen :
  punycode_encode [0x6d; 0xfc; 0x6e; 0x63; 0x68; 0x65; 0x6e] None 20 (replicate 20 0) =
    Ok (inr (10, str "mnchen-3ya" ++ replicate 10 0)).
Proof. vm_compute. reflexivity. Qed.
Example decode_muenchen :
  punycode_decode (str "mnchen-3ya") 7 (replicate 7 0) None =
    Ok (inr (7, [0x6d; 0xfc; 0x6e; 0x63; 0x68; 0x65; 0x6e], None)).
Proof. vm_compute. reflexivity. Qed.

(** * Specifications *)

Lemma maxint_eq : maxint = 2 ^ 32 - 1.
Proof. reflexivity. Qed.

Lemma threshold_range k bias : 1 <= threshold k bias <= 26.
Proof. unfold threshold, tmin, tmax. ztest. Qed.

(** The bias stays small: [adapt] returns. *)
Lemma adapt_total delta numpoints firsttime :
  0 <= delta < 2 ^ 32 -> 0 < numpoints -> exists b, adapt delta numpoints firsttime = Ok b /\ 0 <= b < 2 ^ 32.
Proof.
  intros Hd Hn. unfold adapt. zfalse (numpoints =? 0).
  set (d := if firsttime then delta / damp else Z.shiftr delta 1).
  match goal with |- exists b, iterate 33 ?body ?s = Ok b /\ _ =>
    assert (forall fuel e k, 0 <= e < 2 ^ 32 -> e < 2 ^ Z.of_nat fuel ->
      wp (iterate (S fuel) body (e, k)) (fun b => 0 <= b < 2 ^ 32)) as Hwp end.
  2: { pose proof (u32_range (d + d / numpoints)) as Hr.
       apply (Hwp 32%nat _ 0) in Hr as (b & Hb & Hrange)%wp_Ok_iff; [eauto|simpl; lia]. }
  clear. change ((base - tmin) * tmax / 2) with 455.
  induction fuel as [|fuel IH]; intros e k He Hf; cbn [iterate bind].
  - change (2 ^ Z.of_nat 0) with 1 in Hf. zfalse (455 <? e). simpl. apply u32_range.
  - destruct (Z.ltb_spec 455 e); cbn [bind]; [|simpl; apply u32_range].
    apply IH; unfold base, tmin.
    + split; [apply Z.div_pos; lia|]. apply Z.div_lt_upper_bound; lia.
    + apply Z.div_lt_upper_bound; [lia|]. rewrite Nat2Z.inj_succ, Z.pow_succ_r in Hf by lia. lia.
Qed.

Lemma Zlen_map {A B} (f : A -> B) l : Zlen (map f l) = Zlen l.
Proof. unfold Zlen. by rewrite length_map. Qed.

(** ** Variable-length integers *)

(** The digits of [q], the least significant first; the fuel is the number of its
    bits. *)
Fixpoint varint (fuel : nat) (q k bias : Z) : list Z :=
  match fuel with
  | O => [q]
  | S fuel =>
      let t := threshold k bias in
      if q <? t then [q]
      else (t + (q - t) mod (base - t)) :: varint fuel ((q - t) / (base - t)) (k + base) bias
  end.

Definition enc (d : Z) : Z := encode_digit d 0.

Lemma digit_roundtrip d : 0 <= d < 36 -> decode_digit (u32 (enc d)) = d /\ enc d <> delimiter /\ 0 <= enc d < 128.
Proof.
  intros Hd.
  assert (Forall (fun d => decode_digit (u32 (enc d)) = d /\ enc d <> delimiter /\ 0 <= enc d < 128) (seqZ 0 36)) as Hall by decided.
  rewrite Forall_forall in Hall. apply Hall, elem_of_seqZ. lia.
Qed.

(** One step of the division. *)
Lemma varint_div q t :
  1 <= t <= 26 -> t <= q ->
  let d := t + (q - t) mod (base - t) in let q' := (q - t) / (base - t) in
  t <= d < base /\ 0 <= q' /\ q = d + q' * (base - t) /\ 10 * q' <= q - t.
Proof.
  unfold base. intros Ht Hq. pose proof (Z.mod_pos_bound (q - t) (36 - t)).
  pose proof (Z.div_mod (q - t) (36 - t)). assert (0 <= (q - t) / (36 - t)) by (apply Z.div_pos; lia).
  simpl. split; [lia|]. split; [done|]. split; [lia|]. nia.
Qed.

Lemma varint_halves fuel q q' t : 1 <= t -> 0 <= q' -> 10 * q' <= q - t -> q < 2 ^ Z.of_nat (S fuel) -> q' < 2 ^ Z.of_nat fuel.
Proof. intros ? ? ? Hq. rewrite Nat2Z.inj_succ, Z.pow_succ_r in Hq by lia. lia. Qed.

Lemma varint_digits fuel q k bias :
  0 <= q < 2 ^ Z.of_nat fuel -> Forall (fun d => 0 <= d < 36) (varint fuel q k bias).
Proof.
  revert q k. induction fuel as [|fuel IH]; intros q k Hq; simpl.
  - change (2 ^ Z.of_nat 0) with 1 in Hq. repeat constructor; lia.
  - pose proof (threshold_range k bias) as Ht. destruct (Z.ltb_spec q (threshold k bias)); [repeat constructor; lia|].
    destruct (varint_div q (threshold k bias)) as (Hd & Hq' & _ & Hs); [done..|].
    unfold base in *. constructor; [lia|]. apply IH. split; [done|]. apply (varint_halves _ q _ (threshold k bias)); lia.
Qed.

Lemma varint_length fuel n q k bias : 0 <= q < 10 ^ Z.of_nat n -> Zlen (varint fuel q k bias) <= Z.of_nat n + 1.
Proof.
  revert n q k. induction fuel as [|fuel IH]; intros n q k Hq; simpl; [rewrite Zlen_cons, Zlen_nil; lia|].
  pose proof (threshold_range k bias) as Ht.
  destruct (Z.ltb_spec q (threshold k bias)); [rewrite Zlen_cons, Zlen_nil; lia|].
  destruct (varint_div q (threshold k bias)) as (Hd & Hq' & _ & Hs); [done..|]. rewrite Zlen_cons.
  destruct n as [|n]; [change (10 ^ Z.of_nat 0) with 1 in Hq; lia|].
  rewrite Nat2Z.inj_succ, Z.pow_succ_r in Hq by lia. specialize (IH n ((q - threshold k bias) / (base - threshold k bias)) (k + base)). lia.
Qed.

Lemma varint_nonempty fuel q k bias : 1 <= Zlen (varint fuel q k bias).
Proof.
  destruct fuel; simpl; [rewrite Zlen_cons, Zlen_nil; lia|].
  case_match; rewrite Zlen_cons; [rewrite Zlen_nil; lia|]. 
  match goal with |- context [Zlen ?v] => pose proof (Zlen_nonneg v) end. lia.
Qed.

Lemma put_app l c d r : put (l ++ c :: r) (Zlen l) d = Ok (l ++ d :: r).
Proof.
  unfold put. rewrite Zlen_app, Zlen_cons. pose proof (Zlen_nonneg l). pose proof (Zlen_nonneg r).
  ztrue (0 <=? Zlen l). ztrue (Zlen l <? Zlen l + (1 + Zlen r)). simpl. unfold Zlen. rewrite Nat2Z.id.
  by rewrite insert_app_r_alt, Nat.sub_diag by lia.
Qed.

Lemma put_end l r d : 0 < Zlen r -> exists r', put (l ++ r) (Zlen l) d = Ok (l ++ d :: r') /\ Zlen r' = Zlen r - 1.
Proof.
  destruct r as [|c r]; [change (Zlen (@nil Z)) with 0; lia|]. intros _. exists r. rewrite put_app, Zlen_cons. split; [done|lia].
Qed.

Lemma encode_varint_loop max_out bias fuel : forall q k filled free,
  0 <= q < 2 ^ Z.of_nat fuel -> 0 <= k -> k + 36 * Z.of_nat fuel < 2 ^ 32 ->
  Zlen filled + Zlen (varint fuel q k bias) <= max_out -> max_out <= Zlen filled + Zlen free -> max_out < 2 ^ 32 ->
  exists ds q' free', iterate (S fuel) (encode_varint_step max_out bias) (q, k, Zlen filled, filled ++ free) =
      Ok (inr (q', Zlen filled + Zlen ds, filled ++ map enc ds ++ free')) /\
    varint fuel q k bias = ds ++ [q'] /\ Zlen free' = Zlen free - Zlen ds.
Proof.
  induction fuel as [|fuel IH]; intros q k filled free Hq Hk Hkn Hlen Hroom Hmax;
    pose proof (threshold_range k bias) as Ht; cbn [varint] in Hlen |- *; cbn [iterate];
    unfold encode_varint_step at 1; pose proof (Zlen_nonneg filled).
  - change (2 ^ Z.of_nat 0) with 1 in Hq. rewrite Zlen_cons, Zlen_nil in Hlen.
    zfalse (max_out <=? Zlen filled). ztrue (q <? threshold k bias). exists [], q, free. simpl.
    change (Zlen (@nil Z)) with 0. by rewrite Z.add_0_r, Z.sub_0_r.
  - destruct (Z.ltb_spec q (threshold k bias)).
    + rewrite Zlen_cons, Zlen_nil in Hlen. zfalse (max_out <=? Zlen filled).
      exists [], q, free. simpl. change (Zlen (@nil Z)) with 0. by rewrite Z.add_0_r, Z.sub_0_r.
    + destruct (varint_div q (threshold k bias)) as (Hd & Hq' & _ & Hs); [done..|]. rewrite Zlen_cons in Hlen.
      match type of Hlen with _ + (1 + Zlen ?v) <= _ => pose proof (Zlen_nonneg v) end.
      zfalse (max_out <=? Zlen filled).
      set (d := threshold k bias + _) in *. set (q1 := _ / _) in *.
      destruct (put_end filled free (encode_digit d 0)) as (free' & -> & Hfree); [lia|]. cbn [bind].
      rewrite !u32_small by (unfold base; lia).
      replace (filled ++ encode_digit d 0 :: free') with ((filled ++ [enc d]) ++ free') by by rewrite <- app_assoc.
      assert (Zlen (filled ++ [enc d]) = Zlen filled + 1) as El by (rewrite Zlen_app; done). rewrite <- El.
      destruct (IH q1 (k + base) (filled ++ [enc d]) free') as (ds & q' & free'' & E & Hv & Hf');
        try (unfold base in *; lia).
      { split; [done|]. apply (varint_halves _ q _ (threshold k bias)); lia. }
      cbn [iterate] in E. rewrite E.
      exists (d :: ds), q', free''. rewrite Hv. simpl. rewrite <- app_assoc, El, Zlen_cons. split; [|split; [done|lia]].
      do 4 f_equal. lia.
Qed.

Lemma encode_varint_spec max_out bias q filled free :
  0 <= q < 2 ^ 32 ->
  Zlen filled + Zlen (varint 32 q base bias) <= max_out -> max_out <= Zlen filled + Zlen free -> max_out < 2 ^ 32 ->
  exists ds q' free', encode_varint max_out bias q (Zlen filled) (filled ++ free) =
      Ok (inr (q', Zlen filled + Zlen ds, filled ++ map enc ds ++ free')) /\
    varint 32 q base bias = ds ++ [q'] /\ Zlen free' = Zlen free - Zlen ds.
Proof. intros Hq Hlen Hroom Hmax. apply encode_varint_loop; try done. Qed.

Lemma get_app l c r : get (l ++ c :: r) (Zlen l) = Ok c.
Proof.
  unfold get. pose proof (Zlen_nonneg l). ztrue (0 <=? Zlen l). unfold Zlen. rewrite Nat2Z.id.
  by rewrite list_lookup_middle.
Qed.

(** Reading back a variable-length integer: [q], scaled by the weight reached. *)
Lemma decode_varint_loop input bias fuel : forall n q k pre post i w,
  input = pre ++ map enc (varint n q k bias) ++ post -> Zlen input < 2 ^ 32 ->
  0 <= q < 2 ^ Z.of_nat n -> 0 <= k -> k + 36 * Z.of_nat n < 2 ^ 32 ->
  0 <= i -> 0 < w -> i + q * w <= maxint -> q * w * 36 <= maxint ->
  (length (varint n q k bias) <= fuel)%nat ->
  iterate fuel (varint_step input bias) (Zlen pre, i, w, k) =
    Ok (inr (Zlen pre + Zlen (varint n q k bias), i + q * w)).
Proof.
  rewrite maxint_eq. induction fuel as [|fuel IH]; intros n q k pre post i w Hin Hlen Hq Hk Hkn Hi Hw Hiq Hqw Hf.
  { destruct n; simpl in Hf; [lia|]. destruct (q <? threshold k bias); simpl in Hf; lia. }
  cbn [iterate]. unfold varint_step at 1. pose proof (threshold_range k bias) as Ht.
  pose proof (varint_digits n q k bias Hq) as Hds. pose proof (Zlen_nonneg pre).
  assert (exists d ds, varint n q k bias = d :: ds /\ (d < threshold k bias <-> ds = []) /\ d <= q /\
    (ds = [] -> d = q) /\
    (ds <> [] -> exists n' q', n = S n' /\ ds = varint n' q' (k + base) bias /\ 0 <= q' < 2 ^ Z.of_nat n' /\
       q = d + q' * (base - threshold k bias) /\ 1 <= q)) as (d & ds & Ev & Hstop & Hdq & Hlast & Hnext).
  { destruct n as [|n]; simpl.
    - change (2 ^ Z.of_nat 0) with 1 in Hq. exists q, []. split_and!; try done; try lia; try (split; [done|lia]).
    - destruct (Z.ltb_spec q (threshold k bias)); [exists q, []; split_and!; try done; try lia; try (split; [done|lia])|].
      destruct (varint_div q (threshold k bias)) as (Hd & Hq' & Eq & Hs); [done..|].
      eexists _, _. split; [done|].
      assert (varint n ((q - threshold k bias) / (base - threshold k bias)) (k + base) bias <> []) as Hne
        by (destruct n; simpl; [done|]; by case_match).
      split; [|split; [|split; [done|]]].
      + split; [lia|done].
      + unfold base in *. nia.
      + intros _. exists n, ((q - threshold k bias) / (base - threshold k bias)). split_and!; try done; try lia. apply (varint_halves _ q _ (threshold k bias)); lia. }
  rewrite Ev in *. cbn [map] in Hin. apply Forall_cons in Hds as [Hd Hds].
  assert (Zlen input = Zlen pre + (1 + Zlen (map enc ds ++ post))) as El by (rewrite Hin, Zlen_app; cbn [app]; by rewrite Zlen_cons).
  pose proof (Zlen_nonneg (map enc ds ++ post)). zfalse (Zlen input <=? Zlen pre).
  rewrite Hin at 1. cbn [app]. rewrite get_app. cbn [bind]. destruct (digit_roundtrip d Hd) as (-> & _).
  unfold base at 1. zfalse (36 <=? d).
  assert (d <= (2 ^ 32 - 1 - i) / w) as Hdiv by (apply Z.div_le_lower_bound; nia).
  rewrite maxint_eq. zfalse ((2 ^ 32 - 1 - i) / w <? d). rewrite (u32_small (Zlen pre + 1)) by lia.
  rewrite (u32_small (i + d * w)) by nia. rewrite Zlen_cons.
  destruct (Z.ltb_spec d (threshold k bias)) as [Hlt|Hge].
  - apply Hstop in Hlt as ->. rewrite (Hlast eq_refl). cbn [bind]. do 3 f_equal.
  - destruct Hnext as (n' & q' & -> & Eds & Hq' & Eq & Hq1); [intros E%Hstop; lia|].
    assert (w <= (2 ^ 32 - 1) / (base - threshold k bias)) as Hw' by (unfold base; apply Z.div_le_lower_bound; nia).
    zfalse ((2 ^ 32 - 1) / (base - threshold k bias) <? w). cbn [bind].
    rewrite (u32_small (w * _)) by (unfold base in *; nia). rewrite (u32_small (k + base)) by (unfold base in *; lia).
    assert (Zlen (pre ++ [enc d]) = Zlen pre + 1) as Ep by (rewrite Zlen_app; done). rewrite <- Ep.
    assert (0 < w * (base - threshold k bias)) as Hwb by (apply Z.mul_pos_pos; unfold base; lia).
    assert (q * w = d * w + q' * (w * (base - threshold k bias))) as Esum by (rewrite Eq; ring).
    assert (0 <= d * w) as Hdw by (apply Z.mul_nonneg_nonneg; lia).
    rewrite (IH n' q' (k + base) (pre ++ [enc d]) post); rewrite ?Ep; try (unfold base; lia); try (unfold base in *; lia).
    + rewrite Eds. do 3 f_equal; [lia|]. lia.
    + rewrite Hin, Eds, <- app_assoc. done.
    + simpl in Hf. rewrite <- Eds. lia.
Qed.

(** ** One decoded code point *)

Lemma memmove_insert l r i n :
  0 <= i <= Zlen l -> 0 < Zlen r ->
  exists arr r', memmove (l ++ r) (i + 1) i (Zlen l - i) = Ok arr /\
    put arr i n = Ok ((take (Z.to_nat i) l ++ n :: drop (Z.to_nat i) l) ++ r') /\ Zlen r' = Zlen r - 1.
Proof.
  intros Hi Hr. unfold memmove. rewrite Zlen_app. pose proof (Zlen_nonneg l).
  ztrue (0 <=? i + 1). ztrue (0 <=? i). ztrue (0 <=? Zlen l - i).
  ztrue (i + 1 + (Zlen l - i) <=? Zlen l + Zlen r). ztrue (i + (Zlen l - i) <=? Zlen l + Zlen r). cbn [andb].
  destruct r as [|c r]; [change (Zlen (@nil Z)) with 0 in Hr; lia|]. rewrite Zlen_cons.
  set (k := Z.to_nat i). assert (k <= length l)%nat as Hk by (unfold Zlen in *; lia).
  replace (Z.to_nat (i + 1)) with (S k) by lia.
  replace (Z.to_nat (i + 1 + (Zlen l - i))) with (S (length l)) by (unfold Zlen in *; lia).
  assert (take (Z.to_nat (Zlen l - i)) (drop k (l ++ c :: r)) = drop k l) as ->.
  { rewrite drop_app_le by done. rewrite take_app_le by (rewrite length_drop; unfold Zlen; lia).
    apply take_ge. rewrite length_drop. unfold Zlen. lia. }
  assert (drop (S (length l)) (l ++ c :: r) = r) as ->.
  { replace (S (length l)) with (length l + 1)%nat by lia. rewrite drop_app_add. done. }
  assert (exists x, take (S k) (l ++ c :: r) = take k l ++ [x]) as [x ->].
  { destruct (lookup_lt_is_Some_2 (l ++ c :: r) k) as [x Hx]; [rewrite length_app; simpl; lia|].
    exists x. rewrite (take_S_r _ _ x) by done. by rewrite take_app_le by done. }
  eexists _, r. split; [done|]. split; [|lia]. rewrite <- !app_assoc. cbn [app].
  replace i with (Zlen (take k l)) at 1 by (unfold Zlen; rewrite length_take; lia).
  by rewrite put_app.
Qed.

(** Reading a variable-length integer [q] inserts the code point the position
    [i + q] stands for. *)
Lemma decode_step_digits input max_out pre q post i n bias bias' l r :
  input = pre ++ map enc (varint 32 q base bias) ++ post -> Zlen input < 2 ^ 32 ->
  0 <= q -> q * 36 <= maxint -> 0 <= i -> i + q <= maxint ->
  Zlen l < max_out -> Zlen l + 1 < 2 ^ 32 -> 0 < Zlen r ->
  0 <= n -> n + (i + q) / (Zlen l + 1) <= maxint ->
  adapt q (Zlen l + 1) (i =? 0) = Ok bias' ->
  let p := (i + q) mod (Zlen l + 1) in
  let n' := n + (i + q) / (Zlen l + 1) in
  exists r', decode_step input max_out (Zlen pre, Zlen l, i, n, bias, l ++ r, None) =
      Ok (inl (Zlen pre + Zlen (varint 32 q base bias), Zlen l + 1, p + 1, n', bias',
               (take (Z.to_nat p) l ++ n' :: drop (Z.to_nat p) l) ++ r', None)) /\
    Zlen r' = Zlen r - 1.
Proof.
  rewrite maxint_eq. intros Hin Hlen Hq Hq36 Hi Hiq Hl Hl32 Hr Hn Hn' Hadapt p n'.
  pose proof (Zlen_nonneg pre). pose proof (Zlen_nonneg l). pose proof (Zlen_nonneg post).
  pose proof (varint_digits 32 q base bias ltac:(lia)) as Hds.
  pose proof (varint_nonempty 32 q base bias) as Hv1.
  assert (Zlen input = Zlen pre + (Zlen (varint 32 q base bias) + Zlen post)) as El.
  { by rewrite Hin, !Zlen_app, Zlen_map. }
  assert (0 <= (i + q) / (Zlen l + 1)) as Hdiv by (apply Z.div_pos; lia).
  pose proof (Z.mod_pos_bound (i + q) (Zlen l + 1) ltac:(lia)) as Hp.
  unfold decode_step. ztrue (Zlen pre <? Zlen input). unfold decode_varint.
  rewrite (decode_varint_loop input bias (S (length input)) 32 q base pre post i 1);
    rewrite ?maxint_eq, ?Z.mul_1_r; try done; try (unfold base; lia).
  2: { unfold Zlen in *. lia. }
  cbn [bind]. rewrite (u32_small (i + q - i)), (u32_small (Zlen l + 1)) by lia.
  replace (i + q - i) with q by lia. rewrite Hadapt. cbn [bind]. rewrite ?maxint_eq.
  zfalse (2 ^ 32 - 1 - n <? (i + q) / (Zlen l + 1)). zfalse (max_out <=? Zlen l). cbn [bind].
  rewrite (u32_small (n + _)) by lia. fold p n'.
  destruct (memmove_insert l r p n') as (arr & r' & -> & Hput & Hr'); [lia|done|]. cbn [bind].
  rewrite Hput. cbn [bind]. rewrite u32_small by lia. exists r'. done.
Qed.

Lemma iterate_nsteps {S A} (body : S -> res (S + A)) k fuel s s' :
  nsteps (fun s s' => body s = Ok (inl s')) k s s' -> iterate (k + fuel) body s = iterate fuel body s'.
Proof. induction 1 as [|k s s1 s' Hs _ IH]; [done|]. simpl. by rewrite Hs. Qed.

(** ** The encoder and the decoder in step *)

(** The code points the encoder has handled when it is at value [n] and position
    [l1 ++ l2]: those below [n], and those equal to [n] in [l1]. *)
Definition handled (n : Z) (l1 l2 : list Z) : list Z :=
  filter (fun c => c <= n) l1 ++ filter (fun c => c < n) l2.

Section in_step.
(** An input of code points up to [M], few enough for 32 bits, with room for its
    encoding in [size] cells and for its decoding in [room] cells. *)
Context (input : list Z) (M max_out size room decode_max : Z).
Hypothesis codes : Forall (fun c => 0 <= c <= M) input.
Hypothesis narrow : (M + 1) * (Zlen input + 1) * 36 < 2 ^ 32.
Hypothesis wide : 0x80 <= M.
Hypothesis out_room : 10 * Zlen input + 1 <= max_out.
Hypothesis out_size : max_out <= size.
Hypothesis out_32 : max_out < 2 ^ 32.
Hypothesis decode_room : Zlen input <= decode_max.
Hypothesis decode_size : decode_max <= room.

Definition basics : list Z := filter (fun c => c < 0x80) input.

(** What the encoder writes before the integers. *)
Definition prefix : list Z := basics ++ (if 0 <? Zlen basics then [delimiter] else []).
Definition digits_after_prefix (F : list Z) : Prop :=
  exists ds, F = prefix ++ map enc ds /\ Forall (fun d => 0 <= d < 36) ds.

(** The decoder, on any string that goes on from [F], is ready to read what
    follows [F], with the output [l] and the variables [i], [n] and [bias]. *)
Definition reads (start : decoder) (F l : list Z) (i n bias : Z) : Prop :=
  forall rest, Zlen (F ++ rest) < 2 ^ 32 ->
  exists r, nsteps (fun s s' => decode_step (F ++ rest) decode_max s = Ok (inl s'))
      (Z.to_nat (Zlen l - Zlen basics)) start (Zlen F, Zlen l, i, n, bias, l ++ r, None) /\
    Zlen r = room - Zlen l.

Definition in_step (start : decoder) (n : Z) (l1 l2 : list Z) (st : encoder) : Prop :=
  exists F free i nd delta bias,
    st = (delta, Zlen (handled n l1 l2), bias, Zlen F, F ++ free) /\
    Zlen F + Zlen free = size /\
    Zlen (handled n l1 l2) <= Zlen F <= 10 * Zlen (handled n l1 l2) + 1 /\
    0 <= delta /\ delta = (n - nd) * (Zlen (handled n l1 l2) + 1) + Zlen (filter (fun c => c <= n) l1) - i /\
    0 <= i /\ (i = 0 <-> Zlen (handled n l1 l2) = Zlen basics) /\
    0 <= nd /\ Zlen basics <= Zlen (handled n l1 l2) /\ digits_after_prefix F /\
    reads start F (handled n l1 l2) i nd bias.

Lemma filter_Zlen (P : Z -> Prop) `{forall x, Decision (P x)} l : Zlen (filter P l) <= Zlen l.
Proof. unfold Zlen. pose proof (length_filter P l). lia. Qed.

Lemma handled_cons n c l1 l2 :
  c <> n -> handled n (l1 ++ [c]) l2 = handled n l1 (c :: l2).
Proof.
  intros Hc. unfold handled. rewrite filter_app, !filter_cons, filter_nil.
  repeat case_decide; try lia; by rewrite <- app_assoc.
Qed.

(** Adding a code point to a list of others that are sorted in. *)
Lemma handled_new n l1 l2 :
  handled n (l1 ++ [n]) l2 = filter (fun c => c <= n) l1 ++ n :: filter (fun c => c < n) l2 /\
  handled n l1 (n :: l2) = filter (fun c => c <= n) l1 ++ filter (fun c => c < n) l2.
Proof.
  unfold handled. rewrite filter_app, !filter_cons, filter_nil.
  rewrite (decide_True (P := n <= n)), (decide_False (P := n < n)) by lia. by rewrite <- app_assoc.
Qed.

Lemma handled_length n l1 l2 : Zlen (handled n l1 l2) <= Zlen l1 + Zlen l2.
Proof.
  unfold handled. rewrite Zlen_app. pose proof (filter_Zlen (fun c => c <= n) l1).
  pose proof (filter_Zlen (fun c => c < n) l2). lia.
Qed.

Lemma filter_le_handled n l1 l2 : Zlen (filter (fun c => c <= n) l1) <= Zlen (handled n l1 l2).
Proof. unfold handled. rewrite Zlen_app. pose proof (Zlen_nonneg (filter (fun c => c < n) l2)). lia. Qed.

(** The bounds that keep everything within 32 bits. *)
Lemma M_small : (M + 1) * 36 < 2 ^ 32.
Proof. pose proof (Zlen_nonneg input). nia. Qed.

Lemma small_total n nd h p :
  0 <= nd -> n <= M -> 0 <= p <= h -> 0 <= h <= Zlen input -> 0 <= (n - nd) * (h + 1) + p ->
  ((n - nd) * (h + 1) + p) * 36 < 2 ^ 32.
Proof.
  intros Hnd Hn Hp Hh Ht. assert ((n - nd) * (h + 1) <= M * (Zlen input + 1)); [|lia].
  transitivity (M * (h + 1)); [apply Z.mul_le_mono_nonneg_r; lia|apply Z.mul_le_mono_nonneg_l; lia].
Qed.

(** An element of the pass that is the code point at hand: its integer is written,
    and the decoder inserts it where it belongs. *)
Lemma in_step_handle start n l1 l2 st b j :
  input = l1 ++ n :: l2 -> n <= M -> in_step start n l1 (n :: l2) st -> b = Zlen basics ->
  exists st', in_step start n (l1 ++ [n]) l2 st' /\
    encode_pass None max_out n b j (n :: l2) st = encode_pass None max_out n b (j + 1) l2 st'.
Proof.
  intros Hin HnM (F & free & i & nd & delta & bias & -> & Hsize & HF & Hd & Ed & Hi & Hfirst & Hnd & Hbl & Hdig & Hreads) ->.
  assert (0 <= n) as Hn0.
  { rewrite Hin in codes. apply Forall_app in codes as [_ Hc]. apply Forall_cons in Hc as [? _]. lia. }
  destruct (handled_new n l1 l2) as [Enew Eold]. set (L := handled n l1 (n :: l2)) in *.
  set (A := filter (fun c => c <= n) l1) in *. set (B := filter (fun c => c < n) l2) in *.
  pose proof (Zlen_nonneg A). pose proof (Zlen_nonneg B). pose proof (Zlen_nonneg basics).
  assert (Zlen L = Zlen A + Zlen B) as EL by by rewrite Eold, Zlen_app.
  assert (Zlen L < Zlen input) as HL.
  { rewrite Hin, Zlen_app, Zlen_cons, EL. pose proof (filter_Zlen (fun c => c <= n) l1).
    pose proof (filter_Zlen (fun c => c < n) l2). unfold A, B. lia. }
  pose proof (small_total n nd (Zlen L) (Zlen A) Hnd HnM ltac:(lia) ltac:(lia) ltac:(lia)) as Hsmall.
  assert (Zlen (varint 32 delta base bias) <= 10) as Hv by (apply (varint_length 32 9); simpl; lia).
  pose proof (varint_nonempty 32 delta base bias) as Hv1. pose proof (Zlen_nonneg F).
  destruct (encode_varint_spec max_out bias delta F free) as (ds & q' & free' & Henc & Ev & Hfree'); [lia..|].
  destruct (adapt_total delta (Zlen L + 1) (Zlen L =? Zlen basics)) as (bias' & Hadapt & _); [lia..|].
  rewrite Ev, Zlen_app, Zlen_cons, Zlen_nil in Hv, Hv1. pose proof (Zlen_nonneg ds).
  destruct (put_end (F ++ map enc ds) free' (encode_digit q' 0)) as (free2 & Hput & Hfree2); [lia|].
  set (F' := F ++ map enc (varint 32 delta base bias)).
  assert (Zlen F' = Zlen F + Zlen ds + 1) as EF'.
  { unfold F'. rewrite Ev, map_app, !Zlen_app. rewrite Zlen_map. simpl. rewrite Zlen_cons, Zlen_nil. lia. }
  assert (Zlen (handled n (l1 ++ [n]) l2) = Zlen L + 1) as EL' by (rewrite Enew, Zlen_app, Zlen_cons; lia).
  exists (0, Zlen L + 1, bias', Zlen F', F' ++ free2). split.
  - exists F', free2, (Zlen A + 1), n, 0, bias'. rewrite EL'.
    split_and!; try done; try lia.
    { rewrite filter_app, Zlen_app, filter_cons, decide_True, filter_nil by lia.
      change (Zlen [n]) with 1. fold A. lia. }
    + destruct Hdig as (ds0 & -> & Hds0). exists (ds0 ++ varint 32 delta base bias). unfold F'.
      rewrite map_app, app_assoc. split; [done|]. apply Forall_app. split; [done|].
      apply varint_digits. lia.
    + intros rest Hrest. unfold F'. rewrite <- app_assoc.
      destruct (Hreads (map enc (varint 32 delta base bias) ++ rest)) as (r & Hsteps & Hr).
      { unfold F' in Hrest. by rewrite <- app_assoc in Hrest. }
      destruct (decode_step_digits (F ++ map enc (varint 32 delta base bias) ++ rest) decode_max F delta rest i nd bias bias' L r)
        as (r' & Hstep & Hr'); try done; try (rewrite ?maxint_eq; lia).
      { unfold F' in Hrest. by rewrite <- app_assoc in Hrest. }
      { replace (i + delta) with (Zlen A + (n - nd) * (Zlen L + 1)) by lia.
        rewrite Z.div_add, Z.div_small by lia. rewrite maxint_eq. nia. }
      { rewrite <- Hadapt. f_equal. destruct (Z.eqb_spec i 0), (Z.eqb_spec (Zlen L) (Zlen basics)); tauto. }
      replace (i + delta) with (Zlen A + (n - nd) * (Zlen L + 1)) in Hstep by lia.
      rewrite Z.div_add, Z.div_small, Z.mod_add, Z.mod_small in Hstep by lia.
      replace (nd + (0 + (n - nd))) with n in Hstep by lia.
      assert (take (Z.to_nat (Zlen A)) L = A /\ drop (Z.to_nat (Zlen A)) L = B) as [Et Edr].
      { rewrite Eold. unfold Zlen. rewrite Nat2Z.id. split; [by apply take_app_length|by apply drop_app_length]. }
      rewrite Et, Edr in Hstep. exists r'. rewrite EL'. split; [|lia].
      replace (Z.to_nat (Zlen L + 1 - Zlen basics)) with (Z.to_nat (Zlen L - Zlen basics) + 1)%nat by lia.
      eapply nsteps_trans; [exact Hsteps|]. apply nsteps_once. rewrite Hstep, Enew. fold A B.
      by rewrite Zlen_app, Zlen_map.
  - cbn [encode_pass]. unfold status_bind at 1. zfalse (n <? n). cbn [bind].
    unfold status_bind at 1. rewrite Z.eqb_refl. unfold status_bind at 1. rewrite Henc. cbn [bind].
    assert (Zlen F + Zlen ds = Zlen (F ++ map enc ds)) as -> by (by rewrite Zlen_app, Zlen_map).
    rewrite app_assoc, Hput. cbn [bind]. rewrite (u32_small (Zlen L + 1)), Hadapt by lia. cbn [bind].
    rewrite Zlen_app, Zlen_map, u32_small by lia.
    unfold F' at 2. rewrite Ev, map_app, <- !app_assoc. cbn [map app]. by rewrite EF'.
Qed.

(** An element that is not: it only counts if it has been handled. *)
Lemma in_step_skip start n c l1 l2 st b j :
  input = l1 ++ c :: l2 -> n <= M -> c <> n -> in_step start n l1 (c :: l2) st ->
  exists st', in_step start n (l1 ++ [c]) l2 st' /\
    encode_pass None max_out n b j (c :: l2) st = encode_pass None max_out n b (j + 1) l2 st'.
Proof.
  intros Hin HnM Hc (F & free & i & nd & delta & bias & -> & Hsize & HF & Hd & Ed & Hi & Hfirst & Hnd & Hbl & Hdig & Hreads).
  pose proof (handled_length n l1 (c :: l2)) as Hlen. pose proof (filter_le_handled n (l1 ++ [c]) l2) as Hpos.
  assert (Zlen input = Zlen l1 + Zlen (c :: l2)) as Einput by by rewrite Hin, Zlen_app.
  pose proof (Zlen_nonneg (filter (fun x => x <= n) l1)).
  rewrite (handled_cons n c l1 l2 Hc) in Hpos. rewrite filter_app, Zlen_app in Hpos.
  set (L := handled n l1 (c :: l2)) in *.
  set (delta' := if c <? n then delta + 1 else delta).
  assert (Zlen (filter (fun x => x <= n) [c]) = delta' - delta) as Ec.
  { unfold delta'. rewrite filter_cons, filter_nil. destruct (Z.ltb_spec c n).
    - rewrite decide_True by lia. rewrite Zlen_cons, Zlen_nil. lia.
    - rewrite decide_False by lia. change (Zlen (@nil Z)) with 0. lia. }
  assert (0 <= delta' - delta <= 1) as Hstep by (unfold delta'; ztest).
  exists (delta', Zlen L, bias, Zlen F, F ++ free). split.
  - exists F, free, i, nd, delta', bias. rewrite (handled_cons n c l1 l2 Hc). fold L.
    rewrite filter_app, Zlen_app. split_and!; try done; try lia.
  - cbn [encode_pass]. unfold status_bind at 1.
    unfold delta' in *. destruct (Z.ltb_spec c n).
    + pose proof (small_total n nd (Zlen L) (Zlen (filter (fun x => x <= n) l1) + 1)) as Hsmall.
      specialize (Hsmall Hnd HnM ltac:(lia) ltac:(pose proof (Zlen_nonneg L); lia) ltac:(lia)).
      rewrite u32_small by lia. zfalse (delta + 1 =? 0). cbn [bind]. unfold status_bind at 1. by zfalse (c =? n).
    + cbn [bind]. unfold status_bind at 1. by zfalse (c =? n).
Qed.

Lemma in_step_pass start n b : n <= M -> b = Zlen basics -> forall l2 l1 st j,
  input = l1 ++ l2 -> in_step start n l1 l2 st ->
  exists st', encode_pass None max_out n b j l2 st = Ok (inr st') /\ in_step start n input [] st'.
Proof.
  intros HnM Hb. induction l2 as [|c l2 IH]; intros l1 st j Hin Hst.
  - exists st. split; [done|]. by rewrite Hin, app_nil_r.
  - assert (exists st', in_step start n (l1 ++ [c]) l2 st' /\
      encode_pass None max_out n b j (c :: l2) st = encode_pass None max_out n b (j + 1) l2 st') as (st' & Hst' & ->).
    { destruct (decide (c = n)) as [->|Hc]; [by eapply in_step_handle|by eapply in_step_skip]. }
    apply (IH (l1 ++ [c])); [by rewrite <- app_assoc|done].
Qed.

(** The next value handled is the least of those left. *)
Lemma next_codepoint_spec n :
  (exists c, c ∈ input /\ n <= c) ->
  next_codepoint n input ∈ input /\ n <= next_codepoint n input /\
  forall c, c ∈ input -> n <= c -> next_codepoint n input <= c.
Proof.
  intros Hex. unfold next_codepoint.
  assert (forall l m, let r := foldl (fun m c => if (n <=? c) && (c <? m) then c else m) m l in
    r <= m /\ (r = m \/ r ∈ l /\ n <= r) /\ forall c, c ∈ l -> n <= c -> r <= c) as Hfold.
  { induction l as [|c l IH]; intros m; simpl; [split_and!; [lia|by left|by intros c ?%not_elem_of_nil]|].
    specialize (IH (if (n <=? c) && (c <? m) then c else m)). cbv zeta in IH. revert IH.
    generalize (foldl (fun m c => if (n <=? c) && (c <? m) then c else m) (if (n <=? c) && (c <? m) then c else m) l).
    intros r (Hr & Hor & Hall). destruct (Z.leb_spec n c), (Z.ltb_spec c m); simpl in *; (split; [lia|]); (split; [|]);
      try (intros d [->|Hd]%elem_of_cons Hnd; [lia|by apply Hall]);
      destruct Hor as [->|[Hin Hn]]; rewrite ?elem_of_cons; auto. }
  specialize (Hfold input maxint) as (Hle & Hor & Hall). cbv zeta in *.
  destruct Hex as (c & Hc & Hnc). pose proof (Hall c Hc Hnc) as Hrc.
  assert (c < maxint) as Hcm.
  { apply (proj1 (Forall_forall _ _) codes) in Hc. rewrite maxint_eq. pose proof (Zlen_nonneg input). nia. }
  destruct Hor as [E|[Hin Hn]]; [lia|]. done.
Qed.

Lemma filter_same (P Q : Z -> Prop) `{forall x, Decision (P x)} `{forall x, Decision (Q x)} (l : list Z) :
  (forall x, x ∈ l -> P x <-> Q x) -> filter P l = filter Q l.
Proof.
  induction l as [|c l IH]; intros HPQ; [done|]. rewrite !filter_cons.
  rewrite IH by (intros x Hx; apply HPQ; by right). specialize (HPQ c ltac:(by left)).
  repeat case_decide; tauto.
Qed.

Lemma filter_all (P : Z -> Prop) `{forall x, Decision (P x)} (l : list Z) : Zlen (filter P l) = Zlen l -> filter P l = l.
Proof.
  induction l as [|c l IH]; [done|]. rewrite filter_cons. case_decide.
  - rewrite !Zlen_cons. intros E. rewrite IH; [done|lia].
  - rewrite Zlen_cons. pose proof (filter_Zlen P l). lia.
Qed.

Lemma filter_Forall (P : Z -> Prop) `{forall x, Decision (P x)} (l : list Z) : Forall P l -> filter P l = l.
Proof. induction 1 as [|c l Hc _ IH]; [done|]. by rewrite filter_cons, decide_True, IH. Qed.

(** A turn of the main loop handles every occurrence of one more value. *)
Lemma in_step_turn start n st b : b = Zlen basics -> 0 <= n <= M + 1 ->
  in_step start n [] input st -> Zlen (filter (fun c => c < n) input) < Zlen input ->
  exists m st', encode_step input None max_out b (n, st) = Ok (inl (m + 1, st')) /\
    n <= m <= M /\ in_step start (m + 1) [] input st' /\
    Zlen (filter (fun c => c < n) input) < Zlen (filter (fun c => c < m + 1) input).
Proof.
  intros Hb Hn Hst Hlt.
  assert (exists c, c ∈ input /\ n <= c) as Hex.
  { destruct (decide (Exists (fun c => n <= c) input)) as [(c & Hc & Hnc)%Exists_exists|Hnone]; [eauto|].
    exfalso. assert (filter (fun c => c < n) input = input) as E; [|rewrite E in Hlt; lia].
    apply filter_Forall. apply not_Exists_Forall in Hnone; [|apply _]. eapply Forall_impl; [exact Hnone|]. simpl. lia. }
  destruct (next_codepoint_spec n Hex) as (Hm & Hnm & Hleast). set (m := next_codepoint n input) in *.
  assert (0 <= m <= M) as HmM by (apply (proj1 (Forall_forall _ _) codes) in Hm; done).
  destruct Hst as (F & free & i & nd & delta & bias & -> & Hsize & HF & Hd & Ed & Hi & Hfirst & Hnd & Hbl & Hdig & Hreads).
  assert (handled m [] input = handled n [] input) as EL.
  { unfold handled. cbn [app filter list_filter]. apply filter_same. intros c Hc. split; [|lia].
    intros Hcm. destruct (Z.lt_ge_cases c n) as [|Hnc]; [done|]. specialize (Hleast c Hc Hnc). lia. }
  set (L := handled n [] input) in *.
  assert (L = filter (fun c => c < n) input) as EL' by done.
  pose proof (Zlen_nonneg L) as HL0. change (Zlen (filter (fun c => c <= n) [])) with 0 in Ed.
  assert (Zlen L < Zlen input) as HL by by rewrite EL'.
  assert (delta + (m - n) * (Zlen L + 1) = (m - nd) * (Zlen L + 1) + 0 - i) as Ed' by lia.
  assert (0 <= (m - n) * (Zlen L + 1)) as Hpos by (apply Z.mul_nonneg_nonneg; lia).
  pose proof (small_total m nd (Zlen L) 0 Hnd ltac:(lia) ltac:(lia) ltac:(lia) ltac:(lia)) as Hsmall.
  assert (in_step start m [] input (delta + (m - n) * (Zlen L + 1), Zlen L, bias, Zlen F, F ++ free)) as Hst'.
  { exists F, free, i, nd, (delta + (m - n) * (Zlen L + 1)), bias. rewrite EL. by split_and!; try lia. }
  destruct (in_step_pass start m b ltac:(lia) Hb input [] _ 0 eq_refl Hst') as (st' & Hpass & Hst'').
  destruct Hst'' as (F' & free' & i' & nd' & delta' & bias' & -> & Hsize' & HF' & Hd' & Edd & Hi' & Hfirst' & Hnd' & Hbl' & Hdig' & Hreads').
  assert (handled m input [] = handled (m + 1) [] input) as EL2.
  { unfold handled. rewrite filter_nil, app_nil_r. cbn [app]. apply filter_same. intros c _. lia. }
  assert (filter (fun c => c <= m) input = handled m input []) as Efilter by (unfold handled; by rewrite filter_nil, app_nil_r).
  rewrite Efilter in Edd. pose proof (handled_length m input []) as Hlen'. change (Zlen []) with 0 in Hlen'.
  pose proof (Zlen_nonneg (handled m input [])).
  pose proof (small_total m nd' (Zlen (handled m input [])) (Zlen (handled m input [])) Hnd' ltac:(lia) ltac:(lia) ltac:(lia) ltac:(lia)) as Hsmall'.
  exists m, (delta' + 1, Zlen (handled m input []), bias', Zlen F', F' ++ free'). split; [|split; [lia|split]].
  - pose proof M_small. unfold encode_step. fold m. ztrue (Zlen L <? Zlen input). rewrite maxint_eq, (u32_small (m - n)) by lia.
    assert (m - n <= (2 ^ 32 - 1 - delta) / (Zlen L + 1)) by (apply Z.div_le_lower_bound; lia).
    zfalse ((2 ^ 32 - 1 - delta) / (Zlen L + 1) <? m - n). rewrite (u32_small (delta + _)) by lia.
    rewrite Hpass. cbn [bind]. rewrite !u32_small by lia. done.
  - exists F', free', i', nd', (delta' + 1), bias'. rewrite <- EL2.
    change (Zlen (filter (fun c => c <= m + 1) [])) with 0. by split_and!; try lia.
  - assert (L = handled (m + 1) [] input -> False) as Hne.
    { intros E. assert (m ∈ L) as Hin by (rewrite E; apply list_elem_of_filter; split; [lia|done]).
      rewrite EL' in Hin. apply list_elem_of_filter in Hin as [? _]. lia. }
    assert (filter (fun c => c < n) (filter (fun c => c < m + 1) input) = L) as Eff.
    { rewrite list_filter_filter_l; [done|]. intros x. lia. }
    pose proof (filter_Zlen (fun c => c < n) (filter (fun c => c < m + 1) input)) as Hle. rewrite Eff in Hle.
    destruct (decide (Zlen L = Zlen (filter (fun c => c < m + 1) input))) as [E|]; [|rewrite <- EL'; lia].
    exfalso. apply Hne. change (L = filter (fun c => c < m + 1) input). rewrite <- Eff in E at 1 |- *.
    by apply filter_all.
Qed.

Lemma in_step_loop start b : b = Zlen basics -> forall fuel n st,
  0 <= n <= M + 1 -> in_step start n [] input st ->
  (Z.to_nat (Zlen input - Zlen (filter (fun c => c < n) input))%Z < fuel)%nat ->
  exists F free delta h bias' i nd bias,
    iterate fuel (encode_step input None max_out b) (n, st) = Ok (inr (delta, h, bias', Zlen F, F ++ free)) /\
    Zlen input <= Zlen F <= 10 * Zlen input + 1 /\ Zlen F + Zlen free = size /\
    digits_after_prefix F /\ reads start F input i nd bias.
Proof.
  intros Hb. induction fuel as [|fuel IH]; intros n st Hn Hst Hf; [lia|]. cbn [iterate].
  pose proof (filter_Zlen (fun c => c < n) input).
  destruct (Z.lt_ge_cases (Zlen (filter (fun c => c < n) input)) (Zlen input)) as [Hlt|Hge].
  - destruct (in_step_turn start n st b Hb Hn Hst Hlt) as (m & st' & -> & Hm & Hst' & Hmore). cbn [bind].
    pose proof (filter_Zlen (fun c => c < m + 1) input).
    apply (IH (m + 1) st'); [lia|done|lia].
  - destruct Hst as (F & free & i & nd & delta & bias & -> & Hsize & HF & Hd & Ed & Hi & Hfirst & Hnd & Hbl & Hdig & Hreads).
    assert (handled n [] input = input) as EL.
    { unfold handled. rewrite filter_nil. cbn [app]. apply filter_all. lia. }
    rewrite EL in *. unfold encode_step at 1. zfalse (Zlen input <? Zlen input). cbn [bind].
    exists F, free, delta, (Zlen input), bias, i, nd, bias. by split_and!; try lia.
Qed.

Lemma to_char_basic c : 0 <= c < 0x80 -> to_char c = c.
Proof. intros Hc. unfold to_char. rewrite Z.mod_small; lia. Qed.

Lemma basic_spec c : 0 <= c <= M -> basic c = bool_decide (c < 0x80).
Proof.
  intros Hc. pose proof M_small. unfold basic. rewrite u32_small by lia.
  destruct (Z.ltb_spec c 0x80); symmetry; [by apply bool_decide_eq_true_2|apply bool_decide_eq_false_2; lia].
Qed.

Lemma encode_basics_spec l2 : forall l1 free j,
  input = l1 ++ l2 -> Zlen (filter (fun c => c < 0x80) l1) + Zlen free = size ->
  exists free', encode_basics None max_out j l2 (Zlen (filter (fun c => c < 0x80) l1))
      (filter (fun c => c < 0x80) l1 ++ free) = Ok (inr (Zlen basics, basics ++ free')) /\
    Zlen basics + Zlen free' = size.
Proof.
  induction l2 as [|c l2 IH]; intros l1 free j Hin Hsize; cbn [encode_basics].
  - rewrite app_nil_r in Hin. unfold basics. rewrite Hin. eauto.
  - assert (0 <= c <= M) as Hc by (rewrite Hin in codes; apply Forall_app in codes as [_ Hc]; by apply Forall_cons in Hc as [? _]).
    assert (Zlen input = Zlen l1 + (1 + Zlen l2)) as Einput by by rewrite Hin, Zlen_app, Zlen_cons.
    pose proof (filter_Zlen (fun c => c < 0x80) l1). pose proof (Zlen_nonneg l2).
    pose proof (Zlen_nonneg (filter (fun c => c < 0x80) l1)).
    assert (input = (l1 ++ [c]) ++ l2) as Hin' by by rewrite <- app_assoc.
    rewrite basic_spec by done. destruct (Z.lt_ge_cases c 0x80).
    + rewrite bool_decide_eq_true_2 by done. rewrite u32_small by lia. zfalse (max_out - Zlen (filter (fun c => c < 128) l1) <? 2).
      destruct (put_end (filter (fun c => c < 0x80) l1) free (to_char c)) as (free' & Hput & Hfree'); [lia|].
      cbn [bind]. rewrite Hput. cbn [bind]. rewrite (u32_small (Zlen _ + 1)) by lia. rewrite to_char_basic by lia.
      specialize (IH (l1 ++ [c]) free' (j + 1) Hin').
      rewrite filter_app, filter_cons, filter_nil, decide_True, Zlen_app, <- app_assoc in IH by done.
      apply IH. change (Zlen [c]) with 1. lia.
    + rewrite bool_decide_eq_false_2 by lia. specialize (IH (l1 ++ [c]) free (j + 1) Hin').
      rewrite filter_app, filter_cons, filter_nil, decide_False, app_nil_r in IH by lia. by apply IH.
Qed.

Lemma decode_basics_spec l F : forall k n j out r,
  F = k ++ l ++ drop (length (k ++ l)) F -> j = Zlen k -> out = Zlen k -> n = length l ->
  Forall (fun c => 0 <= c < 0x80) l -> Zlen l <= Zlen r ->
  decode_basics n F j out (k ++ r) None = Ok (inr (Zlen k + Zlen l, (k ++ l) ++ drop (length l) r, None)).
Proof.
  induction l as [|c l IH]; intros k n j out r HF -> -> -> Hl Hr; cbn [length decode_basics].
  - change (Zlen []) with 0. by rewrite app_nil_r, Z.add_0_r.
  - apply Forall_cons in Hl as [Hc Hl]. rewrite Zlen_cons in *. pose proof (Zlen_nonneg l).
    rewrite HF at 1. cbn [app]. rewrite get_app. cbn [bind put_opt].
    assert (basic c = true) as -> by (unfold basic; rewrite u32_small by lia; by ztrue (c <? 128)).
    destruct r as [|x r]; [change (Zlen (@nil Z)) with 0 in Hr; lia|]. rewrite Zlen_cons in Hr. rewrite put_app.
    cbn [bind negb]. rewrite u32_small by lia.
    replace (k ++ c :: r) with ((k ++ [c]) ++ r) by by rewrite <- app_assoc.
    assert (Zlen (k ++ [c]) = Zlen k + 1) as Ek by by rewrite Zlen_app.
    rewrite (IH (k ++ [c]) (length l)) by (done || lia || (rewrite <- !app_assoc; cbn [app]; done)).
    rewrite Ek, <- (app_assoc k). cbn [app drop].
    by replace (Zlen k + 1 + Zlen l) with (Zlen k + (1 + Zlen l)) by lia.
Qed.

Lemma last_delim_app l l' : forall j b, last_delim j b (l ++ l') = last_delim (j + Zlen l) (last_delim j b l) l'.
Proof.
  induction l as [|c l IH]; intros j b; simpl; [by rewrite Zlen_nil, Z.add_0_r|]. rewrite IH, Zlen_cons. f_equal. lia.
Qed.

Lemma last_delim_digits ds : Forall (fun d => 0 <= d < 36) ds -> forall j b, last_delim j b (map enc ds) = b.
Proof.
  induction 1 as [|d ds Hd _ IH]; intros j b; [done|]. simpl. rewrite IH. unfold delim.
  destruct (digit_roundtrip d Hd) as (_ & Hne & _). by zfalse (enc d =? delimiter).
Qed.

Lemma last_delim_prefix F : digits_after_prefix F -> last_delim 0 0 F = Zlen basics.
Proof.
  intros (ds & -> & Hds). rewrite last_delim_app, (last_delim_digits ds Hds). unfold prefix.
  rewrite last_delim_app. pose proof (Zlen_nonneg basics). destruct (Z.ltb_spec 0 (Zlen basics)); simpl; [done|].
  destruct basics as [|c l]; [done|]. rewrite Zlen_cons in *. pose proof (Zlen_nonneg l). lia.
Qed.

Lemma encode_then_decode output output2 :
  Zlen output = size -> Zlen output2 = room ->
  exists F free, punycode_encode input None max_out output = Ok (inr (Zlen F, F ++ free)) /\
    Zlen F <= 10 * Zlen input + 1 /\
    exists r, punycode_decode F decode_max output2 None = Ok (inr (Zlen input, input ++ r, None)).
Proof.
  intros Hsize Hroom. pose proof (Zlen_nonneg input) as Hin0. pose proof M_small as HM.
  assert (Forall (fun c => 0 <= c < 0x80) basics) as Hbasics.
  { apply Forall_forall. intros c Hc. apply list_elem_of_filter in Hc as [Hc1 Hc2].
    apply (proj1 (Forall_forall _ _) codes) in Hc2. lia. }
  assert (Zlen basics <= Zlen input) as Hb by apply filter_Zlen. pose proof (Zlen_nonneg basics) as Hb0.
  destruct (encode_basics_spec input [] output 0 eq_refl) as (free1 & Henc1 & Hfree1); [done|].
  assert (exists free2, (if 0 <? Zlen basics
      then let! output := put (basics ++ free1) (Zlen basics) delimiter in Ok (u32 (Zlen basics + 1), output)
      else Ok (Zlen basics, basics ++ free1)) = Ok (Zlen prefix, prefix ++ free2) /\
      Zlen prefix + Zlen free2 = size) as (free2 & Hdelim & Hfree2).
  { unfold prefix. destruct (Z.ltb_spec 0 (Zlen basics)).
    - destruct (put_end basics free1 delimiter) as (free2 & -> & Hfree2); [lia|]. exists free2. cbn [bind].
      rewrite Zlen_app, <- app_assoc. change (Zlen [delimiter]) with 1. rewrite u32_small by lia. split; [done|lia].
    - exists free1. rewrite app_nil_r. done. }
  assert (Zlen prefix = if 0 <? Zlen basics then Zlen basics + 1 else 0) as Hprefix.
  { unfold prefix. rewrite Zlen_app. destruct (Z.ltb_spec 0 (Zlen basics)); [done|]. rewrite Zlen_nil. lia. }
  set (r0 := drop (length basics) output2).
  assert (Zlen r0 = room - Zlen basics) as Hr0 by (unfold r0, Zlen in *; rewrite length_drop; lia).
  set (start := (Zlen prefix, Zlen basics, 0, initial_n, initial_bias, basics ++ r0, None) : decoder).
  assert (in_step start initial_n [] input (0, Zlen basics, initial_bias, Zlen prefix, prefix ++ free2)) as Hstart.
  { exists prefix, free2, 0, initial_n, 0, initial_bias. change (handled initial_n [] input) with basics.
    change (Zlen (filter (fun c => c <= initial_n) [])) with 0.
    assert (Zlen basics <= Zlen prefix <= 10 * Zlen basics + 1) by (rewrite Hprefix; ztest).
    split_and!; try done; try lia.
    - exists []. rewrite app_nil_r. done.
    - intros rest _. exists r0. rewrite Z.sub_diag. split; [constructor|]. lia. }
  destruct (in_step_loop start (Zlen basics) eq_refl (S (length input)) initial_n _ ltac:(unfold initial_n; lia) Hstart)
    as (F & free & delta & h & bias' & i & nd & bias & Henc & HF & HFsize & Hdig & Hreads).
  { change (Zlen (filter (fun c => c < initial_n) input)) with (Zlen basics). unfold Zlen in *. lia. }
  exists F, free. split; [|split; [lia|]].
  - unfold punycode_encode. unfold status_bind at 1. change (filter (fun c => c < 128) []) with (@nil Z) in Henc1.
    change (Zlen (@nil Z)) with 0 in Henc1. cbn [app] in Henc1. rewrite Henc1. cbn [bind].
    rewrite Hdelim. cbn [bind]. unfold status_bind, encoder in *. by rewrite Henc.
  - unfold punycode_decode. rewrite (last_delim_prefix F Hdig). zfalse (decode_max <? Zlen basics).
    destruct (Hreads []) as (r & Hsteps & Hr); [rewrite app_nil_r; lia|]. rewrite app_nil_r in Hsteps.
    assert (Z.to_nat (Zlen basics) = length basics) as -> by (unfold Zlen; lia).
    destruct Hdig as (ds & EF & Hds).
    assert (F = basics ++ drop (length basics) F) as EF'.
    { rewrite EF. unfold prefix. by rewrite <- !app_assoc, drop_app_length. }
    pose proof (decode_basics_spec basics F [] (length basics) 0 0 output2 EF' eq_refl eq_refl eq_refl Hbasics ltac:(lia)) as Hdec.
    cbn [app] in Hdec. unfold status_bind at 1. rewrite Hdec.
    cbn [bind app]. change (Zlen []) with 0. fold r0. rewrite <- Hprefix. change (0 + Zlen basics) with (Zlen basics).
    fold start.
    assert (S (length F) = (Z.to_nat (Zlen input - Zlen basics) + S (length F - Z.to_nat (Zlen input - Zlen basics)))%nat)
      as -> by (unfold Zlen in *; lia).
    unfold status_bind. rewrite (iterate_nsteps _ _ _ _ _ Hsteps). cbn [iterate]. unfold decode_step at 1.
    zfalse (Zlen F <? Zlen F). cbn [bind]. by exists r.
Qed.

End in_step.

(** ** Decoding any input *)

Lemma get_total arr i : 0 <= i < Zlen arr -> exists c, get arr i = Ok c.
Proof.
  intros Hi. unfold get. ztrue (0 <=? i). destruct (lookup_lt_is_Some_2 arr (Z.to_nat i)) as [c ->]; [unfold Zlen in *; lia|eauto].
Qed.

Lemma put_total arr i c : 0 <= i < Zlen arr -> exists arr', put arr i c = Ok arr' /\ Zlen arr' = Zlen arr.
Proof.
  intros Hi. unfold put. ztrue (0 <=? i). ztrue (i <? Zlen arr). simpl. eexists. split; [done|].
  unfold Zlen. by rewrite length_insert.
Qed.

Lemma memmove_total arr dst src n :
  0 <= dst -> 0 <= src -> 0 <= n -> dst + n <= Zlen arr -> src + n <= Zlen arr ->
  exists arr', memmove arr dst src n = Ok arr' /\ Zlen arr' = Zlen arr.
Proof.
  intros. unfold memmove. ztrue (0 <=? dst). ztrue (0 <=? src). ztrue (0 <=? n).
  ztrue (dst + n <=? Zlen arr). ztrue (src + n <=? Zlen arr). simpl. eexists. split; [done|].
  unfold Zlen in *. rewrite !length_app, !length_take, !length_drop. lia.
Qed.

Lemma decode_digit_range c : 0 <= decode_digit c <= 36.
Proof.
  unfold decode_digit, base. pose proof (u32_range (c - 65)). pose proof (u32_range (c - 97)).
  assert (u32 (c - 48) < 10 -> u32 (c - 22) = u32 (c - 48) + 26) as Hd.
  { intros Hlt. pose proof (u32_range (c - 48)). unfold u32 in *.
    replace (c - 22) with (c - 48 + 26) by lia. rewrite <- Zplus_mod_idemp_l, Z.mod_small; lia. }
  pose proof (u32_range (c - 48)). ztest.
Qed.

#[local] Opaque decode_digit.

Lemma decode_varint_total input inp i bias :
  0 <= inp < Zlen input -> Zlen input < 2 ^ 32 -> 0 <= i < 2 ^ 32 ->
  wp (decode_varint input inp i bias) (fun r =>
    match r with inl s => s <> punycode_success | inr (inp', i') => inp < inp' <= Zlen input /\ 0 <= i' < 2 ^ 32 end).
Proof.
  intros Hinp Hlen Hi. unfold decode_varint.
  eapply (wp_iterate (fun '(inp', i', w, k) => inp <= inp' <= Zlen input /\ 0 <= i' < 2 ^ 32 /\ 0 < w < 2 ^ 32)
    (fun '(inp', _, _, _) => Z.to_nat (Zlen input - inp'))); [|lia|unfold Zlen in *; lia].
  intros [[[p i'] w] k] (Hp & Hi' & Hw). unfold varint_step. rewrite maxint_eq.
  destruct (Z.leb_spec (Zlen input) p); [done|]. destruct (get_total input p ltac:(lia)) as [c ->]. cbn [bind].
  pose proof (decode_digit_range (u32 c)) as Hd. set (d := decode_digit (u32 c)) in *.
  destruct (base <=? d); [done|]. destruct (Z.ltb_spec ((2 ^ 32 - 1 - i') / w) d) as [|Hdw]; [done|].
  assert (0 <= i' + d * w < 2 ^ 32) as Hsum.
  { pose proof (Z.mul_div_le (2 ^ 32 - 1 - i') w ltac:(lia)).
    assert (d * w <= w * ((2 ^ 32 - 1 - i') / w)) by (rewrite (Z.mul_comm w); apply Z.mul_le_mono_nonneg_r; lia).
    assert (0 <= d * w) by (apply Z.mul_nonneg_nonneg; lia). lia. }
  rewrite (u32_small (p + 1)), (u32_small (i' + d * w)) by lia.
  pose proof (threshold_range k bias) as Ht. unfold base.
  destruct (d <? threshold k bias); [simpl; lia|].
  destruct (Z.ltb_spec ((2 ^ 32 - 1) / (36 - threshold k bias)) w) as [|Hww]; [done|].
  assert (0 < w * (36 - threshold k bias) < 2 ^ 32) as Hprod.
  { pose proof (Z.mul_div_le (2 ^ 32 - 1) (36 - threshold k bias) ltac:(lia)).
    assert (w * (36 - threshold k bias) <= (36 - threshold k bias) * ((2 ^ 32 - 1) / (36 - threshold k bias)))
      by (rewrite (Z.mul_comm w); apply Z.mul_le_mono_nonneg_l; lia).
    assert (0 < w * (36 - threshold k bias)) by (apply Z.mul_pos_pos; lia). lia. }
  rewrite (u32_small (w * _)) by lia. simpl. lia.
Qed.

(** What the main loop of the decoder keeps. *)
Definition decoder_ok (input : list Z) (max_out size : Z) (st : decoder) : Prop :=
  let '(inp, out, i, n, bias, output, case_flags) := st in
  0 <= out <= inp /\ 0 <= out <= max_out /\ 0 <= i <= out /\ 0 <= n < 2 ^ 32 /\ Zlen output = size /\
  match case_flags with Some flags => Zlen flags = size | None => True end.

Lemma decode_step_total input max_out size st :
  Zlen input < 2 ^ 32 -> max_out <= size -> max_out < 2 ^ 32 - 1 -> decoder_ok input max_out size st ->
  wp (decode_step input max_out st) (fun r =>
    match r with
    | inl st' => decoder_ok input max_out size st' /\ st.1.1.1.1.1.1 < st'.1.1.1.1.1.1 <= Zlen input
    | inr (inl s) => s <> punycode_success
    | inr (inr st') => st' = st
    end).
Proof.
  intros Hlen Hsize Hmax. destruct st as [[[[[[inp out] i] n] bias] output] flags].
  intros (Hout & Houtm & Hi & Hn & Houts & Hflags). unfold decode_step.
  destruct (Z.ltb_spec inp (Zlen input)) as [Hinp|]; [|done].
  apply wp_bind. eapply wp_mono; [|apply decode_varint_total; lia].
  intros [s|[inp' i']]; [done|]. intros [Hinp' Hi'].
  destruct (adapt_total (u32 (i' - i)) (u32 (out + 1)) (i =? 0)) as (bias' & -> & _);
    [apply u32_range|rewrite u32_small; lia|]. cbn [bind]. rewrite maxint_eq.
  destruct (Z.ltb_spec (2 ^ 32 - 1 - n) (i' / (out + 1))); [done|].
  destruct (Z.leb_spec max_out out); [done|].
  pose proof (Z.mod_pos_bound i' (out + 1) ltac:(lia)) as Hp. set (p := i' mod (out + 1)) in *.
  assert (0 <= i' / (out + 1)) by (apply Z.div_pos; lia).
  assert (exists flags', match flags with
      | None => Ok None
      | Some flags =>
          let! flags := memmove flags (p + 1) p (out - p) in
          let! c := get input (inp' - 1) in
          let! flags := put flags p (flagged c) in
          Ok (Some flags)
      end = Ok flags' /\ match flags' with Some flags => Zlen flags = size | None => True end) as (flags' & -> & Hflags').
  { destruct flags as [fl|]; [|by exists None].
    destruct (memmove_total fl (p + 1) p (out - p)) as (fl1 & -> & Hf1); [lia..|]. cbn [bind].
    destruct (get_total input (inp' - 1)) as [c ->]; [lia|]. cbn [bind].
    destruct (put_total fl1 p (flagged c)) as (fl2 & -> & Hf2); [lia|]. exists (Some fl2). split; [done|lia]. }
  cbn [bind]. destruct (memmove_total output (p + 1) p (out - p)) as (o1 & -> & Ho1); [lia..|]. cbn [bind].
  destruct (put_total o1 p (u32 (n + i' / (out + 1)))) as (o2 & -> & Ho2); [lia|]. cbn.
  rewrite !u32_small by lia. repeat split; try done; lia.
Qed.

Lemma decode_basics_total input size n : forall j output flags,
  0 <= j -> j + Z.of_nat n <= Zlen input -> j + Z.of_nat n <= size -> Zlen output = size ->
  match flags with Some flags => Zlen flags = size | None => True end ->
  wp (decode_basics n input j j output flags) (fun r =>
    match r with
    | inl s => s <> punycode_success
    | inr (out, output, flags) => out = j + Z.of_nat n /\ Zlen output = size /\
        match flags with Some flags => Zlen flags = size | None => True end
    end).
Proof.
  induction n as [|n IH]; intros j output flags Hj Hin Hs Ho Hf; cbn [decode_basics].
  { simpl. split; [lia|done]. }
  destruct (get_total input j ltac:(lia)) as [c ->]. cbn [bind].
  assert (exists flags', put_opt flags j (flagged c) = Ok flags' /\
    match flags' with Some flags => Zlen flags = size | None => True end) as (flags' & -> & Hf').
  { destruct flags as [fl|]; simpl; [|by exists None].
    destruct (put_total fl j (flagged c)) as (fl' & -> & Hl); [lia|]. exists (Some fl'). split; [done|lia]. }
  cbn [bind]. destruct (basic c); cbn [negb]; [|done].
  destruct (put_total output j (u32 c)) as (o' & -> & Ho'); [lia|]. cbn [bind].
  eapply wp_mono; [|apply IH; [lia..|done]]. intros [s|[[out o] fl]]; [done|]. intros (-> & ? & ?). split; [lia|done].
Qed.

Lemma last_delim_range l : forall j b, 0 <= b <= j -> 0 <= last_delim j b l <= j + Zlen l /\ (l = [] \/ last_delim j b l < j + Zlen l \/ last_delim j b l = b).
Proof.
  induction l as [|c l IH]; intros j b Hb; simpl; [change (Zlen []) with 0; split; [lia|by left]|].
  rewrite Zlen_cons. pose proof (Zlen_nonneg l). destruct (delim c); [destruct (IH (j + 1) j)|destruct (IH (j + 1) b)]; try lia.
  - split; [lia|]. right. left. destruct l as [|d l]; [simpl; lia|]. destruct H1 as [|[|]]; [done|lia|lia].
  - split; [lia|]. right. destruct l as [|d l]; [by right|]. destruct H1 as [|[|]]; [done|left; lia|by right].
Qed.

(** * Properties *)

(** C16: on code points up to [M], for [(M + 1) * (length + 1) * 36 < 2^32] (105 code
    points of Unicode), [punycode_encode] into a buffer of ten chars per code point
    and one more succeeds, and [punycode_decode] of what it wrote, into a buffer for as
    many code points, succeeds with the input. *)
Theorem punycode_roundtrip input M max_out decode_max output decoded :
  Forall (fun c => 0 <= c <= M) input -> (M + 1) * (Zlen input + 1) * 36 < 2 ^ 32 -> 0x80 <= M ->
  10 * Zlen input + 1 <= max_out -> max_out <= Zlen output -> max_out < 2 ^ 32 ->
  Zlen input <= decode_max -> decode_max <= Zlen decoded ->
  exists s free, punycode_encode input None max_out output = Ok (inr (Zlen s, s ++ free)) /\
    exists r, punycode_decode s decode_max decoded None = Ok (inr (Zlen input, input ++ r, None)).
Proof.
  intros Hcodes Hnarrow Hwide Hroom Hsize H32 Hdroom Hdsize.
  destruct (encode_then_decode input M max_out (Zlen output) (Zlen decoded) decode_max) with (output := output) (output2 := decoded)
    as (s & free & Henc & _ & Hdec); try done. eauto.
Qed.

Lemma punycode_roundtrip_witness :
  exists s free, punycode_encode [0x6d; 0xfc; 0x6e; 0x1F600] None 41 (replicate 41 0) = Ok (inr (Zlen s, s ++ free)) /\
    exists r, punycode_decode s 4 (replicate 4 0) None = Ok (inr (4, [0x6d; 0xfc; 0x6e; 0x1F600] ++ r, None)).
Proof.
  apply (punycode_roundtrip [0x6d; 0xfc; 0x6e; 0x1F600] 0x10FFFF 41 4 (replicate 41 0) (replicate 4 0)); decided.
Defined.

(** C32: [punycode_decode] returns on every string, and reads and writes only within
    its arrays: it fails with a status, or succeeds with at most as many code points
    as the buffer was said to hold and as the string has chars. *)
Theorem punycode_decode_safe input max_out output case_flags :
  Zlen input < 2 ^ 32 -> max_out <= Zlen output -> max_out < 2 ^ 32 - 1 ->
  match case_flags with Some flags => Zlen flags = Zlen output | None => True end ->
  exists r, punycode_decode input max_out output case_flags = Ok r /\
    match r with
    | inl s => s <> punycode_success
    | inr (out, output', _) => 0 <= out <= max_out /\ out <= Zlen input /\ Zlen output' = Zlen output
    end.
Proof.
  intros Hlen Hsize Hmax Hflags. apply wp_Ok_iff. unfold punycode_decode.
  destruct (last_delim_range input 0 0 ltac:(lia)) as [Hb Hb']. pose proof (Zlen_nonneg input).
  set (b := last_delim 0 0 input) in *. destruct (Z.ltb_spec max_out b); [done|].
  unfold status_bind at 1. apply wp_bind.
  eapply wp_mono; [|apply (decode_basics_total input (Zlen output)); [lia..|done|done]].
  intros [s|[[out o] fl]]; [done|]. intros (-> & Ho & Hfl). unfold status_bind. apply wp_bind.
  eapply wp_mono; [|eapply (wp_iterate
    (fun st => decoder_ok input max_out (Zlen output) st /\ st.1.1.1.1.1.1 <= Zlen input)
    (fun st => Z.to_nat (Zlen input - st.1.1.1.1.1.1)) (fun r => match r with
      | inl s => s <> punycode_success
      | inr st => decoder_ok input max_out (Zlen output) st /\ st.1.1.1.1.1.1 <= Zlen input
      end))].
  - intros [s|st]; [done|]. destruct st as [[[[[[inp out] i] n] bias] output'] flags'].
    intros [(? & ? & _ & _ & ? & _) Hinp]. simpl in *. lia.
  - intros st [Hok Hinp]. eapply wp_mono; [|by apply (decode_step_total _ _ (Zlen output))].
    intros [st'|[s|st']]; [|done|by intros ->]. intros [Hok' Hstep]. split; [split; [done|lia]|]. lia.
  - unfold decoder_ok. simpl. unfold initial_n.
    destruct (Z.ltb_spec 0 b); split_and!; try done; try lia. 
    destruct Hb' as [->|[|]]; [|lia|lia]. unfold b in *. simpl in *. lia.
  - simpl. unfold Zlen. destruct (0 <? b); lia.
Qed.

Lemma punycode_decode_safe_witness :
  exists r, punycode_decode (str "--9-zz") 8 (replicate 8 0) (Some (replicate 8 0)) = Ok r /\
    match r with
    | inl s => s <> punycode_success
    | inr (out, output', _) => 0 <= out <= 8 /\ out <= 6 /\ Zlen output' = 8
    end.
Proof. apply (punycode_decode_safe (str "--9-zz") 8 (replicate 8 0) (Some (replicate 8 0))); decided. Defined.
