(* ===== verification/UnicodeRange.v ===== *)
(** * Ranges of Unicode chars: core/text/unicode_range.h, unicode_range.cpp and
    unicode_range.tuples *)

From stdpp Require Import base tactics list gmap strings.
From Stdlib Require Import ZArith Lia.
From S2P Require Import Prelude.
#[local] Open Scope Z_scope.

Record unicode_range_info : Type := {
  range_begin : Z;
  range_end : Z;
  range_name : string;
  used_by_langs : string;
}.

#[export] Instance unicode_range_info_eq_dec : EqDecision unicode_range_info.
Proof. solve_decision. Defined.

Definition range_infos : list unicode_range_info := [
  Build_unicode_range_info 0x0020 0x007f "Basic Latin" "";
  Build_unicode_range_info 0x00a0 0x00ff "Latin-1 Supplement" "";
  Build_unicode_range_info 0x0100 0x017f "Latin Extended-A" "";
  Build_unicode_range_info 0x0180 0x024f "Latin Extended-B" "";
  Build_unicode_range_info 0x0250 0x02af "IPA Extensions" "";
  Build_unicode_range_info 0x02b0 0x02ff "Spacing Modifier Letters" "";
  Build_unicode_range_info 0x0300 0x036f "Combining Diacritical Marks" "";
  Build_unicode_range_info 0x0370 0x03ff "Greek and Coptic" "";
  Build_unicode_range_info 0x0400 0x04ff "Cyrillic" "";
  Build_unicode_range_info 0x0500 0x052f "Cyrillic Supplementary" "";
  Build_unicode_range_info 0x0530 0x058f "Armenian" "";
  Build_unicode_range_info 0x0590 0x05ff "Hebrew" "";
  Build_unicode_range_info 0x0600 0x06ff "Arabic" "";
  Build_unicode_range_info 0x0700 0x074f "Syriac" "";
  Build_unicode_range_info 0x0780 0x07bf "Thaana" "";
  Build_unicode_range_info 0x0900 0x097f "Devanagari" "";
  Build_unicode_range_info 0x0980 0x09ff "Bengali" "";
  Build_unicode_range_info 0x0a00 0x0a7f "Gurmukhi" "";
  Build_unicode_range_info 0x0a80 0x0aff "Gujarati" "";
  Build_unicode_range_info 0x0b00 0x0b7f "Oriya" "";
  Build_unicode_range_info 0x0b80 0x0bff "Tamil" "";
  Build_unicode_range_info 0x0c00 0x0c7f "Telugu" "";
  Build_unicode_range_info 0x0c80 0x0cff "Kannada" "";
  Build_unicode_range_info 0x0d00 0x0d7f "Malayalam" "";
  Build_unicode_range_info 0x0d80 0x0dff "Sinhala" "";
  Build_unicode_range_info 0x0e00 0x0e7f "Thai" "";
  Build_unicode_range_info 0x0e80 0x0eff "Lao" "";
  Build_unicode_range_info 0x0f00 0x0fff "Tibetan" "";
  Build_unicode_range_info 0x1000 0x109f "Myanmar" "";
  Build_unicode_range_info 0x10a0 0x10ff "Georgian" "";
  Build_unicode_range_info 0x1100 0x11ff "Hangul Jamo" "";
  Build_unicode_range_info 0x1200 0x137f "Ethiopic" "";
  Build_unicode_range_info 0x13a0 0x13ff "Cherokee" "";
  Build_unicode_range_info 0x1400 0x167f "Unified Canadian Aboriginal Syllabics" "";
  Build_unicode_range_info 0x1680 0x169f "Ogham" "";
  Build_unicode_range_info 0x16a0 0x16ff "Runic" "";
  Build_unicode_range_info 0x1700 0x171f "Tagalog" "";
  Build_unicode_range_info 0x1720 0x173f "Hanunoo" "";
  Build_unicode_range_info 0x1740 0x175f "Buhid" "";
  Build_unicode_range_info 0x1760 0x177f "Tagbanwa" "";
  Build_unicode_range_info 0x1780 0x17ff "Khmer" "";
  Build_unicode_range_info 0x1800 0x18af "Mongolian" "";
  Build_unicode_range_info 0x1900 0x194f "Limbu" "";
  Build_unicode_range_info 0x1950 0x197f "Tai Le" "";
  Build_unicode_range_info 0x19e0 0x19ff "Khmer Symbols" "";
  Build_unicode_range_info 0x1d00 0x1d7f "Phonetic Extensions" "";
  Build_unicode_range_info 0x1e00 0x1eff "Latin Extended Additional" "";
  Build_unicode_range_info 0x1f00 0x1fff "Greek Extended" "";
  Build_unicode_range_info 0x2000 0x206f "General Punctuation" "";
  Build_unicode_range_info 0x2070 0x209f "Superscripts and Subscripts" "";
  Build_unicode_range_info 0x20a0 0x20cf "Currency Symbols" "";
  Build_unicode_range_info 0x20d0 0x20ff "Combining Diacritical Marks for Symbols" "";
  Build_unicode_range_info 0x2100 0x214f "Letterlike Symbols" "";
  Build_unicode_range_info 0x2150 0x218f "Number Forms" "";
  Build_unicode_range_info 0x2190 0x21ff "Arrows" "";
  Build_unicode_range_info 0x2200 0x22ff "Mathematical Operators" "";
  Build_unicode_range_info 0x2300 0x23ff "Miscellaneous Technical" "";
  Build_unicode_range_info 0x2400 0x243f "Control Pictures" "";
  Build_unicode_range_info 0x2440 0x245f "Optical Character Recognition" "";
  Build_unicode_range_info 0x2460 0x24ff "Enclosed Alphanumerics" "";
  Build_unicode_range_info 0x2500 0x257f "Box Drawing" "";
  Build_unicode_range_info 0x2580 0x259f "Block Elements" "";
  Build_unicode_range_info 0x25a0 0x25ff "Geometric Shapes" "";
  Build_unicode_range_info 0x25a0 0x25ff "Geometric Shapes" "";
  Build_unicode_range_info 0x2700 0x27bf "Dingbats" "";
  Build_unicode_range_info 0x27c0 0x27ef "Miscellaneous Mathematical Symbols-A" "";
  Build_unicode_range_info 0x27f0 0x27ff "Supplemental Arrows-A" "";
  Build_unicode_range_info 0x2800 0x28ff "Braille Patterns" "";
  Build_unicode_range_info 0x2900 0x297f "Supplemental Arrows-B" "";
  Build_unicode_range_info 0x2980 0x29ff "Miscellaneous Mathematical Symbols-B" "";
  Build_unicode_range_info 0x2a00 0x2aff "Supplemental Mathematical Operators" "";
  Build_unicode_range_info 0x2b00 0x2bff "Miscellaneous Symbols and Arrows" "";
  Build_unicode_range_info 0x2e80 0x2eff "CJK Radicals Supplement" "";
  Build_unicode_range_info 0x2f00 0x2fdf "Kangxi Radicals" "";
  Build_unicode_range_info 0x2ff0 0x2fff "Ideographic Description Characters" "";
  Build_unicode_range_info 0x3000 0x303f "CJK Symbols and Punctuation" "";
  Build_unicode_range_info 0x3040 0x309f "Hiragana" "";
  Build_unicode_range_info 0x30a0 0x30ff "Katakana" "";
  Build_unicode_range_info 0x3100 0x312f "Bopomofo" "";
  Build_unicode_range_info 0x3130 0x318f "Hangul Compatibility Jamo" "";
  Build_unicode_range_info 0x3190 0x319f "Kanbun" "";
  Build_unicode_range_info 0x31a0 0x31bf "Bopomofo Extended" "";
  Build_unicode_range_info 0x31f0 0x31ff "Katakana Phonetic Extensions" "";
  Build_unicode_range_info 0x3200 0x32ff "Enclosed CJK Letters and Months" "";
  Build_unicode_range_info 0x3300 0x33ff "CJK Compatibility" "";
  Build_unicode_range_info 0x3400 0x4dbf "CJK Unified Ideographs Extension A" "";
  Build_unicode_range_info 0x4dc0 0x4dff "Yijing Hexagram Symbols" "";
  Build_unicode_range_info 0x4e00 0x9fff "CJK Unified Ideographs" "";
  Build_unicode_range_info 0xa000 0xa48f "Yi Syllables" "";
  Build_unicode_range_info 0xa490 0xa4cf "Yi Radicals" "";
  Build_unicode_range_info 0xac00 0xd7af "Hangul Syllables" "";
  Build_unicode_range_info 0xd800 0xdb7f "High Surrogates" "";
  Build_unicode_range_info 0xdb80 0xdbff "High Private Use Surrogates" "";
  Build_unicode_range_info 0xdc00 0xdfff "Low Surrogates" "";
  Build_unicode_range_info 0xe000 0xf8ff "Private Use Area" "";
  Build_unicode_range_info 0xf900 0xfaff "CJK Compatibility Ideographs" "";
  Build_unicode_range_info 0xfb00 0xfb4f "Alphabetic Presentation Forms" "";
  Build_unicode_range_info 0xfb50 0xfdff "Arabic Presentation Forms-A" "";
  Build_unicode_range_info 0xfe00 0xfe0f "Variation Selectors" "";
  Build_unicode_range_info 0xfe20 0xfe2f "Combining Half Marks" "";
  Build_unicode_range_info 0xfe30 0xfe4f "CJK Compatibility Forms" "";
  Build_unicode_range_info 0xfe50 0xfe6f "Small Form Variants" "";
  Build_unicode_range_info 0xfe70 0xfeff "Arabic Presentation Forms-B" "";
  Build_unicode_range_info 0xff00 0xffef "Halfwidth and Fullwidth Forms" "";
  Build_unicode_range_info 0xfff0 0xffff "Specials" "";
  Build_unicode_range_info 0x10000 0x1007f "Linear B Syllabary" "";
  Build_unicode_range_info 0x10080 0x100ff "Linear B Ideograms" "";
  Build_unicode_range_info 0x10100 0x1013f "Aegean Numbers" "";
  Build_unicode_range_info 0x10300 0x1032f "Old Italic" "";
  Build_unicode_range_info 0x10330 0x1034f "Gothic" "";
  Build_unicode_range_info 0x10380 0x1039f "Ugaritic" "";
  Build_unicode_range_info 0x10400 0x1044f "Deseret" "";
  Build_unicode_range_info 0x10450 0x1047f "Shavian" "";
  Build_unicode_range_info 0x10480 0x104af "Osmanya" "";
  Build_unicode_range_info 0x10800 0x1083f "Cypriot Syllabary" "";
  Build_unicode_range_info 0x1d000 0x1d0ff "Byzantine Musical Symbols" "";
  Build_unicode_range_info 0x1d100 0x1d1ff "Musical Symbols" "";
  Build_unicode_range_info 0x1d300 0x1d35f "Tai Xuan Jing Symbols" "";
  Build_unicode_range_info 0x1d400 0x1d7ff "Mathematical Alphanumeric Symbols" "";
  Build_unicode_range_info 0x20000 0x2a6df "CJK Unified Ideographs Extension B" "";
  Build_unicode_range_info 0x2f800 0x2fa1f "CJK Compatibility Ideographs Supplement" "";
  Build_unicode_range_info 0xe0000 0xe007f "Tags" ""
].

(** The search value only has an [end]: the codepoint. *)
Definition range_is_less (a b_end : Z) : bool := a <=? b_end.

Definition get_unicode_range_info (codepoint : Z) : res (option unicode_range_info) :=
  if codepoint <? 0x110000 then
    let! first_not_lower := lower_bound (fun r => range_is_less (range_end r) codepoint) range_infos in
    Ok (match range_infos !! first_not_lower with
        | Some r => if range_begin r <=? codepoint then Some r else None
        | None => None
        end)
  else Ok None.

(** * Specifications *)

(** The ranges follow one another: each begins where the last, [p], ended or
    after, or repeats it, as the table does once. *)
Definition follows (p r : unicode_range_info) : Prop := r = p \/ range_end p <= range_begin r.
#[export] Instance follows_dec p r : Decision (follows p r).
Proof. unfold follows. apply _. Defined.

Fixpoint ascending (p : unicode_range_info) (l : list unicode_range_info) : Prop :=
  match l with
  | [] => True
  | r :: l' => follows p r /\ range_begin r < range_end r /\ ascending r l'
  end.
#[export] Instance ascending_dec p l : Decision (ascending p l).
Proof. revert p. induction l as [|r l IH]; intros p; simpl; apply _. Defined.

Lemma ascending_bounds p l r :
  ascending p l -> r ∈ l -> follows p r /\ range_begin r < range_end r.
Proof.
  revert p. induction l as [|s l IH]; simpl; intros p Hl Hr; [by apply not_elem_of_nil in Hr|].
  destruct Hl as (Hs & He & Hl). apply elem_of_cons in Hr as [->|Hr]; [done|].
  destruct (IH _ Hl Hr) as [[->|Hf] ?]; [done|]. split; [|done]. unfold follows in *.
  destruct Hs as [->|Hs]; [by right|]. right. lia.
Qed.

(** Of two ranges of an ascending list, the later follows the earlier. *)
Lemma ascending_lookup p l i j r s :
  ascending p l -> l !! i = Some r -> l !! j = Some s -> (i <= j)%nat -> follows r s.
Proof.
  revert p i j. induction l as [|t l IH]; intros p i j Hl Hi Hj Hij; [done|].
  destruct Hl as (_ & _ & Hl). destruct i as [|i], j as [|j]; simpl in *; try lia.
  - left. by simplify_eq.
  - simplify_eq. eapply ascending_bounds; [done|by eapply list_elem_of_lookup_2].
  - eapply IH; eauto with lia.
Qed.

(** The search in any such table. *)
Lemma ascending_search d l cp : ascending d l ->
  exists k, lower_bound (fun r => range_is_less (range_end r) cp) l = Ok k /\
    forall s, match l !! k with
              | Some r => if range_begin r <=? cp then Some r else None
              | None => None
              end = Some s <-> s ∈ l /\ range_begin s <= cp < range_end s.
Proof.
  intros Hasc. destruct (lower_bound_spec (fun r => range_is_less (range_end r) cp) l) as (k & -> & Hk & Hbelow).
  { intros i j x y Hij Hi Hj. unfold range_is_less.
    pose proof (ascending_lookup _ _ i j _ _ Hasc Hi Hj Hij) as [->|Hf]; [done|].
    apply list_elem_of_lookup_2 in Hj. pose proof (ascending_bounds _ _ _ Hasc Hj). ztest. }
  exists k. split; [done|]. intros s. unfold range_is_less in Hbelow. split.
  - destruct (l !! k) as [r|] eqn:Er; [|done]. destruct (Z.leb_spec (range_begin r) cp); [|done]. intros [= <-].
    split; [by eapply list_elem_of_lookup_2|]. split; [done|].
    specialize (Hbelow k r Er). destruct (Z.leb_spec (range_end r) cp); [|done].
    assert (k < k)%nat by (by apply Hbelow). lia.
  - intros [[i Hi]%list_elem_of_lookup_1 Hs]. pose proof (Hbelow i s Hi) as Hbi. rewrite Z.leb_le in Hbi.
    assert (k <= i)%nat as Hki by (apply Nat.nlt_ge; intros Hlt; apply Hbi in Hlt; lia).
    destruct (lookup_lt_is_Some_2 l k) as [r Er]; [apply lookup_lt_Some in Hi; lia|].
    specialize (Hbelow k r Er). rewrite Z.leb_le in Hbelow. rewrite Er.
    destruct (ascending_lookup _ _ k i _ _ Hasc Er Hi Hki) as [->|Hf]; [by ztrue (range_begin r <=? cp)|].
    assert (k < k)%nat by (apply Hbelow; lia). lia.
Qed.

Lemma range_infos_ascending : ascending (Build_unicode_range_info 0 0 "" "") range_infos.
Proof. decided. Qed.

(** * Properties *)

(** for every 32-bit codepoint the lookup returns, and it returns the range of the
    table with [begin <= codepoint < end].  The table writes the last codepoint of a
    range as its [end], so no range is found for its own last codepoint. *)
Theorem range_lookup cp :
  0 <= cp < 2 ^ 32 ->
  exists r, get_unicode_range_info cp = Ok r /\
    (forall s, r = Some s <-> s ∈ range_infos /\ range_begin s <= cp < range_end s) /\
    (forall s, s ∈ range_infos -> cp = range_end s -> r <> Some s).
Proof.
  intros Hcp.
  assert (exists r, get_unicode_range_info cp = Ok r /\
    (forall s, r = Some s <-> s ∈ range_infos /\ range_begin s <= cp < range_end s)) as (r & Hr & Hiff).
  2: { exists r. split; [done|]. split; [done|]. intros s Hs -> E. apply Hiff in E. lia. }
  unfold get_unicode_range_info. destruct (Z.ltb_spec cp 0x110000) as [Hlt|Hge].
  - destruct (ascending_search _ _ cp range_infos_ascending) as (k & -> & Hk). eexists. split; [reflexivity|exact Hk].
  - eexists. split; [done|]. intros s. split; [done|]. intros [Hs Hb].
    assert (forall s, s ∈ range_infos -> range_end s <= 0x110000) as Hmax
      by (apply Forall_forall; decided).
    specialize (Hmax s Hs). lia.
Qed.

Lemma range_lookup_witness :
  exists r, get_unicode_range_info 0x7F = Ok r /\
    (forall s, r = Some s <-> s ∈ range_infos /\ range_begin s <= 0x7F < range_end s) /\
    (forall s, s ∈ range_infos -> 0x7F = range_end s -> r <> Some s).
Proof. apply (range_lookup 0x7F). lia. Defined.
