(* ===== verification/HttpMethod.v ===== *)
(** * HTTP methods: core/net/http_method.h, http_method.cpp and http_method.tuples

    The table of known methods and its lookups by index, by id and by name. *)

From stdpp Require Import base tactics list gmap strings.
From Stdlib Require Import ZArith Lia.
From S2P Require Import Prelude CString.
#[local] Open Scope Z_scope.

Inductive http_method_id : Type :=
| http_get | http_put | http_post | http_options | http_head | http_delete
| http_trace | http_connect | http_link | http_unlink | http_patch
| webdav_propfind | webdav_proppatch | webdav_mkcol | webdav_copy | webdav_move
| webdav_lock | webdav_unlock.

#[export] Instance http_method_id_eq_dec : EqDecision http_method_id.
Proof. solve_decision. Defined.

Record http_method : Type := {
  id : http_method_id;
  id_str : string;
  verb : string;
  first_rfc : Z;
  last_rfc : Z;
}.

#[export] Instance http_method_eq_dec : EqDecision http_method.
Proof. solve_decision. Defined.

Definition known_methods : list http_method := [
  Build_http_method http_get "http_get" "GET" 1945 0;
  Build_http_method http_put "http_put" "PUT" 1945 0;
  Build_http_method http_post "http_post" "POST" 1945 0;
  Build_http_method http_options "http_options" "OPTIONS" 1945 0;
  Build_http_method http_head "http_head" "HEAD" 1945 0;
  Build_http_method http_delete "http_delete" "DELETE" 1945 0;
  Build_http_method http_trace "http_trace" "TRACE" 2616 0;
  Build_http_method http_connect "http_connect" "CONNECT" 2616 0;
  Build_http_method http_link "http_link" "LINK" 1945 0;
  Build_http_method http_unlink "http_unlink" "UNLINK" 1945 0;
  Build_http_method http_patch "http_patch" "PATCH" 5789 0;
  Build_http_method webdav_propfind "webdav_propfind" "PROPFIND" 2518 0;
  Build_http_method webdav_proppatch "webdav_proppatch" "PROPPATCH" 2518 0;
  Build_http_method webdav_mkcol "webdav_mkcol" "MKCOL" 2518 0;
  Build_http_method webdav_copy "webdav_copy" "COPY" 2518 0;
  Build_http_method webdav_move "webdav_move" "MOVE" 2518 0;
  Build_http_method webdav_lock "webdav_lock" "LOCK" 2518 0;
  Build_http_method webdav_unlock "webdav_unlock" "UNLOCK" 2518 0
].

Definition known_method_count : Z := Zlen known_methods.
Definition get_http_method_count : Z := known_method_count.

(** A pointer into the table is the method it points to; [None] is nullptr. *)
Definition get_http_method_by_index (i : Z) : option http_method :=
  if i <? known_method_count then known_methods !! Z.to_nat i else None.

(** The value of an enumerator is its position. *)
Definition method_number (i : http_method_id) : Z :=
  match i with
  | http_get => 0 | http_put => 1 | http_post => 2 | http_options => 3
  | http_head => 4 | http_delete => 5 | http_trace => 6 | http_connect => 7
  | http_link => 8 | http_unlink => 9 | http_patch => 10 | webdav_propfind => 11
  | webdav_proppatch => 12 | webdav_mkcol => 13 | webdav_copy => 14
  | webdav_move => 15 | webdav_lock => 16 | webdav_unlock => 17
  end.

Definition get_http_method_by_id (i : http_method_id) : option http_method :=
  get_http_method_by_index (method_number i).

(** ** The C library *)

(** [strncpy(buf, src, n)]: the [n] chars it writes to [buf]. *)
Fixpoint strncpy (m : mem) (src : Z) (n : nat) : res (list Z) :=
  match n with
  | O => Ok []
  | S n' =>
      let! c := load m src in
      if c =? 0 then Ok (replicate n 0)
      else let! l := strncpy m (src + 1) n' in Ok (c :: l)
  end.

(** [strncmp(p, lit, strlen(lit)) == 0] and [strcmp(p, lit) == 0], for a literal
    [lit]. *)
Fixpoint starts_with (m : mem) (p : Z) (lit : list Z) : res bool :=
  match lit with
  | [] => Ok true
  | d :: lit' =>
      let! c := load m p in
      if c =? d then starts_with m (p + 1) lit' else Ok false
  end.
Fixpoint equals_literal (m : mem) (p : Z) (lit : list Z) : res bool :=
  match lit with
  | [] => let! c := load m p in Ok (c =? 0)
  | d :: lit' =>
      let! c := load m p in
      if c =? d then equals_literal m (p + 1) lit' else Ok false
  end.

(** ** Lookup by name *)

(** The macro [test(verb, prefix)]: compares all but the first char; [otherwise]
    is the code after it. *)
Definition test (m : mem) (name : Z) (verb : string) (i : http_method_id)
    (otherwise : res (option http_method)) : res (option http_method) :=
  let! same := equals_literal m (name + 1) (tail (str verb)) in
  if same then Ok (get_http_method_by_id i) else otherwise.

(** The macro [try_to_match(ch, verb, prefix)]. *)
Definition try_to_match (m : mem) (name ch : Z) (verb : string) (i : http_method_id)
    (otherwise : res (option http_method)) : res (option http_method) :=
  let! c := load m name in
  if c =? ch then
    let! same := equals_literal m (name + 1) (tail (str verb)) in
    Ok (if same then get_http_method_by_id i else None)
  else otherwise.

(** The [if] on the first char [ch] of the name, whose [body] returns. *)
Definition on_char (m : mem) (name ch : Z) (body otherwise : res (option http_method)) :
    res (option http_method) :=
  let! c := load m name in if c =? ch then body else otherwise.

Definition match_name (m : mem) (name : Z) : res (option http_method) :=
  try_to_match m name "g"%ch "get" http_get
  (on_char m name "p"%ch
    (test m name "post" http_post
    (test m name "put" http_put
    (test m name "patch" http_patch
    (test m name "propfind" webdav_propfind
    (test m name "proppatch" webdav_proppatch
    (Ok None))))))
  (try_to_match m name "o"%ch "options" http_options
  (try_to_match m name "h"%ch "head" http_head
  (try_to_match m name "d"%ch "delete" http_delete
  (try_to_match m name "t"%ch "trace" http_trace
  (on_char m name "c"%ch
    (test m name "connect" http_connect
    (test m name "copy" webdav_copy
    (Ok None)))
  (on_char m name "l"%ch
    (test m name "link" http_link
    (test m name "lock" webdav_lock
    (Ok None)))
  (on_char m name "u"%ch
    (test m name "unlink" http_unlink
    (test m name "unlock" webdav_unlock
    (Ok None)))
  (on_char m name "m"%ch
    (test m name "move" webdav_move
    (test m name "mkcol" webdav_mkcol
    (Ok None)))
  (Ok None)))))))))).

(** The local buffer [normalized] lives in a memory of its own, at address 1. *)
Definition normalized_size : nat := 20.
Definition get_http_method_by_name (m : mem) (name : Z) : res (option http_method) :=
  let! nothing := is_null_or_empty m name in
  if nothing then Ok None
  else
    let last := (normalized_size - 1)%nat in
    let! copied := strncpy m name last in
    let! (m, name) := ascii_to_lower_case_cstr (map_seqZ 1 (copied ++ [0])) 1 in
    let! http := starts_with m name (str "http_") in
    let! name :=
      if http then Ok (name + 5)
      else let! webdav := starts_with m name (str "webdav_") in
           Ok (if webdav then name + 7 else name) in
    match_name m name.

(** * Specifications *)

(** The verb a name stands for: lower case, without the prefix of an
    identifier. *)
Definition strip_prefix (pre l : list Z) : option (list Z) :=
  if decide (take (length pre) l = pre) then Some (drop (length pre) l) else None.
Definition bare_name (l : list Z) : list Z :=
  let l := map ascii_to_lower_case l in
  match strip_prefix (str "http_") l with
  | Some l => l
  | None => default l (strip_prefix (str "webdav_") l)
  end.
Definition has_verb (l : list Z) (h : http_method) : Prop :=
  l = map ascii_to_lower_case (str (verb h)).
#[export] Instance has_verb_dec l h : Decision (has_verb l h).
Proof. unfold has_verb. apply _. Defined.

Definition method_named (l : list Z) : option http_method :=
  snd <$> list_find (has_verb l) known_methods.

(** [match_name] as a function of the chars it reads: each [test] compares a
    tail, after the first char has been compared. *)
Definition tail_is (l : list Z) (verb : string) (i : http_method_id)
    (otherwise : option http_method) : option http_method :=
  if decide (tail l = tail (str verb)) then get_http_method_by_id i else otherwise.

Lemma equals_literal_spec m p l lit :
  holds m p (l ++ [0]) -> no_nul l -> 0 ∉ lit ->
  equals_literal m p lit = Ok (bool_decide (l = lit)).
Proof.
  revert p l. induction lit as [|d lit IH]; intros p l Hm Hl Hlit; destruct l as [|c l];
    destruct Hm as [Hc Hm]; simpl; rewrite (load_Some _ _ _ Hc); simpl.
  - done.
  - apply no_nul_cons in Hl as [Hc0 _]. by zfalse (c =? 0).
  - apply not_elem_of_cons in Hlit as [Hd _]. by zfalse (0 =? d).
  - apply no_nul_cons in Hl as [_ Hl]. apply not_elem_of_cons in Hlit as [_ Hlit].
    destruct (Z.eqb_spec c d) as [->|Hne].
    + rewrite IH with (l := l) by done. f_equal. apply bool_decide_ext. naive_solver.
    + rewrite bool_decide_eq_false_2; [done|naive_solver].
Qed.

Lemma starts_with_spec m p l lit :
  holds m p (l ++ [0]) -> 0 ∉ lit ->
  starts_with m p lit = Ok (bool_decide (take (length lit) l = lit)).
Proof.
  revert p l. induction lit as [|d lit IH]; intros p l Hm Hlit; [done|].
  apply not_elem_of_cons in Hlit as [Hd Hlit].
  destruct l as [|c l]; destruct Hm as [Hc Hm]; simpl; rewrite (load_Some _ _ _ Hc); simpl.
  - by zfalse (0 =? d).
  - destruct (Z.eqb_spec c d) as [->|Hne].
    + rewrite IH with (l := l) by done. f_equal. apply bool_decide_ext. split; [intros ?; by f_equal|by intros [=]].
    + rewrite bool_decide_eq_false_2; [done|naive_solver].
Qed.

Lemma test_spec m p l v i k otherwise :
  holds m p (l ++ [0]) -> no_nul l -> 0 ∉ tail (str v) -> l <> [] ->
  otherwise = Ok k -> test m p v i otherwise = Ok (tail_is l v i k).
Proof.
  intros Hm Hl Hv Hne ->. destruct l as [|c l]; [done|]. destruct Hm as [_ Hm].
  apply no_nul_cons in Hl as [_ Hl]. unfold test, tail_is.
  rewrite (equals_literal_spec _ _ l) by done. simpl.
  case_bool_decide; case_decide; naive_solver.
Qed.

Lemma try_to_match_spec m p l ch v i k otherwise :
  holds m p (l ++ [0]) -> no_nul l -> ch <> 0 -> 0 ∉ tail (str v) ->
  otherwise = Ok k ->
  try_to_match m p ch v i otherwise = Ok (if decide (head l = Some ch) then tail_is l v i None else k).
Proof.
  intros Hm Hl Hch Hv ->. unfold try_to_match. destruct l as [|c l]; destruct Hm as [Hc Hm];
    rewrite (load_Some _ _ _ Hc); cbn [bind app].
  - by zfalse (0 =? ch).
  - apply no_nul_cons in Hl as [_ Hl]. simpl. destruct (Z.eqb_spec c ch) as [->|Hne].
    + rewrite decide_True by done. rewrite (equals_literal_spec _ _ l) by done. unfold tail_is. simpl.
      case_bool_decide; case_decide; naive_solver.
    + rewrite decide_False; [done|]. by intros [=].
Qed.

Lemma on_char_spec m p l ch body otherwise k k' :
  holds m p (l ++ [0]) -> ch <> 0 ->
  (head l = Some ch -> body = Ok k) -> otherwise = Ok k' ->
  on_char m p ch body otherwise = Ok (if decide (head l = Some ch) then k else k').
Proof.
  intros Hm Hch Hbody ->. unfold on_char. destruct l as [|c l]; destruct Hm as [Hc Hm];
    rewrite (load_Some _ _ _ Hc); cbn [bind app].
  - by zfalse (0 =? ch).
  - simpl. destruct (Z.eqb_spec c ch) as [->|Hne].
    + by rewrite decide_True, Hbody by done.
    + rewrite decide_False; [done|]. by intros [=].
Qed.

Lemma head_nonempty (l : list Z) c : head l = Some c -> l <> [].
Proof. by destruct l. Qed.

(** The names the table's verbs are written as in lower case. *)
Definition bare_verbs : list (list Z) := (fun h => map ascii_to_lower_case (str (verb h))) <$> known_methods.

Lemma method_named_unknown l : l ∉ bare_verbs -> method_named l = None.
Proof.
  intros Hl. unfold method_named. destruct (list_find _ _) as [[i h]|] eqn:E; [|done].
  exfalso. apply list_find_Some in E as (Hi & Hv & _). apply Hl. rewrite Hv.
  unfold bare_verbs. apply list_elem_of_fmap. exists h. split; [done|]. by eapply list_elem_of_lookup_2.
Qed.

Ltac lookup_chain :=
  first
  [ eapply try_to_match_spec; [eassumption..|discriminate|decided|]
  | eapply on_char_spec; [eassumption|discriminate|intros ?%head_nonempty|]
  | eapply test_spec; [eassumption|eassumption|decided|eassumption|]
  | reflexivity ].

(** The cascade of comparisons finds the method whose verb the name is. *)
Lemma match_name_spec m p l :
  holds m p (l ++ [0]) -> no_nul l -> match_name m p = Ok (method_named l).
Proof.
  intros Hm Hl. unfold match_name. etransitivity; [repeat lookup_chain|]. f_equal.
  destruct (decide (l ∈ bare_verbs)) as [Hin|Hout].
  - vm_compute in Hin. repeat (apply elem_of_cons in Hin as [->|Hin]; [vm_compute; reflexivity|]).
    by apply not_elem_of_nil in Hin.
  - rewrite method_named_unknown by done. unfold tail_is.
    destruct l as [|c l]; [done|]. simpl.
    repeat case_decide; try done; exfalso; apply Hout; simplify_eq/=; decided.
Qed.

Lemma strncpy_spec m a l n :
  holds m a (l ++ [0]) -> no_nul l ->
  strncpy m a n = Ok (take n l ++ replicate (n - length l) 0).
Proof.
  revert a l. induction n as [|n IH]; intros a l Hm Hl; [done|].
  destruct l as [|c l]; destruct Hm as [Hc Hm]; simpl; rewrite (load_Some _ _ _ Hc); simpl; [done|].
  apply no_nul_cons in Hl as [Hc0 Hl]. zfalse (c =? 0). by rewrite (IH _ l) by done.
Qed.

(** The buffer holds the first 19 chars of the name as a C string. *)
Lemma normalized_copy m a l :
  holds_cstr m a l ->
  exists k, strncpy m a 19 = Ok (take 19 l ++ replicate k 0) /\
    holds_cstr (map_seqZ 1 ((take 19 l ++ replicate k 0) ++ [0])) 1 (take 19 l).
Proof.
  intros (Ha & Hm & Hl). exists (19 - length l)%nat. split; [by apply strncpy_spec|].
  split; [done|]. split.
  - match goal with |- holds (map_seqZ 1 ?b) _ _ => pose proof (holds_map_seqZ 1 b) as Hh end.
    rewrite <- app_assoc, holds_app in Hh. rewrite <- app_assoc.
    apply holds_app. split; [apply Hh|]. destruct Hh as [_ Hh]. revert Hh.
    destruct (19 - length l)%nat; simpl; naive_solver.
  - intros Hin. apply Hl. rewrite <- (take_drop 19 l). apply elem_of_app. by left.
Qed.

Lemma holds_cstr_drop m a l k :
  holds_cstr m a l -> (k <= length l)%nat ->
  holds m (a + Z.of_nat k) (drop k l ++ [0]) /\ no_nul (drop k l).
Proof.
  intros (_ & Hm & Hl) Hk. rewrite <- (take_drop k l) in Hm, Hl. split.
  - rewrite <- app_assoc, holds_app in Hm. destruct Hm as [_ Hm].
    unfold Zlen in Hm. rewrite length_take in Hm. by replace (Nat.min k (length l)) with k in Hm by lia.
  - intros Hin. apply Hl, elem_of_app. by right.
Qed.

Lemma strip_prefix_length pre l l' :
  strip_prefix pre l = Some l' -> (length pre <= length l)%nat /\ l' = drop (length pre) l.
Proof.
  unfold strip_prefix. case_decide as Hp; [|done]. intros [= <-]. split; [|done].
  apply (f_equal length) in Hp. rewrite length_take in Hp. lia.
Qed.

(** No verb is as long as what the buffer cuts off. *)
Lemma bare_name_long l : (19 <= length l)%nat -> method_named (bare_name l) = None.
Proof.
  intros Hl. apply method_named_unknown. intros Hin.
  assert (length (bare_name l) <= 9)%nat as Hshort.
  { assert (Forall (fun v => length v <= 9)%nat bare_verbs) as Hall by decided.
    by apply (proj1 (Forall_forall _ _) Hall). }
  revert Hshort. unfold bare_name. set (k := map ascii_to_lower_case l).
  assert (length k = length l) as Hk by apply length_map.
  destruct (strip_prefix (str "http_") k) as [l'|] eqn:E1;
    [|destruct (strip_prefix (str "webdav_") k) as [l'|] eqn:E2]; simpl; [| |lia];
    match goal with H : _ = Some _ |- _ => apply strip_prefix_length in H as [_ ->] end;
    rewrite length_drop; simpl; lia.
Qed.

Lemma bare_name_take l : method_named (bare_name (take 19 l)) = method_named (bare_name l).
Proof.
  destruct (Nat.le_gt_cases 19 (length l)) as [Hl|Hl].
  - rewrite !bare_name_long; [done|done|]. rewrite length_take. lia.
  - by rewrite take_ge by lia.
Qed.

(** The name is looked up without its prefix, whatever its case. *)
Lemma by_name_spec m a l :
  holds_cstr m a l -> Forall is_char l ->
  get_http_method_by_name m a = Ok (method_named (bare_name l)).
Proof.
  intros Hm Hc. unfold get_http_method_by_name, is_null_or_empty.
  pose proof Hm as (Ha & Hh & Hl). zfalse (a =? 0).
  destruct l as [|c l]; destruct Hh as [Hc0 Hh]; rewrite (load_Some _ _ _ Hc0); cbn [bind]; [done|].
  apply no_nul_cons in Hl as [Hne _]. zfalse (c =? 0).
  change (normalized_size - 1)%nat with 19%nat. rewrite <- bare_name_take.
  destruct (normalized_copy m a _ Hm) as (k & -> & Hn). cbn [bind].
  set (lt := take 19 (c :: l)) in *.
  assert (Forall is_char lt) as Hlt by by apply Forall_take.
  destruct (fold_case_cstr_spec ascii_to_lower_case _ 1 _ Hn) as (m' & Hf & Hup).
  unfold ascii_to_lower_case_cstr. rewrite Hf. cbn [bind]. clear Hf.
  eapply updates_cstr in Hup; [|done|by rewrite length_map|apply lower_no_nul; [done|by apply Hn]].
  unfold bare_name. set (low := map ascii_to_lower_case lt) in *. clearbody low. clear -Hup.
  pose proof Hup as (_ & Hm & Hl).
  rewrite !(starts_with_spec m' 1 low) by (done || decided). cbn [bind]. unfold strip_prefix.
  pose proof (holds_cstr_drop m' 1 low) as Hdrop.
  assert (forall pre, take (length pre) low = pre -> (length pre <= length low)%nat) as Hpre.
  { intros pre Hp%(f_equal length). by rewrite length_take, Nat.min_l_iff in Hp. }
  repeat case_decide; rewrite ?bool_decide_eq_true_2, ?bool_decide_eq_false_2 by done; cbn [bind default];
    apply match_name_spec; try done.
  1-4: by apply (Hdrop 5%nat); [|apply (Hpre (str "http_"))].
  all: by apply (Hdrop 7%nat); [|apply (Hpre (str "webdav_"))].
Qed.

(** * Properties *)

Definition lower_case (s : string) : list Z := map ascii_to_lower_case (str s).

(** C38: [get_http_method_by_name] on any C string returns, and returns the method
    whose verb the string is up to case once an identifier's prefix has been taken
    off, if there is one.  Every method of the table is found by its id, its verb in
    any case, and its identifier. *)
Theorem http_method_lookup m a l :
  holds_cstr m a l -> Forall is_char l ->
  exists r, get_http_method_by_name m a = Ok r /\
    (forall h, r = Some h <-> h ∈ known_methods /\ bare_name l = lower_case (verb h)) /\
    (forall h, h ∈ known_methods ->
       get_http_method_by_id (id h) = Some h /\
       (map ascii_to_lower_case l = lower_case (verb h) \/
        map ascii_to_lower_case l = str (id_str h) -> r = Some h)).
Proof.
  intros Hm Hc. exists (method_named (bare_name l)). split; [by apply by_name_spec|].
  assert (forall h, method_named (bare_name l) = Some h <->
    h ∈ known_methods /\ bare_name l = lower_case (verb h)) as Hiff.
  { intros h. split.
    - unfold method_named. destruct (list_find _ _) as [[i h']|] eqn:E; [|done].
      intros [= <-]. apply list_find_Some in E as (Hi & Hv & _).
      split; [by eapply list_elem_of_lookup_2|done].
    - intros [Hin ->]. revert h Hin. apply Forall_forall. decided. }
  split; [done|]. intros h Hin. split; [|intros Hl; apply Hiff; split; [done|]; revert Hl].
  - revert h Hin. apply Forall_forall. decided.
  - unfold bare_name. intros [-> | ->]; revert h Hin; apply Forall_forall; decided.
Qed.

Lemma http_method_lookup_witness :
  holds_cstr (cstr_at 64 "webdav_propFind") 64 (str "webdav_propFind") /\
  exists r, get_http_method_by_name (cstr_at 64 "webdav_propFind") 64 = Ok r /\
    (forall h, r = Some h <-> h ∈ known_methods /\ bare_name (str "webdav_propFind") = lower_case (verb h)) /\
    (forall h, h ∈ known_methods ->
       get_http_method_by_id (id h) = Some h /\
       (map ascii_to_lower_case (str "webdav_propFind") = lower_case (verb h) \/
        map ascii_to_lower_case (str "webdav_propFind") = str (id_str h) -> r = Some h)).
Proof.
  assert (holds_cstr (cstr_at 64 "webdav_propFind") 64 (str "webdav_propFind")) as H.
  { unfold holds_cstr, no_nul. decided. }
  split; [exact H|]. apply (http_method_lookup _ _ _ H). decided.
Defined.
