(* ===== verification/Headers.v ===== *)
(** * Header collections: core/net/headers.h and headers.cpp

    A [headers] object is a pointer to a shared, reference-counted [impl_t],
    which maps names to values and may point to the [impl_t] of another
    collection that provides defaults.  The impls live in a [heap]; the names
    and values the caller passes are views into a [mem]. *)

From stdpp Require Import base tactics list gmap strings.
From Stdlib Require Import ZArith Lia.
From S2P Require Import Prelude CString StrView StdString.
#[local] Open Scope Z_scope.

(** ** The map of an impl *)

(** What [compare_str_ascii_case_insensitive] returns for the two strings is
    [ci_cmp]. *)
Definition header_is_less (a b : list Z) : bool := ci_cmp (c_str a) (c_str b) <? 0.

(** [std::map<string, string, header_is_less_func>]: the entries in the order of
    an iteration.  [find] stops at the first entry that is not less than the
    key; assigning to [map[key]] replaces the value there, or inserts. *)
Abbreviation headers_map := (list (list Z * list Z)).

Fixpoint map_find (mp : headers_map) (key : list Z) : option (list Z) :=
  match mp with
  | [] => None
  | (k, v) :: mp' =>
      if header_is_less k key then map_find mp' key
      else if header_is_less key k then None else Some v
  end.

Fixpoint map_assign (mp : headers_map) (key v : list Z) : headers_map :=
  match mp with
  | [] => [(key, v)]
  | (k, w) :: mp' =>
      if header_is_less k key then (k, w) :: map_assign mp' key v
      else if header_is_less key k then (key, v) :: (k, w) :: mp' else (k, v) :: mp'
  end.

(** ** Impls *)

Record impl_t : Type := {
  ref_count : Z;
  header_map : headers_map;
  defaults : Z;
}.

(** The live impls by address, and the next address [new] returns. *)
Record heap : Type := {
  cells : gmap Z impl_t;
  brk : Z;
}.

Definition impl_at (h : heap) (p : Z) : res impl_t :=
  match cells h !! p with Some x => Ok x | None => Undef end.
Definition update (h : heap) (p : Z) (x : impl_t) : heap :=
  {| cells := <[p := x]> (cells h); brk := brk h |}.
Definition dealloc (h : heap) (p : Z) : heap := {| cells := delete p (cells h); brk := brk h |}.

Definition impl_t_new (h : heap) : heap * Z :=
  ({| cells := <[brk h := {| ref_count := 1; header_map := []; defaults := 0 |}]> (cells h);
      brk := brk h + 1 |}, brk h).

Definition with_refs (x : impl_t) (n : Z) : impl_t :=
  {| ref_count := n; header_map := header_map x; defaults := defaults x |}.
Definition with_map (x : impl_t) (mp : headers_map) : impl_t :=
  {| ref_count := ref_count x; header_map := mp; defaults := defaults x |}.
Definition with_defaults (x : impl_t) (d : Z) : impl_t :=
  {| ref_count := ref_count x; header_map := header_map x; defaults := d |}.

Definition add_ref (h : heap) (p : Z) : res heap :=
  let! x := impl_at h p in Ok (update h p (with_refs x (u32 (ref_count x + 1)))).

(** [release_ref], with the destructor [delete] runs. *)
Fixpoint release_ref (fuel : nat) (h : heap) (p : Z) : res heap :=
  match fuel with
  | O => Spin
  | S fuel =>
      let! x := impl_at h p in
      let h := update h p (with_refs x (u32 (ref_count x - 1))) in
      if ref_count x =? 1 then
        let! h := if negb (defaults x =? 0) then release_ref fuel h (defaults x) else Ok h in
        Ok (dealloc h p)
      else Ok h
  end.

Fixpoint impl_get (fuel : nat) (h : heap) (p : Z) (header : list Z) : res (option (list Z)) :=
  match fuel with
  | O => Spin
  | S fuel =>
      let! x := impl_at h p in
      match map_find (header_map x) header with
      | Some v => Ok (Some v)
      | None =>
          if negb (defaults x =? 0) then impl_get fuel h (defaults x) header else Ok None
      end
  end.

Inductive header_status : Type := missing | explicitly_defined | inherited.

Fixpoint impl_contains (fuel : nat) (h : heap) (p : Z) (header : list Z) : res header_status :=
  match fuel with
  | O => Spin
  | S fuel =>
      let! x := impl_at h p in
      match map_find (header_map x) header with
      | Some _ => Ok explicitly_defined
      | None =>
          if negb (defaults x =? 0) then
            let! s := impl_contains fuel h (defaults x) header in
            Ok (match s with missing => missing | _ => inherited end)
          else Ok missing
      end
  end.

Fixpoint is_ancestor (fuel : nat) (h : heap) (this x : Z) : res bool :=
  match fuel with
  | O => Spin
  | S fuel =>
      let! t := impl_at h this in
      if (x =? this) || (x =? defaults t) then Ok true
      else if negb (defaults t =? 0) then is_ancestor fuel h (defaults t) x else Ok false
  end.

(** The fuel of a walk along the defaults: a chain of distinct impls. *)
Definition walk_fuel (h : heap) : nat := S (size (cells h)).

Definition is_masked (h : heap) (this : Z) (header : list Z) (before : Z) : res bool :=
  iterate (walk_fuel h) (fun x =>
    if negb (x =? 0) && negb (x =? before) then
      let! t := impl_at h x in
      match map_find (header_map t) header with
      | Some _ => Ok (inr true)
      | None => Ok (inl (defaults t))
      end
    else Ok (inr false)) this.

Definition get_ancestor_after (h : heap) (this after : Z) : res Z :=
  iterate (walk_fuel h) (fun x =>
    if negb (x =? 0) then
      let! t := impl_at h x in
      if defaults t =? after then Ok (inr x) else Ok (inl (defaults t))
    else Ok (inr 0)) this.

(** ** Collections

    A collection is the value of its [impl] member; an operation that assigns to
    a collection returns the new value. *)

Definition headers_new (h : heap) : heap * Z := impl_t_new h.

(** [headers & operator =(headers const & other)]. *)
Definition copy_assign (h : heap) (impl other : Z) : res (heap * Z) :=
  let! _ := precondition (negb (other =? 0)) "other.impl != nullptr" in
  let! above := if impl =? 0 then Ok false else is_ancestor (walk_fuel h) h impl other in
  let! _ := precondition (negb above) "impl == nullptr || !impl->is_ancestor(other.impl)" in
  let! h := if negb (impl =? 0) then release_ref (walk_fuel h) h impl else Ok h in
  let! h := add_ref h other in
  Ok (h, other).

(** [headers & operator =(headers && other)]: also returns the new value of
    [other]. *)
Definition move_assign (h : heap) (impl other : Z) : res (heap * Z * Z) :=
  let! _ := precondition (negb (other =? 0)) "other.impl != nullptr" in
  let! above := if impl =? 0 then Ok false else is_ancestor (walk_fuel h) h impl other in
  let! _ := precondition (negb above) "impl == nullptr || !impl->is_ancestor(other.impl)" in
  let! h := if negb (impl =? 0) then release_ref (walk_fuel h) h impl else Ok h in
  Ok (h, other, 0).

(** Both the copy and the move constructor start from null and assign the lvalue
    [other], which copies. *)
Definition headers_copy (h : heap) (other : Z) : res (heap * Z) := copy_assign h 0 other.

Definition headers_destroy (h : heap) (impl : Z) : res heap := release_ref (walk_fuel h) h impl.

(** The argument is passed by value: a copy, destroyed on return. *)
Definition get_defaults_from (h : heap) (impl arg : Z) : res heap :=
  let! (h, other) := headers_copy h arg in
  let! _ := precondition (negb (other =? 0)) "h.impl != nullptr" in
  let! above := if impl =? 0 then Ok false else is_ancestor (walk_fuel h) h impl other in
  let! _ := precondition (negb above) "impl == nullptr || !impl->is_ancestor(h.impl)" in
  let! x := impl_at h impl in
  let! h := if negb (defaults x =? 0) then release_ref (walk_fuel h) h (defaults x) else Ok h in
  let! x := impl_at h impl in
  let h := update h impl (with_defaults x other) in
  let! h := add_ref h other in
  headers_destroy h other.

Definition headers_get (m : mem) (h : heap) (impl : Z) (header : str_view) : res (option (list Z)) :=
  if view_bool header then
    let! k := load_range m (begin header) (view_end header) in
    impl_get (walk_fuel h) h impl k
  else Ok None.

Definition headers_contains (m : mem) (h : heap) (impl : Z) (header : str_view) : res header_status :=
  if view_bool header then
    let! k := load_range m (begin header) (view_end header) in
    impl_contains (walk_fuel h) h impl k
  else Ok missing.

Definition headers_set (m : mem) (h : heap) (impl : Z) (header value : str_view) : res heap :=
  if view_bool header then
    let! k := load_range m (begin header) (view_end header) in
    let! v := load_range m (begin value) (view_end value) in
    let! x := impl_at h impl in
    Ok (update h impl (with_map x (map_assign (header_map x) k v)))
  else Ok h.

Definition headers_add (m : mem) (h : heap) (impl : Z) (line : str_view) : res heap :=
  if view_bool line then
    let! i := find_char m (begin line) ":"%ch (view_end line) in
    if negb (i =? 0) then
      headers_set m h impl (view_of_range (begin line) i) (view_of_range i (view_end line))
    else Ok h
  else Ok h.

Definition headers_is_empty (h : heap) (impl : Z) : res bool :=
  iterate (walk_fuel h) (fun x =>
    if negb (x =? 0) then
      let! t := impl_at h x in
      if 0 <? Zlen (header_map t) then Ok (inr false) else Ok (inl (defaults t))
    else Ok (inr true)) impl.

(** The inner loop of [get_header_count]: its iterator hides the count of the
    outer scope, so what is not masked advances the iterator.  An iterator is
    the list of the entries from it to the end; incrementing the end iterator is
    undefined. *)
Definition increment (it : headers_map) : res headers_map :=
  match it with [] => Undef | _ :: it => Ok it end.
Definition count_loop (h : heap) (impl ancestor : Z) (mp : headers_map) : res unit :=
  iterate (S (Datatypes.length mp)) (fun it =>
    match it with
    | [] => Ok (inr tt)
    | (k, _) :: _ =>
        let! masked := is_masked h impl k ancestor in
        let! it := if negb masked then increment it else Ok it in
        let! it := increment it in
        Ok (inl it)
    end) mp.

Definition get_header_count (h : heap) (impl : Z) : res Z :=
  let! ancestor := get_ancestor_after h impl 0 in
  let! _ := iterate (walk_fuel h) (fun ancestor =>
    if negb (ancestor =? 0) && negb (ancestor =? impl) then
      let! t := impl_at h ancestor in
      let! _ := count_loop h impl ancestor (header_map t) in
      let! ancestor := get_ancestor_after h impl ancestor in
      Ok (inl ancestor)
    else Ok (inr tt)) ancestor in
  let! x := impl_at h impl in
  Ok (u32 (Zlen (header_map x))).

(** The loops of [get_header_by_index]: [inl j] after an impl without the header,
    [inr v] when it is found. *)
Fixpoint index_loop (h : heap) (impl ancestor : Z) (mp : headers_map) (i j : Z) : res (Z + list Z) :=
  match mp with
  | [] => Ok (inl j)
  | (k, v) :: mp' =>
      let! masked := is_masked h impl k ancestor in
      if negb masked then
        if j =? i then Ok (inr v) else index_loop h impl ancestor mp' i (u32 (j + 1))
      else index_loop h impl ancestor mp' i j
  end.

Definition by_index_step (h : heap) (impl i : Z) (st : Z * Z) : res (Z * Z + option (list Z)) :=
  let '(ancestor, j) := st in
  if negb (ancestor =? 0) then
    let! t := impl_at h ancestor in
    let! r := index_loop h impl ancestor (header_map t) i j in
    match r with
    | inr v => Ok (inr (Some v))
    | inl j => let! ancestor := get_ancestor_after h impl ancestor in Ok (inl (ancestor, j))
    end
  else Ok (inr None).
Definition get_header_by_index (h : heap) (impl i : Z) : res (option (list Z)) :=
  let! ancestor := get_ancestor_after h impl 0 in
  iterate (walk_fuel h) (by_index_step h impl i) (ancestor, 0).

(** * Specifications *)

(** ** Names *)

(** The names on which the comparison is an order: see [plain_char]. *)
Definition header_name (k : list Z) : Prop := Forall plain_char k /\ no_nul k.
#[export] Instance header_name_dec k : Decision (header_name k).
Proof. unfold header_name, plain_char, no_nul. apply _. Defined.

Definition same_name (a b : list Z) : Prop := map ascii_to_upper_case a = map ascii_to_upper_case b.
#[export] Instance same_name_dec a b : Decision (same_name a b).
Proof. unfold same_name. apply _. Defined.

(** With the chars between 'Z' and 'a', it is not: "a" and "A" are equivalent,
    "A" is less than "_", and "_" is less than "a". *)
Lemma header_order_cycle :
  header_is_less (str "A") (str "a") = false /\ header_is_less (str "a") (str "A") = false /\
  header_is_less (str "A") (str "_") = true /\ header_is_less (str "_") (str "a") = true.
Proof. by vm_compute. Qed.

Definition name_cmp (a b : list Z) : Z := zlex (map ascii_to_upper_case a) (map ascii_to_upper_case b).

Lemma plain_is_char k : Forall plain_char k -> Forall is_char k.
Proof. intros Hk. eapply Forall_impl; [exact Hk|]. by intros c [? _]. Qed.

Lemma name_cmp_spec a b :
  header_name a -> header_name b ->
  ci_cmp (c_str a) (c_str b) = name_cmp a b /\ name_cmp b a = - name_cmp a b /\
  (name_cmp a b = 0 <-> same_name a b).
Proof.
  intros [Ha Ha'] [Hb Hb']. rewrite !c_str_no_nul by done. unfold name_cmp.
  rewrite <- !ci_cmp_zlex by done. split; [done|]. split; [apply ci_cmp_antisym|].
  apply ci_cmp_0; auto using plain_is_char.
Qed.

Lemma name_cmp_trans a b c :
  header_name a -> header_name b -> header_name c ->
  name_cmp a b <= 0 -> name_cmp b c <= 0 ->
  name_cmp a c <= 0 /\ (name_cmp a c = 0 -> name_cmp a b = 0 /\ name_cmp b c = 0).
Proof.
  intros [Ha Ha'] [Hb Hb'] [Hc Hc'].
  apply zlex_trans; apply upper_no_nul; auto using plain_is_char.
Qed.

Definition named (mp : headers_map) : Prop := Forall (fun e => header_name e.1) mp.
#[export] Instance named_dec mp : Decision (named mp).
Proof. unfold named. apply _. Defined.

(** Order facts about the names in the context, for [lia]. *)
Ltac name_facts a b c :=
  let Hab := fresh in let Hbc := fresh in let Hac := fresh in
  pose proof (name_cmp_spec a b ltac:(done) ltac:(done)) as Hab;
  pose proof (name_cmp_spec b c ltac:(done) ltac:(done)) as Hbc;
  pose proof (name_cmp_spec a c ltac:(done) ltac:(done)) as Hac;
  pose proof (name_cmp_trans a b c ltac:(done) ltac:(done) ltac:(done));
  pose proof (name_cmp_trans c b a ltac:(done) ltac:(done) ltac:(done));
  pose proof (name_cmp_trans b a c ltac:(done) ltac:(done) ltac:(done));
  pose proof (name_cmp_trans c a b ltac:(done) ltac:(done) ltac:(done)).

Lemma less_spec a b :
  header_name a -> header_name b -> header_is_less a b = (name_cmp a b <? 0).
Proof. intros Ha Hb. unfold header_is_less. by rewrite (proj1 (name_cmp_spec a b Ha Hb)). Qed.

Lemma decide_same_name {A} a b (x y : A) :
  header_name a -> header_name b ->
  (if decide (same_name a b) then x else y) = if name_cmp a b =? 0 then x else y.
Proof.
  intros Ha Hb. destruct (name_cmp_spec a b Ha Hb) as (_ & _ & E).
  case_decide; destruct (Z.eqb_spec (name_cmp a b) 0); tauto.
Qed.

(** A map behaves as a function of names up to case. *)
Lemma map_find_assign mp key v q :
  named mp -> header_name key -> header_name q ->
  map_find (map_assign mp key v) q = if decide (same_name key q) then Some v else map_find mp q.
Proof.
  intros Hmp Hkey Hq. rewrite decide_same_name by done. induction Hmp as [|[k w] mp Hk Hmp IH]; simpl in *.
  - rewrite !less_spec by done. destruct (name_cmp_spec key q Hkey Hq) as (_ & E & _). ztest; done.
  - rewrite (less_spec k key), (less_spec key k) by done. name_facts k key q.
    destruct (Z.ltb_spec (name_cmp k key) 0), (Z.ltb_spec (name_cmp key k) 0); simpl;
      rewrite ?IH, ?(less_spec k q), ?(less_spec q k), ?(less_spec key q), ?(less_spec q key) by done;
      ztest; done.
Qed.

Lemma map_assign_named mp key v : named mp -> header_name key -> named (map_assign mp key v).
Proof.
  unfold named. intros Hmp Hkey. induction Hmp as [|[k w] mp Hk Hmp IH]; simpl; [by constructor|].
  repeat case_match; repeat (constructor; try done).
Qed.

(** ** Chains of defaults *)

(** The impls from [p] on, each the defaults of the one before, to the last. *)
Fixpoint chain (h : heap) (p : Z) (l : list (Z * impl_t)) : Prop :=
  match l with
  | [] => p = 0
  | (q, x) :: l' => p = q /\ p <> 0 /\ cells h !! p = Some x /\ chain h (defaults x) l'
  end.
#[export] Instance impl_t_eq_dec : EqDecision impl_t.
Proof. solve_decision. Defined.
#[export] Instance chain_dec h p l : Decision (chain h p l).
Proof. revert p. induction l as [|[q x] l IH]; intros p; simpl; apply _. Defined.

Lemma chain_fun h p l l' : chain h p l -> chain h p l' -> l = l'.
Proof.
  revert p l'. induction l as [|[q x] l IH]; intros p [|[q' x'] l']; simpl; try naive_solver.
Qed.

Lemma chain_app h p l l' :
  chain h p (l ++ l') -> exists q, chain h q l' /\ (forall r x l'', l' = (r, x) :: l'' -> q = r).
Proof.
  revert p. induction l as [|[q x] l IH]; intros p; simpl.
  - intros Hl. exists p. split; [done|]. intros r x l'' ->. by destruct Hl.
  - intros (_ & _ & _ & Hl). eauto.
Qed.

Lemma chain_NoDup h p l : chain h p l -> NoDup l.*1.
Proof.
  revert p. induction l as [|[q x] l IH]; intros p Hl; simpl; [constructor|].
  pose proof Hl as (-> & Hq & Hx & Hl'). constructor; [|by eapply IH].
  intros Hin. apply list_elem_of_fmap in Hin as ([q' y] & Eq & Hin). simpl in Eq. subst q'.
  apply list_elem_of_split in Hin as (l1 & l2 & ->).
  apply chain_app in Hl' as (r & Hr & Hrq). specialize (Hrq _ _ _ eq_refl). subst r.
  pose proof (chain_fun _ _ _ _ Hl Hr) as E. apply (f_equal Datatypes.length) in E.
  simpl in E. rewrite length_app in E. simpl in E. lia.
Qed.

Lemma chain_live h p l q : chain h p l -> q ∈ l.*1 -> is_Some (cells h !! q).
Proof.
  revert p. induction l as [|[r x] l IH]; intros p Hl Hq; [by apply not_elem_of_nil in Hq|].
  destruct Hl as (-> & _ & Hx & Hl). apply elem_of_cons in Hq as [->|Hq]; eauto.
Qed.

(** [walk_fuel] is enough for a chain: its impls are distinct. *)
Lemma chain_fuel h p l : chain h p l -> (Datatypes.length l < walk_fuel h)%nat.
Proof.
  intros Hl. unfold walk_fuel. rewrite <- size_dom, <- (length_fmap fst l).
  rewrite <- (size_list_to_set (C := gset Z)) by by eapply chain_NoDup.
  assert (list_to_set l.*1 ⊆ dom (cells h)) as Hsub%subseteq_size; [|lia].
  intros q Hq%elem_of_list_to_set. apply elem_of_dom. by eapply chain_live.
Qed.

(** What a collection holds: the layers from its own on. *)
Fixpoint layered (l : list (Z * impl_t)) (k : list Z) : option (list Z) :=
  match l with
  | [] => None
  | (_, x) :: l' => match map_find (header_map x) k with Some v => Some v | None => layered l' k end
  end.

Lemma impl_get_spec h p l k fuel :
  chain h p l -> l <> [] -> (Datatypes.length l < fuel)%nat -> impl_get fuel h p k = Ok (layered l k).
Proof.
  revert p l. induction fuel as [|fuel IH]; intros p l Hl Hne Hf; [lia|].
  destruct l as [|[q x] l]; [done|]. destruct Hl as (-> & _ & Hx & Hl). simpl in *.
  unfold impl_at. rewrite Hx. cbn [bind]. destruct (map_find (header_map x) k); [done|].
  destruct l as [|[r y] l].
  - simpl in Hl. rewrite Hl. done.
  - pose proof Hl as (Er & Hr & _). zfalse (defaults x =? 0). cbn [negb]. apply IH; [done..|simpl in *; lia].
Qed.

Definition layer_status (l : list (Z * impl_t)) (k : list Z) : header_status :=
  match l with
  | [] => missing
  | (_, x) :: l' =>
      match map_find (header_map x) k with
      | Some _ => explicitly_defined
      | None => match layered l' k with Some _ => inherited | None => missing end
      end
  end.

Lemma layer_status_missing l k : layer_status l k = missing <-> layered l k = None.
Proof. destruct l as [|[q x] l]; simpl; [done|]. by repeat case_match. Qed.

Lemma impl_contains_spec h p l k fuel :
  chain h p l -> l <> [] -> (Datatypes.length l < fuel)%nat ->
  impl_contains fuel h p k = Ok (layer_status l k).
Proof.
  revert p l. induction fuel as [|fuel IH]; intros p l Hl Hne Hf; [lia|].
  destruct l as [|[q x] l]; [done|]. destruct Hl as (-> & _ & Hx & Hl). simpl in *.
  unfold impl_at. rewrite Hx. cbn [bind]. destruct (map_find (header_map x) k); [done|].
  destruct l as [|[r y] l].
  - simpl in Hl. rewrite Hl. done.
  - pose proof Hl as (Er & Hr & _). zfalse (defaults x =? 0). cbn [negb].
    rewrite (IH _ ((r, y) :: l)) by (done || simpl in *; lia). cbn [bind]. f_equal.
    pose proof (layer_status_missing ((r, y) :: l) k) as E.
    destruct (layer_status _ k), (layered _ k); naive_solver.
Qed.

Lemma is_ancestor_spec h p l q fuel :
  chain h p l -> l <> [] -> q <> 0 -> (Datatypes.length l < fuel)%nat ->
  is_ancestor fuel h p q = Ok (bool_decide (q ∈ l.*1)).
Proof.
  revert p l. induction fuel as [|fuel IH]; intros p l Hl Hne Hq Hf; [lia|].
  destruct l as [|[r x] l]; [done|]. destruct Hl as (-> & Hr & Hx & Hl). simpl in *.
  unfold impl_at. rewrite Hx. cbn [bind].
  destruct (Z.eqb_spec q r) as [->|Hqr]; simpl.
  { rewrite bool_decide_eq_true_2; [done|]. by left. }
  destruct l as [|[s y] l].
  - simpl in Hl. rewrite Hl. zfalse (q =? 0). simpl. rewrite bool_decide_eq_false_2; [done|].
    rewrite elem_of_cons, elem_of_nil. naive_solver.
  - pose proof Hl as (Es & Hs & _). destruct (Z.eqb_spec q (defaults x)) as [->|Hqs]; simpl.
    + rewrite bool_decide_eq_true_2; [done|]. rewrite <- Es. right. by left.
    + zfalse (defaults x =? 0). cbn [negb]. rewrite (IH _ ((s, y) :: l)) by (done || simpl in *; lia).
      f_equal. apply bool_decide_ext. simpl. rewrite !elem_of_cons. naive_solver.
Qed.

(** ** Reference counts *)

(** How many impls have [p] as their defaults. *)
Definition refs (c : gmap Z impl_t) (p : Z) : nat := size (filter (fun e => defaults e.2 = p) c).

Definition refs_from (x : impl_t) (p : Z) : nat := if decide (defaults x = p) then 1 else 0.

Lemma refs_insert_fresh c q x p : c !! q = None -> refs (<[q := x]> c) p = (refs c p + refs_from x p)%nat.
Proof.
  intros Hq. unfold refs, refs_from. case_decide as Hd.
  - rewrite map_filter_insert_True by done. rewrite map_size_insert_None; [lia|].
    apply map_lookup_filter_None. by left.
  - rewrite map_filter_insert_False by done. rewrite delete_id by done. lia.
Qed.

Lemma refs_delete c q x p : c !! q = Some x -> refs c p = (refs (delete q c) p + refs_from x p)%nat.
Proof.
  intros Hq. rewrite <- refs_insert_fresh with (q := q) by apply lookup_delete_eq.
  by rewrite insert_delete_eq, insert_id.
Qed.

Lemma refs_insert c q x y p :
  c !! q = Some x -> (refs (<[q := y]> c) p + refs_from x p = refs c p + refs_from y p)%nat.
Proof.
  intros Hq. rewrite (refs_delete c q x p) by done.
  rewrite <- insert_delete_eq, refs_insert_fresh by apply lookup_delete_eq. lia.
Qed.

(** How many of the collections [hs] have the impl [p]. *)
Definition handles (hs : list Z) (p : Z) : nat := Datatypes.length (filter (fun q => q = p) hs).

Lemma handles_cons q hs p : handles (q :: hs) p = ((if decide (q = p) then 1 else 0) + handles hs p)%nat.
Proof. unfold handles. rewrite filter_cons. by case_decide. Qed.
Lemma handles_nil p : handles [] p = 0%nat.
Proof. done. Qed.
Lemma handles_elem hs p : p ∈ hs -> (0 < handles hs p)%nat.
Proof.
  intros Hp. unfold handles. destruct (filter _ hs) eqn:E; [|simpl; lia].
  assert (p ∈ filter (fun q => q = p) hs) as Hin by by apply list_elem_of_filter.
  rewrite E in Hin. by apply not_elem_of_nil in Hin.
Qed.

(** The state of a program with the collections [hs] (0 for one that has been
    moved from): every pointer points to a live impl, every impl is referred to,
    its count says by how many, and following the defaults comes to an end. *)
Record consistent (h : heap) (hs : list Z) : Prop := {
  handles_live : forall p, p ∈ hs -> p <> 0 -> is_Some (cells h !! p);
  counted : forall p x, cells h !! p = Some x ->
    ref_count x = Z.of_nat (handles hs p + refs (cells h) p) /\ 0 < ref_count x;
  defaults_live : forall p x, cells h !! p = Some x -> defaults x <> 0 -> is_Some (cells h !! defaults x);
  addresses : forall p, is_Some (cells h !! p) -> 0 < p < brk h;
  ends : forall p, is_Some (cells h !! p) -> exists l, chain h p l;
  heap_start : 0 < brk h;
}.

(** Counts cannot wrap while there are fewer than 2^32 pointers. *)
Definition few (h : heap) (hs : list Z) : Prop := Zlen hs + Z.of_nat (size (cells h)) < 2 ^ 32 - 1.

Lemma refs_le c p : (refs c p <= size c)%nat.
Proof. unfold refs. apply map_subseteq_size, map_filter_subseteq. Qed.
Lemma handles_le hs p : (handles hs p <= Datatypes.length hs)%nat.
Proof. unfold handles. apply length_filter. Qed.

Lemma chain_head h p l x : chain h p l -> cells h !! p = Some x -> p <> 0 -> exists l', l = (p, x) :: l' /\ chain h (defaults x) l'.
Proof.
  destruct l as [|[q y] l]; simpl; [by intros ->|]. intros (-> & _ & Hy & Hl) Hx _.
  simplify_eq. eauto.
Qed.

(** Chains only see the defaults of the impls on them. *)
Lemma chain_same h h' p l :
  chain h p l ->
  (forall q x, q ∈ l.*1 -> cells h !! q = Some x -> exists y, cells h' !! q = Some y /\ defaults y = defaults x) ->
  exists l', chain h' p l' /\ l'.*1 = l.*1.
Proof.
  revert p. induction l as [|[q x] l IH]; intros p Hl Hsame; [by exists []|].
  destruct Hl as (-> & Hq & Hx & Hl).
  destruct (Hsame q x) as (y & Hy & Ey); [by left|done|].
  destruct (IH _ Hl) as (l' & Hl' & E).
  { intros r z Hr. apply Hsame. by right. }
  exists ((q, y) :: l'). simpl. rewrite Ey. split_and!; auto. by f_equal.
Qed.

Lemma chain_update h p l q x y :
  chain h p l -> cells h !! q = Some x -> defaults y = defaults x ->
  exists l', chain (update h q y) p l' /\ l'.*1 = l.*1.
Proof.
  intros Hl Hx Hd. eapply chain_same; [done|]. intros r z _ Hz. simpl.
  destruct (decide (r = q)) as [->|Hrq].
  - rewrite lookup_insert_eq. simplify_eq. eauto.
  - rewrite lookup_insert_ne by done. eauto.
Qed.

(** Changing the count of an impl by what changes for its handles. *)
Lemma consistent_recount h hs hs' p x n :
  consistent h hs -> cells h !! p = Some x ->
  n = Z.of_nat (handles hs' p + refs (cells h) p) -> 0 < n ->
  (forall q, q ∈ hs' -> q <> 0 -> is_Some (cells h !! q)) ->
  (forall q, q <> p -> handles hs' q = handles hs q) ->
  consistent (update h p (with_refs x n)) hs'.
Proof.
  intros [Hh Hc Hd Ha He Hb] Hx Hn Hn0 Hlive Hsame.
  assert (forall q, is_Some (cells (update h p (with_refs x n)) !! q) <-> is_Some (cells h !! q)) as Hdom.
  { intros q. simpl. destruct (decide (q = p)) as [->|Hq];
      [rewrite lookup_insert_eq, Hx; split; eauto|by rewrite lookup_insert_ne]. }
  assert (forall q, refs (<[p := with_refs x n]> (cells h)) q = refs (cells h) q) as Hrefs.
  { intros q. pose proof (refs_insert (cells h) p x (with_refs x n) q Hx) as E.
    unfold refs_from in E. simpl in E. lia. }
  split.
  - intros q Hq Hq0. apply Hdom. auto.
  - intros q y Hy. simpl in *. rewrite Hrefs. destruct (decide (q = p)) as [->|Hq].
    + rewrite lookup_insert_eq in Hy. simplify_eq/=. lia.
    + rewrite lookup_insert_ne in Hy by done. rewrite Hsame by done. eauto.
  - intros q y Hy Hy0. apply Hdom. simpl in *. destruct (decide (q = p)) as [->|Hq].
    + rewrite lookup_insert_eq in Hy. simplify_eq/=. eauto.
    + rewrite lookup_insert_ne in Hy by done. eauto.
  - intros q Hq%Hdom. simpl. eauto.
  - intros q Hq%Hdom. destruct (He q Hq) as [l Hl].
    edestruct (chain_update h q l p x (with_refs x n)) as (l' & Hl' & _); [done..|eauto].
  - done.
Qed.

(** Releasing does not touch what it does not reach. *)
Lemma release_ref_frame fuel h p h' q y l :
  release_ref fuel h p = Ok h' -> chain h p l -> p <> 0 -> q ∉ l.*1 ->
  release_ref fuel (update h q y) p = Ok (update h' q y) /\ cells h' !! q = cells h !! q.
Proof.
  revert h p h' l. induction fuel as [|fuel IH]; intros h p h' l Hr Hl Hp Hq; [done|]. simpl in *.
  unfold impl_at in *. simpl. destruct (cells h !! p) as [x|] eqn:Hx; [|done].
  destruct l as [|[r x'] l]; [done|].
  destruct Hl as (<- & _ & Hx' & Hl). simplify_eq. apply not_elem_of_cons in Hq as [Hpq Hq].
  rewrite lookup_insert_ne, Hx by done. cbn [bind] in *.
  assert (forall z, update (update h q y) p z = update (update h p z) q y) as Hswap.
  { intros z. unfold update. simpl. by rewrite insert_insert_ne. }
  rewrite Hswap. set (h0 := update h p (with_refs x (u32 (ref_count x - 1)))) in *.
  assert (cells h0 !! q = cells h !! q) as Hq0 by (simpl; by rewrite lookup_insert_ne).
  destruct (ref_count x =? 1); [|by simplify_eq].
  destruct (Z.eqb_spec (defaults x) 0) as [Hd|Hd]; cbn [negb] in *.
  - simpl in *. simplify_eq. unfold dealloc, update. simpl.
    split; [by rewrite delete_insert_ne|by rewrite lookup_delete_ne].
  - destruct (release_ref fuel h0 (defaults x)) as [h1| | |] eqn:E1; try done. simpl in Hr.
    destruct (chain_update h (defaults x) l p x (with_refs x (u32 (ref_count x - 1)))) as (l' & Hl' & El); [done..|].
    assert (q ∉ l'.*1) as Hq' by by rewrite El.
    destruct (IH _ _ _ _ E1 Hl' Hd Hq') as [-> Hq1]. simpl. simplify_eq.
    unfold update, dealloc. simpl. split; [by rewrite delete_insert_ne|].
    rewrite lookup_delete_ne by done. by rewrite Hq1.
Qed.

Lemma release_ref_size fuel h p h' :
  release_ref fuel h p = Ok h' -> (size (cells h') <= size (cells h))%nat.
Proof.
  revert h p h'. induction fuel as [|fuel IH]; intros h p h' Hr; [done|]. simpl in Hr.
  unfold impl_at in Hr. destruct (cells h !! p) as [x|] eqn:Hx; [|done]. cbn [bind] in Hr.
  set (h0 := update h p _) in Hr.
  assert (size (cells h0) = size (cells h)) as Hs by (simpl; by rewrite map_size_insert_Some).
  destruct (ref_count x =? 1); [|simplify_eq; lia].
  assert (exists h1, h' = dealloc h1 p /\ (size (cells h1) <= size (cells h))%nat) as (h1 & -> & H1).
  { destruct (negb (defaults x =? 0)); [|simpl in Hr; exists h0; simplify_eq; split; [done|lia]].
    destruct (release_ref fuel h0 (defaults x)) as [h1| | |] eqn:E; try done. exists h1.
    simpl in Hr. simplify_eq. apply IH in E. split; [done|lia]. }
  simpl. pose proof (map_subseteq_size (delete p (cells h1)) (cells h1) (delete_subseteq _ _)). lia.
Qed.

Lemma handles_zero hs p : handles hs p = 0%nat -> p ∉ hs.
Proof. intros H Hp%handles_elem. lia. Qed.

Lemma refs_zero c p q x : refs c p = 0%nat -> c !! q = Some x -> defaults x <> p.
Proof. intros H Hq. rewrite (refs_delete c q x) in H by done. unfold refs_from in H. case_decide; [lia|done]. Qed.

(** Removing an impl nothing refers to leaves its reference to its defaults,
    which counts as a handle. *)
Lemma consistent_dealloc h hs p x :
  consistent h (p :: hs) -> cells h !! p = Some x -> ref_count x = 1 ->
  consistent (dealloc h p) (defaults x :: hs).
Proof.
  intros [Hh Hc Hd Ha He Hb] Hx H1.
  destruct (Hc p x Hx) as [Hcount _]. rewrite H1, handles_cons, decide_True in Hcount by done.
  assert (p ∉ hs) as Hnp by (apply handles_zero; lia).
  assert (forall q y, cells h !! q = Some y -> defaults y <> p) as Hnd
    by (intros q y; apply refs_zero; lia).
  assert (p <> 0) as Hp0 by (specialize (Ha p); rewrite Hx in Ha; destruct Ha; [eauto|lia]).
  split; simpl.
  - intros q Hq Hq0. rewrite lookup_delete_ne.
    + apply elem_of_cons in Hq as [->|Hq]; [eauto|]. apply Hh; [by right|done].
    + intros <-. apply elem_of_cons in Hq as [Eq|Hq]; [by eapply Hnd|done].
  - intros q y Hy. apply lookup_delete_Some in Hy as [Hpq Hy].
    destruct (Hc q y Hy) as [E E0]. split; [|done]. rewrite E, (refs_delete _ p x q Hx), !handles_cons.
    unfold refs_from. rewrite (decide_False (P := p = q)) by done. case_decide; lia.
  - intros q y Hy Hy0. apply lookup_delete_Some in Hy as [Hpq Hy].
    rewrite lookup_delete_ne; [eauto|]. intros ->. by eapply Hnd.
  - intros q [y Hy]. apply lookup_delete_Some in Hy as [Hpq Hy]. eauto.
  - intros q [y Hy]. apply lookup_delete_Some in Hy as [Hpq Hy].
    destruct (He q) as [l Hl]; [eauto|].
    destruct (chain_same h (dealloc h p) q l Hl) as (l' & Hl' & _); [|eauto].
    intros r z Hr Hz. exists z. split; [|done]. simpl. rewrite lookup_delete_ne; [done|]. intros <-.
    apply list_elem_of_fmap in Hr as ([r w] & -> & Hr). simpl in *.
    apply list_elem_of_split in Hr as (l1 & l2 & ->). destruct l1 as [|[s v] l1 _] using rev_ind.
    + simpl in Hl. destruct Hl as (-> & _). done.
    + rewrite <- app_assoc in Hl. apply chain_app in Hl as (t & Ht & Ets). simpl in Ht.
      destruct Ht as (-> & _ & Hv & Ht & _). exact (Hnd _ _ Hv Ht).
  - done.
Qed.

(** Only the live handles of a state matter, and not their order. *)
Lemma consistent_handles h hs hs' :
  consistent h hs -> (forall p, p <> 0 -> handles hs' p = handles hs p) -> consistent h hs'.
Proof.
  intros [Hh Hc Hd Ha He Hb] Hsame.
  assert (forall p, p <> 0 -> p ∈ hs' -> p ∈ hs) as Hin.
  { intros p Hp Hin%handles_elem. rewrite Hsame in Hin by done. unfold handles in Hin.
    destruct (filter (fun q => q = p) hs) as [|q l] eqn:E; [simpl in Hin; lia|].
    assert (q ∈ filter (fun q => q = p) hs) as Hq by (rewrite E; by left).
    by apply list_elem_of_filter in Hq as [-> Hq]. }
  split; auto. intros p x Hx. destruct (Hc p x Hx) as [E E0]. split; [|done].
  rewrite E, Hsame; [done|]. destruct (Ha p); [eauto|lia].
Qed.

Lemma consistent_null h hs : consistent h (0 :: hs) <-> consistent h hs.
Proof.
  split; intros Hcon; (eapply consistent_handles; [exact Hcon|]); intros p Hp;
    by rewrite handles_cons, decide_False by done.
Qed.

Lemma consistent_perm h hs hs' : hs ≡ₚ hs' -> consistent h hs -> consistent h hs'.
Proof.
  intros Hperm Hcon. eapply consistent_handles; [exact Hcon|]. intros p _. unfold handles.
  by rewrite Hperm.
Qed.

(** Dropping a collection: the impls that only it kept alive are freed, each
    once, and the state stays consistent. *)
Lemma release_ref_spec fuel h p hs :
  consistent h (p :: hs) -> few h (p :: hs) -> p <> 0 -> (size (cells h) < fuel)%nat ->
  exists h', release_ref fuel h p = Ok h' /\ consistent h' hs.
Proof.
  revert h p. induction fuel as [|fuel IH]; intros h p Hcon Hfew Hp Hf; [lia|]. simpl.
  destruct (handles_live _ _ Hcon p) as [x Hx]; [by left|done|].
  destruct (counted _ _ Hcon p x Hx) as [Hcount Hpos].
  unfold impl_at at 1. rewrite Hx. cbn [bind].
  pose proof (refs_le (cells h) p) as Hr. pose proof (handles_le (p :: hs) p) as Hh.
  unfold few, Zlen in Hfew. rewrite handles_cons, decide_True in Hcount, Hh by done.
  destruct (Z.eqb_spec (ref_count x) 1) as [H1|H1].
  - pose proof (consistent_dealloc h hs p x Hcon Hx H1) as Hcon'.
    assert (size (cells (dealloc h p)) < size (cells h))%nat as Hsize.
    { simpl. rewrite map_size_delete_Some by eauto. assert (size (cells h) <> 0)%nat; [|lia].
      intros E%map_size_empty_inv. by rewrite E in Hx. }
    assert (forall z, update (dealloc h p) p z = update h p z) as Eu.
    { intros z. unfold update, dealloc. simpl. by rewrite insert_delete_eq. }
    assert (cells (dealloc h p) !! p = None) as Hnone by apply lookup_delete_eq.
    destruct (Z.eqb_spec (defaults x) 0) as [H0|H0]; cbn [negb].
    + eexists. split; [done|]. rewrite H0, consistent_null in Hcon'.
      unfold dealloc, update in *. simpl. by rewrite delete_insert_eq.
    + destruct (IH (dealloc h p) (defaults x)) as (h' & Hrel & Hcon''); [done| |done|lia|].
      { unfold few, Zlen in *. simpl in *. lia. }
      destruct (ends _ _ Hcon' (defaults x)) as [l Hl]; [apply (handles_live _ _ Hcon'); [by left|done]|].
      assert (p ∉ l.*1) as Hpl.
      { intros Hin%(chain_live _ _ _ _ Hl). rewrite Hnone in Hin. by destruct Hin. }
      destruct (release_ref_frame _ _ _ _ p (with_refs x (u32 (ref_count x - 1))) l Hrel Hl H0 Hpl) as [Hrel' Hnone'].
      rewrite Hnone in Hnone'. rewrite Eu in Hrel'. rewrite Hrel'. eexists. split; [done|].
      unfold dealloc, update. simpl. rewrite delete_insert_id by done. by destruct h'.
  - eexists. split; [done|]. eapply consistent_recount; [done..| | | |].
    + rewrite u32_small by (simpl in *; lia). lia.
    + rewrite u32_small by (simpl in *; lia). lia.
    + intros q Hq. apply (handles_live _ _ Hcon). by right.
    + intros q Hq. rewrite handles_cons, decide_False; [done|congruence].
Qed.

(** Exchanging the defaults of an impl for a handle: the handle becomes its
    reference, and its old reference a handle. *)
Lemma consistent_change_defaults h hs p x d :
  consistent h (d :: hs) -> cells h !! p = Some x ->
  (d <> 0 -> forall l, chain h d l -> p ∉ l.*1) ->
  consistent (update h p (with_defaults x d)) (defaults x :: hs).
Proof.
  intros [Hh Hc Hd Ha He Hb] Hx Hnot. set (h' := update h p (with_defaults x d)).
  assert (forall q, is_Some (cells h' !! q) <-> is_Some (cells h !! q)) as Hdom.
  { intros q. simpl. destruct (decide (q = p)) as [->|Hq];
      [rewrite lookup_insert_eq, Hx; split; eauto|by rewrite lookup_insert_ne]. }
  assert (forall q, q ∉ [p] -> cells h' !! q = cells h !! q) as Hother.
  { intros q Hq. simpl. rewrite lookup_insert_ne; [done|]. intros ->. apply Hq. by left. }
  assert (exists ld, chain h' d ld) as [ld Hld].
  { destruct (decide (d = 0)) as [->|Hd0]; [by exists []|]. destruct (He d) as [l Hl]; [apply Hh; [by left|done]|].
    destruct (chain_same h h' d l Hl) as (l' & Hl' & _); [|eauto]. intros q y Hq Hy. exists y. split; [|done].
    rewrite Hother; [done|]. intros ->%list_elem_of_singleton. by eapply Hnot. }
  assert (forall l q, chain h q l -> exists l', chain h' q l') as Hchain.
  { induction l as [|[r y] l IH]; intros q Hl; [by exists []|]. destruct Hl as (-> & Hr & Hy & Hl).
    destruct (decide (r = p)) as [->|Hrp].
    - exists ((p, with_defaults x d) :: ld). simpl. rewrite lookup_insert_eq. by split_and!.
    - destruct (IH _ Hl) as [l' Hl']. exists ((r, y) :: l'). simpl. rewrite lookup_insert_ne by done. by split_and!. }
  split.
  - intros q Hq Hq0. apply Hdom. apply elem_of_cons in Hq as [->|Hq]; [eauto|].
    apply Hh; [by right|done].
  - intros q y Hy. pose proof (refs_insert (cells h) p x (with_defaults x d) q Hx) as Hrefs.
    assert (exists z, cells h !! q = Some z /\ ref_count y = ref_count z) as (z & Hz & ->).
    { simpl in Hy. destruct (decide (q = p)) as [->|Hq];
        [rewrite lookup_insert_eq in Hy|rewrite lookup_insert_ne in Hy by done]; simplify_eq/=; eauto. }
    destruct (Hc q z Hz) as [E E0]. split; [|done]. rewrite E, !handles_cons.
    unfold refs_from in Hrefs. simpl in *. repeat case_decide; lia.
  - intros q y Hy Hy0. apply Hdom. simpl in Hy. destruct (decide (q = p)) as [->|Hq].
    + rewrite lookup_insert_eq in Hy. simplify_eq/=. apply Hh; [by left|done].
    + rewrite lookup_insert_ne in Hy by done. eauto.
  - intros q Hq%Hdom. simpl. eauto.
  - intros q Hq%Hdom. destruct (He q Hq) as [l Hl]. eauto.
  - done.
Qed.

(** Assigning to the map of an impl changes no pointer. *)
Lemma consistent_with_map h hs p x mp :
  consistent h hs -> cells h !! p = Some x -> consistent (update h p (with_map x mp)) hs.
Proof.
  intros [Hh Hc Hd Ha He Hb] Hx.
  assert (forall q, is_Some (cells (update h p (with_map x mp)) !! q) <-> is_Some (cells h !! q)) as Hdom.
  { intros q. simpl. destruct (decide (q = p)) as [->|Hq];
      [rewrite lookup_insert_eq, Hx; split; eauto|by rewrite lookup_insert_ne]. }
  assert (forall q y, cells (update h p (with_map x mp)) !! q = Some y ->
    exists z, cells h !! q = Some z /\ ref_count y = ref_count z /\ defaults y = defaults z) as Hsame.
  { intros q y Hy. simpl in Hy. destruct (decide (q = p)) as [->|Hq];
      [rewrite lookup_insert_eq in Hy|rewrite lookup_insert_ne in Hy by done]; simplify_eq/=; eauto. }
  split.
  - intros q Hq Hq0. apply Hdom. eauto.
  - intros q y (z & Hz & -> & _)%Hsame. destruct (Hc q z Hz) as [E E0]. split; [|done]. rewrite E.
    pose proof (refs_insert (cells h) p x (with_map x mp) q Hx) as Hrefs.
    unfold refs_from in Hrefs. simpl in *. lia.
  - intros q y (z & Hz & _ & ->)%Hsame Hy0. apply Hdom. eauto.
  - intros q Hq%Hdom. simpl. eauto.
  - intros q Hq%Hdom. destruct (He q Hq) as [l Hl].
    edestruct (chain_update h q l p x (with_map x mp)) as (l' & Hl' & _); [done..|eauto].
  - done.
Qed.

Lemma consistent_new h hs :
  consistent h hs -> consistent (headers_new h).1 (brk h :: hs).
Proof.
  intros [Hh Hc Hd Ha He Hbrk]. unfold headers_new, impl_t_new. simpl.
  assert (cells h !! brk h = None) as Hnone.
  { destruct (cells h !! brk h) eqn:E; [|done]. destruct (Ha (brk h)); [eauto|lia]. }
  assert (forall q, q <> brk h -> <[brk h:={| ref_count := 1; header_map := []; defaults := 0 |}]> (cells h) !! q
    = cells h !! q) as Hother by (intros q Hq; by rewrite lookup_insert_ne).
  split; simpl.
  - intros q Hq Hq0. destruct (decide (q = brk h)) as [->|Hqb]; [rewrite lookup_insert_eq; eauto|].
    rewrite Hother by done. apply elem_of_cons in Hq as [->|Hq]; [done|eauto].
  - intros q y Hy. rewrite refs_insert_fresh by done. unfold refs_from. simpl. rewrite handles_cons.
    destruct (decide (q = brk h)) as [->|Hqb].
    + rewrite lookup_insert_eq in Hy. simplify_eq/=. rewrite (decide_True (P := brk h = brk h)) by done.
      rewrite decide_False by lia. split; [|done].
      assert (handles hs (brk h) = 0%nat) as ->.
      { unfold handles. destruct (filter _ hs) as [|r l] eqn:E; [done|].
        assert (r ∈ filter (fun q => q = brk h) hs) as Hr by (rewrite E; by left).
        apply list_elem_of_filter in Hr as [-> Hr]. specialize (Hh _ Hr ltac:(lia)).
        rewrite Hnone in Hh. by destruct Hh. }
      assert (refs (cells h) (brk h) = 0%nat) as ->; [|done].
      unfold refs. apply map_size_empty_iff, map_empty. intros q. apply map_lookup_filter_None.
      right. intros z Hz E. simpl in E. specialize (Hd q z Hz ltac:(lia)). rewrite E, Hnone in Hd. by destruct Hd.
    + rewrite Hother in Hy by done. destruct (Hc q y Hy) as [E E0]. split; [|done]. rewrite E.
      rewrite decide_False by done. destruct (Ha q); [eauto|]. rewrite decide_False by lia. lia.
  - intros q y Hy Hy0. destruct (decide (q = brk h)) as [->|Hqb].
    + rewrite lookup_insert_eq in Hy. by simplify_eq/=.
    + rewrite Hother in Hy by done. specialize (Hd q y Hy Hy0).
      rewrite Hother; [done|]. intros E. rewrite E, Hnone in Hd. by destruct Hd.
  - intros q Hq. destruct (decide (q = brk h)) as [->|Hqb]; [lia|]. rewrite Hother in Hq by done.
    specialize (Ha q Hq). lia.
  - intros q Hq. destruct (decide (q = brk h)) as [->|Hqb].
    + eexists [(brk h, _)]. simpl. rewrite lookup_insert_eq. split_and!; [done|lia|done..].
    + rewrite Hother in Hq by done. destruct (He q Hq) as [l Hl].
      destruct (chain_same h {| cells := <[brk h:={| ref_count := 1; header_map := []; defaults := 0 |}]> (cells h); brk := brk h + 1 |} q l Hl)
        as (l' & Hl' & _); [|eauto].
      intros r y Hr Hy. exists y. split; [|done]. simpl. rewrite Hother; [done|]. intros ->. by rewrite Hnone in Hy.
  - lia.
Qed.

Lemma add_ref_spec h hs p :
  consistent h hs -> few h hs -> p <> 0 -> is_Some (cells h !! p) ->
  exists h', add_ref h p = Ok h' /\ consistent h' (p :: hs) /\ size (cells h') = size (cells h) /\
    (forall q x, q <> p -> cells h !! q = Some x -> cells h' !! q = Some x).
Proof.
  intros Hcon Hfew Hp [x Hx]. unfold add_ref, impl_at. rewrite Hx. cbn [bind].
  destruct (counted _ _ Hcon p x Hx) as [E E0]. pose proof (refs_le (cells h) p). pose proof (handles_le hs p).
  unfold few, Zlen in Hfew. eexists. split; [done|]. split; [|split].
  - rewrite u32_small by lia. eapply consistent_recount; [done..| | | |].
    + rewrite handles_cons, decide_True by done. lia.
    + lia.
    + intros q Hq Hq0. apply elem_of_cons in Hq as [->|Hq]; [eauto|]. by apply (handles_live _ _ Hcon).
    + intros q Hq. rewrite handles_cons, decide_False; [done|congruence].
  - simpl. by rewrite map_size_insert_Some.
  - intros q y Hq Hy. simpl. by rewrite lookup_insert_ne.
Qed.

(** With no collection left, no impl is left: of the impls of a finite heap whose
    chains end, one is the defaults of no other. *)
Lemma consistent_no_leak h : consistent h [] -> cells h = ∅.
Proof.
  intros [Hh Hc Hd Ha He Hb]. destruct (decide (cells h = ∅)) as [|Hne]; [done|]. exfalso.
  apply map_choose in Hne as (p0 & x0 & Hx0).
  assert (forall n, exists p l, is_Some (cells h !! p) /\ chain h p l /\ (n <= Datatypes.length l)%nat) as Hlong.
  { induction n as [|n (p & l & [x Hx] & Hl & Hn)].
    - destruct (He p0) as [l Hl]; [eauto|]. exists p0, l. split_and!; [eauto|done|lia].
    - destruct (Hc p x Hx) as [E E0]. unfold handles in E. simpl in E.
      destruct (map_choose (filter (fun e => defaults e.2 = p) (cells h))) as (q & y & Hq).
      { intros E'. unfold refs in E. rewrite E', map_size_empty in E. lia. }
      apply map_lookup_filter_Some in Hq as [Hy Hp]. simpl in Hp. subst p.
      destruct (Ha q); [eauto|]. exists q, ((q, y) :: l). simpl. split_and!; [eauto|done|lia|done|done|lia]. }
  destruct (Hlong (walk_fuel h)) as (p & l & _ & Hl & Hn). apply chain_fuel in Hl. lia.
Qed.

(** An operation returns a state [Q] holds of, or throws a contract violation. *)
Definition may_throw {A} (r : res A) (Q : A -> Prop) : Prop :=
  match r with Ok a => Q a | Throw (contract_violation _) => True | _ => False end.

Lemma ancestor_check h hs p q :
  consistent h hs -> p ∈ hs -> p <> 0 -> q <> 0 ->
  exists l, chain h p l /\ is_ancestor (walk_fuel h) h p q = Ok (bool_decide (q ∈ l.*1)) /\ p ∈ l.*1.
Proof.
  intros Hcon Hp Hp0 Hq0. destruct (handles_live _ _ Hcon p Hp Hp0) as [x Hx].
  destruct (ends _ _ Hcon p) as [l Hl]; [eauto|].
  destruct (chain_head _ _ _ _ Hl Hx Hp0) as (l' & -> & Hl').
  exists ((p, x) :: l'). split; [done|]. split; [|by left].
  apply is_ancestor_spec; [done..|by eapply chain_fuel].
Qed.

Lemma few_size h h' hs hs' :
  few h hs -> (size (cells h') <= size (cells h))%nat ->
  (Datatypes.length hs' <= Datatypes.length hs)%nat -> few h' hs'.
Proof. unfold few, Zlen. lia. Qed.

(** Dropping the old impl of a collection that is assigned to. *)
Lemma assign_release h hs p :
  consistent h (p :: hs) -> few h (p :: hs) ->
  exists h', (if negb (p =? 0) then release_ref (walk_fuel h) h p else Ok h) = Ok h' /\
    consistent h' hs /\ (size (cells h') <= size (cells h))%nat.
Proof.
  intros Hcon Hfew. destruct (Z.eqb_spec p 0) as [->|Hp]; cbn [negb].
  - exists h. split; [done|]. split; [by apply consistent_null|done].
  - destruct (release_ref_spec (walk_fuel h) h p hs) as (h' & Hr & Hcon'); [done..|unfold walk_fuel; lia|].
    exists h'. split; [done|]. split; [done|]. by eapply release_ref_size.
Qed.

Lemma copy_assign_spec h hs p q :
  consistent h (p :: hs) -> few h (0 :: p :: hs) -> q ∈ p :: hs ->
  may_throw (copy_assign h p q) (fun '(h', r) => r = q /\ consistent h' (q :: hs)).
Proof.
  intros Hcon Hfew Hq. unfold copy_assign. destruct (Z.eqb_spec q 0) as [|Hq0]; [done|]. cbn [negb precondition bind].
  assert (exists above, (if p =? 0 then Ok false else is_ancestor (walk_fuel h) h p q) = Ok above /\
    (above = false -> q ∈ hs)) as (above & -> & Habove).
  { destruct (Z.eqb_spec p 0) as [->|Hp].
    - exists false. split; [done|]. intros _. apply elem_of_cons in Hq as [->|Hq]; done.
    - destruct (ancestor_check h (p :: hs) p q) as (l & _ & -> & Hpl); [done|by left|done..|].
      eexists. split; [done|]. intros Hn%bool_decide_eq_false. by apply elem_of_cons in Hq as [->|Hq]. }
  destruct above; [done|]. cbn [negb precondition bind]. specialize (Habove eq_refl).
  destruct (assign_release h hs p) as (h1 & Hrel & Hcon1 & Hs); [done|eapply few_size; [done|simpl; lia..]|].
  rewrite Hrel. cbn [bind]. destruct (add_ref_spec h1 hs q) as (h2 & -> & Hcon2 & Hs2 & Hother);
    [done|eapply few_size; [done|simpl; lia..]|done|by apply (handles_live _ _ Hcon1)|].
  done.
Qed.

Lemma move_assign_spec h hs p q :
  consistent h (p :: hs) -> few h (0 :: p :: hs) -> q ∈ p :: hs ->
  may_throw (move_assign h p q) (fun '(h', r, s) => r = q /\ s = 0 /\ q <> 0 /\ p <> q /\ consistent h' hs).
Proof.
  intros Hcon Hfew Hq. unfold move_assign. destruct (Z.eqb_spec q 0) as [|Hq0]; [done|]. cbn [negb precondition bind].
  assert (exists above, (if p =? 0 then Ok false else is_ancestor (walk_fuel h) h p q) = Ok above /\
    (above = false -> p <> q)) as (above & -> & Habove).
  { destruct (Z.eqb_spec p 0) as [->|Hp]; [by eexists|].
    destruct (ancestor_check h (p :: hs) p q) as (l & _ & -> & Hpl); [done|by left|done..|].
    eexists. split; [done|]. intros Hn%bool_decide_eq_false. by intros ->. }
  destruct above; [done|]. cbn [negb precondition bind]. specialize (Habove eq_refl).
  destruct (assign_release h hs p) as (h1 & -> & Hcon1 & Hs); [done|eapply few_size; [done|simpl; lia..]|].
  done.
Qed.

Lemma headers_destroy_spec h hs p :
  consistent h (p :: hs) -> few h (p :: hs) -> p <> 0 ->
  exists h', headers_destroy h p = Ok h' /\ consistent h' hs.
Proof. intros. apply release_ref_spec; [done..|unfold walk_fuel; lia]. Qed.

(** What [h'] still has of the impls of [h] has the same defaults. *)
Definition fewer (h h' : heap) : Prop :=
  forall q y, cells h' !! q = Some y -> exists x, cells h !! q = Some x /\ defaults x = defaults y.

Lemma fewer_trans h1 h2 h3 : fewer h1 h2 -> fewer h2 h3 -> fewer h1 h3.
Proof.
  intros H1 H2 q z Hz. destruct (H2 q z Hz) as (y & Hy & <-). destruct (H1 q y Hy) as (x & Hx & <-). eauto.
Qed.

Lemma fewer_update h p x y : cells h !! p = Some x -> defaults y = defaults x -> fewer h (update h p y).
Proof.
  intros Hx Hd q z Hz. simpl in Hz. destruct (decide (q = p)) as [->|Hq].
  - rewrite lookup_insert_eq in Hz. simplify_eq. eauto.
  - rewrite lookup_insert_ne in Hz by done. eauto.
Qed.

Lemma fewer_dealloc h p : fewer h (dealloc h p).
Proof. intros q y Hy. simpl in Hy. apply lookup_delete_Some in Hy as [_ Hy]. eauto. Qed.

Lemma release_ref_fewer fuel h p h' : release_ref fuel h p = Ok h' -> fewer h h'.
Proof.
  revert h p h'. induction fuel as [|fuel IH]; intros h p h' Hr; [done|]. simpl in Hr.
  unfold impl_at in Hr. destruct (cells h !! p) as [x|] eqn:Hx; [|done]. cbn [bind] in Hr.
  assert (fewer h (update h p (with_refs x (u32 (ref_count x - 1))))) as H0 by by eapply fewer_update.
  destruct (ref_count x =? 1); [|by simplify_eq].
  destruct (negb (defaults x =? 0)).
  - destruct (release_ref fuel _ _) as [h1| | |] eqn:E; try done. simpl in Hr. simplify_eq.
    eapply fewer_trans; [exact H0|]. eapply fewer_trans; [by eapply IH|apply fewer_dealloc].
  - simpl in Hr. simplify_eq. eapply fewer_trans; [exact H0|apply fewer_dealloc].
Qed.

Lemma add_ref_fewer h p h' : add_ref h p = Ok h' -> fewer h h'.
Proof.
  unfold add_ref, impl_at. destruct (cells h !! p) as [x|] eqn:Hx; [|done]. intros [= <-].
  by eapply fewer_update.
Qed.

Lemma add_ref_update h p q z h' :
  p <> q -> add_ref h q = Ok h' -> add_ref (update h p z) q = Ok (update h' p z).
Proof.
  intros Hpq. unfold add_ref, impl_at. simpl. rewrite lookup_insert_ne by done.
  destruct (cells h !! q); [|done]. intros [= <-]. unfold update. simpl. by rewrite insert_insert_ne.
Qed.

(** A chain of what is left avoids an impl the chain of the original avoids. *)
Lemma fewer_avoids h h' q l l' p :
  fewer h h' -> chain h q l -> p ∉ l.*1 -> chain h' q l' -> p ∉ l'.*1.
Proof.
  intros Hless Hl Hp Hl'.
  destruct (chain_same h' h q l' Hl') as (k & Hk & <-).
  - intros r y _ (x & Hx & Hd)%Hless. eauto.
  - by rewrite (chain_fun _ _ _ _ Hk Hl).
Qed.

Lemma headers_copy_spec h hs q :
  consistent h hs -> few h (0 :: hs) -> q ∈ hs ->
  may_throw (headers_copy h q) (fun '(h', r) => r = q /\ consistent h' (q :: hs) /\ q <> 0 /\
    (size (cells h') <= size (cells h))%nat /\ fewer h h').
Proof.
  intros Hcon Hfew Hq. unfold headers_copy, copy_assign.
  destruct (Z.eqb_spec q 0) as [|Hq0]; [done|]. change (0 =? 0) with true.
  cbn [negb precondition bind].
  destruct (add_ref_spec h hs q) as (h' & Hadd & Hcon' & Hs & _);
    [done|eapply few_size; [done|simpl; lia..]|done|by apply (handles_live _ _ Hcon)|].
  rewrite Hadd. simpl. split_and!; [done..|lia|by eapply add_ref_fewer].
Qed.

(** Releasing the defaults of an impl that keeps pointing to them: as if it had
    been reset first, since the chain of its defaults does not come back to it. *)
Lemma drop_defaults h hs p x :
  consistent h hs -> few h (0 :: hs) -> cells h !! p = Some x -> p <> 0 ->
  exists h', (if negb (defaults x =? 0) then release_ref (walk_fuel h) h (defaults x) else Ok h)
      = Ok (update h' p x) /\
    consistent h' hs /\ cells h' !! p = Some (with_defaults x 0) /\
    (size (cells h') <= size (cells h))%nat /\ fewer (update h p (with_defaults x 0)) h'.
Proof.
  intros Hcon Hfew Hx Hp0.
  destruct (ends _ _ Hcon p) as [l Hl]; [eauto|].
  destruct (chain_head _ _ _ _ Hl Hx Hp0) as (ld & -> & Hld).
  apply chain_NoDup in Hl as Hnd. simpl in Hnd. apply NoDup_cons in Hnd as [Hpd _].
  set (h2 := update h p (with_defaults x 0)).
  assert (consistent h2 (defaults x :: hs)) as Hcon2
    by (apply consistent_change_defaults; [by apply consistent_null|done|done]).
  assert (size (cells h2) = size (cells h)) as Hs2 by (simpl; by rewrite map_size_insert_Some).
  assert (h = update h2 p x) as E12.
  { unfold h2, update. simpl. rewrite insert_insert_eq, insert_id by done. by destruct h. }
  assert (cells h2 !! p = Some (with_defaults x 0)) as Hx2 by (simpl; by rewrite lookup_insert_eq).
  destruct (assign_release h2 hs (defaults x)) as (h' & Hrel & Hcon' & Hs');
    [done|eapply few_size; [done|lia|simpl; lia]|].
  exists h'. destruct (Z.eqb_spec (defaults x) 0) as [|Hd]; cbn [negb] in *.
  { simplify_eq. rewrite <- E12. split_and!; [done..|lia|by intros ? ? ?; eauto]. }
  destruct (chain_same h h2 (defaults x) ld Hld) as (ld' & Hld' & Eld).
  { intros s y Hs Hy. exists y. split; [|done]. simpl. rewrite lookup_insert_ne; [done|]. by intros ->. }
  assert (p ∉ ld'.*1) as Hpd' by by rewrite Eld.
  destruct (release_ref_frame _ _ _ _ p x ld' Hrel Hld' Hd Hpd') as [Hrel' Hsame].
  rewrite <- E12 in Hrel'. unfold walk_fuel in *. rewrite Hs2 in Hrel'.
  split_and!; [done..|by rewrite Hsame|lia|by eapply release_ref_fewer].
Qed.

Lemma chain_avoids_ne h p q l : chain h q l -> q <> 0 -> p ∉ l.*1 -> p <> q.
Proof. destruct l as [|[r y] l]; simpl; [done|]. intros (-> & _) _ Hp ->. apply Hp. by left. Qed.

Lemma get_defaults_from_spec h hs p q :
  consistent h hs -> few h (0 :: 0 :: hs) -> p ∈ hs -> p <> 0 -> q ∈ hs ->
  (q <> 0 -> forall l, chain h q l -> p ∉ l.*1) ->
  may_throw (get_defaults_from h p q) (fun h' => consistent h' hs).
Proof.
  intros Hcon Hfew Hp Hp0 Hq Hcycle. unfold get_defaults_from.
  pose proof (headers_copy_spec h hs q Hcon ltac:(eapply few_size; [done|simpl; lia..]) Hq) as Hcopy.
  destruct (headers_copy h q) as [[h1 r]| | |]; cbn [may_throw bind] in Hcopy |- *; try done.
  destruct Hcopy as (-> & Hcon1 & Hq0 & Hs1 & Hless1). specialize (Hcycle Hq0).
  zfalse (q =? 0). zfalse (p =? 0). cbn [negb precondition bind].
  destruct (ancestor_check h1 (q :: hs) p q) as (l1 & _ & -> & _); [done|by right|done..|]. cbn [bind].
  destruct (bool_decide (q ∈ l1.*1)); [done|]. cbn [negb precondition bind].
  destruct (handles_live _ _ Hcon1 p) as [x Hx]; [by right|done|].
  unfold impl_at at 1. rewrite Hx. cbn [bind].
  destruct (drop_defaults h1 (q :: hs) p x Hcon1) as (h2 & -> & Hcon2 & Hx2 & Hs2 & Hless2);
    [eapply few_size; [done|simpl; lia..]|done..|].
  cbn [bind]. unfold impl_at. simpl. rewrite lookup_insert_eq. cbn [bind].
  assert (update (update h2 p x) p (with_defaults x q) = update h2 p (with_defaults x q)) as ->
    by (unfold update; simpl; by rewrite insert_insert_eq).
  destruct (ends _ _ Hcon q) as [lq Hlq]; [by apply (handles_live _ _ Hcon)|].
  destruct (ends _ _ Hcon1 q) as [lq1 Hlq1]; [apply (handles_live _ _ Hcon1); [by left|done]|].
  pose proof (fewer_avoids _ _ _ _ _ p Hless1 Hlq (Hcycle _ Hlq) Hlq1) as Hp1.
  destruct (chain_same h1 (update h1 p (with_defaults x 0)) q lq1 Hlq1) as (lq2 & Hlq2 & E2).
  { intros s y Hs Hy. exists y. split; [|done]. simpl. rewrite lookup_insert_ne; [done|]. by intros ->. }
  assert (p <> q) as Hpq by (eapply (chain_avoids_ne _ _ _ _ Hlq1); done).
  destruct (add_ref_spec h2 (q :: hs) q) as (h3 & Hadd & Hcon3 & Hs3 & Hother3);
    [done|eapply few_size; [done|lia|simpl; lia]|done|apply (handles_live _ _ Hcon2); [by left|done]|].
  rewrite (add_ref_update _ _ _ _ _ Hpq Hadd). cbn [bind].
  assert (consistent (update h3 p (with_defaults x q)) (q :: hs)) as Hcon4.
  { apply consistent_null. apply (consistent_change_defaults h3 (q :: hs) p (with_defaults x 0) q); [done|by apply Hother3|].
    intros _ l Hl. eapply (fewer_avoids _ h3 q lq2); [|done|by rewrite E2|done].
    eapply fewer_trans; [done|by eapply add_ref_fewer]. }
  destruct (headers_destroy_spec _ _ _ Hcon4) as (h5 & -> & Hcon5); [|done|done].
  eapply few_size; [done| |simpl; lia]. simpl. rewrite map_size_insert_Some; [lia|].
  exists (with_defaults x 0). by apply Hother3.
Qed.

Lemma load_range_view m v l : shows m v l -> load_range m (begin v) (view_end v) = Ok l.
Proof. intros (Hb & Hlen & Hm). unfold view_end. rewrite Hlen. by apply load_range_spec. Qed.

(** Assigning to a header through a collection. *)
Lemma headers_set_spec m h p x header value k v :
  cells h !! p = Some x -> shows m header k -> k <> [] -> shows m value v ->
  headers_set m h p header value = Ok (update h p (with_map x (map_assign (header_map x) k v))).
Proof.
  intros Hx Hk Hne Hv. unfold headers_set, view_bool, is_empty.
  assert (Zlen k <> 0) as Hlen by (destruct k; [done|]; rewrite Zlen_cons; pose proof (Zlen_nonneg k); lia).
  pose proof Hk as (_ & -> & _). zfalse (Zlen k =? 0). cbn [negb].
  rewrite (load_range_view _ _ _ Hk), (load_range_view _ _ _ Hv). cbn [bind].
  unfold impl_at. by rewrite Hx.
Qed.

(** ** Programs *)

(** What a program does with its collections, which are known by their position
    in a list. *)
Inductive op : Type :=
| op_new
| op_copy (j : nat)
| op_copy_assign (i j : nat)
| op_move_assign (i j : nat)
| op_defaults (i j : nat)
| op_set (i : nat) (header value : str_view)
| op_destroy (i : nat).

Definition run_op (m : mem) (h : heap) (hs : list Z) (o : op) : res (heap * list Z) :=
  match o with
  | op_new => let (h, p) := headers_new h in Ok (h, p :: hs)
  | op_copy j =>
      match hs !! j with
      | Some q => let! (h, p) := headers_copy h q in Ok (h, p :: hs)
      | None => Ok (h, hs)
      end
  | op_copy_assign i j =>
      match hs !! i, hs !! j with
      | Some p, Some q => let! (h, p) := copy_assign h p q in Ok (h, <[i := p]> hs)
      | _, _ => Ok (h, hs)
      end
  | op_move_assign i j =>
      match hs !! i, hs !! j with
      | Some p, Some q => let! (h, p, q) := move_assign h p q in Ok (h, <[j := q]> (<[i := p]> hs))
      | _, _ => Ok (h, hs)
      end
  | op_defaults i j =>
      match hs !! i, hs !! j with
      | Some p, Some q => let! h := get_defaults_from h p q in Ok (h, hs)
      | _, _ => Ok (h, hs)
      end
  | op_set i header value =>
      match hs !! i with
      | Some p => let! h := headers_set m h p header value in Ok (h, hs)
      | None => Ok (h, hs)
      end
  | op_destroy i =>
      match hs !! i with
      | Some p => let! h := headers_destroy h p in Ok (h, delete i hs)
      | None => Ok (h, hs)
      end
  end.

(** What the code leaves to its caller: the views can be read, and the collection that is to
    provide defaults does not itself get defaults from the one it provides. *)
Definition permitted (m : mem) (h : heap) (hs : list Z) (o : op) : Prop :=
  match o with
  | op_defaults i j =>
      forall p q, hs !! i = Some p -> hs !! j = Some q -> p <> 0 -> q <> 0 -> forall l, chain h q l -> p ∉ l.*1
  | op_set _ header value => (exists k, shows m header k) /\ exists v, shows m value v
  | _ => True
  end.

(** The operations that go through the null pointer of a collection that has been moved from: its
    destructor is one of them. *)
Definition reaches_null (hs : list Z) (o : op) : Prop :=
  match o with
  | op_defaults i j => hs !! i = Some 0 /\ exists q, hs !! j = Some q /\ q <> 0
  | op_set i header _ => hs !! i = Some 0 /\ view_bool header = true
  | op_destroy i => hs !! i = Some 0
  | _ => False
  end.

Lemma handles_insert hs i p q r :
  hs !! i = Some p -> (handles (<[i := q]> hs) r + handles [p] r = handles hs r + handles [q] r)%nat.
Proof.
  revert i. induction hs as [|s hs IH]; intros i Hi; [done|]. destruct i as [|i]; simpl in Hi |- *.
  - simplify_eq. rewrite (handles_cons q hs), (handles_cons p hs), (handles_cons q []), (handles_cons p []). lia.
  - specialize (IH i Hi). rewrite (handles_cons s (<[i:=q]> hs)), (handles_cons s hs). lia.
Qed.

Lemma handles_delete hs i p r : hs !! i = Some p -> handles hs r = (handles [p] r + handles (delete i hs) r)%nat.
Proof.
  revert i. induction hs as [|s hs IH]; intros i Hi; [done|]. destruct i as [|i]; simpl in Hi |- *.
  - simplify_eq. rewrite (handles_cons p hs), (handles_cons p []), handles_nil. lia.
  - specialize (IH i Hi). rewrite (handles_cons s hs), (handles_cons s (delete i hs)). lia.
Qed.

Lemma consistent_pick h hs i p : hs !! i = Some p -> consistent h hs -> consistent h (p :: delete i hs).
Proof. intros Hi. apply consistent_perm. by apply delete_Permutation. Qed.

Lemma elem_pick (hs : list Z) i j p q : hs !! i = Some p -> hs !! j = Some q -> q ∈ p :: delete i hs.
Proof. intros Hi Hj. rewrite <- delete_Permutation by done. by eapply list_elem_of_lookup_2. Qed.

Lemma may_throw_bind {A B} (r : res A) (k : A -> res B) (P : A -> Prop) Q :
  may_throw r P -> (forall a, P a -> may_throw (k a) Q) -> may_throw (bind r k) Q.
Proof. destruct r; simpl; auto. Qed.

(** ** Enumeration *)

(** The values of an impl whose names none of the nearer layers has. *)
Definition unmasked (nearer : list (Z * impl_t)) (mp : headers_map) : list (list Z) :=
  (filter (fun e => layered nearer e.1 = None) mp).*2.

(** The values a collection shows, the most remote layer first. *)
Fixpoint visible (nearer l : list (Z * impl_t)) : list (list Z) :=
  match l with
  | [] => []
  | e :: l' => visible (nearer ++ [e]) l' ++ unmasked nearer (header_map e.2)
  end.

Lemma layered_app l l' k :
  layered (l ++ l') k = match layered l k with Some v => Some v | None => layered l' k end.
Proof. induction l as [|[q x] l IH]; simpl; [done|]. by destruct (map_find _ _). Qed.

Lemma chain_skip h p l1 a x l2 : chain h p (l1 ++ (a, x) :: l2) ->
  cells h !! a = Some x /\ a <> 0 /\ chain h a ((a, x) :: l2) /\ a ∉ l1.*1.
Proof.
  intros Hl. apply chain_NoDup in Hl as Hnd. apply chain_app in Hl as (q & Hq & E).
  specialize (E _ _ _ eq_refl). subst q. pose proof Hq as (_ & Ha & Hx & _). split_and!; try done.
  rewrite fmap_app, NoDup_app in Hnd. destruct Hnd as (_ & Hnd & _). intros Hin. apply (Hnd _ Hin). simpl. by left.
Qed.

Lemma is_masked_spec h p l1 a x l2 k :
  chain h p (l1 ++ (a, x) :: l2) -> is_masked h p k a = Ok (bool_decide (is_Some (layered l1 k))).
Proof.
  intros Hl. unfold is_masked. apply chain_fuel in Hl as Hf. revert Hf. generalize (walk_fuel h). revert p Hl.
  induction l1 as [|[q y] l1 IH]; intros p Hl fuel Hf; (destruct fuel as [|fuel]; [simpl in Hf; lia|]).
  - destruct Hl as (-> & _). simpl. by rewrite Z.eqb_refl, andb_false_r.
  - apply (chain_skip h p ((q, y) :: l1)) in Hl as Hskip. destruct Hskip as (_ & _ & _ & Haq).
    simpl in Haq. apply not_elem_of_cons in Haq as [Haq _].
    destruct Hl as (-> & Hq & Hy & Hl). simpl. zfalse (q =? 0). zfalse (q =? a). cbn [negb andb].
    unfold impl_at. rewrite Hy. cbn [bind]. destruct (map_find (header_map y) k); [by rewrite bool_decide_eq_true_2 by eauto|].
    cbn [bind]. apply IH; [done|simpl in Hf; lia].
Qed.

Lemma get_ancestor_after_found h p l1 b y l2 q :
  chain h p (l1 ++ (b, y) :: l2) -> defaults y = q -> Forall (fun e => defaults e.2 <> q) l1 ->
  get_ancestor_after h p q = Ok b.
Proof.
  intros Hl Hq Hl1. unfold get_ancestor_after. apply chain_fuel in Hl as Hf. revert Hf. generalize (walk_fuel h). revert p Hl.
  induction Hl1 as [|[r z] l1 Hz Hl1 IH]; intros p Hl fuel Hf; (destruct fuel as [|fuel]; [simpl in Hf; lia|]);
    simpl in Hl; destruct Hl as (-> & Hr & Hc & Hl); simpl.
  - zfalse (b =? 0). cbn [negb]. unfold impl_at. rewrite Hc. cbn [bind]. by ztrue (defaults y =? q).
  - zfalse (r =? 0). cbn [negb]. unfold impl_at. rewrite Hc. cbn [bind]. simpl in Hz. zfalse (defaults z =? q). cbn [bind].
    apply IH; [done|simpl in Hf; lia].
Qed.

Lemma get_ancestor_after_none h p l q :
  chain h p l -> Forall (fun e => defaults e.2 <> q) l -> get_ancestor_after h p q = Ok 0.
Proof.
  intros Hl Hall. unfold get_ancestor_after. apply chain_fuel in Hl as Hf. revert Hf. generalize (walk_fuel h). revert p Hl.
  induction Hall as [|[r z] l Hz Hall IH]; intros p Hl fuel Hf; (destruct fuel as [|fuel]; [simpl in Hf; lia|]); simpl in Hl.
  - by subst p.
  - destruct Hl as (-> & Hr & Hc & Hl). simpl. zfalse (r =? 0). cbn [negb]. unfold impl_at. rewrite Hc. cbn [bind].
    simpl in Hz. zfalse (defaults z =? q). cbn [bind]. apply IH; [done|simpl in Hf; lia].
Qed.

(** On a chain, an impl is the defaults of the one before only. *)
Lemma chain_defaults h p l1 a x l2 :
  chain h p (l1 ++ (a, x) :: l2) ->
  (forall l0 b y, l1 = l0 ++ [(b, y)] -> defaults y = a /\ Forall (fun e => defaults e.2 <> a) l0) /\
  (l1 = [] -> Forall (fun e => defaults e.2 <> a) ((a, x) :: l2)).
Proof.
  intros Hl. assert (forall l p, chain h p l -> Forall (fun e => e.2.(defaults) <> 0 -> e.2.(defaults) ∈ tail l.*1) l /\
     forall r z l', l = (r, z) :: l' -> p = r) as Hnext.
  { clear. induction l as [|[r z] l IH]; intros p Hl; [by split; [constructor|]|].
    destruct Hl as (-> & Hr & Hz & Hl). destruct (IH _ Hl) as [Hall Hhd]. split; [|by intros ? ? ? [= <- _ _]].
    constructor.
    - simpl. intros Hd. destruct l as [|[s w] l]; [by simpl in Hl|]. rewrite (Hhd _ _ _ eq_refl). by left.
    - eapply Forall_impl; [exact Hall|]. intros e He Hd. simpl. specialize (He Hd).
      destruct l; simpl in *; [done|by right]. }
  split.
  - intros l0 b y ->. rewrite <- app_assoc in Hl. simpl in Hl. apply chain_app in Hl as Hq.
    destruct Hq as (q & Hq & _). destruct Hq as (_ & _ & _ & Hd & Ha & _). split; [done|].
    apply Forall_forall. intros [r z] Hin E. simpl in E.
    apply list_elem_of_split in Hin as (k1 & k2 & ->). rewrite <- app_assoc in Hl. simpl in Hl.
    apply chain_app in Hl as (q' & Hq' & _). destruct Hq' as (_ & _ & _ & Hk).
    apply chain_NoDup in Hk as Hnd. rewrite E in Hk.
    destruct k2 as [|[s w] k2]; simpl in *.
    + destruct Hk as (<- & _). rewrite Hd in *. apply NoDup_cons in Hnd as [Hnd _]. apply Hnd. by left.
    + destruct Hk as (<- & _). apply NoDup_cons in Hnd as [Hnd _]. apply Hnd.
      rewrite fmap_app. apply elem_of_app. right. right. by left.
  - intros ->. rewrite app_nil_l in Hl. destruct (Hnext _ _ Hl) as [Hall _]. apply chain_NoDup in Hl as Hnd. simpl in Hnd, Hall.
    apply NoDup_cons in Hnd as [Hnd _]. destruct Hl as (-> & Ha & _).
    eapply Forall_impl; [exact Hall|]. intros e He E. simpl in He, E. rewrite E in He. by apply Hnd, He.
Qed.

Lemma unmasked_cons nearer k v mp :
  unmasked nearer ((k, v) :: mp) =
    if decide (layered nearer k = None) then v :: unmasked nearer mp else unmasked nearer mp.
Proof. unfold unmasked. rewrite filter_cons. simpl. by case_decide. Qed.

Lemma index_loop_spec h p a mp l1 i j :
  (forall k, is_masked h p k a = Ok (bool_decide (is_Some (layered l1 k)))) ->
  0 <= j <= i -> j + Zlen (unmasked l1 mp) < 2 ^ 32 ->
  index_loop h p a mp i j =
    Ok (match unmasked l1 mp !! Z.to_nat (i - j) with
        | Some v => inr v
        | None => inl (j + Zlen (unmasked l1 mp))
        end).
Proof.
  intros Hmask. revert j. induction mp as [|[k v] mp IH]; intros j Hj Hn; simpl.
  - unfold unmasked. simpl. do 2 f_equal. change (Zlen []) with 0. lia.
  - rewrite Hmask. cbn [bind]. rewrite unmasked_cons in *. pose proof (Zlen_nonneg (unmasked l1 mp)).
    case_decide as Hd.
    + rewrite bool_decide_eq_false_2 by (rewrite Hd; by intros []). cbn [negb]. rewrite Zlen_cons in *.
      destruct (Z.eqb_spec j i) as [->|Hji]; [by rewrite Z.sub_diag|].
      rewrite u32_small by lia. rewrite IH by lia. replace (Z.to_nat (i - j)) with (S (Z.to_nat (i - (j + 1)))) by lia.
      simpl. case_match; [done|]. do 2 f_equal. lia.
    + rewrite bool_decide_eq_true_2; [|by destruct (layered l1 k); eauto]. cbn [negb]. by apply IH.
Qed.

Definition heap_empty : heap := {| cells := ∅; brk := 1 |}.

(** Each layer's names are in the domain of the order. *)
Definition layers_named (l : list (Z * impl_t)) : Prop := Forall (fun e => named (header_map e.2)) l.
#[export] Instance layers_named_dec l : Decision (layers_named l).
Proof. unfold layers_named. apply _. Defined.

Lemma consistent_empty : consistent heap_empty [].
Proof.
  assert (forall p x, cells heap_empty !! p <> Some x) as Hnone by (intros p x Hx; change (cells heap_empty) with (∅ : gmap Z impl_t) in Hx; by rewrite lookup_empty in Hx).
  split; simpl; try done; intros p; try (intros Hp; by apply not_elem_of_nil in Hp);
    try (intros x Hx || intros [x Hx]); by destruct (Hnone _ _ Hx).
Qed.

(** Two fresh collections, at addresses 2 and 1. *)
Definition two_headers : heap := Eval vm_compute in (headers_new (headers_new heap_empty).1).1.

Lemma two_headers_consistent : consistent two_headers [2; 1].
Proof. apply (consistent_new (headers_new heap_empty).1 [1]), (consistent_new heap_empty []), consistent_empty. Qed.

(** A collection at 2 with a header of its own and one it inherits. *)
Definition own_layer : impl_t :=
  {| ref_count := 1; header_map := [(str "Accept", str "text/html")]; defaults := 1 |}.
Definition base_layer : impl_t :=
  {| ref_count := 2; header_map := [(str "Host", str "example.org")]; defaults := 0 |}.
Definition layered_headers : heap := {| cells := {[ 2 := own_layer; 1 := base_layer ]}; brk := 3 |}.

(** * Properties *)

Lemma null_dead h hs : consistent h hs -> impl_at h 0 = Undef.
Proof.
  intros Hcon. unfold impl_at. destruct (cells h !! 0) as [x|] eqn:E; [|done].
  destruct (addresses _ _ Hcon 0); [by eexists|lia].
Qed.

Lemma view_shown m v l : shows m v l -> view_bool v = true <-> l <> [].
Proof.
  intros (_ & Hlen & _). unfold view_bool, is_empty. rewrite Hlen. destruct l as [|c l]; [by split|].
  rewrite Zlen_cons. pose proof (Zlen_nonneg l). zfalse (1 + Zlen l =? 0). by split.
Qed.

(** Where the null pointer is reached, the behaviour is undefined. *)
Lemma run_null m h hs o :
  consistent h hs -> few h (0 :: 0 :: hs) -> permitted m h hs o -> reaches_null hs o -> run_op m h hs o = Undef.
Proof.
  intros Hcon Hfew Hperm Hnull. pose proof (null_dead _ _ Hcon) as H0.
  destruct o as [|j|i j|i j|i j|i header value|i]; simpl in Hperm, Hnull |- *; [done..| | |].
  - destruct Hnull as (-> & q & Hj & Hq0). rewrite Hj. unfold get_defaults_from.
    destruct (add_ref_spec h hs q) as (h1 & Hadd & Hcon1 & _);
      [done|eapply few_size; [done|simpl; lia..]|done|apply (handles_live _ _ Hcon); by eauto using list_elem_of_lookup_2|].
    assert (headers_copy h q = Ok (h1, q)) as -> by (unfold headers_copy, copy_assign; zfalse (q =? 0); simpl; by rewrite Hadd).
    cbn [bind]. zfalse (q =? 0). change (0 =? 0) with true. cbn [negb precondition bind]. by rewrite (null_dead _ _ Hcon1).
  - destruct Hnull as [-> Hv], Hperm as [[k Hk] [v Hs]]. unfold headers_set. rewrite Hv, (load_range_view _ _ _ Hk), (load_range_view _ _ _ Hs).
    cbn [bind]. by rewrite H0.
  - rewrite Hnull. unfold headers_destroy, walk_fuel. cbn [release_ref]. by rewrite H0.
Qed.

Lemma run_consistent m h hs o :
  consistent h hs -> few h (0 :: 0 :: hs) -> permitted m h hs o -> ~ reaches_null hs o ->
  may_throw (run_op m h hs o) (fun '(h', hs') => consistent h' hs').
Proof.
  intros Hcon Hfew Hperm Hnull.
  destruct o as [|j|i j|i j|i j|i header value|i]; simpl in Hperm, Hnull |- *.
  - by apply consistent_new.
  - destruct (hs !! j) as [q|] eqn:Hj; [|done]. eapply may_throw_bind.
    + apply headers_copy_spec; [done|eapply few_size; [done|simpl; lia..]|by eapply list_elem_of_lookup_2].
    + by intros [h' r] (-> & Hcon' & _).
  - destruct (hs !! i) as [p|] eqn:Hi, (hs !! j) as [q|] eqn:Hj; try done. eapply may_throw_bind.
    + apply copy_assign_spec; [by apply consistent_pick| |by eapply elem_pick].
      eapply few_size; [done..|]. apply lookup_lt_Some in Hi. simpl. rewrite length_delete; [lia|eauto using lookup_lt_is_Some_2].
    + intros [h' r] (-> & Hcon'). eapply consistent_handles; [exact Hcon'|]. intros s _.
      pose proof (handles_insert hs i p q s Hi). pose proof (handles_delete hs i p s Hi).
      rewrite (handles_cons q (delete i hs)). rewrite (handles_cons q []), handles_nil in *. lia.
  - destruct (hs !! i) as [p|] eqn:Hi, (hs !! j) as [q|] eqn:Hj; try done. eapply may_throw_bind.
    + apply move_assign_spec; [by apply consistent_pick| |by eapply elem_pick].
      eapply few_size; [done..|]. apply lookup_lt_Some in Hi. simpl. rewrite length_delete; [lia|eauto using lookup_lt_is_Some_2].
    + intros [[h' r] s] (-> & -> & Hq0 & Hpq & Hcon'). simpl. eapply consistent_handles; [exact Hcon'|]. intros s Hs.
      assert (i <> j) as Hij by congruence.
      pose proof (handles_insert hs i p q s Hi). pose proof (handles_delete hs i p s Hi).
      pose proof (handles_insert (<[i := q]> hs) j q 0 s ltac:(by rewrite list_lookup_insert_ne)).
      assert (handles [0] s = 0%nat) as E0 by (rewrite handles_cons, decide_False; done). lia.
  - destruct (hs !! i) as [p|] eqn:Hi, (hs !! j) as [q|] eqn:Hj; try done.
    destruct (decide (q = 0)) as [->|Hq]; [done|]. assert (p <> 0) as Hp by (intros ->; apply Hnull; eauto).
    eapply may_throw_bind; [apply (get_defaults_from_spec h hs); eauto using list_elem_of_lookup_2|done].
  - destruct (hs !! i) as [p|] eqn:Hi; [|done]. destruct Hperm as [[k Hk] [v Hv]].
    destruct (decide (k = [])) as [->|Hne].
    { unfold headers_set. destruct (view_bool header) eqn:E; [by apply (view_shown _ _ _ Hk) in E|done]. }
    assert (p <> 0) as Hp by (intros ->; apply Hnull; split; [done|by apply (view_shown _ _ _ Hk)]).
    destruct (handles_live _ _ Hcon p) as [x Hx]; [by eapply list_elem_of_lookup_2|done|].
    rewrite (headers_set_spec m h p x header value k v) by done. simpl. by apply consistent_with_map.
  - destruct (hs !! i) as [p|] eqn:Hi; [|done].
    destruct (headers_destroy_spec h (delete i hs) p) as (h' & -> & Hcon'); [by apply consistent_pick| |congruence|done].
    eapply few_size; [done..|]. apply lookup_lt_Some in Hi. simpl. rewrite length_delete; [lia|eauto using lookup_lt_is_Some_2].
Qed.



(** C20: a collection behaves as a function of names up to case, layer over layer, where the names asked for and
    those of all layers are not empty and have no char between 'Z' and 'a', such as '_' ([header_name]; with one,
    the order of names is not transitive, as header_order_cycle shows). [get] returns the value of the first layer
    that has the name, [contains] tells which kind of layer that is, and after [set] through the collection the name
    has the new value in it, under any spelling, and every other name its old one. *)
Theorem headers_layers m h p x l header value query k v q :
  chain h p ((p, x) :: l) -> layers_named ((p, x) :: l) ->
  shows m header k -> k <> [] -> header_name k -> shows m value v ->
  shows m query q -> q <> [] -> header_name q ->
  headers_get m h p query = Ok (layered ((p, x) :: l) q) /\
  headers_contains m h p query = Ok (layer_status ((p, x) :: l) q) /\
  exists h' y, headers_set m h p header value = Ok h' /\
    chain h' p ((p, y) :: l) /\ layers_named ((p, y) :: l) /\
    headers_get m h' p query =
      Ok (if decide (same_name k q) then Some v else layered ((p, x) :: l) q) /\
    headers_contains m h' p query =
      Ok (if decide (same_name k q) then explicitly_defined else layer_status ((p, x) :: l) q).
Proof.
  intros Hl Hnamed Hk Hkne Hkn Hv Hq Hqne Hqn.
  assert (forall h l, chain h p l -> l <> [] -> headers_get m h p query = Ok (layered l q) /\
    headers_contains m h p query = Ok (layer_status l q)) as Hget.
  { intros h0 l0 Hl0 Hne. unfold headers_get, headers_contains, view_bool, is_empty. pose proof Hq as (_ & -> & _).
    assert (Zlen q <> 0) as Hlen by (destruct q; [done|]; rewrite Zlen_cons; pose proof (Zlen_nonneg q); lia).
    zfalse (Zlen q =? 0). cbn [negb]. rewrite (load_range_view _ _ _ Hq). cbn [bind].
    split; [apply impl_get_spec|apply impl_contains_spec]; eauto using chain_fuel. }
  destruct (Hget h _ Hl) as [-> ->]; [done|]. split; [done|]. split; [done|].
  pose proof Hl as (_ & Hp & Hx & Hrest). apply Forall_cons in Hnamed as [Hnx Hnl].
  set (y := with_map x (map_assign (header_map x) k v)). exists (update h p y), y.
  split; [by apply headers_set_spec|].
  assert (chain (update h p y) p ((p, y) :: l)) as Hl'.
  { apply chain_NoDup in Hl. simpl in Hl. apply NoDup_cons in Hl as [Hpl _].
    simpl. rewrite lookup_insert_eq. split_and!; try done.
    clear -Hrest Hpl. revert Hrest. generalize (defaults x). induction l as [|[r z] l IH]; intros d; [done|].
    simpl. simpl in Hpl. apply not_elem_of_cons in Hpl as [Hpr Hpl]. intros (-> & Hr & Hz & Hrest). rewrite lookup_insert_ne by done. split_and!; auto. }
  split; [done|]. split; [constructor; [by apply map_assign_named|done]|].
  destruct (Hget _ _ Hl') as [-> ->]; [done|]. simpl.
  rewrite (map_find_assign (header_map x) k v q) by done. by case_decide.
Qed.

Lemma headers_layers_witness :
  headers_get two_strings layered_headers 2 (view_of_length 64 12) = Ok None /\
  headers_contains two_strings layered_headers 2 (view_of_length 64 12) = Ok missing /\
  exists h' y, headers_set two_strings layered_headers 2 (view_of_length 16 12) (view_of_length 16 7) = Ok h' /\
    chain h' 2 [(2, y); (1, base_layer)] /\ layers_named [(2, y); (1, base_layer)] /\
    headers_get two_strings h' 2 (view_of_length 64 12) = Ok (Some (str "Content")) /\
    headers_contains two_strings h' 2 (view_of_length 64 12) = Ok explicitly_defined.
Proof.
  apply (headers_layers two_strings layered_headers 2 own_layer [(1, base_layer)]
    (view_of_length 16 12) (view_of_length 16 7) (view_of_length 64 12)
    (str "Content-Type") (str "Content") (str "CONTENT-type")); try (unfold shows); decided.
Defined.

(** [get_defaults_from] checks that the collection it is to take defaults from
    does not already provide some, and not the other way round: two collections may
    be made the defaults of each other, and then the search for a header that
    neither has does not end. *)
Theorem headers_defaults_cycle :
  exists h1 h2, get_defaults_from two_headers 2 1 = Ok h1 /\ get_defaults_from h1 1 2 = Ok h2 /\
    forall fuel k, impl_get fuel h2 1 k = Spin /\ impl_contains fuel h2 1 k = Spin.
Proof.
  eexists _, _. split; [vm_compute; reflexivity|]. split; [vm_compute; reflexivity|].
  match goal with |- context [impl_get _ ?h _ _] => set (h2 := h) end.
  assert (cells h2 !! 1 = Some {| ref_count := 2; header_map := []; defaults := 2 |}) as H1 by reflexivity.
  assert (cells h2 !! 2 = Some {| ref_count := 2; header_map := []; defaults := 1 |}) as H2 by reflexivity.
  clearbody h2. intros fuel k.
  assert (forall p, p = 1 \/ p = 2 -> impl_get fuel h2 p k = Spin /\ impl_contains fuel h2 p k = Spin) as Hp; [|auto].
  induction fuel as [|fuel IH]; intros p Hp; [done|].
  simpl. unfold impl_at. destruct Hp as [-> | ->].
  - rewrite H1. simpl. destruct (IH 2) as [-> ->]; auto.
  - rewrite H2. simpl. destruct (IH 1) as [-> ->]; auto.
Qed.

(** [add] on a line [name:rest] gives the header [name] the value [:rest], its
    colon kept; a line without a colon becomes the name of a header with an empty
    value. *)
Theorem headers_add_line m h p x line k v :
  cells h !! p = Some x -> Zlen (k ++ v) < 2 ^ 62 -> ":"%ch ∉ k -> k <> [] ->
  (v = [] \/ head v = Some ":"%ch) -> shows m line (k ++ v) ->
  headers_add m h p line = Ok (update h p (with_map x (map_assign (header_map x) k v))).
Proof.
  intros Hx Hlen Hcolon Hk Hv Hshows. pose proof Hshows as (Hb & Hl & Hm). unfold headers_add, view_bool, is_empty.
  pose proof (Zlen_nonneg v) as Hv0. rewrite Zlen_app in *.
  assert (0 < Zlen k) as Hk0 by (destruct k; [done|]; rewrite Zlen_cons; pose proof (Zlen_nonneg k); lia).
  zfalse (length line =? 0). cbn [negb]. unfold view_end at 1. rewrite Hl, <- Zlen_app, find_char_spec by (done || lia).
  assert (scan_len (fun c => negb (c =? ":"%ch)) (k ++ v) = Zlen k) as ->.
  { rewrite scan_len_app_all.
    - destruct Hv as [-> | Hv]; [simpl; lia|]. destruct v; [done|]. injection Hv as ->. simpl. lia.
    - apply Forall_forall. intros c Hc. destruct (Z.eqb_spec c ":"%ch) as [->|]; done. }
  cbn [bind]. zfalse (begin line + Zlen k =? 0). cbn [negb].
  apply holds_app in Hm as [Hmk Hmv]. apply headers_set_spec; try done.
  - unfold view_of_range, shows. simpl. zfalse (begin line =? 0). ztrue (begin line <? begin line + Zlen k). simpl.
    split_and!; [done|lia|done].
  - unfold view_of_range, shows, view_end. simpl. rewrite Hl. zfalse (begin line + Zlen k =? 0). simpl.
    split_and!; [lia| |done]. ztest.
Qed.

Lemma headers_add_line_witness :
  headers_add (cstr_at 8 "Host:x") layered_headers 1 (view_of_length 8 6) =
    Ok (update layered_headers 1 (with_map base_layer [(str "Host", str ":x")])).
Proof.
  apply (headers_add_line (cstr_at 8 "Host:x") layered_headers 1 base_layer (view_of_length 8 6)
    (str "Host") (str ":x")); try (unfold shows); decided.
Defined.

Lemma visible_app nearer l l' :
  visible nearer (l ++ l') = visible (nearer ++ l) l' ++ visible nearer l.
Proof.
  revert nearer. induction l as [|e l IH]; intros nearer; simpl; [by rewrite !app_nil_r|].
  rewrite IH, <- app_assoc. simpl. by rewrite <- app_assoc.
Qed.

(** The outer loop of [get_header_by_index] at the last layer of [l], after [j]
    headers of the layers beyond. *)
Lemma by_index_loop h p i : forall l l2 j fuel,
  chain h p (l ++ l2) -> 0 <= j <= i -> j + Zlen (visible [] l) < 2 ^ 32 ->
  (Datatypes.length l < fuel)%nat ->
  iterate fuel (by_index_step h p i) (default 0 (fst <$> last l), j) = Ok (visible [] l !! Z.to_nat (i - j)).
Proof.
  intros l. induction l as [|[a x] l IH] using rev_ind; intros l2 j fuel Hl Hj Hn Hf;
    (destruct fuel as [|fuel]; [lia|]); simpl.
  { done. }
  rewrite last_snoc. simpl. rewrite visible_app in *. simpl in Hn |- *.
  rewrite <- app_assoc in Hl. cbn [app] in Hl.
  destruct (chain_skip _ _ _ _ _ _ Hl) as (Hx & Ha & _). zfalse (a =? 0). cbn [negb].
  unfold impl_at. rewrite Hx. cbn [bind]. rewrite Zlen_app in Hn.
  pose proof (Zlen_nonneg (visible [] l)).
  rewrite (index_loop_spec h p a _ l) by (lia || (intros k; by eapply is_masked_spec)). cbn [bind].
  rewrite lookup_app. destruct (unmasked l (header_map x) !! Z.to_nat (i - j)) as [v|] eqn:Ev; [done|].
  apply lookup_ge_None in Ev.
  assert (get_ancestor_after h p a = Ok (default 0 (fst <$> last l))) as ->.
  { destruct (chain_defaults _ _ _ _ _ _ Hl) as [Hd Hd0].
    destruct l as [|[b y] l0 _] using rev_ind.
    - eapply get_ancestor_after_none; [exact Hl|by apply Hd0].
    - rewrite last_snoc. simpl. destruct (Hd _ _ _ eq_refl) as [Hb Hl0].
      rewrite <- app_assoc in Hl. by eapply get_ancestor_after_found. }
  cbn [bind]. rewrite length_app in Hf. simpl in Hf. unfold Zlen in *.
  rewrite (IH ((a, x) :: l2)) by (done || lia). do 2 f_equal. lia.
Qed.

(** [get_header_by_index] goes through the values (not the names) of the headers
    a collection shows, the most remote layer first and each layer in the order of
    its map, leaving out a header that a nearer layer has too. *)
Theorem headers_enumeration h p x l i :
  chain h p ((p, x) :: l) -> 0 <= i -> Zlen (visible [] ((p, x) :: l)) < 2 ^ 32 ->
  get_header_by_index h p i = Ok (visible [] ((p, x) :: l) !! Z.to_nat i).
Proof.
  intros Hl Hi Hn. unfold get_header_by_index.
  assert (get_ancestor_after h p 0 = Ok (default 0 (fst <$> last ((p, x) :: l)))) as ->.
  { destruct (exists_last (l := (p, x) :: l)) as (l0 & [b y] & E); [done|]. rewrite E in *. rewrite last_snoc. simpl.
    destruct (chain_skip _ _ _ _ _ _ Hl) as (_ & _ & (_ & _ & _ & Hd) & _). simpl in Hd.
    eapply get_ancestor_after_found; [exact Hl|done|]. clear -Hl.
    revert p Hl. induction l0 as [|[r z] l0 IH]; intros p; [constructor|].
    intros (_ & _ & _ & Hl). constructor; [|by eapply IH].
    simpl in *. destruct l0 as [|[s w] l0]; simpl in Hl; destruct Hl as (E & Hne & _); congruence. }
  cbn [bind]. pose proof (by_index_loop h p i ((p, x) :: l) [] 0 (walk_fuel h)) as Hloop.
  rewrite app_nil_r, Z.sub_0_r in Hloop. apply Hloop; [done|lia|done|by eapply chain_fuel].
Qed.

Lemma headers_enumeration_witness :
  get_header_by_index layered_headers 2 1 = Ok (Some (str "text/html")).
Proof.
  apply (headers_enumeration layered_headers 2 own_layer [(1, base_layer)] 1); decided.
Defined.

(** where [get_header_count] is defined it returns the number of a collection's
    own headers, without those of the layers beyond; and it is undefined for a
    collection whose defaults have a single header of their own that it does not
    mask, because the loop over them then moves its iterator past the end. *)
Theorem headers_count h p x q y k v :
  chain h p [(p, x); (q, y)] -> p <> q ->
  (forall n, get_header_count h p = Ok n -> n = u32 (Zlen (header_map x))) /\
  (header_map y = [(k, v)] -> map_find (header_map x) k = None -> get_header_count h p = Undef).
Proof.
  intros Hl Hpq. pose proof Hl as (_ & Hp & Hx & Hq & Hq0 & Hy & Hend). simpl in Hend.
  rewrite Hq in Hq0, Hy.
  split.
  - intros n. unfold get_header_count. intros (a & _ & Hr)%bind_Ok_inv.
    apply bind_Ok_inv in Hr as ([] & _ & Hr). unfold impl_at in Hr. rewrite Hx in Hr. simpl in Hr. congruence.
  - intros Hmap Hk. unfold get_header_count.
    rewrite (get_ancestor_after_found h p [(p, x)] q y []); [|done|done|constructor; [simpl; congruence|constructor]].
    cbn [bind]. unfold walk_fuel at 1. cbn [iterate]. zfalse (q =? 0). zfalse (q =? p). cbn [negb andb].
    unfold impl_at. rewrite Hy. cbn [bind]. unfold count_loop. rewrite Hmap. cbn [iterate Datatypes.length].
    rewrite (is_masked_spec h p [(p, x)] q y []) by done. simpl. by rewrite Hk.
Qed.

Lemma headers_count_witness :
  (forall n, get_header_count layered_headers 2 = Ok n -> n = 1) /\
  (header_map base_layer = [(str "Host", str "example.org")] ->
   map_find (header_map own_layer) (str "Host") = None -> get_header_count layered_headers 2 = Undef).
Proof.
  apply (headers_count layered_headers 2 own_layer 1 base_layer (str "Host") (str "example.org")); decided.
Defined.
