(* ===== verification/Clock.v ===== *)
(** * Time: core/time/assignable_clock*.h and stopwatch*.h

    The static members of [assignable_clock] are a record; a time point and a
    duration are counts of nanoseconds in 64 bits, whose overflow is undefined.
    What [std::chrono::steady_clock::now] reads is an argument. *)

From stdpp Require Import base tactics list relations strings.
From Stdlib Require Import ZArith Lia.
From S2P Require Import Prelude.
#[local] Open Scope Z_scope.

(** A result of the signed 64-bit type. *)
Definition fits (x : Z) : bool := (- 2 ^ 63 <=? x) && (x <? 2 ^ 63).
Definition rep (x : Z) : res Z := if fits x then Ok x else Undef.

(** ** assignable_clock *)

Record clock : Type := {
  value : Z;
  session_count : Z;
}.

Definition clock_now (c : clock) : Z := value c.
Definition set_now (c : clock) (val : Z) : clock := {| value := val; session_count := session_count c |}.
Definition elapse (c : clock) (val : Z) : res clock :=
  let! v := rep (value c + val) in Ok {| value := v; session_count := session_count c |}.

Definition is_active_count (n : Z) : bool := (0 <? n) && (n <? 1000000).
Definition is_active (c : clock) : bool := is_active_count (session_count c).

Definition activate (c : clock) : clock :=
  {| value := value c; session_count := u32 (session_count c + 1) |}.
Definition deactivate (c : clock) (force : bool) : clock :=
  if force then {| value := value c; session_count := 0 |}
  else
    let n := session_count c in
    let c := {| value := value c; session_count := u32 (n - 1) |} in
    if n =? 0 then {| value := value c; session_count := u32 (session_count c + 1) |} else c.

Definition session_open (c : clock) : clock := activate c.
Definition session_open_at (c : clock) (initial_fake_time : Z) : clock := set_now (session_open c) initial_fake_time.
Definition session_close (c : clock) : clock := deactivate c false.

Definition now (c : clock) (steady : Z) : Z := if is_active c then clock_now c else steady.

(** When the clock is not active the thread sleeps, and the clock stays. *)
Definition sleep_for (c : clock) (elapsed : Z) : res clock := if is_active c then elapse c elapsed else Ok c.
Definition sleep_until (c : clock) (absolute_time : Z) : clock :=
  if is_active c then set_now c absolute_time else c.

(** ** stopwatch *)

Inductive stopwatch_state : Type := stopped | paused | running.
#[export] Instance stopwatch_state_eq_dec : EqDecision stopwatch_state.
Proof. solve_decision. Defined.

Record stopwatch : Type := {
  split_count : Z;
  elapsed : Z;
  start_time : Z;
  current_state : stopwatch_state;
}.

(** [start_time] is not initialised: it holds [garbage]. *)
Definition stopwatch_new (garbage : Z) : stopwatch :=
  {| split_count := 0; elapsed := 0; start_time := garbage; current_state := stopped |}.

(** Each operation with the time [t] that [now()] returns. *)
Definition start (w : stopwatch) (t : Z) : stopwatch :=
  match current_state w with
  | stopped => {| split_count := u64 (split_count w + 1); elapsed := elapsed w; start_time := t; current_state := running |}
  | _ => w
  end.

Definition resume (w : stopwatch) (t : Z) : stopwatch :=
  match current_state w with
  | paused => {| split_count := split_count w; elapsed := elapsed w; start_time := t; current_state := running |}
  | _ => w
  end.

Definition pause (w : stopwatch) (t : Z) : res stopwatch :=
  match current_state w with
  | running =>
      let! n := rep (t - start_time w) in
      let! e := rep (elapsed w + n) in
      Ok {| split_count := split_count w; elapsed := e; start_time := start_time w; current_state := paused |}
  | _ => Ok w
  end.

Definition stop (w : stopwatch) (t : Z) : res (stopwatch * Z) :=
  match current_state w with
  | running =>
      let! n := rep (t - start_time w) in
      let! e := rep (elapsed w + n) in
      Ok ({| split_count := split_count w; elapsed := e; start_time := start_time w; current_state := stopped |}, n)
  | paused =>
      Ok ({| split_count := split_count w; elapsed := elapsed w; start_time := start_time w; current_state := stopped |}, 0)
  | stopped => Ok (w, 0)
  end.

Definition split_open (w : stopwatch) (t : Z) : stopwatch := start w t.
Definition split_close (w : stopwatch) (t : Z) : res stopwatch := let! (w, _) := stop w t in Ok w.

(** * A stopwatch on the assignable clock

    What a program does: it sleeps, and operates a stopwatch. *)

Inductive event : Type := ev_sleep (d : Z) | ev_start | ev_resume | ev_pause | ev_stop.

Definition run_event (steady : Z) (st : clock * stopwatch) (e : event) : res (clock * stopwatch) :=
  let '(c, w) := st in
  match e with
  | ev_sleep d => let! c := sleep_for c d in Ok (c, w)
  | ev_start => Ok (c, start w (now c steady))
  | ev_resume => Ok (c, resume w (now c steady))
  | ev_pause => let! w := pause w (now c steady) in Ok (c, w)
  | ev_stop => let! (w, _) := stop w (now c steady) in Ok (c, w)
  end.

Fixpoint run_events (steady : Z) (st : clock * stopwatch) (es : list event) : res (clock * stopwatch) :=
  match es with
  | [] => Ok st
  | e :: es => let! st := run_event steady st e in run_events steady st es
  end.

(** ** Its abstract specification

    An ideal stopwatch has a hand that moves with time while it runs: it knows
    no time points. *)

Record ideal : Type := {
  hand : Z;
  splits : Z;
  mode : stopwatch_state;
}.

Definition ideal_new : ideal := {| hand := 0; splits := 0; mode := stopped |}.

Definition with_mode (i : ideal) (m : stopwatch_state) : ideal := {| hand := hand i; splits := splits i; mode := m |}.

Definition ideal_event (i : ideal) (e : event) : ideal :=
  match e with
  | ev_sleep d =>
      match mode i with
      | running => {| hand := hand i + d; splits := splits i; mode := running |}
      | _ => i
      end
  | ev_start =>
      match mode i with
      | stopped => {| hand := hand i; splits := splits i + 1; mode := running |}
      | _ => i
      end
  | ev_resume => match mode i with paused => with_mode i running | _ => i end
  | ev_pause => match mode i with running => with_mode i paused | _ => i end
  | ev_stop => with_mode i stopped
  end.

(** The hand of the concrete stopwatch, at time [t]. *)
Definition concrete_hand (w : stopwatch) (t : Z) : Z :=
  match current_state w with running => elapsed w + (t - start_time w) | _ => elapsed w end.

(** The simulation relation. *)
Definition simulates (c : clock) (w : stopwatch) (i : ideal) : Prop :=
  is_active c = true /\ current_state w = mode i /\ concrete_hand w (value c) = hand i /\
  split_count w = splits i /\ 0 <= elapsed w <= hand i /\ 0 <= splits i /\
  (mode i = running -> - 2 ^ 63 <= start_time w <= value c).

(** How long a list of events sleeps, and how often it starts. *)
Fixpoint slept (es : list event) : Z :=
  match es with [] => 0 | ev_sleep d :: es => d + slept es | _ :: es => slept es end.
Definition sleeps_forward (es : list event) : Prop :=
  Forall (fun e => match e with ev_sleep d => 0 <= d | _ => True end) es.
#[export] Instance sleeps_forward_dec es : Decision (sleeps_forward es).
Proof. unfold sleeps_forward. apply Forall_dec. intros []; apply _. Defined.

Lemma rep_fits x : - 2 ^ 63 <= x < 2 ^ 63 -> rep x = Ok x.
Proof. intros Hx. unfold rep, fits. ztrue (- 2 ^ 63 <=? x). by ztrue (x <? 2 ^ 63). Qed.

Lemma slept_nonneg es : sleeps_forward es -> 0 <= slept es.
Proof. induction 1 as [|e es He _ IH]; simpl; [lia|]. destruct e; lia. Qed.

(** The cases of the stopwatch's state. *)
Ltac mode_cases Hst Hhand Hstart i :=
  let Em := fresh "Em" in
  rewrite ?Hst; rewrite Hst in Hhand;
  destruct (mode i) eqn:Em; simpl in *;
  first [specialize (Hstart eq_refl) | clear Hstart];
  repeat (rewrite rep_fits by lia; cbn [bind]);
  (eexists _, _; split; [reflexivity|]);
  unfold simulates, concrete_hand, is_active; simpl; rewrite ?Hst, ?Em; simpl; rewrite ?Em;
  repeat split; simpl; try done; rewrite ?u64_small; try lia.

(** One event: the concrete state follows the abstract one. *)
Lemma simulates_event c w i e steady :
  simulates c w i -> match e with ev_sleep d => 0 <= d | _ => True end ->
  - 2 ^ 63 <= value c -> value c + slept [e] < 2 ^ 63 -> hand i + slept [e] < 2 ^ 63 -> splits i + 1 < 2 ^ 64 ->
  exists c' w', run_event steady (c, w) e = Ok (c', w') /\ simulates c' w' (ideal_event i e) /\
    value c' = value c + slept [e] /\ hand i <= hand (ideal_event i e) <= hand i + slept [e] /\
    splits (ideal_event i e) <= splits i + 1.
Proof.
  intros (Hact & Hst & Hhand & Hsplit & Hel & Hsp & Hstart) He Hv Hcv Hhv Hs. unfold concrete_hand in Hhand.
  unfold run_event, now, sleep_for, elapse, clock_now, start, resume, pause, stop. rewrite ?Hact.
  destruct e; simpl in Hcv, Hhv; rewrite ?Z.add_0_r in Hcv, Hhv.
  - rewrite rep_fits by lia. cbn [bind]. mode_cases Hst Hhand Hstart i.
  - mode_cases Hst Hhand Hstart i.
  - mode_cases Hst Hhand Hstart i.
  - mode_cases Hst Hhand Hstart i.
  - mode_cases Hst Hhand Hstart i.
Qed.

Lemma slept_cons e es : slept (e :: es) = slept [e] + slept es.
Proof. destruct e; simpl; lia. Qed.

Lemma simulates_events es : forall c w i steady,
  simulates c w i -> sleeps_forward es ->
  - 2 ^ 63 <= value c -> value c + slept es < 2 ^ 63 -> hand i + slept es < 2 ^ 63 -> splits i + Zlen es < 2 ^ 64 ->
  exists c' w', run_events steady (c, w) es = Ok (c', w') /\ simulates c' w' (fold_left ideal_event es i) /\
    value c' = value c + slept es.
Proof.
  induction es as [|e es IH]; intros c w i steady Hsim Hes Hv Hcv Hhv Hs.
  - exists c, w. split; [done|]. split; [done|]. simpl. lia.
  - apply Forall_cons in Hes as [He Hes]. pose proof (slept_nonneg _ Hes) as Hnn.
    rewrite slept_cons in Hcv, Hhv. rewrite Zlen_cons in Hs. pose proof (Zlen_nonneg es) as Hl.
    destruct (simulates_event c w i e steady Hsim He) as (c1 & w1 & Hrun & Hsim1 & Hv1 & Hh1 & Hs1); [lia..|].
    assert (0 <= slept [e]) as Hne by (apply slept_nonneg; by repeat constructor).
    destruct (IH c1 w1 (ideal_event i e) steady Hsim1 Hes) as (c2 & w2 & Hrun2 & Hsim2 & Hv2); [lia..|].
    exists c2, w2. cbn [run_events fold_left]. rewrite Hrun. cbn [bind]. split; [done|]. split; [done|].
    rewrite slept_cons. lia.
Qed.

(** C18: A stopwatch run on the active assignable clock, by any sequence of
    sleeps and operations in any order, never reaches undefined behaviour while
    the times fit 64 bits, and is the abstract stopwatch: the same state, the
    same number of splits, and as time shown exactly the time slept while it
    ran, whatever its uninitialised start time and the real clock hold; the
    clock itself advances by all the sleeps. *)
Theorem stopwatch_refines_ideal (c : clock) (es : list event) (steady garbage : Z) :
  is_active c = true -> sleeps_forward es ->
  - 2 ^ 63 <= value c -> value c + slept es < 2 ^ 63 -> slept es < 2 ^ 63 -> Zlen es < 2 ^ 64 ->
  exists c' w', run_events steady (c, stopwatch_new garbage) es = Ok (c', w') /\
    let i := fold_left ideal_event es ideal_new in
    concrete_hand w' (value c') = hand i /\ current_state w' = mode i /\ split_count w' = splits i /\
    value c' = value c + slept es /\ is_active c' = true.
Proof.
  intros Hact Hes Hv Hcv Hsl Hlen.
  destruct (simulates_events es c (stopwatch_new garbage) ideal_new steady) as (c' & w' & Hrun & Hsim & Hval);
    [|done|simpl; lia..|].
  - unfold simulates, concrete_hand; simpl. repeat split; try done; lia.
  - exists c', w'. split; [done|]. destruct Hsim as (Hact' & Hst & Hhand & Hsplit & _). done.
Qed.

Lemma stopwatch_refines_ideal_witness : exists c' w',
  run_events 77 ({| value := 1000; session_count := 1 |}, stopwatch_new 123)
    [ev_start; ev_sleep 500; ev_pause; ev_sleep 20; ev_resume; ev_sleep 3; ev_stop; ev_sleep 9; ev_start; ev_sleep 1] = Ok (c', w') /\
  concrete_hand w' (value c') = 504 /\ split_count w' = 2.
Proof.
  destruct (stopwatch_refines_ideal {| value := 1000; session_count := 1 |}
    [ev_start; ev_sleep 500; ev_pause; ev_sleep 20; ev_resume; ev_sleep 3; ev_stop; ev_sleep 9; ev_start; ev_sleep 1] 77 123)
    as (c' & w' & Hrun & Hh & _ & Hs & _); [decided..|].
  exists c', w'. by rewrite Hrun, Hh, Hs.
Defined.

(** [stop] returns the time since the split was last resumed, and 0 from a
    pause, not how long the split ran, which its documentation promises. *)
Lemma stop_returns_last_leg w t d : current_state w = running -> 0 <= elapsed w -> 0 <= d < 2 ^ 63 - elapsed w ->
  start_time w = t -> exists w', stop w (t + d) = Ok (w', d) /\ elapsed w' = elapsed w + d.
Proof.
  intros Hr He Hd Hs. unfold stop. rewrite Hr, Hs. replace (t + d - t) with d by lia.
  rewrite rep_fits by lia. cbn [bind]. rewrite rep_fits by lia. cbn [bind]. by eexists.
Qed.
Lemma stop_returns_zero_from_pause w t : current_state w = paused -> exists w', stop w t = Ok (w', 0).
Proof. intros Hp. unfold stop. rewrite Hp. by eexists. Qed.

(** * Sessions on several threads

    Each thread opens and closes sessions.  A step of the system is one atomic
    operation on [session_count]; a thread that [fetch_sub] told of an
    underflow has yet to undo it. *)

Inductive thread : Type := idle | in_session | undoing.
#[export] Instance thread_eq_dec : EqDecision thread.
Proof. solve_decision. Defined.

Record sessions : Type := {
  count : Z;
  threads : list thread;
}.

Definition fetch_sub (n : Z) : Z := u32 (n - 1).

(** [forced]: whether [deactivate(true)] is called at all. *)
Inductive session_step (forced : bool) : sessions -> sessions -> Prop :=
| step_open n ts i :
    ts !! i = Some idle ->
    session_step forced {| count := n; threads := ts |}
      {| count := u32 (n + 1); threads := <[i := in_session]> ts |}
| step_close n ts i :
    ts !! i = Some in_session ->
    session_step forced {| count := n; threads := ts |}
      {| count := fetch_sub n; threads := <[i := if n =? 0 then undoing else idle]> ts |}
| step_undo n ts i :
    ts !! i = Some undoing ->
    session_step forced {| count := n; threads := ts |}
      {| count := u32 (n + 1); threads := <[i := idle]> ts |}
| step_force n ts :
    forced = true ->
    session_step forced {| count := n; threads := ts |} {| count := 0; threads := ts |}.

Definition no_sessions (k : nat) : sessions := {| count := 0; threads := repeat idle k |}.

Definition open_sessions (ts : list thread) : Z := Zlen (filter (fun t => t = in_session) ts).

(** A closing session with no other step in between is [deactivate]. *)
Lemma deactivate_is_steps c :
  deactivate c false =
  let n := session_count c in
  {| value := value c; session_count := if n =? 0 then u32 (fetch_sub n + 1) else fetch_sub n |}.
Proof. unfold deactivate, fetch_sub. simpl. by destruct (session_count c =? 0). Qed.

Definition counts (t : thread) : Z := if decide (t = in_session) then 1 else 0.

Lemma open_sessions_cons t ts : open_sessions (t :: ts) = counts t + open_sessions ts.
Proof. unfold open_sessions, counts. rewrite filter_cons. case_decide; [rewrite Zlen_cons|]; lia. Qed.

Lemma open_sessions_insert ts : forall i a b, ts !! i = Some a ->
  open_sessions (<[i := b]> ts) = open_sessions ts - counts a + counts b.
Proof.
  induction ts as [|t ts IH]; intros i a b Hi; [done|]. destruct i as [|i]; simpl in *.
  - simplify_eq. rewrite !open_sessions_cons. lia.
  - rewrite !open_sessions_cons, (IH i a b Hi). lia.
Qed.

Lemma open_sessions_bounds ts : 0 <= open_sessions ts <= Zlen ts.
Proof.
  induction ts as [|t ts IH]; [done|]. rewrite open_sessions_cons, Zlen_cons. unfold counts. case_decide; lia.
Qed.

Lemma open_sessions_pos ts i : ts !! i = Some in_session -> 1 <= open_sessions ts.
Proof.
  intros Hi. pose proof (open_sessions_insert ts i _ idle Hi) as H.
  pose proof (open_sessions_bounds (<[i := idle]> ts)). unfold counts in H. simpl in H. lia.
Qed.

Lemma open_sessions_idle k : open_sessions (repeat idle k) = 0.
Proof. induction k; [done|]. simpl. rewrite open_sessions_cons, IHk. done. Qed.

(** What holds in every state reachable without force. *)
Definition counted (s : sessions) : Prop :=
  count s = open_sessions (threads s) /\ undoing ∉ threads s /\ Zlen (threads s) < 2 ^ 32.

Lemma not_undoing_insert (ts : list thread) (i : nat) t : undoing ∉ ts -> t <> undoing -> undoing ∉ <[i := t]> ts.
Proof.
  intros Hts Ht Hin. apply list_elem_of_lookup in Hin as [j Hj].
  apply list_lookup_insert_Some in Hj as [(_ & Hj & _) | [_ Hj]]; [by rewrite Hj in Ht|].
  apply Hts. by eapply list_elem_of_lookup_2.
Qed.

Lemma counted_step s s' : session_step false s s' -> counted s -> counted s'.
Proof.
  unfold counted. destruct 1 as [n ts i Hi | n ts i Hi | n ts i Hi | n ts Hf]; simpl; intros (Hc & Hu & Hl);
    [| |by destruct Hu; eapply list_elem_of_lookup_2|done].
  - pose proof (open_sessions_bounds (<[i := in_session]> ts)) as Hb. rewrite Zlen_insert in *.
    erewrite open_sessions_insert in * by done. change (counts idle) with 0 in *. change (counts in_session) with 1 in *.
    rewrite u32_small by lia. split_and!; [lia|by apply not_undoing_insert|done].
  - pose proof (open_sessions_pos _ _ Hi) as Hp. pose proof (open_sessions_bounds ts).
    zfalse (n =? 0). erewrite open_sessions_insert by done. change (counts idle) with 0. change (counts in_session) with 1.
    unfold fetch_sub. rewrite u32_small by lia. rewrite Zlen_insert. split_and!; [lia|by apply not_undoing_insert|done].
Qed.

Lemma counted_reachable s s' : rtc (session_step false) s s' -> counted s -> counted s'.
Proof. induction 1 as [|s s1 s2 Hstep _ IH]; [done|]. intros Hs. eapply IH, counted_step; eauto. Qed.

Lemma no_sessions_counted k : Z.of_nat k < 2 ^ 32 -> counted (no_sessions k).
Proof.
  intros Hk. unfold counted, no_sessions; simpl. rewrite open_sessions_idle. split; [done|]. split.
  - intros Hin. apply list_elem_of_In, repeat_spec in Hin. done.
  - unfold Zlen. rewrite repeat_length. done.
Qed.

(** C17: However the threads interleave, as long as no session is cancelled by
    force, [session_count] is the number of threads that are in a session, no
    thread ever sees an underflow, and the assignable clock is active exactly
    when there is a session, among less than a million threads. *)
Theorem session_count_exact (k : nat) (s : sessions) :
  rtc (session_step false) (no_sessions k) s -> Z.of_nat k < 1000000 ->
  count s = open_sessions (threads s) /\ undoing ∉ threads s /\
  (is_active_count (count s) = true <-> in_session ∈ threads s).
Proof.
  intros Hr Hk. destruct (counted_reachable _ _ Hr) as (Hc & Hu & _); [apply no_sessions_counted; lia|].
  split; [done|]. split; [done|].
  assert (Zlen (threads s) = Z.of_nat k) as Hlen.
  { clear -Hr. remember (no_sessions k) as s0 eqn:E0.
    assert (Zlen (threads s0) = Z.of_nat k) as H0 by (subst; unfold Zlen; simpl; by rewrite repeat_length).
    clear E0. induction Hr as [|s0 s1 s2 Hs _ IH]; [done|]. apply IH. rewrite <-H0. destruct Hs; simpl; rewrite ?Zlen_insert; done. }
  pose proof (open_sessions_bounds (threads s)) as Hb. unfold is_active_count. rewrite Hc. split.
  - intros Ha. apply andb_prop in Ha as [Ha _]. apply Z.ltb_lt in Ha.
    destruct (decide (in_session ∈ threads s)) as [|Hn]; [done|]. exfalso. unfold open_sessions in Ha.
    destruct (filter (fun t => t = in_session) (threads s)) as [|t l] eqn:E; [done|].
    assert (t ∈ filter (fun t => t = in_session) (threads s)) as Ht by (rewrite E; by left).
    apply list_elem_of_filter in Ht as [-> Ht]. done.
  - intros Hin. apply list_elem_of_lookup in Hin as [i Hi]. apply open_sessions_pos in Hi.
    ztrue (0 <? open_sessions (threads s)). by ztrue (open_sessions (threads s) <? 1000000).
Qed.

Lemma session_count_exact_witness :
  count {| count := 1; threads := [idle; in_session] |} = open_sessions [idle; in_session].
Proof.
  apply (session_count_exact 2 {| count := 1; threads := [idle; in_session] |}); [|lia].
  eapply rtc_l; [apply (step_open _ 0 [idle; idle] 0); done|].
  eapply rtc_l; [apply (step_open _ 1 [in_session; idle] 1); done|].
  eapply rtc_l; [apply (step_close _ 2 [in_session; in_session] 0); done|]. apply rtc_refl.
Defined.

(** With cancelling by force the count is no longer the number of sessions:
    two threads can leave it at 1, and the clock active, when none is in a
    session, because a thread adds back the 1 it subtracted after the count was
    set to 0 again; and a session that ends after it was cancelled closes the
    session another thread has opened since. *)
Theorem force_unbalances_sessions :
  rtc (session_step true) (no_sessions 2) {| count := 1; threads := [idle; idle] |} /\
  is_active_count 1 = true /\
  rtc (session_step true) (no_sessions 2) {| count := 0; threads := [idle; in_session] |} /\
  is_active_count 0 = false.
Proof.
  split_and!; [|done| |done].
  - eapply rtc_l; [apply (step_open _ 0 [idle; idle] 0); done|].
    eapply rtc_l; [apply (step_force _ 1 [in_session; idle]); done|].
    eapply rtc_l; [apply (step_close _ 0 [in_session; idle] 0); done|].
    eapply rtc_l; [apply (step_force _ 4294967295 [undoing; idle]); done|].
    eapply rtc_l; [apply (step_undo _ 0 [undoing; idle] 0); done|]. apply rtc_refl.
  - eapply rtc_l; [apply (step_open _ 0 [idle; idle] 0); done|].
    eapply rtc_l; [apply (step_force _ 1 [in_session; idle]); done|].
    eapply rtc_l; [apply (step_open _ 0 [in_session; idle] 1); done|].
    eapply rtc_l; [apply (step_close _ 1 [in_session; in_session] 0); done|]. apply rtc_refl.
Qed.
