(* ===== verification/Lexer.v ===== *)
(** * The lexer: lang/lexer.h, lexer-inline.h and lexer.cpp, with token.h/.cpp, note.h/.cpp

    The text is read-only memory.  A token value of string type points at
    the lexer's [unwrapped_text]; it is modelled by [vt_string], and its text
    is the current [unwrapped_text].  The entries of [indent_stack] that were
    never written hold an unknown byte, [garbage]. *)

From stdpp Require Import base tactics list gmap strings.
From Stdlib Require Import ZArith Lia.
From S2P Require Import Prelude CString ScanNumbers Unicode Tokens StrView StdString.
#[local] Open Scope Z_scope.

(** ** State *)

(** The alternatives of [arg] that a lexer stores. *)
Inductive token_value : Type :=
| vt_empty
| vt_signed (n : Z)
| vt_unsigned (n : Z)
| vt_float (d : double)
| vt_string.

Record token : Type := {
  t_type : Z;
  substr : str_view;
  t_value : token_value;
}.

Record note : Type := {
  issue : Z;
  site_line : Z;
  site_offset : Z;
}.

Record lexer : Type := {
  txt : str_view;
  t : token;
  unwrapped_text : list Z;
  line_begin : Z;
  p : Z;
  inconsistent_indent : Z;
  line_number : Z;
  total_indent_width : Z;
  indent_dedent_delta : Z;
  last_stack_insert_idx : Z;
  indent_stack : gmap Z Z;
  pending_error : option note;
}.

Definition NO_INDENT_YET : Z := 2 ^ 32 - 1.
Definition EMPTY_INDENT_STACK : Z := 0.
Definition indent_stack_size : Z := 64.

Definition token_eq (a b : token) : bool :=
  (t_type a =? t_type b) && view_eq (substr a) (substr b).

(** Assignments to the members. *)
Definition set_t (lx : lexer) (v : token) : lexer :=
  {| txt := txt lx; t := v; unwrapped_text := unwrapped_text lx; line_begin := line_begin lx;
     p := p lx; inconsistent_indent := inconsistent_indent lx; line_number := line_number lx;
     total_indent_width := total_indent_width lx; indent_dedent_delta := indent_dedent_delta lx;
     last_stack_insert_idx := last_stack_insert_idx lx; indent_stack := indent_stack lx;
     pending_error := pending_error lx |}.
Definition set_text (lx : lexer) (v : list Z) : lexer :=
  {| txt := txt lx; t := t lx; unwrapped_text := v; line_begin := line_begin lx;
     p := p lx; inconsistent_indent := inconsistent_indent lx; line_number := line_number lx;
     total_indent_width := total_indent_width lx; indent_dedent_delta := indent_dedent_delta lx;
     last_stack_insert_idx := last_stack_insert_idx lx; indent_stack := indent_stack lx;
     pending_error := pending_error lx |}.
Definition set_p (lx : lexer) (v : Z) : lexer :=
  {| txt := txt lx; t := t lx; unwrapped_text := unwrapped_text lx; line_begin := line_begin lx;
     p := v; inconsistent_indent := inconsistent_indent lx; line_number := line_number lx;
     total_indent_width := total_indent_width lx; indent_dedent_delta := indent_dedent_delta lx;
     last_stack_insert_idx := last_stack_insert_idx lx; indent_stack := indent_stack lx;
     pending_error := pending_error lx |}.
Definition set_line (lx : lexer) (number b : Z) : lexer :=
  {| txt := txt lx; t := t lx; unwrapped_text := unwrapped_text lx; line_begin := b;
     p := p lx; inconsistent_indent := inconsistent_indent lx; line_number := number;
     total_indent_width := total_indent_width lx; indent_dedent_delta := indent_dedent_delta lx;
     last_stack_insert_idx := last_stack_insert_idx lx; indent_stack := indent_stack lx;
     pending_error := pending_error lx |}.
Definition set_inconsistent (lx : lexer) (v : Z) : lexer :=
  {| txt := txt lx; t := t lx; unwrapped_text := unwrapped_text lx; line_begin := line_begin lx;
     p := p lx; inconsistent_indent := v; line_number := line_number lx;
     total_indent_width := total_indent_width lx; indent_dedent_delta := indent_dedent_delta lx;
     last_stack_insert_idx := last_stack_insert_idx lx; indent_stack := indent_stack lx;
     pending_error := pending_error lx |}.
Definition set_indent (lx : lexer) (total delta idx : Z) (stack : gmap Z Z) : lexer :=
  {| txt := txt lx; t := t lx; unwrapped_text := unwrapped_text lx; line_begin := line_begin lx;
     p := p lx; inconsistent_indent := inconsistent_indent lx; line_number := line_number lx;
     total_indent_width := total; indent_dedent_delta := delta;
     last_stack_insert_idx := idx; indent_stack := stack; pending_error := pending_error lx |}.
Definition set_error (lx : lexer) (v : option note) : lexer :=
  {| txt := txt lx; t := t lx; unwrapped_text := unwrapped_text lx; line_begin := line_begin lx;
     p := p lx; inconsistent_indent := inconsistent_indent lx; line_number := line_number lx;
     total_indent_width := total_indent_width lx; indent_dedent_delta := indent_dedent_delta lx;
     last_stack_insert_idx := last_stack_insert_idx lx; indent_stack := indent_stack lx;
     pending_error := v |}.

Definition set_delta (lx : lexer) (delta : Z) : lexer :=
  set_indent lx (total_indent_width lx) delta (last_stack_insert_idx lx) (indent_stack lx).
Definition set_type (lx : lexer) (tt : Z) : lexer :=
  set_t lx {| t_type := tt; substr := substr (t lx); t_value := t_value (t lx) |}.
Definition set_value (lx : lexer) (v : token_value) : lexer :=
  set_t lx {| t_type := t_type (t lx); substr := substr (t lx); t_value := v |}.
Definition set_substr (lx : lexer) (v : str_view) : lexer :=
  set_t lx {| t_type := t_type (t lx); substr := v; t_value := t_value (t lx) |}.
(** [t.substr.end_at(e)]. *)
Definition end_token_at (lx : lexer) (e : Z) : lexer := set_substr lx (end_at (substr (t lx)) e).

(** [txt.end()]. *)
Definition text_end (lx : lexer) : Z := view_end (txt lx).

(** ** Chars *)

Definition is_line_break (c : Z) : bool := (c =? LF) || (c =? CR).

(** [isalpha] and the like, in the C locale.  They are not defined on a
    negative char other than EOF. *)
Definition ctype (f : Z -> bool) (c : Z) : res bool := if c <? -1 then Undef else Ok (f c).
Definition isalpha : Z -> res bool := ctype is_ascii_alpha.
Definition isdigit : Z -> res bool := ctype is_ascii_digit.
Definition isalnum : Z -> res bool := ctype is_ascii_alphanumeric.
Definition isupper : Z -> res bool := ctype is_ascii_upper.

Definition scan_rest_of_line (m : mem) (p e : Z) : res Z :=
  iterate (span_fuel p e) (fun p =>
    if p <? e then
      let! c := load m p in
      if is_line_break c then Ok (inr p) else Ok (inl (p + 1))
    else Ok (inr p)) p.

Definition scan_phrase (m : mem) (p e : Z) : res Z :=
  iterate (span_fuel p e) (fun p =>
    if p <? e then
      let! c := load m p in
      let! alpha := isalpha c in
      if negb alpha then Ok (inr p) else Ok (inl (p + 1))
    else Ok (inr p)) p.

(** ** Notes *)

(** The url of the site is nullptr in the notes of a lexer. *)
Definition note_to_string (n : note) : res (list Z) :=
  let! msg := get_issue_msg (issue n) in
  match msg with
  | None => Undef
  | Some msg =>
      Ok (str "line " ++ show_unsigned (site_line n) ++ str ", offset " ++
          show_unsigned (site_offset n) ++ str ": error " ++ show_unsigned (issue n) ++
          str " -- " ++ str msg)
  end.

Definition push_error (lx : lexer) (i : Z) : lexer :=
  set_error lx (Some {| issue := i; site_line := line_number lx;
                        site_offset := u32 (p lx - line_begin lx) |}).

(** ** Indents *)

Definition push_indent (lx : lexer) (new_indent_width : Z) : res lexer :=
  let idx := u32 (last_stack_insert_idx lx + 1) in
  if idx <? indent_stack_size then
    Ok (set_indent lx (u32 (total_indent_width lx + new_indent_width)) 1 idx
          (<[idx := u8 new_indent_width]> (indent_stack lx)))
  else Undef.

Definition pop_indent (lx : lexer) : res (Z * lexer) :=
  let idx := last_stack_insert_idx lx in
  if EMPTY_INDENT_STACK <? idx then
    match indent_stack lx !! idx with
    | None => Undef
    | Some width =>
        Ok (width, set_indent lx (u32 (total_indent_width lx - width)) (indent_dedent_delta lx)
                     (idx - 1) (indent_stack lx))
    end
  else Ok (0, lx).

(** Returns the width and [inconsistent]. *)
Definition get_indent_width (m : mem) (p e indent_char : Z) : res (Z * Z) :=
  let! (_, value, inconsistent) := iterate (span_fuel p e) (fun '(p, value, inconsistent) =>
    if p <? e then
      let! c := load m p in
      Ok (inl (p + 1, u32 (value + (if c =? TAB then 4 else 1)),
               if (inconsistent =? 0) && negb (c =? indent_char) then p else inconsistent))
    else Ok (inr (p, value, inconsistent))) (p, 0, 0) in
  Ok (value, inconsistent).

Section lexing.
Context (garbage : Z) (pow : double -> double -> double).

Definition get_indent_char (lx : lexer) : Z := to_char (default garbage (indent_stack lx !! 0)).

(** The indent of a line that is not empty. *)
Definition update_indent (m : mem) (lx : lexer) (end_of_indent : Z) : res lexer :=
  let! (indent_width, inconsistent) :=
    get_indent_width m (line_begin lx) end_of_indent (get_indent_char lx) in
  let lx := set_inconsistent lx inconsistent in
  if total_indent_width lx <? indent_width then
    let! lx :=
      if last_stack_insert_idx lx =? NO_INDENT_YET then
        let! c := load m (line_begin lx) in
        Ok (set_indent lx (total_indent_width lx) (indent_dedent_delta lx) EMPTY_INDENT_STACK
              (<[0 := u8 c]> (indent_stack lx)))
      else Ok lx in
    push_indent lx (u32 (indent_width - total_indent_width lx))
  else if indent_width <? total_indent_width lx then
    Ok (set_delta lx (i32 (-1 * i32 (u32 (total_indent_width lx - indent_width)))))
  else Ok lx.

(** One turn of the loop of [scan_beginning_of_line]. *)
Definition scan_line (m : mem) (lx : lexer) : res (lexer + Z * lexer) :=
  let e := text_end lx in
  if p lx <? e then
    let lx := set_line lx (u32 (line_number lx + 1)) (p lx) in
    let! end_of_indent := scan_spaces_and_tabs m (p lx) e in
    if end_of_indent =? e then Ok (inr (e, lx))
    else
      let lx := set_p lx end_of_indent in
      let! c := load m (p lx) in
      if is_line_break c then
        let! q := consume_line_break m (p lx) e in Ok (inl (set_p lx q))
      else
        let! lx := update_indent m lx end_of_indent in Ok (inr (p lx, lx))
  else Ok (inr (p lx, lx)).

Definition scan_beginning_of_line (m : mem) (lx : lexer) : res (Z * lexer) :=
  iterate (span_fuel (p lx) (text_end lx)) (scan_line m) lx.

(** ** Numbers *)

Definition set_possibly_signed_value (tok : token) (negative : bool) (n : Z) : res token :=
  let set v := {| t_type := t_type tok; substr := substr tok; t_value := v |} in
  if negative then
    if i64 n =? - 2 ^ 63 then Undef else Ok (set (vt_signed (-1 * i64 n)))
  else Ok (set (vt_unsigned n)).

Definition token_ends (tok : token) (ty e : Z) : token :=
  {| t_type := ty; substr := end_at (substr tok) e; t_value := t_value tok |}.

(** The part of [get_number_token] from the decimal digits on. *)
Definition get_decimal_token (m : mem) (p e : Z) (floating_point negative : bool)
    (whole_number : Z) (tok : token) : res token :=
  let! c := if negb floating_point && (t_type tok =? tt_none) && (p <? e) then load m p else Ok 0 in
  let! (p, floating_point, value) :=
    if floating_point || ((t_type tok =? tt_none) && (p <? e) && (c =? "."%ch)) then
      let! (p, value) := scan_decimal_digits_post_radix m (p + 1) e in Ok (p, true, value)
    else Ok (p, floating_point, double_of_Z 0) in
  let value := if floating_point : bool then dadd value (double_of_Z whole_number) else value in
  let! c := if p + 1 <? e then load m p else Ok 0 in
  let! (p, floating_point, value) :=
    if (p + 1 <? e) && ((c =? "e"%ch) || (c =? "E"%ch)) then
      let! (p, negative_exponent, exponent) := scan_decimal_number m (p + 1) e in
      let exp := double_of_Z exponent in
      let exp := if negative_exponent then dmul exp (double_of_Z (-1)) else exp in
      let value := dmul value (pow (double_of_Z 10) exp) in
      Ok (p, true, if negative then dmul value (double_of_Z (-1)) else value)
    else Ok (p, floating_point, value) in
  if floating_point : bool then
    Ok {| t_type := tt_floating_point_number; substr := end_at (substr tok) p; t_value := vt_float value |}
  else set_possibly_signed_value (token_ends tok tt_decimal_number p) negative whole_number.

Definition get_number_token (m : mem) (p e : Z) (tok : token) : res token :=
  let! (p, c, negative) := read_sign m p in
  let floating_point := c =? "."%ch in
  if negb floating_point then
    let! prefixed :=
      if (c =? "0"%ch) && (p + 2 <? e) then
        let! c := load m (p + 1) in
        if (c =? "x"%ch) || (c =? "X"%ch) then
          let! (q, n) := scan_hex_digits m (p + 2) e in Ok (Some (q, n, tt_hex_number))
        else if (c =? "b"%ch) || (c =? "B"%ch) then
          let! (q, n) := scan_binary_digits m (p + 2) e in Ok (Some (q, n, tt_binary_number))
        else if ("0"%ch <=? c) && (c <=? "7"%ch) then
          let! (q, n) := scan_octal_digits m (p + 2) e in Ok (Some (q, n, tt_octal_number))
        else Ok None
      else Ok None in
    match prefixed with
    | Some (q, n, ty) => set_possibly_signed_value (token_ends tok ty q) negative n
    | None =>
        let! (p, n) := scan_decimal_digits_pre_radix m p e in
        get_decimal_token m p e false negative n tok
    end
  else get_decimal_token m p e true negative 0 tok.

Definition scan_number_token (m : mem) (lx : lexer) : res lexer :=
  let! tok := get_number_token m (p lx) (text_end lx) (t lx) in Ok (set_t lx tok).

(** ** Operators *)

Definition consume (lx : lexer) (char_count ty : Z) : lexer :=
  let lx := set_p lx (p lx + char_count) in end_token_at (set_type lx ty) (p lx).

(** [p + n < end && p[n] == c], short-circuited. *)
Definition next_is (m : mem) (lx : lexer) (n c : Z) : res bool :=
  if p lx + n <? text_end lx then let! x := load m (p lx + n) in Ok (x =? c) else Ok false.

(** [p[1]], when [p + 1 < end]. *)
Definition peek (m : mem) (lx : lexer) : res (option Z) :=
  if p lx + 1 <? text_end lx then let! x := load m (p lx + 1) in Ok (Some x) else Ok None.

Definition scan_lt (m : mem) (lx : lexer) : res lexer :=
  let! next := peek m lx in
  match next with
  | Some c =>
      if c =? "<"%ch then
        let! b := next_is m lx 2 "="%ch in
        Ok (if b : bool then consume lx 3 tt_operator_lshift_equals else consume lx 2 tt_operator_lshift)
      else if c =? "="%ch then
        let! b := next_is m lx 2 ">"%ch in
        if b : bool then
          let! b := next_is m lx 3 "?"%ch in
          Ok (if b : bool then consume lx 4 tt_operator_spaceshipq else consume lx 3 tt_operator_spaceship)
        else Ok (consume lx 2 tt_operator_less_equal)
      else Ok (consume lx 1 tt_operator_less)
  | None => Ok (consume lx 1 tt_operator_less)
  end.

Definition scan_brace (m : mem) (lx : lexer) : res lexer :=
  let! b := next_is m lx 1 "?"%ch in
  Ok (if b : bool then consume lx 2 tt_operator_safe_empty else consume lx 1 tt_operator_brace).

Definition scan_gt (m : mem) (lx : lexer) : res lexer :=
  let! next := peek m lx in
  match next with
  | Some c =>
      if c =? ">"%ch then
        if p lx + 2 <? text_end lx then
          let! d := load m (p lx + 2) in
          Ok (if d =? "="%ch then consume lx 3 tt_operator_rshift_equals
              else if d =? ">"%ch then consume lx 3 tt_operator_unsigned_rshift
              else consume lx 2 tt_operator_rshift)
        else Ok (consume lx 2 tt_operator_rshift)
      else if c =? "="%ch then Ok (consume lx 2 tt_operator_greater_equal)
      else Ok (consume lx 1 tt_operator_greater)
  | None => Ok (consume lx 1 tt_operator_greater)
  end.

(** The operators that need a look at the next char only: [cases] gives the
    second char of each two-char operator and its token type. *)
Definition scan_pair (m : mem) (lx : lexer) (cases : list (Z * Z)) (otherwise : Z) : res lexer :=
  let! next := peek m lx in
  match next with
  | Some c =>
      match list_find (fun case => case.1 = c) cases with
      | Some (_, (_, ty)) => Ok (consume lx 2 ty)
      | None => Ok (consume lx 1 otherwise)
      end
  | None => Ok (consume lx 1 otherwise)
  end.

Definition scan_colon (m : mem) (lx : lexer) : res lexer :=
  scan_pair m lx [("="%ch, tt_operator_gets); (":"%ch, tt_operator_instance_of)] tt_operator_colon.
Definition scan_star (m : mem) (lx : lexer) : res lexer :=
  scan_pair m lx [("."%ch, tt_operator_spread); ("="%ch, tt_operator_times_equals)] tt_operator_star.
Definition scan_slash (m : mem) (lx : lexer) : res lexer :=
  scan_pair m lx [("="%ch, tt_operator_divide_equals)] tt_operator_slash.
Definition scan_amper (m : mem) (lx : lexer) : res lexer :=
  scan_pair m lx [("&"%ch, tt_operator_bool_and); ("="%ch, tt_operator_bit_and_equals)]
    tt_operator_bit_and.
Definition scan_equals (m : mem) (lx : lexer) : res lexer :=
  scan_pair m lx [("="%ch, tt_operator_bool_equal)] tt_operator_assign_equals.
Definition scan_pipe (m : mem) (lx : lexer) : res lexer :=
  scan_pair m lx [("|"%ch, tt_operator_bool_or); ("="%ch, tt_operator_bit_or_equals)]
    tt_operator_bit_or.
Definition scan_caret (m : mem) (lx : lexer) : res lexer :=
  scan_pair m lx [("="%ch, tt_operator_bit_xor_equals)] tt_operator_bit_xor.
Definition scan_percent (m : mem) (lx : lexer) : res lexer :=
  scan_pair m lx [("="%ch, tt_operator_mod_equals)] tt_operator_mod.

Definition scan_bang (m : mem) (lx : lexer) : res lexer :=
  let! next := peek m lx in
  match next with
  | Some c =>
      if c =? "="%ch then Ok (consume lx 2 tt_operator_not_equal)
      else if c =? "-"%ch then
        let! b := next_is m lx 2 "["%ch in
        Ok (if b : bool then consume lx 3 tt_operator_not_in else consume lx 1 tt_operator_bool_not)
      else Ok (consume lx 1 tt_operator_bool_not)
  | None => Ok (consume lx 1 tt_operator_bool_not)
  end.

Definition scan_dot (m : mem) (lx : lexer) : res lexer :=
  let! next := peek m lx in
  match next with
  | Some c =>
      let! digit := isdigit c in
      if digit : bool then scan_number_token m lx else Ok (consume lx 1 tt_operator_dot)
  | None => Ok (consume lx 1 tt_operator_dot)
  end.

Definition scan_minus (m : mem) (lx : lexer) : res lexer :=
  let! next := peek m lx in
  match next with
  | Some c =>
      if c =? "-"%ch then
        let! b := next_is m lx 2 "<"%ch in
        Ok (if b : bool then consume lx 3 tt_operator_double_negative_mark
            else consume lx 2 tt_operator_decrement)
      else if c =? "="%ch then Ok (consume lx 2 tt_operator_minus_equals)
      else if c =? "["%ch then Ok (consume lx 2 tt_operator_in)
      else if c =? "<"%ch then Ok (consume lx 2 tt_operator_negative_mark)
      else
        let! digit := isdigit c in
        if digit : bool then scan_number_token m lx else Ok (consume lx 1 tt_operator_minus)
  | None => Ok (consume lx 1 tt_operator_minus)
  end.

Definition scan_plus (m : mem) (lx : lexer) : res lexer :=
  let! next := peek m lx in
  match next with
  | Some c =>
      if c =? "+"%ch then
        let! b := next_is m lx 2 "<"%ch in
        Ok (if b : bool then consume lx 3 tt_operator_double_positive_mark
            else consume lx 2 tt_operator_increment)
      else if c =? "="%ch then Ok (consume lx 2 tt_operator_plus_equals)
      else if c =? "<"%ch then Ok (consume lx 2 tt_operator_positive_mark)
      else
        let! digit := isdigit c in
        if digit : bool then scan_number_token m lx else Ok (consume lx 1 tt_operator_plus)
  | None => Ok (consume lx 1 tt_operator_plus)
  end.

Definition scan_question (m : mem) (lx : lexer) : res lexer :=
  let! next := peek m lx in
  match next with
  | Some c =>
      if c =? "."%ch then Ok (consume lx 2 tt_operator_safe_dot)
      else if c =? "["%ch then
        let! b := next_is m lx 2 "?"%ch in
        Ok (if b : bool then consume lx 3 tt_operator_safe_subscript_safe_empty
            else consume lx 2 tt_operator_safe_subscript)
      else if c =? ":"%ch then Ok (consume lx 2 tt_operator_elvis)
      else if (c =? "<"%ch) && (p lx + 3 <? text_end lx) then
        let! b := next_is m lx 2 "="%ch in
        let! b := if b : bool then next_is m lx 3 ">"%ch else Ok false in
        Ok (if b : bool then consume lx 4 tt_operator_qspaceship else consume lx 1 tt_operator_ternary)
      else Ok (consume lx 1 tt_operator_ternary)
  | None => Ok (consume lx 1 tt_operator_ternary)
  end.

(** ** Phrases, comments and strings *)

Definition ellipsis_at (m : mem) (next : Z) : res bool :=
  let! c := load m next in
  if negb (c =? "."%ch) then Ok false else
  let! c := load m (next + 1) in
  if negb (c =? "."%ch) then Ok false else
  let! c := load m (next + 2) in
  Ok (c =? "."%ch).

Definition next_line_continues (m : mem) (lx : lexer) (beginning_of_next_line : Z) :
    res (bool * lexer) :=
  let last_line_num := line_number lx in
  let last_indent := total_indent_width lx in
  let! (next, lx) := scan_beginning_of_line m (set_p lx beginning_of_next_line) in
  if negb (u32 (last_line_num + 1) =? line_number lx) || negb (last_indent =? total_indent_width lx)
  then Ok (false, lx)
  else if text_end lx <=? next + 3 then Ok (false, lx)
  else
    let! dots := ellipsis_at m next in
    if negb dots then Ok (false, lx) else Ok (true, set_p lx (next + 3)).

(** One turn of the loop of [get_phrase_token]; [inr] leaves it. *)
Definition phrase_step (m : mem) (lx : lexer) : res (lexer + lexer) :=
  if p lx =? text_end lx then Ok (inr lx)
  else
    let! c := load m (p lx) in
    let! alnum := isalnum c in
    if (alnum : bool) || (c =? "'"%ch) || (c =? " "%ch) then
      let lx := set_text lx (unwrapped_text lx ++ [c]) in Ok (inl (set_p lx (p lx + 1)))
    else if is_line_break c then
      let! q := consume_line_break m (p lx) (text_end lx) in
      let! (continues, lx) := next_line_continues m lx q in
      Ok (inr (if continues : bool then set_text lx (unwrapped_text lx ++ [" "%ch]) else lx))
    else Ok (inr lx).

Definition get_phrase_token (m : mem) (lx : lexer) : res lexer :=
  let lx := set_text lx [] in
  let! c := load m (p lx) in
  let! upper := isupper c in
  let lx := set_type lx (if upper : bool then tt_verb else tt_noun) in
  let! lx := iterate (span_fuel (p lx) (text_end lx)) (phrase_step m) lx in
  Ok (set_value (end_token_at lx (p lx)) vt_string).

Definition comment_step (m : mem) (lx : lexer) : res (lexer + lexer) :=
  let e := text_end lx in
  let lx := set_p lx (p lx + 1) in
  let! end_of_line := scan_rest_of_line m (p lx) e in
  let! after_spaces := scan_spaces_and_tabs m (p lx) e in
  let! lx :=
    if after_spaces <? end_of_line then
      let! rtrim_result := rtrim m after_spaces end_of_line None in
      let text := unwrapped_text lx ++
        (if bool_decide (unwrapped_text lx = []) then [] else [" "%ch]) in
      let! content := load_range m after_spaces rtrim_result in
      Ok (set_text lx (text ++ content))
    else Ok lx in
  let! (continues, lx) := next_line_continues m lx (end_of_line + 1) in
  Ok (if continues : bool then inl lx else inr lx).

Definition get_comment_token (m : mem) (lx : lexer) : res (Z * lexer) :=
  let lx := set_text lx [] in
  let! lx := iterate (S (span_fuel (p lx) (text_end lx))) (comment_step m) lx in
  Ok (p lx, set_value lx vt_string).

Definition scan_hash (m : mem) (lx : lexer) : res lexer :=
  let! doc :=
    if p lx + 2 <? text_end lx then
      let! b := next_is m lx 1 "#"%ch in if b : bool then next_is m lx 2 "#"%ch else Ok false
    else Ok false in
  let lx := if doc : bool then set_type (set_p lx (p lx + 2)) tt_doc_comment
            else set_type lx tt_comment in
  let! (e, lx) := get_comment_token m lx in
  Ok (end_token_at lx e).

(** The chars of a codepoint, by way of the local buffer of sixteen bytes. *)
Definition append_codepoint (text : list Z) (cp : Z) : res (list Z) :=
  let buf : mem := map_seqZ 1 (replicate 16 garbage) in
  let! (_, w) := cat_codepoint_to_utf8 (buf, 1, 16) cp in
  let! n := strlen w.1.1 1 in
  let! l := load_range w.1.1 1 (1 + n) in
  Ok (text ++ l).

(** One turn of the loop of [get_string_literal] for quote [ch]. *)
Definition string_step (m : mem) (ch : Z) (lx : lexer) : res (lexer + lexer) :=
  let e := text_end lx in
  let plain lx c := Ok (inl (set_p (set_text lx (unwrapped_text lx ++ [c])) (p lx + 1))) in
  if p lx <? e then
    let! c := load m (p lx) in
    if c =? ch then Ok (inr (set_p lx (p lx + 1)))
    else if c =? BACKSLASH then
      let! (seq_end, cp) := scan_unicode_escape_sequence m (p lx + 1) garbage in
      if negb (cp =? UNICODE_REPLACEMENT_CHAR) && (p lx <? seq_end) && (seq_end <=? e) then
        let! text := append_codepoint (unwrapped_text lx) cp in
        Ok (inl (set_p (set_text lx text) seq_end))
      else plain lx c
    else if is_line_break c then
      let! q := consume_line_break m (p lx) e in
      let! (continues, lx) := next_line_continues m lx q in
      if continues : bool then plain lx " "%ch
      else Ok (inr (push_error lx ii_unterminated_string_literal))
    else plain lx c
  else Ok (inr lx).

Definition get_string_literal (m : mem) (lx : lexer) (ch : Z) : res (Z * lexer) :=
  let lx := set_text lx [] in
  let! lx := iterate (span_fuel (p lx) (text_end lx)) (string_step m ch) lx in
  Ok (p lx, set_value lx vt_string).

Definition scan_quote (m : mem) (lx : lexer) : res lexer :=
  let lx := set_type lx tt_quoted_string in
  let! c := load m (p lx) in
  let! (e, lx) := get_string_literal m (set_p lx (p lx + 1)) c in
  Ok (end_token_at lx e).

(** ** Advancing *)

(** The [default] case of the switch. *)
Definition scan_other (m : mem) (lx : lexer) : res lexer :=
  let! c := load m (p lx) in
  let! alpha := isalpha c in
  if alpha : bool then get_phrase_token m lx
  else
    let! digit := isdigit c in
    if digit : bool then scan_number_token m lx
    else Ok (end_token_at (set_type lx tt_error) (p lx + 1)).

(** The cases of the switch that scan a token. *)
Definition scan_token (m : mem) (lx : lexer) (c : Z) : res lexer :=
  if c =? "<"%ch then scan_lt m lx
  else if c =? ">"%ch then scan_gt m lx
  else if c =? "?"%ch then scan_question m lx
  else if c =? "."%ch then scan_dot m lx
  else if c =? "="%ch then scan_equals m lx
  else if c =? "~"%ch then Ok (consume lx 1 tt_operator_bit_not)
  else if c =? "["%ch then scan_brace m lx
  else if c =? "]"%ch then Ok (consume lx 1 tt_operator_close_brace)
  else if c =? "("%ch then Ok (consume lx 1 tt_operator_paren)
  else if c =? ")"%ch then Ok (consume lx 1 tt_operator_close_paren)
  else if c =? "/"%ch then scan_slash m lx
  else if c =? "%"%ch then scan_percent m lx
  else if c =? "*"%ch then scan_star m lx
  else if c =? "&"%ch then scan_amper m lx
  else if c =? "!"%ch then scan_bang m lx
  else if c =? "|"%ch then scan_pipe m lx
  else if c =? "^"%ch then scan_caret m lx
  else if c =? "#"%ch then scan_hash m lx
  else if (c =? DQUOTE) || (c =? "'"%ch) || (c =? "`"%ch) then scan_quote m lx
  else if c =? "-"%ch then scan_minus m lx
  else if c =? "+"%ch then scan_plus m lx
  else if c =? ":"%ch then scan_colon m lx
  else if c =? ","%ch then Ok (consume lx 1 tt_operator_comma)
  else scan_other m lx.

(** The reset at the top of [advance]. *)
Definition reset_token (lx : lexer) : lexer :=
  let substr := begin_at (substr (t lx)) (view_end (substr (t lx))) in
  set_p (set_t lx {| t_type := tt_none; substr := substr; t_value := vt_empty |}) (begin substr).

(** One activation of [advance]: [inl] is its recursive call. *)
Definition advance_step (m : mem) (lx : lexer) : res (lexer + bool * lexer) :=
  let lx := reset_token lx in
  match pending_error lx with
  | Some n =>
      let! text := note_to_string n in
      Ok (inr (true, set_error (set_value (set_text (set_type lx tt_error) text) vt_string) None))
  | None =>
      let delta := indent_dedent_delta lx in
      if negb (delta =? 0) then
        if 0 <? delta then Ok (inr (true, set_type (set_delta lx 0) tt_indent))
        else
          let! (width, lx) := pop_indent lx in
          let delta := i32 (indent_dedent_delta lx + i32 width) in
          Ok (inr (true, set_type (set_delta lx (if 0 <? delta then 0 else delta)) tt_dedent))
      else
        let e := text_end lx in
        if e <? begin (substr (t lx)) then Ok (inr (false, lx))
        else
          let! c := load m (p lx) in
          if c =? 0 then Ok (inr (false, lx))
          else if is_line_break c then
            let! crlf := if c =? CR then next_is m lx 1 LF else Ok false in
            let lx := set_p lx (p lx + (if crlf : bool then 1 else 0) + 1) in
            if p lx <? e then
              let! (q, lx) := scan_beginning_of_line m lx in Ok (inl (end_token_at lx q))
            else
              Ok (inl (set_delta (end_token_at lx e)
                         (i32 (-1 * i32 (total_indent_width lx)))))
          else if (c =? TAB) || (c =? " "%ch) then
            let! q := scan_spaces_and_tabs m (p lx + 1) e in Ok (inl (end_token_at lx q))
          else
            let! lx := scan_token m lx c in Ok (inr (true, lx))
  end.

(** Each recursive call begins further on in the text, but for one at its end. *)
Definition advance (m : mem) (lx : lexer) : res (bool * lexer) :=
  iterate (S (span_fuel (view_end (substr (t lx))) (text_end lx))) (advance_step m) lx.

(** ** Construction and iteration *)

Definition lexer_init (m : mem) (v : str_view) : res lexer :=
  let lx := {| txt := v; t := {| t_type := tt_none; substr := view_null; t_value := vt_empty |};
               unwrapped_text := []; line_begin := begin v; p := begin v;
               inconsistent_indent := 0; line_number := 0; total_indent_width := 0;
               indent_dedent_delta := 0; last_stack_insert_idx := NO_INDENT_YET;
               indent_stack := ∅; pending_error := None |} in
  if negb (p lx =? 0) then
    let lx := set_substr lx {| begin := p lx; length := 0 |} in
    let! (q, lx) := scan_beginning_of_line m lx in
    let! (_, lx) := advance m (end_token_at lx q) in Ok lx
  else Ok lx.

(** An iterator is a pointer to the lexer, or null at the end. *)
Definition iterator_begin (lx : lexer) : bool := view_bool (txt lx).
Definition iterator_next (m : mem) (lx : lexer) : res (bool * lexer) := advance m lx.

(** The token under the iterator: its type, text and value. *)
Definition deref (lx : lexer) : token := t lx.

(** The tokens a client sees that walks from [begin()] to [end()], at most
    [fuel] of them, with the text of string values. *)
Definition lex (fuel : nat) (m : mem) (v : str_view) : res (list (token * list Z)) :=
  let! lx := lexer_init m v in
  if iterator_begin lx then
    iterate fuel (fun '(lx, toks) =>
      let toks := toks ++ [(deref lx, unwrapped_text lx)] in
      let! (more, lx) := iterator_next m lx in
      Ok (if more : bool then inl (lx, toks) else inr toks)) (lx, [])
  else Ok [].
End lexing.
