(* ===== verification/LexerSafety.v ===== *)
(** * Safety of the lexer

    On NUL-terminated ASCII text whose indents are narrow, the lexer never
    reaches undefined behaviour, every [advance] returns, and each token
    lies in the text after the one before it. *)

From stdpp Require Import base tactics list gmap strings.
From Stdlib Require Import ZArith Lia.
From S2P Require Import Prelude CString ScanNumbers Unicode Tokens StrView Lexer.
#[local] Open Scope Z_scope.

#[local] Arguments u32 : simpl never.
#[local] Arguments i32 : simpl never.

(** ** Texts *)

Definition is_ascii (c : Z) : Prop := 0 < c < 128.
#[export] Instance is_ascii_dec c : Decision (is_ascii c).
Proof. unfold is_ascii. apply _. Defined.

(** The columns of a run of blanks, as [get_indent_width] counts them. *)
Fixpoint columns (l : list Z) : Z :=
  match l with [] => 0 | c :: l' => (if c =? TAB then 4 else 1) + columns l' end.

(** The columns of the blanks at the front of a text. *)
Fixpoint blank_width (l : list Z) : Z :=
  match l with
  | c :: l' => if is_blank c then (if c =? TAB then 4 else 1) + blank_width l' else 0
  | [] => 0
  end.

(** No run of blanks is wider than 63 columns. *)
Definition narrow (l : list Z) : Prop :=
  Forall (fun k => blank_width (drop k l) <= 63) (seq 0 (Datatypes.length l)).
#[export] Instance narrow_dec l : Decision (narrow l).
Proof. unfold narrow. apply _. Defined.

Lemma columns_nonneg l : 0 <= columns l.
Proof. induction l as [|c l IH]; simpl; [lia|]. destruct (c =? TAB); lia. Qed.

Lemma narrow_drop l k : narrow l -> blank_width (drop k l) <= 63.
Proof.
  intros Hl. destruct (Nat.lt_ge_cases k (Datatypes.length l)).
  - unfold narrow in Hl. rewrite Forall_forall in Hl. apply Hl. apply elem_of_seq. lia.
  - rewrite drop_ge by lia. simpl. lia.
Qed.

Lemma blank_width_app l1 l2 :
  Forall (fun c => is_blank c = true) l1 -> columns l1 <= blank_width (l1 ++ l2).
Proof.
  induction 1 as [|c l1 Hc Hl IH]; simpl.
  - induction l2 as [|c l2 IH]; simpl; [lia|]. destruct (is_blank c); [|lia]. destruct (c =? 9); lia.
  - rewrite Hc. lia.
Qed.

(** No run of digits, read in any of the radixes, is 2^63: such a literal
    after a minus sign overflows [int64_t]. *)
Definition no_min_literal (l : list Z) : Prop :=
  Forall (fun k =>
    Forall (fun r =>
      let suffix := drop k l in
      u64 (numeral_value (radix_base r)
             (take (Z.to_nat (scan_len (is_numeral_char (radix_base r)) suffix)) suffix)) <> 2 ^ 63)
      [Hex; Decimal; Octal; Binary]) (seq 0 (S (Datatypes.length l))).
#[export] Instance no_min_literal_dec l : Decision (no_min_literal l).
Proof. unfold no_min_literal. apply _. Defined.

Section text.
Context (garbage : Z) (pow : double -> double -> double).
Context (m : mem) (b : Z) (l : list Z).
Context (Hb : 0 < b) (Hm : holds m b (l ++ [0])) (Hl : Forall is_ascii l) (Hnarrow : narrow l).

Notation e := (b + Zlen l).

(** The text from a pointer on. *)
Lemma text_from q :
  b <= q <= e ->
  exists l', holds m q (l' ++ [0]) /\ e = q + Zlen l' /\ l' = drop (Z.to_nat (q - b)) l /\
    Forall is_ascii l'.
Proof.
  intros Hq. destruct (holds_drop m b l (q - b)) as (l' & Hl' & Hlen & E); [lia|done|].
  exists l'. replace (b + (q - b)) with q in Hl' by lia. split; [done|]. split; [lia|]. split; [done|].
  subst l'. by apply Forall_drop.
Qed.

Lemma text_char q :
  b <= q <= e -> exists c, load m q = Ok c /\ 0 <= c < 128 /\ (c = 0 <-> q = e).
Proof.
  intros Hq. destruct (text_from q Hq) as (l' & Hl' & He & _ & Hall).
  destruct l' as [|c l']; destruct Hl' as [Hc _].
  - exists 0. split; [by apply load_Some|]. change (Zlen []) with 0 in He. lia.
  - exists c. split; [by apply load_Some|]. rewrite Zlen_cons in He. pose proof (Zlen_nonneg l').
    apply Forall_cons in Hall as [Hc' _]. unfold is_ascii in Hc'. lia.
Qed.

(** ** Scanning functions *)

Lemma scan_spaces_wp q :
  b <= q <= e ->
  wp (scan_spaces_and_tabs m q e) (fun r => q <= r <= e /\
    exists bl rest, drop (Z.to_nat (q - b)) l = bl ++ rest /\ Zlen bl = r - q /\
      Forall (fun c => is_blank c = true) bl).
Proof.
  intros Hq. destruct (text_from q Hq) as (l' & Hl' & He & E & _).
  apply holds_app in Hl' as [Hl' _]. rewrite He, (scan_spaces_and_tabs_spec m q l' Hl'). simpl.
  pose proof (scan_len_bounds is_blank l'). split; [lia|].
  destruct (scan_len_split is_blank l') as (l1 & l2 & Hsplit & Hlen & Hall & _).
  exists l1, l2. rewrite <- E. split; [done|]. split; [lia|done].
Qed.

Lemma scan_rest_of_line_wp q :
  b <= q <= e -> wp (scan_rest_of_line m q e) (fun r => q <= r <= e).
Proof.
  intros Hq. unfold scan_rest_of_line.
  eapply (wp_iterate (fun r => q <= r <= e) (fun r => Z.to_nat (e - r))).
  - intros r Hr. destruct (Z.ltb_spec r e); simpl; [|lia].
    destruct (text_char r) as (c & -> & _); [lia|]. simpl. destruct (is_line_break c); simpl; lia.
  - lia.
  - apply span_fuel_gt.
Qed.

Lemma get_indent_width_wp q bl ch :
  holds m q bl -> columns bl < 2 ^ 32 ->
  wp (get_indent_width m q (q + Zlen bl) ch) (fun r => r.1 = columns bl).
Proof.
  intros Hbl Hcols. unfold get_indent_width. apply wp_bind.
  eapply wp_mono with (P := fun r => r.1.2 = columns bl); [intros [[? v] i] Hv; simpl in *; done|].
  assert (forall fuel q v i, holds m q bl -> 0 <= v -> v + columns bl < 2 ^ 32 ->
    (Datatypes.length bl < fuel)%nat ->
    wp (iterate fuel (fun '(p, value, inconsistent) =>
      if p <? q + Zlen bl then
        let! c := load m p in
        Ok (inl (p + 1, u32 (value + (if c =? 9 then 4 else 1)),
                 if (inconsistent =? 0) && negb (c =? ch) then p else inconsistent))
      else Ok (inr (p, value, inconsistent))) (q, v, i)) (fun r => r.1.2 = v + columns bl)) as Hloop.
  { clear Hbl Hcols q. induction bl as [|c bl IH]; intros fuel q v i Hbl Hv Hcols Hf;
      (destruct fuel as [|fuel]; [simpl in Hf; lia|]); simpl.
    - change (Zlen []) with 0. rewrite Z.add_0_r, Z.ltb_irrefl. simpl. lia.
    - destruct Hbl as [Hc Hbl]. rewrite Zlen_cons. pose proof (Zlen_nonneg bl).
      ztrue (q <? q + (1 + Zlen bl)). rewrite (load_Some _ _ _ Hc). simpl.
      simpl in Hcols. pose proof (columns_nonneg bl).
      replace (q + (1 + Zlen bl)) with (q + 1 + Zlen bl) by lia.
      eapply wp_mono; [|apply IH; [done| | |simpl in Hf; lia]].
      + intros r ->. rewrite u32_small by (destruct (c =? 9); lia). lia.
      + rewrite u32_small by (destruct (c =? 9); lia). destruct (c =? 9); lia.
      + rewrite u32_small by (destruct (c =? 9); lia). lia. }
  eapply wp_mono; [|apply Hloop; [done|lia|lia|]].
  - intros r ->. lia.
  - unfold span_fuel, Zlen. lia.
Qed.

(** ** The invariant *)

(** The entries of the stack, all in the range of a byte, add up to the total width. *)
Inductive stack_ok (s : gmap Z Z) : Z -> Z -> Prop :=
| stack_ok_empty : stack_ok s 0 0
| stack_ok_push i total w :
    stack_ok s i total -> s !! (i + 1) = Some w -> 1 <= w -> total + w <= 63 ->
    stack_ok s (i + 1) (total + w).

Lemma stack_ok_bounds s i total : stack_ok s i total -> 0 <= i <= total /\ total <= 63.
Proof. induction 1; lia. Qed.

Lemma stack_ok_insert s i total j w :
  stack_ok s i total -> i < j \/ j = 0 -> stack_ok (<[j := w]> s) i total.
Proof.
  intros Hs. revert j. induction Hs as [|i total w' Hs IH Hw Hw' Htotal]; intros j Hj; constructor; auto.
  - apply IH. lia.
  - apply stack_ok_bounds in Hs. rewrite lookup_insert_ne by lia. done.
Qed.

Definition indents_ok (lx : lexer) : Prop :=
  ((last_stack_insert_idx lx = NO_INDENT_YET /\ total_indent_width lx = 0) \/
   stack_ok (indent_stack lx) (last_stack_insert_idx lx) (total_indent_width lx)) /\
  - total_indent_width lx <= indent_dedent_delta lx <= 1.

Definition state_ok (lx : lexer) : Prop := txt lx = view_of_length b (Zlen l) /\ indents_ok lx.

Lemma text_end_ok lx : state_ok lx -> text_end lx = e.
Proof. intros [Htxt _]. unfold text_end. by rewrite Htxt. Qed.

(** What a scan of line breaks and indents leaves alone. *)
Definition same_token (lx lx' : lexer) : Prop :=
  t lx' = t lx /\ unwrapped_text lx' = unwrapped_text lx /\ pending_error lx' = pending_error lx.

Lemma same_token_trans lx lx' lx'' : same_token lx lx' -> same_token lx' lx'' -> same_token lx lx''.
Proof. unfold same_token. intuition congruence. Qed.

Lemma total_bounds lx : indents_ok lx -> 0 <= total_indent_width lx <= 63.
Proof. intros [[[_ ->]|H%stack_ok_bounds] _]; lia. Qed.

Lemma push_indent_wp lx w :
  state_ok lx -> stack_ok (indent_stack lx) (last_stack_insert_idx lx) (total_indent_width lx) ->
  1 <= w -> total_indent_width lx + w <= 63 ->
  wp (push_indent lx w) (fun lx' => state_ok lx' /\ same_token lx lx' /\ p lx' = p lx).
Proof.
  intros [Htxt _] Hs Hw Htotal. unfold push_indent.
  pose proof (stack_ok_bounds _ _ _ Hs) as Hbounds.
  assert (u8 w = w) as Eu8 by (unfold u8; rewrite Z.mod_small; lia).
  rewrite !u32_small, Eu8 by lia. unfold indent_stack_size.
  ztrue (last_stack_insert_idx lx + 1 <? 64). simpl.
  split; [|done]. split; [done|]. split; simpl; [|lia]. right.
  apply stack_ok_push; [apply stack_ok_insert; [done|lia]|apply lookup_insert_eq|done|done].
Qed.

#[local] Opaque push_indent.

Lemma pop_indent_wp lx :
  state_ok lx -> indent_dedent_delta lx < 0 ->
  wp (pop_indent lx) (fun '(w, lx') => 1 <= w <= total_indent_width lx /\ txt lx' = txt lx /\
    total_indent_width lx' = total_indent_width lx - w /\
    indent_dedent_delta lx' = indent_dedent_delta lx /\
    stack_ok (indent_stack lx') (last_stack_insert_idx lx') (total_indent_width lx') /\
    same_token lx lx').
Proof.
  intros [_ [Hs Hdelta]] Hneg. unfold pop_indent.
  destruct Hs as [[_ Htotal]|Hs]; [lia|]. pose proof (stack_ok_bounds _ _ _ Hs) as Hbounds.
  inversion Hs as [Ei Et|i total w Hs' Hw Hw1 Htotal Ei Et]; [lia|].
  apply stack_ok_bounds in Hs' as Hbounds'. unfold EMPTY_INDENT_STACK. ztrue (0 <? i + 1).
  rewrite Hw. simpl. rewrite u32_small by lia.
  replace (total + w - w) with total by lia. replace (i + 1 - 1) with i by lia.
  split_and!; try done; lia.
Qed.

Lemma update_indent_wp lx q bl rest :
  state_ok lx -> b <= line_begin lx <= e -> q = line_begin lx + Zlen bl ->
  drop (Z.to_nat (line_begin lx - b)) l = bl ++ rest -> Forall (fun c => is_blank c = true) bl ->
  wp (update_indent garbage m lx q) (fun lx' => state_ok lx' /\ same_token lx lx' /\ p lx' = p lx).
Proof.
  intros Hok Hq -> Hbl Hblank. unfold update_indent.
  destruct (text_from (line_begin lx) Hq) as (l' & Hl' & _ & E & _). rewrite Hbl in E. subst l'.
  pose proof (blank_width_app bl rest Hblank) as Hcols. rewrite <- Hbl in Hcols.
  pose proof (narrow_drop l (Z.to_nat (line_begin lx - b)) Hnarrow) as Hnar.
  pose proof (columns_nonneg bl) as Hpos.
  rewrite <- app_assoc in Hl'. pose proof Hl' as [Hl'' _]%holds_app.
  apply wp_bind. eapply wp_mono; [|apply get_indent_width_wp; [done|lia]].
  intros [w inc] Hw. simpl in Hw. subst w.
  destruct Hok as [Htxt Hind]. pose proof (total_bounds lx Hind) as Htotal. simpl.
  destruct (Z.ltb_spec (total_indent_width lx) (columns bl)) as [Hlt|Hge].
  - assert (exists c, load m (line_begin lx) = Ok c) as (c & Hc).
    { destruct (text_char (line_begin lx) Hq) as (c & Hc & _). by exists c. }
    destruct Hind as [[[Hidx Ht0]|Hs] Hdelta].
    + rewrite Hidx, Z.eqb_refl, Hc. simpl. rewrite Ht0, u32_small by lia.
      eapply wp_mono; [|apply push_indent_wp]; simpl; rewrite ?Ht0; try lia.
      * by intros lx' ?.
      * split; [done|]. split; simpl; [right; constructor|lia].
      * constructor.
    + replace (last_stack_insert_idx lx =? NO_INDENT_YET) with false
        by (symmetry; apply Z.eqb_neq; apply stack_ok_bounds in Hs; unfold NO_INDENT_YET; lia).
      simpl. rewrite u32_small by lia.
      eapply wp_mono; [|apply push_indent_wp]; simpl; try done; try lia.
      split; [done|]. split; [by right|done].
  - destruct (Z.ltb_spec (columns bl) (total_indent_width lx)) as [Hgt|_]; simpl.
    + rewrite u32_small by lia. rewrite !i32_small by (rewrite ?i32_small; lia).
      split; [|done]. split; [done|]. destruct Hind as [Hs Hdelta]. split; [done|]. simpl. lia.
    + split; [|done]. split; done.
Qed.

(** One turn of the scan of line beginnings. *)
Lemma scan_line_wp lx :
  state_ok lx -> b <= p lx <= e + 1 ->
  wp (scan_line garbage m lx) (fun r =>
    match r with
    | inl lx' => state_ok lx' /\ same_token lx lx' /\ p lx < p lx' <= e
    | inr (q, lx') => state_ok lx' /\ same_token lx lx' /\
        p lx <= p lx' <= q /\ q <= Z.max e (p lx)
    end).
Proof.
  intros Hok Hp. unfold scan_line. rewrite (text_end_ok lx Hok).
  destruct (Z.ltb_spec (p lx) e) as [Hlt|Hge]; [|simpl; split; [done|]; split; [done|lia]].
  apply wp_bind. simpl. eapply wp_mono; [|apply scan_spaces_wp; lia].
  intros q (Hq & bl & rest & Hdrop & Hlen & Hblank).
  destruct (Z.eqb_spec q e) as [->|Hne]; [simpl; split; [done|]; split; [done|lia]|].
  destruct (text_char q) as (c & -> & _); [lia|]. simpl.
  destruct (is_line_break c).
  - unfold consume_line_break. simpl.
    destruct (Z.ltb_spec (q + 1) e); simpl.
    + destruct (text_char q) as (c' & -> & _); [lia|]. simpl.
      destruct (c' =? 13); simpl; [|split; [done|]; split; [done|lia]].
      destruct (text_char (q + 1)) as (d & -> & _); [lia|]. simpl.
      destruct (d =? 10); simpl; (split; [done|]; split; [done|lia]).
    + split; [done|]; split; [done|lia].
  - apply wp_bind. eapply wp_mono; [|eapply (update_indent_wp _ q bl rest)]; simpl; try done; try lia.
    intros lx' (Hok' & Hsame & Hp'). simpl in Hp'. rewrite Hp'. split; [done|].
    split; [|lia]. done.
Qed.

Lemma scan_beginning_of_line_wp lx :
  state_ok lx -> b <= p lx <= e + 1 ->
  wp (scan_beginning_of_line garbage m lx) (fun '(q, lx') =>
    state_ok lx' /\ same_token lx lx' /\ p lx <= p lx' <= q /\ q <= Z.max e (p lx)).
Proof.
  intros Hok Hp. unfold scan_beginning_of_line. rewrite (text_end_ok lx Hok).
  eapply (wp_iterate (fun lx' => state_ok lx' /\ same_token lx lx' /\ p lx <= p lx' <= Z.max e (p lx))
    (fun lx' => Z.to_nat (e - p lx'))).
  - intros lx1 (Hok1 & Hsame1 & Hp1). eapply wp_mono; [|apply scan_line_wp; [done|lia]].
    intros [lx2|[q lx2]] (Hok2 & Hsame2 & Hp2).
    + split; [|lia]. split; [done|]. split; [by eapply same_token_trans|lia].
    + split; [done|]. split; [by eapply same_token_trans|]. lia.
  - split; [done|]. split; [done|]. lia.
  - apply span_fuel_gt.
Qed.
#[local] Opaque scan_beginning_of_line span_fuel.

Lemma next_line_continues_wp lx q :
  state_ok lx -> b <= q <= e + 1 ->
  wp (next_line_continues garbage m lx q) (fun '(continues, lx') =>
    state_ok lx' /\ same_token lx lx' /\ q <= p lx' <= Z.max e q /\
    (continues = true -> p lx' < e)).
Proof.
  intros Hok Hq. unfold next_line_continues. apply wp_bind.
  eapply wp_mono; [|apply scan_beginning_of_line_wp; [exact Hok|simpl; lia]].
  intros [next lx'] (Hok' & Hsame & Hp' & Hnext). simpl in Hp', Hnext.
  assert (state_ok lx' /\ same_token lx lx' /\ q <= p lx' <= Z.max e q /\
    (false = true -> p lx' < e)) as Hno by (split_and!; try done; lia).
  destruct (_ || _); [done|]. rewrite (text_end_ok lx' Hok').
  destruct (Z.leb_spec e (next + 3)); [done|].
  apply wp_bind. eapply wp_mono with (P := fun _ => True).
  - intros [|] _; [|done]. simpl. split; [done|]. split; [done|]. split; [lia|]. lia.
  - unfold ellipsis_at. destruct (text_char next) as (c & -> & _); [lia|]. simpl.
    destruct (negb (c =? 46)); [done|].
    destruct (text_char (next + 1)) as (c1 & -> & _); [lia|]. simpl.
    destruct (negb (c1 =? 46)); [done|].
    by destruct (text_char (next + 2)) as (c2 & -> & _); [lia|].
Qed.

Lemma consume_line_break_wp q :
  b <= q < e -> wp (consume_line_break m q e) (fun r => q < r <= e).
Proof.
  intros Hq. unfold consume_line_break.
  destruct (Z.ltb_spec (q + 1) e); simpl; [|lia].
  destruct (text_char q) as (c & -> & _); [lia|]. simpl. destruct (c =? 13); simpl; [|lia].
  destruct (text_char (q + 1)) as (d & -> & _); [lia|]. simpl. destruct (d =? 10); simpl; lia.
Qed.

(** ** Pieces of the text *)

Lemma text_range q r :
  b <= q <= r -> r <= e -> exists l', holds m q l' /\ r = q + Zlen l'.
Proof.
  intros Hq Hr. destruct (text_from q) as (l' & Hl' & He & _); [lia|].
  exists (take (Z.to_nat (r - q)) l'). split.
  - apply holds_app in Hl' as [Hl' _]. rewrite <- (take_drop (Z.to_nat (r - q)) l') in Hl'.
    by apply holds_app in Hl' as [? _].
  - unfold Zlen in *. rewrite length_take. lia.
Qed.

Lemma load_range_wp q r : b <= q <= r -> r <= e -> wp (load_range m q r) (fun _ => True).
Proof.
  intros Hq Hr. destruct (text_range q r Hq Hr) as (l' & Hl' & ->). by rewrite load_range_spec.
Qed.

Lemma rtrim_wp q r : b <= q <= r -> r <= e -> wp (rtrim m q r None) (fun x => q <= x <= r).
Proof.
  intros Hq Hr. destruct (text_range q r Hq Hr) as (l' & Hl' & ->).
  rewrite (rtrim_spec m q None l') by (done || lia). simpl.
  pose proof (scan_len_bounds (strchr_in ANY_WHITESPACE) (rev l')) as Hlen.
  unfold Zlen in *. rewrite length_rev in Hlen. lia.
Qed.

(** The digit scanners stop at the NUL, whatever end they are given. *)
Lemma scan_digits_wp r q E :
  b <= q <= e -> wp (scan_digits r m q E) (fun '(q', n) => q <= q' <= e /\ q' <= Z.max q E).
Proof.
  intros Hq.
  destruct r; simpl;
    unfold scan_hex_digits, scan_decimal_digits_pre_radix, scan_octal_digits, scan_binary_digits;
    (eapply (wp_iterate (fun '(q', _) => q <= q' <= e /\ q' <= Z.max q E)
       (fun '(q', _) => Z.to_nat (E - q')));
     [intros [q' n] Hq'; destruct (Z.ltb_spec q' E); [|simpl; lia];
      destruct (text_char q') as (c & -> & Hc & Hc0); [lia|]; simpl; ztest; simpl; lia
     |lia|apply span_fuel_gt]).
Qed.

Lemma end_at_inside v x :
  b <= begin v <= x -> begin (end_at v x) = begin v /\ view_end (end_at v x) = x.
Proof.
  intros Hx. unfold end_at, view_end. zfalse (begin v =? 0). simpl. ztrue (begin v <=? x).
  split; [done|lia].
Qed.

(** ** Phrases and comments *)

(** [pending_error] is an error of this lexer. *)
Definition pending_ok (lx : lexer) : Prop :=
  match pending_error lx with
  | Some n => issue n = ii_unterminated_string_literal
  | None => True
  end.

(** The state after a scan that went from [q] on: the token is still to be ended. *)
Definition moved (lx : lexer) (lx' : lexer) : Prop :=
  state_ok lx' /\ pending_ok lx' /\ substr (t lx') = substr (t lx).

Lemma same_token_moved lx lx' :
  state_ok lx' -> same_token lx lx' -> pending_ok lx -> moved lx lx'.
Proof.
  intros Hok (Ht & _ & Hpend) Hp. split; [done|]. unfold pending_ok. by rewrite Hpend, Ht.
Qed.

Lemma moved_trans lx lx' lx'' : moved lx lx' -> moved lx' lx'' -> moved lx lx''.
Proof. unfold moved. intuition congruence. Qed.

Lemma ctype_wp f c : 0 <= c -> ctype f c = Ok (f c).
Proof. intros Hc. unfold ctype. by zfalse (c <? -1). Qed.

#[local] Opaque next_line_continues consume_line_break.

Lemma phrase_step_wp lx c :
  state_ok lx -> pending_ok lx -> b <= p lx < e -> load m (p lx) = Ok c -> 0 <= c ->
  wp (phrase_step garbage m lx) (fun r =>
    match r with
    | inl lx' => moved lx lx' /\ p lx' = p lx + 1
    | inr lx' => moved lx lx' /\ p lx <= p lx' <= e /\ (is_ascii_alpha c = true -> p lx < p lx')
    end).
Proof.
  intros Hok Hpend Hp Hc Hc0. unfold phrase_step. rewrite (text_end_ok lx Hok).
  zfalse (p lx =? e). rewrite Hc. cbn [bind]. unfold isalnum. rewrite (ctype_wp _ c Hc0). cbn [bind].
  destruct (is_ascii_alphanumeric c) eqn:Halnum; cbn [orb].
  { simpl. split; [|done]. split; [done|]. by split. }
  destruct ((c =? 39) || (c =? 32)); [simpl; split; [|done]; split; [done|]; by split|].
  assert (is_ascii_alpha c = false) as Halpha.
  { apply orb_false_iff in Halnum as [_ Ha]. exact Ha. }
  destruct (is_line_break c).
  - apply wp_bind. eapply wp_mono; [|apply consume_line_break_wp; lia].
    intros q Hq. cbv beta in Hq. apply wp_bind. eapply wp_mono; [|apply next_line_continues_wp; [done|lia]].
    intros [continues lx'] (Hok' & Hsame & Hp' & Hcont).
    pose proof (same_token_moved lx lx' Hok' Hsame Hpend) as Hmoved.
    destruct continues; simpl; (split; [done|]); simpl; split; try lia.
  - simpl. split; [by split|]. split; [lia|]. by rewrite Halpha.
Qed.

Lemma get_phrase_token_wp lx c :
  state_ok lx -> pending_ok lx -> b <= p lx < e -> load m (p lx) = Ok c -> 0 <= c ->
  is_ascii_alpha c = true -> begin (substr (t lx)) = p lx ->
  wp (get_phrase_token garbage m lx) (fun lx' => state_ok lx' /\ pending_ok lx' /\
    begin (substr (t lx')) = p lx /\ p lx < view_end (substr (t lx')) <= e).
Proof.
  intros Hok Hpend Hp Hc Hc0 Halpha Hbegin. unfold get_phrase_token. simpl. rewrite Hc. cbn [bind].
  unfold isupper. rewrite (ctype_wp _ c Hc0). cbn [bind]. apply wp_bind.
  set (lx1 := set_type (set_text lx []) _).
  assert (state_ok lx1) as Hok1 by done.
  rewrite (text_end_ok lx1 Hok1).
  eapply wp_mono; [|eapply (wp_iterate
    (fun lx' => moved lx1 lx' /\ p lx <= p lx' <= e) (fun lx' => Z.to_nat (e - p lx'))
    (fun lx' => moved lx1 lx' /\ p lx < p lx' <= e))].
  - intros lx' ((Hok' & Hpend' & Hsub) & Hp'). simpl. split; [done|]. split; [done|].
    rewrite Hsub. simpl. destruct (end_at_inside (substr (t lx)) (p lx')) as [-> ->]; [lia|].
    split; [done|lia].
  - intros lx' (Hmoved & Hp'). pose proof Hmoved as (Hok' & Hpend' & _).
    destruct (Z.eq_dec (p lx') e) as [He|Hne].
    + unfold phrase_step. rewrite (text_end_ok lx' Hok'), He, Z.eqb_refl. simpl.
      split; [done|]. lia.
    + destruct (text_char (p lx')) as (c' & Hc' & Hr' & _); [lia|].
      eapply wp_mono; [|apply (phrase_step_wp lx' c'); try done; lia].
      intros [lx''|lx''] (Hmoved' & Hp''); simpl; (split; [|]).
      * split; [by eapply moved_trans|lia].
      * lia.
      * by eapply moved_trans.
      * destruct Hp'' as [Hp'' Hprog]. destruct (Z.eq_dec (p lx') (p lx)) as [Heq|]; [|lia].
        rewrite Heq in Hc'. rewrite Hc in Hc'. injection Hc' as <-. specialize (Hprog Halpha). lia.
  - split; [by repeat split; try apply Hok|]. simpl. lia.
  - apply span_fuel_gt.
Qed.
Lemma comment_step_wp lx :
  state_ok lx -> pending_ok lx -> b <= p lx < e ->
  wp (comment_step garbage m lx) (fun r =>
    match r with
    | inl lx' => moved lx lx' /\ p lx < p lx' < e
    | inr lx' => moved lx lx' /\ p lx < p lx' <= e + 1
    end).
Proof.
  intros Hok Hpend Hp. unfold comment_step. rewrite (text_end_ok lx Hok). simpl (p _).
  apply wp_bind. eapply wp_mono; [|apply scan_rest_of_line_wp; simpl; lia].
  intros eol Heol. cbv beta in Heol. simpl in Heol.
  apply wp_bind. eapply wp_mono; [|apply scan_spaces_wp; simpl; lia].
  intros after [Hafter _]. simpl in Hafter.
  apply wp_bind. eapply wp_mono with
    (P := fun lx' => state_ok lx' /\ pending_ok lx' /\ substr (t lx') = substr (t lx)).
  - intros lx1 (Hok1 & Hpend1 & Hsub1). apply wp_bind.
    eapply wp_mono; [|apply next_line_continues_wp; [done|lia]].
    intros [continues lx'] (Hok' & Hsame & Hp' & Hcont).
    pose proof (same_token_moved lx1 lx' Hok' Hsame Hpend1) as (_ & Hpend' & Hsub').
    assert (moved lx lx') by (split; [done|]; split; [done|congruence]).
    destruct continues; simpl; (split; [done|lia]).
  - destruct (Z.ltb_spec after eol); [|done].
    apply wp_bind. eapply wp_mono; [|apply rtrim_wp; lia]. intros x Hx. cbv beta in Hx.
    apply wp_bind. eapply wp_mono; [|apply load_range_wp; lia]. by intros content _.
Qed.

Lemma get_comment_token_wp lx :
  state_ok lx -> pending_ok lx -> b <= p lx < e ->
  wp (get_comment_token garbage m lx) (fun '(q, lx') => moved lx lx' /\ p lx < q <= e + 1).
Proof.
  intros Hok Hpend Hp. unfold get_comment_token. apply wp_bind.
  rewrite (text_end_ok (set_text lx []) Hok). simpl (p _).
  eapply wp_mono; [|eapply (wp_iterate
    (fun lx' => moved lx lx' /\ p lx <= p lx' < e) (fun lx' => Z.to_nat (e - p lx'))
    (fun lx' => moved lx lx' /\ p lx < p lx' <= e + 1))].
  - intros lx' (Hmoved & Hp'). simpl. done.
  - intros lx' (Hmoved & Hp'). pose proof Hmoved as (Hok' & Hpend' & _).
    eapply wp_mono; [|apply comment_step_wp; try done; lia].
    intros [lx''|lx''] (Hmoved' & Hp''); (split; [|lia]).
    + split; [by eapply moved_trans|lia].
    + by eapply moved_trans.
  - split; [by split|]. simpl. lia.
  - pose proof (span_fuel_gt (p lx) e). simpl. lia.
Qed.

(** What scanning a token achieves: the token begins where it did and ends
    further on, at most one char past the end of the text. *)
Definition scanned (lx lx' : lexer) : Prop :=
  state_ok lx' /\ pending_ok lx' /\
  begin (substr (t lx')) = begin (substr (t lx)) /\
  begin (substr (t lx)) < view_end (substr (t lx')) <= e + 1.

(** A state ready to scan a token. *)
Definition ready (lx : lexer) : Prop :=
  state_ok lx /\ pending_ok lx /\ b <= p lx < e /\ begin (substr (t lx)) = p lx.

Lemma end_token_scanned lx lx' q :
  ready lx -> moved lx lx' -> p lx < q <= e + 1 -> scanned lx (end_token_at lx' q).
Proof.
  intros (_ & _ & Hp & Hbegin) (Hok' & Hpend' & Hsub) Hq.
  unfold scanned. simpl. rewrite Hsub.
  destruct (end_at_inside (substr (t lx)) q) as [-> ->]; [lia|].
  split; [done|]. split; [done|]. split; [done|lia].
Qed.

Lemma consume_scanned lx n ty :
  ready lx -> 0 < n -> p lx + n <= e -> scanned lx (consume lx n ty).
Proof.
  intros Hready Hn Hp. pose proof Hready as (Hok & Hpend & _ & Hbegin).
  apply end_token_scanned; [done| |simpl; lia]. by split.
Qed.

#[local] Opaque get_comment_token.

Lemma next_is_wp lx n c :
  state_ok lx -> b <= p lx -> 0 <= n ->
  wp (next_is m lx n c) (fun yes => yes = true -> p lx + n < e).
Proof.
  intros Hok Hp Hn. unfold next_is. rewrite (text_end_ok lx Hok).
  destruct (Z.ltb_spec (p lx + n) e); [|done].
  destruct (text_char (p lx + n)) as (x & -> & _); [lia|]. simpl. intros _. lia.
Qed.

Lemma peek_wp lx :
  ready lx ->
  wp (peek m lx) (fun next =>
    match next with
    | Some c => p lx + 1 < e /\ load m (p lx + 1) = Ok c /\ 0 <= c
    | None => True
    end).
Proof.
  intros (Hok & _ & Hp & _). unfold peek. rewrite (text_end_ok lx Hok).
  destruct (Z.ltb_spec (p lx + 1) e); [|done].
  destruct (text_char (p lx + 1)) as (x & -> & Hx & _); [lia|]. simpl. split; [done|]. split; [done|lia].
Qed.

Lemma scan_hash_wp lx : ready lx -> wp (scan_hash garbage m lx) (scanned lx).
Proof.
  intros Hready. pose proof Hready as (Hok & Hpend & Hp & Hbegin). unfold scan_hash.
  apply wp_bind. eapply wp_mono with (P := fun doc => doc = true -> p lx + 2 < e).
  - intros doc Hdoc. set (lx1 := if doc then _ else _).
    assert (moved lx lx1 /\ p lx <= p lx1 < e) as [Hmoved Hp1].
    { destruct doc; (split; [by split|simpl; specialize (Hdoc); lia]). }
    apply wp_bind. eapply wp_mono; [|apply get_comment_token_wp; try apply Hmoved; lia].
    intros [q lx'] [Hmoved' Hq]. simpl. apply end_token_scanned; [done| |lia].
    by eapply moved_trans.
  - rewrite (text_end_ok lx Hok). destruct (Z.ltb_spec (p lx + 2) e); [|done].
    apply wp_bind. eapply wp_mono; [|apply next_is_wp; [done|lia|lia]].
    intros [|] _; [|done]. apply next_is_wp; [done|lia|lia].
Qed.

(** ** Operators *)

(** Closes the branches that consume an operator. *)
Ltac consumed := simpl; (apply consume_scanned; [done|lia|simpl; lia]).

(** Steps over [next_is]. *)
Ltac step_next_is :=
  apply wp_bind; eapply wp_mono; [|apply next_is_wp; [assumption|lia|lia]];
  intros [|] ?; cbv beta in *.

Lemma scan_lt_wp lx : ready lx -> wp (scan_lt m lx) (scanned lx).
Proof.
  intros Hready. pose proof Hready as (Hok & _ & Hp & _). unfold scan_lt. apply wp_bind.
  eapply wp_mono; [|by apply peek_wp]. intros [c|] Hnext; [|consumed].
  destruct Hnext as [Hnext _]. destruct (c =? 60); [|destruct (c =? 61); [|consumed]].
  - step_next_is; [specialize (H eq_refl)|]; consumed.
  - step_next_is; [specialize (H eq_refl)|consumed].
    step_next_is; [specialize (H0 eq_refl)|]; consumed.
Qed.

Lemma scan_brace_wp lx : ready lx -> wp (scan_brace m lx) (scanned lx).
Proof.
  intros Hready. pose proof Hready as (Hok & _ & Hp & _). unfold scan_brace.
  step_next_is; [specialize (H eq_refl)|]; consumed.
Qed.

Lemma scan_gt_wp lx : ready lx -> wp (scan_gt m lx) (scanned lx).
Proof.
  intros Hready. pose proof Hready as (Hok & _ & Hp & _). unfold scan_gt. apply wp_bind.
  eapply wp_mono; [|by apply peek_wp]. intros [c|] Hnext; [|consumed].
  destruct Hnext as [Hnext _]. destruct (c =? 62); [|destruct (c =? 61); consumed].
  rewrite (text_end_ok lx Hok). destruct (Z.ltb_spec (p lx + 2) e); [|consumed].
  destruct (text_char (p lx + 2)) as (d & -> & _); [lia|]. simpl.
  destruct (d =? 61); [consumed|]. destruct (d =? 62); consumed.
Qed.

Lemma scan_pair_wp lx cases otherwise : ready lx -> wp (scan_pair m lx cases otherwise) (scanned lx).
Proof.
  intros Hready. pose proof Hready as (Hok & _ & Hp & _). unfold scan_pair. apply wp_bind.
  eapply wp_mono; [|by apply peek_wp]. intros [c|] Hnext; [|consumed].
  destruct Hnext as [Hnext _]. destruct (list_find _ _) as [[i [c' ty]]|]; consumed.
Qed.

Lemma scan_bang_wp lx : ready lx -> wp (scan_bang m lx) (scanned lx).
Proof.
  intros Hready. pose proof Hready as (Hok & _ & Hp & _). unfold scan_bang. apply wp_bind.
  eapply wp_mono; [|by apply peek_wp]. intros [c|] Hnext; [|consumed].
  destruct Hnext as [Hnext _]. destruct (c =? 61); [consumed|]. destruct (c =? 45); [|consumed].
  step_next_is; [specialize (H eq_refl)|]; consumed.
Qed.

Lemma scan_question_wp lx : ready lx -> wp (scan_question m lx) (scanned lx).
Proof.
  intros Hready. pose proof Hready as (Hok & _ & Hp & _). unfold scan_question. apply wp_bind.
  eapply wp_mono; [|by apply peek_wp]. intros [c|] Hnext; [|consumed].
  destruct Hnext as [Hnext _]. destruct (c =? 46); [consumed|].
  destruct (c =? 91); [step_next_is; [specialize (H eq_refl)|]; consumed|].
  destruct (c =? 58); [consumed|]. rewrite (text_end_ok lx Hok).
  destruct (c =? 60); [|consumed]. simpl. destruct (Z.ltb_spec (p lx + 3) e); [|consumed].
  step_next_is; [|consumed]. step_next_is; consumed.
Qed.
(** ** Strings *)

Lemma strlen_wp mem a s :
  holds mem a (s ++ [0]) -> wp (strlen mem a) (fun n => 0 <= n <= Zlen s).
Proof.
  intros Ha. unfold strlen. apply wp_bind. pose proof (holds_cstr_size _ _ _ Ha) as Hf.
  eapply wp_mono with (P := fun q => a <= q <= a + Zlen s); [intros q Hq; simpl; lia|].
  revert Hf. generalize (S (size mem)). revert a Ha.
  induction s as [|c s IH]; intros a Ha fuel Hf; (destruct fuel as [|fuel]; [simpl in Hf; lia|]);
    destruct Ha as [Hc Ha]; simpl; rewrite (load_Some _ _ _ Hc); simpl.
  - change (Zlen []) with 0. lia.
  - rewrite Zlen_cons. pose proof (Zlen_nonneg s). destruct (c =? 0); simpl; [lia|].
    eapply wp_mono; [|apply IH; [done|simpl in Hf; lia]]. intros q Hq. simpl in Hq. lia.
Qed.

Lemma append_codepoint_wp text cp : 0 <= cp -> wp (append_codepoint garbage text cp) (fun _ => True).
Proof.
  intros Hcp. unfold append_codepoint.
  assert (holds (map_seqZ 1 (replicate 16 garbage)) 1 (replicate 16 garbage)) as Hbuf by apply holds_map_seqZ.
  set (buf := map_seqZ 1 (replicate 16 garbage) : mem) in *.
  assert (exists s m', cat_codepoint_to_utf8 (buf, 1, 16) cp = Ok (true, (m', 1 + Zlen s + 1, 15)) /\
    holds m' 1 (s ++ [0])) as (s & m' & -> & Hs).
  { unfold cat_codepoint_to_utf8, terminate. simpl (negb _). change (u64 (16 - 1)) with 15. cbv iota.
    destruct (Z.le_gt_cases cp MAX_UNICODE_CHAR) as [Hle|Hgt].
    - pose proof (proper_length_range cp).
      rewrite add_codepoint_spec by lia.
      pose proof (utf8_length cp) as Hlen.
      destruct (stores_spec buf 1 (take (Datatypes.length (utf8_chars cp)) (replicate 16 garbage)) (utf8_chars cp))
        as (m1 & -> & Hm1 & Helse).
      + rewrite <- (take_drop (Datatypes.length (utf8_chars cp)) (replicate 16 garbage)) in Hbuf.
        by apply holds_app in Hbuf as [? _].
      + rewrite length_take, length_replicate. unfold Zlen in *. lia.
      + simpl. unfold store. rewrite Helse by (unfold Zlen in *; lia).
        pose proof (holds_lookup buf 1 _ (Z.to_nat (proper_length_of_codepoint cp)) garbage Hbuf) as Hnul.
        rewrite Z2Nat.id, lookup_replicate in Hnul by lia. rewrite Hnul by (split; [done|lia]). simpl.
        exists (utf8_chars cp), (<[1 + proper_length_of_codepoint cp := 0]> m1). rewrite Hlen.
        split; [done|]. apply holds_app. rewrite Hlen. simpl. split.
        * apply holds_insert_ne; [lia|done].
        * by rewrite lookup_insert_eq.
    - exists [], (<[1 := 0]> buf). split.
      + unfold add_codepoint_to_utf8, MAX_UNICODE_CHAR in *.
        zfalse (cp <? 128). zfalse (cp <? 2048). zfalse (cp <? 65536). zfalse (cp <? 1114112).
        simpl. unfold store. destruct Hbuf as [Hbuf _]. rewrite Hbuf. done.
      + split; [|done]. by rewrite lookup_insert_eq. }
  cbn [bind fst snd]. pose proof (strlen_wp m' 1 s Hs) as Hlen.
  destruct (strlen m' 1) as [n| | |]; try done. simpl in Hlen |- *.
  apply holds_app in Hs as [Hs _]. rewrite <- (take_drop (Z.to_nat n) s) in Hs.
  apply holds_app in Hs as [Hs _]. apply load_range_spec in Hs.
  replace (1 + Zlen (take (Z.to_nat n) s)) with (1 + n) in Hs by
    (unfold Zlen in *; rewrite length_take; lia).
  by rewrite Hs.
Qed.

Lemma scan_escape_digits_wp r q seq n :
  b <= q <= seq -> seq <= e ->
  wp (scan_escape_digits m seq (seq + n) (scan_digits r)) (fun '(q', cp) => q <= q' /\ 0 <= cp).
Proof.
  intros Hq Hseq. unfold scan_escape_digits. apply wp_bind.
  eapply wp_mono; [|apply scan_digits_wp; lia]. intros [x v] Hx. pose proof (u32_range v).
  destruct (x =? seq + n); [|simpl; unfold UNICODE_REPLACEMENT_CHAR; lia].
  destruct (_ && _); simpl; unfold UNICODE_REPLACEMENT_CHAR; lia.
Qed.

Lemma scan_escape_wp q cp0 :
  b <= q <= e ->
  wp (scan_unicode_escape_sequence m q cp0) (fun '(q', cp) => q <= q' /\ 0 <= cp).
Proof.
  intros Hq. unfold scan_unicode_escape_sequence. zfalse (q =? 0).
  destruct (text_char q) as (c & Hc & Hr & Hnul); [lia|]. rewrite Hc. cbn [bind].
  destruct (Z.eqb_spec c 120); [apply (scan_escape_digits_wp Hex); lia|].
  destruct (Z.eqb_spec c 117); [apply (scan_escape_digits_wp Hex); lia|].
  destruct (Z.eqb_spec c 85); [apply (scan_escape_digits_wp Hex); lia|].
  repeat (destruct (Z.eqb c _); [simpl; lia|]).
  destruct (_ && _); [apply (scan_escape_digits_wp Octal); lia|].
  destruct (if negb (c =? 0) then _ else None) as [i|] eqn:Hi; simpl.
  - split; [lia|]. unfold char_at. do 8 (destruct i as [|i]; [simpl; lia|]). simpl. by destruct i.
  - unfold UNICODE_REPLACEMENT_CHAR. lia.
Qed.

#[local] Opaque append_codepoint scan_unicode_escape_sequence.

Lemma string_step_wp lx ch :
  state_ok lx -> pending_ok lx -> b <= p lx <= e ->
  wp (string_step garbage m ch lx) (fun r =>
    match r with
    | inl lx' => moved lx lx' /\ p lx < p lx' <= e
    | inr lx' => moved lx lx' /\ p lx <= p lx' <= e
    end).
Proof.
  intros Hok Hpend Hp. unfold string_step. rewrite (text_end_ok lx Hok).
  destruct (Z.ltb_spec (p lx) e); [|simpl; split; [by split|lia]].
  destruct (text_char (p lx)) as (c & -> & Hc & _); [lia|]. cbn [bind].
  destruct (c =? ch); [simpl; split; [by split|lia]|].
  destruct (c =? 92).
  - apply wp_bind. eapply wp_mono; [|apply scan_escape_wp; lia].
    intros [seq_end cp] [Hseq Hcp].
    destruct (_ && _ && _) eqn:Hcond; [|simpl; split; [by split|lia]].
    rewrite !andb_true_iff, Z.ltb_lt, Z.leb_le in Hcond.
    apply wp_bind. eapply wp_mono; [|by apply append_codepoint_wp].
    intros text _. simpl. split; [by split|lia].
  - destruct (is_line_break c); [|simpl; split; [by split|lia]].
    apply wp_bind. eapply wp_mono; [|apply consume_line_break_wp; lia].
    intros q Hq. cbv beta in Hq. apply wp_bind.
    eapply wp_mono; [|apply next_line_continues_wp; [done|lia]].
    intros [continues lx'] (Hok' & Hsame & Hp' & Hcont).
    pose proof (same_token_moved lx lx' Hok' Hsame Hpend) as (_ & Hpend' & Hsub).
    destruct continues; simpl; (split; [by split|]); lia.
Qed.

Lemma get_string_literal_wp lx ch :
  state_ok lx -> pending_ok lx -> b <= p lx <= e ->
  wp (get_string_literal garbage m lx ch) (fun '(q, lx') => moved lx lx' /\ p lx <= q <= e).
Proof.
  intros Hok Hpend Hp. unfold get_string_literal. apply wp_bind.
  rewrite (text_end_ok (set_text lx []) Hok). simpl (p _).
  eapply wp_mono; [|eapply (wp_iterate
    (fun lx' => moved lx lx' /\ p lx <= p lx' <= e) (fun lx' => Z.to_nat (e - p lx'))
    (fun lx' => moved lx lx' /\ p lx <= p lx' <= e))].
  - intros lx' (Hmoved & Hp'). simpl. done.
  - intros lx' (Hmoved & Hp'). pose proof Hmoved as (Hok' & Hpend' & _).
    eapply wp_mono; [|apply string_step_wp; try done; lia].
    intros [lx''|lx''] (Hmoved' & Hp''); (split; [|lia]).
    + split; [by eapply moved_trans|lia].
    + by eapply moved_trans.
  - split; [by split|]. simpl. lia.
  - simpl. apply span_fuel_gt.
Qed.

#[local] Opaque get_string_literal.

Lemma scan_quote_wp lx : ready lx -> wp (scan_quote garbage m lx) (scanned lx).
Proof.
  intros Hready. pose proof Hready as (Hok & Hpend & Hp & Hbegin). unfold scan_quote. simpl (p _).
  destruct (text_char (p lx)) as (c & -> & _); [lia|]. cbn [bind].
  apply wp_bind. eapply wp_mono; [|apply get_string_literal_wp; [done|done|simpl; lia]].
  intros [q lx'] [Hmoved Hq]. simpl in Hq |- *. apply end_token_scanned; [done| |lia].
  destruct Hmoved as (? & ? & Hsub). by split.
Qed.

(** ** Numbers *)

Context (Hmin : no_min_literal l).

Lemma digits_not_min r q q' n :
  b <= q <= e -> scan_digits r m q e = Ok (q', n) -> 0 <= n < 2 ^ 64 /\ n <> 2 ^ 63.
Proof.
  intros Hq Hrun. destruct (text_from q Hq) as (l' & Hl' & He & E & _).
  apply holds_app in Hl' as [Hl' _]. rewrite He, (scan_digits_spec r m q l' Hl') in Hrun.
  injection Hrun as _ <-. split; [apply u64_range|].
  unfold no_min_literal in Hmin. rewrite Forall_forall in Hmin.
  specialize (Hmin (Z.to_nat (q - b))). rewrite <- E in Hmin.
  rewrite elem_of_seq in Hmin. unfold Zlen in *. specialize (Hmin ltac:(lia)).
  rewrite Forall_forall in Hmin. apply Hmin. destruct r; set_solver.
Qed.

Lemma i64_min n : 0 <= n < 2 ^ 64 -> n <> 2 ^ 63 -> i64 n <> - 2 ^ 63.
Proof. intros Hn Hne. unfold i64. pose proof (Z.div_mod (n + 2 ^ 63) (2 ^ 64)).
  pose proof (Z.mod_pos_bound (n + 2 ^ 63) (2 ^ 64)).
  assert (0 <= (n + 2 ^ 63) / 2 ^ 64 < 2) by (split; [apply Z.div_pos|apply Z.div_lt_upper_bound]; lia).
  lia.
Qed.

(** A number token: begins where the token did, ends at [q]. *)
Definition number_ends (tok tok' : token) (lo : Z) : Prop :=
  begin (substr tok') = begin (substr tok) /\ lo <= view_end (substr tok') <= e.

Lemma set_signed_wp tok ty q neg n lo :
  0 <= n < 2 ^ 64 -> n <> 2 ^ 63 -> b <= begin (substr tok) <= q -> lo <= q <= e ->
  wp (set_possibly_signed_value (token_ends tok ty q) neg n) (fun tok' => number_ends tok tok' lo).
Proof.
  intros Hn Hne Hbegin Hq. unfold set_possibly_signed_value, number_ends.
  destruct (end_at_inside (substr tok) q Hbegin) as [E1 E2].
  destruct neg; [|simpl; by rewrite E1, E2].
  replace (i64 n =? - 2 ^ 63) with false by (symmetry; apply Z.eqb_neq; by apply i64_min).
  simpl. by rewrite E1, E2.
Qed.

Lemma scan_post_radix_wp q :
  b <= q <= e -> wp (scan_decimal_digits_post_radix m q e) (fun '(q', _) => q <= q' <= e).
Proof.
  intros Hq. unfold scan_decimal_digits_post_radix. apply wp_bind.
  eapply wp_mono with (P := fun '(q', (_, _)) => q <= q' <= e); [intros [q' [n d]] Hq'; exact Hq'|].
  eapply (wp_iterate (fun '(q', _) => q <= q' <= e) (fun '(q', _) => Z.to_nat (e - q'))).
  - intros [q' [n d]] Hq'. destruct (Z.ltb_spec q' e); [|simpl; lia].
    destruct (text_char q') as (c & -> & _); [lia|]. cbn [bind].
    destruct (_ && _); [simpl; lia|]. destruct (negb _); simpl; lia.
  - lia.
  - apply span_fuel_gt.
Qed.

Lemma scan_decimal_number_wp q :
  b <= q <= e -> wp (scan_decimal_number m q e) (fun '(q', _, _) => q <= q' <= e).
Proof.
  intros Hq. unfold scan_decimal_number.
  destruct (negb (q =? 0) && (q <? e)) eqn:Hcond; [|simpl; lia].
  apply andb_true_iff in Hcond as [_ Hlt%Z.ltb_lt].
  destruct (text_char q) as (c & -> & _); [lia|]. cbn [bind]. apply wp_bind.
  eapply wp_mono; [|apply (scan_digits_wp Decimal); destruct (_ || _); lia].
  intros [q' n] [Hq' _]. simpl. destruct (_ || _); lia.
Qed.
#[local] Opaque scan_decimal_digits_post_radix scan_decimal_number dadd dmul double_of_Z
  set_possibly_signed_value.

Lemma get_decimal_token_wp q fp neg n tok lo :
  b <= begin (substr tok) <= q -> q <= e -> (fp = true -> q < e) ->
  (lo <= q \/ fp = true /\ lo <= q + 1) ->
  0 <= n < 2 ^ 64 -> n <> 2 ^ 63 ->
  wp (get_decimal_token pow m q e fp neg n tok) (fun tok' => number_ends tok tok' lo).
Proof.
  intros Hbegin Hq Hfp Hlo Hn Hne. unfold get_decimal_token.
  apply wp_bind. eapply wp_mono with (P := fun _ => True).
  2: { destruct (_ && _) eqn:Hcond; [|done]. rewrite !andb_true_iff, Z.ltb_lt in Hcond.
       by destruct (text_char q) as (c & -> & _); [lia|]. }
  intros c _. apply wp_bind.
  eapply wp_mono with (P := fun '(q', _, _) => q <= q' <= e /\ lo <= q').
  2: { destruct (fp || _) eqn:Hcond.
       - assert (q < e) as Hqe.
         { destruct fp; [by apply Hfp|]. simpl in Hcond. rewrite !andb_true_iff, Z.ltb_lt in Hcond. lia. }
         apply wp_bind. eapply wp_mono; [|apply scan_post_radix_wp; lia].
         intros [q' v] Hq'. simpl. lia.
       - simpl. destruct fp; [done|]. lia. }
  intros [[q1 fp1] v1] [Hq1 Hlo1]. cbv zeta. apply wp_bind.
  eapply wp_mono with (P := fun _ => True).
  2: { destruct (Z.ltb_spec (q1 + 1) e); [|done].
       by destruct (text_char q1) as (c1 & -> & _); [lia|]. }
  intros c1 _. apply wp_bind.
  eapply wp_mono with (P := fun '(q', _, _) => q1 <= q' <= e).
  2: { destruct (Z.ltb_spec (q1 + 1) e); [|simpl; lia].
       destruct (true && _); [|simpl; lia].
       apply wp_bind. eapply wp_mono; [|apply scan_decimal_number_wp; lia].
       intros [[q' neg'] ex] Hq'. simpl. lia. }
  intros [[q2 fp2] v2] Hq2. destruct fp2.
  - simpl. unfold number_ends. simpl.
    destruct (end_at_inside (substr tok) q2) as [-> ->]; [lia|]. split; [done|lia].
  - apply set_signed_wp; try done; lia.
Qed.

(** A number may start at [q]: there, after an optional sign, is a digit, or a point
    before the end of the text. *)
Definition number_start (q : Z) : Prop :=
  exists s c rest, holds m q (sign_chars s ++ c :: rest) /\ (is_ascii_digit c = true \/ c = "."%ch) /\
    q + Zlen (sign_chars s) < e.

Lemma scan_decimal_progress q c :
  b <= q < e -> m !! q = Some c -> is_ascii_digit c = true ->
  wp (scan_decimal_digits_pre_radix m q e) (fun '(q', n) => q < q' <= e /\ 0 <= n < 2 ^ 64 /\ n <> 2 ^ 63).
Proof.
  intros Hq Hc Hdigit. destruct (text_from q) as (l' & Hl' & He & _); [lia|].
  apply holds_app in Hl' as [Hl' _].
  pose proof (scan_digits_spec Decimal m q l' Hl') as Hrun. rewrite <- He in Hrun.
  simpl in Hrun. pose proof (digits_not_min Decimal q _ _ ltac:(lia) Hrun) as Hn. rewrite Hrun. simpl.
  split; [|done].
  destruct l' as [|c' l']; [change (Zlen []) with 0 in He; lia|].
  destruct Hl' as [Hc' _]. rewrite Hc in Hc'. injection Hc' as <-.
  pose proof (scan_len_bounds (is_numeral_char 10) l'). rewrite Zlen_cons in He. simpl.
  assert (is_numeral_char 10 c = true) as ->; [|lia].
  unfold is_ascii_digit, is_numeral_char, digit_value, get_ascii_hex_value in *. revert Hdigit. ztest.
Qed.

Lemma get_number_token_wp q tok :
  b <= q -> number_start q -> begin (substr tok) = q ->
  wp (get_number_token pow m q e tok) (fun tok' => number_ends tok tok' (q + 1)).
Proof.
  intros Hq (s & c & rest & Hs & Hc & Hqe) Hbegin. unfold get_number_token.
  assert (is_sign c = false) as Hsign.
  { unfold is_sign. destruct Hc as [Hc| ->]; [|done]. unfold is_ascii_digit in Hc. ztest_in Hc; ztest. }
  rewrite (read_sign_spec m q s c rest Hs Hsign). cbn [bind].
  pose proof (Zlen_nonneg (sign_chars s)). set (q1 := q + Zlen (sign_chars s)) in *.
  assert (q <= q1) by lia.
  apply holds_app in Hs as [_ [Hmc _]]. fold q1 in Hmc.
  destruct (Z.eqb_spec c 46) as [->|Hdot]; cbn [negb].
  { apply get_decimal_token_wp; lia. }
  destruct Hc as [Hdigit|]; [|done].
  apply wp_bind. eapply wp_mono with
    (P := fun o => match o with
                   | Some (q', n, _) => q1 < q' <= e /\ 0 <= n < 2 ^ 64 /\ n <> 2 ^ 63
                   | None => True
                   end).
  - intros [[[q' n] ty]|] Ho; cbv beta iota in Ho.
    + apply set_signed_wp; lia.
    + apply wp_bind. eapply wp_mono; [|by apply (scan_decimal_progress q1 c); [lia|..]].
      intros [q' n] Hq'. apply get_decimal_token_wp; lia.
  - destruct (Z.ltb_spec (q1 + 2) e); [|by rewrite andb_false_r].
    rewrite andb_true_r. destruct (c =? 48); [|done].
    destruct (text_char (q1 + 1)) as (x & -> & _); [lia|]. cbn [bind].
    assert (forall r ty, wp (let! (q', n) := scan_digits r m (q1 + 2) e in Ok (Some (q', n, ty : Z)))
      (fun o => match o with
                | Some (q', n, _) => q1 < q' <= e /\ 0 <= n < 2 ^ 64 /\ n <> 2 ^ 63
                | None => True
                end)) as Hscan.
    { intros r ty. pose proof (scan_digits_wp r (q1 + 2) e ltac:(lia)) as Hwp.
      destruct (scan_digits r m (q1 + 2) e) as [[q' n]| | |] eqn:Hrun; try done.
      pose proof (digits_not_min r (q1 + 2) q' n ltac:(lia) Hrun). simpl in *. lia. }
    destruct (_ || _); [apply (Hscan Hex)|]. destruct (_ || _); [apply (Hscan Binary)|].
    destruct (_ && _); [apply (Hscan Octal)|done].
Qed.

#[local] Opaque get_number_token.

Lemma scan_number_token_wp lx :
  ready lx -> number_start (p lx) -> wp (scan_number_token pow m lx) (scanned lx).
Proof.
  intros (Hok & Hpend & Hp & Hbegin) Hstart. unfold scan_number_token. rewrite (text_end_ok lx Hok).
  apply wp_bind. eapply wp_mono; [|apply get_number_token_wp; try done; lia].
  intros tok' [Hb' Hend]. simpl. unfold scanned. simpl. split; [done|]. split; [done|].
  rewrite Hbegin in *. split; [done|lia].
Qed.

(** The text at [p]: its char, and the next one. *)
Lemma holds_two q c d rest :
  load m q = Ok c -> load m (q + 1) = Ok d -> rest = [] -> holds m q (c :: d :: rest).
Proof.
  unfold load. intros Hc Hd ->. simpl. destruct (m !! q); [|done]. destruct (m !! (q + 1)); [|done].
  naive_solver.
Qed.

Lemma scan_dot_wp lx : ready lx -> load m (p lx) = Ok "."%ch -> wp (scan_dot pow m lx) (scanned lx).
Proof.
  intros Hready Hc. pose proof Hready as (Hok & _ & Hp & _). unfold scan_dot. apply wp_bind.
  eapply wp_mono; [|by apply peek_wp]. intros [d|] Hnext; [|consumed].
  destruct Hnext as (Hnext & Hd & Hd0). unfold isdigit. rewrite (ctype_wp _ d Hd0). cbn [bind].
  destruct (is_ascii_digit d) eqn:Hdigit; [|consumed].
  apply scan_number_token_wp; [done|]. exists NoSign, "."%ch, [d]. cbn [sign_chars app].
  split; [by apply holds_two|]. split; [by right|]. change (Zlen []) with 0. lia.
Qed.

Lemma scan_minus_wp lx : ready lx -> load m (p lx) = Ok "-"%ch -> wp (scan_minus pow m lx) (scanned lx).
Proof.
  intros Hready Hc. pose proof Hready as (Hok & _ & Hp & _). unfold scan_minus. apply wp_bind.
  eapply wp_mono; [|by apply peek_wp]. intros [d|] Hnext; [|consumed].
  destruct Hnext as (Hnext & Hd & Hd0).
  destruct (d =? 45); [step_next_is; [specialize (H eq_refl)|]; consumed|].
  destruct (d =? 61); [consumed|]. destruct (d =? 91); [consumed|]. destruct (d =? 60); [consumed|].
  unfold isdigit. rewrite (ctype_wp _ d Hd0). cbn [bind].
  destruct (is_ascii_digit d) eqn:Hdigit; [|consumed].
  apply scan_number_token_wp; [done|]. exists Minus, d, []. cbn [sign_chars app].
  split; [by apply holds_two|]. split; [by left|]. change (Zlen ["-"%ch]) with 1. lia.
Qed.

Lemma scan_plus_wp lx : ready lx -> load m (p lx) = Ok "+"%ch -> wp (scan_plus pow m lx) (scanned lx).
Proof.
  intros Hready Hc. pose proof Hready as (Hok & _ & Hp & _). unfold scan_plus. apply wp_bind.
  eapply wp_mono; [|by apply peek_wp]. intros [d|] Hnext; [|consumed].
  destruct Hnext as (Hnext & Hd & Hd0).
  destruct (d =? 43); [step_next_is; [specialize (H eq_refl)|]; consumed|].
  destruct (d =? 61); [consumed|]. destruct (d =? 60); [consumed|].
  unfold isdigit. rewrite (ctype_wp _ d Hd0). cbn [bind].
  destruct (is_ascii_digit d) eqn:Hdigit; [|consumed].
  apply scan_number_token_wp; [done|]. exists Plus, d, []. cbn [sign_chars app].
  split; [by apply holds_two|]. split; [by left|]. change (Zlen ["+"%ch]) with 1. lia.
Qed.
#[local] Opaque scan_number_token get_phrase_token scan_quote scan_hash scan_pair.

Lemma scan_other_wp lx c :
  ready lx -> load m (p lx) = Ok c -> 0 < c -> wp (scan_other garbage pow m lx) (scanned lx).
Proof.
  intros Hready Hc Hc0. pose proof Hready as (Hok & Hpend & Hp & Hbegin). unfold scan_other.
  rewrite Hc. cbn [bind]. unfold isalpha, isdigit. rewrite !(ctype_wp _ c) by lia. cbn [bind].
  destruct (is_ascii_alpha c) eqn:Halpha.
  - eapply wp_mono; [|by apply (get_phrase_token_wp lx c); try done; lia].
    intros lx' (Hok' & Hpend' & Hb' & Hend). unfold scanned. rewrite Hbegin. split_and!; try done; lia.
  - destruct (is_ascii_digit c) eqn:Hdigit.
    + apply scan_number_token_wp; [done|]. exists NoSign, c, []. cbn [sign_chars app].
      split; [|split; [by left|change (Zlen []) with 0; lia]].
      revert Hc. unfold load. simpl. destruct (m !! p lx); [|done]. by intros [= ->].
    + simpl. apply end_token_scanned; [done|by split|lia].
Qed.

Lemma scan_token_wp lx c :
  ready lx -> load m (p lx) = Ok c -> 0 < c -> wp (scan_token garbage pow m lx c) (scanned lx).
Proof.
  intros Hready Hc Hc0. pose proof Hready as (_ & _ & Hp & _). unfold scan_token.
  repeat match goal with
         | |- wp (if c =? ?k then _ else _) _ =>
             destruct (Z.eqb_spec c k) as [->|?];
             [first [by apply scan_lt_wp | by apply scan_gt_wp | by apply scan_question_wp
                    | by apply scan_dot_wp | by apply scan_brace_wp | by apply scan_pair_wp
                    | by apply scan_bang_wp | by apply scan_hash_wp | by apply scan_minus_wp
                    | by apply scan_plus_wp | consumed]|]
         | |- wp (if _ || _ then _ else _) _ => destruct (_ || _); [by apply scan_quote_wp|]
         end.
  by apply (scan_other_wp lx c).
Qed.

(** ** Advancing *)

Definition lex_ok (lx : lexer) : Prop :=
  state_ok lx /\ pending_ok lx /\
  b <= begin (substr (t lx)) /\ 0 <= length (substr (t lx)) /\ view_end (substr (t lx)) <= e + 1.

(** What is left to report: the text after the token, an error, an indent or dedents. *)
Definition indent_work (lx : lexer) : Z :=
  if indent_dedent_delta lx =? 0 then 0
  else if 0 <? indent_dedent_delta lx then 1 else total_indent_width lx.
Definition work (lx : lexer) : Z :=
  200 * (e + 1 - view_end (substr (t lx))) +
  (match pending_error lx with Some _ => 1 | None => 0 end) + indent_work lx.

Lemma indent_work_bounds lx : state_ok lx -> 0 <= indent_work lx <= 63.
Proof.
  intros [_ Hind]. pose proof (total_bounds lx Hind). unfold indent_work.
  destruct (_ =? _); [lia|]. destruct (_ <? _); lia.
Qed.

Lemma work_nonneg lx : lex_ok lx -> 0 <= work lx.
Proof.
  intros (Hok & _ & _ & _ & Hend). pose proof (indent_work_bounds lx Hok). unfold work.
  destruct (pending_error lx); lia.
Qed.

Lemma reset_token_ok lx :
  lex_ok lx ->
  state_ok (reset_token lx) /\ pending_ok (reset_token lx) /\
  begin (substr (t (reset_token lx))) = view_end (substr (t lx)) /\
  length (substr (t (reset_token lx))) = 0 /\ p (reset_token lx) = view_end (substr (t lx)) /\
  indent_work (reset_token lx) = indent_work lx /\ pending_error (reset_token lx) = pending_error lx.
Proof.
  intros (Hok & Hpend & Hbegin & Hlen & Hend). split; [done|]. split; [done|].
  unfold reset_token. simpl. unfold begin_at, view_end.
  destruct (Z.ltb_spec (begin (substr (t lx))) (begin (substr (t lx)) + length (substr (t lx)))).
  - simpl. ztrue (length (substr (t lx)) <=? begin (substr (t lx)) + length (substr (t lx)) - begin (substr (t lx))).
    done.
  - zfalse (begin (substr (t lx)) + length (substr (t lx)) <? begin (substr (t lx))).
    split; [lia|]. split; [lia|]. split; [lia|done].
Qed.

Lemma note_to_string_wp n :
  issue n = ii_unterminated_string_literal -> wp (note_to_string n) (fun _ => True).
Proof. intros Hn. unfold note_to_string. rewrite Hn. done. Qed.

#[local] Opaque pop_indent scan_token note_to_string.

(** What one activation of [advance] achieves from [lx]. *)
Definition stepped (lx lx' : lexer) : Prop :=
  lex_ok lx' /\ view_end (substr (t lx)) <= begin (substr (t lx')) /\ work lx' < work lx.

(** The state between the pieces of [advance_step]: reset, with nothing pending. *)
Lemma dedent_wp lx lx0 :
  lex_ok lx0 -> lx = reset_token lx0 -> pending_error lx = None -> indent_dedent_delta lx < 0 ->
  wp (let! (width, lx) := pop_indent lx in
      let delta := i32 (indent_dedent_delta lx + i32 width) in
      Ok (inr (true, set_type (set_delta lx (if 0 <? delta then 0 else delta)) tt_dedent) : lexer + bool * lexer))
    (fun r => match r with inl _ => False | inr (more, lx') => more = true /\ stepped lx0 lx' end).
Proof.
  intros Hlex0 E Hpend Hdelta. pose proof (reset_token_ok lx0 Hlex0) as Hreset.
  rewrite <- E in Hreset. destruct Hreset as (Hok & Hpok & Hbegin & Hlen & Hp & Hwork & Hperr).
  apply wp_bind. eapply wp_mono; [|by apply pop_indent_wp].
  intros [w lx'] (Hw & Htxt & Htotal & Hd & Hs & (Ht & Hu & Hpe)). simpl.
  pose proof (proj2 Hok) as Hind. pose proof (total_bounds lx Hind) as Htb. destruct Hind as [_ Hdb].
  rewrite (i32_small w) by lia. rewrite i32_small by lia.
  split; [done|]. unfold stepped.
  destruct Hlex0 as (_ & _ & Hb0 & Hl0 & He0).
  assert (view_end (substr (t lx)) = view_end (substr (t lx0))) as Hve by (unfold view_end in *; lia).
  split; [split|].
  - split; [simpl; rewrite Htxt; apply Hok|]. split; simpl; [right; done|].
    destruct (Z.ltb_spec 0 (indent_dedent_delta lx' + w)); lia.
  - split; [unfold pending_ok; simpl; rewrite Hpe; exact Hpok|]. simpl. rewrite Ht.
    split; [rewrite Hbegin; unfold view_end in *; lia|]. split; [lia|lia].
  - split; [simpl; rewrite Ht, Hbegin; lia|].
    unfold work, indent_work in *. simpl. rewrite Ht, Hpe, Hve. rewrite <- Hperr, Hpend.
    rewrite <- Hwork. zfalse (indent_dedent_delta lx =? 0). zfalse (0 <? indent_dedent_delta lx).
    destruct (Z.ltb_spec 0 (indent_dedent_delta lx' + w)); [simpl; lia|].
    destruct (Z.eqb_spec (indent_dedent_delta lx' + w) 0); [lia|].
    zfalse (0 <? indent_dedent_delta lx' + w). lia.
Qed.
(** A scan that ends the token at [q], further on, from a reset state with nothing pending. *)
Lemma ended_stepped lx0 lx1 q :
  lex_ok lx0 -> pending_error lx0 = None -> indent_dedent_delta lx0 = 0 ->
  state_ok lx1 -> pending_ok lx1 ->
  begin (substr (t lx1)) = view_end (substr (t lx0)) ->
  view_end (substr (t lx0)) < q <= e + 1 ->
  stepped lx0 (end_token_at lx1 q) /\ view_end (substr (t (end_token_at lx1 q))) = q.
Proof.
  intros (Hok0 & _ & Hb0 & Hl0 & He0) Hperr Hdelta Hok1 Hpend1 Hbegin Hq.
  assert (b <= view_end (substr (t lx0))) by (unfold view_end in *; lia).
  destruct (end_at_inside (substr (t lx1)) q) as [E1 E2]; [lia|].
  assert (state_ok (end_token_at lx1 q)) as Hok' by done.
  split; [|exact E2]. unfold stepped. simpl.
  split; [|split].
  - split; [done|]. split; [done|]. simpl. rewrite E1, E2. split; [lia|].
    unfold view_end in E2. rewrite E1 in E2. lia.
  - rewrite E1. lia.
  - pose proof (indent_work_bounds _ Hok'). unfold work. simpl. rewrite E2, Hperr.
    unfold indent_work at 2. rewrite Hdelta. simpl. destruct (pending_error lx1); lia.
Qed.

Lemma scanned_stepped lx0 lx lx' :
  lex_ok lx0 -> pending_error lx0 = None -> indent_dedent_delta lx0 = 0 ->
  begin (substr (t lx)) = view_end (substr (t lx0)) -> scanned lx lx' -> stepped lx0 lx'.
Proof.
  intros (Hok0 & _ & Hb0 & Hl0 & He0) Hperr Hdelta Hbegin (Hok' & Hpend' & Hb' & Hend').
  unfold stepped, lex_ok. rewrite Hb', Hbegin in *.
  assert (0 <= length (substr (t lx'))) by (unfold view_end in *; lia).
  split; [split_and!; try done; unfold view_end in *; lia|]. split; [lia|].
  pose proof (indent_work_bounds _ Hok'). unfold work.
  unfold indent_work at 2. rewrite Hdelta, Hperr. simpl. destruct (pending_error lx'); lia.
Qed.

(** The line-break case of the switch. *)
Lemma line_break_wp lx0 lx c :
  lex_ok lx0 -> lx = reset_token lx0 -> pending_error lx0 = None -> indent_dedent_delta lx0 = 0 ->
  b <= p lx < e ->
  wp (let! crlf := if c =? CR then next_is m lx 1 LF else Ok false in
      let lx := set_p lx (p lx + (if crlf : bool then 1 else 0) + 1) in
      if p lx <? e then
        let! (q, lx) := scan_beginning_of_line garbage m lx in Ok (inl (end_token_at lx q) : lexer + bool * lexer)
      else
        Ok (inl (set_delta (end_token_at lx e) (i32 (-1 * i32 (total_indent_width lx))))))
    (fun r => match r with
              | inl lx' => stepped lx0 lx' /\ view_end (substr (t lx0)) < view_end (substr (t lx'))
              | inr _ => False
              end).
Proof.
  intros Hlex0 E Hperr Hdelta Hpe. pose proof (reset_token_ok lx0 Hlex0) as Hreset.
  rewrite <- E in Hreset. destruct Hreset as (Hok & Hpok & Hbegin & Hlen & Hp & _ & _).
  apply wp_bind. eapply wp_mono with (P := fun crlf => crlf = true -> p lx + 1 < e).
  2: { destruct (c =? 13); [apply next_is_wp; [done|lia|lia]|done]. }
  intros crlf Hcrlf. cbv zeta.
  set (q0 := p lx + (if crlf then 1 else 0) + 1). change (p (set_p lx q0)) with q0.
  assert (p lx < q0 <= e) as Hq0 by (unfold q0; destruct crlf; [specialize (Hcrlf eq_refl)|]; lia).
  destruct (Z.ltb_spec q0 e).
  - apply wp_bind. eapply wp_mono; [|apply scan_beginning_of_line_wp; [exact Hok|simpl; lia]].
    intros [q lx1] (Hok1 & (Ht1 & _ & Hpe1) & Hp1 & Hq). simpl in Ht1, Hpe1, Hp1, Hq. simpl.
    destruct (ended_stepped lx0 lx1 q) as [Hst Hve]; try done.
    + unfold pending_ok. by rewrite Hpe1.
    + by rewrite Ht1.
    + lia.
    + split; [done|]. simpl in Hve. rewrite Hve. lia.
  - simpl. pose proof (total_bounds lx (proj2 Hok)) as Htotal.
    rewrite !i32_small by (rewrite ?i32_small; lia).
    set (lx1 := set_indent (set_p lx q0) (total_indent_width lx) (-1 * total_indent_width lx)
                  (last_stack_insert_idx lx) (indent_stack lx)).
    assert (state_ok lx1) as Hok1.
    { destruct Hok as [Htxt [Hs _]]. split; [done|]. split; [done|]. simpl. lia. }
    destruct (ended_stepped lx0 lx1 e) as [Hst Hve]; try done; [lia|].
    split; [exact Hst|]. change (view_end (substr (t (end_token_at lx1 e)))) with
      (view_end (end_at (substr (t lx)) e)) in Hve. simpl. rewrite Hve. lia.
Qed.

Lemma advance_step_wp lx0 :
  lex_ok lx0 ->
  wp (advance_step garbage pow m lx0) (fun r =>
    match r with
    | inl lx' => stepped lx0 lx' /\ view_end (substr (t lx0)) < view_end (substr (t lx'))
    | inr (more, lx') => lex_ok lx' /\ view_end (substr (t lx0)) <= begin (substr (t lx')) /\
        (more = true -> work lx' < work lx0)
    end).
Proof.
  intros Hlex0. pose proof (reset_token_ok lx0 Hlex0) as Hreset.
  pose proof Hlex0 as (Hok0 & _ & Hb0 & Hl0 & He0).
  unfold advance_step. remember (reset_token lx0) as lx eqn:E.
  destruct Hreset as (Hok & Hpok & Hbegin & Hlen & Hp & Hwork & Hperr).
  assert (b <= view_end (substr (t lx0))) as Hbv by (unfold view_end in *; lia).
  assert (view_end (substr (t lx)) = view_end (substr (t lx0))) as Hve by (unfold view_end in *; lia).
  assert (lex_ok lx) as Hlex by (split_and!; try done; unfold view_end in *; lia).
  assert (work lx = work lx0) as Hw by (unfold work; by rewrite Hve, Hwork, Hperr).
  cbv zeta. destruct (pending_error lx) as [n|] eqn:Hpe.
  { apply wp_bind. eapply wp_mono; [|apply note_to_string_wp; unfold pending_ok in Hpok; by rewrite Hpe in Hpok].
    intros text _. simpl. split; [|split; [lia|]].
    - destruct Hlex as (? & ? & ? & ? & ?). by split_and!.
    - intros _. rewrite <- Hw. unfold work, indent_work. simpl. rewrite Hpe. lia. }
  destruct (Z.eqb_spec (indent_dedent_delta lx) 0) as [Hd|Hd]; cbn [negb].
  2: { destruct (Z.ltb_spec 0 (indent_dedent_delta lx)).
       - simpl. split; [|split; [lia|]].
         + destruct Hlex as ([Htxt [Hs Hdb]] & ? & ? & ? & ?).
           pose proof (total_bounds lx (proj2 Hok)).
           split; [split; [done|split; [exact Hs|simpl; lia]]|done].
         + intros _. rewrite <- Hw. unfold work, indent_work. simpl. rewrite Hpe.
           zfalse (indent_dedent_delta lx =? 0). ztrue (0 <? indent_dedent_delta lx). lia.
       - eapply wp_mono; [|apply (dedent_wp lx lx0); [done|done|done|lia]].
         intros [?|[more lx']] Hr; [done|]. destruct Hr as [-> (? & ? & ?)]. done. }
  assert (indent_dedent_delta lx0 = 0) as Hd0 by (rewrite E in Hd; exact Hd).
  assert (pending_error lx0 = None) as Hpe0 by done.
  rewrite (text_end_ok lx Hok).
  destruct (Z.ltb_spec e (begin (substr (t lx)))) as [Hpast|Hin]; [simpl; split; [done|]; split; [lia|done]|].
  destruct (text_char (p lx)) as (c & Hc & Hcr & Hnul); [lia|]. rewrite Hc. cbn [bind].
  destruct (Z.eqb_spec c 0) as [Hc0|Hc0]; [simpl; split; [done|]; split; [lia|done]|].
  assert (p lx < e) as Hpe' by lia.
  destruct (is_line_break c).
  { eapply wp_mono; [|by apply (line_break_wp lx0 lx c); [..|lia]].
    intros [lx'|[more lx']]; [done|done]. }
  destruct (_ || _).
  { apply wp_bind. eapply wp_mono; [|apply scan_spaces_wp; lia]. intros q [Hq _]. simpl.
    destruct (ended_stepped lx0 lx q) as [Hst Hveq]; try done; [lia|].
    split; [exact Hst|]. simpl in Hveq. rewrite Hveq. lia. }
  apply wp_bind. eapply wp_mono; [|apply (scan_token_wp lx c); [|done|lia]].
  - intros lx' Hsc. simpl. destruct (scanned_stepped lx0 lx lx' Hlex0 Hpe0 Hd0 Hbegin Hsc) as (H1 & H2 & H3).
    done.
  - split; [done|]. split; [done|]. lia.
Qed.
#[local] Opaque advance_step.

Lemma advance_wp lx :
  lex_ok lx ->
  wp (advance garbage pow m lx) (fun '(more, lx') =>
    lex_ok lx' /\ view_end (substr (t lx)) <= begin (substr (t lx')) /\
    (more = true -> work lx' < work lx)).
Proof.
  intros Hlex. unfold advance. rewrite (text_end_ok lx) by apply Hlex.
  eapply (wp_iterate
    (fun lx' => lex_ok lx' /\ view_end (substr (t lx)) <= view_end (substr (t lx')) /\ work lx' <= work lx)
    (fun lx' => Z.to_nat (e + 1 - view_end (substr (t lx'))))).
  - intros lx1 (Hlex1 & Hve1 & Hw1). eapply wp_mono; [|by apply advance_step_wp].
    intros [lx2|[more lx2]].
    + intros [(Hlex2 & Hb2 & Hw2) Hve2]. split; [split; [done|split; lia]|].
      destruct Hlex2 as (_ & _ & _ & _ & ?). lia.
    + intros (Hlex2 & Hb2 & Hw2). split; [done|]. split; [lia|]. intros Hmore. specialize (Hw2 Hmore). lia.
  - split; [done|]. lia.
  - pose proof (span_fuel_gt (view_end (substr (t lx))) e). lia.
Qed.

Lemma init_ok :
  let lx := {| txt := view_of_length b (Zlen l);
               t := {| t_type := tt_none; substr := view_of_length b 0; t_value := vt_empty |};
               unwrapped_text := []; line_begin := b; p := b;
               inconsistent_indent := 0; line_number := 0; total_indent_width := 0;
               indent_dedent_delta := 0; last_stack_insert_idx := NO_INDENT_YET;
               indent_stack := ∅; pending_error := None |} in
  state_ok lx /\ pending_ok lx.
Proof. split; [|done]. split; [done|]. split; [by left|simpl; lia]. Qed.

Lemma lexer_init_wp :
  wp (lexer_init garbage pow m (view_of_length b (Zlen l))) (fun lx =>
    lex_ok lx /\ txt lx = view_of_length b (Zlen l)).
Proof.
  unfold lexer_init. simpl (begin _). simpl (p _). zfalse (b =? 0). cbn [negb].
  destruct init_ok as [Hok Hpend]. pose proof (Zlen_nonneg l).
  apply wp_bind. eapply wp_mono; [|apply scan_beginning_of_line_wp; [exact Hok|simpl; lia]].
  intros [q lx] (Hok' & (Ht & _ & Hpe) & Hp & Hq). simpl in Ht, Hpe, Hp, Hq.
  apply wp_bind. eapply wp_mono; [|apply advance_wp].
  - intros [more lx'] (Hlex & _). simpl. split; [done|]. apply Hlex.
  - destruct (end_at_inside (substr (t lx)) q) as [E1 E2]; [rewrite Ht; simpl; lia|].
    split; [exact Hok'|]. split; [unfold pending_ok; simpl; by rewrite Hpe|]. simpl.
    rewrite Ht in *. simpl in *. unfold view_end in *. lia.
Qed.

(** The tokens follow one another from [lo] to [hi]. *)
Fixpoint in_order (lo : Z) (toks : list (token * list Z)) (hi : Z) : Prop :=
  match toks with
  | [] => lo <= hi
  | (tok, _) :: toks' =>
      lo <= begin (substr tok) /\ 0 <= length (substr tok) /\ in_order (view_end (substr tok)) toks' hi
  end.

Lemma in_order_snoc lo toks tok text hi hi' :
  in_order lo toks hi -> hi <= begin (substr tok) -> 0 <= length (substr tok) ->
  view_end (substr tok) <= hi' -> in_order lo (toks ++ [(tok, text)]) hi'.
Proof.
  revert lo. induction toks as [|[tok' text'] toks IH]; intros lo; simpl; [|intuition].
  intros. split; [lia|]. by split.
Qed.

Lemma lex_wp fuel :
  200 * (Zlen l + 1) + 64 < Z.of_nat fuel ->
  wp (lex garbage pow fuel m (view_of_length b (Zlen l))) (fun toks => in_order b toks (e + 1)).
Proof.
  intros Hfuel. pose proof (Zlen_nonneg l). unfold lex. apply wp_bind.
  eapply wp_mono; [|apply lexer_init_wp]. intros lx [Hlex Htxt].
  destruct (iterator_begin lx); [|simpl; lia].
  assert (work lx <= 200 * (Zlen l + 1) + 64) as Hw.
  { pose proof Hlex as (Hok & _ & Hb1 & Hl1 & _). pose proof (indent_work_bounds lx Hok). unfold work.
    unfold view_end. destruct (pending_error lx); lia. }
  eapply (wp_iterate (fun '(lx', toks) => lex_ok lx' /\ in_order b toks (begin (substr (t lx'))) /\
    work lx' <= work lx) (fun '(lx', _) => Z.to_nat (work lx'))).
  - intros [lx1 toks] (Hlex1 & Htoks & Hw1). apply wp_bind.
    unfold iterator_next. eapply wp_mono; [|by apply advance_wp].
    intros [more lx2] (Hlex2 & Hb2 & Hw2). pose proof (work_nonneg lx2 Hlex2).
    pose proof Hlex1 as (_ & _ & Hb1 & Hl1 & He1).
    assert (forall hi, view_end (substr (t lx1)) <= hi ->
      in_order b (toks ++ [(deref lx1, unwrapped_text lx1)]) hi) as Hsnoc.
    { intros hi Hhi. eapply in_order_snoc; [done|unfold deref; lia|done|done]. }
    destruct more; simpl.
    + specialize (Hw2 eq_refl). split; [|lia]. split; [done|]. split; [by apply Hsnoc|lia].
    + apply Hsnoc. lia.
  - split; [done|]. split; [|lia]. simpl. apply Hlex.
  - pose proof (work_nonneg lx Hlex). lia.
Qed.
End text.

(** * Properties *)

(** C9: lexing is safe and finite.  On any NUL-terminated ASCII text with no run of blanks
    wider than 63 columns and no literal of magnitude 2^63, walking the lexer from begin to end reaches no
    undefined behaviour, takes at most 200 * (length + 1) + 64 tokens, and the
    tokens follow one another in the text. *)
Theorem lex_total garbage pow m b l :
  0 < b -> holds m b (l ++ [0]) -> Forall is_ascii l -> narrow l -> no_min_literal l ->
  exists toks,
    lex garbage pow (Z.to_nat (200 * (Zlen l + 1) + 65)) m (view_of_length b (Zlen l)) = Ok toks /\
    in_order b toks (b + Zlen l + 1).
Proof.
  intros Hb Hm Hl Hnarrow Hmin. pose proof (Zlen_nonneg l). apply wp_Ok_iff.
  apply lex_wp; try done. lia.
Qed.

Definition program : list Z := str "Run(x = 0x1F, 'it''s')" ++ [10] ++ str "  # note" ++ [10] ++ str "y -3.5".

Lemma lex_total_witness :
  exists toks,
    lex 7 (fun _ x => x) (Z.to_nat (200 * (Zlen program + 1) + 65)) (map_seqZ 16 (program ++ [0]))
      (view_of_length 16 (Zlen program)) = Ok toks /\
    in_order 16 toks (16 + Zlen program + 1).
Proof. apply (lex_total 7 (fun _ x => x) (map_seqZ 16 (program ++ [0])) 16 program); decided. Defined.
