(* ===== verification/LexerBehaviour.v ===== *)
(** * What the lexer reads

    Operators, string literals and numbers as tokens, and the places where the
    lexer goes wrong. *)

From stdpp Require Import base tactics list gmap strings.
From Stdlib Require Import ZArith Lia.
From S2P Require Import Prelude CString ScanNumbers Unicode Tokens StrView Lexer.
#[local] Open Scope Z_scope.

#[local] Arguments u32 : simpl never.
#[local] Arguments i32 : simpl never.

(** A lexer between tokens: no error and no indent or dedent is waiting. *)
Definition between_tokens (lx : lexer) : Prop :=
  pending_error lx = None /\ indent_dedent_delta lx = 0.

(** The text from the end of the current token on. *)
Definition next_text (m : mem) (lx : lexer) (l : list Z) : Prop :=
  let q := view_end (substr (t lx)) in
  0 < q /\ begin (substr (t lx)) <= q /\ holds m q l /\ q + Zlen l <= text_end lx.

Section behaviour.
Context (garbage : Z) (pow : double -> double -> double).

(** What a scan within a line leaves alone. *)
Definition same_line (lx lx' : lexer) : Prop :=
  txt lx' = txt lx /\ total_indent_width lx' = total_indent_width lx /\
  last_stack_insert_idx lx' = last_stack_insert_idx lx /\ indent_stack lx' = indent_stack lx.

(** The next token has type [ty], length [len] and value [v]; its text is [text]. *)
Definition next_token (m : mem) (lx : lexer) (ty len : Z) (v : token_value) (text : list Z) : Prop :=
  exists lx',
    advance garbage pow m lx = Ok (true, lx') /\
    t lx' = {| t_type := ty; substr := view_of_length (view_end (substr (t lx))) len; t_value := v |} /\
    unwrapped_text lx' = text /\ between_tokens lx' /\ same_line lx lx'.

Lemma reset_between m lx l :
  next_text m lx l ->
  substr (t (reset_token lx)) = view_of_length (view_end (substr (t lx))) 0.
Proof.
  intros (Hq & Hb & _). unfold reset_token, begin_at, view_end, view_of_length in *. simpl.
  destruct (Z.ltb_spec (begin (substr (t lx))) (begin (substr (t lx)) + length (substr (t lx)))).
  - ztrue (length (substr (t lx)) <=? begin (substr (t lx)) + length (substr (t lx)) - begin (substr (t lx))).
    done.
  - assert (length (substr (t lx)) = 0) as E by lia. rewrite E, Z.add_0_r, Z.ltb_irrefl.
    rewrite <- E. by destruct (substr (t lx)).
Qed.

(** [advance] on a char that starts a token runs the case of the switch. *)
Lemma advance_scan m lx c l lx' :
  between_tokens lx -> next_text m lx (c :: l) -> c <> 0 -> is_line_break c = false -> is_blank c = false ->
  scan_token garbage pow m (reset_token lx) c = Ok lx' ->
  advance garbage pow m lx = Ok (true, lx').
Proof.
  intros [Hperr Hdelta] Hnext Hc Hbreak Hblank Hscan. pose proof (reset_between m lx _ Hnext) as Hsub.
  destruct Hnext as (Hq & Hb & (Hm & _) & Hend). rewrite Zlen_cons in Hend. pose proof (Zlen_nonneg l).
  unfold advance. cbn [iterate]. unfold advance_step.
  assert (pending_error (reset_token lx) = None) as -> by done.
  assert (indent_dedent_delta (reset_token lx) = 0) as -> by done.
  cbn [Z.eqb negb]. change (negb (0 =? 0)) with false. cbv iota zeta.
  rewrite Hsub. change (begin (view_of_length (view_end (substr (t lx))) 0)) with (view_end (substr (t lx))).
  change (text_end (reset_token lx)) with (text_end lx).
  zfalse (text_end lx <? view_end (substr (t lx))).
  assert (p (reset_token lx) = view_end (substr (t lx))) as ->.
  { change (p (reset_token lx)) with (begin (substr (t (reset_token lx)))). by rewrite Hsub. }
  rewrite (load_Some _ _ _ Hm). cbn [bind]. zfalse (c =? 0). rewrite Hbreak.
  unfold is_blank in Hblank. rewrite orb_comm in Hblank. rewrite Hblank, Hscan. done.
Qed.

(** ** Strings *)

(** A char that stands for itself in a literal with quote [ch]. *)
Definition plain_in (ch c : Z) : Prop :=
  c <> ch /\ c <> BACKSLASH /\ is_line_break c = false.
#[local] Instance plain_in_dec ch c : Decision (plain_in ch c).
Proof. unfold plain_in. apply _. Defined.

Definition is_quote (ch : Z) : Prop := ch = DQUOTE \/ ch = "'"%ch \/ ch = "`"%ch.

Lemma string_loop m ch s : forall lx fuel,
  holds m (p lx) (s ++ [ch]) -> p lx + Zlen s < text_end lx ->
  Forall (plain_in ch) s -> (Datatypes.length s < fuel)%nat ->
  iterate fuel (string_step garbage m ch) lx =
    Ok (set_p (set_text lx (unwrapped_text lx ++ s)) (p lx + Zlen s + 1)).
Proof.
  induction s as [|c s IH]; intros lx fuel Hm Hend Hs Hf;
    (destruct fuel as [|fuel]; [simpl in Hf; lia|]); cbn [iterate]; unfold string_step.
  - change (Zlen []) with 0 in *. ztrue (p lx <? text_end lx). destruct Hm as [Hm _].
    rewrite (load_Some _ _ _ Hm). simpl. rewrite Z.eqb_refl. simpl.
    rewrite app_nil_r, Z.add_0_r. by destruct lx.
  - rewrite Zlen_cons in *. pose proof (Zlen_nonneg s). ztrue (p lx <? text_end lx).
    destruct Hm as [Hc Hm]. rewrite (load_Some _ _ _ Hc). cbn [bind].
    apply Forall_cons in Hs as [(Hc1 & Hc2 & Hc3) Hs].
    zfalse (c =? ch). zfalse (c =? 92). rewrite Hc3. cbn [bind].
    rewrite IH; simpl; [|done| |done|simpl in Hf; lia].
    + rewrite <- app_assoc. by replace (p lx + 1 + Zlen s + 1) with (p lx + (1 + Zlen s) + 1) by lia.
    + change (text_end (set_p (set_text lx (unwrapped_text lx ++ [c])) (p lx + 1))) with (text_end lx). lia.
Qed.

Lemma scan_quote_spec m lx ch s :
  holds m (p lx) (ch :: s ++ [ch]) -> p lx + 2 + Zlen s <= text_end lx ->
  0 < p lx -> begin (substr (t lx)) = p lx -> Forall (plain_in ch) s ->
  scan_quote garbage m lx =
    Ok (set_p (set_text (set_t lx {| t_type := tt_quoted_string;
                                     substr := view_of_length (p lx) (Zlen s + 2);
                                     t_value := vt_string |}) s) (p lx + Zlen s + 2)).
Proof.
  intros [Hq Hm] Hend Hp Hbegin Hs. unfold scan_quote. simpl (p (set_type _ _)).
  rewrite (load_Some _ _ _ Hq). cbn [bind]. unfold get_string_literal. simpl (p (set_text _ _)).
  pose proof (Zlen_nonneg s).
  set (lx1 := set_text (set_p (set_type lx tt_quoted_string) (p lx + 1)) []).
  rewrite (string_loop m ch s lx1 _ Hm);
    [|change (text_end lx1) with (text_end lx); simpl; lia|done
     |change (text_end lx1) with (text_end lx); simpl; unfold span_fuel, Zlen in *; lia].
  simpl. unfold end_token_at, set_substr, end_at. simpl. rewrite Hbegin.
  zfalse (p lx =? 0). simpl. ztrue (p lx <=? p lx + 1 + Zlen s + 1).
  unfold set_value, set_t, set_p, set_text, set_type, view_of_length. simpl.
  replace (p lx + 1 + Zlen s + 1 - p lx) with (Zlen s + 2) by lia.
  by replace (p lx + 1 + Zlen s + 1) with (p lx + Zlen s + 2) by lia.
Qed.
(** ** Numbers *)

#[local] Opaque dadd dmul double_of_Z fraction.

Definition number_value (s : sign) (n : Z) : token_value :=
  if is_minus s then vt_signed (-1 * i64 n) else vt_unsigned n.

Lemma get_number_decimal_spec m q e tok s d l rest :
  holds m q (sign_chars s ++ (d :: l) ++ rest) ->
  e = q + Zlen (sign_chars s) + Zlen (d :: l) + Zlen rest ->
  Forall (fun c => is_numeral_char 10 c = true) (d :: l) -> d <> "0"%ch -> ends_numeral rest ->
  let n := u64 (numeral_value 10 (d :: l)) in
  (s = Minus -> i64 n <> - 2 ^ 63) ->
  get_number_token pow m q e tok =
    Ok {| t_type := tt_decimal_number;
          substr := end_at (substr tok) (q + Zlen (sign_chars s) + Zlen (d :: l));
          t_value := number_value s n |}.
Proof.
  intros Hm He Hl Hd Hrest n Hmin. pose proof (Forall_inv Hl) as Hdig. simpl in Hdig.
  destruct (numeral_char_not_sign d Hdig) as [Hs Hdot].
  unfold get_number_token. rewrite (read_sign_spec _ _ _ _ _ Hm) by done. cbn [bind].
  apply holds_app in Hm as [_ Hm]. set (q1 := q + Zlen (sign_chars s)) in *.
  zfalse (d =? 46). zfalse (d =? 48). cbn [negb andb bind].
  rewrite (scan_decimal_spec m q1 e (d :: l) rest) by
    (done || (destruct rest; simpl in *; [done|]; intros ? [= <-]; tauto)).
  cbn [bind]. fold n. unfold get_decimal_token. cbn [negb andb orb].
  apply holds_app in Hm as [_ Hm]. set (q2 := q1 + Zlen (d :: l)) in *.
  assert (set_possibly_signed_value (token_ends tok tt_decimal_number q2) (is_minus s) n =
    Ok {| t_type := tt_decimal_number; substr := end_at (substr tok) q2; t_value := number_value s n |}) as Hset.
  { unfold set_possibly_signed_value, number_value. destruct s; try done. cbn [is_minus].
    by replace (i64 n =? - 2 ^ 63) with false by (symmetry; apply Z.eqb_neq; auto). }
  destruct rest as [|c rest]; rewrite ?Zlen_cons in He.
  - change (Zlen []) with 0 in He. rewrite Z.add_0_r in He. subst e. rewrite Z.ltb_irrefl, andb_false_r.
    cbn [bind]. rewrite ?andb_false_r. cbn [andb bind]. zfalse (q2 + 1 <? q2). cbn [bind andb]. exact Hset.
  - destruct Hrest as (_ & Hc & Hexp), Hm as [Hcm _]. pose proof (Zlen_nonneg rest).
    ztrue (q2 <? e). rewrite (load_Some _ _ _ Hcm).
    replace (if _ && true then Ok c else Ok 0) with (Ok (if t_type tok =? tt_none then c else 0))
      by (by destruct (t_type tok =? tt_none)).
    cbn [bind]. replace (_ && true && (_ =? 46)) with false by
      (destruct (t_type tok =? tt_none); [symmetry; simpl; lia|done]).
    cbn [bind]. destruct (Z.ltb_spec (q2 + 1) e) as [Hlt|]; cbn [andb bind]; [|exact Hset].
    destruct Hexp as [He1 HE1]; [intros ->; change (Zlen []) with 0 in He; lia|].
    rewrite (load_Some _ _ _ Hcm). cbn [bind]. zfalse (c =? 101). zfalse (c =? 69). exact Hset.
Qed.

(** What follows a fraction: no digit, underscore, or exponent. *)
Definition ends_fraction (rest : list Z) : Prop :=
  match rest with
  | [] => True
  | c :: _ => fraction_char c = false /\ c <> "e"%ch /\ c <> "E"%ch
  end.

Lemma get_number_float_spec m q e tok s d l frac rest :
  holds m q (sign_chars s ++ (d :: l) ++ "."%ch :: frac ++ rest) ->
  e = q + Zlen (sign_chars s) + Zlen (d :: l) + 1 + Zlen frac + Zlen rest ->
  Forall (fun c => is_numeral_char 10 c = true) (d :: l) -> d <> "0"%ch ->
  Forall (fun c => fraction_char c = true) frac -> ends_fraction rest -> t_type tok = tt_none ->
  get_number_token pow m q e tok =
    Ok {| t_type := tt_floating_point_number;
          substr := end_at (substr tok) (q + Zlen (sign_chars s) + Zlen (d :: l) + 1 + Zlen frac);
          t_value := vt_float (dadd (fraction frac) (double_of_Z (u64 (numeral_value 10 (d :: l))))) |}.
Proof.
  intros Hm He Hl Hd Hfrac Hrest Htype. pose proof (Forall_inv Hl) as Hdig. simpl in Hdig.
  destruct (numeral_char_not_sign d Hdig) as [Hs Hdot].
  unfold get_number_token. rewrite (read_sign_spec _ _ _ _ _ Hm) by done. cbn [bind].
  apply holds_app in Hm as [_ Hm]. set (q1 := q + Zlen (sign_chars s)) in *.
  zfalse (d =? 46). zfalse (d =? 48). cbn [negb andb bind].
  rewrite (scan_decimal_spec m q1 e (d :: l) ("."%ch :: frac ++ rest)) by
    (done || (intros ? [= <-]; done) || (rewrite (Zlen_cons _ (frac ++ rest)), Zlen_app; lia)).
  cbn [bind]. unfold get_decimal_token. rewrite Htype. cbn [negb andb orb].
  change (tt_none =? tt_none) with true. cbn [andb].
  apply holds_app in Hm as [_ [Hpt Hm]]. set (q2 := q1 + Zlen (d :: l)) in *.
  pose proof (Zlen_nonneg frac). pose proof (Zlen_nonneg rest).
  ztrue (q2 <? e). rewrite (load_Some _ _ _ Hpt). cbn [bind]. change (46 =? 46) with true. cbn [andb].
  replace e with (q2 + 1 + Zlen (frac ++ rest)) by (rewrite Zlen_app; lia).
  rewrite (scan_post_radix_spec m (q2 + 1) (frac ++ rest) Hm), scan_len_app_all by done.
  assert (scan_len fraction_char rest = 0) as ->.
  { destruct rest as [|c rest]; [done|]. destruct Hrest as [Hc _]. simpl. by rewrite Hc. }
  rewrite Z.add_0_r, take_app_Zlen, Zlen_app. cbn [bind].
  set (q3 := q2 + 1 + Zlen frac) in *.
  apply holds_app in Hm as [_ Hm]. fold q3 in Hm.
  destruct rest as [|c rest].
  - change (Zlen []) with 0. zfalse (q3 + 1 <? q2 + 1 + (Zlen frac + 0)). done.
  - rewrite Zlen_cons. pose proof (Zlen_nonneg rest). destruct Hrest as (_ & He1 & HE1), Hm as [Hcm _].
    destruct (Z.ltb_spec (q3 + 1) (q2 + 1 + (Zlen frac + (1 + Zlen rest)))); [|done].
    rewrite (load_Some _ _ _ Hcm). cbn [bind andb]. zfalse (c =? 101). by zfalse (c =? 69).
Qed.

(** Scanning from a sign or a digit goes to [scan_number_token]. *)
Lemma scan_token_number m lx s d l :
  holds m (p lx) (sign_chars s ++ d :: l) -> p lx + Zlen (sign_chars s) < text_end lx ->
  is_ascii_digit d = true ->
  scan_token garbage pow m lx (hd d (sign_chars s)) = scan_number_token pow m lx.
Proof.
  intros Hm Hend Hd.
  assert ("0"%ch <= d <= "9"%ch) as Hr by (unfold is_ascii_digit in Hd; ztest_in Hd).
  destruct s; cbn [sign_chars app hd] in *; unfold scan_token.
  - repeat match goal with
           | |- (if d =? ?k then _ else _) = _ => zfalse (d =? k)
           | |- (if _ || _ then _ else _) = _ =>
               zfalse (d =? 34); zfalse (d =? 39); zfalse (d =? 96); cbn [orb]
           end.
    destruct Hm as [Hm _]. unfold scan_other. rewrite (load_Some _ _ _ Hm). cbn [bind].
    unfold isalpha, isdigit, ctype. zfalse (d <? -1). cbn [bind]. rewrite Hd.
    assert (is_ascii_alpha d = false) as -> by (unfold is_ascii_alpha; ztest). done.
  - simpl. unfold scan_plus, peek. change (Zlen ["+"%ch]) with 1 in Hend. ztrue (p lx + 1 <? text_end lx).
    destruct Hm as (_ & Hm & _). rewrite (load_Some _ _ _ Hm). cbn [bind].
    zfalse (d =? 43). zfalse (d =? 61). zfalse (d =? 60). unfold isdigit, ctype. zfalse (d <? -1).
    cbn [bind]. by rewrite Hd.
  - simpl. unfold scan_minus, peek. change (Zlen ["-"%ch]) with 1 in Hend. ztrue (p lx + 1 <? text_end lx).
    destruct Hm as (_ & Hm & _). rewrite (load_Some _ _ _ Hm). cbn [bind].
    zfalse (d =? 45). zfalse (d =? 61). zfalse (d =? 91). zfalse (d =? 60).
    unfold isdigit, ctype. zfalse (d <? -1). cbn [bind]. by rewrite Hd.
Qed.
(** When [get_number_token] reads a number up to [q], it is the next token. *)
Lemma number_advance m lx s d l ty q v :
  between_tokens lx -> next_text m lx (sign_chars s ++ d :: l) ->
  view_end (substr (t lx)) + Zlen (sign_chars s) < text_end lx ->
  is_ascii_digit d = true -> view_end (substr (t lx)) <= q ->
  get_number_token pow m (view_end (substr (t lx))) (text_end lx) (t (reset_token lx)) =
    Ok {| t_type := ty; substr := end_at (substr (t (reset_token lx))) q; t_value := v |} ->
  next_token m lx ty (q - view_end (substr (t lx))) v (unwrapped_text lx).
Proof.
  intros Hbet Hnext Hend Hd Hq Hnum. pose proof (reset_between m lx _ Hnext) as Hsub.
  pose proof Hnext as (Hq0 & Hb & Hm & _).
  assert (p (reset_token lx) = view_end (substr (t lx))) as Hp.
  { change (p (reset_token lx)) with (begin (substr (t (reset_token lx)))). by rewrite Hsub. }
  assert (exists l', sign_chars s ++ d :: l = hd d (sign_chars s) :: l') as [l' Hhd] by (destruct s; by eexists).
  assert ("0"%ch <= d <= "9"%ch) as Hr by (unfold is_ascii_digit in Hd; ztest_in Hd).
  pose proof (scan_token_number m (reset_token lx) s d l) as Hscan. rewrite Hp in Hscan.
  specialize (Hscan Hm Hend Hd). unfold scan_number_token in Hscan. rewrite Hp in Hscan.
  change (text_end (reset_token lx)) with (text_end lx) in Hscan. rewrite Hnum in Hscan. cbn [bind] in Hscan.
  rewrite Hsub in Hscan.
  eexists. split; [|split; [|split; [|split]]].
  - rewrite Hhd in Hnext.
    eapply (advance_scan m lx (hd d (sign_chars s)) l'); [exact Hbet|exact Hnext| | | |exact Hscan];
      clear - Hr; destruct s; simpl; unfold is_line_break, is_blank; try done; ztest; lia.
  - simpl. unfold end_at, view_of_length. simpl. zfalse (view_end (substr (t lx)) =? 0).
    simpl. by ztrue (view_end (substr (t lx)) <=? q).
  - done.
  - exact Hbet.
  - done.
Qed.
End behaviour.

(** * Properties *)

(** a quoted literal in double, single or back quotes whose content has no such quote, no
    backslash and no line break is one token of type [tt_quoted_string] that spans
    both quotes and whose text is the content. *)
Theorem string_literal_read garbage pow m lx ch s rest :
  between_tokens lx -> next_text m lx (ch :: s ++ ch :: rest) -> is_quote ch -> Forall (plain_in ch) s ->
  next_token garbage pow m lx tt_quoted_string (Zlen s + 2) vt_string s.
Proof.
  intros Hbet Hnext Hquote Hs. pose proof (reset_between m lx _ Hnext) as Hsub.
  pose proof Hnext as (Hq & Hb & Hm & Hend).
  assert (p (reset_token lx) = view_end (substr (t lx))) as Hp.
  { change (p (reset_token lx)) with (begin (substr (t (reset_token lx)))). by rewrite Hsub. }
  assert (holds m (view_end (substr (t lx))) (ch :: s ++ [ch])) as Hm'.
  { replace (ch :: s ++ ch :: rest) with ((ch :: s ++ [ch]) ++ rest) in Hm by (simpl; by rewrite <- app_assoc).
    by apply holds_app in Hm as [? _]. }
  rewrite Zlen_cons, Zlen_app, Zlen_cons in Hend. pose proof (Zlen_nonneg rest).
  pose proof (scan_quote_spec garbage m (reset_token lx) ch s) as Hscan.
  rewrite Hp, Hsub in Hscan. specialize (Hscan Hm').
  change (text_end (reset_token lx)) with (text_end lx) in Hscan.
  specialize (Hscan ltac:(lia) Hq eq_refl Hs).
  eexists. split; [|split; [|split; [|split]]].
  - eapply advance_scan; try done; [by destruct Hquote as [-> |[-> | ->]]..|].
    destruct Hquote as [-> |[-> | ->]]; exact Hscan.
  - done.
  - done.
  - exact Hbet.
  - done.
Qed.

(** A lexer about to read the text [s] at address 16. *)
Definition lexer_at (s : list Z) : lexer :=
  {| txt := view_of_length 16 (Zlen s);
     t := {| t_type := tt_none; substr := view_of_length 16 0; t_value := vt_empty |};
     unwrapped_text := []; line_begin := 16; p := 16; inconsistent_indent := 0; line_number := 1;
     total_indent_width := 0; indent_dedent_delta := 0; last_stack_insert_idx := NO_INDENT_YET;
     indent_stack := ∅; pending_error := None |}.

Lemma string_literal_read_witness :
  next_token 7 (fun _ x => x) (map_seqZ 16 (str "'a b', c" ++ [0])) (lexer_at (str "'a b', c"))
    tt_quoted_string 5 vt_string (str "a b").
Proof.
  apply (string_literal_read 7 (fun _ x => x) _ (lexer_at (str "'a b', c")) "'"%ch (str "a b") (str ", c")).
  - by split.
  - split; [reflexivity|]. split; [discriminate|]. split; [decided|discriminate].
  - right. by left.
  - repeat constructor; discriminate.
Defined.

(** a decimal whole number with an optional sign is one token of type [tt_decimal_number]
    that spans sign and digits; its value is the digits' value modulo 2^64, unsigned
    without a minus and negated as [int64_t] after one. *)
Theorem decimal_token_read garbage pow m lx s d l rest :
  between_tokens lx -> next_text m lx (sign_chars s ++ (d :: l) ++ rest) ->
  text_end lx = view_end (substr (t lx)) + Zlen (sign_chars s ++ (d :: l) ++ rest) ->
  is_ascii_digit d = true -> d <> "0"%ch -> Forall (fun c => is_numeral_char 10 c = true) (d :: l) ->
  ends_numeral rest ->
  let n := u64 (numeral_value 10 (d :: l)) in
  (s = Minus -> i64 n <> - 2 ^ 63) ->
  next_token garbage pow m lx tt_decimal_number (Zlen (sign_chars s) + Zlen (d :: l))
    (number_value s n) (unwrapped_text lx).
Proof.
  intros Hbet Hnext Hend Hd Hd0 Hl Hrest n Hmin.
  pose proof (Zlen_nonneg (sign_chars s)). pose proof (Zlen_nonneg l). pose proof (Zlen_nonneg rest).
  rewrite !Zlen_app, Zlen_cons in Hend.
  replace (Zlen (sign_chars s) + Zlen (d :: l)) with
    (view_end (substr (t lx)) + Zlen (sign_chars s) + Zlen (d :: l) - view_end (substr (t lx))) by lia.
  apply (number_advance garbage pow m lx s d (l ++ rest)); try done; [lia|rewrite Zlen_cons; lia|].
  apply (get_number_decimal_spec pow m _ (text_end lx) _ s d l rest); try done.
  - by apply Hnext.
  - rewrite Zlen_cons. lia.
Qed.

Lemma decimal_token_read_witness :
  next_token 7 (fun _ x => x) (map_seqZ 16 (str "-120)" ++ [0])) (lexer_at (str "-120)"))
    tt_decimal_number 4 (vt_signed (-120)) [].
Proof.
  apply (decimal_token_read 7 (fun _ x => x) _ (lexer_at (str "-120)")) Minus "1"%ch (str "20") (str ")")).
  - by split.
  - split; [reflexivity|]. split; [discriminate|]. split; [decided|discriminate].
  - reflexivity.
  - reflexivity.
  - discriminate.
  - decided.
  - split; [reflexivity|]. split; [discriminate|]. by intros [].
  - discriminate.
Defined.

(** the sign of a floating-point literal without exponent is lost: whatever the sign, the token's
    value is the sum of its fraction and whole part, so -3.25 has the value of 3.25. *)
Theorem float_token_drops_sign garbage pow m lx s d l frac rest :
  between_tokens lx -> next_text m lx (sign_chars s ++ (d :: l) ++ "."%ch :: frac ++ rest) ->
  text_end lx = view_end (substr (t lx)) + Zlen (sign_chars s ++ (d :: l) ++ "."%ch :: frac ++ rest) ->
  is_ascii_digit d = true -> d <> "0"%ch -> Forall (fun c => is_numeral_char 10 c = true) (d :: l) ->
  Forall (fun c => fraction_char c = true) frac -> ends_fraction rest ->
  next_token garbage pow m lx tt_floating_point_number
    (Zlen (sign_chars s) + Zlen (d :: l) + 1 + Zlen frac)
    (vt_float (dadd (fraction frac) (double_of_Z (u64 (numeral_value 10 (d :: l)))))) (unwrapped_text lx).
Proof.
  intros Hbet Hnext Hend Hd Hd0 Hl Hfrac Hrest.
  pose proof (Zlen_nonneg (sign_chars s)). pose proof (Zlen_nonneg l). pose proof (Zlen_nonneg rest).
  pose proof (Zlen_nonneg frac).
  rewrite !Zlen_app, Zlen_cons, (Zlen_cons _ (frac ++ rest)), Zlen_app in Hend.
  replace (Zlen (sign_chars s) + Zlen (d :: l) + 1 + Zlen frac) with
    (view_end (substr (t lx)) + Zlen (sign_chars s) + Zlen (d :: l) + 1 + Zlen frac -
     view_end (substr (t lx))) by lia.
  apply (number_advance garbage pow m lx s d (l ++ "."%ch :: frac ++ rest)); try done;
    [lia|rewrite Zlen_cons; lia|].
  apply (get_number_float_spec pow m _ (text_end lx) _ s d l frac rest); try done.
  - by apply Hnext.
  - rewrite Zlen_cons. lia.
Qed.

Lemma float_token_drops_sign_witness :
  next_token 7 (fun _ x => x) (map_seqZ 16 (str "-3.25" ++ [0])) (lexer_at (str "-3.25"))
    tt_floating_point_number 5 (vt_float (dadd (fraction (str "25")) (double_of_Z 3))) [].
Proof.
  apply (float_token_drops_sign 7 (fun _ x => x) _ (lexer_at (str "-3.25")) Minus "3"%ch [] (str "25") []).
  - by split.
  - split; [reflexivity|]. split; [discriminate|]. split; [decided|discriminate].
  - reflexivity.
  - reflexivity.
  - discriminate.
  - decided.
  - decided.
  - exact I.
Defined.

(** ** Operators *)

(** The text of an operator: its example in the token table. *)
Definition operator_text (ty : Z) : list Z :=
  match find (fun info => number info =? ty) tt_infos with
  | Some info => str (example info)
  | None => []
  end.

Definition operator_texts : list (list Z) :=
  Eval vm_compute in map (fun info => operator_text (op_number info)) op_infos.

(** [c] continues the operator: a longer operator begins with both, or a digit makes a number. *)
Definition continues (ty c : Z) : bool :=
  (let longer := operator_text ty ++ [c] in existsb (fun s => bool_decide (longer `prefix_of` s)) operator_texts) ||
  (is_ascii_digit c && (strchr_in (str ".+-") (hd 0 (operator_text ty))) &&
   (Zlen (operator_text ty) =? 1)).

(** The first token of the text [s] at address 16. *)
Definition first_token (garbage : Z) (pow : double -> double -> double) (s : list Z) : res token :=
  let! lx := lexer_init garbage pow (map_seqZ 16 (s ++ [0])) (view_of_length 16 (Zlen s)) in
  Ok (deref lx).

Definition reads_operator (r : res token) (ty : Z) : bool :=
  match r with
  | Ok tok => token_eq tok {| t_type := ty; substr := view_of_length 16 (Zlen (operator_text ty));
                              t_value := vt_empty |}
  | _ => false
  end.

Lemma operators_checked garbage pow :
  forallb (fun info =>
    forallb (fun c => continues (op_number info) c ||
                      reads_operator (first_token garbage pow (operator_text (op_number info) ++ [c]))
                        (op_number info)) (seqZ 1 127)) op_infos = true.
Proof. vm_compute. reflexivity. Qed.

(** every operator of the table is read as one token: its text followed by any ASCII
    char that does not continue it (to a longer operator or, after a point or sign, to a number) lexes to
    the operator, spanning exactly its text. *)
Theorem operator_read garbage pow i info c :
  op_infos !! i = Some info -> 0 < c < 128 -> continues (op_number info) c = false ->
  exists tok,
    first_token garbage pow (operator_text (op_number info) ++ [c]) = Ok tok /\
    t_type tok = op_number info /\
    substr tok = view_of_length 16 (Zlen (operator_text (op_number info))).
Proof.
  intros Hi Hc Hcont. pose proof (operators_checked garbage pow) as H.
  rewrite forallb_forall in H. specialize (H info).
  assert (In info op_infos) as Hin by (apply list_elem_of_In; by eapply list_elem_of_lookup_2).
  specialize (H Hin). rewrite forallb_forall in H. specialize (H c).
  rewrite <- list_elem_of_In, elem_of_seqZ in H. specialize (H ltac:(lia)).
  rewrite Hcont in H. cbn [orb] in H. unfold reads_operator in H.
  destruct (first_token garbage pow _) as [tok| | |]; try done. exists tok. split; [done|].
  unfold token_eq, view_eq in H. rewrite !andb_true_iff, !Z.eqb_eq in H. simpl in H.
  destruct H as (Ht & Hb & Hl). split; [done|]. destruct (substr tok). simpl in *. by subst.
Qed.

Lemma operator_read_witness :
  exists tok,
    first_token 7 (fun _ x => x) (str "<=>" ++ [97]) = Ok tok /\
    t_type tok = tt_operator_spaceship /\ substr tok = view_of_length 16 3.
Proof.
  apply (operator_read 7 (fun _ x => x) 33 (Build_operator_info tt_operator_spaceship 8 oa_left_to_right) 97);
    [reflexivity|lia|vm_compute; reflexivity].
Defined.

(** ** Dedents *)

(** when a dedent is wider than the indents on the stack account for, the lexer never
    comes to an end: with the stack empty and a dedent waiting, [advance] returns a dedent token
    and leaves the same dedent waiting. *)
Theorem dedent_never_ends garbage pow m lx :
  pending_error lx = None -> - 2 ^ 31 <= indent_dedent_delta lx < 0 ->
  last_stack_insert_idx lx = EMPTY_INDENT_STACK ->
  exists lx',
    advance garbage pow m lx = Ok (true, lx') /\ t_type (t lx') = tt_dedent /\
    pending_error lx' = None /\ indent_dedent_delta lx' = indent_dedent_delta lx /\
    last_stack_insert_idx lx' = EMPTY_INDENT_STACK.
Proof.
  intros Hperr Hdelta Hidx. unfold advance. cbn [iterate]. unfold advance_step.
  assert (pending_error (reset_token lx) = None) as -> by done.
  assert (indent_dedent_delta (reset_token lx) = indent_dedent_delta lx) as -> by done.
  zfalse (indent_dedent_delta lx =? 0). zfalse (0 <? indent_dedent_delta lx). cbn [negb].
  unfold pop_indent. change (last_stack_insert_idx (reset_token lx)) with (last_stack_insert_idx lx).
  rewrite Hidx. change (EMPTY_INDENT_STACK <? EMPTY_INDENT_STACK) with false. cbn [bind].
  change (indent_dedent_delta (reset_token lx)) with (indent_dedent_delta lx).
  change (i32 0) with 0. rewrite Z.add_0_r, i32_small by lia. zfalse (0 <? indent_dedent_delta lx).
  eexists. split; [reflexivity|]. by split_and!.
Qed.

(** A line indented by 256 blanks: its width, kept in a byte of the stack, is 0 when popped. *)
Definition wide_program : list Z := str "a:" ++ [10] ++ replicate 256 " "%ch ++ str "b," ++ [10] ++ str "c".

(** The lexer after [n] calls of [advance]. *)
Fixpoint advances (garbage : Z) (pow : double -> double -> double) (m : mem) (n : nat) (lx : lexer) : lexer :=
  match n with
  | O => lx
  | S n' =>
      match advance garbage pow m lx with
      | Ok (_, lx') => advances garbage pow m n' lx'
      | _ => lx
      end
  end.

Definition wide_lexer : lexer :=
  let m : mem := map_seqZ 16 (wide_program ++ [0]) in
  match lexer_init 7 (fun _ x => x) m (view_of_length 16 (Zlen wide_program)) with
  | Ok lx => advances 7 (fun _ x => x) m 5 lx
  | _ => lexer_at []
  end.

Lemma dedent_never_ends_witness :
  exists lx',
    advance 7 (fun _ x => x) (map_seqZ 16 (wide_program ++ [0])) wide_lexer = Ok (true, lx') /\
    t_type (t lx') = tt_dedent /\ pending_error lx' = None /\
    indent_dedent_delta lx' = indent_dedent_delta wide_lexer /\
    last_stack_insert_idx lx' = EMPTY_INDENT_STACK.
Proof.
  apply (dedent_never_ends 7 (fun _ x => x) (map_seqZ 16 (wide_program ++ [0])) wide_lexer).
  - vm_compute. reflexivity.
  - assert (indent_dedent_delta wide_lexer = -256) as -> by (vm_compute; reflexivity). lia.
  - vm_compute. reflexivity.
Defined.
