(* ===== verification/LexerLayout.v ===== *)
(** * Indents, dedents and the gaps between tokens

    What the lexer makes of blanks and line breaks: the widths on its stack
    of indents after a gap, and the indents and dedents it owes.  The result
    is stated on [resting] lexers, whose whole state between two tokens is
    given by the text that is left, the open indents and the debt. *)

From stdpp Require Import base tactics list gmap strings.
From Stdlib Require Import ZArith Lia.
From S2P Require Import Prelude CString ScanNumbers Unicode Tokens StrView Lexer LexerSafety LexerBehaviour.
#[local] Open Scope Z_scope.

#[local] Arguments u32 : simpl never.
#[local] Arguments i32 : simpl never.
#[local] Arguments u8 : simpl never.
Lemma span_fuel_lt p p' e : p < p' <= e -> (span_fuel p' e < span_fuel p e)%nat.
Proof. unfold span_fuel. lia. Qed.
Lemma span_fuel_eq p e : span_fuel p e = S (Z.to_nat (e - p)).
Proof. done. Qed.
#[local] Opaque span_fuel.

(** ** Gaps *)

Definition is_gap_char (c : Z) : bool := is_blank c || is_line_break c.
Definition is_gap (g : list Z) : Prop := Forall (fun c => is_gap_char c = true) g.
#[export] Instance is_gap_dec g : Decision (is_gap g).
Proof. unfold is_gap. apply _. Defined.

(** The text begins with a token. *)
Definition solid (l : list Z) : Prop := exists c l', l = c :: l' /\ is_gap_char c = false /\ c <> 0.

Definition has_break (g : list Z) : bool := existsb is_line_break g.

(** The chars after the last line break. *)
Fixpoint last_line (g : list Z) : list Z :=
  match g with
  | [] => []
  | c :: g' => if has_break g then last_line g' else g
  end.

Lemma break_not_blank c : is_line_break c = true -> is_blank c = false.
Proof. unfold is_line_break, is_blank. ztest. Qed.
Lemma blank_not_break c : is_blank c = true -> is_line_break c = false.
Proof. unfold is_line_break, is_blank. ztest. Qed.

Lemma has_break_blanks bl : Forall (fun c => is_blank c = true) bl -> has_break bl = false.
Proof. induction 1 as [|c bl Hc _ IH]; simpl; [done|]. by rewrite blank_not_break. Qed.

Lemma last_line_blanks bl : Forall (fun c => is_blank c = true) bl -> last_line bl = bl.
Proof.
  intros Hbl. destruct bl as [|c bl]; [done|]. cbn [last_line]. by rewrite has_break_blanks.
Qed.

Lemma last_line_break bl c g :
  is_line_break c = true -> last_line (bl ++ c :: g) = last_line g.
Proof.
  intros Hc. induction bl as [|d bl IH]; simpl.
  - unfold has_break. simpl. by rewrite Hc.
  - unfold has_break. simpl. rewrite existsb_app. simpl. rewrite Hc, !orb_true_r. exact IH.
Qed.

Lemma last_line_cons c g : is_line_break c = true -> last_line (c :: g) = last_line g.
Proof. apply (last_line_break []). Qed.

(** A gap is a run of blanks, or one followed by a line break and a gap. *)
Lemma gap_split g : is_gap g -> exists bl g2,
  g = bl ++ g2 /\ Forall (fun c => is_blank c = true) bl /\ Zlen bl = scan_len is_blank g /\ is_gap g2 /\
  (g2 = [] \/ exists c g3, g2 = c :: g3 /\ is_line_break c = true).
Proof.
  intros Hg. destruct (scan_len_split is_blank g) as (bl & g2 & -> & Hlen & Hbl & Hhd).
  exists bl, g2. apply Forall_app in Hg as [_ Hg]. split_and!; [done..|].
  destruct g2 as [|c g3]; [by left|]. right. exists c, g3. split; [done|].
  specialize (Hhd c eq_refl). apply Forall_cons in Hg as [Hc _].
  unfold is_gap_char in Hc. by rewrite Hhd in Hc.
Qed.

(** ** The stack of indents *)

Definition width_sum (ws : list Z) : Z := foldr Z.add 0 ws.

(** The entries of the stack, innermost first; the entry 0 is the char of the first indent. *)
Fixpoint stack_holds (s : gmap Z Z) (ws : list Z) : Prop :=
  match ws with
  | [] => True
  | w :: ws' => s !! (1 + Zlen ws') = Some w /\ stack_holds s ws'
  end.

Definition indented (lx : lexer) (ws : list Z) : Prop :=
  total_indent_width lx = width_sum ws /\ Forall (fun w => 1 <= w) ws /\ width_sum ws <= 63 /\
  stack_holds (indent_stack lx) ws /\
  (last_stack_insert_idx lx = Zlen ws \/ ws = [] /\ last_stack_insert_idx lx = NO_INDENT_YET).

(** A line of width [w]: the open indents, and what the lexer owes: an indent (1), or
    dedents as wide as the difference (negative). *)
Definition indent_to (ws : list Z) (w : Z) : list Z * Z :=
  if width_sum ws <? w then (w - width_sum ws :: ws, 1) else (ws, w - width_sum ws).

Lemma width_sum_bounds ws : Forall (fun w => 1 <= w) ws -> Zlen ws <= width_sum ws.
Proof. induction 1; simpl; [done|]. rewrite Zlen_cons. lia. Qed.

Lemma stack_holds_insert s ws i w :
  i = 0 \/ Zlen ws < i -> stack_holds s ws -> stack_holds (<[i := w]> s) ws.
Proof.
  induction ws as [|w' ws IH]; simpl; [done|]. rewrite Zlen_cons. pose proof (Zlen_nonneg ws).
  intros Hi [Hw Hs]. split; [rewrite lookup_insert_ne by lia; done|]. apply IH; [lia|done].
Qed.

(** The members that a scan of line breaks and indents leaves alone. *)
Definition keeps_token (lx lx' : lexer) : Prop :=
  t lx' = t lx /\ unwrapped_text lx' = unwrapped_text lx /\ pending_error lx' = pending_error lx /\
  txt lx' = txt lx.

Lemma keeps_token_trans lx lx' lx'' : keeps_token lx lx' -> keeps_token lx' lx'' -> keeps_token lx lx''.
Proof. unfold keeps_token. intuition congruence. Qed.

Lemma push_indent_spec lx ws w :
  total_indent_width lx = width_sum ws -> Forall (fun w => 1 <= w) ws ->
  stack_holds (indent_stack lx) ws -> last_stack_insert_idx lx = Zlen ws ->
  1 <= w -> width_sum ws + w <= 63 ->
  exists lx', push_indent lx w = Ok lx' /\ indented lx' (w :: ws) /\ indent_dedent_delta lx' = 1 /\
    keeps_token lx lx' /\ p lx' = p lx.
Proof.
  intros Htotal Hpos Hs Hidx Hw Hsum. unfold push_indent, indent_stack_size.
  pose proof (width_sum_bounds ws Hpos). pose proof (Zlen_nonneg ws).
  rewrite Hidx, Htotal, !u32_small by lia. ztrue (Zlen ws + 1 <? 64).
  eexists. split; [reflexivity|]. split; [|split; [|split]]; [|done..].
  split_and!; simpl; [lia|by constructor|lia| |left; rewrite Zlen_cons; lia].
  split; [|by apply stack_holds_insert; [lia|]].
  unfold u8. rewrite Z.mod_small by lia.
  replace (1 + Zlen ws) with (Zlen ws + 1) by lia. apply lookup_insert_eq.
Qed.

Lemma pop_indent_spec lx w ws :
  indented lx (w :: ws) ->
  exists lx', pop_indent lx = Ok (w, lx') /\ indented lx' ws /\
    indent_dedent_delta lx' = indent_dedent_delta lx /\ keeps_token lx lx'.
Proof.
  intros (Htotal & Hpos & Hsum & [Hw Hs] & [Hidx|[? _]]); [|done]. unfold pop_indent, EMPTY_INDENT_STACK.
  rewrite Zlen_cons in Hidx. pose proof (Zlen_nonneg ws). ztrue (0 <? last_stack_insert_idx lx).
  rewrite Hidx, Hw. eexists. split; [reflexivity|]. simpl in *.
  apply Forall_cons in Hpos as [Hw1 Hpos]. pose proof (width_sum_bounds ws Hpos).
  split; [|done]. split_and!; simpl; try done; [|lia|left; lia].
  rewrite Htotal, u32_small by lia. lia.
Qed.

Section layout.
Context (garbage : Z).

Lemma update_indent_spec m lx bl c rest ws :
  holds m (line_begin lx) (bl ++ c :: rest) -> columns bl <= 63 ->
  indented lx ws -> indent_dedent_delta lx = 0 ->
  exists lx', update_indent garbage m lx (line_begin lx + Zlen bl) = Ok lx' /\
    indented lx' (indent_to ws (columns bl)).1 /\
    indent_dedent_delta lx' = (indent_to ws (columns bl)).2 /\ keeps_token lx lx' /\ p lx' = p lx.
Proof.
  intros Hm Hcols Hind Hdelta. pose proof Hind as (Htotal & Hpos & Hsum & Hs & Hidx).
  pose proof (columns_nonneg bl). pose proof (width_sum_bounds ws Hpos). pose proof (Zlen_nonneg ws).
  assert (exists d, load m (line_begin lx) = Ok d) as (d & Hd).
  { exists (hd c bl). apply load_Some. destruct bl; apply Hm. }
  apply holds_app in Hm as [Hm _]. unfold update_indent.
  pose proof (get_indent_width_wp m (line_begin lx) bl (get_indent_char garbage lx) Hm ltac:(lia)) as Hw.
  apply wp_Ok_iff in Hw as ([w inc] & -> & Hw). simpl in Hw. subst w. cbn [bind].
  unfold indent_to. rewrite <- Htotal.
  destruct (Z.ltb_spec (total_indent_width lx) (columns bl)) as [Hlt|Hge]; cbn [total_indent_width set_inconsistent fst snd].
  - ztrue (total_indent_width lx <? columns bl).
    change (last_stack_insert_idx (set_inconsistent lx inc)) with (last_stack_insert_idx lx).
    destruct Hidx as [Hidx|[-> Hidx]].
    + replace (last_stack_insert_idx lx =? NO_INDENT_YET) with false
        by (symmetry; apply Z.eqb_neq; unfold NO_INDENT_YET; lia). cbn [bind].
      simpl (total_indent_width _). rewrite u32_small by lia.
      apply (push_indent_spec (set_inconsistent lx inc)); simpl; try done; lia.
    + rewrite Hidx, Z.eqb_refl. change (line_begin (set_inconsistent lx inc)) with (line_begin lx).
      rewrite Hd. cbn [bind]. simpl (total_indent_width _). rewrite u32_small by lia.
      apply (push_indent_spec (set_indent (set_inconsistent lx inc) _ _ _ _) []); simpl; try done; lia.
  - zfalse (total_indent_width lx <? columns bl).
    destruct (Z.ltb_spec (columns bl) (total_indent_width lx)).
    + rewrite u32_small, !i32_small by (rewrite ?i32_small; lia). eexists. split; [reflexivity|].
      split; [done|]. split; [|done]. simpl. lia.
    + eexists. split; [reflexivity|]. split; [done|]. split; [|done]. simpl. lia.
Qed.

Lemma consume_line_break_spec m q c l :
  holds m q (c :: l) -> is_line_break c = true ->
  exists g l', c :: l = g ++ l' /\ consume_line_break m q (q + Zlen (c :: l)) = Ok (q + Zlen g) /\
    (g = [c] \/ g = [CR; LF]).
Proof.
  intros [Hc Hm] Hbreak. unfold consume_line_break. rewrite (load_Some _ _ _ Hc), Zlen_cons. cbn [bind].
  pose proof (Zlen_nonneg l).
  destruct l as [|d l].
  - exists [c], []. split; [done|]. split; [|by left]. change (Zlen []) with 0.
    zfalse (q + 1 <? q + (1 + 0)). done.
  - rewrite Zlen_cons in *. pose proof (Zlen_nonneg l). ztrue (q + 1 <? q + (1 + (1 + Zlen l))).
    destruct Hm as [Hd _]. rewrite (load_Some _ _ _ Hd). cbn [bind].
    destruct (Z.eqb_spec c CR) as [->|]; [destruct (Z.eqb_spec d LF) as [->|]|]; cbn [bind].
    + exists [CR; LF], l. split; [done|]. split; [|by right]. change (Zlen [CR; LF]) with 2. f_equal. lia.
    + by exists [CR], (d :: l); split_and!; [..|left].
    + by exists [c], (d :: l); split_and!; [..|left].
Qed.

(** A gap without its first line break. *)
Lemma break_prefix g1 g rest c d :
  (g1 = [c] \/ g1 = [CR; LF]) -> is_line_break c = true -> c :: g ++ rest = g1 ++ d ->
  (forall k, rest <> LF :: k) ->
  exists g', c :: g = g1 ++ g' /\ d = g' ++ rest /\ (is_gap g -> is_gap g') /\ last_line (c :: g) = last_line g'.
Proof.
  intros Hg1 Hc E Hrest. destruct Hg1 as [->| ->]; simpl in E.
  - injection E as E. exists g. split; [done|]. split; [done|]. split; [done|]. by apply last_line_cons.
  - injection E as -> E. destruct g as [|x g]; simpl in E; [by destruct (Hrest d)|]. injection E as -> <-.
    exists g. split; [done|]. split; [done|]. split; [by intros [_ ?]%Forall_cons|].
    by rewrite !last_line_cons.
Qed.

Lemma solid_not_lf rest : solid rest -> forall k, rest <> LF :: k.
Proof. intros (c & l' & -> & Hc & _) k [= -> ->]. done. Qed.

(** What a turn that leaves a line behind keeps. *)
Definition keeps_indents (lx lx' : lexer) : Prop :=
  keeps_token lx lx' /\ indent_dedent_delta lx' = indent_dedent_delta lx /\
  forall ws, indented lx ws -> indented lx' ws.

Lemma scan_line_break m lx bl br g3 rest :
  Forall (fun c => is_blank c = true) bl -> is_line_break br = true -> is_gap g3 ->
  (forall k, rest <> LF :: k) ->
  holds m (p lx) (bl ++ br :: g3 ++ rest) -> text_end lx = p lx + Zlen bl + 1 + Zlen g3 + Zlen rest ->
  exists lx' g', scan_line garbage m lx = Ok (inl lx') /\ keeps_indents lx lx' /\ is_gap g' /\
    last_line (bl ++ br :: g3) = last_line g' /\ (Datatypes.length g' <= Datatypes.length g3)%nat /\
    holds m (p lx') (g' ++ rest) /\ p lx' + Zlen g' = p lx + Zlen bl + 1 + Zlen g3.
Proof.
  intros Hbl Hbr Hg3 Hrest Hm He. pose proof (Zlen_nonneg bl). pose proof (Zlen_nonneg g3).
  pose proof (Zlen_nonneg rest). unfold scan_line. ztrue (p lx <? text_end lx). cbn [p set_line].
  assert (text_end lx = p lx + Zlen (bl ++ br :: g3 ++ rest)) as He1
    by (rewrite Zlen_app, Zlen_cons, Zlen_app; lia).
  assert (text_end lx = p lx + Zlen bl + Zlen (br :: g3 ++ rest)) as He2
    by (rewrite Zlen_cons, Zlen_app; lia).
  rewrite He1, (scan_spaces_and_tabs_spec _ _ _ Hm). cbn [bind].
  rewrite <- He1, scan_len_app_all by done. cbn [scan_len]. rewrite (break_not_blank br Hbr), Z.add_0_r.
  zfalse (p lx + Zlen bl =? text_end lx).
  apply holds_app in Hm as [_ Hm]. pose proof Hm as [Hload _]. cbn [p set_p].
  rewrite (load_Some _ _ _ Hload). cbn [bind]. rewrite Hbr.
  destruct (consume_line_break_spec m _ br (g3 ++ rest) Hm Hbr) as (g1 & d & Ed & Hcons & Hg1).
  rewrite He2, Hcons. cbn [bind].
  destruct (break_prefix g1 g3 rest br d Hg1 Hbr Ed Hrest) as (g' & Eg & -> & Hgap & Hlast).
  exists (set_p (set_p (set_line lx (u32 (line_number lx + 1)) (p lx)) (p lx + Zlen bl))
            (p lx + Zlen bl + Zlen g1)), g'.
  split; [done|]. split; [by split_and!|]. split; [by apply Hgap|].
  split; [by rewrite last_line_break, <- Hlast, last_line_cons|].
  rewrite Ed in Hm. apply holds_app in Hm as [_ Hm].
  assert (Zlen g1 + Zlen g' = 1 + Zlen g3) as Esum by (rewrite <- Zlen_app, <- Eg, Zlen_cons; lia).
  split; [|split; [done|simpl; lia]].
  destruct Hg1 as [-> | ->]; [change (Zlen [br]) with 1 in Esum|change (Zlen [CR; LF]) with 2 in Esum];
    unfold Zlen in Esum; lia.
Qed.

(** The scan of line beginnings before a token. *)
Lemma scan_beginning_of_line_spec m ws : forall n g lx rest,
  (Datatypes.length g < n)%nat -> is_gap g -> solid rest -> holds m (p lx) (g ++ rest) ->
  text_end lx = p lx + Zlen g + Zlen rest -> columns (last_line g) <= 63 ->
  indented lx ws -> indent_dedent_delta lx = 0 ->
  exists lx', iterate n (scan_line garbage m) lx = Ok (p lx + Zlen g, lx') /\
    p lx' = p lx + Zlen g /\ keeps_token lx lx' /\
    indented lx' (indent_to ws (columns (last_line g))).1 /\
    indent_dedent_delta lx' = (indent_to ws (columns (last_line g))).2.
Proof.
  induction n as [|n IH]; intros g lx rest Hn Hg Hsolid Hm He Hcols Hind Hdelta; [lia|].
  destruct (gap_split g Hg) as (bl & g2 & -> & Hbl & _ & Hg2 & Hcase). cbn [iterate].
  destruct Hcase as [->|(br & g3 & -> & Hbr)].
  - rewrite app_nil_r in *. destruct Hsolid as (c & l' & -> & Hc & _).
    unfold is_gap_char in Hc. apply orb_false_iff in Hc as [Hc1 Hc2].
    rewrite Zlen_cons in He. pose proof (Zlen_nonneg l'). pose proof (Zlen_nonneg bl).
    unfold scan_line at 1. ztrue (p lx <? text_end lx). cbn [p set_line].
    replace (text_end lx) with (p lx + Zlen (bl ++ c :: l')) by (rewrite Zlen_app, Zlen_cons; lia).
    rewrite (scan_spaces_and_tabs_spec _ _ _ Hm), scan_len_app_all by done. cbn [bind scan_len].
    rewrite Hc1, Zlen_app, Zlen_cons, Z.add_0_r. zfalse (p lx + Zlen bl =? p lx + (Zlen bl + (1 + Zlen l'))).
    pose proof Hm as [_ [Hload _]]%holds_app. cbn [p set_p]. rewrite (load_Some _ _ _ Hload).
    cbn [bind]. rewrite Hc2. rewrite last_line_blanks in * by done.
    destruct (update_indent_spec m
      (set_p (set_line lx (u32 (line_number lx + 1)) (p lx)) (p lx + Zlen bl)) bl c l' ws)
      as (lx' & Hup & Hind' & Hdelta' & Hkeep & Hp); try done.
    cbn [line_begin set_line set_p] in Hup. rewrite Hup. cbn [bind]. exists lx'. by rewrite Hp.
  - rewrite length_app, Zlen_app, Zlen_cons in *. rewrite <- app_assoc in Hm. simpl in Hn.
    apply Forall_cons in Hg2 as [_ Hg3].
    destruct (scan_line_break m lx bl br g3 rest) as
      (lx1 & g' & -> & (Hkeep & Hdelta1 & Hind1) & Hg' & Hlast & Hlen & Hm1 & Hp1);
      [done|done|done|by apply solid_not_lf|done|lia|]. cbn [bind].
    rewrite Hlast in *.
    destruct (IH g' lx1 rest) as (lx' & Hit & Hp & Hkeep' & Hind' & Hd'); try done; [lia| |by apply Hind1|by rewrite Hdelta1|].
    + assert (text_end lx1 = text_end lx) as -> by (unfold text_end; by destruct Hkeep as (_ & _ & _ & ->)). lia.
    + exists lx'. rewrite Hit, Hp. split; [f_equal; f_equal; lia|]. split; [lia|].
      split; [by eapply keeps_token_trans|done].
Qed.

(** The scan at the end of the text leaves [p] before the blanks at the end. *)
Lemma scan_beginning_of_line_end m : forall n g lx,
  (Datatypes.length g < n)%nat -> is_gap g -> holds m (p lx) (g ++ [0]) -> text_end lx = p lx + Zlen g ->
  exists lx', iterate n (scan_line garbage m) lx = Ok (text_end lx, lx') /\
    p lx' = text_end lx - Zlen (last_line g) /\ keeps_indents lx lx'.
Proof.
  induction n as [|n IH]; intros g lx Hn Hg Hm He; [lia|].
  destruct (gap_split g Hg) as (bl & g2 & -> & Hbl & _ & Hg2 & Hcase). cbn [iterate].
  destruct Hcase as [->|(br & g3 & -> & Hbr)].
  - rewrite app_nil_r in *. rewrite last_line_blanks by done. unfold scan_line.
    destruct (Z.ltb_spec (p lx) (text_end lx)) as [Hlt|Hge].
    + cbn [p set_line]. rewrite He. apply holds_app in Hm as [Hm _].
      rewrite (scan_spaces_and_tabs_spec _ _ _ Hm). cbn [bind].
      assert (scan_len is_blank bl = Zlen bl) as ->.
      { rewrite <- (app_nil_r bl), scan_len_app_all by done. simpl. rewrite app_nil_r. lia. }
      rewrite Z.eqb_refl.
      eexists. split; [reflexivity|]. split; [simpl; lia|]. by split_and!.
    + cbn [bind]. pose proof (Zlen_nonneg bl). assert (Zlen bl = 0) as E by lia.
      exists lx. rewrite E, Z.sub_0_r, He, E, Z.add_0_r. by split_and!.
  - rewrite length_app, Zlen_app, Zlen_cons in *. rewrite <- app_assoc in Hm. cbn [app] in Hm. simpl in Hn.
    apply Forall_cons in Hg2 as [_ Hg3].
    assert (holds m (p lx) (bl ++ br :: g3 ++ [])) as Hm0.
    { rewrite app_nil_r. replace (bl ++ br :: g3 ++ [0]) with ((bl ++ br :: g3) ++ [0]) in Hm
        by (by rewrite <- app_assoc). by apply holds_app in Hm as [? _]. }
    destruct (scan_line_break m lx bl br g3 []) as
      (lx1 & g' & -> & (Hkeep & Hdelta1 & Hind1) & Hg' & Hlast & Hlen & Hm1 & Hp1);
      [done|done|done|done|done|rewrite Zlen_nil; lia|]. cbn [bind].
    assert (text_end lx1 = text_end lx) as Ee by (unfold text_end; by destruct Hkeep as (_ & _ & _ & ->)).
    rewrite app_nil_r in Hm1. rewrite Hlast.
    destruct (IH g' lx1) as (lx' & Hit & Hp & Hkeep' & Hd' & Hi'); [lia|done| |lia|].
    + apply holds_app. split; [done|]. simpl. split; [|done].
      rewrite Hp1. replace (bl ++ br :: g3 ++ [0]) with ((bl ++ br :: g3) ++ [0]) in Hm by (by rewrite <- app_assoc).
      apply holds_app in Hm as [_ [Hm _]]. rewrite Zlen_app, Zlen_cons in Hm.
      by replace (p lx + Zlen bl + 1 + Zlen g3) with (p lx + (Zlen bl + (1 + Zlen g3))) by lia.
    + exists lx'. rewrite Hit, Hp, Ee. split; [done|]. split; [done|]. split; [by eapply keeps_token_trans|].
      split; [congruence|auto].
Qed.
End layout.

(** ** Lexers between two tokens *)

(** The text [l] is left from [q] on, the widths [ws] are open, [delta] is owed, and
    [text] is the text of the last token that has one. *)
Record resting (m : mem) (lx : lexer) (q : Z) (ws : list Z) (delta : Z) (text l : list Z) : Prop := {
  rest_error : pending_error lx = None;
  rest_at : view_end (substr (t lx)) = q;
  rest_pos : 0 < q;
  rest_begin : begin (substr (t lx)) <= q;
  rest_end : text_end lx = q + Zlen l;
  rest_text : holds m q (l ++ [0]);
  rest_indents : indented lx ws;
  rest_delta : indent_dedent_delta lx = delta;
  rest_unwrapped : unwrapped_text lx = text;
  rest_begun : iterator_begin lx = true;
}.

Section gaps.
Context (garbage : Z) (pow : double -> double -> double) (m : mem).

Lemma resting_between lx q ws text l : resting m lx q ws 0 text l -> between_tokens lx.
Proof. intros []. by split. Qed.

Lemma resting_next lx q ws delta text l : resting m lx q ws delta text l -> next_text m lx l.
Proof.
  intros [? Hq ? ? He Hm]. unfold next_text. rewrite Hq. split; [done|]. split; [done|].
  apply holds_app in Hm as [? _]. split; [done|]. lia.
Qed.

Lemma resting_reset lx q ws delta text l :
  resting m lx q ws delta text l ->
  t (reset_token lx) = {| t_type := tt_none; substr := view_of_length q 0; t_value := vt_empty |} /\
  p (reset_token lx) = q.
Proof.
  intros Hrest. pose proof (reset_between m lx l (resting_next _ _ _ _ _ _ Hrest)) as Hsub.
  rewrite (rest_at _ _ _ _ _ _ _ Hrest) in Hsub. unfold reset_token in *. simpl in *. by rewrite Hsub.
Qed.

(** A lexer after a scan, whose token ends where it now rests. *)
Lemma resting_after lx lx' q ws delta text l ws' delta' text' tok q' k :
  resting m lx q ws delta text (k ++ l) ->
  pending_error lx' = None -> txt lx' = txt lx -> indented lx' ws' -> indent_dedent_delta lx' = delta' ->
  unwrapped_text lx' = text' -> t lx' = tok -> begin (substr tok) = q -> view_end (substr tok) = q' ->
  q' = q + Zlen k -> resting m lx' q' ws' delta' text' l.
Proof.
  intros [Hperr Hq Hpos Hb He Hm Hind Hd Hu Hbegun] Hperr' Htxt Hind' Hd' Hu' Ht Hbegin Hend Eq.
  rewrite <- app_assoc in Hm. apply holds_app in Hm as [_ Hm]. pose proof (Zlen_nonneg k).
  rewrite Zlen_app in He. split; rewrite ?Ht; try done; try lia.
  - unfold text_end in *. rewrite Htxt. lia.
  - by rewrite Eq.
  - unfold iterator_begin in *. by rewrite Htxt.
Qed.

Notation step := (advance_step garbage pow m).

(** What a call of [advance] skips it skips by calling itself again. *)
Lemma advance_skip lx lx' r :
  step lx = Ok (inl lx') -> view_end (substr (t lx)) < view_end (substr (t lx')) <= text_end lx ->
  text_end lx' = text_end lx ->
  advance garbage pow m lx' = Ok r -> advance garbage pow m lx = Ok r.
Proof.
  intros Hstep Hq He Hr. unfold advance in *. cbn [iterate]. rewrite Hstep. cbn [bind].
  rewrite <- Hr. apply iterate_fuel_mono; [by rewrite Hr|]. rewrite He. pose proof (span_fuel_lt (view_end (substr (t lx))) (view_end (substr (t lx'))) (text_end lx)). lia.
Qed.

(** Up to the switch on the char. *)
Lemma step_at_char lx q ws text c l :
  resting m lx q ws 0 text (c :: l) -> c <> 0 ->
  step lx =
    let lx := reset_token lx in
    let e := text_end lx in
    if is_line_break c then
      let! crlf := if c =? CR then next_is m lx 1 LF else Ok false in
      let lx := set_p lx (p lx + (if crlf : bool then 1 else 0) + 1) in
      if p lx <? e then
        let! (q, lx) := scan_beginning_of_line garbage m lx in Ok (inl (end_token_at lx q))
      else
        Ok (inl (set_delta (end_token_at lx e) (i32 (-1 * i32 (total_indent_width lx)))))
    else if (c =? TAB) || (c =? " "%ch) then
      let! q := scan_spaces_and_tabs m (p lx + 1) e in Ok (inl (end_token_at lx q))
    else
      let! lx := scan_token garbage pow m lx c in Ok (inr (true, lx)).
Proof.
  intros Hrest Hc. destruct (resting_reset _ _ _ _ _ _ Hrest) as [Ht Hp].
  destruct Hrest as [Hperr Hq Hpos Hb He [Hload _] Hind Hd Hu]. unfold advance_step.
  assert (pending_error (reset_token lx) = None) as -> by done.
  assert (indent_dedent_delta (reset_token lx) = 0) as -> by done.
  change (negb (0 =? 0)) with false. cbv iota zeta. rewrite Ht, Hp.
  change (begin (substr {| t_type := tt_none; substr := view_of_length q 0; t_value := vt_empty |})) with q.
  change (text_end (reset_token lx)) with (text_end lx). rewrite Zlen_cons in He. pose proof (Zlen_nonneg l).
  zfalse (text_end lx <? q). rewrite (load_Some _ _ _ Hload). cbn [bind]. by zfalse (c =? 0).
Qed.

(** At the end of the text. *)
Lemma advance_at_end lx q ws text :
  resting m lx q ws 0 text [] -> exists lx', advance garbage pow m lx = Ok (false, lx').
Proof.
  intros Hrest. destruct (resting_reset _ _ _ _ _ _ Hrest) as [Ht Hp].
  destruct Hrest as [Hperr Hq Hpos Hb He [Hload _] Hind Hd Hu]. unfold advance. cbn [iterate].
  unfold advance_step.
  assert (pending_error (reset_token lx) = None) as -> by done.
  assert (indent_dedent_delta (reset_token lx) = 0) as -> by done.
  change (negb (0 =? 0)) with false. cbv iota zeta. rewrite Ht, Hp.
  change (begin (substr {| t_type := tt_none; substr := view_of_length q 0; t_value := vt_empty |})) with q.
  change (text_end (reset_token lx)) with (text_end lx). rewrite Zlen_nil in He. zfalse (text_end lx <? q).
  rewrite (load_Some _ _ _ Hload). by eexists.
Qed.

(** ** Indents and dedents *)

Definition gap_token (ty q : Z) : token :=
  {| t_type := ty; substr := view_of_length q 0; t_value := vt_empty |}.

Lemma set_type_delta lx d ty :
  t (set_type (set_delta lx d) ty) =
    {| t_type := ty; substr := substr (t lx); t_value := t_value (t lx) |}.
Proof. done. Qed.

Lemma advance_indent lx q ws text l :
  resting m lx q ws 1 text l ->
  exists lx', advance garbage pow m lx = Ok (true, lx') /\ t lx' = gap_token tt_indent q /\
    resting m lx' q ws 0 text l.
Proof.
  intros Hrest. destruct (resting_reset _ _ _ _ _ _ Hrest) as [Ht Hp]. pose proof Hrest as [Hperr Hq Hpos Hb He Hm Hind Hd Hu].
  unfold advance. cbn [iterate]. unfold advance_step.
  assert (pending_error (reset_token lx) = None) as -> by done.
  assert (indent_dedent_delta (reset_token lx) = 1) as -> by done.
  cbn [bind]. eexists. split; [reflexivity|].
  assert (t (set_type (set_delta (reset_token lx) 0) tt_indent) = gap_token tt_indent q) as Ht'
    by (by rewrite set_type_delta, Ht).
  split; [exact Ht'|].
  apply (resting_after lx _ q ws 1 text l ws 0 text (gap_token tt_indent q) q []); try done.
  - simpl. unfold view_end. simpl. lia.
  - rewrite Zlen_nil. lia.
Qed.

Lemma advance_dedent lx q w ws delta text l :
  resting m lx q (w :: ws) delta text l -> - 63 <= delta < 0 ->
  exists lx', advance garbage pow m lx = Ok (true, lx') /\ t lx' = gap_token tt_dedent q /\
    resting m lx' q ws (Z.min 0 (delta + w)) text l.
Proof.
  intros Hrest Hneg. destruct (resting_reset _ _ _ _ _ _ Hrest) as [Ht Hp].
  pose proof Hrest as [Hperr Hq Hpos Hb He Hm Hind Hd Hu].
  unfold advance. cbn [iterate]. unfold advance_step.
  assert (pending_error (reset_token lx) = None) as -> by done.
  assert (indent_dedent_delta (reset_token lx) = delta) as -> by done.
  zfalse (delta =? 0). zfalse (0 <? delta). cbn [negb].
  destruct (pop_indent_spec (reset_token lx) w ws Hind) as (lx1 & -> & Hind1 & Hd1 & Ht1 & Hu1 & Hp1 & Htxt1).
  cbn [bind]. rewrite Hd1. change (indent_dedent_delta (reset_token lx)) with (indent_dedent_delta lx). rewrite Hd.
  assert (1 <= w <= 63) as Hw.
  { destruct Hind as (_ & Hpos' & Hsum & _). apply Forall_cons in Hpos' as [? Hpos'].
    pose proof (width_sum_bounds ws Hpos'). pose proof (Zlen_nonneg ws). simpl in Hsum. lia. }
  rewrite (i32_small w), i32_small by lia.
  replace (if 0 <? delta + w then 0 else delta + w) with (Z.min 0 (delta + w)) by ztest.
  eexists. split; [reflexivity|].
  assert (t (set_type (set_delta lx1 (Z.min 0 (delta + w))) tt_dedent) = gap_token tt_dedent q) as Ht'
    by (by rewrite set_type_delta, Ht1, Ht).
  split; [exact Ht'|].
  apply (resting_after lx _ q (w :: ws) delta text l ws _ text (gap_token tt_dedent q) q []); try done.
  - simpl. by rewrite Hp1.
  - simpl. by rewrite Hu1.
  - simpl. unfold view_end. simpl. lia.
  - rewrite Zlen_nil. lia.
Qed.

(** ** Gaps *)

(** What a gap before a token does to the open indents. *)
Definition gap_indent (ws : list Z) (g : list Z) : list Z * Z :=
  if has_break g then indent_to ws (columns (last_line g)) else (ws, 0).

(** What is owed after the gap at the end of the text: all open indents, but only
    when it ends in its only line break. *)
Definition one_break (g : list Z) : bool :=
  match drop (Z.to_nat (scan_len is_blank g)) g with
  | [c] => is_line_break c
  | [c; d] => (c =? CR) && (d =? LF)
  | _ => false
  end.
Definition end_debt (ws : list Z) (g : list Z) : Z := if one_break g then - width_sum ws else 0.

(** [lx'] is [lx] after the gap [g]. *)
Definition skipped (lx lx' : lexer) : Prop :=
  forall r, advance garbage pow m lx' = Ok r -> advance garbage pow m lx = Ok r.

Lemma end_token_reset lx lx1 q r :
  keeps_token (reset_token lx) lx1 -> 0 < q <= r ->
  t (reset_token lx) = {| t_type := tt_none; substr := view_of_length q 0; t_value := vt_empty |} ->
  t (end_token_at lx1 r) = {| t_type := tt_none; substr := view_of_length q (r - q); t_value := vt_empty |}.
Proof.
  intros (Ht & _) Hq Htq. unfold end_token_at, set_substr, set_t. cbn [t]. rewrite Ht, Htq.
  cbn [t_type t_value substr]. unfold end_at, view_of_length. cbn [begin]. zfalse (q =? 0). by ztrue (q <=? r).
Qed.

Lemma resting_skip lx lx1 lx' q ws delta text k l ws' delta' :
  resting m lx q ws delta text (k ++ l) -> keeps_token (reset_token lx) lx1 ->
  keeps_token (end_token_at lx1 (q + Zlen k)) lx' ->
  indented lx' ws' -> indent_dedent_delta lx' = delta' ->
  resting m lx' (q + Zlen k) ws' delta' text l.
Proof.
  intros Hrest Hkeep (Ht' & Hu' & Hp' & Htxt') Hind' Hd'.
  destruct (resting_reset _ _ _ _ _ _ Hrest) as [Ht _]. pose proof (rest_pos _ _ _ _ _ _ _ Hrest) as Hpos.
  pose proof (Zlen_nonneg k).
  pose proof (end_token_reset lx lx1 q (q + Zlen k) Hkeep ltac:(lia) Ht) as Htok. rewrite Htok in Ht'.
  destruct Hkeep as (_ & Hu & Hp & Htxt). pose proof Hrest as [Hperr _ _ _ _ _ _ _ Hunw].
  eapply (resting_after lx lx' q ws delta text l ws' delta' text _ (q + Zlen k) k Hrest);
    [rewrite Hp'; simpl; by rewrite Hp|rewrite Htxt'; simpl; by rewrite Htxt|done|done
    |rewrite Hu'; simpl; by rewrite Hu|exact Ht'|done|unfold view_end; simpl; lia|done].
Qed.

Lemma resting_skipped lx lx' q ws text k l ws' delta' :
  resting m lx q ws 0 text (k ++ l) -> k <> [] -> resting m lx' (q + Zlen k) ws' delta' text l ->
  step lx = Ok (inl lx') -> skipped lx lx'.
Proof.
  intros Hrest Hk Hrest' Hstep r. apply advance_skip; [done|..].
  - rewrite (rest_at _ _ _ _ _ _ _ Hrest), (rest_at _ _ _ _ _ _ _ Hrest'), (rest_end _ _ _ _ _ _ _ Hrest).
    rewrite Zlen_app. pose proof (Zlen_nonneg l). destruct k as [|c k]; [done|]. rewrite Zlen_cons. pose proof (Zlen_nonneg k). lia.
  - rewrite (rest_end _ _ _ _ _ _ _ Hrest), (rest_end _ _ _ _ _ _ _ Hrest'), Zlen_app. lia.
Qed.

(** A run of blanks. *)
Lemma skip_blanks lx q ws text bl l :
  resting m lx q ws 0 text (bl ++ l) -> bl <> [] -> Forall (fun c => is_blank c = true) bl ->
  scan_len is_blank l = 0 ->
  exists lx', skipped lx lx' /\ resting m lx' (q + Zlen bl) ws 0 text l.
Proof.
  intros Hrest Hne Hbl Hl. destruct (resting_reset _ _ _ _ _ _ Hrest) as [_ Hp].
  destruct bl as [|c bl]; [done|]. pose proof (Forall_inv Hbl) as Hc. simpl in Hc.
  assert (resting m (end_token_at (reset_token lx) (q + Zlen (c :: bl))) (q + Zlen (c :: bl)) ws 0 text l) as Hrest'.
  { apply (resting_skip lx (reset_token lx) _ q ws 0 text (c :: bl) l ws 0 Hrest); try done; apply Hrest. }
  eexists. split; [|exact Hrest'].
  eapply (resting_skipped lx _ q ws text (c :: bl) l ws 0); try done.
  cbn [app] in Hrest. rewrite (step_at_char lx q ws text c (bl ++ l) Hrest) by (intros ->; done).
  cbv zeta. rewrite (blank_not_break c Hc).
  assert ((c =? TAB) || (c =? " "%ch) = true) as -> by (unfold is_blank in Hc; by rewrite orb_comm).
  destruct Hrest as [_ _ _ _ He Hm _ _ _]. apply holds_app in Hm as [[_ Hm] _].
  rewrite Hp. change (text_end (reset_token lx)) with (text_end lx). rewrite He, Zlen_cons, Z.add_assoc.
  rewrite (scan_spaces_and_tabs_spec m (q + 1) (bl ++ l)) by done.
  rewrite scan_len_app_all, Hl by (by apply Forall_cons in Hbl as [_ ?]). cbn [bind].
  do 3 f_equal. rewrite Zlen_cons. lia.
Qed.

(** The line break at the front of a text, as [advance] tells it. *)
Lemma crlf_spec lx c d :
  holds m (p lx) (c :: d) -> text_end lx = p lx + Zlen (c :: d) -> is_line_break c = true ->
  exists b g1 d', (if c =? CR then next_is m lx 1 LF else Ok false) = Ok b /\ c :: d = g1 ++ d' /\
    (g1 = [c] /\ ~ (c = CR /\ head d = Some LF) \/ g1 = [CR; LF]) /\ (if b : bool then 1 else 0) + 1 = Zlen g1.
Proof.
  intros [_ Hm] He Hc. destruct (Z.eqb_spec c CR) as [->|Hne]; [|exists false, [c], d; naive_solver].
  unfold next_is. rewrite Zlen_cons in He. destruct d as [|x d].
  - rewrite He, Zlen_nil. zfalse (p lx + 1 <? p lx + (1 + 0)). exists false, [CR], []. naive_solver.
  - rewrite Zlen_cons in He. pose proof (Zlen_nonneg d). ztrue (p lx + 1 <? text_end lx).
    destruct Hm as [Hx _]. rewrite (load_Some _ _ _ Hx). cbn [bind].
    destruct (Z.eqb_spec x LF) as [->|Hx'].
    + exists true, [CR; LF], d. naive_solver.
    + exists false, [CR], (x :: d). naive_solver.
Qed.

(** A gap that begins with a line break, before a token. *)
Lemma skip_break lx q ws text c g l :
  resting m lx q ws 0 text (c :: g ++ l) -> is_line_break c = true -> is_gap g -> solid l ->
  columns (last_line g) <= 63 ->
  exists lx', skipped lx lx' /\
    resting m lx' (q + 1 + Zlen g) (indent_to ws (columns (last_line g))).1
      (indent_to ws (columns (last_line g))).2 text l.
Proof.
  intros Hrest Hc Hg Hsolid Hcols. destruct (resting_reset _ _ _ _ _ _ Hrest) as [_ Hp].
  pose proof Hrest as [_ _ _ _ He Hm Hind Hdelta _].
  pose proof (Zlen_nonneg g). assert (0 < Zlen l) as Hl.
  { destruct Hsolid as (x & l' & -> & _). rewrite Zlen_cons. pose proof (Zlen_nonneg l'). lia. }
  destruct (crlf_spec (reset_token lx) c (g ++ l)) as (b & g1 & d' & Hb & Ed & Hg1 & Eb); [|by rewrite Hp|done|].
  { rewrite Hp. by apply holds_app in Hm as [? _]. }
  destruct (break_prefix g1 g l c d') as (g' & Eg & -> & Hgap & Hlast);
    [naive_solver|done|done|by apply solid_not_lf|].
  rewrite (last_line_cons c g Hc) in Hlast. rewrite Hlast in *.
  assert (1 + Zlen g = Zlen g1 + Zlen g') as Elen by (rewrite <- Zlen_app, <- Eg, Zlen_cons; lia).
  pose proof (Zlen_nonneg g'). rewrite Zlen_cons, Zlen_app in He.
  set (lx1 := set_p (reset_token lx) (q + Zlen g1)).
  destruct (scan_beginning_of_line_spec garbage m ws (span_fuel (p lx1) (text_end lx1)) g' lx1 l)
    as (lx2 & Hscan & Hp2 & Hkeep & Hind2 & Hd2); try done.
  - change (text_end lx1) with (text_end lx). change (p lx1) with (q + Zlen g1).
    rewrite He, span_fuel_eq. unfold Zlen in *. lia.
  - by apply Hgap.
  - simpl. change (c :: g ++ l) with ((c :: g) ++ l) in Hm. rewrite Eg, <- !app_assoc in Hm.
    apply holds_app in Hm as [_ Hm]. rewrite app_assoc in Hm. by apply holds_app in Hm as [? _].
  - change (text_end lx1) with (text_end lx). simpl. lia.
  - assert (q + Zlen (c :: g) = q + 1 + Zlen g) as Eq by (rewrite Zlen_cons; lia).
    assert (resting m (end_token_at lx2 (q + 1 + Zlen g)) (q + 1 + Zlen g)
              (indent_to ws (columns (last_line g'))).1 (indent_to ws (columns (last_line g'))).2 text l) as Hrest'.
    { rewrite <- Eq. eapply (resting_skip lx lx2 _ q ws 0 text (c :: g) l); try done. }
    eexists. split; [|exact Hrest']. rewrite <- Eq in Hrest' |- *.
    eapply (resting_skipped lx _ q ws text (c :: g) l); [exact Hrest|done|exact Hrest'|].
    rewrite (step_at_char lx q ws text c (g ++ l) Hrest) by (intros ->; done).
    cbv zeta. rewrite Hc, Hb. cbn [bind]. rewrite Hp, <- Z.add_assoc, Eb.
    change (p (set_p (reset_token lx) (q + Zlen g1))) with (q + Zlen g1).
    change (text_end (reset_token lx)) with (text_end lx). ztrue (q + Zlen g1 <? text_end lx).
    unfold scan_beginning_of_line. fold lx1. rewrite Hscan. cbn [bind]. do 3 f_equal. simpl. lia.
Qed.

(** The same at the end of the text. *)
Lemma one_break_cons c g :
  is_line_break c = true -> one_break (c :: g) = true <-> (g = [] \/ c = CR /\ g = [LF]).
Proof.
  intros Hc. unfold one_break. cbn [scan_len]. rewrite (break_not_blank c Hc). simpl.
  destruct g as [|d [|x g]]; simpl; [naive_solver| |naive_solver].
  rewrite andb_true_iff, !Z.eqb_eq. naive_solver.
Qed.

Lemma skip_break_end lx q ws text c g :
  resting m lx q ws 0 text (c :: g) -> is_line_break c = true -> is_gap g ->
  exists lx', skipped lx lx' /\ resting m lx' (q + 1 + Zlen g) ws (end_debt ws (c :: g)) text [].
Proof.
  intros Hrest Hc Hg. destruct (resting_reset _ _ _ _ _ _ Hrest) as [_ Hp].
  pose proof Hrest as [_ _ _ _ He Hm Hind Hdelta _]. pose proof (Zlen_nonneg g).
  destruct (crlf_spec (reset_token lx) c g) as (b & g1 & d' & Hb & Ed & Hg1 & Eb); [|by rewrite Hp|done|].
  { rewrite Hp. by apply holds_app in Hm as [? _]. }
  assert (1 + Zlen g = Zlen g1 + Zlen d') as Elen by (rewrite <- Zlen_app, <- Ed, Zlen_cons; lia).
  pose proof (Zlen_nonneg d'). rewrite Zlen_cons in He.
  assert (q + Zlen (c :: g) = q + 1 + Zlen g) as Eq by (rewrite Zlen_cons; lia).
  assert (end_debt ws (c :: g) = if bool_decide (d' = []) then - width_sum ws else 0) as Edebt.
  { unfold end_debt. destruct (one_break (c :: g)) eqn:E1; case_bool_decide as Hd; try done; exfalso.
    - apply one_break_cons in E1; [|done]. destruct E1 as [-> |[-> ->]].
      + destruct Hg1 as [[-> _]| ->]; simpl in Ed; simplify_eq.
      + destruct Hg1 as [[-> Hn]| ->]; simpl in Ed; simplify_eq. by apply Hn.
    - enough (one_break (c :: g) = true) by congruence. apply one_break_cons; [done|]. subst d'.
      rewrite app_nil_r in Ed. destruct Hg1 as [[-> _]| ->]; simplify_eq; auto. }
  set (lx1 := set_p (reset_token lx) (q + Zlen g1)).
  assert (exists lx2, keeps_indents (reset_token lx) lx2 /\ step lx =
    Ok (inl (if bool_decide (d' = []) then set_delta (end_token_at lx2 (text_end lx)) (- width_sum ws)
             else end_token_at lx2 (text_end lx)))) as (lx2 & (Hkeep2 & Hd2 & Hind2) & Hstep).
  { rewrite (step_at_char lx q ws text c g Hrest) by (intros ->; done).
    cbv zeta. rewrite Hc, Hb. cbn [bind]. rewrite Hp, <- Z.add_assoc, Eb.
    change (p (set_p (reset_token lx) (q + Zlen g1))) with (q + Zlen g1).
    change (text_end (reset_token lx)) with (text_end lx). fold lx1. case_bool_decide as Hd.
    - subst d'. rewrite Zlen_nil in Elen. zfalse (q + Zlen g1 <? text_end lx). exists lx1. split; [by split_and!|].
      destruct Hind as (Htotal & Hpos & Hsum & _). pose proof (width_sum_bounds ws Hpos). pose proof (Zlen_nonneg ws).
      change (total_indent_width lx1) with (total_indent_width lx). rewrite Htotal, !i32_small by (rewrite ?i32_small; lia).
      by replace (-1 * width_sum ws) with (- width_sum ws) by lia.
    - assert (0 < Zlen d') by (destruct d'; [done|rewrite Zlen_cons; pose proof (Zlen_nonneg d'); lia]).
      ztrue (q + Zlen g1 <? text_end lx).
      destruct (scan_beginning_of_line_end garbage m (span_fuel (p lx1) (text_end lx1)) d' lx1)
        as (lx2 & Hscan & _ & Hkeep & Hd2 & Hind2).
      + change (text_end lx1) with (text_end lx). change (p lx1) with (q + Zlen g1).
        rewrite He, span_fuel_eq. unfold Zlen in *. lia.
      + destruct Hg1 as [[-> _]| ->]; simpl in Ed; injection Ed; [by intros <-|].
        intros ->. by intros ->; apply Forall_cons in Hg as [_ ?].
      + simpl. rewrite Ed, <- app_assoc in Hm. by apply holds_app in Hm as [_ Hm].
      + change (text_end lx1) with (text_end lx). simpl. lia.
      + exists lx2. split; [by split_and!|]. unfold scan_beginning_of_line. rewrite Hscan. done. }
  exists (if bool_decide (d' = []) then set_delta (end_token_at lx2 (text_end lx)) (- width_sum ws)
             else end_token_at lx2 (text_end lx)).
  assert (resting m (if bool_decide (d' = []) then set_delta (end_token_at lx2 (text_end lx)) (- width_sum ws)
             else end_token_at lx2 (text_end lx)) (q + 1 + Zlen g) ws (end_debt ws (c :: g)) text []) as Hrest'.
  { rewrite <- Eq. rewrite <- (app_nil_r (c :: g)) in Hrest.
    eapply (resting_skip lx lx2 _ q ws 0 text (c :: g) []); [exact Hrest|done|..].
    - replace (q + Zlen (c :: g)) with (text_end lx) by lia. by case_bool_decide.
    - by case_bool_decide; apply Hind2.
    - rewrite Edebt. case_bool_decide; [done|]. simpl. rewrite Hd2. exact Hdelta. }
  split; [|exact Hrest']. rewrite <- Eq in Hrest'. rewrite <- (app_nil_r (c :: g)) in Hrest.
  by eapply (resting_skipped lx _ q ws text (c :: g) []).
Qed.

Lemma has_break_app bl c g : is_line_break c = true -> has_break (bl ++ c :: g) = true.
Proof. intros Hc. unfold has_break. rewrite existsb_app. simpl. by rewrite Hc, orb_true_r. Qed.

Lemma one_break_app bl g :
  Forall (fun c => is_blank c = true) bl -> scan_len is_blank g = 0 -> one_break (bl ++ g) = one_break g.
Proof.
  intros Hbl Hg. unfold one_break. rewrite scan_len_app_all, Hg, Z.add_0_r by done.
  unfold Zlen. by rewrite Nat2Z.id, drop_app_length.
Qed.

Lemma one_break_blanks bl : Forall (fun c => is_blank c = true) bl -> one_break bl = false.
Proof. intros Hbl. rewrite <- (app_nil_r bl). by rewrite one_break_app. Qed.

Lemma skipped_refl lx : skipped lx lx.
Proof. by intros r. Qed.

Lemma solid_not_blank l : solid l -> scan_len is_blank l = 0.
Proof.
  intros (c & l' & -> & Hc & _). unfold is_gap_char in Hc. simpl. by destruct (is_blank c).
Qed.

(** Skipping the blanks of a gap, if any. *)
Lemma skip_blanks_of lx q ws text bl l :
  resting m lx q ws 0 text (bl ++ l) -> Forall (fun c => is_blank c = true) bl -> scan_len is_blank l = 0 ->
  exists lx', skipped lx lx' /\ resting m lx' (q + Zlen bl) ws 0 text l.
Proof.
  intros Hrest Hbl Hl. destruct bl as [|c bl]; [|by apply skip_blanks].
  exists lx. split; [apply skipped_refl|]. by rewrite Zlen_nil, Z.add_0_r.
Qed.

(** A gap before a token. *)
Lemma advance_gap lx q ws text g l :
  resting m lx q ws 0 text (g ++ l) -> is_gap g -> solid l -> columns (last_line g) <= 63 ->
  exists lx', skipped lx lx' /\
    resting m lx' (q + Zlen g) (gap_indent ws g).1 (gap_indent ws g).2 text l.
Proof.
  intros Hrest Hg Hsolid Hcols. destruct (gap_split g Hg) as (bl & g2 & -> & Hbl & _ & Hg2 & Hcase).
  rewrite <- app_assoc in Hrest. rewrite Zlen_app. unfold gap_indent.
  destruct Hcase as [->|(c & g3 & -> & Hc)].
  - rewrite app_nil_r, has_break_blanks by done. change (Zlen (@nil Z)) with 0. rewrite Z.add_0_r.
    apply skip_blanks_of; [done..|]. by apply solid_not_blank.
  - rewrite has_break_app, last_line_break in * by done.
    destruct (skip_blanks_of lx q ws text bl ((c :: g3) ++ l)) as (lx1 & Hskip1 & Hrest1); [done..| |].
    { simpl. by rewrite break_not_blank. }
    apply Forall_cons in Hg2 as [_ Hg3].
    destruct (skip_break lx1 _ ws text c g3 l Hrest1) as (lx2 & Hskip2 & Hrest2); try done.
    exists lx2. split; [intros r ?; by apply Hskip1, Hskip2|].
    rewrite Zlen_cons. by replace (q + (Zlen bl + (1 + Zlen g3))) with (q + Zlen bl + 1 + Zlen g3) by lia.
Qed.

(** The gap at the end of the text. *)
Lemma advance_gap_end lx q ws text g :
  resting m lx q ws 0 text g -> is_gap g ->
  exists lx', skipped lx lx' /\ resting m lx' (q + Zlen g) ws (end_debt ws g) text [].
Proof.
  intros Hrest Hg. destruct (gap_split g Hg) as (bl & g2 & -> & Hbl & _ & Hg2 & Hcase).
  rewrite Zlen_app. unfold end_debt.
  destruct Hcase as [->|(c & g3 & -> & Hc)].
  - rewrite app_nil_r, one_break_blanks by done. change (Zlen (@nil Z)) with 0. rewrite Z.add_0_r.
    by apply skip_blanks_of.
  - rewrite one_break_app by (done || (simpl; by rewrite break_not_blank)).
    destruct (skip_blanks_of lx q ws text bl (c :: g3)) as (lx1 & Hskip1 & Hrest1); [done..| |].
    { simpl. by rewrite break_not_blank. }
    apply Forall_cons in Hg2 as [_ Hg3].
    destruct (skip_break_end lx1 _ ws text c g3 Hrest1) as (lx2 & Hskip2 & Hrest2); try done.
    exists lx2. split; [intros r ?; by apply Hskip1, Hskip2|].
    rewrite Zlen_cons. by replace (q + (Zlen bl + (1 + Zlen g3))) with (q + Zlen bl + 1 + Zlen g3) by lia.
Qed.

(** ** Lines after a phrase

    Where a phrase or a comment meets a line break, the lexer looks at the next line
    for a continuation; if there is none the gap is already behind it. *)

Definition continuation (l : list Z) : Prop := take 3 l = str "...".

Lemma ellipsis_at_spec q l :
  holds m q (l ++ [0]) -> ~ continuation l -> exists b, ellipsis_at m q = Ok b /\ b = false.
Proof.
  intros Hm Hl. exists false. split; [|done]. unfold ellipsis_at.
  destruct l as [|x [|y [|z l]]]; simpl in Hm; repeat (destruct Hm as [? Hm]);
    repeat match goal with
    | H : m !! ?a = Some ?v |- context [load m ?a] => rewrite (load_Some m a v H); cbn [bind]
    end; try done.
  - destruct (x =? 46); done.
  - destruct (x =? 46); [|done]. cbn [negb]. destruct (y =? 46); [|done]. simpl.
    by replace (q + 2) with (q + 1 + 1) by lia; rewrite (load_Some _ _ _ H1).
  - destruct (Z.eqb_spec x 46) as [->|]; [|done]. destruct (Z.eqb_spec y 46) as [->|]; [|done]. simpl.
    replace (q + 2) with (q + 1 + 1) by lia. rewrite (load_Some _ _ _ H1). simpl.
    f_equal. apply Z.eqb_neq. intros ->. by apply Hl.
Qed.

Lemma next_line_laid_out lx q g l ws :
  holds m q ((g ++ l) ++ [0]) -> text_end lx = q + Zlen g + Zlen l -> is_gap g -> solid l ->
  ~ continuation l -> columns (last_line g) <= 63 -> indented lx ws -> indent_dedent_delta lx = 0 ->
  exists lx', next_line_continues garbage m lx q = Ok (false, lx') /\ keeps_token lx lx' /\
    p lx' = q + Zlen g /\ indented lx' (indent_to ws (columns (last_line g))).1 /\
    indent_dedent_delta lx' = (indent_to ws (columns (last_line g))).2.
Proof.
  intros Hm He Hg Hsolid Hcont Hcols Hind Hdelta. unfold next_line_continues, scan_beginning_of_line.
  pose proof (Zlen_nonneg l).
  change (text_end (set_p lx q)) with (text_end lx). change (p (set_p lx q)) with q.
  destruct (scan_beginning_of_line_spec garbage m ws (span_fuel q (text_end lx)) g (set_p lx q) l)
    as (lx' & Hit & Hp & Hkeep & Hind' & Hd'); try done.
  - rewrite He, span_fuel_eq. unfold Zlen in *. lia.
  - by apply holds_app in Hm as [? _].
  - simpl in Hit. rewrite Hit. cbn [bind]. simpl in Hp. exists lx'.
    assert (Ok (false, lx') = Ok (false, lx') /\ keeps_token lx lx' /\ p lx' = q + Zlen g /\
      indented lx' (indent_to ws (columns (last_line g))).1 /\
      indent_dedent_delta lx' = (indent_to ws (columns (last_line g))).2) as Hdone by done.
    destruct (_ || _); [done|]. destruct (_ <=? _); [done|].
    rewrite <- app_assoc in Hm. apply holds_app in Hm as [_ Hm].
    by destruct (ellipsis_at_spec (q + Zlen g) l Hm Hcont) as (b & -> & ->).
Qed.

Lemma next_line_end lx q g :
  holds m q (g ++ [0]) -> text_end lx = q + Zlen g -> is_gap g ->
  exists lx', next_line_continues garbage m lx q = Ok (false, lx') /\ keeps_indents lx lx' /\
    p lx' = q + Zlen g - Zlen (last_line g).
Proof.
  intros Hm He Hg. unfold next_line_continues, scan_beginning_of_line.
  change (text_end (set_p lx q)) with (text_end lx). change (p (set_p lx q)) with q.
  destruct (scan_beginning_of_line_end garbage m (span_fuel q (text_end lx)) g (set_p lx q))
    as (lx' & Hit & Hp & Hkeep); try done.
  - rewrite He, span_fuel_eq. unfold Zlen in *. lia.
  - rewrite Hit. cbn [bind]. exists lx'. change (text_end (set_p lx q)) with (text_end lx) in *.
    assert (text_end lx' = text_end lx) as -> by (unfold text_end; by destruct Hkeep as ((_ & _ & _ & ->) & _)).
    rewrite <- He, <- Hp. ztrue (text_end lx <=? text_end lx + 3).
    by destruct (_ || _).
Qed.

(** The line break after a phrase. *)
Lemma consume_break_gap q c g r e :
  holds m q (c :: g ++ r) -> e = q + Zlen (c :: g ++ r) -> is_line_break c = true -> is_gap g ->
  (forall k, r <> LF :: k) ->
  exists g1 g', consume_line_break m q e = Ok (q + Zlen g1) /\ c :: g = g1 ++ g' /\ is_gap g' /\
    last_line (c :: g) = last_line g'.
Proof.
  intros Hm -> Hc Hg Hr. destruct (consume_line_break_spec m q c (g ++ r) Hm Hc) as (g1 & d & Ed & Hcons & Hg1).
  destruct (break_prefix g1 g r c d Hg1 Hc Ed Hr) as (g' & Eg & -> & Hgap & Hlast).
  exists g1, g'. split; [done|]. split; [done|]. split; [by apply Hgap|done].
Qed.
End gaps.
