(* ===== verification/LexerOperators.v ===== *)
(** * The scan of an operator

    The scanning functions of the switch read the longest operator: whatever follows
    an operator of the table without continuing it, the operator is consumed. *)

From stdpp Require Import base tactics list gmap strings.
From Stdlib Require Import ZArith Lia.
From S2P Require Import Prelude CString ScanNumbers Unicode Tokens StrView Lexer LexerSafety LexerBehaviour.
#[local] Open Scope Z_scope.

#[local] Arguments u32 : simpl never.
#[local] Arguments i32 : simpl never.

(** ** Looking ahead *)

Section lookahead.
Context (m : mem) (lx : lexer) (l : list Z).
Context (Hm : holds m (p lx) l) (He : text_end lx = p lx + Zlen l).

Lemma load_ahead i c : l !! i = Some c -> load m (p lx + Z.of_nat i) = Ok c.
Proof. intros Hc. apply load_Some. by apply (holds_lookup _ _ l). Qed.

Lemma ahead_spec n : 0 <= n -> (p lx + n <? text_end lx) = match l !! Z.to_nat n with Some _ => true | None => false end.
Proof.
  intros Hn. rewrite He. unfold Zlen. destruct (l !! Z.to_nat n) as [c|] eqn:Hc.
  - apply lookup_lt_Some in Hc. ztest.
  - apply lookup_ge_None in Hc. ztest.
Qed.

Lemma load_ahead_Z n c : 0 <= n -> l !! Z.to_nat n = Some c -> load m (p lx + n) = Ok c.
Proof. intros Hn Hc. rewrite <- (Z2Nat.id n) by done. by apply load_ahead. Qed.

Lemma peek_spec : peek m lx = Ok (l !! 1%nat).
Proof.
  unfold peek. rewrite He. unfold Zlen. destruct (l !! 1%nat) as [c|] eqn:Hc.
  - apply lookup_lt_Some in Hc as Hlt. ztrue (p lx + 1 <? p lx + Z.of_nat (Datatypes.length l)).
    change 1 with (Z.of_nat 1). by rewrite (load_ahead 1 c).
  - apply lookup_ge_None in Hc. by zfalse (p lx + 1 <? p lx + Z.of_nat (Datatypes.length l)).
Qed.

Lemma next_is_spec n c :
  0 <= n -> next_is m lx n c = Ok (match l !! Z.to_nat n with Some x => x =? c | None => false end).
Proof.
  intros Hn. unfold next_is. rewrite He. unfold Zlen. destruct (l !! Z.to_nat n) as [x|] eqn:Hx.
  - apply lookup_lt_Some in Hx as Hlt. ztrue (p lx + n <? p lx + Z.of_nat (Datatypes.length l)).
    rewrite <- (Z2Nat.id n) at 1 by done. by rewrite (load_ahead _ x).
  - apply lookup_ge_None in Hx. by zfalse (p lx + n <? p lx + Z.of_nat (Datatypes.length l)).
Qed.
End lookahead.

(** ** Operators *)

(** The chars that make a longer operator. *)
Definition next_chars (ty : Z) : list Z :=
  omap (fun s => if bool_decide (operator_text ty `prefix_of` s)
                 then head (drop (Datatypes.length (operator_text ty)) s) else None) operator_texts.

Lemma longer_exists (op s : list Z) (texts : list (list Z)) c :
  s ∈ texts -> op `prefix_of` s -> head (drop (Datatypes.length op) s) = Some c ->
  existsb (fun s => bool_decide (op ++ [c] `prefix_of` s)) texts = true.
Proof.
  intros Hs [s' ->] Hc. rewrite drop_app_length in Hc. destruct s' as [|d s']; [done|]. injection Hc as ->.
  apply existsb_exists. eexists. split; [by apply list_elem_of_In|].
  apply bool_decide_eq_true. exists s'. by rewrite <- app_assoc.
Qed.

Lemma continues_next ty c : continues ty c = false -> Forall (fun k => c <> k) (next_chars ty).
Proof.
  unfold continues, next_chars. generalize operator_texts (operator_text ty). intros texts op Hc.
  apply orb_false_iff in Hc as [Hc _]. apply Forall_forall. intros k Hk <-.
  apply list_elem_of_omap in Hk as (s & Hs & Hk). case_bool_decide as Hpre; [|done].
  by rewrite (longer_exists op s texts c) in Hc.
Qed.

(** The text [r] does not continue the operator [ty]. *)
Definition ends_operator (ty : Z) (r : list Z) : Prop :=
  match r with [] => True | c :: _ => continues ty c = false /\ 0 < c end.

Lemma continues_digit ty c :
  continues ty c = false ->
  strchr_in (str ".+-") (hd 0 (operator_text ty)) && (Zlen (operator_text ty) =? 1) = true ->
  is_ascii_digit c = false.
Proof.
  unfold continues. generalize operator_texts (operator_text ty). intros texts op Hc Hop.
  apply orb_false_iff in Hc as [_ Hc]. rewrite <- andb_assoc, Hop, andb_true_r in Hc. exact Hc.
Qed.

Ltac is_literal a := lazymatch a with Z0 => idtac | Zpos _ => idtac end.
(** Evaluates the tests of a scan whose chars are known, or known to be different. *)
Ltac known_test :=
  match goal with
  | |- context [Z.eqb ?a ?b] =>
      first
        [ is_literal a; is_literal b; let v := eval vm_compute in (Z.eqb a b) in change (Z.eqb a b) with v
        | replace (Z.eqb a b) with false by (symmetry; apply Z.eqb_neq; congruence) ]
  end; cbn [orb andb negb bind].
Ltac look_ahead Hm He :=
  first [ rewrite (peek_spec _ _ _ Hm He) | rewrite (next_is_spec _ _ _ Hm He) by lia
        | rewrite (ahead_spec _ _ He) by lia
        | match goal with |- context [load _ (p _ + ?n)] =>
            rewrite (load_ahead_Z _ _ _ Hm n _ ltac:(lia) eq_refl) end ];
  repeat match goal with
  | |- context [Z.to_nat ?n] => let v := eval vm_compute in (Z.to_nat n) in change (Z.to_nat n) with v
  end; cbn [app lookup list_lookup bind].

Lemma isdigit_ascii c : 0 < c -> isdigit c = Ok (is_ascii_digit c).
Proof. intros Hc. unfold isdigit, ctype. by zfalse (c <? -1). Qed.

(** The texts of an operator and of what continues it, computed; the rest of the
    text is empty or begins with a char that continues it with none of them. *)
Ltac compute_operator Hr r :=
  cbn [op_number] in *;
  match type of Hr with ends_operator ?ty _ =>
    let v := eval vm_compute in (operator_text ty) in
    let w := eval vm_compute in (next_chars ty) in
    destruct r as [|c r];
    [ change (operator_text ty) with v in *
    | destruct Hr as [Hr Hpos]; pose proof (continues_next ty c Hr) as Hc;
      try (assert (is_ascii_digit c = false) as Hdigit
             by (apply (continues_digit ty c Hr); vm_compute; reflexivity));
      change (operator_text ty) with v in *; change (next_chars ty) with w in Hc;
      repeat (apply Forall_cons in Hc as [? Hc]) ]
  end; cbn [hd app] in *.

Ltac scan_by Hm He :=
  unfold scan_token; repeat known_test;
  unfold scan_lt, scan_gt, scan_question, scan_dot, scan_equals, scan_brace, scan_slash, scan_percent,
    scan_star, scan_amper, scan_bang, scan_pipe, scan_caret, scan_minus, scan_plus, scan_colon, scan_pair;
  repeat (first [ known_test | rewrite isdigit_ascii by done; (match goal with H : is_ascii_digit _ = false |- _ => rewrite H end); cbn [bind] | look_ahead Hm He
                | progress cbn [list_find fst] | rewrite decide_True by done | rewrite decide_False by congruence ]).

Section scans.
Context (garbage : Z) (pow : double -> double -> double) (m : mem).

Lemma operator_scan info r lx :
  info ∈ op_infos -> holds m (p lx) (operator_text (op_number info) ++ r) ->
  text_end lx = p lx + Zlen (operator_text (op_number info) ++ r) -> ends_operator (op_number info) r ->
  scan_token garbage pow m lx (hd 0 (operator_text (op_number info))) =
    Ok (consume lx (Zlen (operator_text (op_number info))) (op_number info)).
Proof.
  intros Hin%list_elem_of_In Hm He Hr. unfold op_infos in Hin.
  repeat (destruct Hin as [<-|Hin]; [compute_operator Hr r; scan_by Hm He; done|]). done.
Qed.
End scans.
