(* ===== verification/LexerText.v ===== *)
(** * Whole texts through the lexer

    A program is a list of lexemes with the gaps after them.  [text_tokens] is
    the abstract lexer: the longest lexemes become tokens, and the widths of the
    lines become indents and dedents.  The lexer of [Lexer.v] refines it. *)

From stdpp Require Import base tactics list gmap strings.
From Stdlib Require Import ZArith Lia.
From S2P Require Import Prelude CString ScanNumbers Unicode Tokens StrView Lexer LexerSafety LexerBehaviour LexerLayout LexerOperators.
#[local] Open Scope Z_scope.

#[local] Arguments u32 : simpl never.
#[local] Arguments i32 : simpl never.

(** ** Lexemes *)

Inductive lexeme : Type :=
| Operator (info : operator_info)
| Literal (quote : Z) (content : list Z)
| Whole (s : sign) (d : Z) (l : list Z)
| Fraction (s : sign) (d : Z) (l frac : list Z)
| Phrase (c : Z) (l : list Z)
| Comment (doc : bool) (l : list Z).

Definition comment_mark (doc : bool) : list Z := if doc then str "###" else str "#".

Definition lexeme_text (x : lexeme) : list Z :=
  match x with
  | Operator info => operator_text (op_number info)
  | Literal quote content => quote :: content ++ [quote]
  | Whole s d l => sign_chars s ++ d :: l
  | Fraction s d l frac => sign_chars s ++ (d :: l) ++ "."%ch :: frac
  | Phrase c l => c :: l
  | Comment doc l => comment_mark doc ++ l
  end.

Definition lexeme_type (x : lexeme) : Z :=
  match x with
  | Operator info => op_number info
  | Literal _ _ => tt_quoted_string
  | Whole _ _ _ => tt_decimal_number
  | Fraction _ _ _ _ => tt_floating_point_number
  | Phrase c _ => if is_ascii_upper c then tt_verb else tt_noun
  | Comment doc _ => if doc then tt_doc_comment else tt_comment
  end.

(** Numbers are read modulo 2^64, and a fraction loses its sign. *)
Definition lexeme_value (x : lexeme) : token_value :=
  match x with
  | Operator _ => vt_empty
  | Whole s d l => number_value s (u64 (numeral_value 10 (d :: l)))
  | Fraction _ d l frac => vt_float (dadd (fraction frac) (double_of_Z (u64 (numeral_value 10 (d :: l)))))
  | _ => vt_string
  end.

(** A comment without the white space around it. *)
Definition comment_text (l : list Z) : list Z :=
  let l' := drop (Z.to_nat (scan_len is_blank l)) l in
  take (Z.to_nat (Zlen l' - scan_len (strchr_in ANY_WHITESPACE) (rev l'))) l'.

(** The text after a lexeme, when the text before was [text]: operators and numbers have none of their own. *)
Definition lexeme_string (text : list Z) (x : lexeme) : list Z :=
  match x with
  | Literal _ content => content
  | Phrase c l => c :: l
  | Comment _ l => comment_text l
  | _ => text
  end.

Definition phrase_char (c : Z) : bool := is_ascii_alphanumeric c || (c =? "'"%ch) || (c =? " "%ch).

Definition numeral (d : Z) (l : list Z) : Prop :=
  is_ascii_digit d = true /\ d <> "0"%ch /\ Forall (fun c => is_numeral_char 10 c = true) (d :: l).

Definition lexeme_ok (x : lexeme) : Prop :=
  match x with
  | Operator info => info ∈ op_infos
  | Literal quote content => is_quote quote /\ Forall (plain_in quote) content
  | Whole s d l => numeral d l /\ (s = Minus -> i64 (u64 (numeral_value 10 (d :: l))) <> - 2 ^ 63)
  | Fraction s d l frac => numeral d l /\ Forall (fun c => fraction_char c = true) frac
  | Phrase c l => is_ascii_alpha c = true /\ Forall (fun c => phrase_char c = true) l
  | Comment doc l =>
      Forall (fun c => is_line_break c = false) l /\
      (doc = false -> take 2 l <> str "##")
  end.

(** The text [r] after a lexeme does not continue it. *)
Definition lexeme_ends (x : lexeme) (r : list Z) : Prop :=
  match x with
  | Operator info => ends_operator (op_number info) r
  | Literal _ _ => True
  | Whole _ _ _ => ends_numeral r
  | Fraction _ _ _ _ => ends_fraction r
  | Phrase _ _ => match r with [] => True | c :: _ => 0 < c /\ phrase_char c = false end
  | Comment _ _ => match r with [] => False | c :: _ => is_line_break c = true end
  end.

#[local] Instance associativity_eq_dec : EqDecision operator_associativity.
Proof. solve_decision. Defined.
#[local] Instance operator_info_eq_dec : EqDecision operator_info.
Proof. solve_decision. Defined.
#[local] Instance sign_eq_dec : EqDecision sign.
Proof. solve_decision. Defined.

#[export] Instance lexeme_ok_dec x : Decision (lexeme_ok x).
Proof.
  destruct x; unfold lexeme_ok, is_quote, plain_in, numeral; apply _.
Defined.
#[export] Instance lexeme_ends_dec x r : Decision (lexeme_ends x r).
Proof.
  destruct x, r as [|? [|? ?]]; unfold lexeme_ends, ends_operator, ends_numeral, ends_fraction; apply _.
Defined.

(** A phrase or a comment that meets a line break takes the gap into its token. *)
Definition takes_gap (x : lexeme) (g : list Z) : bool :=
  match x with
  | Phrase _ _ | Comment _ _ => match g with c :: _ => is_line_break c | [] => false end
  | _ => false
  end.

Section lexemes.
Context (garbage : Z) (pow : double -> double -> double) (m : mem).

Definition token_at (x : lexeme) (q len : Z) : token :=
  {| t_type := lexeme_type x; substr := view_of_length q len; t_value := lexeme_value x |}.

Lemma resting_next_token lx q ws text k l ty len v text' :
  resting m lx q ws 0 text (k ++ l) -> next_token garbage pow m lx ty len v text' -> len = Zlen k ->
  exists lx', advance garbage pow m lx = Ok (true, lx') /\
    t lx' = {| t_type := ty; substr := view_of_length q len; t_value := v |} /\
    resting m lx' (q + Zlen k) ws 0 text' l.
Proof.
  intros Hrest (lx' & Hadv & Ht & Htext & [Hperr Hdelta] & Htxt & Htotal & Hidx & Hstack) ->.
  rewrite (rest_at _ _ _ _ _ _ _ Hrest) in Ht. exists lx'. split; [done|]. split; [done|].
  eapply (resting_after _ lx lx' q ws 0 text l ws 0 text' _ (q + Zlen k) k Hrest); try done.
  pose proof (rest_indents _ _ _ _ _ _ _ Hrest) as Hind. unfold indented in *.
  by rewrite Htotal, Hidx, Hstack.
Qed.

(** A char that starts a token. *)
Lemma advance_scanned lx q ws delta text c l lx' :
  resting m lx q ws delta text (c :: l) -> delta = 0 -> c <> 0 -> is_gap_char c = false ->
  scan_token garbage pow m (reset_token lx) c = Ok lx' -> advance garbage pow m lx = Ok (true, lx').
Proof.
  intros Hrest -> Hc Hgap Hscan. unfold is_gap_char in Hgap. apply orb_false_iff in Hgap as [Hblank Hbreak].
  eapply advance_scan; try done; [by eapply resting_between|by eapply resting_next].
Qed.

Lemma operator_solid info r : info ∈ op_infos -> solid (operator_text (op_number info) ++ r).
Proof.
  intros Hin%list_elem_of_In. unfold op_infos in Hin.
  repeat (destruct Hin as [<-|Hin]; [eexists _, _; split; [reflexivity|split; [reflexivity|discriminate]]|]). done.
Qed.

Lemma advance_operator lx q ws text info r :
  resting m lx q ws 0 text (operator_text (op_number info) ++ r) -> info ∈ op_infos ->
  ends_operator (op_number info) r ->
  exists lx', advance garbage pow m lx = Ok (true, lx') /\
    t lx' = token_at (Operator info) q (Zlen (operator_text (op_number info))) /\
    resting m lx' (q + Zlen (operator_text (op_number info))) ws 0 text r.
Proof.
  intros Hrest Hin Hends. destruct (operator_solid info r Hin) as (c & l & El & Hc & Hc0).
  destruct (resting_reset _ _ _ _ _ _ _ Hrest) as [Ht Hp]. pose proof Hrest as [_ _ Hpos _ He Hm Hind _ _].
  apply holds_app in Hm as [Hm _].
  pose proof (operator_scan garbage pow m info r (reset_token lx) Hin) as Hscan.
  rewrite Hp in Hscan. specialize (Hscan Hm He Hends).
  assert (hd 0 (operator_text (op_number info)) = c) as Hhd.
  { destruct (operator_text (op_number info)) as [|c' op] eqn:Eop; simpl in El; [|by injection El].
    exfalso. revert Eop. clear -Hin. apply list_elem_of_In in Hin. unfold op_infos in Hin.
    repeat (destruct Hin as [<-|Hin]; [discriminate|]). done. }
  rewrite Hhd in Hscan.
  pose proof Hrest as Hrest'. rewrite El in Hrest'.
  exists (consume (reset_token lx) (Zlen (operator_text (op_number info))) (op_number info)).
  split; [by eapply (advance_scanned lx q ws 0 text c l)|].
  assert (t (consume (reset_token lx) (Zlen (operator_text (op_number info))) (op_number info)) =
    token_at (Operator info) q (Zlen (operator_text (op_number info)))) as Ht'.
  { unfold consume, end_token_at, set_substr, set_type, set_t, token_at, end_at, view_of_length.
    cbn [t p set_p substr t_type t_value]. rewrite Ht, Hp. unfold view_of_length. cbn [substr begin t_value]. zfalse (q =? 0). cbn [negb].
    pose proof (Zlen_nonneg (operator_text (op_number info))).
    ztrue (q <=? q + Zlen (operator_text (op_number info))).
    by replace (q + Zlen (operator_text (op_number info)) - q) with (Zlen (operator_text (op_number info))) by lia. }
  split; [exact Ht'|].
  eapply (resting_after _ lx _ q ws 0 text r ws 0 text _ _ _ Hrest); try done; try apply Hrest.
Qed.

(** *** Literals and numbers *)

Lemma advance_literal lx q ws text quote content r :
  resting m lx q ws 0 text ((quote :: content ++ [quote]) ++ r) -> lexeme_ok (Literal quote content) ->
  exists lx', advance garbage pow m lx = Ok (true, lx') /\
    t lx' = token_at (Literal quote content) q (Zlen (quote :: content ++ [quote])) /\
    resting m lx' (q + Zlen (quote :: content ++ [quote])) ws 0 content r.
Proof.
  intros Hrest [Hq Hs]. eapply (resting_next_token _ _ _ _ _ _ _ _ _ _ Hrest).
  - replace (Zlen (quote :: content ++ [quote])) with (Zlen content + 2)
      by (rewrite Zlen_cons, Zlen_app; change (Zlen [quote]) with 1; lia).
    apply (string_literal_read garbage pow m lx quote content r); try done; [by eapply resting_between|].
    apply resting_next in Hrest. simpl in Hrest. by rewrite <- app_assoc in Hrest.
  - done.
Qed.

Lemma resting_text_end lx q ws text l :
  resting m lx q ws 0 text l -> text_end lx = view_end (substr (t lx)) + Zlen l.
Proof. intros []. congruence. Qed.

Lemma advance_whole lx q ws text s d l r :
  resting m lx q ws 0 text ((sign_chars s ++ d :: l) ++ r) -> lexeme_ok (Whole s d l) -> ends_numeral r ->
  exists lx', advance garbage pow m lx = Ok (true, lx') /\
    t lx' = token_at (Whole s d l) q (Zlen (sign_chars s ++ d :: l)) /\
    resting m lx' (q + Zlen (sign_chars s ++ d :: l)) ws 0 text r.
Proof.
  intros Hrest [(Hd & Hd0 & Hl) Hmin] Hr. eapply (resting_next_token _ _ _ _ _ _ _ _ _ _ Hrest); [|done].
  rewrite Zlen_app. pose proof Hrest as Hrest'. rewrite <- app_assoc in Hrest'.
  rewrite <- (rest_unwrapped _ _ _ _ _ _ _ Hrest).
  apply (decimal_token_read garbage pow m lx s d l r); try done.
  - by eapply resting_between.
  - by eapply resting_next.
  - by eapply resting_text_end.
Qed.

Lemma advance_fraction lx q ws text s d l frac r :
  resting m lx q ws 0 text ((sign_chars s ++ (d :: l) ++ "."%ch :: frac) ++ r) ->
  lexeme_ok (Fraction s d l frac) -> ends_fraction r ->
  exists lx', advance garbage pow m lx = Ok (true, lx') /\
    t lx' = token_at (Fraction s d l frac) q (Zlen (sign_chars s ++ (d :: l) ++ "."%ch :: frac)) /\
    resting m lx' (q + Zlen (sign_chars s ++ (d :: l) ++ "."%ch :: frac)) ws 0 text r.
Proof.
  intros Hrest [(Hd & Hd0 & Hl) Hf] Hr. eapply (resting_next_token _ _ _ _ _ _ _ _ _ _ Hrest); [|done].
  replace (Zlen (sign_chars s ++ (d :: l) ++ "."%ch :: frac)) with
    (Zlen (sign_chars s) + Zlen (d :: l) + 1 + Zlen frac) by (rewrite !Zlen_app, (Zlen_cons _ frac); lia).
  pose proof Hrest as Hrest'. rewrite <- !app_assoc in Hrest'. cbn [app] in Hrest'.
  rewrite <- (rest_unwrapped _ _ _ _ _ _ _ Hrest).
  apply (float_token_drops_sign garbage pow m lx s d l frac r); try done.
  - by eapply resting_between.
  - by eapply resting_next.
  - by eapply resting_text_end.
Qed.

(** *** Phrases *)

Lemma phrase_char_range c : phrase_char c = true -> 32 <= c.
Proof. unfold phrase_char, is_ascii_alphanumeric, is_ascii_digit, is_ascii_alpha. intros Hc. ztest_in Hc. Qed.

Lemma isalnum_ascii c : 0 < c -> isalnum c = Ok (is_ascii_alphanumeric c).
Proof. intros Hc. unfold isalnum, ctype. by zfalse (c <? -1). Qed.

Lemma phrase_loop s : forall lx fuel,
  holds m (p lx) s -> Forall (fun c => phrase_char c = true) s -> p lx + Zlen s <= text_end lx ->
  iterate (Datatypes.length s + fuel) (phrase_step garbage m) lx =
    iterate fuel (phrase_step garbage m) (set_p (set_text lx (unwrapped_text lx ++ s)) (p lx + Zlen s)).
Proof.
  induction s as [|c s IH]; intros lx fuel Hm Hs He.
  - rewrite app_nil_r. change (Zlen (@nil Z)) with 0. rewrite Z.add_0_r. by destruct lx.
  - destruct Hm as [Hload Hm]. apply Forall_cons in Hs as [Hc Hs]. rewrite Zlen_cons in *.
    pose proof (Zlen_nonneg s). pose proof (phrase_char_range c Hc). cbn [Datatypes.length Nat.add iterate].
    unfold phrase_step at 1. zfalse (p lx =? text_end lx). rewrite (load_Some _ _ _ Hload). cbn [bind].
    rewrite isalnum_ascii by lia. cbn [bind]. unfold phrase_char in Hc. rewrite Hc. cbn [bind].
    rewrite IH; [|done|done|].
    + cbn [p set_p set_text unwrapped_text]. rewrite <- app_assoc. cbn [app].
      by replace (p lx + 1 + Zlen s) with (p lx + (1 + Zlen s)) by lia.
    + unfold text_end in *. simpl. lia.
Qed.

Lemma scan_token_alpha lx c :
  is_ascii_alpha c = true -> load m (p lx) = Ok c ->
  scan_token garbage pow m lx c = get_phrase_token garbage m lx.
Proof.
  intros Hc Hload. assert ("A"%ch <= c <= "z"%ch /\ (c <= "Z"%ch \/ "a"%ch <= c)) as Hr.
  { unfold is_ascii_alpha in Hc. ztest_in Hc. }
  unfold scan_token.
  repeat match goal with |- context [c =? ?k] => zfalse (c =? k) end. cbn [orb].
  unfold scan_other. rewrite Hload. cbn [bind]. unfold isalpha, ctype. zfalse (c <? -1). cbn [bind]. by rewrite Hc.
Qed.

(** A token made by a scan that moves [p] over [k] after the text of the lexeme. *)
Lemma resting_scanned lx lx2 lx3 q ws text x k r ws' delta' :
  resting m lx q ws 0 text ((lexeme_text x ++ k) ++ r) ->
  t lx2 = {| t_type := lexeme_type x; substr := view_of_length q 0; t_value := vt_empty |} ->
  unwrapped_text lx2 = lexeme_string text x -> pending_error lx2 = None -> txt lx2 = txt lx ->
  lexeme_value x = vt_string ->
  keeps_token lx2 lx3 -> p lx3 = q + Zlen (lexeme_text x ++ k) ->
  indented lx3 ws' -> indent_dedent_delta lx3 = delta' ->
  let lx' := set_value (end_token_at lx3 (p lx3)) vt_string in
  t lx' = token_at x q (Zlen (lexeme_text x ++ k)) /\
  resting m lx' (q + Zlen (lexeme_text x ++ k)) ws' delta' (lexeme_string text x) r.
Proof.
  intros Hrest Ht2 Hu2 Hp2 Htxt2 Hv (Ht3 & Hu3 & Hp3 & Htxt3) Hp Hind Hd lx'.
  pose proof (rest_pos _ _ _ _ _ _ _ Hrest). pose proof (Zlen_nonneg (lexeme_text x ++ k)).
  assert (t lx' = token_at x q (Zlen (lexeme_text x ++ k))) as Ht'.
  { unfold lx', set_value, end_token_at, set_substr, set_t, token_at, end_at. cbn [t substr t_type t_value].
    rewrite Ht3, Ht2, Hv, Hp. cbn [t_type substr]. unfold view_of_length. cbn [begin]. zfalse (q =? 0). cbn [negb].
    ztrue (q <=? q + Zlen (lexeme_text x ++ k)). do 2 f_equal. lia. }
  split; [exact Ht'|].
  eapply (resting_after m lx lx' q ws 0 text r _ _ _ _ _ _ Hrest); [..|exact Ht'| | |reflexivity]; try done; simpl.
  - by rewrite Hp3.
  - by rewrite Htxt3.
  - by rewrite Hu3.
Qed.

Lemma advance_phrase lx q ws text c l k r ws' delta' :
  resting m lx q ws 0 text (((c :: l) ++ k) ++ r) -> lexeme_ok (Phrase c l) ->
  (forall lx2, t lx2 = {| t_type := lexeme_type (Phrase c l); substr := view_of_length q 0; t_value := vt_empty |} ->
     p lx2 = q + Zlen (c :: l) -> text_end lx2 = text_end lx -> indented lx2 ws -> indent_dedent_delta lx2 = 0 ->
     exists lx3, phrase_step garbage m lx2 = Ok (inr lx3) /\ keeps_token lx2 lx3 /\
       p lx3 = q + Zlen ((c :: l) ++ k) /\ indented lx3 ws' /\ indent_dedent_delta lx3 = delta') ->
  exists lx', advance garbage pow m lx = Ok (true, lx') /\
    t lx' = token_at (Phrase c l) q (Zlen ((c :: l) ++ k)) /\
    resting m lx' (q + Zlen ((c :: l) ++ k)) ws' delta' (c :: l) r.
Proof.
  intros Hrest [Halpha Hl] Hend. destruct (resting_reset _ _ _ _ _ _ _ Hrest) as [Ht Hp].
  pose proof Hrest as [Hperr _ Hpos _ He Hm Hind Hdelta _].
  pose proof (Zlen_nonneg l). pose proof (Zlen_nonneg k). pose proof (Zlen_nonneg r).
  rewrite !Zlen_app, Zlen_cons in He.
  assert (Forall (fun c => phrase_char c = true) (c :: l)) as Hcl.
  { constructor; [|done]. unfold phrase_char, is_ascii_alphanumeric, is_ascii_alpha in *.
    by rewrite Halpha, orb_true_r. }
  assert (holds m q (c :: l)) as Hm1 by (rewrite <- !app_assoc in Hm; by apply holds_app in Hm as [? _]).
  pose proof Hm1 as [Hload _]. rewrite <- Hp in Hload.
  set (lx1 := set_type (set_text (reset_token lx) []) (lexeme_type (Phrase c l))).
  set (lx2 := set_p (set_text lx1 (c :: l)) (q + Zlen (c :: l))).
  assert (t lx2 = {| t_type := lexeme_type (Phrase c l); substr := view_of_length q 0; t_value := vt_empty |}) as Ht2.
  { unfold lx2, lx1, set_type, set_t. cbn [t set_p set_text]. by rewrite Ht. }
  destruct (Hend lx2 Ht2 eq_refl eq_refl Hind Hdelta) as (lx3 & Hstep & Hkeep & Hp3 & Hind3 & Hd3).
  assert (scan_token garbage pow m (reset_token lx) c = Ok (set_value (end_token_at lx3 (p lx3)) vt_string)) as Hscan.
  { rewrite (scan_token_alpha (reset_token lx) c Halpha) by (by apply load_Some).
    unfold get_phrase_token. change (p (set_text (reset_token lx) [])) with (p (reset_token lx)).
    rewrite (load_Some _ _ _ Hload). cbn [bind].
    pose proof (phrase_char_range c (Forall_inv Hcl)) as Hrange.
    unfold isupper, ctype. zfalse (c <? -1). cbn [bind]. fold (lexeme_type (Phrase c l)). fold lx1.
    change (p lx1) with (p (reset_token lx)). change (text_end lx1) with (text_end lx). rewrite Hp.
    assert (exists n, span_fuel q (text_end lx) = (Datatypes.length (c :: l) + S n)%nat) as (n & ->).
    { exists (Z.to_nat (text_end lx - q) - Datatypes.length (c :: l))%nat. unfold span_fuel, Zlen in *. simpl in *. lia. }
    rewrite (phrase_loop (c :: l) lx1) by
      (done || (change (p lx1) with (p (reset_token lx)); rewrite Hp; done) ||
       (change (p lx1) with (p (reset_token lx)); change (text_end lx1) with (text_end lx);
        rewrite Hp, Zlen_cons; lia)).
    change (p lx1) with (p (reset_token lx)). rewrite Hp. cbn [iterate]. fold lx2. cbn [unwrapped_text app].
    change (unwrapped_text lx1 ++ c :: l) with (c :: l). fold lx2. rewrite Hstep. done. }
  eexists. split; [|eapply (resting_scanned lx lx2 lx3 q ws text (Phrase c l) k r); try done].
  cbn [app] in Hrest. eapply advance_scanned; [exact Hrest|done| | |exact Hscan].
  - intros ->. done.
  - unfold is_ascii_alpha in Halpha. unfold is_gap_char, is_blank, is_line_break. ztest_in Halpha; ztest.
Qed.

(** The end of a phrase: a char that is neither in it nor a line break, or the end of the text. *)
Lemma phrase_step_stop lx r :
  holds m (p lx) (r ++ [0]) -> text_end lx = p lx + Zlen r -> lexeme_ends (Phrase 0 []) r ->
  match r with c :: _ => is_line_break c | [] => false end = false ->
  phrase_step garbage m lx = Ok (inr lx).
Proof.
  intros Hm He Hr Hbreak. unfold phrase_step. destruct r as [|c r].
  - rewrite Zlen_nil, Z.add_0_r in He. by rewrite <- He, Z.eqb_refl.
  - rewrite Zlen_cons in He. pose proof (Zlen_nonneg r). zfalse (p lx =? text_end lx). destruct Hm as [Hload _].
    rewrite (load_Some _ _ _ Hload). cbn [bind]. destruct Hr as [Hpos Hc]. rewrite isalnum_ascii by done.
    cbn [bind]. unfold phrase_char in Hc. by rewrite Hc, Hbreak.
Qed.

Lemma break_not_phrase c : is_line_break c = true -> 0 < c /\ phrase_char c = false.
Proof.
  intros Hc. unfold is_line_break in Hc. apply orb_true_iff in Hc as [->%Z.eqb_eq | ->%Z.eqb_eq]; by split.
Qed.

(** A line break, and a line that does not continue the phrase. *)
Lemma phrase_step_break lx q' c g r lx3 :
  holds m (p lx) (c :: g ++ r) -> text_end lx = p lx + Zlen (c :: g ++ r) -> is_line_break c = true ->
  consume_line_break m (p lx) (text_end lx) = Ok q' -> next_line_continues garbage m lx q' = Ok (false, lx3) ->
  phrase_step garbage m lx = Ok (inr lx3).
Proof.
  intros [Hload _] He Hc Hcons Hnext. unfold phrase_step. rewrite Zlen_cons in He. pose proof (Zlen_nonneg (g ++ r)).
  zfalse (p lx =? text_end lx). rewrite (load_Some _ _ _ Hload). cbn [bind].
  destruct (break_not_phrase c Hc) as [Hpos Hpc]. rewrite isalnum_ascii by done. cbn [bind].
  unfold phrase_char in Hpc. rewrite Hpc, Hc, Hcons. cbn [bind]. by rewrite Hnext.
Qed.

Lemma phrase_step_gap lx ws c g l :
  holds m (p lx) (((c :: g) ++ l) ++ [0]) -> text_end lx = p lx + Zlen (c :: g) + Zlen l ->
  is_line_break c = true -> is_gap g -> solid l -> ~ continuation l -> columns (last_line (c :: g)) <= 63 ->
  indented lx ws -> indent_dedent_delta lx = 0 ->
  exists lx3, phrase_step garbage m lx = Ok (inr lx3) /\ keeps_token lx lx3 /\
    p lx3 = p lx + Zlen (c :: g) /\ indented lx3 (gap_indent ws (c :: g)).1 /\
    indent_dedent_delta lx3 = (gap_indent ws (c :: g)).2.
Proof.
  intros Hm He Hc Hg Hsolid Hcont Hcols Hind Hdelta. unfold gap_indent.
  assert (has_break (c :: g) = true) as -> by apply (has_break_app [] c g Hc).
  pose proof Hm as [Hm' _]%holds_app.
  assert (text_end lx = p lx + Zlen (c :: g ++ l)) as He'
    by (change (c :: g ++ l) with ((c :: g) ++ l); rewrite Zlen_app; lia).
  destruct (consume_break_gap m (p lx) c g l (text_end lx) Hm' He' Hc Hg (solid_not_lf l Hsolid))
    as (g1 & g' & Hcons & Eg & Hg' & Hlast).
  assert (Zlen (c :: g) = Zlen g1 + Zlen g') as Elen by (by rewrite Eg, Zlen_app).
  rewrite Hlast in *. rewrite Eg, <- !app_assoc in Hm. apply holds_app in Hm as [_ Hm]. rewrite app_assoc in Hm.
  destruct (next_line_laid_out garbage m lx (p lx + Zlen g1) g' l ws Hm) as (lx3 & Hnext & Hkeep & Hp3 & Hind3 & Hd3);
    try done; [lia|].
  exists lx3. split; [by eapply phrase_step_break|]. split; [done|]. split; [lia|done].
Qed.

(** The chars of the gap before the blanks at its end. *)
Lemma last_line_suffix g : exists k, g = k ++ last_line g.
Proof.
  induction g as [|c g [k IH]]; [by exists []|]. cbn [last_line].
  destruct (has_break (c :: g)); [|by exists []]. exists (c :: k). by rewrite IH at 1.
Qed.

Lemma phrase_step_gap_end lx ws c g :
  holds m (p lx) ((c :: g) ++ [0]) -> text_end lx = p lx + Zlen (c :: g) ->
  is_line_break c = true -> is_gap g -> indented lx ws -> indent_dedent_delta lx = 0 ->
  exists lx3, phrase_step garbage m lx = Ok (inr lx3) /\ keeps_token lx lx3 /\
    p lx3 = p lx + Zlen (c :: g) - Zlen (last_line (c :: g)) /\ indented lx3 ws /\ indent_dedent_delta lx3 = 0.
Proof.
  intros Hm He Hc Hg Hind Hdelta. pose proof Hm as [Hm' _]%holds_app. rewrite <- (app_nil_r g) in Hm'.
  assert (text_end lx = p lx + Zlen (c :: g ++ [])) as He' by (by rewrite app_nil_r).
  destruct (consume_break_gap m (p lx) c g [] (text_end lx) Hm' He' Hc Hg ltac:(done))
    as (g1 & g' & Hcons & Eg & Hg' & Hlast).
  assert (Zlen (c :: g) = Zlen g1 + Zlen g') as Elen by (by rewrite Eg, Zlen_app).
  rewrite Hlast in *. rewrite Eg, <- app_assoc in Hm. apply holds_app in Hm as [_ Hm].
  destruct (next_line_end garbage m lx (p lx + Zlen g1) g' Hm) as (lx3 & Hnext & (Hkeep & Hd & Hi) & Hp3);
    [lia|done|].
  exists lx3. split; [by eapply phrase_step_break|]. split; [done|]. split; [lia|]. split; [auto|congruence].
Qed.

(** *** Comments *)

Lemma scan_rest_of_line_spec q l r :
  holds m q (l ++ r) -> Forall (fun c => is_line_break c = false) l ->
  match r with c :: _ => is_line_break c = true | [] => True end ->
  scan_rest_of_line m q (q + Zlen (l ++ r)) = Ok (q + Zlen l).
Proof.
  intros Hm Hl Hr. unfold scan_rest_of_line.
  rewrite (iterate_scan_len (fun c => negb (is_line_break c)) m (q + Zlen (l ++ r)) _ (l ++ r) q); eauto with intent.
  - rewrite scan_len_app_all by (eapply Forall_impl; [exact Hl|intros c Hc; simpl; by rewrite Hc]).
    destruct r as [|c r]; simpl; [|rewrite Hr]; simpl; f_equal; lia.
  - intros p' c Hc Hp'. simpl. ztrue (p' <? q + Zlen (l ++ r)). rewrite (load_Some _ _ _ Hc). simpl.
    by destruct (is_line_break c).
  - simpl. by rewrite Z.ltb_irrefl.
Qed.

(** The text of a comment, between [after_spaces] and what [rtrim] finds. *)
Lemma comment_text_spec q l :
  0 < q -> holds m q l ->
  (let after := q + scan_len is_blank l in
   if after <? q + Zlen l then
     let! rtrim_result := rtrim m after (q + Zlen l) None in load_range m after rtrim_result
   else Ok []) = Ok (comment_text l).
Proof.
  intros Hq Hm. cbv zeta. destruct (scan_len_split is_blank l) as (l1 & l2 & -> & Hlen & Hl1 & Hhd).
  assert (comment_text (l1 ++ l2) = take (Z.to_nat (Zlen l2 - scan_len (strchr_in ANY_WHITESPACE) (rev l2))) l2) as ->.
  { unfold comment_text. by rewrite <- Hlen, drop_app_Zlen. }
  rewrite <- Hlen, Zlen_app, Z.add_assoc. apply holds_app in Hm as [_ Hm].
  pose proof (Zlen_nonneg l1). pose proof (Zlen_nonneg l2).
  destruct (Z.ltb_spec (q + Zlen l1) (q + Zlen l1 + Zlen l2)).
  - rewrite (rtrim_spec m (q + Zlen l1)) by (done || lia). cbn [bind default].
    set (n := scan_len _ (rev l2)). pose proof (scan_len_bounds (strchr_in ANY_WHITESPACE) (rev l2)) as Hn.
    assert (Zlen (rev l2) = Zlen l2) as Er by (unfold Zlen; by rewrite length_rev). rewrite Er in Hn.
    change (default ANY_WHITESPACE None) with ANY_WHITESPACE. fold n in Hn.
    assert (Zlen (take (Z.to_nat (Zlen l2 - n)) l2) = Zlen l2 - n) as Et.
    { unfold Zlen in *. rewrite length_take. lia. }
    replace (q + Zlen l1 + Zlen l2 - n) with (q + Zlen l1 + Zlen (take (Z.to_nat (Zlen l2 - n)) l2)) by lia.
    rewrite load_range_spec; [done|]. rewrite <- (take_drop (Z.to_nat (Zlen l2 - n)) l2) in Hm.
    by apply holds_app in Hm as [? _].
  - assert (l2 = []) as -> by (destruct l2; [done|]; rewrite Zlen_cons in *; pose proof (Zlen_nonneg l2); lia).
    done.
Qed.

(** One line of comment, with [p] on the char before it. *)
Lemma comment_step_spec lx l c d lx3 :
  0 < p lx -> holds m (p lx + 1) (l ++ c :: d) -> text_end lx = p lx + 1 + Zlen (l ++ c :: d) ->
  Forall (fun c => is_line_break c = false) l -> is_line_break c = true -> unwrapped_text lx = [] ->
  next_line_continues garbage m (set_text (set_p lx (p lx + 1)) (comment_text l)) (p lx + 1 + Zlen l + 1) =
    Ok (false, lx3) ->
  comment_step garbage m lx = Ok (inr lx3).
Proof.
  intros Hpos Hm He Hl Hc Hu Hnext. unfold comment_step.
  change (text_end (set_p lx (p lx + 1))) with (text_end lx). change (p (set_p lx (p lx + 1))) with (p lx + 1).
  rewrite He, (scan_rest_of_line_spec (p lx + 1) l (c :: d)) by done. cbn [bind].
  rewrite (scan_spaces_and_tabs_spec m (p lx + 1) (l ++ c :: d)) by done. cbn [bind].
  assert (scan_len is_blank (l ++ c :: d) = scan_len is_blank l) as ->.
  { clear -Hc. induction l as [|x l IH]; simpl; [by rewrite break_not_blank|]. by rewrite IH. }
  pose proof (comment_text_spec (p lx + 1) l ltac:(lia)) as Htext. apply holds_app in Hm as [Hm _].
  specialize (Htext Hm). cbv zeta in Htext.
  change (unwrapped_text (set_p lx (p lx + 1))) with (unwrapped_text lx). rewrite Hu. rewrite bool_decide_true by done.
  cbn [app].
  destruct (p lx + 1 + scan_len is_blank l <? p lx + 1 + Zlen l).
  - destruct (rtrim _ _ _ _) as [x| | |]; try done. cbn [bind] in *. rewrite Htext. cbn [bind]. by rewrite Hnext.
  - injection Htext as Htext. rewrite <- Htext in Hnext. cbn [bind].
    assert (set_text (set_p lx (p lx + 1)) [] = set_p lx (p lx + 1)) as Eq by (rewrite <- Hu; by destruct lx).
    rewrite Eq in Hnext. by rewrite Hnext.
Qed.

(** The mark tells the two kinds of comment apart. *)
Lemma scan_hash_mark lx doc l r :
  holds m (p lx) ((comment_mark doc ++ l) ++ r) -> text_end lx = p lx + Zlen ((comment_mark doc ++ l) ++ r) ->
  lexeme_ok (Comment doc l) -> lexeme_ends (Comment doc l) r ->
  scan_hash garbage m lx =
    let! (e, lx') := get_comment_token garbage m
      (set_type (set_p lx (p lx + Zlen (comment_mark doc) - 1)) (lexeme_type (Comment doc l))) in
    Ok (end_token_at lx' e).
Proof.
  intros Hm He [Hl Hdoc] Hr. unfold scan_hash. rewrite <- app_assoc in Hm, He.
  assert (forall tt, set_type lx tt = set_type (set_p lx (p lx + 1 - 1)) tt) as Hset.
  { intros tt. replace (p lx + 1 - 1) with (p lx) by lia. by destruct lx. }
  rewrite (ahead_spec lx _ He) by lia. rewrite (next_is_spec m lx _ Hm He 1) by lia.
  rewrite (next_is_spec m lx _ Hm He 2) by lia.
  destruct doc; cbn [comment_mark] in *.
  - change (str "###") with ["#"%ch; "#"%ch; "#"%ch]. simpl.
    replace (p lx + Zlen ["#"%ch; "#"%ch; "#"%ch] - 1) with (p lx + 2) by (change (Zlen ["#"%ch; "#"%ch; "#"%ch]) with 3; lia).
    done.
  - specialize (Hdoc eq_refl). change (str "#") with ["#"%ch]. cbn [app].
    change (Zlen ["#"%ch]) with 1. rewrite <- Hset.
    change (Z.to_nat 2) with 2%nat. change (Z.to_nat 1) with 1%nat. cbn [lookup list_lookup].
    destruct ((l ++ r) !! 1%nat) as [y|] eqn:Hy; [|done]. destruct ((l ++ r) !! 0%nat) as [x|] eqn:Hx; [|done]. cbn [bind].
    destruct (Z.eqb_spec x 35) as [->|]; [|done]. cbn [bind]. destruct (Z.eqb_spec y 35) as [->|]; [|done]. exfalso.
    destruct r as [|c r]; [done|]. simpl in Hr.
    destruct l as [|x' [|y' l]]; simpl in *; simplify_eq.
Qed.

Lemma advance_comment lx q ws text doc l k r c d ws' delta' :
  resting m lx q ws 0 text (((comment_mark doc ++ l) ++ k) ++ r) -> lexeme_ok (Comment doc l) ->
  k ++ r = c :: d -> is_line_break c = true ->
  (forall lx2, text_end lx2 = text_end lx -> indented lx2 ws -> indent_dedent_delta lx2 = 0 ->
     exists lx3, next_line_continues garbage m lx2 (q + Zlen (comment_mark doc ++ l) + 1) = Ok (false, lx3) /\
       keeps_token lx2 lx3 /\
       p lx3 = q + Zlen ((comment_mark doc ++ l) ++ k) /\ indented lx3 ws' /\ indent_dedent_delta lx3 = delta') ->
  exists lx', advance garbage pow m lx = Ok (true, lx') /\
    t lx' = token_at (Comment doc l) q (Zlen ((comment_mark doc ++ l) ++ k)) /\
    resting m lx' (q + Zlen ((comment_mark doc ++ l) ++ k)) ws' delta' (comment_text l) r.
Proof.
  intros Hrest Hok Ek Hc Hend. destruct (resting_reset _ _ _ _ _ _ _ Hrest) as [Ht Hp].
  pose proof Hrest as [Hperr _ Hpos _ He Hm Hind Hdelta _]. pose proof Hok as [Hl _].
  apply holds_app in Hm as [Hm _]. rewrite <- app_assoc, Ek in Hm, He.
  pose proof (Zlen_nonneg l). pose proof (Zlen_nonneg d).
  assert (Zlen (comment_mark doc) = 1 \/ Zlen (comment_mark doc) = 3) as Hmark by (destruct doc; auto).
  set (q1 := q + Zlen (comment_mark doc) - 1).
  set (lx1 := set_text (set_type (set_p (reset_token lx) q1) (lexeme_type (Comment doc l))) []).
  set (lx2 := set_text (set_p lx1 (q1 + 1)) (comment_text l)).
  destruct (Hend lx2 eq_refl Hind Hdelta) as (lx3 & Hnext & Hkeep & Hp3 & Hind3 & Hd3).
  assert (scan_hash garbage m (reset_token lx) = Ok (set_value (end_token_at lx3 (p lx3)) vt_string)) as Hscan.
  { rewrite (scan_hash_mark (reset_token lx) doc l (c :: d)); rewrite ?Hp; try done. fold q1.
    unfold get_comment_token. fold lx1. change (p lx1) with q1. cbn [iterate].
    rewrite (comment_step_spec lx1 l c d lx3); try done.
    - change (p lx1) with q1. lia.
    - change (p lx1) with q1. rewrite <- app_assoc in Hm. apply holds_app in Hm as [_ Hm].
      by replace (q1 + 1) with (q + Zlen (comment_mark doc)) by lia.
    - change (text_end lx1) with (text_end lx). change (p lx1) with q1. rewrite He. rewrite !Zlen_app. lia.
    - change (p lx1) with q1. fold lx2. rewrite <- Hnext, Zlen_app. f_equal. lia. }
  assert (exists l', ((comment_mark doc ++ l) ++ k) ++ r = "#"%ch :: l') as [l' El] by (by destruct doc; eexists).
  eexists. split; [|eapply (resting_scanned lx lx2 lx3 q ws text (Comment doc l) k r); try done].
  - rewrite El in Hrest. eapply advance_scanned; [exact Hrest|done|done|done|]. exact Hscan.
  - unfold lx2, lx1, set_type, set_t. cbn [t set_p set_text]. by rewrite Ht.
Qed.
End lexemes.

(** ** Programs *)

Definition lexeme_list : Type := list (lexeme * list Z).

Fixpoint program_text (prog : lexeme_list) : list Z :=
  match prog with
  | [] => []
  | (x, g) :: more => lexeme_text x ++ g ++ program_text more
  end.

(** Each lexeme is followed by something that does not continue it, no line by a
    continuation, and no indent is wider than 63 columns. *)
Fixpoint program_ok (prog : lexeme_list) : Prop :=
  match prog with
  | [] => True
  | (x, g) :: more =>
      lexeme_ok x /\ is_gap g /\ columns (last_line g) <= 63 /\
      lexeme_ends x (g ++ program_text more) /\ ~ continuation (program_text more) /\ program_ok more
  end.

#[export] Instance program_ok_dec prog : Decision (program_ok prog).
Proof. induction prog as [|[x g] more IH]; unfold continuation in *; simpl; unfold continuation; apply _. Defined.

(** The dedents for what is owed, and the widths that stay open. *)
Fixpoint dedent_tokens (q : Z) (ws : list Z) (delta : Z) (text : list Z) : list (token * list Z) :=
  match ws with
  | w :: ws' =>
      if delta <? 0 then (gap_token tt_dedent q, text) :: dedent_tokens q ws' (Z.min 0 (delta + w)) text
      else []
  | [] => []
  end.
Fixpoint dedented (ws : list Z) (delta : Z) : list Z :=
  match ws with
  | w :: ws' => if delta <? 0 then dedented ws' (Z.min 0 (delta + w)) else ws
  | [] => []
  end.
Definition owed (q : Z) (ws : list Z) (delta : Z) (text : list Z) : list (token * list Z) :=
  if delta =? 1 then [(gap_token tt_indent q, text)] else dedent_tokens q ws delta text.
Definition settled (ws : list Z) (delta : Z) : list Z := if delta =? 1 then ws else dedented ws delta.

(** The part of the gap that a token takes. *)
Definition taken (x : lexeme) (g : list Z) (last : bool) : Z :=
  if takes_gap x g then (if last then Zlen g - Zlen (last_line g) else Zlen g) else 0.

(** The tokens of a program from [q] on, with their texts, when the widths [ws] are open. *)
Fixpoint text_tokens (q : Z) (ws : list Z) (text : list Z) (prog : lexeme_list) : list (token * list Z) :=
  match prog with
  | [] => []
  | (x, g) :: more =>
      let q' := q + Zlen (lexeme_text x) + Zlen g in
      let text' := lexeme_string text x in
      (token_at x q (Zlen (lexeme_text x) + taken x g (bool_decide (more = []))), text') ::
      match more with
      | [] => if takes_gap x g then [] else owed q' ws (end_debt ws g) text'
      | _ =>
          let '(ws', delta) := gap_indent ws g in
          owed q' ws' delta text' ++ text_tokens q' (settled ws' delta) text' more
      end
  end.

(** The tokens of a whole text: the first line opens an indent too. *)
Definition program_tokens (b : Z) (g : list Z) (prog : lexeme_list) : list (token * list Z) :=
  let '(ws, delta) := indent_to [] (columns (last_line g)) in
  owed (b + Zlen g) ws delta [] ++ text_tokens (b + Zlen g) (settled ws delta) [] prog.

Section programs.
Context (garbage : Z) (pow : double -> double -> double) (m : mem).

(** The tokens of the calls of [advance] to come. *)
Fixpoint yields (lx : lexer) (toks : list (token * list Z)) : Prop :=
  match toks with
  | [] => exists lx', advance garbage pow m lx = Ok (false, lx')
  | (tok, text) :: toks' =>
      exists lx', advance garbage pow m lx = Ok (true, lx') /\ t lx' = tok /\ unwrapped_text lx' = text /\
        iterator_begin lx' = true /\ yields lx' toks'
  end.

Lemma yields_skipped lx lx' toks : skipped garbage pow m lx lx' -> yields lx' toks -> yields lx toks.
Proof.
  intros Hskip. destruct toks as [|[tok text] toks]; simpl; intros [lx2 H]; exists lx2; intuition auto.
Qed.

(** What a lexer may owe. *)
Definition payable (ws : list Z) (delta : Z) : Prop := delta = 1 \/ - width_sum ws <= delta <= 0.

Lemma indent_to_payable ws w : 0 <= w -> payable (indent_to ws w).1 (indent_to ws w).2.
Proof. intros Hw. unfold indent_to, payable. destruct (Z.ltb_spec (width_sum ws) w); simpl; lia. Qed.

Lemma dedents_yield l text q toks : forall ws delta lx,
  resting m lx q ws delta text l -> - width_sum ws <= delta <= 0 ->
  (forall lx', resting m lx' q (dedented ws delta) 0 text l -> yields lx' toks) ->
  yields lx (dedent_tokens q ws delta text ++ toks).
Proof.
  induction ws as [|w ws IH]; intros delta lx Hrest Hdelta Hnext; simpl in *.
  - apply Hnext. by replace delta with 0 in Hrest by lia.
  - pose proof (rest_indents _ _ _ _ _ _ _ Hrest) as (_ & Hpos & Hsum & _). simpl in Hsum.
    apply Forall_cons in Hpos as [Hw Hpos]. pose proof (width_sum_bounds ws Hpos). pose proof (Zlen_nonneg ws).
    destruct (Z.ltb_spec delta 0).
    + destruct (advance_dedent garbage pow m lx q w ws delta text l Hrest ltac:(lia)) as (lx' & Hadv & Ht & Hrest').
      exists lx'. split; [done|]. split; [done|]. split; [apply Hrest'|]. split; [apply Hrest'|].
      apply (IH _ lx' Hrest'); [lia|done].
    + apply Hnext. by replace delta with 0 in Hrest by lia.
Qed.

Lemma owed_yield l text q ws delta toks lx :
  resting m lx q ws delta text l -> payable ws delta ->
  (forall lx', resting m lx' q (settled ws delta) 0 text l -> yields lx' toks) ->
  yields lx (owed q ws delta text ++ toks).
Proof.
  intros Hrest Hpay Hnext. unfold owed, settled in *. destruct (Z.eqb_spec delta 1) as [->|Hne].
  - destruct (advance_indent garbage pow m lx q ws text l Hrest) as (lx' & Hadv & Ht & Hrest').
    exists lx'. split; [done|]. split; [done|]. split; [apply Hrest'|]. split; [apply Hrest'|]. by apply Hnext.
  - destruct Hpay as [|Hpay]; [done|]. by eapply dedents_yield.
Qed.

Lemma lexeme_solid x l : lexeme_ok x -> solid (lexeme_text x ++ l).
Proof.
  intros Hok.
  assert (forall d, is_ascii_digit d = true -> is_gap_char d = false /\ d <> 0) as Hdigit.
  { intros d Hd. unfold is_ascii_digit in Hd. unfold is_gap_char, is_blank, is_line_break. split; [ztest_in Hd; ztest|intros ->; discriminate]. }
  destruct x as [info|quote content|s d k|s d k frac|c k|doc k]; simpl in Hok |- *.
  - by apply operator_solid.
  - destruct Hok as [Hq _]. eexists _, _. split; [reflexivity|]. by destruct Hq as [-> |[-> | ->]].
  - destruct Hok as [[Hd _] _]. destruct s; eexists _, _; (split; [reflexivity|]); [by apply Hdigit|done|done].
  - destruct Hok as [[Hd _] _]. destruct s; eexists _, _; (split; [reflexivity|]); [by apply Hdigit|done|done].
  - destruct Hok as [Hc _]. eexists _, _. split; [reflexivity|]. unfold is_ascii_alpha in Hc.
    unfold is_gap_char, is_blank, is_line_break. split; [ztest_in Hc; ztest|intros ->; discriminate].
  - destruct doc; eexists _, _; (split; [reflexivity|done]).
Qed.

Lemma program_solid prog : program_ok prog -> prog <> [] -> solid (program_text prog).
Proof. destruct prog as [|[x g] more]; [done|]. intros (Hok & _) _. by apply lexeme_solid. Qed.

(** A lexeme that takes no gap. *)
Lemma advance_lexeme lx q ws text x g l :
  resting m lx q ws 0 text (lexeme_text x ++ g ++ l) -> lexeme_ok x -> lexeme_ends x (g ++ l) ->
  takes_gap x g = false -> l = [] \/ solid l ->
  exists lx', advance garbage pow m lx = Ok (true, lx') /\ t lx' = token_at x q (Zlen (lexeme_text x)) /\
    resting m lx' (q + Zlen (lexeme_text x)) ws 0 (lexeme_string text x) (g ++ l).
Proof.
  intros Hrest Hok Hends Htakes Hl.
  assert (match g ++ l with c :: _ => is_line_break c | [] => false end = false \/
          match x with Phrase _ _ | Comment _ _ => False | _ => True end) as Hstop.
  { destruct x; try (by right); left; (destruct g as [|? g]; simpl in *; [|done]);
      (destruct Hl as [-> |(? & l' & -> & Hc & _)]; [done|]); unfold is_gap_char in Hc; by apply orb_false_iff in Hc as [_ ?]. }
  destruct x as [info|quote content|s d k|s d k frac|c k|doc k].
  - by eapply advance_operator.
  - by eapply advance_literal.
  - by eapply advance_whole.
  - by eapply advance_fraction.
  - destruct Hstop as [Hstop|[]]. pose proof Hrest as Hrest'.
    cbn [lexeme_text] in Hrest. rewrite <- (app_nil_r (c :: k)) in Hrest at 1.
    destruct (advance_phrase garbage pow m lx q ws text c k [] (g ++ l) ws 0 Hrest Hok) as (lx' & Hadv & Ht & Hr).
    + intros lx2 _ Hp2 He2 Hind2 Hd2. exists lx2. rewrite app_nil_r. split; [|by split_and!].
      destruct Hrest' as [_ _ _ _ He Hm _ _ _]. rewrite <- app_assoc in Hm. apply holds_app in Hm as [_ Hm].
      rewrite Zlen_app in He. cbn [lexeme_text] in *.
      apply (phrase_step_stop garbage m lx2 (g ++ l)); [by rewrite Hp2|rewrite He2, Hp2; lia|exact Hends|done].
    + rewrite app_nil_r in *. by exists lx'.
  - destruct Hstop as [Hstop|[]]. simpl in Hends. destruct (g ++ l); [done|]. congruence.
Qed.

(** One that takes the gap, before another. *)
Lemma advance_taking lx q ws text x g l :
  resting m lx q ws 0 text (lexeme_text x ++ g ++ l) -> lexeme_ok x -> is_gap g -> columns (last_line g) <= 63 ->
  takes_gap x g = true -> solid l -> ~ continuation l ->
  exists lx', advance garbage pow m lx = Ok (true, lx') /\ t lx' = token_at x q (Zlen (lexeme_text x) + Zlen g) /\
    resting m lx' (q + Zlen (lexeme_text x) + Zlen g) (gap_indent ws g).1 (gap_indent ws g).2 (lexeme_string text x) l.
Proof.
  intros Hrest Hok Hg Hcols Htakes Hsolid Hcont. pose proof Hrest as [_ _ _ _ He Hm _ _ _].
  rewrite app_assoc in Hrest. rewrite <- app_assoc in Hm. apply holds_app in Hm as [_ Hm].
  rewrite !Zlen_app in He. rewrite <- Z.add_assoc, <- Zlen_app.
  assert (exists c g', g = c :: g' /\ is_line_break c = true) as (c & g' & -> & Hc)
    by (destruct x; try done; destruct g as [|y g']; try done; by exists y, g').
  pose proof Hg as [_ Hg']%Forall_cons.
  destruct x as [info|quote content|s d k|s d k frac|c0 k|doc k]; try done.
  - apply (advance_phrase garbage pow m lx q ws text c0 k (c :: g') l); try done.
    intros lx2 _ Hp2 He2 Hind2 Hd2. cbn [lexeme_text] in *.
    destruct (phrase_step_gap garbage m lx2 ws c g' l) as (lx3 & Hstep & Hkeep & Hp3 & Hind3 & Hd3);
      rewrite ?Hp2; try done; [rewrite He2; lia|].
    exists lx3. split_and!; try done. rewrite Hp3, Hp2, Zlen_app. lia.
  - cbn [lexeme_text] in *.
    apply (advance_comment garbage pow m lx q ws text doc k (c :: g') l c (g' ++ l)); try done.
    intros lx2 He2 Hind2 Hd2.
    rewrite (last_line_cons c g' Hc) in Hcols. cbn [app] in Hm. destruct Hm as [_ Hm].
    rewrite Zlen_cons in He.
    destruct (next_line_laid_out garbage m lx2 (q + Zlen (comment_mark doc ++ k) + 1) g' l ws Hm)
      as (lx3 & Hnext & Hkeep & Hp3 & Hind3 & Hd3); try done; [rewrite He2; lia|].
    exists lx3. unfold gap_indent. assert (has_break (c :: g') = true) as -> by apply (has_break_app [] c g' Hc).
    rewrite (last_line_cons c g' Hc). split_and!; try done. rewrite Hp3, (Zlen_app _ (c :: g')), Zlen_cons. lia.
Qed.

(** One that takes the gap at the end of the text. *)
Lemma advance_taking_end lx q ws text x g :
  resting m lx q ws 0 text (lexeme_text x ++ g) -> lexeme_ok x -> is_gap g -> takes_gap x g = true ->
  exists lx' q', advance garbage pow m lx = Ok (true, lx') /\
    t lx' = token_at x q (Zlen (lexeme_text x) + (Zlen g - Zlen (last_line g))) /\
    resting m lx' q' ws 0 (lexeme_string text x) (last_line g).
Proof.
  intros Hrest Hok Hg Htakes. pose proof Hrest as [_ _ _ _ He Hm _ _ _].
  destruct (last_line_suffix g) as [k Ek]. pose proof (f_equal Zlen Ek) as Elen. rewrite Zlen_app in Elen.
  rewrite <- app_assoc in Hm. apply holds_app in Hm as [_ Hm]. rewrite Zlen_app in He.
  rewrite Ek in Hrest. rewrite app_assoc in Hrest.
  replace (Zlen (lexeme_text x) + (Zlen g - Zlen (last_line g))) with (Zlen (lexeme_text x ++ k)) by (rewrite Zlen_app; lia).
  assert (exists c g', g = c :: g' /\ is_line_break c = true) as (c & g' & -> & Hc)
    by (destruct x; try done; destruct g as [|y g']; try done; by exists y, g').
  pose proof Hg as [_ Hg']%Forall_cons. pose proof (Zlen_nonneg (lexeme_text x)).
  destruct x as [info|quote content|s d j|s d j frac|c0 j|doc j]; try done; cbn [lexeme_text] in *.
  - edestruct (advance_phrase garbage pow m lx q ws text c0 j k (last_line (c :: g')) ws 0 Hrest Hok) as (lx' & ?);
      [|by eexists lx', _].
    intros lx2 _ Hp2 He2 Hind2 Hd2.
    destruct (phrase_step_gap_end garbage m lx2 ws c g') as (lx3 & Hstep & Hkeep & Hp3 & Hind3 & Hd3);
      rewrite ?Hp2; try done; [rewrite He2; lia|].
    exists lx3. split_and!; try done. rewrite Hp3, Hp2, Zlen_app. lia.
  - edestruct (advance_comment garbage pow m lx q ws text doc j k (last_line (c :: g')) c g' ws 0 Hrest Hok) as (lx' & ?);
      [by rewrite <- Ek|done| |by eexists lx', _].
    intros lx2 He2 Hind2 Hd2. cbn [app] in Hm. destruct Hm as [_ Hm]. rewrite Zlen_cons in He.
    destruct (next_line_end garbage m lx2 (q + Zlen (comment_mark doc ++ j) + 1) g' Hm)
      as (lx3 & Hnext & (Hkeep & Hd3 & Hind3) & Hp3); try done; [rewrite He2; lia|].
    exists lx3. split_and!; try done; [|by apply Hind3|congruence].
    rewrite (last_line_cons c g' Hc) in *. rewrite Hp3, (Zlen_app _ k). rewrite Zlen_cons in Elen. lia.
Qed.

Lemma last_line_blank g : is_gap g -> one_break (last_line g) = false /\ is_gap (last_line g).
Proof.
  intros Hg. destruct (gap_split g Hg) as (bl & g2 & -> & Hbl & _ & Hg2 & Hcase). revert bl Hg Hbl.
  assert (forall n g2 bl, (Datatypes.length g2 < n)%nat -> is_gap g2 -> Forall (fun c => is_blank c = true) bl ->
    (g2 = [] \/ exists c g3, g2 = c :: g3 /\ is_line_break c = true) ->
    Forall (fun c => is_blank c = true) (last_line (bl ++ g2))) as Hall.
  { clear. induction n as [|n IH]; intros g2 bl Hn Hg2 Hbl Hcase; [lia|].
    destruct Hcase as [-> |(c & g3 & -> & Hc)]; [rewrite app_nil_r; by rewrite last_line_blanks|].
    rewrite last_line_break by done. apply Forall_cons in Hg2 as [_ Hg3].
    destruct (gap_split g3 Hg3) as (bl' & g4 & -> & Hbl' & _ & Hg4 & Hcase').
    apply IH; try done. simpl in Hn. rewrite length_app in Hn. lia. }
  intros bl _ Hbl. pose proof (Hall _ g2 bl (Nat.lt_succ_diag_r _) Hg2 Hbl Hcase) as Hlast.
  split; [by apply one_break_blanks|]. eapply Forall_impl; [exact Hlast|].
  intros c Hc. unfold is_gap_char. by rewrite Hc.
Qed.

Lemma end_debt_payable ws g : payable ws (end_debt ws g) \/ width_sum ws < 0.
Proof. unfold payable, end_debt. destruct (one_break g); lia. Qed.

(** The end of the text. *)
Lemma end_yields lx q ws text g :
  resting m lx q ws 0 text g -> is_gap g -> yields lx (owed (q + Zlen g) ws (end_debt ws g) text).
Proof.
  intros Hrest Hg. destruct (advance_gap_end garbage pow m lx q ws text g Hrest Hg) as (lx' & Hskip & Hrest').
  eapply yields_skipped; [exact Hskip|]. rewrite <- (app_nil_r (owed _ _ _ _)).
  destruct (rest_indents _ _ _ _ _ _ _ Hrest) as (_ & Hpos & _). pose proof (width_sum_bounds ws Hpos).
  pose proof (Zlen_nonneg ws). eapply owed_yield; [exact Hrest'|destruct (end_debt_payable ws g); [done|lia]|].
  intros lx2 Hrest2. simpl. by eapply advance_at_end.
Qed.

Lemma program_yields prog : forall lx q ws text,
  program_ok prog -> prog <> [] -> resting m lx q ws 0 text (program_text prog) ->
  yields lx (text_tokens q ws text prog).
Proof.
  induction prog as [|[x g] more IH]; intros lx q ws text Hok Hne Hrest; [done|]. cbn [text_tokens program_text] in *.
  destruct Hok as (Hx & Hg & Hcols & Hends & Hcont & Hmore). unfold taken.
  destruct more as [|y more].
  - rewrite bool_decide_true by done. cbn [program_text] in *. rewrite app_nil_r in *.
    destruct (takes_gap x g) eqn:Htakes.
    + destruct (advance_taking_end lx q ws text x g Hrest Hx Hg Htakes) as (lx' & q' & Hadv & Ht & Hrest').
      exists lx'. split; [done|]. split; [done|]. split; [apply Hrest'|]. split; [apply Hrest'|].
      destruct (last_line_blank g Hg) as [Hone Hlast].
      pose proof (end_yields lx' _ _ _ _ Hrest' Hlast) as Hy. unfold end_debt in Hy. rewrite Hone in Hy.
      unfold owed in Hy. simpl in Hy. by destruct ws.
    + rewrite <- (app_nil_r g) in Hrest, Hends.
      destruct (advance_lexeme lx q ws text x g [] Hrest Hx Hends Htakes) as (lx' & Hadv & Ht & Hrest'); [by left|].
      exists lx'. split; [done|]. rewrite Z.add_0_r. split; [done|]. split; [apply Hrest'|]. split; [apply Hrest'|].
      rewrite app_nil_r in Hrest'. by apply end_yields.
  - rewrite bool_decide_false by done.
    set (prog := y :: more) in *. assert (prog <> []) as Hprog by done.
    pose proof (program_solid prog Hmore Hprog) as Hsolid.
    pose proof (columns_nonneg (last_line g)) as Hcol.
    assert (payable (gap_indent ws g).1 (gap_indent ws g).2) as Hpay.
    { unfold gap_indent. destruct (has_break g); [by apply indent_to_payable|]. right. simpl.
      destruct (rest_indents _ _ _ _ _ _ _ Hrest) as (_ & Hpos & _). pose proof (width_sum_bounds ws Hpos).
      pose proof (Zlen_nonneg ws). lia. }
    destruct (gap_indent ws g) as [ws' delta] eqn:Egap. cbn [fst snd] in Hpay.
    destruct (takes_gap x g) eqn:Htakes.
    + destruct (advance_taking lx q ws text x g (program_text prog)) as (lx' & Hadv & Ht & Hrest'); try done.
      exists lx'. split; [done|]. split; [done|]. split; [apply Hrest'|]. split; [apply Hrest'|]. rewrite Egap in Hrest'.
      eapply owed_yield; [exact Hrest'|done|]. intros lx2 Hrest2. by apply IH.
    + destruct (advance_lexeme lx q ws text x g (program_text prog) Hrest Hx Hends Htakes)
        as (lx' & Hadv & Ht & Hrest'); [by right|].
      exists lx'. split; [done|]. rewrite Z.add_0_r. split; [done|]. split; [apply Hrest'|]. split; [apply Hrest'|].
      destruct (advance_gap garbage pow m lx' _ ws _ g (program_text prog) Hrest' Hg Hsolid Hcols)
        as (lx2 & Hskip & Hrest2). rewrite Egap in Hrest2.
      eapply yields_skipped; [exact Hskip|]. eapply owed_yield; [exact Hrest2|done|].
      intros lx3 Hrest3. by apply IH.
Qed.

(** ** From the beginning to the end *)

(** The lexer before its first [advance]. *)
Lemma lexer_init_spec b g l toks :
  0 < b -> is_gap g -> columns (last_line g) <= 63 -> solid l -> holds m b ((g ++ l) ++ [0]) ->
  (forall lx0, resting m lx0 (b + Zlen g) (indent_to [] (columns (last_line g))).1
                 (indent_to [] (columns (last_line g))).2 [] l -> yields lx0 toks) ->
  exists lx0 lx r, lexer_init garbage pow m (view_of_length b (Zlen (g ++ l))) = Ok lx /\
    advance garbage pow m lx0 = Ok (r, lx) /\ yields lx0 toks.
Proof.
  intros Hb Hg Hcols Hsolid Hm Hnext. unfold lexer_init. cbn [p begin view_of_length].
  zfalse (b =? 0). cbn [negb]. unfold view_of_length.
  match goal with |- context [scan_beginning_of_line garbage m ?l0] => set (lx1 := l0) end.
  pose proof (Zlen_nonneg g). pose proof (Zlen_nonneg l).
  destruct (scan_beginning_of_line_spec garbage m [] (span_fuel (p lx1) (text_end lx1)) g lx1 l)
    as (lx2 & Hscan & _ & (Ht & Hu & Hp & Htxt) & Hind & Hd); try done.
  - change (text_end lx1) with (b + Zlen (g ++ l)). change (p lx1) with b.
    rewrite Zlen_app. unfold span_fuel, Zlen in *. lia.
  - by apply holds_app in Hm as [? _].
  - change (text_end lx1) with (b + Zlen (g ++ l)). change (p lx1) with b. rewrite Zlen_app. lia.
  - split_and!; try done. by right.
  - unfold scan_beginning_of_line. rewrite Hscan. cbn [bind]. change (p lx1) with b.
    set (lx0 := end_token_at lx2 (b + Zlen g)).
    assert (resting m lx0 (b + Zlen g) (indent_to [] (columns (last_line g))).1
              (indent_to [] (columns (last_line g))).2 [] l) as Hrest.
    { assert (t lx0 = {| t_type := tt_none; substr := view_of_length b (Zlen g); t_value := vt_empty |}) as Ht0.
      { unfold lx0, end_token_at, set_substr, set_t. cbn [t]. rewrite Ht. cbn [t set_substr set_t lx1 substr t_type t_value].
        unfold end_at. cbn [begin]. zfalse (b =? 0). cbn [negb]. ztrue (b <=? b + Zlen g).
        unfold view_of_length. do 2 f_equal. lia. }
      split; rewrite ?Ht0; try done; try (simpl; lia).
      - unfold text_end, lx0. simpl. rewrite Htxt. unfold view_end. simpl. rewrite Zlen_app. lia.
      - rewrite <- app_assoc in Hm. by apply holds_app in Hm as [_ Hm].
      - unfold iterator_begin, lx0. simpl. rewrite Htxt. unfold view_bool, is_empty. simpl. rewrite Zlen_app.
        destruct Hsolid as (c & l' & -> & _). rewrite Zlen_cons. pose proof (Zlen_nonneg l').
        by zfalse (Zlen g + (1 + Zlen l') =? 0). }
    specialize (Hnext lx0 Hrest).
    assert (exists r lx, advance garbage pow m lx0 = Ok (r, lx)) as (r & lx & Hadv).
    { destruct toks as [|[tok text] toks]; simpl in Hnext; [|]; destruct Hnext as [lx Hadv]; [by eexists _, _|].
      destruct Hadv as [Hadv _]. by eexists _, _. }
    exists lx0, lx, r. rewrite Hadv. by split_and!.
Qed.

(** Walking the iterator: the current token, then those to come. *)
Lemma walk_yields toks : forall lx acc fuel,
  yields lx toks -> (Datatypes.length toks < fuel)%nat ->
  iterate fuel (fun '(lx, toks) =>
      let toks := toks ++ [(deref lx, unwrapped_text lx)] in
      let! (more, lx) := iterator_next garbage pow m lx in
      Ok (if more : bool then inl (lx, toks) else inr toks)) (lx, acc) =
    Ok (acc ++ (deref lx, unwrapped_text lx) :: toks).
Proof.
  induction toks as [|[tok text] toks IH]; intros lx acc fuel Hy Hf; (destruct fuel as [|fuel]; [simpl in Hf; lia|]);
    cbn [iterate]; unfold iterator_next at 1.
  - destruct Hy as [lx' ->]. done.
  - destruct Hy as (lx' & -> & Ht & Hu & _ & Hy). cbn [bind]. rewrite IH by (done || (simpl in Hf; lia)).
    rewrite <- app_assoc. cbn [app]. unfold deref at 2. by rewrite Ht, Hu.
Qed.

Lemma program_tokens_cons b g prog : prog <> [] -> exists tk toks, program_tokens b g prog = tk :: toks.
Proof.
  intros Hne. unfold program_tokens. destruct (indent_to [] _) as [ws delta].
  destruct (owed (b + Zlen g) ws delta []) as [|tk toks]; simpl; [|by eexists _, _].
  destruct prog as [|[x g'] more]; [done|]. simpl. by eexists _, _.
Qed.

Lemma lex_program b g prog fuel :
  0 < b -> is_gap g -> columns (last_line g) <= 63 -> program_ok prog -> prog <> [] ->
  holds m b ((g ++ program_text prog) ++ [0]) ->
  (Datatypes.length (program_tokens b g prog) <= fuel)%nat ->
  lex garbage pow fuel m (view_of_length b (Zlen (g ++ program_text prog))) = Ok (program_tokens b g prog).
Proof.
  intros Hb Hg Hcols Hok Hne Hm Hf.
  destruct (lexer_init_spec b g (program_text prog) (program_tokens b g prog)) as (lx0 & lx & r & Hinit & Hadv & Hy);
    try done; [by apply program_solid| |].
  - intros lx0 Hrest. unfold program_tokens. destruct (indent_to [] _) as [ws delta] eqn:E. cbn [fst snd] in *.
    eapply owed_yield; [exact Hrest| |intros lx1 Hrest1; by apply program_yields].
    pose proof (indent_to_payable [] (columns (last_line g)) (columns_nonneg _)) as Hpay. by rewrite E in Hpay.
  - unfold lex. rewrite Hinit. cbn [bind].
    destruct (program_tokens_cons b g prog Hne) as ([tok text] & toks & Etoks). rewrite Etoks in *.
    destruct Hy as (lx' & Hadv' & Ht & Hu & Hbegun & Hy). rewrite Hadv in Hadv'. injection Hadv' as -> ->.
    rewrite Hbegun. rewrite (walk_yields toks) by (done || (simpl in Hf; lia)).
    unfold deref. by rewrite Ht, Hu.
Qed.
End programs.

(** * Properties *)

(** C1: the lexer refines the abstract lexer of programs.  On the text of any program, whatever its
    operators, quoted literals, numbers, phrases and comments, its blanks and line
    breaks and its lines indented by at most 63 columns, provided each lexeme is
    followed by something that does not continue it, walking the lexer from begin to
    end returns exactly the tokens of the program: each lexeme as one token with its
    type, place, value and text, an indent for each line deeper than the open indents,
    and the dedents that the widths on the stack call for. *)
Theorem lexer_refines_layout garbage pow m b g prog fuel :
  0 < b -> is_gap g -> columns (last_line g) <= 63 -> program_ok prog -> prog <> [] ->
  holds m b ((g ++ program_text prog) ++ [0]) -> (Datatypes.length (program_tokens b g prog) <= fuel)%nat ->
  lex garbage pow fuel m (view_of_length b (Zlen (g ++ program_text prog))) = Ok (program_tokens b g prog).
Proof. apply lex_program. Qed.

(** A program of four lines: a block of two indented lines, and a line that ends it. *)
Definition sample : lexeme_list :=
  let op ty := default (Build_operator_info 0 0 oa_left_to_right) (find (fun i => op_number i =? ty) op_infos) in
  [ (Phrase "R"%ch (str "un"), []); (Operator (op tt_operator_colon), [LF; " "%ch; " "%ch]);
    (Phrase "x"%ch (str " "), []); (Operator (op tt_operator_lshift_equals), [" "%ch]);
    (Whole Minus "1"%ch (str "20"), [CR; LF; LF; " "%ch; " "%ch]);
    (Comment false (str " note "), [LF]);
    (Literal "'"%ch (str "a b"), [TAB]); (Operator (op tt_operator_comma), [LF]) ].

Lemma lexer_refines_layout_witness :
  lex 7 (fun _ x => x) 20 (map_seqZ 16 (([] ++ program_text sample) ++ [0]))
    (view_of_length 16 (Zlen ([] ++ program_text sample))) = Ok (program_tokens 16 [] sample).
Proof.
  apply (lexer_refines_layout 7 (fun _ x => x) (map_seqZ 16 (([] ++ program_text sample) ++ [0])) 16 [] sample 20).
  - reflexivity.
  - constructor.
  - discriminate.
  - decided.
  - discriminate.
  - apply holds_map_seqZ.
  - vm_compute. lia.
Defined.

(** The end of the text closes the open blocks only after a token that takes no gap,
    and only when it is a single line break: here it is one after a phrase. *)
Example block_not_closed :
  let op := Build_operator_info tt_operator_colon 15 oa_right_to_left in
  let prog := [(Phrase "x"%ch [], []); (Operator op, [LF; " "%ch]); (Phrase "y"%ch [], [LF])] in
  program_text prog = str "x:" ++ [LF] ++ str " y" ++ [LF] /\
  map (fun tok => t_type tok.1) (program_tokens 16 [] prog) = [tt_noun; tt_operator_colon; tt_indent; tt_noun].
Proof. by vm_compute. Qed.
