(* ===== verification/Ast.v ===== *)
(** * The nodes of the abstract syntax tree: lang/ast/node*.h, node.cpp, node_type.h and token_node.h

    Nodes live in a [heap] of addresses, null being 0.  What [realloc] can
    provide is an argument, [realloc_ok]. *)

From stdpp Require Import base tactics list gmap strings.
From Stdlib Require Import ZArith Lia.
From S2P Require Import Prelude StrView Tokens Lexer.
#[local] Open Scope Z_scope.

(** ** Node types *)

Definition non_token_mask : Z := 0x10000.
Definition nt_conditional : Z := Z.lor non_token_mask 1.
Definition nt_statement : Z := Z.lor non_token_mask 2.
Definition nt_block : Z := Z.lor non_token_mask 3.
Definition nt_operator (number : Z) : Z := Z.lor 0x8000 number.

Definition node_type_is_token (n : Z) : bool := Z.lor n non_token_mask =? 0.

(** Whatever the type is, the answer is no: the mask is or-ed. *)
Lemma node_type_is_token_false n : node_type_is_token n = false.
Proof.
  unfold node_type_is_token. apply Z.eqb_neq. intros H.
  apply Z.lor_eq_0_iff in H as [_ H]. discriminate.
Qed.

(** ** Nodes *)

(** [children]: [None] is nullptr, otherwise the slots of the block, [None] in a
    slot that was never written.  [content]: the token of a [token_node]. *)
Record node : Type := {
  parent : Z;
  children : option (list (option Z));
  child_count : Z;
  allocated_child_count : Z;
  content : option token;
}.

Abbreviation heap := (gmap Z node).

Definition get_node (h : heap) (a : Z) : res node :=
  match h !! a with Some n => Ok n | None => Undef end.

Definition node_init (par : Z) : node :=
  {| parent := par; children := None; child_count := 0; allocated_child_count := 0; content := None |}.
Definition token_node_init (par : Z) (t : token) : node :=
  {| parent := par; children := None; child_count := 0; allocated_child_count := 0; content := Some t |}.

Definition set_parent_field (n : node) (par : Z) : node :=
  {| parent := par; children := children n; child_count := child_count n;
     allocated_child_count := allocated_child_count n; content := content n |}.

Definition get_type (n : node) : Z := match content n with Some t => t_type t | None => 0 end.
(** [is_token] is not virtual: the static type of the node decides. *)
Definition node_is_token (n : node) : bool := false.
Definition token_node_is_token (n : node) : bool := true.

Definition get_parent (h : heap) (this : Z) : res Z := let! n := get_node h this in Ok (parent n).
Definition get_child_count (h : heap) (this : Z) : res Z := let! n := get_node h this in Ok (child_count n).

Definition slot (n : node) (i : Z) : res Z :=
  match children n with
  | Some slots => match slots !! Z.to_nat i with Some (Some c) => Ok c | _ => Undef end
  | None => Undef
  end.
Definition get_child (h : heap) (this i : Z) : res Z :=
  let! n := get_node h this in
  if i <? child_count n then slot n i else Ok 0.

(** ** add_child *)

(** A full block is grown to 4 slots, then to twice as many in 32 bits.  A
    request of 0 bytes frees the block and leaves [children] dangling. *)
Definition grow (realloc_ok : Z -> bool) (n : node) : res node :=
  let new_count := if allocated_child_count n =? 0 then 4 else u32 (allocated_child_count n * 2) in
  if new_count =? 0 then Undef
  else if realloc_ok (new_count * 8) then
    Ok {| parent := parent n; children := Some (resize (Z.to_nat new_count) None (default [] (children n)));
          child_count := child_count n; allocated_child_count := new_count; content := content n |}
  else Throw bad_alloc.

Definition put_child (n : node) (child : Z) : res node :=
  match children n with
  | Some slots =>
      if child_count n <? Zlen slots then
        Ok {| parent := parent n; children := Some (<[Z.to_nat (child_count n) := Some child]> slots);
              child_count := u32 (child_count n + 1); allocated_child_count := allocated_child_count n;
              content := content n |}
      else Undef
  | None => Undef
  end.

Definition add_child (realloc_ok : Z -> bool) (h : heap) (this child : Z) : res heap :=
  if child =? 0 then Ok h
  else
    let! n := get_node h this in
    let! n := if child_count n =? allocated_child_count n then grow realloc_ok n else Ok n in
    let! n := put_child n child in
    let h := <[this := n]> h in
    let! c := get_node h child in
    Ok (<[child := set_parent_field c this]> h).

(** ** Destruction *)

Section each.
Context {S A : Type} (f : S -> A -> res S).
Fixpoint each (s : S) (l : list A) : res S :=
  match l with [] => Ok s | a :: l => let! s := f s a in each s l end.
End each.

(** [delete] on a child: nothing for nullptr; a slot never written has no
    value. *)
Definition delete_slot (del : heap -> Z -> res heap) (h : heap) (c : option Z) : res heap :=
  match c with Some c => if c =? 0 then Ok h else del h c | None => Undef end.

Fixpoint node_delete (depth : nat) (h : heap) (this : Z) : res heap :=
  match depth with
  | O => Spin
  | S depth =>
      let! n := get_node h this in
      let! h :=
        match children n with
        | Some slots =>
            if child_count n <=? Zlen slots
            then each (delete_slot (node_delete depth)) h (take (Z.to_nat (child_count n)) slots)
            else Undef
        | None => Ok h
        end in
      Ok (delete this h)
  end.

(** The recursion is no deeper than there are nodes. *)
Definition delete_node (h : heap) (this : Z) : res heap := node_delete (S (size h)) h this.

(** ** Ancestors *)

Definition in_any_generation : Z := 2 ^ 32 - 1.

Definition root_step (h : heap) (p : Z) : res (Z + Z) :=
  let! n := get_node h p in
  Ok (if parent n =? 0 then inr p else inl (parent n)).
Definition get_root (h : heap) (this : Z) : res Z := iterate (S (size h)) (root_step h) this.

Definition ancestor_step (h : heap) (candidate within_n : Z) (st : Z * Z) : res (Z * Z + Z) :=
  let '(i, which) := st in
  if i <? within_n then
    let! n := get_node h which in
    let which := parent n in
    Ok (if which =? candidate then inr i else if which =? 0 then inr 0 else inl (i + 1, which))
  else Ok (inr 0).
Definition has_ancestor (h : heap) (this candidate within_n : Z) : res Z :=
  if negb (candidate =? 0) && negb (candidate =? this)
  then iterate (S (S (size h))) (ancestor_step h candidate within_n) (1, this)
  else Ok 0.
Definition has_descendant (h : heap) (this candidate within_n : Z) : res Z :=
  if negb (candidate =? 0) then has_ancestor h candidate this in_any_generation else Ok 0.

(** * Specification

    A tree of nodes, and what it means for a heap to hold it. *)

Inductive tree : Type := Tree (a : Z) (below : list tree).

Definition root (t : tree) : Z := match t with Tree a _ => a end.
Fixpoint addresses (t : tree) : list Z :=
  match t with Tree a ts => a :: concat (map addresses ts) end.

(** [graft x t' t]: [t] with [t'] as the last child of the node [x]. *)
Fixpoint graft (x : Z) (t' t : tree) : tree :=
  match t with
  | Tree a ts => Tree a (map (graft x t') ts ++ if a =? x then [t'] else [])
  end.

Section tree_induction.
Variables (P : tree -> Prop) (Htree : forall a ts, Forall P ts -> P (Tree a ts)).
Fixpoint tree_ind' (t : tree) : P t :=
  match t with
  | Tree a ts =>
      Htree a ts ((fix go l : Forall P l :=
        match l with [] => Forall_nil_2 P | t :: l => Forall_cons_2 P t l (tree_ind' t) (go l) end) ts)
  end.
End tree_induction.

(** The fields of a node with the children [cs]: its block is none or has the
    recorded size, a power of 2 from 4 on, and holds the children in front. *)
Definition has_children (n : node) (cs : list Z) : Prop :=
  child_count n = Zlen cs /\ Forall (fun c => c <> 0) cs /\
  match children n with
  | None => cs = [] /\ allocated_child_count n = 0
  | Some slots =>
      exists junk k, slots = (Some <$> cs) ++ junk /\ allocated_child_count n = Zlen slots /\
        Zlen slots = 2 ^ (k + 2) /\ 0 <= k <= 29
  end.

Inductive holds_tree (h : heap) : Z -> tree -> Prop :=
| holds_Tree p a n ts :
    h !! a = Some n -> parent n = p -> a <> 0 -> has_children n (map root ts) ->
    Forall (holds_tree h a) ts -> holds_tree h p (Tree a ts).

(** ** Lemmas on trees *)

Lemma addresses_root t : root t ∈ addresses t.
Proof. destruct t. simpl. by left. Qed.

Lemma in_concat_addresses x ts : x ∈ concat (map addresses ts) <-> exists t, t ∈ ts /\ x ∈ addresses t.
Proof.
  rewrite list_elem_of_In, in_concat. split.
  - intros (l & Hl & Hx). apply in_map_iff in Hl as (t & <- & Ht). exists t. by rewrite !list_elem_of_In.
  - intros (t & Ht & Hx). exists (addresses t). rewrite <-!list_elem_of_In. split; [|done].
    rewrite list_elem_of_In. apply in_map. by apply list_elem_of_In.
Qed.

Lemma elem_of_below x a ts : x ∈ addresses (Tree a ts) <-> x = a \/ exists t, t ∈ ts /\ x ∈ addresses t.
Proof. simpl. by rewrite elem_of_cons, in_concat_addresses. Qed.

Lemma NoDup_below a ts : NoDup (addresses (Tree a ts)) ->
  Forall (fun t => NoDup (addresses t)) ts /\ a ∉ concat (map addresses ts).
Proof.
  simpl. intros [Ha Hn]%NoDup_cons. split; [|done]. clear Ha.
  induction ts as [|t ts IH]; simpl in *; [constructor|]. apply NoDup_app in Hn as (Ht & _ & Hts).
  constructor; [done|by apply IH].
Qed.

Lemma graft_root x t' t : root (graft x t' t) = root t.
Proof. by destruct t. Qed.

Lemma map_root_graft x t' ts : map root (map (graft x t') ts) = map root ts.
Proof. rewrite map_map. apply map_ext. intros. apply graft_root. Qed.

Lemma map_id_Forall {A} (f : A -> A) l : Forall (fun a => f a = a) l -> map f l = l.
Proof. induction 1 as [|a l Ha _ IH]; [done|]. simpl. by rewrite Ha, IH. Qed.

Lemma graft_not_in x t' t : x ∉ addresses t -> graft x t' t = t.
Proof.
  induction t as [a ts IH] using tree_ind'. intros Hx. simpl.
  assert (x <> a /\ forall t, t ∈ ts -> x ∉ addresses t) as [Ha Hts].
  { split; [intros ->; apply Hx; simpl; by left|].
    intros t Ht Hin. apply Hx, elem_of_below. right. by exists t. }
  zfalse (a =? x). rewrite app_nil_r. f_equal. apply map_id_Forall.
  rewrite Forall_forall in *. intros t Ht. apply IH; [done|by apply Hts].
Qed.

(** A heap holds the trees whose nodes it agrees on. *)
Lemma holds_tree_frame h h' t : forall p,
  holds_tree h p t -> (forall x, x ∈ addresses t -> h' !! x = h !! x) -> holds_tree h' p t.
Proof.
  induction t as [a ts IH] using tree_ind'. intros p Ht Heq.
  inversion Ht as [p' a' n ts' Hn Hp Ha Hc Hts]; subst. econstructor; [|done..|].
  - rewrite Heq; [done|]. simpl. by left.
  - rewrite Forall_forall in *. intros t Hin. apply IH; [done|by apply Hts|].
    intros x Hx. apply Heq, elem_of_below. right. by exists t.
Qed.

(** The same tree under another parent. *)
Lemma holds_tree_reparent h p q a ts n :
  holds_tree h p (Tree a ts) -> NoDup (addresses (Tree a ts)) -> h !! a = Some n ->
  holds_tree (<[a := set_parent_field n q]> h) q (Tree a ts).
Proof.
  intros Ht Hnd Hn. inversion Ht as [p' a' n' ts' Hn' Hp Ha Hc Hts]; subst. simplify_eq.
  apply NoDup_below in Hnd as [_ Hna]. econstructor; [by apply lookup_insert_eq|done|done| |].
  - exact Hc.
  - rewrite Forall_forall in *. intros t Hin. eapply holds_tree_frame; [by apply Hts|].
    intros x Hx. apply lookup_insert_ne. intros ->. apply Hna, in_concat_addresses. by exists t.
Qed.

Lemma holds_tree_alive h p t x : holds_tree h p t -> x ∈ addresses t -> exists n, h !! x = Some n /\ x <> 0.
Proof.
  revert p. induction t as [a ts IH] using tree_ind'. intros p Ht Hx.
  inversion Ht as [p' a' n ts' Hn Hp Ha Hc Hts]; subst.
  apply elem_of_below in Hx as [->|(t & Hin & Hx)]; [by exists n|].
  rewrite Forall_forall in *. eapply IH; eauto.
Qed.

(** There are no more addresses in a tree than nodes in the heap. *)
Lemma holds_tree_size h p t : holds_tree h p t -> NoDup (addresses t) -> (Datatypes.length (addresses t) <= size h)%nat.
Proof.
  intros Ht Hnd. rewrite <-size_dom, <-(size_list_to_set (C := gset Z) (addresses t)) by done.
  apply subseteq_size. intros x Hx. apply elem_of_list_to_set in Hx.
  destruct (holds_tree_alive h p t x Ht Hx) as (n & Hn & _). by eapply elem_of_dom_2.
Qed.

(** ** add_child *)

Lemma has_children_inj n cs cs' : has_children n cs -> has_children n cs' -> cs = cs'.
Proof.
  intros (Hc & _ & Hs) (Hc' & _ & Hs'). destruct (children n) as [slots|].
  - destruct Hs as (junk & _ & -> & _), Hs' as (junk' & _ & Heq & _).
    apply app_inj_1 in Heq as [Heq _]; [by apply (inj (fmap Some)) in Heq|].
    rewrite !length_fmap. unfold Zlen in *. lia.
  - by destruct Hs as [-> _], Hs' as [-> _].
Qed.

Lemma grow_has_children realloc_ok n cs :
  has_children n cs -> Zlen cs < 2 ^ 31 -> child_count n = allocated_child_count n ->
  match grow realloc_ok n with
  | Ok n' => parent n' = parent n /\ has_children n' cs /\ child_count n' < allocated_child_count n'
  | Throw bad_alloc => exists bytes, realloc_ok bytes = false
  | _ => False
  end.
Proof.
  intros (Hc & Hnz & Hslots) Hlen Hfull. unfold grow. pose proof (Zlen_nonneg cs) as Hnn.
  assert (exists k, 0 <= k <= 29 /\
    (if allocated_child_count n =? 0 then 4 else u32 (allocated_child_count n * 2)) = 2 ^ (k + 2) /\
    child_count n < 2 ^ (k + 2)) as (k & Hk & -> & Hlt).
  { destruct (children n) as [slots|].
    - destruct Hslots as (junk & k & _ & Ha & Hp & Hk). exists (k + 1).
      assert (0 < 2 ^ (k + 2)) by (apply Z.pow_pos_nonneg; lia).
      assert (2 ^ (k + 1 + 2) = 2 * 2 ^ (k + 2)) as Hd by (rewrite <-Z.pow_succ_r by lia; f_equal; lia).
      assert (k + 1 <= 29) as Hk'.
      { apply Z.nlt_ge. intros Hk'. assert (k = 29) as -> by lia. change (2 ^ (29 + 2)) with (2 ^ 31) in Hp. lia. }
      assert (2 ^ (k + 1 + 2) <= 2 ^ 31) by (apply Z.pow_le_mono_r; lia).
      zfalse (allocated_child_count n =? 0). rewrite u32_small by lia. split_and!; lia.
    - destruct Hslots as [-> ->]. exists 0. split_and!; [lia..|done|]. rewrite Hc. done. }
  assert (0 < 2 ^ (k + 2)) by (apply Z.pow_pos_nonneg; lia). zfalse (2 ^ (k + 2) =? 0).
  destruct (realloc_ok (2 ^ (k + 2) * 8)) eqn:Er; [|by exists (2 ^ (k + 2) * 8)].
  split; [done|]. split; [|simpl; lia]. split; [done|]. split; [done|]. simpl.
  set (slots := default [] (children n)).
  assert (exists junk, slots = (Some <$> cs) ++ junk) as [junk Hj].
  { unfold slots. destruct (children n) as [s|]; [destruct Hslots as (junk & ? & -> & _); by exists junk|].
    destruct Hslots as [-> _]. by exists []. }
  assert (Datatypes.length (Some <$> cs) <= Z.to_nat (2 ^ (k + 2)))%nat as Hle by (rewrite length_fmap; unfold Zlen in *; lia).
  exists (resize (Z.to_nat (2 ^ (k + 2)) - Datatypes.length (Some <$> cs)) None junk), k. rewrite Hj.
  rewrite resize_app_ge by done. split; [done|].
  assert (Zlen ((Some <$> cs) ++ resize (Z.to_nat (2 ^ (k + 2)) - Datatypes.length (Some <$> cs)) None junk) = 2 ^ (k + 2)) as ->.
  { unfold Zlen. rewrite length_app, length_resize. lia. }
  done.
Qed.

Lemma put_child_has_children n cs c :
  has_children n cs -> child_count n < allocated_child_count n -> c <> 0 ->
  exists n', put_child n c = Ok n' /\ parent n' = parent n /\ has_children n' (cs ++ [c]) /\ content n' = content n.
Proof.
  intros (Hc & Hnz & Hslots) Hlt Hcz. unfold put_child. pose proof (Zlen_nonneg cs).
  destruct (children n) as [slots|] eqn:E; [|destruct Hslots as [-> Ha]; change (Zlen []) with 0 in *; lia].
  destruct Hslots as (junk & k & Hs & Ha & Hp & Hk). ztrue (child_count n <? Zlen slots).
  eexists. split; [done|]. split; [done|]. split; [|done].
  assert (2 ^ (k + 2) <= 2 ^ 31) by (apply Z.pow_le_mono_r; lia). unfold has_children. simpl.
  rewrite u32_small by lia. rewrite Zlen_app, Zlen_cons. change (Zlen []) with 0. split; [lia|].
  split; [apply Forall_app; split; [done|by repeat constructor]|].
  destruct junk as [|j junk].
  { rewrite app_nil_r in Hs. subst slots. unfold Zlen in *. rewrite length_fmap in *. lia. }
  exists junk, k. rewrite Zlen_insert, Ha. split; [|done]. subst slots.
  rewrite insert_app_r_alt; rewrite length_fmap; [|unfold Zlen in *; lia].
  replace (Z.to_nat (child_count n) - Datatypes.length cs)%nat with 0%nat by (unfold Zlen in *; lia).
  rewrite fmap_app, <-app_assoc. done.
Qed.

(** What [add_child] writes: the parent's node, then the child's. *)
Lemma add_child_cases realloc_ok h this child n c cs :
  h !! this = Some n -> has_children n cs -> Zlen cs < 2 ^ 31 ->
  child <> 0 -> child <> this -> h !! child = Some c ->
  match add_child realloc_ok h this child with
  | Ok h' => exists n', h' = <[child := set_parent_field c this]> (<[this := n']> h) /\
      parent n' = parent n /\ has_children n' (cs ++ [child])
  | Throw bad_alloc => exists bytes, realloc_ok bytes = false
  | _ => False
  end.
Proof.
  intros Hn Hcs Hlen Hz Hne Hc. unfold add_child. zfalse (child =? 0). unfold get_node at 1. rewrite Hn. cbn [bind].
  assert (forall n1, parent n1 = parent n -> has_children n1 cs -> child_count n1 < allocated_child_count n1 ->
    exists h', (let! n0 := put_child n1 child in
                let! c0 := get_node (<[this := n0]> h) child in
                Ok (<[child := set_parent_field c0 this]> (<[this := n0]> h))) = Ok h' /\
    exists n', h' = <[child := set_parent_field c this]> (<[this := n']> h) /\
      parent n' = parent n /\ has_children n' (cs ++ [child])) as Hput.
  { intros n1 Hp1 Hc1 Hlt. destruct (put_child_has_children n1 cs child) as (n' & -> & Hp' & Hc' & _); [done..|].
    cbn [bind]. unfold get_node. rewrite lookup_insert_ne, Hc by done. cbn [bind].
    eexists. split; [done|]. exists n'. split; [done|]. split; [congruence|done]. }
  destruct (Z.eqb_spec (child_count n) (allocated_child_count n)) as [He|He].
  - pose proof (grow_has_children realloc_ok n cs Hcs Hlen He) as Hg.
    destruct (grow realloc_ok n) as [n1|[]| |]; cbn [bind]; try done.
    destruct Hg as (Hp1 & Hc1 & Hlt). destruct (Hput n1) as (h' & -> & Hh'); done.
  - cbn [bind]. destruct (Hput n) as (h' & -> & Hh'); [done..| |done].
    destruct Hcs as (Hcn & _ & Hs). destruct (children n) as [slots|]; [|destruct Hs as [-> Ha]; change (Zlen []) with 0 in *; lia].
    destruct Hs as (junk & k & -> & Ha & _). unfold Zlen in *. rewrite length_app, length_fmap in Ha. lia.
Qed.

(** The heap after [add_child], seen from a tree that contains [x]. *)
Lemma holds_tree_graft h h' x c n' t' t : forall p,
  holds_tree h p t -> NoDup (addresses t) ->
  (forall y, y ∈ addresses t -> y <> x -> h' !! y = h !! y) ->
  (forall n cs, h !! x = Some n -> x ∈ addresses t -> has_children n cs ->
     h' !! x = Some n' /\ parent n' = parent n /\ has_children n' (cs ++ [c])) ->
  holds_tree h' x t' -> root t' = c -> holds_tree h' p (graft x t' t).
Proof.
  induction t as [a ts IH] using tree_ind'. intros p Ht Hnd Heq Hx Ht' Hc.
  inversion Ht as [p' a' n ts' Hn Hp Ha Hcs Hts]; subst. apply NoDup_below in Hnd as [Hnds Hna].
  assert (Forall (holds_tree h' a) (map (graft x t') ts)) as Hgts.
  { apply Forall_forall. intros u Hu. apply list_elem_of_In, in_map_iff in Hu as (t & <- & Hin).
    apply list_elem_of_In in Hin. rewrite Forall_forall in IH, Hts, Hnds. apply IH; auto.
    - intros y Hy. apply Heq, elem_of_below. right. by exists t.
    - intros m cs Hm Hin'. apply Hx; [done|]. apply elem_of_below. right. by exists t. }
  simpl. destruct (Z.eqb_spec a x) as [->|Hax].
  - destruct (Hx n (map root ts) Hn) as (Hn' & Hpn & Hcn); [simpl; by left|done|].
    econstructor; [done|done|done| |apply Forall_app; split; [done|by repeat constructor]].
    by rewrite map_app, map_root_graft.
  - rewrite app_nil_r. econstructor; [|done|done| |done].
    + rewrite Heq; [done|simpl; by left|done].
    + by rewrite map_root_graft.
Qed.

Lemma NoDup_graft x t' t : NoDup (addresses t) -> x ∈ addresses t -> addresses (graft x t' t) ≡ₚ addresses t ++ addresses t'.
Proof.
  induction t as [a ts IH] using tree_ind'. intros Hnd Hx. apply NoDup_below in Hnd as Hb. destruct Hb as [Hnds Hna].
  simpl. apply Permutation_skip. rewrite map_app, concat_app, map_map.
  destruct (Z.eqb_spec a x) as [->|Hax].
  - simpl. rewrite app_nil_r. apply Permutation_app_tail. apply Permutation_refl'. f_equal. apply map_ext_in. intros t Hin.
    rewrite graft_not_in; [done|]. intros Hxt. apply Hna, in_concat_addresses. exists t. by rewrite list_elem_of_In.
  - simpl. rewrite app_nil_r. apply elem_of_below in Hx as [->|Hx]; [done|]. clear Hna Hax.
    assert (NoDup (concat (map addresses ts))) as Hcat by (simpl in Hnd; by apply NoDup_cons in Hnd as [_ Hnd]). clear Hnd.
    induction ts as [|t ts IHts]; [by destruct Hx as (? & Ht & _); apply not_elem_of_nil in Ht|].
    simpl in *. apply Forall_cons in IH as [IHt IH]. apply Forall_cons in Hnds as [Hndt Hnds].
    apply NoDup_app in Hcat as (_ & Hdisj & Hcat). destruct Hx as (u & [->|Hu]%elem_of_cons & Hx).
    + rewrite IHt by done. rewrite <-!app_assoc. apply Permutation_app_head.
      rewrite (Permutation_app_comm (addresses t')). apply Permutation_app_tail. apply Permutation_refl'. f_equal.
      apply map_ext_in. intros v Hv. rewrite graft_not_in; [done|]. intros Hxv. apply (Hdisj x Hx), in_concat_addresses.
      exists v. by rewrite list_elem_of_In.
    + rewrite <-app_assoc, <-IHts by (done || by exists u).
      rewrite graft_not_in; [done|]. intros Hxt. apply (Hdisj x Hxt), in_concat_addresses. by exists u.
Qed.

(** A well-formed syntax tree: the heap holds it, without sharing. *)
Definition is_tree (h : heap) (p : Z) (t : tree) : Prop := holds_tree h p t /\ NoDup (addresses t).

Lemma has_children_bound h p a ts : holds_tree h p (Tree a ts) -> NoDup (addresses (Tree a ts)) ->
  Zlen (map root ts) < Z.of_nat (size h).
Proof.
  intros Ht Hnd. pose proof (holds_tree_size _ _ _ Ht Hnd) as Hs. simpl in Hs.
  assert (Datatypes.length ts <= Datatypes.length (concat (map addresses ts)))%nat as Hl.
  { clear. induction ts as [|t ts IH]; simpl; [lia|]. rewrite length_app. destruct t; simpl; lia. }
  unfold Zlen. rewrite length_map. lia.
Qed.

(** Every node of a tree has its children in the tree. *)
Lemma is_tree_node h p t x : is_tree h p t -> x ∈ addresses t ->
  exists n cs, h !! x = Some n /\ has_children n cs /\ Zlen cs < Z.of_nat (size h).
Proof.
  intros [Ht Hnd]. revert p Ht Hnd. induction t as [a ts IH] using tree_ind'. intros p Ht Hnd Hx.
  pose proof (has_children_bound _ _ _ _ Ht Hnd) as Hb.
  inversion Ht as [p' a' n ts' Hn Hp Ha Hcs Hts]; subst. apply NoDup_below in Hnd as [Hnds _].
  apply elem_of_below in Hx as [->|(t & Hin & Hx)]; [by exists n, (map root ts)|].
  rewrite Forall_forall in *. eapply IH; eauto.
Qed.

(** C14: [add_child] builds trees.  Adding the root of one tree to any node of
    another, in a heap of fewer than 2^31 nodes, makes it that node's last
    child, keeps every block of children well formed and every other node of
    the heap as it was, and leaves one tree, of the nodes of both; it fails
    only if memory runs out, by throwing. *)
Theorem add_child_grafts (realloc_ok : Z -> bool) (h : heap) (p q x : Z) (t t' : tree) :
  is_tree h p t -> is_tree h q t' -> (forall y, y ∈ addresses t -> y ∉ addresses t') ->
  x ∈ addresses t -> Z.of_nat (size h) < 2 ^ 31 ->
  match add_child realloc_ok h x (root t') with
  | Ok h' => is_tree h' p (graft x t' t) /\
      (forall y, y ∉ addresses t -> y ∉ addresses t' -> h' !! y = h !! y) /\ get_parent h' (root t') = Ok x
  | Throw bad_alloc => exists bytes, realloc_ok bytes = false
  | _ => False
  end.
Proof.
  intros Htree [Ht' Hnd'] Hdisj Hx Hsize. destruct (is_tree_node _ _ _ _ Htree Hx) as (n & cs & Hn & Hcs & Hlen).
  destruct Htree as [Ht Hnd]. pose proof (addresses_root t') as Hr.
  destruct (holds_tree_alive _ _ _ _ Ht' Hr) as (c & Hc & Hz).
  assert (root t' <> x) as Hne by (intros <-; by apply (Hdisj (root t'))).
  pose proof (add_child_cases realloc_ok h x (root t') n c cs Hn Hcs) as Hcases.
  destruct (add_child realloc_ok h x (root t')) as [h'|[]| |]; try (by apply Hcases; try lia).
  destruct Hcases as (n' & -> & Hp' & Hcs'); [lia|done..|]. split; [|split].
  - split.
    + eapply (holds_tree_graft h _ x (root t') n'); [done|done| | | |done].
      * intros y Hy Hyx. rewrite !lookup_insert_ne; [done|done|]. intros <-. by apply (Hdisj (root t')).
      * intros n0 cs0 Hn0 _ Hcs0. simplify_eq. rewrite lookup_insert_ne, lookup_insert_eq by done.
        split; [done|]. split; [done|]. by rewrite (has_children_inj n cs0 cs).
      * destruct t' as [a ts]. simpl in *. eapply (holds_tree_frame (<[a := set_parent_field c x]> h)).
        { exact (holds_tree_reparent h q x a ts c Ht' Hnd' Hc). }
        intros y Hy. destruct (decide (y = a)) as [->|Hya]; [by rewrite !lookup_insert_eq|].
        rewrite !lookup_insert_ne by (congruence || (intros ->; by apply (Hdisj y))). done.
    + rewrite NoDup_graft by done. apply NoDup_app. split; [done|]. split; [|done]. intros y Hy. by apply Hdisj.
  - intros y Hy Hy'. rewrite !lookup_insert_ne; [done| |]; intros <-; done.
  - unfold get_parent, get_node. by rewrite lookup_insert_eq.
Qed.

(** A node just constructed is a tree of its own. *)
Lemma is_tree_singleton h p a n : h !! a = Some n -> a <> 0 -> parent n = p -> children n = None -> child_count n = 0 ->
  allocated_child_count n = 0 -> is_tree h p (Tree a []).
Proof.
  intros Hn Ha Hp Hc Hcc Hac. split; [|simpl; apply NoDup_singleton].
  econstructor; [done..| |constructor]. unfold has_children. by rewrite Hc, Hcc, Hac.
Qed.

Definition two_nodes : heap := <[1 := node_init 0]> (<[2 := node_init 0]> ∅).

Lemma add_child_grafts_witness :
  match add_child (fun _ => true) two_nodes 1 2 with
  | Ok h' => is_tree h' 0 (Tree 1 [Tree 2 []]) /\ get_parent h' 2 = Ok 1
  | _ => False
  end.
Proof.
  assert (is_tree two_nodes 0 (Tree 1 [])) as H1 by (by eapply is_tree_singleton).
  assert (is_tree two_nodes 0 (Tree 2 [])) as H2 by (by eapply is_tree_singleton).
  assert (forall y, y ∈ addresses (Tree 1 []) -> y ∉ addresses (Tree 2 [])) as Hd
    by (intros y ->%list_elem_of_singleton ?%list_elem_of_singleton; done).
  pose proof (add_child_grafts (fun _ => true) two_nodes 0 0 1 (Tree 1 []) (Tree 2 []) H1 H2 Hd) as H.
  destruct H as (Ht & _ & Hp); [by left|reflexivity|]. split; [exact Ht|exact Hp].
Defined.

(** ** Destruction *)

(** [h] without the nodes of [l]. *)
Definition gone (l : list Z) (h h' : heap) : Prop :=
  forall x, h' !! x = if decide (x ∈ l) then None else h !! x.

Lemma gone_app l k h h1 h2 : gone l h h1 -> gone k h1 h2 -> gone (l ++ k) h h2.
Proof.
  intros Hl Hk x. rewrite (Hk x), (Hl x). repeat case_decide; set_solver.
Qed.

Lemma each_app {S A} (f : S -> A -> res S) l k : forall s,
  each f s (l ++ k) = let! s := each f s l in each f s k.
Proof. induction l as [|a l IH]; intros s; [done|]. simpl. rewrite bind_assoc. by destruct (f s a); simpl. Qed.

(** The children, deleted one after another. *)
Lemma delete_each depth p ts :
  Forall (fun t => forall h p, holds_tree h p t -> NoDup (addresses t) -> (Datatypes.length (addresses t) <= depth)%nat ->
    exists h', node_delete depth h (root t) = Ok h' /\ gone (addresses t) h h') ts ->
  forall h, Forall (holds_tree h p) ts -> NoDup (concat (map addresses ts)) ->
  (Datatypes.length (concat (map addresses ts)) <= depth)%nat ->
  exists h', each (delete_slot (node_delete depth)) h (Some <$> map root ts) = Ok h' /\
    gone (concat (map addresses ts)) h h'.
Proof.
  induction 1 as [|t ts Ht _ IH]; intros h Hh Hnd Hlen; simpl in *.
  - exists h. split; [done|]. intros x. by rewrite decide_False by apply not_elem_of_nil.
  - apply Forall_cons in Hh as [Hht Hhts]. apply NoDup_app in Hnd as (Hndt & Hdisj & Hnd). rewrite length_app in Hlen.
    destruct (Ht h p Hht Hndt) as (h1 & Hdel & Hg1); [lia|].
    destruct (holds_tree_alive _ _ _ _ Hht (addresses_root t)) as (_ & _ & Hz).
    destruct (IH h1) as (h2 & Heach & Hg2); [|done|lia|].
    + rewrite Forall_forall in *. intros u Hu. eapply holds_tree_frame; [by apply Hhts|].
      intros x Hx. rewrite (Hg1 x), decide_False; [done|]. intros Hxt. apply (Hdisj x Hxt), in_concat_addresses. by exists u.
    + exists h2. zfalse (root t =? 0). rewrite Hdel. cbn [bind]. split; [done|by eapply gone_app].
Qed.

Lemma node_delete_spec t : forall depth h p,
  holds_tree h p t -> NoDup (addresses t) -> (Datatypes.length (addresses t) <= depth)%nat ->
  exists h', node_delete depth h (root t) = Ok h' /\ gone (addresses t) h h'.
Proof.
  induction t as [a ts IH] using tree_ind'. intros depth h p Ht Hnd Hlen.
  inversion Ht as [p' a' n ts' Hn Hp Ha Hcs Hts]; subst. apply NoDup_below in Hnd as Hb. destruct Hb as [Hnds Hna].
  assert (NoDup (concat (map addresses ts))) as Hndc by (simpl in Hnd; by apply NoDup_cons in Hnd as [_ Hnd]).
  simpl in Hlen. destruct depth as [|depth]; [lia|]. cbn [node_delete root]. unfold get_node. rewrite Hn. cbn [bind].
  destruct (delete_each depth a ts) with (h := h) as (h1 & Heach & Hg); [|done|done|lia|].
  { rewrite Forall_forall in *. intros t Hin h0 p0. apply IH, Hin. }
  destruct Hcs as (Hc & _ & Hslots).
  assert ((match children n with
           | Some slots => if child_count n <=? Zlen slots
               then each (delete_slot (node_delete depth)) h (take (Z.to_nat (child_count n)) slots) else Undef
           | None => Ok h end) = Ok h1) as ->.
  { destruct (children n) as [slots|].
    - destruct Hslots as (junk & k & -> & _ & _). rewrite Hc. pose proof (Zlen_nonneg junk).
      rewrite Zlen_app. replace (Zlen (Some <$> map root ts)) with (Zlen (map root ts)) by (unfold Zlen; by rewrite (length_fmap Some)).
      ztrue (Zlen (map root ts) <=? Zlen (map root ts) + Zlen junk).
      rewrite take_app_length'; [done|]. rewrite (length_fmap Some). unfold Zlen. lia.
    - destruct Hslots as [Hnil _]. rewrite Hnil in Heach. simpl in Heach. by injection Heach as ->. }
  cbn [bind]. eexists. split; [done|]. intros x. simpl. destruct (decide (x = a)) as [->|Hx].
  - rewrite lookup_delete_eq, decide_True by (by left). done.
  - rewrite lookup_delete_ne, (Hg x) by done. repeat case_decide; set_solver.
Qed.

(** C34: Deleting the root of a tree of nodes frees every node of the tree once,
    its children before itself, touches nothing else, and neither reads a node
    that is gone nor recurses for ever. *)
Theorem delete_frees_tree (h : heap) (p : Z) (t : tree) :
  is_tree h p t ->
  exists h', delete_node h (root t) = Ok h' /\
    forall x, h' !! x = if decide (x ∈ addresses t) then None else h !! x.
Proof.
  intros [Ht Hnd]. unfold delete_node. eapply node_delete_spec; [done|done|].
  pose proof (holds_tree_size _ _ _ Ht Hnd). lia.
Qed.

Lemma delete_frees_tree_witness : exists h', delete_node two_nodes 1 = Ok h' /\ h' !! 1 = None /\ h' !! 2 = Some (node_init 0).
Proof.
  destruct (delete_frees_tree two_nodes 0 (Tree 1 [])) as (h' & Hd & Hx); [by eapply is_tree_singleton|].
  exists h'. split; [exact Hd|]. split; [apply (Hx 1)|apply (Hx 2)].
Defined.

(** ** Ancestors *)

(** The [k]-th node on the way up, counting from the node itself. *)
Fixpoint ancestor (h : heap) (k : nat) (x : Z) : option Z :=
  match k with
  | O => Some x
  | S k =>
      match h !! x with
      | Some n => if parent n =? 0 then None else ancestor h k (parent n)
      | None => None
      end
  end.

Lemma ancestor_add h i j x : ancestor h (i + j) x = match ancestor h i x with Some y => ancestor h j y | None => None end.
Proof.
  revert x. induction i as [|i IH]; intros x; [done|]. cbn [Nat.add ancestor].
  destruct (h !! x) as [n|]; [|done]. destruct (parent n =? 0); [done|apply IH].
Qed.

Lemma ancestor_snoc h k x y n :
  ancestor h k x = Some y -> h !! y = Some n -> parent n <> 0 -> ancestor h (S k) x = Some (parent n).
Proof.
  intros Hk Hn Hp. replace (S k) with (k + 1)%nat by lia. rewrite ancestor_add, Hk. simpl. rewrite Hn. by zfalse (parent n =? 0).
Qed.

(** From every node of a tree the way up leads to the root. *)
Lemma ancestor_root h t : forall p x, holds_tree h p t -> x ∈ addresses t ->
  exists k, (k < Datatypes.length (addresses t))%nat /\ ancestor h k x = Some (root t).
Proof.
  induction t as [a ts IH] using tree_ind'. intros p x Ht Hx.
  inversion Ht as [p' a' n ts' Hn Hp Ha Hcs Hts]; subst.
  apply elem_of_below in Hx as [->|(t & Hin & Hx)]; [exists 0%nat; simpl; split; [lia|done]|].
  rewrite Forall_forall in *. destruct (IH t Hin a x (Hts t Hin) Hx) as (k & Hk & Hanc). exists (S k). split.
  - simpl. apply list_elem_of_split in Hin as (l1 & l2 & ->). rewrite map_app, concat_app, length_app. simpl. rewrite length_app. lia.
  - specialize (Hts t Hin). inversion Hts as [p' a' m us Hm Hpm Ham Hcm Hus]; subst. simpl in Hanc.
    eapply ancestor_snoc; done.
Qed.

Lemma holds_tree_root h p t : holds_tree h p t -> exists n, h !! root t = Some n /\ parent n = p.
Proof. intros Ht. inversion Ht as [p' a n ts Hn Hp Ha _ _]; subst. by exists n. Qed.

(** There is no way from a node up to itself: the way would never end. *)
Lemma ancestor_cycle h x k m : ancestor h (S k) x = Some x -> ancestor h (S k * m) x = Some x.
Proof.
  intros Hc. induction m as [|m IH]; [by rewrite Nat.mul_0_r|].
  replace (S k * S m)%nat with (S k + S k * m)%nat by lia. by rewrite ancestor_add, Hc.
Qed.

Lemma ancestor_irrefl h t x k : holds_tree h 0 t -> x ∈ addresses t -> ancestor h (S k) x <> Some x.
Proof.
  intros Ht Hx Hc. destruct (ancestor_root h t 0 x Ht Hx) as (d & _ & Hd).
  assert (ancestor h (S d) x = None) as Hnone.
  { replace (S d) with (d + 1)%nat by lia. rewrite ancestor_add, Hd.
    destruct (holds_tree_root _ _ _ Ht) as (n & Hn & Hp). simpl. by rewrite Hn, Hp. }
  pose proof (ancestor_cycle h x k (S d) Hc) as Hm.
  replace (S k * S d)%nat with (S d + k * S d)%nat in Hm by lia. by rewrite ancestor_add, Hnone in Hm.
Qed.

Lemma ancestor_unique h t x i j c : holds_tree h 0 t -> x ∈ addresses t -> c ∈ addresses t ->
  ancestor h i x = Some c -> ancestor h j x = Some c -> i = j.
Proof.
  intros Ht Hx Hc Hi Hj. destruct (Nat.lt_trichotomy i j) as [Hlt|[->|Hlt]]; [exfalso|done|exfalso].
  - replace j with (i + S (j - i - 1))%nat in Hj by lia. rewrite ancestor_add, Hi in Hj. by apply (ancestor_irrefl h t) in Hj.
  - replace i with (j + S (i - j - 1))%nat in Hi by lia. rewrite ancestor_add, Hj in Hi. by apply (ancestor_irrefl h t) in Hi.
Qed.

(** The loop of [has_ancestor], on a node with a way up to a root. *)
Lemma ancestor_loop h c n r nr d : forall fuel i x, 0 < i -> c <> 0 ->
  ancestor h d x = Some r -> h !! r = Some nr -> parent nr = 0 -> (d < fuel)%nat ->
  exists v, iterate fuel (ancestor_step h c n) (i, x) = Ok v /\
    ((v = 0 /\ forall k, i + Z.of_nat k < n -> ancestor h (S k) x <> Some c) \/
     (exists k, v = i + Z.of_nat k /\ v < n /\ ancestor h (S k) x = Some c)).
Proof.
  induction d as [|d IH]; intros fuel i x Hi Hc Hd Hr Hpr Hf; (destruct fuel as [|fuel]; [lia|]);
    cbn [iterate]; unfold ancestor_step at 1; (destruct (Z.ltb_spec i n) as [Hin|Hin]; cbn [bind];
    [|exists 0; split; [done|]; left; split; [done|]; intros k; lia]).
  - simpl in Hd. injection Hd as ->. unfold get_node. rewrite Hr. cbn [bind]. rewrite Hpr. zfalse (0 =? c). cbn [bind].
    exists 0. split; [done|]. left. split; [done|]. intros k _. simpl. by rewrite Hr, Hpr.
  - cbn [ancestor] in Hd. unfold get_node. destruct (h !! x) as [m|] eqn:Hm; [|done]. cbn [bind].
    destruct (Z.eqb_spec (parent m) 0) as [|Hp]; [done|]. destruct (Z.eqb_spec (parent m) c) as [Hpc|Hpc]; cbn [bind].
    + exists i. split; [done|]. right. exists 0%nat. split; [lia|]. split; [done|]. simpl. rewrite Hm, Hpc. by zfalse (c =? 0).
    + destruct (IH fuel (i + 1) (parent m)) as (v & Hv & Hcase); [lia|done..|lia|]. exists v. split; [exact Hv|].
      destruct Hcase as [[-> Hno]|(k & -> & Hlt & Hk)].
      * left. split; [done|]. intros k Hk. cbn [ancestor]. rewrite Hm. zfalse (parent m =? 0). destruct k as [|k]; [simpl; congruence|].
        apply Hno. lia.
      * right. exists (S k). split; [lia|]. split; [done|]. cbn [ancestor]. rewrite Hm. zfalse (parent m =? 0). exact Hk.
Qed.

Lemma has_ancestor_spec h t x c n : is_tree h 0 t -> x ∈ addresses t -> c ∈ addresses t -> 0 < n ->
  exists v, has_ancestor h x c n = Ok v /\
    ((v = 0 /\ forall k, Z.of_nat (S k) < n -> ancestor h (S k) x <> Some c) \/
     (exists k, v = Z.of_nat (S k) /\ v < n /\ ancestor h (S k) x = Some c)).
Proof.
  intros [Ht Hnd] Hx Hc Hn. pose proof (holds_tree_size _ _ _ Ht Hnd) as Hs.
  destruct (holds_tree_alive _ _ _ _ Ht Hc) as (_ & _ & Hcz).
  unfold has_ancestor. zfalse (c =? 0). destruct (Z.eqb_spec c x) as [->|Hne]; cbn [negb andb].
  - exists 0. split; [done|]. left. split; [done|]. intros k _. by apply (ancestor_irrefl h t).
  - destruct (ancestor_root h t 0 x Ht Hx) as (d & Hd & Hroot).
    destruct (holds_tree_root _ _ _ Ht) as (nr & Hnr & Hpr).
    destruct (ancestor_loop h c n (root t) nr d (S (S (size h))) 1 x) as (v & Hv & Hcase); [lia|done..|lia|].
    exists v. split; [exact Hv|]. destruct Hcase as [[-> Hno]|(k & -> & Hlt & Hk)].
    + left. split; [done|]. intros k Hk. apply Hno. lia.
    + right. exists k. split; [lia|]. split; [lia|done].
Qed.

(** In a tree [get_root] ends at the root, and [has_ancestor] agrees with the
    k-th node on the way up: it returns the number of generations, which is
    unique, when the candidate is fewer than [n] generations up, and 0
    otherwise.  The ancestor [n] generations up, which its documentation
    includes, is not found. *)
Theorem has_ancestor_generations (h : heap) (t : tree) (x c n : Z) :
  is_tree h 0 t -> x ∈ addresses t -> c ∈ addresses t -> 0 < n ->
  get_root h x = Ok (root t) /\
  (forall k, has_ancestor h x c n = Ok k /\ k <> 0 <-> 0 < k < n /\ ancestor h (Z.to_nat k) x = Some c) /\
  (ancestor h (Z.to_nat n) x = Some c -> has_ancestor h x c n = Ok 0).
Proof.
  intros Htree Hx Hc Hn. destruct (has_ancestor_spec h t x c n Htree Hx Hc Hn) as (v & Hv & Hcase).
  pose proof Htree as [Ht Hnd]. split; [|split].
  - pose proof (holds_tree_size _ _ _ Ht Hnd) as Hs. destruct (ancestor_root h t 0 x Ht Hx) as (d & Hd & Hroot).
    destruct (holds_tree_root _ _ _ Ht) as (nr & Hnr & Hpr).
    unfold get_root. assert (d < S (size h))%nat as Hf by lia. revert Hroot Hf. generalize (S (size h)) as fuel.
    clear -Hnr Hpr. revert x. induction d as [|d IH]; intros x fuel Hd Hf; (destruct fuel as [|fuel]; [lia|]); cbn [iterate];
      unfold root_step at 1, get_node; cbn [ancestor] in Hd.
    + injection Hd as ->. rewrite Hnr. cbn [bind]. rewrite Hpr. done.
    + destruct (h !! x) as [m|]; [|done]. cbn [bind]. destruct (parent m =? 0); [done|]. cbn [bind]. apply IH; [done|lia].
  - intros k. rewrite Hv. split.
    + intros [[= ->] Hk]. destruct Hcase as [[-> _]|(j & -> & Hlt & Hj)]; [done|]. rewrite Nat2Z.id. split; [lia|done].
    + intros [Hk Hanc]. destruct Hcase as [[-> Hno]|(j & -> & Hlt & Hj)].
      * exfalso. apply (Hno (Z.to_nat k - 1)%nat); [lia|]. by replace (S (Z.to_nat k - 1)) with (Z.to_nat k) by lia.
      * pose proof (ancestor_unique h t x _ _ c Ht Hx Hc Hanc Hj). split; [f_equal; lia|lia].
  - intros Hanc. rewrite Hv. destruct Hcase as [[-> _]|(j & -> & Hlt & Hj)]; [done|].
    pose proof (ancestor_unique h t x _ _ c Ht Hx Hc Hanc Hj). lia.
Qed.

Definition family : heap :=
  match add_child (fun _ => true) two_nodes 1 2 with Ok h => h | _ => ∅ end.

Lemma has_ancestor_generations_witness :
  get_root family 2 = Ok 1 /\ has_ancestor family 2 1 1 = Ok 0 /\ has_ancestor family 2 1 2 = Ok 1.
Proof.
  assert (is_tree family 0 (Tree 1 [Tree 2 []])) as Ht.
  { split; [|simpl; repeat constructor; set_solver].
    econstructor; [reflexivity|reflexivity|lia| |].
    - split; [reflexivity|]. split; [by repeat constructor|]. exists [None; None; None], 0. split_and!; reflexivity || lia.
    - constructor; [|constructor]. econstructor; [reflexivity|reflexivity|lia| |constructor]. by repeat constructor. }
  assert (forall n, 0 < n -> _) as H by (intros n; exact (has_ancestor_generations family (Tree 1 [Tree 2 []]) 2 1 n Ht
    ltac:(simpl; right; left) ltac:(simpl; left))).
  split; [apply (H 1); lia|]. split; [by apply (H 1); [lia|]|]. by apply (H 2); [lia|].
Defined.

(** [has_descendant] forgets its limit. *)
Lemma has_descendant_unlimited h this candidate n m :
  has_descendant h this candidate n = has_descendant h this candidate m.
Proof. done. Qed.

(** A child added to a second node stays a child of the first, so that both
    destructors delete it. *)
Lemma two_parents_delete_twice :
  let ok := fun _ : Z => true in
  (let! h := add_child ok (<[3 := node_init 0]> two_nodes) 1 3 in
   let! h := add_child ok h 2 3 in
   let! h := delete_node h 1 in
   delete_node h 2) = Undef.
Proof. reflexivity. Qed.
