(* ===== verification/Parser.v ===== *)
(** * The parser: lang/parser.h and parser.cpp

    It walks the lexer and makes nodes in the heap of [Ast].  Where [operator
    new] puts a node is an argument, [alloc].  The progress tracker is only
    stored. *)

From stdpp Require Import base tactics list gmap strings.
From Stdlib Require Import ZArith Lia.
From S2P Require Import Prelude ScanNumbers StrView Tokens Lexer LexerSafety Ast.
#[local] Open Scope Z_scope.

Section parsing.
Context (garbage : Z) (pow : double -> double -> double) (alloc : heap -> Z).

Record parser : Type := {
  lex_state : lexer;
  progress : Z;
}.

Definition parser_init (m : mem) (txt : str_view) : res parser :=
  let! lx := lexer_init garbage pow m txt in Ok {| lex_state := lx; progress := 0 |}.
Definition parser_init_range (m : mem) (b e : Z) : res parser := parser_init m (view_of_range b e).
Definition parser_init_length (m : mem) (b n : Z) : res parser := parser_init m (view_of_length b n).

(** The token types that get a node. *)
Definition makes_node (tt : Z) : bool :=
  (tt =? tt_indent) || (tt =? tt_dedent) || (tt =? tt_noun) || (tt =? tt_verb).

(** [nodeptr = new token_node(nullptr, t)], and nothing is done with it. *)
Definition make_node (h : heap) (tok : token) : heap :=
  if makes_node (t_type tok) then <[alloc h := token_node_init 0 tok]> h else h.

Definition build_step (m : mem) (st : lexer * heap) : res (lexer * heap + lexer * heap) :=
  let '(lx, h) := st in
  let h := make_node h (deref lx) in
  let! (more, lx) := iterator_next garbage pow m lx in
  Ok (if more : bool then inl (lx, h) else inr (lx, h)).

Definition build_ast (fuel : nat) (m : mem) (this : parser) (h : heap) (p : Z) : res (Z * parser * heap) :=
  let lx := lex_state this in
  let! (lx, h) := if iterator_begin lx then iterate fuel (build_step m) (lx, h) else Ok (lx, h) in
  Ok (0, {| lex_state := lx; progress := p |}, h).

(** ** What is left in the heap *)

(** The tokens of a walk that get a node. *)
Definition node_tokens (toks : list (token * list Z)) : list token :=
  filter (fun t => makes_node (t_type t) = true) (fst <$> toks).

(** [h'] is [h] and [k] new nodes, each for one of [toks], alone. *)
Definition leaked (toks : list token) (h h' : heap) : Prop :=
  h ⊆ h' /\ size h' = (size h + Datatypes.length toks)%nat /\
  forall a n, h' !! a = Some n -> h !! a = Some n \/ (h !! a = None /\ exists t, t ∈ toks /\ n = token_node_init 0 t).

Lemma leaked_refl h : leaked [] h h.
Proof. split; [done|]. split; [simpl; lia|]. by left. Qed.

Lemma leaked_make_node h tok toks h' :
  (forall h, h !! alloc h = None) ->
  leaked toks (make_node h tok) h' -> leaked (filter (fun t => makes_node (t_type t) = true) [tok] ++ toks) h h'.
Proof.
  intros Halloc. unfold make_node. rewrite filter_cons, filter_nil.
  destruct (makes_node (t_type tok)); simpl; [|done]. intros (Hsub & Hsize & Hnew).
  rewrite map_size_insert_None in Hsize by done. pose proof (Halloc h) as Hf. split; [|split; [simpl; lia|]].
  - etransitivity; [by apply insert_subseteq|exact Hsub].
  - intros a n Hn. destruct (Hnew a n Hn) as [Ha|(Ha & t & Ht & ->)].
    + apply lookup_insert_Some in Ha as [[<- <-]|[_ Ha]]; [|by left]. right. split; [done|]. exists tok. split; [by left|done].
    + apply lookup_insert_None in Ha as [Ha _]. right. split; [done|]. exists t. split; [by right|done].
Qed.

(** The walk of the parser sees the tokens that [lex] collects. *)
Lemma build_follows_lex m (Halloc : forall h, h !! alloc h = None) fuel : forall lx toks0 toks,
  iterate fuel (fun '(lx, toks) =>
      let toks := toks ++ [(deref lx, unwrapped_text lx)] in
      let! (more, lx) := iterator_next garbage pow m lx in
      Ok (if more : bool then inl (lx, toks) else inr toks)) (lx, toks0) = Ok toks ->
  exists new, toks = toks0 ++ new /\
    forall h, exists lx' h', iterate fuel (build_step m) (lx, h) = Ok (lx', h') /\ leaked (node_tokens new) h h'.
Proof.
  induction fuel as [|fuel IH]; intros lx toks0 toks; [done|]. cbn [iterate]. unfold build_step at 1. intros Hrun.
  destruct (iterator_next garbage pow m lx) as [[more lx1]| | |]; simpl in Hrun; try done.
  assert (forall new h h', leaked (node_tokens new) (make_node h (deref lx)) h' ->
    leaked (node_tokens ((deref lx, unwrapped_text lx) :: new)) h h') as Hmake.
  { intros new h h' Hl. pose proof (leaked_make_node _ _ _ _ Halloc Hl) as Hl'. unfold node_tokens in *.
    rewrite fmap_cons. change (fst (deref lx, unwrapped_text lx)) with (deref lx).
    replace (filter (fun t => makes_node (t_type t) = true) (deref lx :: (fst <$> new)))
      with (filter (fun t => makes_node (t_type t) = true) [deref lx] ++ filter (fun t => makes_node (t_type t) = true) (fst <$> new));
      [exact Hl'|]. by rewrite <-filter_app. }
  destruct more; simpl in Hrun.
  - apply IH in Hrun as (new & -> & Hb). exists ((deref lx, unwrapped_text lx) :: new). rewrite <-app_assoc. split; [done|].
    intros h. destruct (Hb (make_node h (deref lx))) as (lx' & h' & Hit & Hl). exists lx', h'. split; [exact Hit|by apply Hmake].
  - injection Hrun as <-. exists [(deref lx, unwrapped_text lx)]. split; [done|]. intros h. eexists _, _. split; [reflexivity|].
    apply Hmake, leaked_refl.
Qed.
End parsing.

(** On any text the lexer accepts [build_ast] ends without undefined
    behaviour, returns no tree, and leaves in the heap exactly one unreachable
    node for every indent, dedent, noun and verb token, each with no parent and
    no children, and all other nodes as they were. *)
Theorem build_ast_leaks garbage pow (alloc : heap -> Z) m b l h progress_tracker :
  0 < b -> holds m b (l ++ [0]) -> Forall is_ascii l -> narrow l -> no_min_literal l ->
  (forall h, h !! alloc h = None) ->
  let fuel := Z.to_nat (200 * (Zlen l + 1) + 65) in
  exists toks this this' h',
    lex garbage pow fuel m (view_of_length b (Zlen l)) = Ok toks /\
    parser_init_length garbage pow m b (Zlen l) = Ok this /\
    build_ast garbage pow alloc fuel m this h progress_tracker = Ok (0, this', h') /\
    leaked (node_tokens toks) h h'.
Proof.
  intros Hb Hm Hl Hnarrow Hmin Halloc fuel. pose proof (Zlen_nonneg l).
  assert (exists toks, lex garbage pow fuel m (view_of_length b (Zlen l)) = Ok toks) as [toks Hlex].
  { assert (wp (lex garbage pow fuel m (view_of_length b (Zlen l))) (fun toks => in_order b toks (b + Zlen l + 1))) as Hwp
      by (apply lex_wp; try done; unfold fuel; lia).
    apply wp_Ok_iff in Hwp as (toks & Ht & _). by exists toks. }
  exists toks. rewrite Hlex. unfold lex in Hlex. unfold parser_init_length, parser_init, build_ast.
  destruct (lexer_init garbage pow m (view_of_length b (Zlen l))) as [lx| | |]; try done. cbn [bind] in *.
  exists {| lex_state := lx; progress := 0 |}. cbn [lex_state].
  assert (exists lx' h', (if iterator_begin lx then iterate fuel (build_step garbage pow alloc m) (lx, h) else Ok (lx, h)) = Ok (lx', h') /\
    leaked (node_tokens toks) h h') as (lx' & h' & -> & Hleak).
  { destruct (iterator_begin lx).
    - apply (build_follows_lex garbage pow alloc m Halloc) in Hlex as (new & -> & Hbuild). apply Hbuild.
    - injection Hlex as <-. exists lx, h. split; [done|]. apply leaked_refl. }
  by eexists _, h'.
Qed.

Definition first_fresh (h : heap) : Z := fresh (dom h : gset Z).

Lemma build_ast_leaks_witness : exists toks this' h',
  lex 7 (fun _ x => x) (Z.to_nat (200 * (Zlen program + 1) + 65)) (map_seqZ 16 (program ++ [0]))
    (view_of_length 16 (Zlen program)) = Ok toks /\
  (exists this, build_ast 7 (fun _ x => x) first_fresh (Z.to_nat (200 * (Zlen program + 1) + 65)) (map_seqZ 16 (program ++ [0]))
    this two_nodes 0 = Ok (0, this', h')) /\ leaked (node_tokens toks) two_nodes h'.
Proof.
  destruct (build_ast_leaks 7 (fun _ x => x) first_fresh (map_seqZ 16 (program ++ [0])) 16 program two_nodes 0)
    as (toks & this & this' & h' & H1 & _ & H2 & H3); [decided..| |].
  - intros h. apply not_elem_of_dom, (is_fresh (dom h : gset Z)).
  - exists toks, this', h'. split; [exact H1|]. split; [by exists this|exact H3].
Defined.
