(* ===== verification/Cmdline.v ===== *)
(** * Command lines: core/cli/cmdline.h, cmdline-inline.h and cmdline.cpp

    The data of a [cmdline] is a record of strings and lists.  What [<<] writes
    to a string stream is appended to a list of chars. *)

From stdpp Require Import base tactics list gmap strings.
From Stdlib Require Import ZArith Lia.
From S2P Require Import Prelude CString StrView StdString.
#[local] Open Scope Z_scope.
#[local] Arguments str : simpl never.

(** ** Data *)

Record cmdline_flag : Type := {
  flag_names : list (list Z);
  flag_help : list Z;
}.

(** [validator] and [reference_data] are pointers that are only stored. *)
Record cmdline_param : Type := {
  param_names : list (list Z);
  param_help : list Z;
  occurrence_rule : Z;
  placeholder : list Z;
  validator : Z;
  reference_data : Z;
}.

Inductive lifecycle_phase : Type := definition | validation | usage.
#[export] Instance lifecycle_phase_eq_dec : EqDecision lifecycle_phase.
Proof. solve_decision. Defined.

Record cmdline : Type := {
  phase : lifecycle_phase;
  program_name : list Z;
  description : list Z;
  epilog : list Z;
  sources : list (Z * bool);
  params : list cmdline_param;
  flags : list cmdline_flag;
  args : list (list Z);
}.

Definition cmdline_new : cmdline :=
  {| phase := definition; program_name := []; description := []; epilog := []; sources := []; params := [];
     flags := []; args := [] |}.

Definition with_phase (c : cmdline) (p : lifecycle_phase) : cmdline :=
  {| phase := p; program_name := program_name c; description := description c; epilog := epilog c;
     sources := sources c; params := params c; flags := flags c; args := args c |}.
Definition with_texts (c : cmdline) (prog descrip epi : list Z) : cmdline :=
  {| phase := phase c; program_name := prog; description := descrip; epilog := epi;
     sources := sources c; params := params c; flags := flags c; args := args c |}.
Definition with_sources (c : cmdline) (l : list (Z * bool)) : cmdline :=
  {| phase := phase c; program_name := program_name c; description := description c; epilog := epilog c;
     sources := l; params := params c; flags := flags c; args := args c |}.
Definition with_params (c : cmdline) (l : list cmdline_param) : cmdline :=
  {| phase := phase c; program_name := program_name c; description := description c; epilog := epilog c;
     sources := sources c; params := l; flags := flags c; args := args c |}.
Definition with_flags (c : cmdline) (l : list cmdline_flag) : cmdline :=
  {| phase := phase c; program_name := program_name c; description := description c; epilog := epilog c;
     sources := sources c; params := params c; flags := l; args := args c |}.
Definition with_args (c : cmdline) (l : list (list Z)) : cmdline :=
  {| phase := phase c; program_name := program_name c; description := description c; epilog := epilog c;
     sources := sources c; params := params c; flags := flags c; args := l |}.

(** What the templates of cmdline.cpp use of an item. *)
Class item (T : Type) : Type := {
  names : T -> list (list Z);
  help : T -> list Z;
}.
#[export] Instance flag_item : item cmdline_flag := {| names := flag_names; help := flag_help |}.
#[export] Instance param_item : item cmdline_param := {| names := param_names; help := param_help |}.

(** [s[0]]: the terminating NUL for an empty string. *)
Definition char0 (s : list Z) : Z := default 0 (head s).
(** [names[0]], which has to exist. *)
Definition name0 (l : list (list Z)) : res (list Z) :=
  match l with n :: _ => Ok n | [] => Undef end.

Definition names_positional (l : list (list Z)) : bool :=
  match l with [n] => negb (char0 n =? "-"%ch) | _ => false end.
Definition is_positional (p : cmdline_param) : bool := names_positional (param_names p).
Definition get_preferred_name (p : cmdline_param) : res (list Z) := name0 (param_names p).

(** ** Placeholders *)

Fixpoint after_prefix (name : list Z) : list Z :=
  match name with
  | c :: name' => if c =? "-"%ch then after_prefix name' else name
  | [] => []
  end.
Definition get_name_after_prefix (name : list Z) : list Z := after_prefix (c_str name).

(** [best]: the best name so far, [None] for nullptr, and its length. *)
Definition choose_name (best : option (list Z) * Z) (name : list Z) : option (list Z) * Z :=
  let '(best_name, best_len) := best in
  let name_ptr := get_name_after_prefix name in
  let name_len := Zlen name_ptr in
  let choose :=
    match best_name with
    | None => true
    | Some _ =>
        if (best_len <? 3) && (3 <=? name_len) then true
        else name_len <? best_len
    end in
  if choose then (Some name_ptr, u32 name_len) else best.

Fixpoint capitals (s : list Z) : res (list Z) :=
  match s with
  | [] => Ok []
  | c :: s =>
      let! alnum := isalnum c in
      if alnum then let! u := toupper c in let! l := capitals s in Ok (to_char u :: l)
      else capitals s
  end.

Definition generate_placeholder (l : list (list Z)) : res (list Z) :=
  let '(best_name, best_len) :=
    match l with
    | [n] => (Some (get_name_after_prefix n), u32 (Zlen (get_name_after_prefix n)))
    | _ => fold_left choose_name l (None, 0)
    end in
  match best_name with
  | None => Ok []
  | Some s => capitals (take (Z.to_nat best_len) s)
  end.

(** ** Usage *)

Definition get_usage_for_param (p : cmdline_param) : res (list Z) :=
  let! name := name0 (param_names p) in
  let occurrence := if is_positional p then name else name ++ str "=" ++ placeholder p in
  let rule := occurrence_rule p in
  Ok (if rule =? "*"%ch then str "[" ++ occurrence ++ str "...]"
      else if rule =? "?"%ch then str "[" ++ occurrence ++ str "]"
      else if rule =? "+"%ch then occurrence ++ str " [" ++ occurrence ++ str "...]"
      else if rule =? "1"%ch then occurrence
      else if rule =? "2"%ch then occurrence ++ str "1 " ++ occurrence ++ str "2"
      else occurrence ++ str "1..." ++ occurrence ++ [rule]).

(** ** The phases of a cmdline *)

Definition in_phase (c : cmdline) (p : lifecycle_phase) : res unit :=
  precondition (bool_decide (phase c = p))
    (if decide (p = usage) then "data->phase == lifecycle_phase::usage" else "data->phase == lifecycle_phase::definition").

(** The elements of [argv], read one after another. *)
Fixpoint push_args (m : mem) (c : cmdline) (argv : list Z) : res cmdline :=
  match argv with
  | [] => Ok c
  | p :: argv => let! s := string_of_cstr m p in push_args m (with_args c (args c ++ [s])) argv
  end.
Definition set_args (m : mem) (c : cmdline) (argv : list Z) : res cmdline :=
  let! _ := in_phase c usage in push_args m c argv.
Definition set_args_list (c : cmdline) (l : list (list Z)) : res cmdline :=
  let! _ := in_phase c usage in Ok (with_args c (args c ++ l)).
Definition get_args (c : cmdline) : res (list (list Z)) := let! _ := in_phase c usage in Ok (args c).
Definition help_needed (c : cmdline) : res bool := let! _ := in_phase c usage in Ok false.
Definition get_lifecycle_phase (c : cmdline) : lifecycle_phase := phase c.

Definition validate (c : cmdline) : res cmdline :=
  let! _ := in_phase c definition in
  let c := with_phase c validation in
  Ok (with_phase c usage).

Definition set_program_name (m : mem) (c : cmdline) (name : Z) : res cmdline :=
  let! _ := in_phase c definition in
  let! s := string_of_cstr m name in Ok (with_texts c s (description c) (epilog c)).
Definition set_description (m : mem) (c : cmdline) (descrip : Z) : res cmdline :=
  let! _ := in_phase c definition in
  let! s := string_of_cstr m descrip in Ok (with_texts c (program_name c) s (epilog c)).
Definition set_epilog (m : mem) (c : cmdline) (epi : Z) : res cmdline :=
  let! _ := in_phase c definition in
  let! s := string_of_cstr m epi in Ok (with_texts c (program_name c) (description c) s).
Definition get_program_name (c : cmdline) : list Z := c_str (program_name c).
Definition get_description (c : cmdline) : list Z := c_str (description c).
Definition get_epilog (c : cmdline) : list Z := c_str (epilog c).

Definition add_source (c : cmdline) (source : Z) (include_positionals : bool) : res cmdline :=
  let! _ := in_phase c definition in Ok (with_sources c (sources c ++ [(source, include_positionals)])).

(** ** Definitions *)

Definition occurrence_rules : list Z := str "?*1+23456789".

Fixpoint check_prefixes (positional : bool) (l : list (list Z)) : res unit :=
  match l with
  | [] => Ok tt
  | n :: l =>
      let! _ := precondition (Bool.eqb (negb (char0 n =? "-"%ch)) positional) "(param.names[i][0] != '-') == positional" in
      check_prefixes positional l
  end.

Definition define_param (m : mem) (c : cmdline) (names help rule place valid ref_data : Z) : res cmdline :=
  let! _ := in_phase c definition in
  let! no_names := is_null_or_empty m names in
  let! _ := precondition (negb no_names) "!is_null_or_empty(names)" in
  let! no_help := is_null_or_empty m help in
  let! _ := precondition (negb no_help) "!is_null_or_empty(help)" in
  let! _ := precondition (strchr_in occurrence_rules rule) "strchr('?*1+23456789', occurrence_rule)" in
  let! l := split m names (str ", ") in
  let! _ := check_prefixes (names_positional l) (tail l) in
  let! help_text := string_of_cstr m help in
  let! holder := if negb (place =? 0) then string_of_cstr m place else generate_placeholder l in
  Ok (with_params c (params c ++ [{| param_names := l; param_help := help_text; occurrence_rule := rule;
                                     placeholder := holder; validator := valid; reference_data := ref_data |}])).

Definition define_flag (m : mem) (c : cmdline) (names help : Z) : res cmdline :=
  let! _ := in_phase c definition in
  let! l := split m names (str ", ") in
  let! help_text := string_of_cstr m help in
  Ok (with_flags c (flags c ++ [{| flag_names := l; flag_help := help_text |}])).

(** ** Help *)

Definition add_width (n : Z) (name : list Z) : Z :=
  let n := if negb (n =? 0) then u64 (n + 2) else n in u64 (n + Zlen name).
Definition item_width {T} `{item T} (x : T) : Z := fold_left add_width (names x) 0.
Definition max_name_width {T} `{item T} (items : list T) : Z :=
  fold_left (fun biggest x => if biggest <? item_width x then item_width x else biggest) items 0.
Definition get_max_name_width (c : cmdline) : Z := Z.max (max_name_width (flags c)) (max_name_width (params c)).

(** [EIGHTY_SPACES + k] as a C string: outside the literal for k > 80. *)
Definition eighty_spaces (k : Z) : res (list Z) :=
  if (0 <=? k) && (k <=? 80) then Ok (repeat 32 (Z.to_nat (80 - k))) else Undef.

(** The names of an item, delimited, and their width. *)
Fixpoint dump_names (delim : bool) (l : list (list Z)) (ss : list Z) (width : Z) : list Z * Z :=
  match l with
  | [] => (ss, width)
  | name :: l =>
      let '(ss, width) := if delim then (ss ++ str ", ", u64 (width + 2)) else (ss, width) in
      dump_names true l (ss ++ name) (u64 (width + Zlen name))
  end.

Definition dump_item {T} `{item T} (name_width : Z) (ss : list Z) (x : T) : res (list Z) :=
  let ss := ss ++ str "    " in
  let '(ss, my_name_width) := dump_names false (names x) ss 0 in
  let! pad := eighty_spaces (u64 (80 - u64 (name_width - my_name_width))) in
  Ok (ss ++ pad ++ str "    " ++ help x ++ [LF]).

Fixpoint dump_all {T} `{item T} (name_width : Z) (ss : list Z) (items : list T) : res (list Z) :=
  match items with
  | [] => Ok ss
  | x :: items => let! ss := dump_item name_width ss x in dump_all name_width ss items
  end.

Definition dump_items {T} `{item T} (ss : list Z) (items : list T) (label : string) (name_width : Z) : res (list Z) :=
  match items with
  | [] => Ok ss
  | _ => dump_all name_width (ss ++ [LF] ++ str label ++ [LF]) items
  end.

Definition delimit (ss : list Z) (n : Z) (delimiter : list Z) : list Z :=
  if negb (n =? 0) then ss ++ delimiter else ss.

(** A piece of the usage line, after a blank unless it is the first. *)
Definition put_usage (st : list Z * Z) (piece : list Z) : list Z * Z :=
  let '(ss, n) := st in ((if negb (n =? 0) then ss ++ [32] else ss) ++ piece, u32 (n + 1)).

Fixpoint usage_of {T} (usage : T -> res (list Z)) (st : list Z * Z) (items : list T) : res (list Z * Z) :=
  match items with
  | [] => Ok st
  | x :: items => let! piece := usage x in usage_of usage (put_usage st piece) items
  end.

Definition usage_of_flag (f : cmdline_flag) : res (list Z) :=
  let! name := name0 (flag_names f) in Ok (str "[" ++ name ++ str "]").

Definition get_help (c : cmdline) : res (list Z) :=
  let! _ := in_phase c usage in
  let name_width := Z.min (Z.max 10 (get_max_name_width c)) 30 in
  let prog := get_program_name c in
  let '(ss, n) := if bool_decide (prog = []) then ([], 0) else (prog, 1) in
  let '(ss, n) :=
    if bool_decide (description c = []) then (ss, n)
    else (delimit ss n (str ": ") ++ description c, u32 (n + 1)) in
  let ss := delimit ss n [LF; LF] in
  let st := if bool_decide (prog = []) then (ss, 0) else (ss ++ prog, 1) in
  let! st := usage_of usage_of_flag st (flags c) in
  let! (ss, n) := usage_of get_usage_for_param st (params c) in
  let ss := delimit ss n [LF] in
  let! ss := dump_items ss (flags c) "flags" name_width in
  let! ss := dump_items ss (params c) "options" name_width in
  Ok (if bool_decide (epilog c = []) then ss else ss ++ [LF] ++ epilog c).

(** * Specification of the help text *)

Section layout.
Context {T : Type} `{item T}.

Definition names_text (x : T) : list Z := join (str ", ") (names x).

(** The names in a column of a given width, then the help. *)
Definition item_line (width : Z) (x : T) : list Z :=
  str "    " ++ names_text x ++ repeat 32 (Z.to_nat (width - Zlen (names_text x))) ++ str "    " ++ help x ++ [LF].
Definition section_text (label : string) (width : Z) (items : list T) : list Z :=
  match items with [] => [] | _ => [LF] ++ str label ++ [LF] ++ concat (map (item_line width) items) end.
Definition widest (items : list T) : Z := foldr (fun x w => Z.max (Zlen (names_text x)) w) 0 items.

(** The items a help text can show: with a name, and names of 30 chars. *)
Definition shown (x : T) : Prop := names x <> [] /\ Zlen (names_text x) <= 30.
#[export] Instance shown_dec x : Decision (shown x).
Proof. unfold shown. apply _. Defined.

(** What [define_flag] and [define_param] guarantee, and a bound far beyond memory. *)
Definition sane (x : T) : Prop := Forall (fun n => n <> []) (names x) /\ Zlen (names_text x) < 2 ^ 62.
#[export] Instance sane_dec x : Decision (sane x).
Proof. unfold sane. apply _. Defined.
End layout.

Definition flag_usage (f : cmdline_flag) : list Z := str "[" ++ default [] (head (flag_names f)) ++ str "]".
Definition param_usage (p : cmdline_param) : list Z :=
  match get_usage_for_param p with Ok s => s | _ => [] end.

Definition usage_pieces (c : cmdline) : list (list Z) :=
  (if bool_decide (get_program_name c = []) then [] else [get_program_name c]) ++
  map flag_usage (flags c) ++ map param_usage (params c).

Definition help_text (c : cmdline) : list Z :=
  let prog := get_program_name c in
  let nothing := bool_decide (prog = []) && bool_decide (description c = []) in
  let width := Z.max 10 (Z.max (widest (flags c)) (widest (params c))) in
  join (str ": ") (filter (fun s => s <> []) [prog; description c]) ++ (if nothing then [] else [LF; LF]) ++
  join [32] (usage_pieces c) ++ (if bool_decide (usage_pieces c = []) then [] else [LF]) ++
  section_text "flags" width (flags c) ++ section_text "options" width (params c) ++
  (if bool_decide (epilog c = []) then [] else [LF] ++ epilog c).

(** ** Lemmas *)

Section layout_lemmas.
Context {T : Type} `{item T}.

Lemma Zlen_delim : Zlen (str ", ") = 2.
Proof. done. Qed.

Lemma add_width_fold l : forall n, 0 < n -> Forall (fun s : list Z => s <> []) l ->
  n + Zlen (concat (map (app (str ", ")) l)) < 2 ^ 64 ->
  fold_left add_width l n = n + Zlen (concat (map (app (str ", ")) l)).
Proof.
  induction l as [|s l IH]; intros n Hn Hl Hb; cbn [fold_left map concat]; [change (Zlen []) with 0; lia|].
  apply Forall_cons in Hl as [Hs Hl]. cbn [map concat] in Hb. rewrite !Zlen_app, Zlen_delim in Hb |- *.
  pose proof (Zlen_nonneg s). pose proof (Zlen_nonneg (concat (map (app (str ", ")) l))).
  assert (add_width n s = n + 2 + Zlen s) as ->.
  { unfold add_width. zfalse (n =? 0). cbn [negb]. rewrite (u64_small (n + 2)) by lia. by rewrite u64_small by lia. }
  rewrite IH by (done || lia). lia.
Qed.

Lemma item_width_spec (x : T) : sane x -> item_width x = Zlen (names_text x).
Proof.
  intros [Hne Hb]. unfold item_width, names_text, join in *. destruct (names x) as [|s l]; [done|].
  apply Forall_cons in Hne as [Hs Hl]. cbn [fold_left]. rewrite Zlen_app in *.
  pose proof (Zlen_nonneg s). pose proof (Zlen_nonneg (concat (map (app (str ", ")) l))).
  assert (0 < Zlen s) by (destruct s; [done|]; rewrite Zlen_cons; pose proof (Zlen_nonneg s); lia).
  assert (add_width 0 s = Zlen s) as -> by (unfold add_width; simpl; rewrite u64_small; lia).
  apply add_width_fold; [lia|done|lia].
Qed.

Lemma widest_nonneg (items : list T) : 0 <= widest items.
Proof. induction items as [|x items IH]; simpl; [done|]. pose proof (Zlen_nonneg (names_text x)). lia. Qed.

Lemma max_name_width_spec (items : list T) : Forall sane items -> max_name_width items = widest items.
Proof.
  unfold max_name_width. intros Hs.
  assert (forall b, 0 <= b -> fold_left (fun biggest x => if biggest <? item_width x then item_width x else biggest) items b
    = Z.max b (widest items)) as Hg; [|rewrite Hg by done; pose proof (widest_nonneg items); lia].
  induction Hs as [|x items Hx _ IH]; intros b Hb; simpl; [lia|].
  rewrite IH, item_width_spec by (done || (pose proof (Zlen_nonneg (names_text x)); rewrite ?item_width_spec by done; ztest)).
  ztest.
Qed.

Lemma dump_names_tail l : forall ss w, 0 <= w -> w + Zlen (concat (map (app (str ", ")) l)) < 2 ^ 64 ->
  dump_names true l ss w = (ss ++ concat (map (app (str ", ")) l), w + Zlen (concat (map (app (str ", ")) l))).
Proof.
  induction l as [|s l IH]; intros ss w Hw Hb; cbn [dump_names map concat].
  - rewrite app_nil_r. change (Zlen []) with 0. by rewrite Z.add_0_r.
  - cbn [map concat] in Hb. rewrite !Zlen_app, Zlen_delim in Hb |- *. pose proof (Zlen_nonneg s).
    pose proof (Zlen_nonneg (concat (map (app (str ", ")) l))).
    rewrite (u64_small (w + 2)), (u64_small (w + 2 + Zlen s)) by lia. rewrite IH by lia. f_equal; [|lia].
    by rewrite <-!app_assoc.
Qed.

Lemma dump_names_spec (x : T) ss : sane x ->
  dump_names false (names x) ss 0 = (ss ++ names_text x, Zlen (names_text x)).
Proof.
  intros [_ Hb]. unfold names_text, join in *. destruct (names x) as [|s l]; cbn [dump_names]; [by rewrite app_nil_r|].
  rewrite Zlen_app in Hb |- *. pose proof (Zlen_nonneg s). pose proof (Zlen_nonneg (concat (map (app (str ", ")) l))).
  rewrite u64_small by lia. rewrite Z.add_0_l, dump_names_tail by lia. by rewrite app_assoc.
Qed.

Lemma dump_item_spec (x : T) nw ss : sane x -> 10 <= nw <= 30 -> (Zlen (names_text x) <= 30 -> Zlen (names_text x) <= nw) ->
  dump_item nw ss x = if Zlen (names_text x) <=? 30 then Ok (ss ++ item_line nw x) else Undef.
Proof.
  intros Hs Hnw Hw. unfold dump_item. rewrite dump_names_spec by done. pose proof (Zlen_nonneg (names_text x)).
  destruct (Z.leb_spec (Zlen (names_text x)) 30) as [Hle|Hgt].
  - specialize (Hw Hle). rewrite (u64_small (nw - _)), u64_small by lia. unfold eighty_spaces.
    ztrue (0 <=? 80 - (nw - Zlen (names_text x))). ztrue (80 - (nw - Zlen (names_text x)) <=? 80). cbn [andb bind].
    replace (80 - (80 - (nw - Zlen (names_text x)))) with (nw - Zlen (names_text x)) by lia.
    unfold item_line. by rewrite <-!app_assoc.
  - destruct Hs as [_ Hb]. unfold eighty_spaces.
    assert (u64 (80 - u64 (nw - Zlen (names_text x))) = 80 + Zlen (names_text x) - nw) as ->.
    { unfold u64. rewrite Zminus_mod_idemp_r, Z.mod_small by lia. lia. }
    ztrue (0 <=? 80 + Zlen (names_text x) - nw). by zfalse (80 + Zlen (names_text x) - nw <=? 80).
Qed.

Lemma dump_all_spec (items : list T) nw : Forall sane items -> 10 <= nw <= 30 ->
  (forall x, x ∈ items -> Zlen (names_text x) <= 30 -> Zlen (names_text x) <= nw) -> forall ss,
  dump_all nw ss items =
  if bool_decide (Forall (fun x => Zlen (names_text x) <= 30) items) then Ok (ss ++ concat (map (item_line nw) items)) else Undef.
Proof.
  intros Hs Hnw. induction Hs as [|x items Hx _ IH]; intros Hw ss; cbn [dump_all map concat].
  - by rewrite bool_decide_true, app_nil_r by constructor.
  - rewrite dump_item_spec by (done || (apply Hw; by left)). destruct (Z.leb_spec (Zlen (names_text x)) 30) as [Hle|Hgt]; cbn [bind].
    + rewrite IH by (intros y Hy; apply Hw; by right). rewrite (bool_decide_ext _ (Forall (fun x => Zlen (names_text x) <= 30) (x :: items)))
        by (rewrite Forall_cons; naive_solver). by rewrite <-app_assoc.
    + rewrite bool_decide_false; [done|]. intros [Hle _]%Forall_cons. lia.
Qed.

Lemma dump_items_spec (items : list T) nw ss label : Forall sane items -> 10 <= nw <= 30 ->
  (forall x, x ∈ items -> Zlen (names_text x) <= 30 -> Zlen (names_text x) <= nw) ->
  dump_items ss items label nw =
  if bool_decide (Forall (fun x => Zlen (names_text x) <= 30) items) then Ok (ss ++ section_text label nw items) else Undef.
Proof.
  intros Hs Hnw Hw. unfold dump_items, section_text. destruct items as [|x items].
  - by rewrite bool_decide_true, app_nil_r by constructor.
  - rewrite dump_all_spec by done. by rewrite <-!app_assoc.
Qed.

(** The usage line, when the pieces [ps] are already on it. *)
Lemma usage_of_spec (u : T -> res (list Z)) (t : T -> list Z) (items : list T) ss :
  (forall x, u x = if bool_decide (names x = []) then Undef else Ok (t x)) -> forall ps,
  Zlen ps + Zlen items < 2 ^ 32 ->
  usage_of u (ss ++ join [32] ps, Zlen ps) items =
  if bool_decide (Forall (fun x => names x <> []) items)
  then Ok (ss ++ join [32] (ps ++ map t items), Zlen (ps ++ map t items)) else Undef.
Proof.
  intros Hu. induction items as [|x items IH]; intros ps Hb; cbn [usage_of map].
  - by rewrite bool_decide_true, app_nil_r by constructor.
  - rewrite Hu, Zlen_cons in *. pose proof (Zlen_nonneg items). pose proof (Zlen_nonneg ps).
    destruct (bool_decide_reflect (names x = [])) as [He|He]; cbn [bind].
    + rewrite bool_decide_false; [done|]. by intros [Hne _]%Forall_cons.
    + assert (put_usage (ss ++ join [32] ps, Zlen ps) (t x) = (ss ++ join [32] (ps ++ [t x]), Zlen (ps ++ [t x]))) as ->.
      { unfold put_usage. rewrite Zlen_app, Zlen_cons. change (Zlen []) with 0. rewrite u32_small by lia. f_equal.
        destruct ps as [|p ps]; [cbn [map concat join app]; by rewrite !app_nil_r|]. rewrite join_snoc by done.
        rewrite Zlen_cons in *. pose proof (Zlen_nonneg ps). zfalse (1 + Zlen ps =? 0). cbn [negb]. by rewrite <-!app_assoc. }
      rewrite IH by (rewrite Zlen_app, Zlen_cons; change (Zlen []) with 0; lia). rewrite <-app_assoc.
      rewrite (bool_decide_ext _ (Forall (fun x => names x <> []) (x :: items))) by (rewrite Forall_cons; naive_solver). done.
Qed.

Lemma widest_le (items : list T) x : x ∈ items -> Zlen (names_text x) <= widest items.
Proof. induction 1 as [x items|x y items _ IH]; simpl; lia. Qed.

Lemma widest_shown (items : list T) : Forall (fun x => Zlen (names_text x) <= 30) items -> widest items <= 30.
Proof. induction 1; simpl; lia. Qed.
End layout_lemmas.

Lemma usage_of_flag_spec f : usage_of_flag f = if bool_decide (names f = []) then Undef else Ok (flag_usage f).
Proof. unfold usage_of_flag, flag_usage, names; simpl. by destruct (flag_names f). Qed.

Lemma usage_of_param_spec p : get_usage_for_param p = if bool_decide (names p = []) then Undef else Ok (param_usage p).
Proof. unfold param_usage, get_usage_for_param, names; simpl. by destruct (param_names p). Qed.

(** What comes before the usage line. *)
Definition heading (c : cmdline) : list Z :=
  let prog := get_program_name c in
  join (str ": ") (filter (fun s => s <> []) [prog; description c]) ++
  (if bool_decide (prog = []) && bool_decide (description c = []) then [] else [LF; LF]).

Lemma heading_spec (c : cmdline) :
  let prog := get_program_name c in
  let ps := if bool_decide (prog = []) then [] else [prog] in
  (let '(ss, n) := if bool_decide (prog = []) then ([], 0) else (prog, 1) in
   let '(ss, n) :=
     if bool_decide (description c = []) then (ss, n) else (delimit ss n (str ": ") ++ description c, u32 (n + 1)) in
   let ss := delimit ss n [LF; LF] in
   if bool_decide (prog = []) then (ss, 0) else (ss ++ prog, 1)) = (heading c ++ join [32] ps, Zlen ps).
Proof.
  unfold heading. generalize (get_program_name c) as prog, (description c) as desc. intros prog desc. cbv zeta.
  rewrite !filter_cons, filter_nil.
  destruct (bool_decide_reflect (prog = [])) as [->|Hp]; destruct (bool_decide_reflect (desc = [])) as [->|Hd].
  - done.
  - rewrite decide_False by (intros Hn; by apply Hn). rewrite decide_True by done. unfold delimit, join. cbn.
    by rewrite !app_nil_r.
  - rewrite decide_True by done. rewrite decide_False by (intros Hn; by apply Hn). unfold delimit, join. cbn.
    by rewrite !app_nil_r.
  - rewrite !decide_True by done. unfold delimit, join. cbn [negb Z.eqb map concat andb]. rewrite !app_nil_r.
    replace (u32 (1 + 1) =? 0) with false by done. replace (1 =? 0) with false by done. cbn [negb]. by rewrite <-!app_assoc.
Qed.

Lemma shown_split {T} `{item T} (l : list T) :
  Forall shown l <-> Forall (fun x => names x <> []) l /\ Forall (fun x => Zlen (names_text x) <= 30) l.
Proof. unfold shown. by rewrite Forall_and. Qed.

(** C22: The help text of a validated cmdline, exactly.  It is the documented
    layout, every help beginning in the same column, when every flag and
    parameter has a name and its names together take at most 30 chars; and it is
    undefined behaviour otherwise, where the code reads past the blanks it pads
    with or a name that is not there. *)
Theorem help_layout (c : cmdline) :
  phase c = usage -> Forall sane (flags c) -> Forall sane (params c) -> Zlen (flags c) + Zlen (params c) < 2 ^ 31 ->
  get_help c = if bool_decide (Forall shown (flags c) /\ Forall shown (params c)) then Ok (help_text c) else Undef.
Proof.
  intros Hphase Hf Hp Hlen. unfold get_help, in_phase. rewrite bool_decide_true by done. cbn [precondition bind].
  unfold get_max_name_width. rewrite !max_name_width_spec by done.
  set (nw := Z.min (Z.max 10 (Z.max (widest (flags c)) (widest (params c)))) 30).
  pose proof (heading_spec c) as Hh. cbv zeta in Hh.
  destruct (if bool_decide (get_program_name c = []) then ([], 0) else (get_program_name c, 1)) as [ss1 n1].
  destruct (if bool_decide (description c = []) then (ss1, n1) else _) as [ss2 n2]. rewrite Hh.
  set (ps := if bool_decide (get_program_name c = []) then [] else [get_program_name c]).
  assert (Zlen ps <= 1) as Hps by (unfold ps; case_bool_decide; done).
  pose proof (Zlen_nonneg (flags c)). pose proof (Zlen_nonneg (params c)).
  rewrite (usage_of_spec _ _ _ _ usage_of_flag_spec) by lia.
  assert ((Forall shown (flags c) /\ Forall shown (params c)) <->
    (Forall (fun x => names x <> []) (flags c) /\ Forall (fun x => Zlen (names_text x) <= 30) (flags c)) /\
    (Forall (fun x => names x <> []) (params c) /\ Forall (fun x => Zlen (names_text x) <= 30) (params c))) as Hiff
    by (by rewrite !shown_split).
  rewrite (bool_decide_ext _ _ Hiff).
  destruct (bool_decide_reflect (Forall (fun x : cmdline_flag => names x <> []) (flags c))) as [Hnf|Hnf]; cbn [bind];
    [|rewrite bool_decide_false; naive_solver].
  rewrite (usage_of_spec _ _ _ _ usage_of_param_spec)
    by (rewrite Zlen_app; unfold Zlen in *; rewrite length_map; lia).
  destruct (bool_decide_reflect (Forall (fun x : cmdline_param => names x <> []) (params c))) as [Hnp|Hnp]; cbn [bind];
    [|rewrite bool_decide_false; naive_solver].
  rewrite dump_items_spec by (done || (unfold nw; lia) || (intros x Hx; pose proof (widest_le _ _ Hx); unfold nw; lia)).
  destruct (bool_decide_reflect (Forall (fun x : cmdline_flag => Zlen (names_text x) <= 30) (flags c))) as [Hwf|Hwf]; cbn [bind];
    [|rewrite bool_decide_false; naive_solver].
  rewrite dump_items_spec by (done || (unfold nw; lia) || (intros x Hx; pose proof (widest_le _ _ Hx); unfold nw; lia)).
  destruct (bool_decide_reflect (Forall (fun x : cmdline_param => Zlen (names_text x) <= 30) (params c))) as [Hwp|Hwp]; cbn [bind];
    [|rewrite bool_decide_false; naive_solver].
  rewrite (bool_decide_true ((_ /\ _) /\ _)) by naive_solver. f_equal. unfold help_text, delimit.
  assert (nw = Z.max 10 (Z.max (widest (flags c)) (widest (params c)))) as ->
    by (unfold nw; pose proof (widest_shown _ Hwf); pose proof (widest_shown _ Hwp); lia).
  rewrite <-!(app_assoc ps). assert (ps ++ map flag_usage (flags c) ++ map param_usage (params c) = usage_pieces c) as Hps' by done.
  rewrite !Hps'. unfold heading. assert (Zlen (usage_pieces c) =? 0 = bool_decide (usage_pieces c = [])) as ->.
  { destruct (usage_pieces c) as [|u us]; [done|]. rewrite Zlen_cons, bool_decide_false by done.
    pose proof (Zlen_nonneg us). by zfalse (1 + Zlen us =? 0). }
  destruct (bool_decide (usage_pieces c = [])), (bool_decide (epilog c = [])); cbn [negb]; rewrite <-!app_assoc; cbn [app];
    rewrite ?app_nil_r; done.
Qed.

Definition sample : mem :=
  cstr_at 16 "-i, --infile" ∪ cstr_at 100 "input file" ∪ cstr_at 300 "-h, --help" ∪ cstr_at 400 "convert".

Definition sample_cmdline : cmdline :=
  match (let! c := set_program_name sample cmdline_new 400 in
         let! c := define_flag sample c 300 100 in
         let! c := define_param sample c 16 100 "+"%ch 0 0 0 in validate c) with
  | Ok c => c | _ => cmdline_new end.

Lemma help_layout_witness :
  get_help sample_cmdline =
  Ok (str "convert" ++ [LF; LF] ++ str "convert [-h] -i=INFILE [-i=INFILE...]" ++ [LF] ++
      [LF] ++ str "flags" ++ [LF] ++ str "    -h, --help      input file" ++ [LF] ++
      [LF] ++ str "options" ++ [LF] ++ str "    -i, --infile    input file" ++ [LF]).
Proof. rewrite (help_layout sample_cmdline); [vm_compute; reflexivity|decided..]. Defined.

(** A flag defined with no names, or with a wide name, makes the help undefined. *)
Lemma help_undefined :
  (let m := cstr_at 16 "--a-flag-with-a-name-of-32-chars" ∪ cstr_at 100 "help" in
   let! c := define_flag m cmdline_new 16 100 in let! c := validate c in get_help c) = Undef /\
  (let! c := define_flag sample cmdline_new 0 100 in let! c := validate c in get_help c) = Undef.
Proof. split; vm_compute; reflexivity. Qed.

(** The placeholder is that of the last name shorter than all before it, even a
    name of one char. *)
Lemma placeholder_of_short_name :
  generate_placeholder [str "--style"; str "-s"] = Ok (str "S") /\
  generate_placeholder [str "-s"; str "--style"] = Ok (str "STYLE").
Proof. by vm_compute. Qed.

(** The first of several names may lack the hyphen that the others need, and
    NUL is an occurrence rule. *)
Lemma define_param_accepts :
  let m := cstr_at 16 "infile,-i" ∪ cstr_at 100 "help" in
  exists c, define_param m cmdline_new 16 100 0 0 0 0 = Ok c /\
    map param_names (params c) = [[str "infile"; str "-i"]].
Proof. eexists. by vm_compute. Qed.

(** [set_args] adds to the arguments of an earlier call. *)
Lemma set_args_accumulates c l k : phase c = usage ->
  (let! c := set_args_list c l in set_args_list c k) = Ok (with_args c (args c ++ l ++ k)).
Proof.
  intros Hp. unfold set_args_list, in_phase. rewrite bool_decide_true by done. cbn [precondition bind with_args phase].
  rewrite bool_decide_true by done. cbn [precondition bind with_args args]. by rewrite <-app_assoc.
Qed.

(** * The life of a cmdline

    A client calls operations in any order, and catches what they throw: an
    operation that throws has not changed the cmdline. *)

Inductive operation : Type :=
| op_program_name (p : Z) | op_description (p : Z) | op_epilog (p : Z)
| op_source (source : Z) (include_positionals : bool)
| op_param (names help rule place valid ref_data : Z) | op_flag (names help : Z)
| op_validate | op_args (argv : list Z).

Definition run_operation (m : mem) (c : cmdline) (o : operation) : res cmdline :=
  match o with
  | op_program_name p => set_program_name m c p
  | op_description p => set_description m c p
  | op_epilog p => set_epilog m c p
  | op_source s b => add_source c s b
  | op_param n h r p v d => define_param m c n h r p v d
  | op_flag n h => define_flag m c n h
  | op_validate => validate c
  | op_args argv => set_args m c argv
  end.

Definition attempt (m : mem) (c : cmdline) (o : operation) : res cmdline :=
  match run_operation m c o with Throw _ => Ok c | r => r end.

Fixpoint attempts (m : mem) (c : cmdline) (ops : list operation) : res cmdline :=
  match ops with [] => Ok c | o :: ops => let! c := attempt m c o in attempts m c ops end.

(** The arguments are C strings in ASCII; names, helps and placeholders may be
    null where the code tests for it. *)
Definition ascii_text (l : list Z) : Prop := Forall (fun c => 0 < c < 128) l.
Definition text (m : mem) (p : Z) : Prop := exists l, holds_cstr m p l /\ ascii_text l.
Definition operation_ok (m : mem) (o : operation) : Prop :=
  match o with
  | op_program_name p | op_description p | op_epilog p => text m p
  | op_source _ _ | op_validate => True
  | op_param n h _ p _ _ => (n = 0 \/ text m n) /\ (h = 0 \/ text m h) /\ (p = 0 \/ text m p)
  | op_flag n h => (n = 0 \/ text m n) /\ text m h
  | op_args argv => Forall (text m) argv
  end.

(** A name as it can be typed: not empty, without the chars that separate
    names. *)
Definition name_ok (n : list Z) : Prop := n <> [] /\ Forall (fun c => strchr_in (str ", ") c = false) n.
Definition param_ok (p : cmdline_param) : Prop :=
  Forall name_ok (param_names p) /\ strchr_in occurrence_rules (occurrence_rule p) = true /\
  Forall (fun n => char0 n = "-"%ch) (tail (param_names p)) /\ param_help p <> [].

(** The invariant of the class. *)
Definition cmdline_ok (c : cmdline) : Prop :=
  phase c <> validation /\ (phase c = definition -> args c = []) /\
  Forall (fun f => Forall name_ok (flag_names f)) (flags c) /\ Forall param_ok (params c).

(** What stays the same once a cmdline is in use. *)
Definition same_definitions (c c' : cmdline) : Prop :=
  program_name c' = program_name c /\ description c' = description c /\ epilog c' = epilog c /\
  sources c' = sources c /\ params c' = params c /\ flags c' = flags c.

Lemma text_string m p : text m p -> exists l, string_of_cstr m p = Ok l.
Proof. intros (l & Hl & _). exists l. by apply string_of_cstr_spec. Qed.

Lemma text_null m p : p = 0 \/ text m p ->
  exists b, is_null_or_empty m p = Ok b /\ (b = false -> exists l, string_of_cstr m p = Ok l /\ l <> []).
Proof.
  intros [->|(l & Hl & _)]; [by exists true|]. exists (bool_decide (l = [])). split; [by apply is_null_or_empty_spec|].
  intros Hb. exists l. split; [by apply string_of_cstr_spec|by apply bool_decide_eq_false in Hb].
Qed.

(** Names as [split] gives them. *)
Lemma split_names m p : p = 0 \/ text m p ->
  exists ls, split m p (str ", ") = Ok ls /\ Forall name_ok ls /\ Forall ascii_text ls.
Proof.
  intros [->|(l & Hl & Ha)]; [by exists []|]. exists (runs (strchr_in (str ", ")) l []).
  split; [by apply split_spec|]. split; [by apply runs_pieces|]. unfold ascii_text in *. apply Forall_concat.
  rewrite runs_concat. simpl. rewrite Forall_forall in *. intros c [_ Hc]%list_elem_of_filter. by apply Ha.
Qed.

Lemma ascii_after_prefix s : ascii_text s -> ascii_text (get_name_after_prefix s).
Proof.
  unfold ascii_text, get_name_after_prefix. intros Hs. assert (Forall (fun c => 0 < c < 128) (c_str s)) as Hc.
  { clear -Hs. induction Hs as [|c s Hc _ IH]; simpl; [constructor|]. zfalse (c =? 0). by constructor. }
  clear Hs. induction Hc as [|c l Hc Hl IH]; simpl; [constructor|]. destruct (c =? 45); [done|by constructor].
Qed.

Lemma capitals_total s : ascii_text s -> exists u, capitals s = Ok u.
Proof.
  induction 1 as [|c s Hc _ [u Hu]]; [by exists []|]. cbn [capitals]. unfold isalnum, toupper.
  ztrue (-1 <=? c). ztrue (c <=? 255). cbn [andb bind]. destruct (is_ascii_alphanumeric c); cbn [bind]; rewrite Hu; by eexists.
Qed.

Lemma generate_placeholder_total ls : Forall ascii_text ls -> exists s, generate_placeholder ls = Ok s.
Proof.
  intros Hls.
  assert (forall best, (forall s, best.1 = Some s -> ascii_text s) ->
    forall s, (fold_left choose_name ls best).1 = Some s -> ascii_text s) as Hfold.
  { induction Hls as [|n ls Hn _ IH]; intros best Hb s Hs; [by apply Hb|]. simpl in Hs. eapply IH; [|exact Hs].
    intros s' Hs'. unfold choose_name in Hs'. destruct best as [best_name best_len].
    match type of Hs' with (if ?b then _ else _).1 = _ => destruct b end; [|by apply Hb].
    simpl in Hs'. injection Hs' as <-. by apply ascii_after_prefix. }
  unfold generate_placeholder.
  set (best := match ls with [n] => (Some (get_name_after_prefix n), u32 (Zlen (get_name_after_prefix n)))
               | _ => fold_left choose_name ls (None, 0) end).
  assert (forall s, best.1 = Some s -> ascii_text s) as Hbest.
  { unfold best. destruct ls as [|n [|n' ls]]; [done| |by apply Hfold].
    simpl. intros s [= <-]. apply ascii_after_prefix. by apply Forall_cons in Hls as [Hn _]. }
  destruct best as [[s|] len]; [|by exists []]. apply capitals_total, Forall_take. by apply Hbest.
Qed.

Lemma check_prefixes_spec positional l :
  match check_prefixes positional l with
  | Ok _ => Forall (fun n => negb (char0 n =? "-"%ch) = positional) l
  | Throw _ => True
  | _ => False
  end.
Proof.
  induction l as [|n l IH]; cbn [check_prefixes]; [constructor|]. unfold precondition at 1.
  destruct (Bool.eqb _ positional) eqn:E; cbn [bind]; [|done]. destruct (check_prefixes positional l); try done.
  constructor; [by apply Bool.eqb_prop|done].
Qed.

Lemma in_phase_cases c p : phase c = p /\ in_phase c p = Ok tt \/ phase c <> p /\ exists e, in_phase c p = Throw e.
Proof. unfold in_phase, precondition. case_bool_decide; [by left|right; split; [done|by eexists]]. Qed.

(** [define_param] adds a well-formed parameter or throws. *)
Lemma define_param_spec m c n h r p v d : operation_ok m (op_param n h r p v d) ->
  match define_param m c n h r p v d with
  | Ok c' => phase c = definition /\ exists x, c' = with_params c (params c ++ [x]) /\ param_ok x
  | Throw _ => True
  | _ => False
  end.
Proof.
  intros (Hn & Hh & Hp). unfold define_param. destruct (in_phase_cases c definition) as [[Hd ->]|[_ [e ->]]]; [|done].
  cbn [bind]. destruct (text_null m n Hn) as (bn & -> & _). cbn [bind]. unfold precondition at 1. destruct bn; cbn [negb bind]; [done|].
  destruct (text_null m h Hh) as (bh & -> & Hhelp). cbn [bind]. unfold precondition at 1. destruct bh; cbn [negb bind]; [done|].
  unfold precondition at 1. destruct (strchr_in occurrence_rules r) eqn:Er; cbn [bind]; [|done].
  destruct (split_names m n Hn) as (ls & -> & Hls & Hascii). cbn [bind].
  pose proof (check_prefixes_spec (names_positional ls) (tail ls)) as Hchk.
  destruct (check_prefixes _ _) as [[]| | |]; try done. cbn [bind].
  destruct (Hhelp eq_refl) as (help_text & -> & Hne). cbn [bind].
  assert (exists holder, (if negb (p =? 0) then string_of_cstr m p else generate_placeholder ls) = Ok holder) as (holder & ->).
  { destruct (Z.eqb_spec p 0) as [->|Hp0]; simpl; [by apply generate_placeholder_total|]. destruct Hp as [|Hp]; [done|].
    by apply text_string. }
  cbn [bind]. split; [done|]. eexists. split; [done|]. split; [done|]. split; [done|]. split; [|done]. simpl.
  destruct ls as [|x [|y ls]]; [constructor..|]. simpl in *. eapply Forall_impl; [exact Hchk|]. simpl. intros z Hz.
  by apply negb_false_iff, Z.eqb_eq in Hz.
Qed.

Lemma push_args_total m argv : forall c, Forall (text m) argv -> exists l, push_args m c argv = Ok (with_args c (args c ++ l)).
Proof.
  induction argv as [|p argv IH]; intros c Hargv; cbn [push_args].
  - exists []. rewrite app_nil_r. by destruct c.
  - apply Forall_cons in Hargv as [Hp Hargv]. destruct (text_string m p Hp) as [s ->]. cbn [bind].
    destruct (IH (with_args c (args c ++ [s])) Hargv) as [l ->]. exists (s :: l). cbn. by rewrite <-app_assoc.
Qed.

(** What one operation does to the invariant. *)
Definition step_ok (c c' : cmdline) : Prop :=
  cmdline_ok c' /\ (phase c = usage -> phase c' = usage /\ same_definitions c c' /\ args c `prefix_of` args c').

Lemma step_ok_refl c : cmdline_ok c -> step_ok c c.
Proof. done. Qed.

Lemma attempt_ok m c o : operation_ok m o -> cmdline_ok c -> exists c', attempt m c o = Ok c' /\ step_ok c c'.
Proof.
  intros Ho Hc. pose proof Hc as (Hval & Hargs & Hflags & Hparams). unfold attempt.
  assert (forall f : unit -> res cmdline, (phase c = definition -> exists c', f tt = Ok c' /\ cmdline_ok c') ->
    exists c', match (let! u := in_phase c definition in f u) with Throw _ => Ok c | r => r end = Ok c' /\ step_ok c c') as Hdef.
  { intros f Hf. destruct (in_phase_cases c definition) as [[Hd ->]|[Hd [e ->]]]; cbn [bind]; [|by exists c].
    destruct (Hf Hd) as (c' & -> & Hc'). exists c'. split; [done|]. split; [done|]. rewrite Hd. done. }
  destruct o as [p|p|p|s b|n h r p v d|n h| |argv]; simpl in Ho |- *.
  1-3: apply Hdef; intros _; destruct (text_string m p Ho) as [l ->]; by eexists.
  - apply Hdef. intros _. by eexists.
  - pose proof (define_param_spec m c n h r p v d Ho) as Hs.
    destruct (define_param m c n h r p v d) as [c'| | |]; try done; [|by exists c].
    destruct Hs as (Hd & x & -> & Hx). eexists. split; [done|]. split; [|by rewrite Hd].
    split; [done|]. split; [done|]. split; [done|]. simpl. apply Forall_app. split; [done|by apply Forall_singleton].
  - apply Hdef. intros _. destruct Ho as [Hn Hh]. destruct (split_names m n Hn) as (ls & -> & Hls & _). cbn [bind].
    destruct (text_string m h Hh) as [l ->]. eexists. split; [done|]. split; [done|]. split; [done|]. split; [|done]. simpl.
    apply Forall_app. split; [done|by apply Forall_singleton].
  - apply Hdef. intros _. eexists. split; [done|]. by repeat split.
  - unfold set_args. destruct (in_phase_cases c usage) as [[Hu ->]|[Hu [e ->]]]; cbn [bind]; [|by exists c].
    destruct (push_args_total m argv c Ho) as [l ->]. eexists. split; [done|]. split.
    + split; [done|]. split; [intros Hd; simpl in Hd; congruence|done].
    + intros _. split; [done|]. split; [done|]. simpl. by apply prefix_app_r.
Qed.

Lemma attempts_ok m ops : forall c, Forall (operation_ok m) ops -> cmdline_ok c -> exists c', attempts m c ops = Ok c' /\ step_ok c c'.
Proof.
  induction ops as [|o ops IH]; intros c Hops Hc; [by exists c|]. apply Forall_cons in Hops as [Ho Hops].
  destruct (attempt_ok m c o Ho Hc) as (c1 & Hc1 & Hok1 & Hfr1). destruct (IH c1 Hops Hok1) as (c2 & Hc2 & Hok2 & Hfr2).
  exists c2. cbn [attempts]. rewrite Hc1. cbn [bind]. split; [done|]. split; [done|]. intros Hu.
  destruct (Hfr1 Hu) as (Hu1 & Hs1 & Hp1). destruct (Hfr2 Hu1) as (Hu2 & Hs2 & Hp2). split; [done|]. split; [|by etransitivity].
  unfold same_definitions in *. naive_solver congruence.
Qed.

(** C12: Whatever operations a client performs on a new cmdline, in whatever
    order, with ASCII texts and null only where it is tested for, every one
    returns or throws; the cmdline is never left in validation and has no
    arguments before it was validated; every flag and parameter has well-formed
    names, every parameter a rule and a help, and hyphens before all its names
    but the first; and once validated the definitions never change again and
    arguments are only added. *)
Theorem cmdline_invariant (m : mem) (ops ops' : list operation) :
  Forall (operation_ok m) ops -> Forall (operation_ok m) ops' ->
  exists c c', attempts m cmdline_new ops = Ok c /\ attempts m c ops' = Ok c' /\ cmdline_ok c /\ cmdline_ok c' /\
    (phase c = usage -> phase c' = usage /\ same_definitions c c' /\ args c `prefix_of` args c').
Proof.
  intros Hops Hops'. destruct (attempts_ok m ops cmdline_new Hops) as (c & Hc & Hok & _); [by repeat split|].
  destruct (attempts_ok m ops' c Hops' Hok) as (c' & Hc' & Hok' & Hfr). by exists c, c'.
Qed.

Lemma cmdline_invariant_witness : exists c c',
  attempts sample cmdline_new [op_program_name 400; op_args [400]; op_param 16 100 "+"%ch 0 0 0; op_validate; op_validate] = Ok c /\
  attempts sample c [op_args [16]; op_flag 300 100; op_args [400]] = Ok c' /\
  cmdline_ok c /\ flags c' = [] /\ args c' = [str "-i, --infile"; str "convert"].
Proof.
  assert (text sample 16 /\ text sample 100 /\ text sample 300 /\ text sample 400) as (H16 & H100 & H300 & H400).
  { split_and!; [exists (str "-i, --infile")|exists (str "input file")|exists (str "-h, --help")|exists (str "convert")]; decided. }
  destruct (cmdline_invariant sample
    [op_program_name 400; op_args [400]; op_param 16 100 "+"%ch 0 0 0; op_validate; op_validate]
    [op_args [16]; op_flag 300 100; op_args [400]]) as (c & c' & Hc & Hc' & Hok & _ & _).
  - rewrite !Forall_cons; simpl; rewrite ?Forall_cons. auto 20.
  - rewrite !Forall_cons; simpl; rewrite ?Forall_cons. auto 20.
  - exists c, c'. split; [exact Hc|]. split; [exact Hc'|]. split; [exact Hok|].
    vm_compute in Hc. injection Hc as <-. vm_compute in Hc'. injection Hc' as <-. split; vm_compute; reflexivity.
Defined.
