(* ===== verification/Arg.v ===== *)
(** * Arguments of any type: core/text/arg.h, arg-inline.h and arg.cpp

    An [arg] is the tagged union of the code.  What the C library prints for a
    format the caller gives, and for a floating-point number, is a parameter,
    [printf]; the default formats of integers and strings are defined here. *)

From stdpp Require Import base tactics list gmap strings.
From Stdlib Require Import ZArith Lia SpecFloat.
From S2P Require Import Prelude CString ScanNumbers Unicode StrView StdString.
#[local] Open Scope Z_scope.

(** ** Data *)

(** A string or a path is given by its chars, a C string by its address. *)
Inductive arg : Type :=
| arg_empty
| arg_signed (i64 : Z)
| arg_unsigned (u64 : Z)
| arg_float (dbl : double)
| arg_date
| arg_string (s : list Z)
| arg_cstr (p : Z)
| arg_path (s : list Z)
| arg_str_view (v : str_view)
| arg_bool (b : bool).

(** The constructors: an integer of any width becomes one of 64 bits. *)
Definition arg_of_int64 (value : Z) : arg := arg_signed value.
Definition arg_of_uint64 (value : Z) : arg := arg_unsigned value.
Definition arg_of_int32 (value : Z) : arg := arg_signed value.
Definition arg_of_uint32 (value : Z) : arg := arg_unsigned value.
Definition arg_of_int16 (value : Z) : arg := arg_signed value.
Definition arg_of_uint16 (value : Z) : arg := arg_unsigned value.
Definition arg_of_int8 (value : Z) : arg := arg_signed value.
Definition arg_of_uint8 (value : Z) : arg := arg_unsigned value.
Definition arg_of_double (value : double) : arg := arg_float value.
Definition arg_of_string (value : list Z) : arg := arg_string value.
Definition arg_of_cstr (value : Z) : arg := arg_cstr value.
Definition arg_of_path (p : list Z) : arg := arg_path p.
Definition arg_of_str_view (txt : str_view) : arg := arg_str_view txt.
Definition arg_of_bool (value : bool) : arg := arg_bool value.

(** ** Printing *)

(** What is handed to the variadic [::snprintf]. *)
Inductive printed : Type :=
| pr_signed (z : Z)
| pr_unsigned (z : Z)
| pr_double (d : double)
| pr_str (s : list Z).

Definition show_signed (z : Z) : list Z := if z <? 0 then "-"%ch :: show_unsigned (- z) else show_unsigned z.

Section printing.
Context (printf : list Z -> printed -> list Z).

(** The text for [format], the default one of the code for nullptr. *)
Definition output (format : option (list Z)) (v : printed) : list Z :=
  match format, v with
  | Some f, _ => printf f v
  | None, pr_signed z => show_signed z
  | None, pr_unsigned z => show_unsigned z
  | None, pr_double d => printf (str "%g") v
  | None, pr_str s => s
  end.

Definition libc_snprintf (m : mem) (buf buflen : Z) (text : list Z) : res (mem * Z) :=
  let! m := snprintf m buf buflen text in Ok (m, i32 (Zlen text)).

(** The chars a C string argument prints. *)
Definition cstr_text (m : mem) (p : Z) : res (list Z) :=
  if p =? 0 then Ok (str "(null)") else string_of_cstr m p.

Definition snprintf_string (m : mem) (buf buflen : Z) (format : option (list Z)) (s : list Z) : res (mem * Z) :=
  if buflen <? Zlen s + 1 then Ok (m, i32 (Zlen s))
  else
    match format with
    | None => let! m := stores m buf (s ++ [0]) in Ok (m, i32 (Zlen s))
    | Some f => libc_snprintf m buf buflen (printf f (pr_str (c_str s)))
    end.

(** [arg::snprintf]: the memory and the result. *)
Definition arg_snprintf (m : mem) (a : arg) (buf buflen : Z) (format : option (list Z)) : res (mem * Z) :=
  let buflen := if buf =? 0 then 0 else buflen in
  match a with
  | arg_empty => libc_snprintf m buf buflen (output format (pr_str []))
  | arg_signed z => libc_snprintf m buf buflen (output format (pr_signed z))
  | arg_unsigned z => libc_snprintf m buf buflen (output format (pr_unsigned z))
  | arg_float d => libc_snprintf m buf buflen (output format (pr_double d))
  | arg_bool b => libc_snprintf m buf buflen (if b then str "true" else str "false")
  | arg_date => Ok (m, 0)
  | arg_path s => snprintf_string m buf buflen format s
  | arg_string s => snprintf_string m buf buflen format s
  | arg_str_view v =>
      let required_size := length v + 1 in
      if buflen <? required_size then Ok (m, i32 (length v))
      else
        let! s := if view_bool v then string_of_cstr m (begin v) else Ok [] in
        libc_snprintf m buf required_size (output format (pr_str s))
  | arg_cstr p => let! s := cstr_text m p in libc_snprintf m buf buflen (output format (pr_str s))
  end.

(** A number is printed into a buffer of 36 chars. *)
Definition via_buffer (text : list Z) : list Z := c_str (take 35 text).

Definition to_string (m : mem) (a : arg) (format : option (list Z)) : res (list Z) :=
  match a with
  | arg_empty => Ok []
  | arg_string s => Ok s
  | arg_str_view v => load_range m (begin v) (view_end v)
  | arg_path s => Ok s
  | arg_cstr p => cstr_text m p
  | arg_bool b => Ok (if b then str "true" else str "false")
  | arg_signed z => Ok (via_buffer (output format (pr_signed z)))
  | arg_unsigned z => Ok (via_buffer (output format (pr_unsigned z)))
  | arg_float d => Ok (via_buffer (output format (pr_double d)))
  | arg_date => Ok []
  end.
End printing.

(** [static_cast<int>] of a double: its whole part, where an int holds it. *)
Definition int_of_double (d : double) : res Z :=
  match d with
  | S754_zero _ => Ok 0
  | S754_finite s mant e =>
      let n := if 0 <=? e then Z.pos mant * 2 ^ e else Z.pos mant / 2 ^ (- e) in
      let n := if s then - n else n in
      if (- 2 ^ 31 <=? n) && (n <? 2 ^ 31) then Ok n else Undef
  | _ => Undef
  end.

(** * Specification of arg::snprintf *)

Section contract.
Context (printf : list Z -> printed -> list Z).

(** All of what an argument prints; a view is left out. *)
Definition arg_text (m : mem) (a : arg) (format : option (list Z)) : res (list Z) :=
  match a with
  | arg_empty => Ok (output printf format (pr_str []))
  | arg_signed z => Ok (output printf format (pr_signed z))
  | arg_unsigned z => Ok (output printf format (pr_unsigned z))
  | arg_float d => Ok (output printf format (pr_double d))
  | arg_bool b => Ok (if b then str "true" else str "false")
  | arg_date | arg_str_view _ => Ok []
  | arg_path s | arg_string s => Ok (match format with None => s | Some f => printf f (pr_str (c_str s)) end)
  | arg_cstr p => let! s := cstr_text m p in Ok (output printf format (pr_str s))
  end.

(** The arguments the contract is about: not a view or a date, and strings
    whose size fits the result. *)
Definition measured (a : arg) : Prop :=
  match a with
  | arg_str_view _ | arg_date => False
  | arg_string s | arg_path s => Zlen s < 2 ^ 31
  | _ => True
  end.

(** Nothing outside the buffer changes. *)
Definition only_within (m m' : mem) (buf buflen : Z) : Prop :=
  forall x, x < buf \/ buf + buflen <= x -> m' !! x = m !! x.

Lemma stores_within m buf old l : holds m buf old -> Zlen l <= Zlen old ->
  exists m', stores m buf l = Ok m' /\ holds m' buf l /\ only_within m m' buf (Zlen old).
Proof.
  intros Hold Hlen. rewrite <-(take_drop (Datatypes.length l) old) in Hold. apply holds_app in Hold as [Hold _].
  destruct (stores_spec m buf _ l Hold) as (m' & Hs & Hm & Helse); [rewrite length_take; unfold Zlen in *; lia|].
  exists m'. split; [done|]. split; [done|]. intros x Hx. apply Helse. lia.
Qed.

(** The outcome that snprintf documents, for a text [text]. *)
Definition printed_within (m : mem) (buf buflen : Z) (text : list Z) (r : res (mem * Z)) : Prop :=
  exists m' n, r = Ok (m', n) /\ only_within m m' buf buflen /\
    (n < buflen -> n = Zlen text /\ holds m' buf (text ++ [0])).

Lemma libc_snprintf_within m buf old text : holds m buf old -> Zlen text < 2 ^ 31 -> 0 < Zlen old ->
  printed_within m buf (Zlen old) text (libc_snprintf m buf (Zlen old) text).
Proof.
  intros Hold Htext Hpos. pose proof (Zlen_nonneg text). unfold libc_snprintf, snprintf. zfalse (Zlen old =? 0).
  set (out := take (Z.to_nat (Zlen old - 1)) text ++ [0]).
  destruct (stores_within m buf old out Hold) as (m' & -> & Hout & Hel).
  { unfold out. rewrite Zlen_app. change (Zlen [0]) with 1. unfold Zlen. rewrite length_take. unfold Zlen in Hpos. lia. }
  cbn [bind]. exists m', (i32 (Zlen text)). rewrite i32_small by lia. split; [done|]. split; [done|]. intros Hlt.
  split; [done|]. unfold out in Hout. rewrite take_ge in Hout; [done|]. unfold Zlen in *. lia.
Qed.

Lemma snprintf_string_within m buf old format s : holds m buf old -> 0 < Zlen old -> Zlen s < 2 ^ 31 ->
  Zlen (match format with None => s | Some f => printf f (pr_str (c_str s)) end) < 2 ^ 31 ->
  printed_within m buf (Zlen old) (match format with None => s | Some f => printf f (pr_str (c_str s)) end)
    (snprintf_string printf m buf (Zlen old) format s).
Proof.
  intros Hold Hpos Hs Htext. pose proof (Zlen_nonneg s). unfold snprintf_string. destruct (Z.ltb_spec (Zlen old) (Zlen s + 1)).
  - exists m, (i32 (Zlen s)). rewrite i32_small by lia. split; [done|]. split; [done|]. lia.
  - destruct format as [f|]; [by apply libc_snprintf_within|].
    destruct (stores_within m buf old (s ++ [0]) Hold) as (m' & -> & Hout & Hel); [rewrite Zlen_app; change (Zlen [0]) with 1; lia|].
    cbn [bind]. exists m', (i32 (Zlen s)). rewrite i32_small by lia. done.
Qed.
End contract.

(** [arg::snprintf] on any argument but a view, in a live buffer of its
    stated length: it writes nothing outside the buffer, and a result smaller
    than the length is the length of the whole text, which the buffer then
    holds with its NUL. *)
Theorem arg_snprintf_bounded printf m a buf old format text :
  0 < buf -> 0 < Zlen old -> holds m buf old ->
  measured a ->
  arg_text printf m a format = Ok text -> Zlen text < 2 ^ 31 ->
  exists m' n, arg_snprintf printf m a buf (Zlen old) format = Ok (m', n) /\ only_within m m' buf (Zlen old) /\
    (n < Zlen old -> n = Zlen text /\ holds m' buf (text ++ [0])).
Proof.
  intros Hbuf Hpos Hold Ha Htext Hlen. change (printed_within m buf (Zlen old) text (arg_snprintf printf m a buf (Zlen old) format)).
  unfold arg_snprintf. zfalse (buf =? 0). destruct a as [|z|z|d| |s|p|s|v|b]; cbn [arg_text] in Htext; try done.
  - injection Htext as <-. by apply libc_snprintf_within.
  - injection Htext as <-. by apply libc_snprintf_within.
  - injection Htext as <-. by apply libc_snprintf_within.
  - injection Htext as <-. by apply libc_snprintf_within.
  - injection Htext as <-. by apply snprintf_string_within.
  - destruct (cstr_text m p) as [s| | |]; try done. injection Htext as <-. by apply libc_snprintf_within.
  - injection Htext as <-. by apply snprintf_string_within.
  - injection Htext as <-. by apply libc_snprintf_within.
Qed.

Definition any_printf (f : list Z) (v : printed) : list Z := str "?".

Lemma arg_snprintf_bounded_witness : exists m' n,
  arg_snprintf any_printf (map_seqZ 16 (repeat 7 10)) (arg_of_int32 (-45)) 16 10 None = Ok (m', n) /\
  n = 3 /\ holds m' 16 (str "-45" ++ [0]).
Proof.
  destruct (arg_snprintf_bounded any_printf (map_seqZ 16 (repeat 7 10)) (arg_of_int32 (-45)) 16 (repeat 7 10) None (str "-45"))
    as (m' & n & Hr & _ & Hn); [lia|reflexivity|decided|exact I|reflexivity|reflexivity|].
  exists m', n. split; [exact Hr|]. apply Hn. vm_compute in Hr. injection Hr as _ <-. reflexivity.
Defined.

(** A view into a longer C string is cut where it ends, but the result is the
    length of the C string. *)
Lemma snprintf_of_view_measures_cstr : exists m',
  arg_snprintf any_printf (cstr_at 16 "hello world" ∪ map_seqZ 64 (repeat 7 20)) (arg_of_str_view (view_of_length 16 5)) 64 20 None = Ok (m', 11) /\
  holds m' 64 (str "hello" ++ [0]).
Proof. eexists. split; [vm_compute; reflexivity|decided]. Qed.

(** On overflow a string is not written at all, and not terminated either. *)
Lemma snprintf_overflow_unterminated :
  let m := map_seqZ 64 (repeat 7 4) in
  arg_snprintf any_printf m (arg_of_string (str "hello")) 64 4 None = Ok (m, 5).
Proof. vm_compute. reflexivity. Qed.
