(* ===== verification/Interp.v ===== *)
(** * Interpolation: core/text/interp.h and interp.cpp

    [interp] copies a format string and replaces the references to arguments
    in it.  [printf] is what the C library prints, as in [Arg]. *)

From stdpp Require Import base tactics list gmap strings.
From Stdlib Require Import ZArith Lia SpecFloat.
From S2P Require Import Prelude CString ScanNumbers Unicode StrView StdString Arg.
#[local] Open Scope Z_scope.

Section interp.
Context (printf : list Z -> printed -> list Z).

Definition format_specifier_buflen : Z := 32.

(** The number that chooses among the candidates of a reference. *)
Definition value_to_compare (m : mem) (a : arg) : res Z :=
  match a with
  | arg_empty => Ok 0
  | arg_signed z => Ok (i32 z)
  | arg_unsigned z => Ok (i32 z)
  | arg_float d => int_of_double d
  | arg_date => Ok 0
  | arg_string s => Ok (if bool_decide (s = []) then 0 else 1)
  | arg_cstr p => let! nothing := is_null_or_empty m p in Ok (if nothing then 0 else 1)
  | arg_bool b => Ok (if b then 1 else 0)
  | _ => Ok 0
  end.

(** The loop over the candidates: [inr] when one is chosen. *)
Definition choice_step (m : mem) (e end_of_arg value : Z) (st : Z * Z) : res (Z * Z + list Z) :=
  let '(begin, j) := st in
  let! end_of_section := find_char m begin "|"%ch end_of_arg in
  if ((j =? value) && (end_of_section <? e)) || (end_of_section =? end_of_arg) then
    let! end_of_section := rtrim m begin end_of_section None in
    let! s := if begin <? end_of_section then load_range m begin end_of_section else Ok [] in
    Ok (inr s)
  else Ok (inl (end_of_section + 1, j + 1)).

(** [*(args.begin() + n - 1)], which has to be one of the arguments. *)
Definition nth_arg (args : list arg) (n : Z) : option arg :=
  if n <=? Zlen args then args !! Z.to_nat (n - 1) else None.

(** Where a reference ends, or [p] when there is none, and the text. *)
Definition scan_arg (m : mem) (p e : Z) (txt : list Z) (args : list arg) (max_arg : Z) : res (Z * list Z) :=
  let! (end_of_section, n) := scan_decimal_digits_pre_radix m p e in
  if (0 <? n) && (u32 n <=? max_arg) then
    match nth_arg args n with
    | None => Undef
    | Some a =>
        let! end_of_arg := find_any_char m end_of_section ["}"%ch; CR; LF] e in
        let! closed := if end_of_arg <? e then let! c := load m end_of_arg in Ok (c =? "}"%ch) else Ok false in
        if closed : bool then
          let! next := scan_spaces_and_tabs m end_of_section e in
          let! c := load m next in
          if c =? "%"%ch then
            let! end_of_section := find_any_char m next ["}"%ch; "="%ch] e in
            let! end_of_section := rtrim m next end_of_section None in
            if end_of_section <? next + format_specifier_buflen then
              let! spec := load_range m next end_of_section in
              let! s := to_string printf m a (Some (c_str spec)) in
              Ok (end_of_arg, txt ++ s)
            else Ok (p, txt)
          else if (c =? "}"%ch) || (c =? "="%ch) then
            let! s := to_string printf m a None in
            Ok (end_of_arg, txt ++ s)
          else if c =? "~"%ch then
            let! value := value_to_compare m a in
            let! begin := ltrim m (next + 1) end_of_arg None in
            let! s := iterate (span_fuel begin end_of_arg) (choice_step m e end_of_arg value) (begin, 0) in
            Ok (end_of_arg, txt ++ s)
          else Ok (p, txt)
        else Ok (p, txt)
    end
  else Ok (p, txt).

(** One turn of the loop over the format. *)
Definition interp_step (m : mem) (e : Z) (args : list arg) (max_arg : Z) (st : Z * list Z) : res (Z * list Z + list Z) :=
  let '(p, txt) := st in
  if p =? e then Ok (inr txt)
  else
    let! c := load m p in
    if (c =? "{"%ch) && (p + 2 <? e) then
      let! d := load m (p + 1) in
      if d =? "{"%ch then Ok (inl (p + 1 + 1, txt ++ [c]))
      else
        let p := p + 1 in
        let! (end_of_arg, txt) := scan_arg m p e txt args max_arg in
        if p <? end_of_arg then Ok (inl (end_of_arg + 1, txt))
        else
          let txt := txt ++ ["{"%ch] in
          let! c := load m p in
          Ok (inl (p + 1, txt ++ [c]))
    else Ok (inl (p + 1, txt ++ [c])).

Definition interp_into (m : mem) (txt : list Z) (format : Z) (args : list arg) : res (list Z) :=
  let! len := strlen m format in
  let e := format + len in
  let max_arg := Z.min (u32 (Zlen args)) 99 in
  iterate (S (size m)) (interp_step m e args max_arg) (format, txt).

Definition interp (m : mem) (format : Z) (args : list arg) : res (list Z) := interp_into m [] format args.
Definition interp_no_args (m : mem) (format : Z) : res (list Z) := string_of_cstr m format.
End interp.

Example interp_tests :
  let run s args := interp any_printf (cstr_at 16 s ∪ cstr_at 200 "world") 16 args in
  run "hello, {1}." [arg_of_cstr 0] = Ok (str "hello, (null).") /\
  run "hello, {2} {2}" [arg_of_int32 0; arg_of_cstr 200] = Ok (str "hello, world world") /\
  run "hello, {200}." [arg_of_cstr 200] = Ok (str "hello, {200}.") /\
  run "x {1 = label for variable}." [arg_of_string (str "my label")] = Ok (str "x my label.") /\
  run "Found {1} warning{1~s||s}." [arg_of_int32 1] = Ok (str "Found 1 warning.") /\
  run "Found {1} warning{1~s||s}." [arg_of_int32 3] = Ok (str "Found 3 warnings.").
Proof. vm_compute. repeat split. Qed.

(** The number of a reference is compared in 32 bits and used in 64: this one
    passes for 1 and is read far behind the arguments. *)
Lemma interp_index_wraps :
  interp any_printf (cstr_at 16 "{4294967297}") 16 [arg_of_int32 5] = Undef.
Proof. vm_compute. reflexivity. Qed.

(** A count is cut to 32 bits before it chooses. *)
Lemma interp_choice_wraps :
  interp any_printf (cstr_at 16 "{1} file{1~s||s}") 16 [arg_of_uint64 4294967297] = Ok (str "4294967297 file").
Proof. vm_compute. reflexivity. Qed.

(** A view counts as 0 whether it is empty or not. *)
Lemma interp_choice_of_view :
  interp any_printf (cstr_at 16 "{1~none|some}" ∪ cstr_at 200 "text") 16 [arg_of_str_view (view_of_length 200 4)] = Ok (str "none").
Proof. vm_compute. reflexivity. Qed.

(** * Templates

    A format string is the text of a template: single chars, escaped braces,
    and references. *)

Inductive ref_tail : Type :=
| plain (comment : option (list Z))
| formatted (spec gap : list Z) (comment : option (list Z))
| choice (candidates : list (list Z)).

Inductive piece : Type :=
| lit (c : Z)
| brace
| ref (n : Z) (gap : list Z) (t : ref_tail).

(** ** Its text *)

Definition print_comment (comment : option (list Z)) : list Z :=
  match comment with Some c => "="%ch :: c | None => [] end.
Definition print_tail (t : ref_tail) : list Z :=
  match t with
  | plain comment => print_comment comment
  | formatted spec gap comment => spec ++ gap ++ print_comment comment
  | choice cs => "~"%ch :: join ["|"%ch] cs
  end.
Definition print_piece (x : piece) : list Z :=
  match x with
  | lit c => [c]
  | brace => ["{"%ch; "{"%ch]
  | ref n gap t => "{"%ch :: show_unsigned n ++ gap ++ print_tail t ++ ["}"%ch]
  end.
Definition print_template (ps : list piece) : list Z := concat (map print_piece ps).

(** ** What it stands for *)

Definition trimmed (c : Z) : bool := strchr_in ANY_WHITESPACE c.
Definition ltrim_text (l : list Z) : list Z := drop (Z.to_nat (scan_len trimmed l)) l.
Definition rtrim_text (l : list Z) : list Z := take (Z.to_nat (Zlen l - scan_len trimmed (rev l))) l.

(** The candidate for a value: the last one for values without their own. *)
Definition pick (cs : list (list Z)) (v : Z) : list Z :=
  rtrim_text (default (default [] (last cs)) (if 0 <=? v then cs !! Z.to_nat v else None)).

Section renders.
Context (printf : list Z -> printed -> list Z) (m : mem) (args : list arg).

(** What the C library prints of a number has to fit the buffer of [arg]. *)
Definition short (s : list Z) : Prop := Zlen s < 36 /\ no_nul s.

(** The numbers, as they are handed to the C library. *)
Inductive number : arg -> printed -> Prop :=
| number_signed z : number (arg_signed z) (pr_signed z)
| number_unsigned z : number (arg_unsigned z) (pr_unsigned z)
| number_float d : number (arg_float d) (pr_double d).

(** The text of an argument without a specifier. *)
Inductive shown : arg -> list Z -> Prop :=
| shown_signed z : shown (arg_signed z) (show_signed z)
| shown_unsigned z : shown (arg_unsigned z) (show_unsigned z)
| shown_float d s : s = printf (str "%g") (pr_double d) -> short s -> shown (arg_float d) s
| shown_bool b : shown (arg_bool b) (str (if b then "true" else "false"))
| shown_string s : shown (arg_string s) s
| shown_path s : shown (arg_path s) s
| shown_view v s : shows m v s -> shown (arg_str_view v) s
| shown_null : shown (arg_cstr 0) (str "(null)")
| shown_cstr p s : p <> 0 -> holds_cstr m p s -> shown (arg_cstr p) s.

(** The integer part of a double: its magnitude is [mant * 2 ^ e], rounded to zero. *)
Inductive whole : double -> Z -> Prop :=
| whole_zero b : whole (S754_zero b) 0
| whole_scaled b mant e n : 0 <= e -> n = Z.pos mant * 2 ^ e -> whole (S754_finite b mant e) (if b then - n else n)
| whole_fraction b mant e n : e < 0 -> n * 2 ^ (- e) <= Z.pos mant < (n + 1) * 2 ^ (- e) ->
    whole (S754_finite b mant e) (if b then - n else n).

(** "The numeric value of an arg is its integer value if the arg is numeric.  For booleans, false = 0 and
    true = 1.  For strings, empty/null = 0, and other values = 1."  (interp.h) *)
Inductive numeric_value : arg -> Z -> Prop :=
| value_signed z : numeric_value (arg_signed z) z
| value_unsigned z : numeric_value (arg_unsigned z) z
| value_float d z : whole d z -> numeric_value (arg_float d) z
| value_bool b : numeric_value (arg_bool b) (if b then 1 else 0)
| value_string s : numeric_value (arg_string s) (if decide (s = []) then 0 else 1)
| value_null : numeric_value (arg_cstr 0) 0
| value_cstr p s : p <> 0 -> holds_cstr m p s -> numeric_value (arg_cstr p) (if decide (s = []) then 0 else 1).

(** A specifier is for numbers, and a value that chooses fits an int. *)
Inductive renders_tail (a : arg) : ref_tail -> list Z -> Prop :=
| renders_plain comment s : shown a s -> renders_tail a (plain comment) s
| renders_formatted spec gap comment v s : number a v -> s = printf spec v -> short s ->
    renders_tail a (formatted spec gap comment) s
| renders_choice c cs v : numeric_value a v -> - 2 ^ 31 <= v < 2 ^ 31 ->
    renders_tail a (choice (c :: cs)) (pick (ltrim_text c :: cs) v).

Inductive renders : list piece -> list Z -> Prop :=
| renders_end : renders [] []
| renders_lit c ps s : renders ps s -> renders (lit c :: ps) (c :: s)
| renders_brace ps s : renders ps s -> renders (brace :: ps) ("{"%ch :: s)
| renders_ref n gap t a ps s1 s2 : args !! Z.to_nat (n - 1) = Some a -> renders_tail a t s1 -> renders ps s2 ->
    renders (ref n gap t :: ps) (s1 ++ s2).

(** ** Well-formed templates *)

(** No char that ends a reference. *)
Definition inside (c : Z) : bool := negb (strchr_in ["}"%ch; CR; LF] c).

Definition comment_ok (comment : option (list Z)) : bool :=
  match comment with Some c => forallb inside c | None => true end.
Definition tail_ok (t : ref_tail) : bool :=
  match t with
  | plain comment => comment_ok comment
  | formatted spec gap comment =>
      (default 0 (head spec) =? "%"%ch) && forallb (fun c => inside c && negb (c =? "="%ch)) spec &&
      negb (trimmed (default 0 (last spec))) && (Zlen spec <? 32) && forallb is_blank gap && comment_ok comment
  | choice cs =>
      negb (bool_decide (cs = [])) && forallb (forallb (fun c => inside c && negb (c =? "|"%ch))) cs
  end.
Definition piece_ok (x : piece) : bool :=
  match x with
  | lit c => negb (c =? 0) && negb (c =? "{"%ch)
  | brace => true
  | ref n gap t => (1 <=? n) && (n <=? 99) && (n <=? Zlen args) && forallb is_blank gap && tail_ok t
  end.
(** An escaped brace is not the end of the text. *)
Fixpoint template_ok (ps : list piece) : bool :=
  match ps with
  | [] => true
  | x :: ps' => piece_ok x && template_ok ps' && match x, ps' with brace, [] => false | _, _ => true end
  end.
End renders.

(** ** Lemmas *)

(** The digits of a number are few enough for the buffer they are printed into. *)
Lemma dec_digits_shape fuel : forall n acc, Forall (fun c => c <> 0) acc ->
  (Datatypes.length (dec_digits fuel n acc) <= fuel + Datatypes.length acc)%nat /\ Forall (fun c => c <> 0) (dec_digits fuel n acc).
Proof.
  induction fuel as [|fuel IH]; intros n acc Hacc; [done|]. cbn [dec_digits].
  assert (Forall (fun c => c <> 0) ("0"%ch + n mod 10 :: acc)) as Hcons.
  { constructor; [|done]. pose proof (Z.mod_pos_bound n 10). change ("0"%ch) with 48. lia. }
  destruct (n / 10 =? 0); [split; [cbn [Datatypes.length]; lia|done]|]. destruct (IH (n / 10) _ Hcons) as [Hl Hf].
  split; [cbn [Datatypes.length] in Hl; lia|done].
Qed.

Lemma via_buffer_short s : short s -> via_buffer s = s.
Proof.
  intros [Hlen Hnul]. unfold via_buffer. rewrite take_ge by (unfold Zlen in Hlen; lia). by apply c_str_no_nul.
Qed.

Lemma show_unsigned_short n : Zlen (show_unsigned n) < 35 /\ no_nul (show_unsigned n).
Proof.
  unfold show_unsigned. destruct (dec_digits_shape 20 n [] ltac:(constructor)) as [Hl Hf]. cbn [Datatypes.length] in Hl.
  split; [unfold Zlen; lia|]. intros H0. rewrite Forall_forall in Hf. by apply Hf in H0.
Qed.

Lemma show_signed_short n : short (show_signed n).
Proof.
  unfold show_signed, short. destruct (n <? 0); [|destruct (show_unsigned_short n); split; [lia|done]].
  destruct (show_unsigned_short (- n)) as [Hl Hn]. split; [rewrite Zlen_cons; lia|]. by apply no_nul_cons.
Qed.

(** The code prints and counts as the documentation has it. *)
Lemma shown_to_string printf m a s : shown printf m a s -> to_string printf m a None = Ok s.
Proof.
  destruct 1 as [z|z|d s -> Hs|b|s|s|v s (Hb & Hlen & Hm)| |p s Hp Hs]; cbn [to_string output]; try done.
  - by rewrite via_buffer_short by apply show_signed_short.
  - rewrite via_buffer_short; [done|]. destruct (show_unsigned_short z). split; [lia|done].
  - by rewrite via_buffer_short.
  - by destruct b.
  - unfold view_end. rewrite Hlen. by apply load_range_spec.
  - unfold cstr_text. zfalse (p =? 0). by apply string_of_cstr_spec.
Qed.

Lemma formatted_to_string printf m a v spec : number a v -> short (printf spec v) -> to_string printf m a (Some spec) = Ok (printf spec v).
Proof. destruct 1; intros Hs; cbn [to_string output]; by rewrite via_buffer_short. Qed.

Lemma whole_int d v : whole d v -> - 2 ^ 31 <= v < 2 ^ 31 -> int_of_double d = Ok v.
Proof.
  intros Hd Hv. destruct Hd as [b|b mant e n He ->|b mant e n He Hn]; [done|..]; unfold int_of_double.
  - ztrue (0 <=? e). destruct b; by replace (_ && _) with true by lia.
  - zfalse (0 <=? e). replace (Z.pos mant / 2 ^ (- e)) with n; [destruct b; by replace (_ && _) with true by lia|].
    pose proof (Z.pow_pos_nonneg 2 (- e)). apply Z.div_unique with (Z.pos mant - 2 ^ (- e) * n); lia.
Qed.

Lemma numeric_value_compared m a v : numeric_value m a v -> - 2 ^ 31 <= v < 2 ^ 31 -> value_to_compare m a = Ok v.
Proof.
  intros Ha Hv. destruct Ha as [z|z|d z Hd|b|s| |p s Hp Hs]; cbn [value_to_compare]; rewrite ?i32_small by lia; try done.
  - by apply whole_int.
  - by case_decide; [rewrite bool_decide_true|rewrite bool_decide_false].
  - rewrite (is_null_or_empty_spec _ _ _ Hs). cbn [bind]. by case_decide; [rewrite bool_decide_true|rewrite bool_decide_false].
Qed.

Lemma forallb_Forall_true {A} (f : A -> bool) l : forallb f l = true -> Forall (fun x => f x = true) l.
Proof. intros H. apply Forall_forall. intros x Hx. rewrite forallb_forall in H. apply H. by apply list_elem_of_In. Qed.

Lemma scan_len_stop ok l rest : Forall (fun c => ok c = true) l -> (forall c, head rest = Some c -> ok c = false) ->
  scan_len ok (l ++ rest) = Zlen l.
Proof.
  intros Hl Hr. rewrite scan_len_app_all by done. destruct rest as [|c rest]; simpl; [lia|]. rewrite (Hr c) by done. lia.
Qed.

(** The numbers a reference can have, written in decimal. *)
Lemma show_unsigned_small n : 1 <= n <= 99 ->
  numeral_value 10 (show_unsigned n) = n /\ Forall (fun c => is_numeral_char 10 c = true) (show_unsigned n) /\
  1 <= Zlen (show_unsigned n).
Proof.
  intros Hn. assert (Forall (fun n => numeral_value 10 (show_unsigned n) = n /\
    Forall (fun c => is_numeral_char 10 c = true) (show_unsigned n) /\ 1 <= Zlen (show_unsigned n)) (seqZ 1 99)) as Hall by decided.
  rewrite Forall_forall in Hall. apply Hall, elem_of_seqZ. lia.
Qed.

Lemma trimmed_default : trimmed = strchr_in (default ANY_WHITESPACE None).
Proof. done. Qed.

Section memory.
Context (m : mem).

Lemma rtrim_block p l : p <> 0 -> holds m p l ->
  rtrim m p (p + Zlen l) None = Ok (p + Zlen (rtrim_text l)) /\ load_range m p (p + Zlen (rtrim_text l)) = Ok (rtrim_text l).
Proof.
  intros Hp Hm. rewrite (rtrim_spec m p None l) by done. rewrite <-trimmed_default.
  pose proof (scan_len_bounds trimmed (rev l)) as Hb. replace (Zlen (rev l)) with (Zlen l) in Hb by (unfold Zlen; by rewrite length_rev).
  assert (Zlen (rtrim_text l) = Zlen l - scan_len trimmed (rev l)) as Hlen.
  { unfold rtrim_text. unfold Zlen at 1. rewrite length_take. unfold Zlen in *. lia. }
  split; [rewrite Hlen; f_equal; lia|]. apply load_range_spec. unfold rtrim_text.
  rewrite <-(take_drop (Z.to_nat (Zlen l - scan_len trimmed (rev l))) l) in Hm. by apply holds_app in Hm as [Hm _].
Qed.

(** The loop over the candidates that are left, from number [j] on. *)
Lemma choice_loop e v cs : forall c fuel b j,
  b <> 0 -> holds m b (join ["|"%ch] (c :: cs) ++ ["}"%ch]) ->
  Forall (Forall (fun x => negb (x =? "|"%ch) = true)) (c :: cs) ->
  b + Zlen (join ["|"%ch] (c :: cs)) <= e -> 0 <= b -> (Datatypes.length cs < fuel)%nat ->
  iterate fuel (choice_step m e (b + Zlen (join ["|"%ch] (c :: cs))) v) (b, j) =
  Ok (rtrim_text (default (default [] (last (c :: cs))) (if j <=? v then (c :: cs) !! Z.to_nat (v - j) else None))).
Proof.
  induction cs as [|c' cs IH]; intros c fuel b j Hb Hm Hcs He Hnn Hf; (destruct fuel as [|fuel]; [lia|]); cbn [iterate];
    unfold choice_step at 1; apply Forall_cons in Hcs as [Hc Hcs].
  - unfold join in *. cbn [map concat] in *. rewrite app_nil_r in *. apply holds_app in Hm as [Hm _].
    rewrite (find_char_spec m b _ c) by done. pose proof (scan_len_stop _ c [] Hc) as Hs. rewrite app_nil_r in Hs.
    rewrite Hs by done. cbn [bind]. ztrue (b + Zlen c =? b + Zlen c). rewrite orb_true_r.
    destruct (rtrim_block b c Hb Hm) as [-> Hload]. cbn [bind]. rewrite Hload.
    assert (default (default [] (last [c])) (if j <=? v then [c] !! Z.to_nat (v - j) else None) = c) as ->.
    { destruct (j <=? v); [|done]. by destruct (Z.to_nat (v - j)) as [|[|k]]. }
    destruct (Z.ltb_spec b (b + Zlen (rtrim_text c))) as [Hlt|Hge]; cbn [bind]; [done|].
    pose proof (Zlen_nonneg (rtrim_text c)). destruct (rtrim_text c); [done|]. rewrite Zlen_cons in *.
    pose proof (Zlen_nonneg l). lia.
  - rewrite join_cons in *. set (rest := join ["|"%ch] (c' :: cs)) in *. rewrite !Zlen_app in *. change (Zlen ["|"%ch]) with 1 in *.
    pose proof (Zlen_nonneg c). pose proof (Zlen_nonneg rest).
    assert (holds m b (c ++ ["|"%ch] ++ rest)) as Hm' by (apply holds_app in Hm as [Hm _]; exact Hm).
    pose proof (find_char_spec m b "|"%ch (c ++ ["|"%ch] ++ rest) Hb Hm') as Hfind. rewrite !Zlen_app in Hfind.
    change (Zlen ["|"%ch]) with 1 in Hfind. rewrite Hfind. clear Hfind.
    rewrite scan_len_stop; [|done|by intros x [= <-]]. cbn [bind]. ztrue (b + Zlen c <? e).
    zfalse (b + Zlen c =? b + (Zlen c + (1 + Zlen rest))). rewrite andb_true_r, orb_false_r.
    destruct (Z.eqb_spec j v) as [->|Hjv].
    + apply holds_app in Hm' as [Hmc _]. destruct (rtrim_block b c Hb Hmc) as [-> Hload]. cbn [bind]. rewrite Hload.
      ztrue (v <=? v). replace (Z.to_nat (v - v)) with 0%nat by lia. cbn [default].
      destruct (Z.ltb_spec b (b + Zlen (rtrim_text c))) as [Hlt|Hge]; cbn [bind]; [done|].
      simpl. destruct (rtrim_text c) as [|x l]; [done|]. rewrite Zlen_cons in Hge. pose proof (Zlen_nonneg l). lia.
    + cbn [bind]. replace (b + (Zlen c + (1 + Zlen rest))) with (b + Zlen c + 1 + Zlen rest) by lia. unfold rest.
      rewrite IH; [|lia| |done|fold rest; lia|lia|simpl in Hf; lia].
      * do 3 f_equal. destruct (Z.leb_spec j v) as [Hle|Hgt].
        -- ztrue (j + 1 <=? v). replace (Z.to_nat (v - j)) with (S (Z.to_nat (v - (j + 1)))) by lia. done.
        -- by zfalse (j + 1 <=? v).
      * fold rest. rewrite <-!app_assoc in Hm. apply holds_app in Hm as [_ Hm]. apply holds_app in Hm as [_ Hm].
        change (Zlen ["|"%ch]) with 1 in Hm. done.
Qed.
End memory.

Lemma inside_all (P : Z -> bool) l : forallb (fun c => inside c && P c) l = true ->
  Forall (fun c => inside c = true) l /\ Forall (fun c => P c = true) l.
Proof.
  intros H. apply forallb_Forall_true in H. split; eapply Forall_impl; try exact H; intros c Hc; by apply andb_prop in Hc as [H1 H2].
Qed.

Lemma comment_inside comment : comment_ok comment = true -> Forall (fun c => inside c = true) (print_comment comment).
Proof. destruct comment as [c|]; simpl; intros H; constructor; [done|by apply forallb_Forall_true]. Qed.

Lemma blank_inside l : forallb is_blank l = true -> Forall (fun c => is_blank c = true) l /\ Forall (fun c => inside c = true) l.
Proof.
  intros H. apply forallb_Forall_true in H. split; [done|]. eapply Forall_impl; [exact H|]. intros c Hc. unfold is_blank in Hc.
  apply orb_prop in Hc as [->%Z.eqb_eq| ->%Z.eqb_eq]; reflexivity.
Qed.

Lemma Forall_join (P : Z -> Prop) sep cs : Forall P sep -> Forall (Forall P) cs -> Forall P (join sep cs).
Proof.
  intros Hs Hcs. destruct Hcs as [|c cs Hc Hcs]; [constructor|]. simpl. apply Forall_app. split; [done|].
  induction Hcs as [|d cs Hd _ IH]; simpl; [constructor|]. rewrite !Forall_app. done.
Qed.

Lemma tail_inside t : tail_ok t = true -> Forall (fun c => inside c = true) (print_tail t).
Proof.
  destruct t as [comment|spec gap comment|cs]; simpl; intros H.
  - by apply comment_inside.
  - rewrite !andb_true_iff in H. destruct H as (((((_ & Hs) & _) & _) & Hg) & Hc).
    apply inside_all in Hs as [Hs _]. apply blank_inside in Hg as [_ Hg]. rewrite !Forall_app. by apply comment_inside in Hc.
  - apply andb_prop in H as [_ Hcs]. constructor; [done|]. apply Forall_join; [by repeat constructor|].
    apply forallb_Forall_true in Hcs. eapply Forall_impl; [exact Hcs|]. intros c Hc. by apply inside_all in Hc as [Hc _].
Qed.

(** What can follow the number and the blanks of a reference. *)
Lemma tail_head t rest : tail_ok t = true ->
  exists c l, print_tail t ++ "}"%ch :: rest = c :: l /\
    match t with
    | plain _ => c = "}"%ch \/ c = "="%ch
    | formatted _ _ _ => c = "%"%ch
    | choice _ => c = "~"%ch
    end.
Proof.
  destruct t as [[c|]|spec gap comment|cs]; simpl; intros H; try (by eexists _, _; split; [done|auto]).
  rewrite !andb_true_iff in H. destruct H as (((((Hh & _) & _) & _) & _) & _). destruct spec as [|c spec]; [done|].
  apply Z.eqb_eq in Hh. simpl in Hh. subst c. by eexists _, _.
Qed.

Lemma scan_len_zero ok l : (forall c, head l = Some c -> ok c = false) -> scan_len ok l = 0.
Proof. intros H. pose proof (scan_len_stop ok [] l) as Hs. simpl in Hs. apply Hs; [constructor|done]. Qed.

(** Trimming takes the blanks behind a specifier, and no more. *)
Lemma rtrim_text_spec spec gap : Forall (fun c => is_blank c = true) gap -> trimmed (default 0 (last spec)) = false ->
  rtrim_text (spec ++ gap) = spec.
Proof.
  intros Hgap Hlast. unfold rtrim_text. rewrite rev_app_distr.
  assert (Zlen (rev gap) = Zlen gap) as Hr by (unfold Zlen; by rewrite length_rev).
  rewrite scan_len_stop, Hr, Zlen_app.
  - replace (Zlen spec + Zlen gap - Zlen gap) with (Zlen spec) by lia. by rewrite take_app_Zlen.
  - rewrite Forall_forall in *. intros c Hc. apply list_elem_of_In, in_rev, list_elem_of_In, Hgap in Hc. unfold is_blank in Hc.
    by apply orb_prop in Hc as [->%Z.eqb_eq| ->%Z.eqb_eq].
  - intros c Hc. destruct spec as [|s spec _] using rev_ind; [done|]. rewrite rev_app_distr in Hc. rewrite last_snoc in Hlast.
    simpl in Hc. by injection Hc as ->.
Qed.

Lemma scan_len_join_first c cs : Forall (fun x => negb (x =? "|"%ch) = true) c ->
  scan_len trimmed (join ["|"%ch] (c :: cs)) = scan_len trimmed c /\
  join ["|"%ch] (ltrim_text c :: cs) = drop (Z.to_nat (scan_len trimmed c)) (join ["|"%ch] (c :: cs)).
Proof.
  intros Hc. destruct (scan_len_split trimmed c) as (l1 & l2 & -> & Hlen & Hl1 & Hl2). unfold ltrim_text. rewrite <-Hlen.
  assert (forall l, drop (Z.to_nat (Zlen l1)) (l1 ++ l) = l) as Hdrop by (intros l; unfold Zlen; by rewrite Nat2Z.id, drop_app_length).
  rewrite Hdrop. unfold join. rewrite <-app_assoc. split; [|by rewrite Hdrop].
  apply scan_len_stop; [done|]. intros x Hx. destruct l2 as [|y l2]; [|by apply Hl2; injection Hx as ->].
  destruct cs as [|c' cs]; [done|]. by injection Hx as <-.
Qed.

Lemma join_length c cs : Z.of_nat (Datatypes.length cs) <= Zlen (join ["|"%ch] (c :: cs)).
Proof.
  revert c. induction cs as [|d cs IH]; intros c; [apply Zlen_nonneg|]. rewrite join_cons, !Zlen_app. change (Zlen ["|"%ch]) with 1.
  pose proof (Zlen_nonneg c). specialize (IH d). cbn [Datatypes.length]. lia.
Qed.

Section reference.
Context (printf : list Z -> printed -> list Z) (m : mem) (args : list arg).

(** [scan_arg] on a reference that the template has at [p]. *)
Section at_p.
Context (p e n : Z) (gap rest : list Z) (t : ref_tail) (txt : list Z) (max_arg : Z) (a : arg).
Context (Hp : 0 < p).
Let digits := show_unsigned n.
Let body := gap ++ print_tail t.
Context (Hm : holds m p (digits ++ body ++ "}"%ch :: rest)).
Context (He : e = p + Zlen (digits ++ body ++ "}"%ch :: rest)).
Context (Hn : 1 <= n <= 99) (Hmax : n <= max_arg) (Ha : nth_arg args n = Some a).
Context (Hgap : forallb is_blank gap = true) (Htail : tail_ok t = true).

Let eos := p + Zlen digits.
Let eoa := p + Zlen digits + Zlen body.

Lemma body_held : holds m eos (body ++ "}"%ch :: rest).
Proof. by apply holds_app in Hm as [_ H]. Qed.

Lemma end_eq : e = eos + Zlen (body ++ "}"%ch :: rest).
Proof. rewrite He, Zlen_app. unfold eos. lia. Qed.

Lemma digits_scanned : scan_decimal_digits_pre_radix m p e = Ok (eos, n).
Proof.
  destruct (show_unsigned_small n Hn) as (Hv & Hd & _). fold digits in Hv, Hd.
  rewrite (scan_decimal_spec m p e digits (body ++ "}"%ch :: rest)); [|done|rewrite end_eq; unfold eos; lia|done|].
  - rewrite Hv, u64_small by lia. done.
  - intros c Hc. unfold body in Hc. rewrite <-app_assoc in Hc. destruct gap as [|g gap'].
    + destruct (tail_head t rest Htail) as (c' & l & Heq & Hcase). simpl in Hc. rewrite Heq in Hc. injection Hc as ->.
      destruct t; [destruct Hcase as [->| ->]|rewrite Hcase|rewrite Hcase]; done.
    + injection Hc as ->. simpl in Hgap. apply andb_prop in Hgap as [Hg _]. unfold is_blank in Hg.
      by apply orb_prop in Hg as [->%Z.eqb_eq| ->%Z.eqb_eq].
Qed.

Lemma closing_found : find_any_char m eos ["}"%ch; CR; LF] e = Ok eoa.
Proof.
  pose proof (Zlen_nonneg digits). rewrite end_eq, find_any_char_spec by (unfold eos; lia || apply body_held).
  rewrite (scan_len_stop (fun x => negb (strchr_in ["}"%ch; CR; LF] x)) body); [done| |by intros c [= <-]].
  unfold body. apply Forall_app. split; [by apply blank_inside|by apply tail_inside].
Qed.

Lemma closing_read : eoa < e /\ load m eoa = Ok "}"%ch.
Proof.
  pose proof end_eq as Hend. rewrite Zlen_app, Zlen_cons in Hend. pose proof (Zlen_nonneg rest). unfold eos, eoa in *. split; [lia|].
  pose proof body_held as Hb. apply holds_app in Hb as [_ [Hc _]]. by apply load_Some.
Qed.

Lemma gap_skipped : scan_spaces_and_tabs m eos e = Ok (eos + Zlen gap).
Proof.
  rewrite end_eq, scan_spaces_and_tabs_spec by apply body_held. do 2 f_equal. unfold body. rewrite <-app_assoc.
  apply scan_len_stop; [by apply blank_inside|]. intros c Hc.
  destruct (tail_head t rest Htail) as (c' & l & Heq & Hcase). rewrite Heq in Hc. injection Hc as ->.
  destruct t; [destruct Hcase as [->| ->]|rewrite Hcase|rewrite Hcase]; done.
Qed.

Lemma tail_held : holds m (eos + Zlen gap) (print_tail t ++ "}"%ch :: rest).
Proof. pose proof body_held as Hb. unfold body in Hb. rewrite <-app_assoc in Hb. by apply holds_app in Hb as [_ Hb]. Qed.

Lemma tail_end : e = eos + Zlen gap + Zlen (print_tail t ++ "}"%ch :: rest).
Proof. rewrite end_eq. unfold body. rewrite <-app_assoc, Zlen_app. lia. Qed.

(** The three kinds of tail. *)
Lemma scan_plain comment out : t = plain comment -> to_string printf m a None = Ok out ->
  scan_arg printf m p e txt args max_arg = Ok (eoa, txt ++ out).
Proof.
  intros Ht Hout. unfold scan_arg. rewrite digits_scanned. cbn [bind]. ztrue (0 <? n). rewrite u32_small by lia. ztrue (n <=? max_arg).
  cbn [andb]. rewrite Ha, closing_found. cbn [bind]. destruct closing_read as [Hlt Hload]. ztrue (eoa <? e). rewrite Hload. cbn [bind].
  rewrite gap_skipped. cbn [bind]. destruct (tail_head t rest Htail) as (c & l & Heq & Hc). pose proof tail_held as Hb. rewrite Heq in Hb.
  destruct Hb as [Hb _]. rewrite (load_Some _ _ _ Hb). cbn [bind]. rewrite Ht in Hc. rewrite Hout.
  by destruct Hc as [->| ->].
Qed.

Lemma scan_formatted spec g comment out : t = formatted spec g comment -> to_string printf m a (Some spec) = Ok out ->
  scan_arg printf m p e txt args max_arg = Ok (eoa, txt ++ out).
Proof.
  intros Ht Hout. unfold scan_arg. rewrite digits_scanned. cbn [bind]. ztrue (0 <? n). rewrite u32_small by lia. ztrue (n <=? max_arg).
  cbn [andb]. rewrite Ha, closing_found. cbn [bind]. destruct closing_read as [Hlt Hload]. ztrue (eoa <? e). rewrite Hload. cbn [bind].
  rewrite gap_skipped. cbn [bind]. destruct (tail_head t rest Htail) as (c & l & Heq & Hc). pose proof tail_held as Hb.
  pose proof Hb as Hb'. rewrite Heq in Hb'. destruct Hb' as [Hb' _]. rewrite (load_Some _ _ _ Hb'). cbn [bind]. clear Hb'.
  rewrite Ht in Hc. rewrite Hc. replace ("%"%ch =? "%"%ch) with true by done. clear Hc Heq.
  pose proof Htail as Hok. rewrite Ht in Hok. cbn [tail_ok] in Hok. rewrite !andb_true_iff in Hok.
  destruct Hok as (((((_ & Hspec) & Hlast) & Hshort) & Hg) & Hcom). apply inside_all in Hspec as [Hin Hne].
  apply negb_true_iff in Hlast. apply Z.ltb_lt in Hshort. apply blank_inside in Hg as [Hg Hgin].
  assert (print_tail t ++ "}"%ch :: rest = (spec ++ g) ++ print_comment comment ++ "}"%ch :: rest) as Hsplit
    by (rewrite Ht; cbn [print_tail]; by rewrite <-!app_assoc).
  rewrite tail_end, Hsplit, find_any_char_spec by (done || (pose proof (Zlen_nonneg digits); pose proof (Zlen_nonneg gap); unfold eos; lia) || (by rewrite <-Hsplit)).
  rewrite scan_len_stop.
  2: { apply Forall_app. split; rewrite Forall_forall in *; intros x Hx.
       - specialize (Hin x Hx). specialize (Hne x Hx). unfold inside, strchr_in in *. rewrite negb_true_iff, bool_decide_eq_false in *.
         set_solver.
       - specialize (Hg x Hx). unfold is_blank in Hg. by apply orb_prop in Hg as [->%Z.eqb_eq| ->%Z.eqb_eq]. }
  2: { intros x Hx. destruct comment; by injection Hx as <-. }
  cbn [bind]. rewrite Hsplit in Hb. apply holds_app in Hb as [Hb _].
  destruct (rtrim_block m (eos + Zlen gap) (spec ++ g)) as [-> Hrange];
    [pose proof (Zlen_nonneg digits); pose proof (Zlen_nonneg gap); unfold eos; lia|done|].
  rewrite rtrim_text_spec in Hrange |- * by done. cbn [bind]. unfold format_specifier_buflen.
  ztrue (eos + Zlen gap + Zlen spec <? eos + Zlen gap + 32). rewrite Hrange. cbn [bind]. rewrite c_str_no_nul.
  - rewrite Hout. done.
  - unfold no_nul. intros H0. rewrite Forall_forall in Hin. by specialize (Hin 0 H0).
Qed.

Lemma scan_choice c1 cs v : t = choice (c1 :: cs) -> value_to_compare m a = Ok v ->
  scan_arg printf m p e txt args max_arg = Ok (eoa, txt ++ pick (ltrim_text c1 :: cs) v).
Proof.
  intros Ht Hv. unfold scan_arg. rewrite digits_scanned. cbn [bind]. ztrue (0 <? n). rewrite u32_small by lia. ztrue (n <=? max_arg).
  cbn [andb]. rewrite Ha, closing_found. cbn [bind]. destruct closing_read as [Hlt Hload]. ztrue (eoa <? e). rewrite Hload. cbn [bind].
  rewrite gap_skipped. cbn [bind]. destruct (tail_head t rest Htail) as (c & l & Heq & Hc). pose proof tail_held as Hb.
  pose proof Hb as Hb'. rewrite Heq in Hb'. destruct Hb' as [Hb' _]. rewrite (load_Some _ _ _ Hb'). cbn [bind]. clear Hb'.
  rewrite Ht in Hc. rewrite Hc. replace ("~"%ch =? "%"%ch) with false by done.
  replace (("~"%ch =? "}"%ch) || ("~"%ch =? "="%ch)) with false by done. replace ("~"%ch =? "~"%ch) with true by done. clear Hc Heq.
  pose proof Htail as Hok. rewrite Ht in Hok. cbn [tail_ok] in Hok. apply andb_prop in Hok as [_ Hcs].
  rewrite Hv. cbn [bind] in *. apply forallb_Forall_true in Hcs.
  assert (Forall (Forall (fun x => negb (x =? "|"%ch) = true)) (c1 :: cs)) as Hbar.
  { eapply Forall_impl; [exact Hcs|]. intros c0 Hc0. by apply inside_all in Hc0 as [_ Hc0]. }
  apply Forall_cons in Hbar as [Hb1 Hbs]. destruct (scan_len_join_first c1 cs Hb1) as [Hsl Hjoin].
  pose proof (Zlen_nonneg digits). pose proof (Zlen_nonneg gap). set (J := join ["|"%ch] (c1 :: cs)) in *.
  assert (print_tail t = "~"%ch :: J) as Hpt by (by rewrite Ht). rewrite Hpt in Hb. destruct Hb as [_ Hb].
  assert (eoa = eos + Zlen gap + 1 + Zlen J) as Heoa.
  { unfold eoa, body, eos. rewrite Zlen_app, Hpt, Zlen_cons. lia. }
  pose proof (scan_len_bounds trimmed c1) as Hbounds. pose proof (scan_len_bounds trimmed J) as HboundsJ.
  rewrite Heoa, ltrim_spec by (unfold eos; lia || (by apply holds_app in Hb as [Hb _])). rewrite <-trimmed_default, Hsl. cbn [bind].
  assert (Zlen (join ["|"%ch] (ltrim_text c1 :: cs)) = Zlen J - scan_len trimmed c1) as Hlen.
  { rewrite Hjoin. unfold Zlen at 1. rewrite length_drop. unfold Zlen in *. lia. }
  set (b := eos + Zlen gap + 1 + scan_len trimmed c1).
  replace (eos + Zlen gap + 1 + Zlen J) with (b + Zlen (join ["|"%ch] (ltrim_text c1 :: cs))) by (unfold b; lia).
  rewrite choice_loop.
  - replace ("}"%ch =? "}"%ch) with true by done. cbn [bind]. unfold pick. by rewrite Z.sub_0_r.
  - unfold b, eos. lia.
  - rewrite Hjoin. rewrite <-(take_drop (Z.to_nat (scan_len trimmed c1)) J) in Hb. rewrite <-app_assoc in Hb.
    apply holds_app in Hb as [_ Hb]. replace (Zlen (take (Z.to_nat (scan_len trimmed c1)) J)) with (scan_len trimmed c1) in Hb
      by (unfold Zlen in *; rewrite length_take; lia).
    fold b in Hb. 
    change ("}"%ch :: rest) with (["}"%ch] ++ rest) in Hb. rewrite app_assoc in Hb. by apply holds_app in Hb as [Hb _].
  - constructor; [|done]. unfold ltrim_text. by apply Forall_drop.
  - rewrite Hlen. unfold b. lia.
  - unfold b, eos. lia.
  - pose proof (join_length (ltrim_text c1) cs). unfold span_fuel. lia.
Qed.

Lemma scan_arg_ref out t0 : t = t0 -> renders_tail printf m a t0 out ->
  scan_arg printf m p e txt args max_arg = Ok (eoa, txt ++ out).
Proof.
  intros Et Hout. destruct Hout as [comment s Hs|spec g comment v s Hv -> Hs|c1 cs v Hv Hint].
  - by apply (scan_plain comment); [|by apply shown_to_string].
  - by apply (scan_formatted spec g comment); [|by apply formatted_to_string].
  - by apply scan_choice; [|by apply numeric_value_compared].
Qed.
End at_p.

Lemma print_template_nonempty x ps : 1 <= Zlen (print_template (x :: ps)).
Proof.
  cbn [print_template map concat]. rewrite Zlen_app. pose proof (Zlen_nonneg (concat (map print_piece ps))).
  destruct x; cbn [print_piece]; rewrite Zlen_cons; match goal with |- context [1 + Zlen ?l] => pose proof (Zlen_nonneg l) end; lia.
Qed.

(** The loop over the pieces of a template. *)
Lemma interp_loop ps : forall fuel p txt out,
  let e := p + Zlen (print_template ps) in
  0 < p -> holds m p (print_template ps ++ [0]) -> template_ok args ps = true -> Zlen args < 2 ^ 32 ->
  renders printf m args ps out -> (Datatypes.length ps < fuel)%nat ->
  iterate fuel (interp_step printf m e args (Z.min (u32 (Zlen args)) 99)) (p, txt) = Ok (txt ++ out).
Proof.
  pose proof (Zlen_nonneg args) as Hargs.
  induction ps as [|x ps IH]; intros fuel p txt out e Hp Hm Hok Hlen Hout Hf; (destruct fuel as [|fuel]; [simpl in Hf; lia|]);
    cbn [iterate]; unfold interp_step at 1; unfold e; clear e.
  - cbn [print_template map concat]. change (Zlen []) with 0. ztrue (p =? p + 0). cbn [bind]. inversion Hout; subst.
    by rewrite app_nil_r.
  - cbn [print_template map concat] in *. fold (print_template ps) in *. rewrite Zlen_app, <-app_assoc in *.
    pose proof (Zlen_nonneg (print_template ps)) as Hrest. cbn [template_ok] in Hok. rewrite !andb_true_iff in Hok.
    destruct Hok as [[Hx Hps] Hlast].
    simpl in Hf. inversion Hout as [|c ps' out' Eo|ps' out' Eo|n gap t a ps' s out' Ha Es Eo]; subst.
    + cbn [print_piece] in *. destruct Hm as [Hc Hm]. change (Zlen [c]) with 1.
      zfalse (p =? p + (1 + Zlen (print_template ps))). rewrite (load_Some _ _ _ Hc). cbn [bind piece_ok] in *.
      apply andb_prop in Hx as [_ Hbrace%negb_true_iff]. rewrite Hbrace. cbn [andb bind].
      rewrite Z.add_assoc, (IH fuel (p + 1) (txt ++ [c]) out') by (done || lia). by rewrite <-app_assoc.
    + cbn [print_piece] in *. destruct Hm as (Hc & Hd & Hm). change (Zlen ["{"%ch; "{"%ch]) with 2.
      assert (1 <= Zlen (print_template ps)) by (destruct ps as [|y ps]; [done|apply print_template_nonempty]).
      zfalse (p =? p + (2 + Zlen (print_template ps))). rewrite (load_Some _ _ _ Hc). cbn [bind].
      replace ("{"%ch =? "{"%ch) with true by done. ztrue (p + 2 <? p + (2 + Zlen (print_template ps))). cbn [andb].
      rewrite (load_Some _ _ _ Hd). cbn [bind]. replace ("{"%ch =? "{"%ch) with true by done. cbn [bind].
      rewrite Z.add_assoc. replace (p + 2) with (p + 1 + 1) by lia.
      rewrite (IH fuel (p + 1 + 1) (txt ++ ["{"%ch]) out') by (done || lia). by rewrite <-app_assoc.
    + cbn [print_piece piece_ok] in *. rewrite !andb_true_iff in Hx. destruct Hx as ((((Hn1 & Hn2) & Hn3) & Hgap) & Htail).
      apply Z.leb_le in Hn1, Hn2, Hn3. assert (nth_arg args n = Some a) as Harg by (unfold nth_arg; by ztrue (n <=? Zlen args)).
      destruct (show_unsigned_small n) as (_ & Hd & Hd1); [lia|]. set (digits := show_unsigned n) in *.
      set (rest := print_template ps) in *. rewrite Zlen_cons, !Zlen_app in *. change (Zlen ["}"%ch]) with 1 in *.
      pose proof (Zlen_nonneg gap). pose proof (Zlen_nonneg (print_tail t)).
      destruct Hm as [Hc Hm]. zfalse (p =? p + (1 + (Zlen digits + (Zlen gap + (Zlen (print_tail t) + 1))) + Zlen rest)).
      rewrite (load_Some _ _ _ Hc). cbn [bind]. replace ("{"%ch =? "{"%ch) with true by done.
      ztrue (p + 2 <? p + (1 + (Zlen digits + (Zlen gap + (Zlen (print_tail t) + 1))) + Zlen rest)). cbn [andb].
      assert (exists d, load m (p + 1) = Ok d /\ (d =? "{"%ch) = false) as (d & Hld & Hnb).
      { destruct digits as [|d ds]; [done|]. destruct Hm as [Hd0 _]. exists d. split; [by apply load_Some|].
        apply Forall_cons in Hd as [Hd _]. destruct (Z.eqb_spec d "{"%ch) as [->|]; [done|done]. }
      rewrite Hld. cbn [bind]. rewrite Hnb. assert (holds m (p + 1) (digits ++ (gap ++ print_tail t) ++ "}"%ch :: rest)) as Hm1.
      { assert (((digits ++ gap ++ print_tail t ++ ["}"%ch]) ++ rest ++ [0]) = (digits ++ (gap ++ print_tail t) ++ "}"%ch :: rest) ++ [0])
          as Heq by (by rewrite <-!app_assoc).
        cbn [app] in Hm. rewrite Heq in Hm. by apply holds_app in Hm as [Hm _]. }
      rewrite (scan_arg_ref (p + 1) _ n gap rest t txt (Z.min (u32 (Zlen args)) 99) a) with (out := s) (t0 := t);
        [|lia|exact Hm1|rewrite !Zlen_app, Zlen_cons; fold digits; lia|lia|rewrite u32_small; lia|done..].
      fold digits. cbn [bind]. rewrite Zlen_app.
      ztrue (p + 1 <? p + 1 + Zlen digits + (Zlen gap + Zlen (print_tail t))). cbn [bind].
      replace (p + (1 + (Zlen digits + (Zlen gap + (Zlen (print_tail t) + 1))) + Zlen rest))
        with (p + 1 + Zlen digits + (Zlen gap + Zlen (print_tail t)) + 1 + Zlen rest) by lia.
      rewrite (IH fuel _ (txt ++ s) out'); [by rewrite <-app_assoc|lia| |done|done|done|lia].
      apply holds_app in Hm as [_ Hm]. rewrite !Zlen_app in Hm. change (Zlen ["}"%ch]) with 1 in Hm.
      replace (p + 1 + Zlen digits + (Zlen gap + Zlen (print_tail t)) + 1)
        with (p + 1 + (Zlen digits + (Zlen gap + (Zlen (print_tail t) + 1)))) by lia. done.
Qed.
End reference.

(** A format is rendered piece by piece. *)
Lemma interp_template printf m args format ps out :
  holds_cstr m format (print_template ps) -> template_ok args ps = true -> Zlen args < 2 ^ 32 ->
  renders printf m args ps out -> interp printf m format args = Ok out.
Proof.
  intros (Hp & Hm & Hnul) Hok Hargs Hout. unfold interp, interp_into. rewrite (strlen_spec m format (print_template ps)) by done.
  cbn [bind]. apply (interp_loop printf m args ps _ format [] out); try done.
  apply holds_length in Hm. rewrite length_app in Hm. cbn [Datatypes.length] in Hm.
  assert (Datatypes.length ps <= Datatypes.length (print_template ps))%nat; [|lia]. clear.
  induction ps as [|x ps IH]; [done|]. cbn [print_template map concat]. rewrite length_app. fold (print_template ps).
  destruct x; cbn [print_piece Datatypes.length]; lia.
Qed.

(** C13: [interp] on the text of any well-formed template returns what the documentation says the template stands
    for ([renders], which knows nothing of the code): its own chars, one brace for two, and for each reference the
    argument it names, printed plainly, or if it is a number, with the format specifier, or else the candidate that
    its numeric value chooses, trimmed; comments, blanks and everything else of a reference vanish. A value that
    chooses is a number, a bool or a C string or std::string, and fits an int: wider counts are cut
    (interp_choice_wraps), views count as 0 (interp_choice_of_view). What the C library prints of a number has fewer
    than 36 chars. *)
Theorem interp_renders_template printf m args format ps out :
  holds_cstr m format (print_template ps) -> template_ok args ps = true -> Zlen args < 2 ^ 32 ->
  renders printf m args ps out -> interp printf m format args = Ok out.
Proof. apply interp_template. Qed.

Definition warning_template : list piece :=
  [lit "F"%ch; ref 1 [] (plain None); lit " "%ch; ref 1 [32] (choice [str " none"; str "one "; str "many"]); brace;
   ref 2 [] (plain (Some (str " file name")))].

Lemma interp_renders_template_witness :
  interp any_printf (cstr_at 16 "F{1} {1 ~ none|one |many}{{{2= file name}") 16 [arg_of_int32 7; arg_of_string (str "a.c")] =
  Ok (str "F7 many{a.c").
Proof.
  apply (interp_renders_template any_printf _ [arg_of_int32 7; arg_of_string (str "a.c")] 16 warning_template);
    [decided|reflexivity..|].
  unfold warning_template.
  apply (renders_lit _ _ _ "F"%ch).
  apply (renders_ref _ _ _ 1 [] _ (arg_signed 7) _ (show_signed 7) (str " many{a.c")); [reflexivity|apply renders_plain, shown_signed|].
  apply (renders_lit _ _ _ " "%ch).
  apply (renders_ref _ _ _ 1 [32] _ (arg_signed 7) _ (str "many") (str "{a.c")); [reflexivity| |].
  { apply (renders_choice _ _ _ (str " none") [str "one "; str "many"] 7); [apply value_signed|lia]. }
  apply renders_brace.
  apply (renders_ref _ _ _ 2 [] _ (arg_string (str "a.c")) _ (str "a.c") []); [reflexivity|apply renders_plain, shown_string|].
  apply renders_end.
Defined.
