(* ===== verification/BaseX.v ===== *)
(** * Numbers in any base: core/text/base_x_encode.h

    The template at an unsigned type of [w] bits: its arithmetic wraps. *)

From stdpp Require Import base tactics list gmap strings.
From Stdlib Require Import ZArith Lia.
From S2P Require Import Prelude CString.
#[local] Open Scope Z_scope.

Section unit.
Context (w : Z).

Definition wrap (x : Z) : Z := x mod 2 ^ w.

(** [while (n >= multiple) multiple *= base]: at most [w] products grow. *)
Definition grow_multiple (n base : Z) : res Z :=
  iterate (S (Z.to_nat w)) (fun multiple =>
    if multiple <=? n then Ok (inl (wrap (multiple * base))) else Ok (inr multiple)) (wrap base).

(** [digit_inventory[idx]]. *)
Definition digit (m : mem) (digit_inventory idx : Z) : res Z := load m (digit_inventory + idx).

(** A turn of the second loop: [inr false] is the return on overflow, [inr true]
    the end of the loop. *)
Definition encode_digit_step (digit_inventory base e : Z) (st : mem * Z * Z * Z) :
    res (mem * Z * Z * Z + bool * (mem * Z * Z)) :=
  let '(m, buf, n, multiple) := st in
  if 1 <? multiple then
    let idx := n / multiple in
    let! c := digit m digit_inventory idx in
    let! m := store m buf c in
    let buf := buf + 1 in
    if e <=? buf then Ok (inr (false, (m, buf, n)))
    else Ok (inl (m, buf, wrap (n - wrap (multiple * idx)), multiple / base))
  else Ok (inr (true, (m, buf, n))).

Definition base_x_encode (m : mem) (n buf buf_count digit_inventory base : Z) : res (bool * mem) :=
  let! empty := if digit_inventory =? 0 then Ok true else let! c := load m digit_inventory in Ok (c =? 0) in
  if (buf =? 0) || (buf_count =? 0) || (empty : bool) || (base <=? 1) then Ok (false, m)
  else
    let e := buf + buf_count in
    let! multiple := grow_multiple n base in
    let multiple := multiple / base in
    let! (fits, (m, buf, n)) := iterate (S (Z.to_nat w)) (encode_digit_step digit_inventory base e) (m, buf, n, multiple) in
    if (fits : bool) then
      let! c := digit m digit_inventory n in
      let! m := store m buf c in
      let buf := buf + 1 in
      if buf <? e then let! m := store m buf 0 in Ok (true, m) else Ok (true, m)
    else Ok (false, m).
End unit.

(** * Specification *)

(** The digits of [n], the most significant first. *)
Fixpoint digits_of (fuel : nat) (base n : Z) : list Z :=
  match fuel with
  | O => []
  | S fuel => if n <? base then [n] else digits_of fuel base (n / base) ++ [n mod base]
  end.

Example base_21 :
  match base_x_encode 32 (cstr_at 16 "abcdefghijklmnopqrstu" ∪ map_seqZ 64 (repeat 7 12)) 4675940 64 12 16 21 with
  | Ok (b, m) => b = true /\ holds m 64 (str "bdatar" ++ [0])
  | _ => False
  end.
Proof. vm_compute. repeat split. Qed.

(** Near the top of its type the first loop overflows: it does not end. *)
Lemma encode_never_ends fuel : forall k, (k <= fuel)%nat ->
  iterate k (fun multiple => if multiple <=? 2 ^ 64 - 1 then Ok (inl (wrap 64 (multiple * 16))) else Ok (inr multiple)) 0 = Spin.
Proof. induction k as [|k IH]; intros Hk; [done|]. cbn [iterate]. ztrue (0 <=? 2 ^ 64 - 1). cbn [bind]. apply IH. lia. Qed.

Lemma encode_max_overflows : wrap 64 (16 ^ 15 * 16) = 0 /\ grow_multiple 64 (2 ^ 64 - 1) 16 = Spin.
Proof. split; [reflexivity|]. vm_compute. reflexivity. Qed.

(** ** Positional digits *)

(** The digits of [n] from position [j] down to 0. *)
Fixpoint positions (base : Z) (j : nat) (n : Z) : list Z :=
  match j with
  | O => [n]
  | S j' => n / base ^ Z.of_nat j :: positions base j' (n mod base ^ Z.of_nat j)
  end.

Section digits.
Context (base : Z) (Hbase : 1 < base).

Lemma pow_pos j : 0 < base ^ Z.of_nat j.
Proof. apply Z.pow_pos_nonneg; lia. Qed.

Lemma pow_S j : base ^ Z.of_nat (S j) = base * base ^ Z.of_nat j.
Proof. rewrite Nat2Z.inj_succ, Z.pow_succ_r; lia. Qed.

Lemma positions_length j : forall n, Zlen (positions base j n) = Z.of_nat (S j).
Proof. induction j as [|j IH]; intros n; [done|]. cbn [positions]. rewrite Zlen_cons, IH. lia. Qed.

Lemma positions_snoc j : forall n, positions base (S j) n = positions base j (n / base) ++ [n mod base].
Proof.
  induction j as [|j IH]; intros n.
  - cbn [positions app]. replace (base ^ Z.of_nat 1) with base by (rewrite pow_S; simpl; lia). done.
  - change (positions base (S (S j)) n) with (n / base ^ Z.of_nat (S (S j)) :: positions base (S j) (n mod base ^ Z.of_nat (S (S j)))).
    rewrite IH. cbn [positions app]. pose proof (pow_pos (S j)) as Hp. rewrite (pow_S (S j)).
    rewrite <-Z.div_div by lia. rewrite (Z.rem_mul_r n base (base ^ Z.of_nat (S j))) by lia.
    f_equal. f_equal.
    + f_equal. rewrite (Z.mul_comm base), Z.div_add, Z.div_small by (lia || (apply Z.mod_pos_bound; lia)). done.
    + f_equal. rewrite (Z.mul_comm base), Z.mod_add, Z.mod_mod by lia. done.
Qed.

(** With no zero in front they are the digits of the reference definition. *)
Lemma positions_digits_of j : forall n fuel, 0 <= n < base ^ Z.of_nat (S j) -> (j = 0%nat \/ base ^ Z.of_nat j <= n) ->
  (j < fuel)%nat -> digits_of fuel base n = positions base j n.
Proof.
  induction j as [|j IH]; intros n fuel Hn Hlead Hf; (destruct fuel as [|fuel]; [lia|]); cbn [digits_of].
  - rewrite pow_S in Hn. simpl in Hn. by ztrue (n <? base).
  - destruct Hlead as [|Hlead]; [done|]. rewrite pow_S in Hlead. pose proof (pow_pos j) as Hp.
    assert (base <= base * base ^ Z.of_nat j) by (rewrite <-(Z.mul_1_r base) at 1; apply Z.mul_le_mono_nonneg_l; lia).
    zfalse (n <? base). rewrite positions_snoc. rewrite (IH (n / base) fuel); [done| | |lia].
    + split; [apply Z.div_pos; lia|]. rewrite pow_S in Hn. apply Z.div_lt_upper_bound; lia.
    + right. apply Z.div_le_lower_bound; lia.
Qed.

Lemma positions_range j : forall n, 0 <= n < base ^ Z.of_nat (S j) -> Forall (fun d => 0 <= d < base) (positions base j n).
Proof.
  induction j as [|j IH]; intros n Hn.
  - rewrite pow_S in Hn. simpl in Hn. constructor; [lia|constructor].
  - cbn [positions]. pose proof (pow_pos (S j)). constructor.
    + split; [apply Z.div_pos; lia|]. rewrite pow_S in Hn. apply Z.div_lt_upper_bound; lia.
    + apply IH. apply Z.mod_pos_bound. lia.
Qed.
End digits.

(** ** The first loop *)

Lemma wrap_small w x : 0 <= x < 2 ^ w -> wrap w x = x.
Proof. apply Z.mod_small. Qed.

(** It ends with the first power above [n]. *)
Lemma grow_loop w n base : 0 < w -> 1 < base -> 0 <= n -> n * base < 2 ^ w -> forall fuel i,
  (i = 0%nat \/ base ^ Z.of_nat i <= n) -> Z.of_nat i < w < Z.of_nat i + Z.of_nat fuel ->
  exists j, iterate fuel (fun multiple => if multiple <=? n then Ok (inl (wrap w (multiple * base))) else Ok (inr multiple))
      (base ^ Z.of_nat (S i)) = Ok (base ^ Z.of_nat (S j)) /\
    n < base ^ Z.of_nat (S j) /\ (j = 0%nat \/ base ^ Z.of_nat j <= n) /\ Z.of_nat j < w.
Proof.
  intros Hw Hb Hn Hnb. induction fuel as [|fuel IH]; intros i Hlead Hi; [lia|]. cbn [iterate].
  pose proof (pow_pos base Hb (S i)) as Hp. destruct (Z.leb_spec (base ^ Z.of_nat (S i)) n) as [Hle|Hgt]; cbn [bind].
  - rewrite wrap_small by (split; [lia|]; eapply Z.le_lt_trans; [apply Z.mul_le_mono_nonneg_r; [lia|exact Hle]|done]).
    replace (base ^ Z.of_nat (S i) * base) with (base ^ Z.of_nat (S (S i))) by (rewrite (pow_S base (S i)); lia).
    apply IH; [by right|]. split; [|lia]. assert (2 ^ Z.of_nat (S i) < 2 ^ w) as Hlt.
    { eapply Z.le_lt_trans; [|exact Hnb]. transitivity (base ^ Z.of_nat (S i)); [apply Z.pow_le_mono_l; lia|].
      transitivity n; [done|]. rewrite <-(Z.mul_1_r n) at 1. apply Z.mul_le_mono_nonneg_l; lia. }
    apply Z.pow_lt_mono_r_iff in Hlt; lia.
  - exists i. split; [done|]. split; [done|]. split; [done|lia].
Qed.

Lemma grow_multiple_spec w n base : 0 < w -> 1 < base -> 0 <= n -> base < 2 ^ w -> n * base < 2 ^ w ->
  exists j, grow_multiple w n base = Ok (base ^ Z.of_nat (S j)) /\ n < base ^ Z.of_nat (S j) /\
    (j = 0%nat \/ base ^ Z.of_nat j <= n) /\ Z.of_nat j < w.
Proof.
  intros Hw Hb Hn Hbw Hnb. unfold grow_multiple. rewrite wrap_small by lia.
  pose proof (grow_loop w n base Hw Hb Hn Hnb (S (Z.to_nat w)) 0) as Hloop.
  rewrite (pow_S base 0), Z.pow_0_r, Z.mul_1_r in Hloop. apply Hloop; [by left|lia].
Qed.

(** ** The second loop *)

(** The chars of the digits. *)
Definition chars_of (inventory : list Z) (ds : list Z) : list Z := map (fun d => default 0 (inventory !! Z.to_nat d)) ds.

Section encoding.
Context (w base inv : Z) (inventory : list Z) (Hbase : 1 < base) (Hinv : base <= Zlen inventory).

Lemma digit_read m d : holds m inv inventory -> 0 <= d < base -> digit m inv d = Ok (default 0 (inventory !! Z.to_nat d)).
Proof.
  intros Hm Hd. unfold digit. destruct (lookup_lt_is_Some_2 inventory (Z.to_nat d)) as [c Hc]; [unfold Zlen in Hinv; lia|].
  rewrite Hc. pose proof (holds_lookup m inv inventory _ c Hm Hc) as Hl. rewrite Z2Nat.id in Hl by lia. by apply load_Some.
Qed.

Lemma store_char m buf c0 c old : holds m buf (c0 :: old) -> (inv + Zlen inventory <= buf \/ buf + Zlen (c0 :: old) <= inv) ->
  holds m inv inventory ->
  store m buf c = Ok (<[buf := c]> m) /\ holds (<[buf := c]> m) (buf + 1) old /\ holds (<[buf := c]> m) inv inventory.
Proof.
  intros [Hc Hold] Hdisj Hm. rewrite Zlen_cons in Hdisj. pose proof (Zlen_nonneg old). unfold store. rewrite Hc. split; [done|].
  split; apply holds_insert_ne; (done || lia).
Qed.

(** The digits down to position 1, while there is room for another one. *)
Lemma encode_loop j : forall fuel m buf old n,
  0 <= n < base ^ Z.of_nat (S j) -> base ^ Z.of_nat (S j) <= 2 ^ w -> (j < fuel)%nat ->
  holds m inv inventory -> holds m buf old -> 1 <= Zlen old ->
  (inv + Zlen inventory <= buf \/ buf + Zlen old <= inv) ->
  exists b m' buf' n', iterate fuel (encode_digit_step w inv base (buf + Zlen old)) (m, buf, n, base ^ Z.of_nat j) = Ok (b, (m', buf', n')) /\
    holds m' inv inventory /\
    (forall x, x < buf \/ buf + Zlen old <= x -> m' !! x = m !! x) /\
    b = (Z.of_nat (S j) <=? Zlen old) /\
    (b = true -> buf' = buf + Z.of_nat j /\ 0 <= n' < base /\ exists pre, positions base j n = pre ++ [n'] /\
       holds m' buf (chars_of inventory pre) /\ holds m' buf' (drop j old)).
Proof.
  induction j as [|j IH]; intros fuel m buf old n Hn Hw Hf Hinvm Hold Hlen Hdisj; (destruct fuel as [|fuel]; [lia|]);
    cbn [iterate]; unfold encode_digit_step at 1.
  - simpl (base ^ Z.of_nat 0). replace (1 <? 1) with false by done. cbn [bind]. exists true, m, buf, n. split; [done|]. split; [done|].
    split; [done|]. split; [symmetry; apply Z.leb_le; simpl; lia|]. intros _. split; [simpl; lia|].
    rewrite (pow_S base) in Hn. simpl in Hn. split; [lia|]. exists []. split; [done|]. split; [done|]. by rewrite drop_0.
  - pose proof (pow_pos base Hbase j) as Hp. pose proof (pow_S base j) as HS.
    assert (2 * 1 <= base * base ^ Z.of_nat j) as H2 by (apply Z.mul_le_mono_nonneg; lia).
    ztrue (1 <? base ^ Z.of_nat (S j)). rewrite (pow_S base (S j)) in Hn, Hw.
    assert (0 <= n / base ^ Z.of_nat (S j) < base) as Hd
      by (split; [apply Z.div_pos; lia|apply Z.div_lt_upper_bound; lia]).
    rewrite digit_read by done. cbn [bind]. destruct old as [|c0 old]; [done|]. rewrite Zlen_cons in *. pose proof (Zlen_nonneg old) as Hon.
    set (c := default 0 (inventory !! Z.to_nat (n / base ^ Z.of_nat (S j)))).
    destruct (store_char m buf c0 c old Hold) as (-> & Hold' & Hinv'); [by rewrite Zlen_cons|done|]. cbn [bind].
    assert (forall x, x < buf \/ buf + (1 + Zlen old) <= x -> <[buf := c]> m !! x = m !! x) as Hframe
      by (intros x Hx; apply lookup_insert_ne; lia).
    destruct (Z.leb_spec (buf + (1 + Zlen old)) (buf + 1)) as [Hfull|Hroom]; cbn [bind].
    + exists false, (<[buf := c]> m), (buf + 1), n. split; [done|]. split; [done|]. split; [done|].
      split; [symmetry; apply Z.leb_gt; lia|done].
    + assert (base ^ Z.of_nat (S j) / base = base ^ Z.of_nat j) as -> by (rewrite HS, Z.mul_comm, Z.div_mul; lia).
      pose proof (Z.div_mod n (base ^ Z.of_nat (S j))) as Hdm. pose proof (Z.mod_pos_bound n (base ^ Z.of_nat (S j))) as Hmb.
      assert (wrap w (n - wrap w (base ^ Z.of_nat (S j) * (n / base ^ Z.of_nat (S j)))) = n mod base ^ Z.of_nat (S j)) as ->.
      { rewrite (wrap_small w (_ * _)) by (split; [apply Z.mul_nonneg_nonneg; lia|]; lia).
        rewrite wrap_small by lia. lia. }
      replace (buf + (1 + Zlen old)) with (buf + 1 + Zlen old) by lia.
      destruct (IH fuel (<[buf := c]> m) (buf + 1) old (n mod base ^ Z.of_nat (S j))) as (b & m' & buf' & n' & Hrun & Hi & Hfr & Hb & Hres);
        [lia| |lia|done|done|lia|lia|].
      { transitivity (base * base ^ Z.of_nat (S j)); [|done]. rewrite <-(Z.mul_1_l (base ^ Z.of_nat (S j))) at 1.
        apply Z.mul_le_mono_nonneg_r; lia. }
      exists b, m', buf', n'. split; [exact Hrun|]. split; [done|]. split.
      { intros x Hx. rewrite Hfr by lia. apply Hframe. lia. }
      split; [rewrite Hb; destruct (Z.leb_spec (Z.of_nat (S j)) (Zlen old)), (Z.leb_spec (Z.of_nat (S (S j))) (1 + Zlen old)); lia|].
      intros Hbt. destruct (Hres Hbt) as (-> & Hn' & pre & Hpos & Hpre & Hrest). split; [lia|]. split; [done|].
      exists (n / base ^ Z.of_nat (S j) :: pre). split; [cbn [positions app]; by rewrite Hpos|]. split; [|done].
      cbn [chars_of map]. split; [|done]. rewrite Hfr by lia. by rewrite lookup_insert_eq.
Qed.
End encoding.

(** ** The whole routine *)

Lemma chars_of_length inventory ds : Zlen (chars_of inventory ds) = Zlen ds.
Proof. unfold Zlen, chars_of. by rewrite length_map. Qed.

Lemma digits_value base : 1 < base -> forall fuel n, 0 <= n < base ^ Z.of_nat fuel ->
  foldl (fun a d => a * base + d) 0 (digits_of fuel base n) = n.
Proof.
  intros Hb. induction fuel as [|fuel IH]; intros n Hn; [simpl in *; lia|]. cbn [digits_of].
  destruct (Z.ltb_spec n base); [simpl; lia|]. rewrite foldl_snoc, IH.
  - pose proof (Z.div_mod n base). lia.
  - rewrite pow_S in Hn. split; [apply Z.div_pos; lia|apply Z.div_lt_upper_bound; lia].
Qed.

(** The char of the last digit, and the NUL where there is room. *)
Lemma finish_spec m buf old pre c : Zlen pre < Zlen old -> holds m buf pre -> holds m (buf + Zlen pre) (drop (length pre) old) ->
  exists m', (let! m := store m (buf + Zlen pre) c in
              if buf + Zlen pre + 1 <? buf + Zlen old then let! m := store m (buf + Zlen pre + 1) 0 in Ok (true, m) else Ok (true, m))
             = Ok (true, m') /\
    holds m' buf (pre ++ [c] ++ (if Zlen pre + 1 <? Zlen old then [0] else [])) /\
    (forall x, x < buf \/ buf + Zlen old <= x -> m' !! x = m !! x).
Proof.
  intros Hlt Hpre Hrest. pose proof (Zlen_nonneg pre) as Hp.
  assert (Zlen (drop (length pre) old) = Zlen old - Zlen pre) as Hdrop by (unfold Zlen in *; rewrite length_drop; lia).
  destruct (drop (length pre) old) as [|x rest]; [rewrite Zlen_nil in Hdrop; lia|]. rewrite Zlen_cons in Hdrop.
  destruct Hrest as [Hx Hrest]. unfold store at 1. rewrite Hx. cbn [bind].
  set (m1 := <[buf + Zlen pre := c]> m).
  assert (holds m1 buf (pre ++ [c])) as H1.
  { apply holds_app. split; [apply holds_insert_ne; [lia|done]|]. split; [apply lookup_insert_eq|done]. }
  destruct (Z.ltb_spec (buf + Zlen pre + 1) (buf + Zlen old)) as [Hroom|Hfull].
  2: { exists m1. split; [done|]. zfalse (Zlen pre + 1 <? Zlen old). rewrite app_nil_r. split; [done|].
       intros y Hy. apply lookup_insert_ne. lia. }
  destruct rest as [|y rest]; [rewrite Zlen_nil in Hdrop; lia|]. destruct Hrest as [Hy _].
  unfold store, m1. rewrite lookup_insert_ne by lia. rewrite Hy. cbn [bind]. eexists. split; [done|].
  ztrue (Zlen pre + 1 <? Zlen old). split.
  - assert (buf + Zlen (pre ++ [c]) = buf + Zlen pre + 1) as Hl by (rewrite Zlen_app, Zlen_cons; rewrite (Zlen_nil (A := Z)); lia).
    rewrite app_assoc. apply holds_app. rewrite Hl. split; [apply holds_insert_ne; [lia|done]|]. split; [apply lookup_insert_eq|done].
  - intros z Hz. rewrite lookup_insert_ne by lia. apply lookup_insert_ne. lia.
Qed.

(** C37: for a number [n] with [n * base < 2 ^ w] in its type of [w] bits (beyond it the product overflows, and the
    first loop need not end: encode_max_overflows) and an inventory with a char for each digit, [base_x_encode]
    ends, and returns true exactly when the digits of [n] fit in the buffer, which then holds their chars, the most
    significant first, and a NUL if there is room for it; it writes nothing outside the buffer. The digits have [n]
    as their value. *)
Theorem base_x_encode_correct w m n buf old inv c0 inventory base :
  0 < w -> 1 < base < 2 ^ w -> 0 <= n -> n * base < 2 ^ w ->
  inv <> 0 -> c0 <> 0 -> holds m inv (c0 :: inventory) -> base <= Zlen (c0 :: inventory) ->
  buf <> 0 -> holds m buf old -> 1 <= Zlen old ->
  (inv + Zlen (c0 :: inventory) <= buf \/ buf + Zlen old <= inv) ->
  let ds := digits_of (S (Z.to_nat w)) base n in
  foldl (fun a d => a * base + d) 0 ds = n /\
  exists m', base_x_encode w m n buf (Zlen old) inv base = Ok (Zlen ds <=? Zlen old, m') /\
    (Zlen ds <= Zlen old -> holds m' buf (chars_of (c0 :: inventory) ds ++ (if Zlen ds <? Zlen old then [0] else []))) /\
    (forall x, x < buf \/ buf + Zlen old <= x -> m' !! x = m !! x).
Proof.
  intros Hw Hb Hn Hnb Hinv Hc0 Hinvm Hbase Hbuf Hold Hlen Hdisj ds. split.
  { apply digits_value; [lia|]. split; [done|]. apply Z.lt_le_trans with (2 ^ w).
    - eapply Z.le_lt_trans; [|exact Hnb]. rewrite <-(Z.mul_1_r n) at 1. apply Z.mul_le_mono_nonneg_l; lia.
    - transitivity (2 ^ Z.of_nat (S (Z.to_nat w))); [apply Z.pow_le_mono_r; lia|apply Z.pow_le_mono_l; lia]. }
  unfold base_x_encode. zfalse (inv =? 0). rewrite (load_Some m inv c0) by (destruct Hinvm as [H _]; exact H). cbn [bind].
  zfalse (buf =? 0). zfalse (Zlen old =? 0). zfalse (c0 =? 0). zfalse (base <=? 1). cbn [orb].
  destruct (grow_multiple_spec w n base) as (j & -> & Hlt & Hlead & Hj); [lia..|]. cbn [bind].
  assert (ds = positions base j n) as Hds by (apply positions_digits_of; [lia|lia|done|lia]).
  rewrite (pow_S base j), Z.mul_comm, Z.div_mul by lia.
  destruct (encode_loop w base inv (c0 :: inventory) ltac:(lia) Hbase j (S (Z.to_nat w)) m buf old n) as (b & m' & buf' & n' & -> & Hi & Hfr & Hb' & Hres);
    [lia| |lia|done..|].
  { destruct Hlead as [->|Hlead]; [simpl (Z.of_nat 1); rewrite Z.pow_1_r; lia|]. rewrite pow_S, Z.mul_comm.
    transitivity (n * base); [apply Z.mul_le_mono_nonneg_r; lia|lia]. }
  cbn [bind]. assert (Zlen ds = Z.of_nat (S j)) as Hlds by (rewrite Hds; apply positions_length).
  rewrite Hlds. rewrite <-Hb'. destruct b.
  2: { exists m'. split; [done|]. split; [|done]. intros Hle. symmetry in Hb'. apply Z.leb_gt in Hb'. lia. }
  symmetry in Hb'. apply Z.leb_le in Hb'. destruct (Hres eq_refl) as (-> & Hn' & pre & Hpos & Hpre & Hrest).
  rewrite (digit_read base inv (c0 :: inventory) ltac:(lia) Hbase) by (done || lia). cbn [bind].
  assert (Zlen pre = Z.of_nat j) as Hlpre.
  { pose proof (positions_length base j n) as Hp. rewrite Hpos, Zlen_app in Hp. change (Zlen [n']) with 1 in Hp. lia. }
  set (c := default 0 ((c0 :: inventory) !! Z.to_nat n')).
  rewrite <-Hlpre in Hrest |- *. rewrite <-(chars_of_length (c0 :: inventory) pre) in Hrest |- *.
  destruct (finish_spec m' buf old (chars_of (c0 :: inventory) pre) c) as (m2 & -> & Hm2 & Hfr2).
  { rewrite chars_of_length. lia. }
  { done. }
  { rewrite chars_of_length in *. unfold chars_of. rewrite length_map. unfold Zlen in Hlpre. by replace (length pre) with j by lia. }
  exists m2. split; [done|]. split.
  { intros _. rewrite chars_of_length, Hlpre in Hm2. replace (Z.of_nat (S j)) with (Z.of_nat j + 1) by lia.
    assert (chars_of (c0 :: inventory) ds = chars_of (c0 :: inventory) pre ++ [c]) as ->
      by (rewrite Hds, Hpos; unfold chars_of; by rewrite map_app).
    by rewrite <-app_assoc. }
  intros x Hx. rewrite Hfr2 by done. by apply Hfr.
Qed.

Lemma base_x_encode_correct_witness : exists m' : mem,
  base_x_encode 32 (map_seqZ 16 (str "abcdefghijklmnopqrstu") ∪ map_seqZ 64 (repeat 7 12)) 4675940 64 12 16 21 = Ok (true, m').
Proof.
  destruct (base_x_encode_correct 32 (map_seqZ 16 (str "abcdefghijklmnopqrstu") ∪ map_seqZ 64 (repeat 7 12)) 4675940 64 (repeat 7 12)
    16 97 (str "bcdefghijklmnopqrstu") 21) as (_ & m' & Hrun & _);
    [lia|lia|lia|lia|lia|lia|decided|vm_compute; congruence|lia|decided|vm_compute; congruence|left; vm_compute; congruence|].
  exists m'. exact Hrun.
Defined.
