(* ===== verification/Normalize.v ===== *)
(** * Identifiers in many styles: core/text/normalize_identifier.h and normalize_identifier.cpp

    What [<<] writes to the string stream is appended to a list of chars. *)

From stdpp Require Import base tactics list gmap strings.
From Stdlib Require Import ZArith Lia.
From S2P Require Import Prelude CString StrView.
#[local] Open Scope Z_scope.

Inductive identifier_style : Type :=
| intent_noun | intent_verb | under | camel | title | title_under | alt_camel | alt_title.

#[export] Instance identifier_style_eq_dec : EqDecision identifier_style.
Proof. solve_decision. Defined.

(** What each function writes to [out]. *)
Definition normalize_boundary_char (c : Z) (out_style : identifier_style) (word_idx : Z)
    (last_was_acronym : bool) : list Z :=
  match out_style with
  | intent_noun => (if negb (word_idx =? 0) then str " " else []) ++ [ascii_to_lower_case c]
  | intent_verb =>
      if negb (word_idx =? 0) then str " " ++ [ascii_to_lower_case c] else [ascii_to_upper_case c]
  | under => (if negb (word_idx =? 0) then str "_" else []) ++ [ascii_to_lower_case c]
  | camel => if word_idx =? 0 then [ascii_to_lower_case c] else [ascii_to_upper_case c]
  | title => [ascii_to_upper_case c]
  | title_under => (if negb (word_idx =? 0) then str "_" else []) ++ [ascii_to_upper_case c]
  | alt_camel =>
      [if last_was_acronym || (word_idx =? 0) then ascii_to_lower_case c else ascii_to_upper_case c] ++
      [if last_was_acronym then ascii_to_lower_case c else ascii_to_upper_case c]
  | alt_title => [if last_was_acronym then ascii_to_lower_case c else ascii_to_upper_case c]
  end.

Definition normalize_internal_char (c : Z) (out_style : identifier_style) (in_acronym : bool) : list Z :=
  match out_style with
  | intent_verb | intent_noun | under => [ascii_to_lower_case c]
  | camel | title | title_under | alt_camel | alt_title =>
      [if in_acronym then ascii_to_upper_case c else ascii_to_lower_case c]
  end.

Definition skip_to_alphanumeric (m : mem) (p e : Z) : res Z :=
  iterate (span_fuel p e) (fun p =>
    if p <? e then
      let! c := load m p in if negb (is_ascii_alphanumeric c) then Ok (inr p) else Ok (inl (p + 1))
    else Ok (inr e)) p.

(** The loops over the rest of a word: chars are written while [continues]. *)
Definition rest_of_word (m : mem) (continues : Z -> bool) (out_style : identifier_style) (in_acronym : bool)
    (e p : Z) (out : list Z) : res (Z * list Z) :=
  iterate (span_fuel p e) (fun '(p, out) =>
    if p <? e then
      let! c := load m p in
      if continues c then Ok (inl (p + 1, out ++ normalize_internal_char c out_style in_acronym))
      else Ok (inr (p, out))
    else Ok (inr (p, out))) (p, out).

(** The end of an acronym in camel case: none of its chars are written. *)
Definition skip_acronym (m : mem) (e p : Z) : res Z :=
  let! p := iterate (span_fuel p e) (fun p =>
    if p + 1 <? e then
      let! c := load m (p + 1) in if is_ascii_upper c then Ok (inl (p + 1)) else Ok (inr p)
    else Ok (inr p)) p in
  Ok (if p + 1 =? e then p + 1 else p).

(** A turn of the loop of [normalize_identifier]: a word. *)
Definition normalize_word (m : mem) (e : Z) (in_style out_style : identifier_style) (word_is_capitalized : bool)
    (st : Z * Z * bool * list Z) : res (Z * Z * bool * list Z + list Z) :=
  let '(p, word_idx, in_acronym, out) := st in
  if p <? e then
    let last_was_acronym := in_acronym in
    let! c := load m p in
    let! in_acronym :=
      if is_ascii_upper c && (p + 1 <? e) then let! d := load m (p + 1) in Ok (is_ascii_upper d) else Ok false in
    let out := out ++ normalize_boundary_char c out_style word_idx last_was_acronym in
    let p := p + 1 in
    if e <=? p then Ok (inr out)
    else
      let! (p, out) :=
        match in_style with
        | intent_verb | intent_noun | under => rest_of_word m is_ascii_alphanumeric out_style in_acronym e p out
        | title | camel =>
            if in_acronym : bool then let! p := skip_acronym m e p in Ok (p, out)
            else rest_of_word m (fun c => bool_decide (is_ascii_upper c = word_is_capitalized)) out_style in_acronym e p out
        | title_under | alt_camel | alt_title =>
            let! c := load m p in
            Ok (p, out ++ [if in_acronym : bool then ascii_to_upper_case c else ascii_to_lower_case c])
        end in
      Ok (inl (p, u32 (word_idx + 1), in_acronym, out))
  else Ok (inr out).

Definition normalize_identifier (m : mem) (input : str_view) (in_style out_style : identifier_style) : res (list Z) :=
  if negb (view_bool input) then Ok []
  else
    let e := view_end input in
    let! p := skip_to_alphanumeric m (begin input) e in
    if p =? e then Ok []
    else iterate (span_fuel p e) (normalize_word m e in_style out_style false) (p, 0, false, []).

(** * Specification *)

(** The words of a text, as the loops for names with separators see them: a
    separator and the alphanumeric chars behind it. *)
Definition word : Type := Z * list Z.
Definition word_text (w : word) : list Z := w.1 :: w.2.
Definition is_word (w : word) : Prop :=
  is_ascii_alphanumeric w.1 = false /\ Forall (fun c => is_ascii_alphanumeric c = true) w.2.

(** The chars in front of the first word, and the words. *)
Fixpoint words (l : list Z) : list Z * list word :=
  match l with
  | [] => ([], [])
  | c :: l => if is_ascii_alphanumeric c then (c :: (words l).1, (words l).2) else ([], (c, (words l).1) :: (words l).2)
  end.

(** What is written for the words from number [i] on. *)
Fixpoint normalized (out_style : identifier_style) (i : Z) (ws : list word) : list Z :=
  match ws with
  | [] => []
  | w :: ws => normalize_boundary_char w.1 out_style i false ++ map ascii_to_lower_case w.2 ++ normalized out_style (u32 (i + 1)) ws
  end.

Definition has_separators (s : identifier_style) : Prop := s = intent_noun \/ s = intent_verb \/ s = under.

Example normalize_noun :
  normalize_identifier (cstr_at 16 "use first dns setting") {| begin := 16; length := 21 |} intent_noun intent_noun = Ok (str " first  dns  setting").
Proof. reflexivity. Qed.
Example normalize_camel :
  normalize_identifier (cstr_at 16 "useFirstDNSSetting") {| begin := 16; length := 18 |} camel under = Ok [].
Proof. reflexivity. Qed.
Example normalize_alt :
  normalize_identifier (cstr_at 16 "a-xy") {| begin := 16; length := 4 |} alt_title title = Ok (str "-xXyY").
Proof. reflexivity. Qed.

Lemma words_spec l : l = (words l).1 ++ concat (map word_text (words l).2) /\
  Forall (fun c => is_ascii_alphanumeric c = true) (words l).1 /\ Forall is_word (words l).2.
Proof.
  induction l as [|c l (IHl & IHp & IHw)]; [done|]. cbn [words].
  destruct (is_ascii_alphanumeric c) eqn:Hc; simpl; (split; [by rewrite IHl at 1|]); split; try done; by constructor.
Qed.

Lemma words_alphanumeric l : Forall (fun c => is_ascii_alphanumeric c = true) l -> (words l).2 = [].
Proof. induction 1 as [|c l Hc _ IH]; [done|]. cbn [words]. by rewrite Hc. Qed.

Lemma upper_alphanumeric c : is_ascii_upper c = true -> is_ascii_alphanumeric c = true.
Proof.
  unfold is_ascii_upper, is_ascii_alphanumeric. intros [H1 H2]%andb_true_iff. apply Z.leb_le in H1, H2.
  apply orb_true_iff. right. ztrue ("A"%ch <=? c). ztrue (c <=? "z"%ch). ztrue (c <=? "Z"%ch). by rewrite orb_true_r.
Qed.

(** ** The loops *)

Lemma skip_spec m p e l : holds m p l -> e = p + Zlen l ->
  skip_to_alphanumeric m p e = Ok (p + scan_len is_ascii_alphanumeric l).
Proof.
  intros Hm He. unfold skip_to_alphanumeric. apply (iterate_scan_len _ m e).
  - intros q c Hc Hq. ztrue (q <? e). rewrite (load_Some _ _ _ Hc). cbn [bind]. by destruct (is_ascii_alphanumeric c).
  - by zfalse (e <? e).
  - done.
  - done.
  - by apply length_lt_span_fuel.
Qed.

(** The rest of a word, and whether a char is part of it. *)
Definition write_rest (continues : Z -> bool) (s : identifier_style) (a : bool) (c : Z) (out : list Z) : option (list Z) :=
  if continues c then Some (out ++ normalize_internal_char c s a) else None.

Lemma rest_of_word_spec m continues s a e p out l : holds m p l -> e = p + Zlen l ->
  rest_of_word m continues s a e p out =
    Ok (p + (scan_fold (write_rest continues s a) l out).1, (scan_fold (write_rest continues s a) l out).2).
Proof.
  intros Hm He. unfold rest_of_word. apply (iterate_scan_fold _ m e).
  - intros q b c Hc Hq. ztrue (q <? e). rewrite (load_Some _ _ _ Hc). cbn [bind]. unfold write_rest. by destruct (continues c).
  - intros b. by zfalse (e <? e).
  - done.
  - done.
  - by apply length_lt_span_fuel.
Qed.

(** In a name with separators a word runs up to the next separator. *)
Lemma write_rest_word s w ws : forall out, Forall (fun c => is_ascii_alphanumeric c = true) w -> Forall is_word ws ->
  scan_fold (write_rest is_ascii_alphanumeric s false) (w ++ concat (map word_text ws)) out = (Zlen w, out ++ map ascii_to_lower_case w).
Proof.
  induction w as [|c w IH]; intros out Hw Hws.
  - rewrite app_nil_r. destruct ws as [|[c w] ws]; [done|]. inversion Hws as [|? ? [Hc _] ?]; subst. cbn. unfold write_rest at 1. simpl in Hc. by rewrite Hc.
  - inversion Hw as [|? ? Hc Hw']; subst. cbn [scan_fold app]. unfold write_rest at 1. rewrite Hc.
    rewrite IH by done. rewrite Zlen_cons. cbn [map]. f_equal. rewrite <-app_assoc. f_equal. by destruct s.
Qed.

Lemma concat_words_length ws : (Datatypes.length ws <= Datatypes.length (concat (map word_text ws)))%nat.
Proof. induction ws as [|w ws IH]; [done|]. simpl. rewrite length_app. lia. Qed.

(** ** The words of a name with separators *)

Lemma normalize_words m e in_style out_style : has_separators in_style -> forall ws fuel p i out,
  holds m p (concat (map word_text ws)) -> e = p + Zlen (concat (map word_text ws)) -> Forall is_word ws ->
  (Datatypes.length ws < fuel)%nat ->
  iterate fuel (normalize_word m e in_style out_style false) (p, i, false, out) = Ok (out ++ normalized out_style i ws).
Proof.
  intros Hstyle. assert (normalize_word m e in_style out_style false = normalize_word m e under out_style false) as ->
    by (destruct Hstyle as [->|[->| ->]]; done).
  induction ws as [|[c w] ws IH]; intros fuel p i out Hm He Hws Hf;
    (destruct fuel as [|fuel]; [simpl in Hf; lia|]); cbn [iterate]; unfold normalize_word at 1.
  - simpl in He. rewrite Zlen_nil in He. zfalse (p <? e). simpl. by rewrite app_nil_r.
  - cbn [map concat] in Hm, He. unfold word_text at 1 in Hm. unfold word_text at 1 in He. cbn [fst snd app] in Hm, He.
    rewrite Zlen_cons in He. destruct Hm as [Hc Hm]. inversion Hws as [|? ? [Hsep Hw] Hws']; subst. simpl in Hsep, Hw.
    set (rest := w ++ concat (map word_text ws)) in *. pose proof (Zlen_nonneg rest) as Hrest.
    ztrue (p <? p + (1 + Zlen rest)). rewrite (load_Some _ _ _ Hc). cbn [bind].
    assert (is_ascii_upper c = false) as -> by (destruct (is_ascii_upper c) eqn:Hu; [apply upper_alphanumeric in Hu; congruence|done]).
    cbn [andb bind normalized fst snd]. destruct (Z.leb_spec (p + (1 + Zlen rest)) (p + 1)) as [Hend|Hmore]; cbn [bind].
    + destruct rest eqn:Hr; [|rewrite Zlen_cons in Hend; pose proof (Zlen_nonneg l); lia]. subst rest.
      apply app_eq_nil in Hr as [-> Hws0]. destruct ws; [|done]. simpl. by rewrite app_nil_r.
    + rewrite (rest_of_word_spec m _ _ _ (p + (1 + Zlen rest)) (p + 1) _ rest) by (done || lia).
      unfold rest. rewrite write_rest_word by done. fold rest. cbn [fst snd].
      cbn [bind]. destruct fuel as [|fuel]; [simpl in Hf; lia|]. rewrite IH; [by rewrite <-!app_assoc| | |done|simpl in Hf; lia].
      * apply holds_app in Hm as [_ Hm]. exact Hm.
      * unfold rest. rewrite Zlen_app. lia.
Qed.

(** ** Every style: the loop returns *)

Lemma skip_acronym_total m e p l : holds m p l -> e = p + Zlen l -> p < e -> wp (skip_acronym m e p) (fun q => p <= q <= e).
Proof.
  intros Hm He Hp. unfold skip_acronym. apply wp_bind.
  apply wp_iterate with (I := fun q => p <= q < e) (measure := fun q => Z.to_nat (e - q)); [|lia|apply span_fuel_gt].
  intros q Hq. cbn beta. destruct (Z.ltb_spec (q + 1) e) as [Hlt|Hge]; cbn [wp].
  - destruct (lookup_lt_is_Some_2 l (Z.to_nat (q + 1 - p))) as [c Hc]; [unfold Zlen in He; lia|].
    apply (holds_lookup _ _ _ _ _ Hm) in Hc. replace (p + Z.of_nat (Z.to_nat (q + 1 - p))) with (q + 1) in Hc by lia.
    rewrite (load_Some _ _ _ Hc). cbn [bind]. destruct (is_ascii_upper c); cbn [wp]; [lia|]. destruct (Z.eqb_spec (q + 1) e); lia.
  - destruct (Z.eqb_spec (q + 1) e); lia.
Qed.

(** Where the chars of the output come from: [l] is the text. *)
Definition made_of (l : list Z) (c : Z) : Prop :=
  c = " "%ch \/ c = "_"%ch \/ exists x, x ∈ l /\ (c = ascii_to_lower_case x \/ c = ascii_to_upper_case x).
(** [out'] has at most [n] chars more than [out], and no others than those. *)
Definition grows (l : list Z) (n : Z) (out out' : list Z) : Prop :=
  Zlen out' <= Zlen out + n /\ (Forall (made_of l) out -> Forall (made_of l) out').

Lemma grows_trans l n1 n2 out out1 out2 : grows l n1 out out1 -> grows l n2 out1 out2 -> grows l (n1 + n2) out out2.
Proof. intros [H1 F1] [H2 F2]. split; [lia|auto]. Qed.
Lemma grows_mono l n n' out out' : grows l n out out' -> n <= n' -> grows l n' out out'.
Proof. intros [H F] Hn. split; [lia|done]. Qed.
Lemma grows_app l n out s : Zlen s <= n -> Forall (made_of l) s -> grows l n out (out ++ s).
Proof. intros Hs Hf. split; [rewrite Zlen_app; lia|]. intros Ho. by apply Forall_app. Qed.

Lemma made_lower l c : c ∈ l -> made_of l (ascii_to_lower_case c).
Proof. intros Hc. right; right. exists c. auto. Qed.
Lemma made_upper l c : c ∈ l -> made_of l (ascii_to_upper_case c).
Proof. intros Hc. right; right. exists c. auto. Qed.
Lemma made_case l c (b : bool) : c ∈ l -> made_of l (if b then ascii_to_upper_case c else ascii_to_lower_case c).
Proof. intros Hc. destruct b; [by apply made_upper|by apply made_lower]. Qed.

Lemma boundary_grows l c s i a out : c ∈ l -> grows l 2 out (out ++ normalize_boundary_char c s i a).
Proof.
  intros Hc. pose proof (made_lower l c Hc). pose proof (made_upper l c Hc).
  assert (made_of l " "%ch) by by left. assert (made_of l "_"%ch) by by (right; left).
  unfold normalize_boundary_char. apply grows_app; destruct s, (i =? 0), a; cbn; first [unfold Zlen; simpl; lia|repeat (apply Forall_cons; split; [assumption|]); apply Forall_nil_2].
Qed.
Lemma internal_grows l c s a out : c ∈ l -> grows l 1 out (out ++ normalize_internal_char c s a).
Proof.
  intros Hc. pose proof (made_lower l c Hc). pose proof (made_case l c a Hc).
  unfold normalize_internal_char. apply grows_app; destruct s; cbn; first [unfold Zlen; simpl; lia|repeat (apply Forall_cons; split; [assumption|]); apply Forall_nil_2].
Qed.

Lemma rest_grows l k s a w : Forall (fun c => c ∈ l) w -> forall out,
  grows l (scan_fold (write_rest k s a) w out).1 out (scan_fold (write_rest k s a) w out).2.
Proof.
  induction 1 as [|c w Hc _ IH]; intros out; cbn [scan_fold]; [split; [simpl; lia|done]|].
  unfold write_rest at 1 3. destruct (k c); [|split; [simpl; lia|done]].
  specialize (IH (out ++ normalize_internal_char c s a)). destruct (scan_fold _ w _) as [n out']. cbn [fst snd] in *.
  eapply grows_mono; [eapply grows_trans; [by apply internal_grows|exact IH]|lia].
Qed.

Lemma word_total text m e in_style out_style p i a out l : holds m p l -> e = p + Zlen l -> Forall (fun c => c ∈ text) l ->
  wp (normalize_word m e in_style out_style false (p, i, a, out)) (fun r =>
    match r with
    | inl (p', _, _, out') => p < p' <= e /\ grows text (3 * (p' - p)) out out'
    | inr out' => grows text (3 * (e - p)) out out'
    end).
Proof.
  intros Hm He Htext. unfold normalize_word. destruct (Z.ltb_spec p e) as [Hlt|Hge]; [|cbn; split; [pose proof (Zlen_nonneg l); lia|done]].
  destruct l as [|c l]; [rewrite Zlen_nil in He; lia|]. rewrite Zlen_cons in He. destruct Hm as [Hc Hm]. rewrite (load_Some _ _ _ Hc). cbn [bind].
  apply Forall_cons in Htext as [Hct Htext].
  set (look := if is_ascii_upper c && (p + 1 <? e) then let! d := load m (p + 1) in Ok (is_ascii_upper d) else Ok false).
  assert (exists b, look = Ok b) as [b ->].
  { unfold look. destruct (is_ascii_upper c); [|by eexists]. destruct (Z.ltb_spec (p + 1) e); simpl; [|by eexists].
    destruct l as [|d l]; [rewrite Zlen_nil in He; lia|]. destruct Hm as [Hd _]. rewrite (load_Some _ _ _ Hd). by eexists. }
  cbn [bind]. pose proof (boundary_grows text c out_style i a out Hct) as Hb. set (out1 := out ++ normalize_boundary_char c out_style i a) in *.
  destruct (Z.leb_spec e (p + 1)) as [|Hmore]; [by apply (grows_mono _ _ _ _ _ Hb); lia|].
  set (Q := fun r : Z * list Z => p < r.1 <= e /\ grows text (3 * (r.1 - p)) out r.2).
  assert (forall k, wp (rest_of_word m k out_style b e (p + 1) out1) Q) as Hrest.
  { intros k. rewrite (rest_of_word_spec m k out_style b e (p + 1) out1 l) by (done || lia). unfold Q. cbn [wp fst snd].
    pose proof (scan_fold_bounds (write_rest k out_style b) l out1). split; [lia|].
    eapply grows_mono; [eapply grows_trans; [exact Hb|by apply rest_grows]|lia]. }
  apply wp_bind. apply wp_mono with (P := Q); [intros [p' out'] [Hp Hg]; by split|].
  assert (wp (let! c := load m (p + 1) in Ok (p + 1, out1 ++ [if b then ascii_to_upper_case c else ascii_to_lower_case c])) Q) as Hnext.
  { destruct l as [|d l]; [rewrite Zlen_nil in He; lia|]. destruct Hm as [Hd _]. rewrite (load_Some _ _ _ Hd). cbn. split; [cbn; lia|]. cbn.
    apply Forall_cons in Htext as [Hdt _]. eapply grows_mono; [eapply grows_trans; [exact Hb|]|].
    - apply (grows_app _ 1); [by rewrite Zlen_cons, Zlen_nil|]. apply Forall_cons. split; [by apply made_case|apply Forall_nil_2].
    - lia. }
  destruct in_style; try apply Hrest; try exact Hnext; (destruct b; [|apply Hrest]);
    (apply wp_bind; eapply wp_mono; [|apply (skip_acronym_total m e (p + 1) l); (done || lia)]; intros q Hq; cbn in Hq |- *;
     split; [cbn; lia|eapply grows_mono; [exact Hb|cbn; lia]]).
Qed.

Lemma normalize_total text m p e l in_style out_style : holds m p l -> e = p + Zlen l -> Forall (fun c => c ∈ text) l ->
  wp (iterate (span_fuel p e) (normalize_word m e in_style out_style false) (p, 0, false, [])) (fun out => grows text (3 * Zlen l) [] out).
Proof.
  intros Hm He Htext. apply wp_iterate with (I := fun st : Z * Z * bool * list Z => p <= st.1.1.1 <= e /\ grows text (3 * (st.1.1.1 - p)) [] st.2)
    (measure := fun st : Z * Z * bool * list Z => Z.to_nat (e - st.1.1.1)).
  2: { cbn [fst snd]. pose proof (Zlen_nonneg l). split; [lia|]. split; [lia|done]. }
  2: apply span_fuel_gt.
  intros [[[q i] a] out] [Hq Hg]. cbn [fst snd] in Hq, Hg.
  pose proof (holds_split_at m p l q Hm) as Hsplit. assert (exists l', holds m q l' /\ e = q + Zlen l' /\ Forall (fun c => c ∈ text) l') as (l' & Hm' & He' & Hl').
  { rewrite <-(take_drop (Z.to_nat (q - p)) l) in Hm, Htext. apply holds_app in Hm as [_ Hm]. apply Forall_app in Htext as [_ Htext].
    exists (drop (Z.to_nat (q - p)) l). unfold Zlen in *. rewrite length_take_le in Hm by lia. rewrite Z2Nat.id in Hm by lia.
    replace (p + (q - p)) with q in Hm by lia. split_and!; [done| |done]. rewrite length_drop. lia. }
  eapply wp_mono; [|apply (word_total text m e in_style out_style q i a out l' Hm' He' Hl')].
  intros [[[[q' i'] a'] out']|out']; cbn [fst snd].
  - intros [Hq' Hg']. split; [split; [lia|]|lia]. eapply grows_mono; [eapply grows_trans; [exact Hg|exact Hg']|lia].
  - intros Hg'. eapply grows_mono; [eapply grows_trans; [exact Hg|exact Hg']|lia].
Qed.

(** The alphanumeric chars in front are dropped, so a text without
    a separator, such as any name in camel case, gives the empty string.  For the
    styles whose words have separators, the output has the separators as well:
    each in the place of the first char of its word, behind the new separator,
    and the letters of the word in lower case. *)
Lemma normalize_identifier_words m v l in_style out_style : shows m v l ->
  (exists out, normalize_identifier m v in_style out_style = Ok out /\ grows l (3 * Zlen l) [] out) /\
  (Forall (fun c => is_ascii_alphanumeric c = true) l -> normalize_identifier m v in_style out_style = Ok []) /\
  (has_separators in_style -> normalize_identifier m v in_style out_style = Ok (normalized out_style 0 (words l).2)).
Proof.
  intros (Hb & Hlen & Hm). unfold normalize_identifier, view_bool, is_empty, view_end. rewrite Hlen.
  destruct (Z.eqb_spec (Zlen l) 0) as [H0|H0]; cbn [negb].
  { destruct l; [|rewrite Zlen_cons in H0; pose proof (Zlen_nonneg l); lia]. split; [by eexists|]. by split. }
  destruct (words_spec l) as (Hl & Hpre & Hws). destruct (words l) as [pre ws] eqn:Hwords. cbn [fst snd] in *.
  rewrite (skip_spec m (begin v) (begin v + Zlen l) l) by done. cbn [bind].
  assert (scan_len is_ascii_alphanumeric l = Zlen pre) as ->.
  { rewrite Hl, scan_len_app_all by done. replace (scan_len _ _) with 0; [lia|]. destruct ws as [|w ws']; [done|].
    inversion Hws as [|? ? [Hw _] _]; subst. simpl. by rewrite Hw. }
  assert (Zlen l = Zlen pre + Zlen (concat (map word_text ws))) as Hlen2 by (rewrite Hl at 1; apply Zlen_app).
  rewrite Hl in Hm. apply holds_app in Hm as [_ Hm].
  destruct (Z.eqb_spec (begin v + Zlen pre) (begin v + Zlen l)) as [Hall|Hsome].
  { assert (ws = []) as -> by (pose proof (concat_words_length ws) as Hc; unfold Zlen in *; destruct ws; [done|simpl in *; lia]).
    split; [eexists; split; [done|by split; [cbn; pose proof (Zlen_nonneg l); lia|]]|]. by split. }
  split; [|split].
  - destruct (wp_Ok_iff (iterate (span_fuel (begin v + Zlen pre) (begin v + Zlen l))
      (normalize_word m (begin v + Zlen l) in_style out_style false) (begin v + Zlen pre, 0, false, []))
      (fun out => grows l (3 * Zlen (concat (map word_text ws))) [] out)) as [Hwp _].
    destruct Hwp as (out & Hout & Hg).
    + apply (normalize_total l m _ _ (concat (map word_text ws))); [done|lia|]. apply Forall_forall. intros c Hc. rewrite Hl.
      apply elem_of_app. by right.
    + exists out. split; [done|]. eapply grows_mono; [exact Hg|]. pose proof (Zlen_nonneg pre). lia.
  - intros Hal. pose proof (words_alphanumeric l Hal) as Hn. rewrite Hwords in Hn. simpl in Hn. subst ws. simpl in Hlen2. rewrite Zlen_nil in Hlen2. lia.
  - intros Hstyle. rewrite normalize_words with (ws := ws); [done|done|done|lia|done|].
    pose proof (concat_words_length ws). unfold span_fuel, Zlen in *. lia.
Qed.

(** C27: on every text and for all styles [normalize_identifier] returns, reading
    only the text.  Its result has at most three times as many chars as the text, and each of them is a blank, an underscore, or a
    char of the text in upper or lower case. *)
Theorem normalize_identifier_returns m v l in_style out_style : shows m v l ->
  exists out, normalize_identifier m v in_style out_style = Ok out /\ Zlen out <= 3 * Zlen l /\ Forall (made_of l) out.
Proof.
  intros Hv. destruct (normalize_identifier_words m v l in_style out_style Hv) as ((out & Hout & Hlen & Hmade) & _).
  exists out. split_and!; [done|by rewrite Zlen_nil in Hlen|]. by apply Hmade.
Qed.

Lemma normalize_identifier_returns_witness : exists out,
  normalize_identifier (cstr_at 16 "use_First_DNS") {| begin := 16; length := 13 |} camel alt_title = Ok out /\
  Zlen out <= 3 * 13 /\ Forall (made_of (str "use_First_DNS")) out.
Proof.
  apply (normalize_identifier_returns (cstr_at 16 "use_First_DNS") {| begin := 16; length := 13 |} (str "use_First_DNS") camel alt_title).
  by decided.
Defined.
