(* ===== verification/Escapes.v ===== *)
(** * Escape sequences in a text: core/text/escape_sequence.h and escape_sequence.cpp

    The local arrays [buf] are live bytes of the memory, whose contents before
    the code writes them are arbitrary. *)

From stdpp Require Import base tactics list gmap strings.
From Stdlib Require Import ZArith Lia.
From S2P Require Import Prelude CString ScanNumbers Unicode StrView StdString.
#[local] Open Scope Z_scope.

Section buffer.
Context (buf : Z).

(** A turn of the loop of [expand_escape_sequences], with its [++p].  [cp] is
    only read after the scan has set it. *)
Definition expand_step (e : Z) (st : mem * Z * list Z) : res (mem * Z * list Z + mem * list Z) :=
  let '(m, p, result) := st in
  if p <? e then
    let! c := load m p in
    if c =? BACKSLASH then
      let! (q, cp) := scan_unicode_escape_sequence m (p + 1) 0 in
      let p := q - 1 in
      if p <? e then
        let! (_, (m, _, _)) := cat_utf8_or_escape_sequence (m, buf, 8) cp in
        let! s := string_of_cstr m buf in
        Ok (inl (m, p + 1, result ++ s))
      else Ok (inr (m, result))
    else Ok (inl (m, p + 1, result ++ [c]))
  else Ok (inr (m, result)).

Definition expand_escape_sequences (m : mem) (s : str_view) : res (mem * list Z) :=
  let e := view_end s in
  iterate (span_fuel (begin s) e) (expand_step e) (m, begin s, []).

(** A turn of the loop of [insert_escape_sequences]. *)
Definition insert_step (should_escape : Z -> bool) (e : Z) (st : mem * Z * list Z) : res (mem * Z * list Z + mem * list Z) :=
  let '(m, p, result) := st in
  if p =? e then Ok (inr (m, result))
  else
    let! (p, cp) := get_codepoint_from_utf8 m p in
    if should_escape cp then
      let! (ok, (m, _, _)) := add_escape_sequence (m, buf, 12) cp in
      if ok : bool then let! s := string_of_cstr m buf in Ok (inl (m, p, result ++ s)) else Ok (inl (m, p, result))
    else if cp <? 0x7f then Ok (inl (m, p, result ++ [to_char cp]))
    else
      let! (ok, (m, _, _)) := add_codepoint_to_utf8 (m, buf, 12) cp in
      if ok : bool then let! s := string_of_cstr m buf in Ok (inl (m, p, result ++ s)) else Ok (inl (m, p, result)).

(** A turn moves [p] on: there are no more turns than live bytes. *)
Definition insert_escape_sequences (m : mem) (s : str_view) (should_escape : Z -> bool) : res (mem * list Z) :=
  iterate (S (size m)) (insert_step should_escape (view_end s)) (m, begin s, []).
End buffer.

Definition should_escape_in_utf8_string_literals (cp : Z) : bool :=
  if cp <? 32 then negb ((cp =? 9) || (cp =? 10) || (cp =? 13))
  else if cp <=? 0x7f then (cp =? BACKSLASH) || (cp =? DQUOTE) || (cp =? 0x7f)
  else false.

Definition at_100 (s : string) : mem := map_seqZ 100 (str s) ∪ map_seqZ 16 (replicate 12 1).
Definition run_expand (s : string) : res (list Z) :=
  let! (_, t) := expand_escape_sequences 16 (at_100 s) {| begin := 100; length := Zlen (str s) |} in Ok t.
Definition run_insert (s : string) : res (list Z) :=
  let! (_, t) := insert_escape_sequences 16 (at_100 s) {| begin := 100; length := Zlen (str s) |} should_escape_in_utf8_string_literals in Ok t.

Example expand_tests :
  run_expand "a\x41b" = Ok (str "aAb") /\ run_expand "a\nb" = Ok (str "a\nb") /\
  run_expand "\\x" = Ok (str "\\x") /\ run_expand "\U0001F600" = Undef.
Proof. vm_compute. repeat split. Qed.
Example insert_tests : run_insert "a\b" = Ok (str "a\x5Cb") /\ run_insert "caf" = Ok (str "caf").
Proof. vm_compute. repeat split. Qed.

(** * Specification *)

(** What [cat_utf8_or_escape_sequence] makes of a codepoint below 0x10000. *)
Definition utf8_or_escape_text (cp : Z) : list Z :=
  if cp <? 0x80 then
    if cp <? " "%ch then
      match strchr NEED_1CHAR_ESCAPES cp with
      | Some i => [BACKSLASH; char_at CHARS_FOR_1CHAR_ESCAPES i]
      | None => BACKSLASH :: "x"%ch :: hex_digits 2 cp
      end
    else if bool_decide (cp ∈ [BACKSLASH; DQUOTE; "'"%ch]) then [BACKSLASH; cp]
    else if cp =? 0x7f then BACKSLASH :: str "x7F"
    else [cp]
  else BACKSLASH :: "u"%ch :: hex_digits 4 cp.

(** A text is a sequence of plain chars and of escapes. *)
Inductive piece : Type :=
| plain (c : Z)
| escape (body : list Z) (cp : Z).

(** The chars [body] behind a backslash stand for [cp]. *)
Definition reads_as (body : list Z) (cp : Z) : Prop :=
  body <> [] /\ forall m a cp0, 0 < a -> holds m a body -> scan_unicode_escape_sequence m a cp0 = Ok (a + Zlen body, cp).

Definition piece_text (x : piece) : list Z :=
  match x with plain c => [c] | escape body _ => BACKSLASH :: body end.
Definition expanded (x : piece) : list Z :=
  match x with plain c => [c] | escape _ cp => utf8_or_escape_text cp end.
Definition piece_ok (x : piece) : Prop :=
  match x with
  | plain c => c <> BACKSLASH
  | escape body cp => reads_as body cp /\ 0 < cp < 0x10000
  end.

(** ** The buffer *)

Definition live (m : mem) (a n : Z) : Prop := exists old, holds m a old /\ Zlen old = n.

Lemma updates_live m m' a l n : updates m m' a l -> live m a n -> Zlen l <= n -> live m' a n.
Proof.
  intros [Hl Helse] (old & Hold & Hlen) Hle. exists (l ++ drop (Datatypes.length l) old). split.
  - apply holds_app. split; [done|]. rewrite <-(take_drop (Datatypes.length l) old) in Hold. apply holds_app in Hold as [_ Hold].
    replace (Zlen (take (Datatypes.length l) old)) with (Zlen l) in Hold by (unfold Zlen in *; rewrite length_take; lia).
    apply holds_of_lookup. intros i c Hi. rewrite Helse; [by eapply holds_lookup|lia].
  - unfold Zlen in *. rewrite length_app, length_drop. lia.
Qed.

Lemma updates_outside m m' a l b k : updates m m' a l -> holds m b k -> b + Zlen k <= a \/ a + Zlen l <= b -> holds m' b k.
Proof.
  intros [_ Helse] Hk Hdis. apply holds_of_lookup. intros i c Hi. rewrite Helse; [by eapply holds_lookup|].
  apply lookup_lt_Some in Hi. unfold Zlen in *. lia.
Qed.

Lemma stores_live m a n l : live m a n -> Zlen l <= n -> exists m', stores m a l = Ok m' /\ updates m m' a l.
Proof.
  intros (old & Hold & Hlen) Hle. rewrite <-(take_drop (Datatypes.length l) old) in Hold. apply holds_app in Hold as [Hold _].
  apply (stores_spec m a _ l Hold). rewrite length_take. unfold Zlen in *. lia.
Qed.

Lemma stores_app m a l k : stores m a (l ++ k) = let! m := stores m a l in stores m (a + Zlen l) k.
Proof.
  revert m a. induction l as [|c l IH]; intros m a; cbn [stores app].
  - cbn [bind]. by rewrite Zlen_nil, Z.add_0_r.
  - destruct (store m a c) as [m1| | |]; cbn [bind]; [|done..]. rewrite IH, Zlen_cons. by rewrite Z.add_assoc.
Qed.

(** Storing the NUL behind a text that is there already, or again. *)
Lemma store_nul m m1 a l n : updates m m1 a l -> live m a n -> Zlen l < n ->
  exists m2, store m1 (a + Zlen l) 0 = Ok m2 /\ updates m m2 a (l ++ [0]).
Proof.
  intros Hup Hlive Hlt. destruct (updates_live _ _ _ _ _ Hup Hlive ltac:(lia)) as (old & Hold & Hlen).
  destruct (lookup_lt_is_Some_2 old (Datatypes.length l)) as [c Hc]; [unfold Zlen in *; lia|].
  apply (holds_lookup _ _ _ _ _ Hold) in Hc. change (m1 !! (a + Zlen l) = Some c) in Hc.
  unfold store. rewrite Hc. eexists. split; [done|]. by eapply updates_snoc.
Qed.

Lemma store_nul_again m m1 a l : updates m m1 a (l ++ [0]) -> store m1 (a + Zlen l) 0 = Ok m1.
Proof.
  intros [Hl _]. apply holds_app in Hl as [_ [H0 _]]. unfold store. rewrite H0. f_equal. by apply insert_id.
Qed.

Lemma snprintf_live m a n len text : live m a n -> Zlen text < n -> Zlen text < len ->
  exists m', snprintf m a len text = Ok m' /\ updates m m' a (text ++ [0]).
Proof.
  intros Hlive Hn Hlen. pose proof (Zlen_nonneg text). unfold snprintf. zfalse (len =? 0).
  rewrite take_ge by (unfold Zlen in *; lia). apply (stores_live m a n); [done|]. rewrite Zlen_app, Zlen_cons, Zlen_nil. lia.
Qed.

(** ** Texts of a codepoint *)

Lemma hex_char_nonzero d : 0 <= d < 16 -> hex_char d <> 0.
Proof. intros Hd. unfold hex_char. ztest. Qed.

Lemma hex_digits_no_nul n v : no_nul (hex_digits n v).
Proof.
  revert v. induction n as [|n IH]; intros v; simpl; [apply not_elem_of_nil|].
  intros [Hin|Hin%list_elem_of_singleton]%elem_of_app; [by apply (IH (v / 16))|]. symmetry in Hin. apply hex_char_nonzero in Hin; [done|].
  by apply Z.mod_pos_bound.
Qed.

Lemma one_char_escape_text i : no_nul [BACKSLASH; char_at CHARS_FOR_1CHAR_ESCAPES i] \/ (7 <= i)%nat.
Proof. do 7 (destruct i as [|i]; [left; by decided|]). right. lia. Qed.

Lemma strchr_index s c i : c <> 0 -> strchr s c = Some i -> (i < Datatypes.length s)%nat.
Proof.
  intros Hc Hi. unfold strchr in Hi. apply fmap_Some in Hi as ([j x] & Hi & ->). apply list_find_Some in Hi as (Hj & -> & _).
  simpl. pose proof (lookup_lt_Some _ _ _ Hj) as Hlt. rewrite length_app in Hlt. simpl in Hlt.
  destruct (decide (j = Datatypes.length s)) as [->|]; [|lia]. by rewrite lookup_app_r, Nat.sub_diag in Hj; [injection Hj|].
Qed.

Lemma utf8_or_escape_text_spec cp : 0 < cp < 0x10000 -> no_nul (utf8_or_escape_text cp) /\ Zlen (utf8_or_escape_text cp) <= 6.
Proof.
  intros Hcp. unfold utf8_or_escape_text.
  assert (forall mark n, mark <> 0 -> (n <= 4)%nat -> no_nul (BACKSLASH :: mark :: hex_digits n cp) /\ Zlen (BACKSLASH :: mark :: hex_digits n cp) <= 6) as Hhex.
  { intros mark n Hmark Hn. split; [|unfold Zlen; simpl; rewrite hex_digits_length; lia].
    rewrite !no_nul_cons. split; [done|]. split; [done|]. apply hex_digits_no_nul. }
  destruct (Z.ltb_spec cp 0x80); [|by apply Hhex; [|lia]]. destruct (Z.ltb_spec cp " "%ch).
  - destruct (strchr NEED_1CHAR_ESCAPES cp) as [i|] eqn:Hi; [|by apply Hhex; [|lia]].
    apply strchr_index in Hi; [|lia]. split; [|done]. destruct (one_char_escape_text i); [done|]. simpl in Hi. lia.
  - case_bool_decide as Hin; [|destruct (Z.eqb_spec cp 0x7f)].
    + split; [|done]. rewrite !no_nul_cons. split; [done|]. split; [lia|apply not_elem_of_nil].
    + split; [by decided|done].
    + split; [|done]. rewrite no_nul_cons. split; [lia|apply not_elem_of_nil].
Qed.

Lemma cat_text m buf cp : 0 < buf -> live m buf 8 -> 0 < cp < 0x10000 -> exists m' b n,
  cat_utf8_or_escape_sequence (m, buf, 8) cp = Ok (true, (m', b, n)) /\ updates m m' buf (utf8_or_escape_text cp ++ [0]).
Proof.
  intros Hbuf Hlive Hcp. unfold cat_utf8_or_escape_sequence, terminate. change (negb ((m, buf, 8).2 =? 0)) with true. cbn match.
  change (u64 (8 - 1)) with 7. unfold add_utf8_or_escape_sequence. zfalse (buf =? 0). change (7 <? 1) with false. cbn [orb].
  assert (forall text n, Zlen text = n -> n <= 6 -> exists m',
    (let! (ok, w') := (let! m := snprintf m buf 7 text in advance_and_return_true m buf 7 n) in
     let '(m', buf', len') := w' in
     if ok : bool then let! m' := store m' buf' 0 in Ok (true, (m', buf' + 1, len')) else Ok (false, (m', buf', 8))) =
    Ok (true, (m', buf + n + 1, u64 (7 + n))) /\ updates m m' buf (text ++ [0])) as Hprint.
  { intros text n Hn Hle. destruct (snprintf_live m buf 8 7 text) as (m' & -> & Hup); [done|lia|lia|]. exists m'.
    cbn [bind]. unfold advance_and_return_true. cbn [bind]. rewrite <-Hn, (store_nul_again m) by done. done. }
  assert (forall text n, Zlen text = n -> n <= 6 -> exists m',
    (let! (ok, w') := (let! m := stores m buf text in advance_and_return_true m buf 7 n) in
     let '(m', buf', len') := w' in
     if ok : bool then let! m' := store m' buf' 0 in Ok (true, (m', buf' + 1, len')) else Ok (false, (m', buf', 8))) =
    Ok (true, (m', buf + n + 1, u64 (7 + n))) /\ updates m m' buf (text ++ [0])) as Hstores.
  { intros text n Hn Hle. destruct (stores_live m buf 8 text) as (m1 & -> & Hup); [done|lia|]. 
    destruct (store_nul m m1 buf text 8) as (m2 & Hs & Hup2); [done|done|lia|]. exists m2.
    cbn [bind]. unfold advance_and_return_true. cbn [bind]. by rewrite <-Hn, Hs. }
  unfold utf8_or_escape_text. destruct (Z.ltb_spec cp 0x80).
  2: { ztrue (cp <=? 0xFFFF). change (6 <=? 7) with true. cbn match. unfold u16. rewrite Z.mod_small by lia.
       destruct (Hprint (BACKSLASH :: "u"%ch :: hex_digits 4 cp) 6) as (m' & -> & Hup); [done|done|]. by eexists _, _, _. }
  unfold u8. rewrite !Z.mod_small by lia. rewrite !to_char_ascii by lia. zfalse (cp =? 0). cbn [negb].
  destruct (Z.ltb_spec cp " "%ch).
  - destruct (strchr NEED_1CHAR_ESCAPES cp) as [i|].
    + unfold write_2byte_sequence. change (2 <=? 7) with true. cbn match.
      destruct (Hstores [BACKSLASH; char_at CHARS_FOR_1CHAR_ESCAPES i] 2) as (m' & -> & Hup); [done|done|]. by eexists _, _, _.
    + change (4 <? 7) with true. cbn match.
      destruct (Hprint (BACKSLASH :: "x"%ch :: hex_digits 2 cp) 4) as (m' & -> & Hup); [done|done|]. by eexists _, _, _.
  - unfold strchr_in. replace (bool_decide (cp ∈ [BACKSLASH; DQUOTE; "'"%ch] ++ [0])) with (bool_decide (cp ∈ [BACKSLASH; DQUOTE; "'"%ch])).
    2: { apply bool_decide_ext. rewrite elem_of_app, (list_elem_of_singleton cp 0). split; [by left|intros [|]; [done|lia]]. }
    case_bool_decide; [|destruct (cp =? 0x7f)].
    + unfold write_2byte_sequence. change (2 <=? 7) with true. cbn match.
      destruct (Hstores [BACKSLASH; cp] 2) as (m' & -> & Hup); [done|done|]. by eexists _, _, _.
    + change (4 <=? 7) with true. cbn match. destruct (Hstores (BACKSLASH :: str "x7F") 4) as (m' & -> & Hup); [done|done|]. by eexists _, _, _.
    + destruct (Hstores [cp] 1) as (m' & -> & Hup); [done|done|]. by eexists _, _, _.
Qed.

(** [result += buf]. *)
Lemma appended m m' buf text : 0 < buf -> updates m m' buf (text ++ [0]) -> no_nul text -> string_of_cstr m' buf = Ok text.
Proof. intros Hbuf [Hm _] Hnul. by apply string_of_cstr_spec. Qed.

(** ** The loops *)

Lemma piece_text_nonempty x : 1 <= Zlen (piece_text x).
Proof. destruct x; cbn [piece_text]; rewrite Zlen_cons; pose proof (@Zlen_nonneg Z); [specialize (H [])|specialize (H body)]; lia. Qed.

Lemma expand_loop buf e pieces : 0 < buf -> Forall piece_ok pieces -> forall fuel m p result,
  0 < p -> live m buf 8 -> holds m p (concat (map piece_text pieces)) -> e = p + Zlen (concat (map piece_text pieces)) ->
  (buf + 8 <= p \/ e <= buf) -> (Datatypes.length pieces < fuel)%nat ->
  exists m', iterate fuel (expand_step buf e) (m, p, result) = Ok (m', result ++ concat (map expanded pieces)) /\
    (forall b, b < buf \/ buf + 8 <= b -> m' !! b = m !! b) /\ live m' buf 8.
Proof.
  intros Hbuf Hok. induction Hok as [|x pieces Hx _ IH]; intros fuel m p result Hp Hlive Hm He Hdis Hf;
    (destruct fuel as [|fuel]; [simpl in Hf; lia|]); cbn [iterate]; unfold expand_step at 1.
  - simpl in He. rewrite Zlen_nil in He. zfalse (p <? e). cbn [bind]. exists m. rewrite app_nil_r. split; [done|]. by split.
  - cbn [map concat] in *. rewrite Zlen_app in He. pose proof (piece_text_nonempty x) as Hx1.
    pose proof (Zlen_nonneg (concat (map piece_text pieces))) as Hrest. ztrue (p <? e).
    apply holds_app in Hm as [Hm Hm']. simpl in Hf.
    destruct x as [c|body cp]; cbn [piece_text expanded piece_ok] in *.
    + destruct Hm as [Hc _]. rewrite (load_Some _ _ _ Hc). cbn [bind]. zfalse (c =? BACKSLASH). cbn [bind].
      rewrite Zlen_cons, Zlen_nil in *. destruct (IH fuel m (p + 1) (result ++ [c])) as (m' & Hrun & Hres); try (done || lia).
      exists m'. rewrite Hrun, <-app_assoc. split; [done|exact Hres].
    + destruct Hm as [Hc Hbody], Hx as [[Hne Hreads] Hcp]. rewrite (load_Some _ _ _ Hc). cbn [bind].
      rewrite Z.eqb_refl. rewrite (Hreads m (p + 1) 0) by (done || lia). cbn [bind]. rewrite Zlen_cons in *.
      assert (1 <= Zlen body) by (destruct body; [done|rewrite Zlen_cons; pose proof (Zlen_nonneg body); lia]).
      ztrue (p + 1 + Zlen body - 1 <? e). destruct (utf8_or_escape_text_spec cp Hcp) as [Hnul Hlen].
      destruct (cat_text m buf cp) as (m1 & b & n & -> & Hup); [done|done|done|]. cbn [bind].
      rewrite (appended m m1 buf (utf8_or_escape_text cp)) by done. cbn [bind].
      assert (Zlen (utf8_or_escape_text cp ++ [0]) <= 7) as Hlen7 by (rewrite Zlen_app, Zlen_cons, Zlen_nil; lia).
      replace (p + 1 + Zlen body - 1 + 1) with (p + (1 + Zlen body)) by lia.
      destruct (IH fuel m1 (p + (1 + Zlen body)) (result ++ utf8_or_escape_text cp)) as (m' & Hrun & Hframe & Hlive'); try lia.
      * eapply updates_live; [done|done|lia].
      * eapply updates_outside; [done|done|]. lia.
      * exists m'. rewrite Hrun, <-app_assoc. split; [done|]. split; [|done]. intros a Ha. rewrite Hframe by lia. apply Hup. lia.
Qed.

(** What [insert_escape_sequences] makes of a char. *)
Definition inserted (should_escape : Z -> bool) (c : Z) : list Z :=
  if should_escape c then BACKSLASH :: "x"%ch :: hex_digits 2 c else [c].

(** ASCII chars without the ones that are escaped in two chars, and DEL must be
    escaped. *)
Definition insertable (should_escape : Z -> bool) (c : Z) : Prop :=
  0 < c <= 0x7f /\ (should_escape c = false -> c < 0x7f) /\ (should_escape c = true -> strchr NEED_1CHAR_ESCAPES c = None).

Lemma get_ascii m p c : 0 < p -> m !! p = Some c -> 0 < c < 0x80 -> get_codepoint_from_utf8 m p = Ok (p + 1, c).
Proof.
  intros Hp Hm Hc. rewrite (get_codepoint_spec m p c).
  - unfold proper_length_of_codepoint. by ztrue (c <=? 127).
  - unfold MAX_UNICODE_CHAR. lia.
  - lia.
  - unfold utf8_chars, utf8_bytes. ztrue (c <? 128). simpl. by rewrite to_char_ascii by lia.
Qed.

Lemma insert_escape m buf c : 0 < buf -> live m buf 12 -> 0 < c <= 0x7f -> strchr NEED_1CHAR_ESCAPES c = None ->
  exists m' b n, add_escape_sequence (m, buf, 12) c = Ok (true, (m', b, n)) /\
    updates m m' buf ((BACKSLASH :: "x"%ch :: hex_digits 2 c) ++ [0]) /\ no_nul (BACKSLASH :: "x"%ch :: hex_digits 2 c).
Proof.
  intros Hbuf Hlive Hc Hn. unfold add_escape_sequence. rewrite to_char_ascii by lia. rewrite Hn.
  replace (if c <? " "%ch then None else None) with (@None nat) by (by destruct (c <? " "%ch)).
  zfalse (c =? 0). ztrue (c <=? 0x7F). change (4 <? 12) with true. cbn [orb]. cbn match. unfold u8. rewrite Z.mod_small by lia.
  destruct (snprintf_live m buf 12 12 (BACKSLASH :: "x"%ch :: hex_digits 2 c)) as (m' & -> & Hup); [done|done|done|].
  exists m', (buf + 4), (u64 (12 + 4)). split; [done|]. split; [done|]. rewrite !no_nul_cons. split; [done|]. split; [done|apply hex_digits_no_nul].
Qed.

Lemma insert_loop buf should_escape e l : 0 < buf -> Forall (insertable should_escape) l -> forall fuel m p result,
  0 < p -> live m buf 12 -> holds m p l -> e = p + Zlen l -> (buf + 12 <= p \/ e <= buf) -> (Datatypes.length l < fuel)%nat ->
  exists m', iterate fuel (insert_step buf should_escape e) (m, p, result) = Ok (m', result ++ concat (map (inserted should_escape) l)) /\
    (forall b, b < buf \/ buf + 12 <= b -> m' !! b = m !! b).
Proof.
  intros Hbuf Hok. induction Hok as [|c l (Hc & Hplain & Hesc) _ IH]; intros fuel m p result Hp Hlive Hm He Hdis Hf;
    (destruct fuel as [|fuel]; [simpl in Hf; lia|]); cbn [iterate]; unfold insert_step at 1.
  - rewrite Zlen_nil in He. ztrue (p =? e). cbn [bind]. exists m. by rewrite app_nil_r.
  - cbn [map concat]. rewrite Zlen_cons in He. pose proof (Zlen_nonneg l). zfalse (p =? e). simpl in Hf. destruct Hm as [Hc0 Hm].
    rewrite (get_ascii m p c) by (done || lia). cbn [bind]. unfold inserted at 1. destruct (should_escape c).
    + destruct (insert_escape m buf c) as (m1 & b & n & -> & Hup & Hnul); [done|done|done|by apply Hesc|]. cbn [bind].
      rewrite (appended m m1 buf (BACKSLASH :: "x"%ch :: hex_digits 2 c)) by done. cbn [bind].
      destruct (IH fuel m1 (p + 1) (result ++ BACKSLASH :: "x"%ch :: hex_digits 2 c)) as (m' & Hrun & Hframe); try lia.
      * eapply updates_live; [done|done|done].
      * eapply updates_outside; [done|done|]. change (Zlen ((BACKSLASH :: "x"%ch :: hex_digits 2 c) ++ [0])) with 5. lia.
      * exists m'. rewrite Hrun, <-app_assoc. split; [done|]. intros a Ha. rewrite Hframe by lia. apply Hup.
        change (Zlen ((BACKSLASH :: "x"%ch :: hex_digits 2 c) ++ [0])) with 5. lia.
    + specialize (Hplain eq_refl). ztrue (c <? 0x7f). rewrite to_char_ascii by lia. cbn [bind].
      destruct (IH fuel m (p + 1) (result ++ [c])) as (m' & Hrun & Hframe); try (done || lia).
      exists m'. rewrite Hrun, <-app_assoc. split; [done|exact Hframe].
Qed.

(** ** Escapes that read back *)

Lemma hex_escape_reads mark n v : hex_escape mark n -> 0 <= v < 16 ^ Z.of_nat n -> v <= MAX_UNICODE_CHAR ->
  reads_as (mark :: hex_digits n v) v.
Proof.
  intros Hmark Hv Hmax. split; [done|]. intros m a cp0 Ha Hm. rewrite (scan_hex_escape m a cp0 mark n v) by done.
  rewrite Zlen_cons. unfold Zlen. rewrite hex_digits_length. do 2 f_equal. lia.
Qed.

Lemma one_char_reads_as cp i : 0 < cp < 32 -> strchr NEED_1CHAR_ESCAPES (to_char cp) = Some i -> reads_as [char_at CHARS_FOR_1CHAR_ESCAPES i] cp.
Proof.
  intros Hcp Hi. split; [done|]. intros m a cp0 Ha [Hm _]. by rewrite (scan_one_char_escape m a cp0 cp i).
Qed.

(** The text that [insert_escape_sequences] returns, as pieces. *)
Definition insertion (should_escape : Z -> bool) (c : Z) : piece :=
  if should_escape c then escape ("x"%ch :: hex_digits 2 c) c else plain c.

Lemma insertion_text should_escape l : concat (map piece_text (map (insertion should_escape) l)) = concat (map (inserted should_escape) l).
Proof.
  induction l as [|c l IH]; [done|]. cbn [map concat]. rewrite IH. f_equal. unfold insertion, inserted. by destruct (should_escape c).
Qed.

(** A text with a backslash and a DEL, with buffers. *)
Definition two_texts : mem := map_seqZ 100 (str "a\b") ∪ map_seqZ 200 (str "a\x5Cb") ∪ map_seqZ 16 (replicate 12 1).

(** [expand_escape_sequences] on a text of plain chars and escapes, each of
    which reads as a codepoint below 0x10000, replaces every escape by what
    [cat_utf8_or_escape_sequence] makes of the codepoint, and changes no byte
    outside its buffer. *)
Lemma expand_rewrites_escapes m buf v pieces : 0 < buf -> Forall piece_ok pieces -> shows m v (concat (map piece_text pieces)) ->
  live m buf 8 -> (buf + 8 <= begin v \/ view_end v <= buf) ->
  exists m', expand_escape_sequences buf m v = Ok (m', concat (map expanded pieces)) /\
    (forall b, b < buf \/ buf + 8 <= b -> m' !! b = m !! b).
Proof.
  intros Hbuf Hok (Hb & Hlen & Hm) Hlive Hdis. unfold expand_escape_sequences.
  destruct (expand_loop buf (view_end v) pieces Hbuf Hok (span_fuel (begin v) (view_end v)) m (begin v) []) as (m' & Hrun & Hframe & _);
    try done; [unfold view_end; lia| |by exists m'].
  assert (Datatypes.length pieces <= Datatypes.length (concat (map piece_text pieces)))%nat.
  { clear. induction pieces as [|x pieces IH]; [done|]. simpl. rewrite length_app. pose proof (piece_text_nonempty x). unfold Zlen in *. lia. }
  unfold span_fuel, view_end, Zlen in *. lia.
Qed.

Lemma insertion_ok should_escape c : insertable should_escape c -> (should_escape c = false -> c <> BACKSLASH) -> piece_ok (insertion should_escape c).
Proof.
  intros (Hc & _ & _) Hplain. unfold insertion. destruct (should_escape c); [|by apply Hplain]. split; [|lia].
  apply (hex_escape_reads "x"%ch 2 c); [by left|simpl; lia|unfold MAX_UNICODE_CHAR; lia].
Qed.



(** Escapes of line breaks, quotes and backslashes stay as they are, and the
    codepoints above 0xFFFF leave the buffer unwritten. *)
Lemma expand_keeps cp i : 0 < cp < 32 -> strchr NEED_1CHAR_ESCAPES cp = Some i ->
  piece_text (escape [char_at CHARS_FOR_1CHAR_ESCAPES i] cp) = expanded (escape [char_at CHARS_FOR_1CHAR_ESCAPES i] cp).
Proof.
  intros Hcp Hi. cbn [piece_text expanded]. unfold utf8_or_escape_text. ztrue (cp <? 0x80). ztrue (cp <? " "%ch). by rewrite Hi.
Qed.
