(* ===== verification/WrapLines.v ===== *)
(** * Wrapping text: core/text/wrap_lines.h and wrap_lines.cpp

    [nxt] is the function pointer that moves to the next glyph, [None] for null;
    the default is [next_utf8_char].  [indent], a pointer into the literal of
    eighty spaces, is its offset there. *)

From stdpp Require Import base tactics list gmap strings.
From Stdlib Require Import ZArith Lia.
From S2P Require Import Prelude CString ScanNumbers Unicode StrView StdString.
#[local] Open Scope Z_scope.

Definition HYPHEN : Z := Eval cbv in "-"%ch.
Definition MAX_INDENT : Z := 64.

(** What the walk over a line keeps: [ptr], [len_after_this_char],
    [found_visible_char], [soft_wrap], [wrap_before], [indent] and [wrapped]. *)
Record walk : Type := {
  ptr : Z;
  len : Z;
  found_visible_char : bool;
  soft_wrap : bool;
  wrap_before : Z;
  indent : option Z;
  wrapped : list Z;
}.

Section wrap_lines.
Context (m : mem) (e width : Z) (line_delim : list Z) (nxt : Z -> res Z).

(** [p] is a hyphen before the end. *)
Definition is_hyphen_before (p fin : Z) : res bool :=
  if p <? fin then let! c := load m p in Ok (c =? HYPHEN) else Ok false.

(** The new [ptr], [len] and [wrap_before]. *)
Definition find_best_hyphen_wrap (ptr len wrap_before : Z) : res (Z * Z * Z) :=
  let! double_hyphen := if ptr <? e - 1 then let! c := load m (ptr + 1) in Ok (c =? HYPHEN) else Ok false in
  let! before := load m (ptr - 1) in
  let! many_hyphens :=
    if before =? HYPHEN then Ok true
    else if double_hyphen && (ptr <? e - 2) then let! c := load m (ptr + 2) in Ok (c =? HYPHEN) else Ok false in
  if many_hyphens : bool then
    let! (ptr, len) := iterate (span_fuel ptr e) (fun '(ptr, len) =>
      let! more := if len <? width then is_hyphen_before ptr e else Ok false in
      if more : bool then Ok (inl (ptr + 1, u32 (len + 1))) else Ok (inr (ptr, len))) (ptr, len) in
    Ok (ptr, len, ptr)
  else if double_hyphen : bool then
    let '(ptr, wrap_before) := if len <? width - 1 then (ptr + 2, ptr + 2) else (ptr, wrap_before) in
    Ok (ptr, u32 (len + 2), wrap_before)
  else Ok (ptr + 1, u32 (len + 1), ptr + 1).

(** Adding the line before a soft wrap: the new [wrapped], [ptr] and [len]. *)
Definition insert_soft_wrap (wrapped : list Z) (wrap_before p ptr : Z) (indent : option Z) : res (list Z * Z * Z) :=
  let wrap_before := if wrap_before =? 0 then ptr else wrap_before in
  let! line := load_range m p wrap_before in
  let wrapped := wrapped ++ line ++ line_delim in
  let '(wrapped, len) :=
    match indent with
    | Some indent_width => (wrapped ++ repeat 32 (Z.to_nat indent_width), u32 (indent_width + 1))
    | None => (wrapped, 1)
    end in
  let! ptr := iterate (span_fuel wrap_before e) (fun ptr =>
    let! c := load m ptr in
    if (c =? 32) && (ptr <? e) then Ok (inl (ptr + 1)) else Ok (inr ptr)) wrap_before in
  Ok (wrapped, ptr, len).

(** The first visible char of a line sets the indent if there are spaces before it. *)
Definition see_visible (p : Z) (w : walk) : walk :=
  {| ptr := ptr w; len := len w; found_visible_char := true; soft_wrap := soft_wrap w; wrap_before := wrap_before w;
     indent := if p <? ptr w then Some (Z.min MAX_INDENT (ptr w - p)) else indent w; wrapped := wrapped w |}.
Definition with_ptr (w : walk) (p : Z) : walk :=
  {| ptr := p; len := len w; found_visible_char := found_visible_char w; soft_wrap := soft_wrap w; wrap_before := wrap_before w;
     indent := indent w; wrapped := wrapped w |}.

(** The switch on the char at [ptr]. *)
Definition wrap_char (p : Z) (w : walk) : res walk :=
  let! c := load m (ptr w) in
  if c =? 32 then
    Ok (if found_visible_char w then
          {| ptr := ptr w; len := len w; found_visible_char := true; soft_wrap := soft_wrap w; wrap_before := ptr w;
             indent := indent w; wrapped := wrapped w |}
        else w)
  else if c =? HYPHEN then
    if len w =? width then Ok (with_ptr w (ptr w - 1))
    else if found_visible_char w then
      let! (q, l, b) := find_best_hyphen_wrap (ptr w) (len w) (wrap_before w) in
      Ok {| ptr := q; len := l; found_visible_char := true; soft_wrap := soft_wrap w; wrap_before := b;
            indent := indent w; wrapped := wrapped w |}
    else Ok (see_visible p w)
  else if (c =? CR) || (c =? LF) then
    let! line := if found_visible_char w then load_range m p (ptr w) else Ok [] in
    let! crlf := if (c =? CR) && (ptr w + 1 <? e) then let! d := load m (ptr w + 1) in Ok (d =? LF) else Ok false in
    Ok {| ptr := if crlf : bool then ptr w + 1 else ptr w; len := width; found_visible_char := found_visible_char w; soft_wrap := false;
          wrap_before := wrap_before w; indent := None; wrapped := wrapped w ++ line ++ line_delim |}
  else
    if len w =? width then Ok (with_ptr w (ptr w - 1))
    else if negb (found_visible_char w) then Ok (see_visible p w)
    else Ok w.

(** A turn of the loop over the chars of a line. *)
Definition walk_step (p : Z) (w : walk) : res (walk + walk) :=
  if (len w <=? width) && (ptr w <? e) then
    let! w := wrap_char p w in
    let! q := nxt (ptr w) in
    Ok (inl {| ptr := q; len := u32 (len w + 1); found_visible_char := found_visible_char w; soft_wrap := soft_wrap w;
               wrap_before := wrap_before w; indent := indent w; wrapped := wrapped w |})
  else Ok (inr w).

Definition walk_line (p len : Z) (indent : option Z) (wrapped : list Z) : res walk :=
  iterate (S (S (Z.to_nat width))) (walk_step p)
    {| ptr := p; len := len; found_visible_char := false; soft_wrap := true; wrap_before := 0; indent := indent; wrapped := wrapped |}.

(** A turn of the outer loop: [p], [len_after_this_char], [indent] and [wrapped]. *)
Definition wrap_step (st : Z * Z * option Z * list Z) : res (Z * Z * option Z * list Z + list Z) :=
  let '(p, len0, indent0, wrapped0) := st in
  if p <? e then
    let remaining := e - p in
    if remaining + u32 (len0 - 1) <? width then
      let! rest := load_range m p e in Ok (inr (wrapped0 ++ rest))
    else
      let! w := walk_line p len0 indent0 wrapped0 in
      if (ptr w =? e) && (len w <? width) then
        let! line := load_range m p (ptr w) in
        Ok (inl (ptr w, len w, indent w, wrapped w ++ line))
      else if soft_wrap w then
        let! (wr, q, l) := insert_soft_wrap (wrapped w) (wrap_before w) p (ptr w) (indent w) in
        Ok (inl (q, l, indent w, wr))
      else Ok (inl (ptr w, 1, indent w, wrapped w))
  else Ok (inr wrapped0).
End wrap_lines.

(** No line is wrapped where it started. *)
Definition wrap_lines (m : mem) (input : str_view) (width line_delim : Z) (nxt : option (mem -> Z -> res Z)) : res (list Z) :=
  let! _ := precondition (bool_decide (is_Some nxt)) "nxt != nullptr" in
  let! _ := precondition (10 <=? width) "width >= 10" in
  let! delim := string_of_cstr m line_delim in
  let e := view_end input in
  iterate (span_fuel (begin input) e)
    (wrap_step m e width delim (match nxt with Some f => f m | None => fun _ => Undef end)) (begin input, 1, None, []).

Definition run_wrap (s : string) (width : Z) : res (list Z) :=
  wrap_lines (cstr_at 100 s ∪ map_seqZ 16 [LF; 0]) {| begin := 100; length := Zlen (str s) |} width 16 (Some next_utf8_char).

Example wrap_tests :
  run_wrap "123 567 9 12345" 10 = Ok (str "123 567 9" ++ [LF] ++ str "12345") /\
  run_wrap "123456 8-12345" 10 = Ok (str "123456 8-" ++ [LF] ++ str "12345") /\
  run_wrap "123456789012345" 10 = Ok (str "123456789" ++ [LF] ++ str "012345") /\
  run_wrap "1234 67--12345" 10 = Ok (str "1234 67--" ++ [LF] ++ str "12345").
Proof. vm_compute. repeat split. Qed.

(** * Specification: filling lines with words *)

(** Chars that are visible ASCII, other than the hyphen. *)
Definition word_char (c : Z) : Prop := 32 < c < 127 /\ c <> HYPHEN.

(** The words [ws] behind the text [line]. *)
Definition spaced (line : list Z) (ws : list (list Z)) : list Z := line ++ concat (map (cons 32) ws).

(** Words are put on a line while it stays shorter than [width]. *)
Fixpoint fill (width : Z) (line : list Z) (ws : list (list Z)) : list (list Z) :=
  match ws with
  | [] => [line]
  | w :: ws => if Zlen line + 1 + Zlen w <? width then fill width (line ++ 32 :: w) ws else line :: fill width w ws
  end.

Lemma spaced_cons line w ws : spaced line (w :: ws) = spaced (line ++ 32 :: w) ws.
Proof. unfold spaced. cbn [map concat]. by rewrite <-app_assoc. Qed.

Lemma spaced_app line a next b : spaced line (a ++ next :: b) = spaced line a ++ 32 :: spaced next b.
Proof. unfold spaced. rewrite map_app, concat_app. cbn [map concat app]. by rewrite <-app_assoc. Qed.

(** The first line, and what is left. *)
Lemma fill_split width ws : forall line, Zlen line < width ->
  (fill width line ws = [spaced line ws] /\ Zlen (spaced line ws) < width) \/
  exists a next b, ws = a ++ next :: b /\ fill width line ws = spaced line a :: fill width next b /\
    Zlen (spaced line a) < width /\ width <= Zlen (spaced line a) + 1 + Zlen next.
Proof.
  induction ws as [|w ws IH]; intros line Hline; cbn [fill].
  - left. unfold spaced. simpl. by rewrite app_nil_r.
  - destruct (Z.ltb_spec (Zlen line + 1 + Zlen w) width) as [Hfit|Hbreak].
    + destruct (IH (line ++ 32 :: w)) as [[-> Hlen]|(a & next & b & -> & -> & Hlen & Hnext)].
      * rewrite Zlen_app, Zlen_cons. lia.
      * left. by rewrite spaced_cons.
      * right. exists (w :: a), next, b. by rewrite !spaced_cons.
    + right. exists [], w, ws. unfold spaced at 1 2 3. simpl. rewrite app_nil_r. done.
Qed.

Lemma fill_cons width line ws : exists l ls, fill width line ws = l :: ls.
Proof. revert line. induction ws as [|w ws IH]; intros line; cbn [fill]; [by exists line, []|]. destruct (_ <? _); [apply IH|by eexists _, _]. Qed.

Lemma fill_short width ws : forall line, Zlen line < width -> Forall (fun w => Zlen w < width) ws -> Forall (fun l => Zlen l < width) (fill width line ws).
Proof.
  induction ws as [|w ws IH]; intros line Hl Hws; cbn [fill]; [by constructor|]. inversion Hws; subst.
  destruct (Z.ltb_spec (Zlen line + 1 + Zlen w) width).
  - apply IH; [|done]. rewrite Zlen_app, Zlen_cons. lia.
  - constructor; [done|]. by apply IH.
Qed.

Lemma iterate_inl {S A} (body : S -> res (S + A)) fuel s s' : body s = Ok (inl s') -> iterate (Datatypes.S fuel) body s = iterate fuel body s'.
Proof. intros H. cbn [iterate]. by rewrite H. Qed.

(** ** The walk over a line of words *)

Section words.
Context (m : mem) (e width : Z) (line_delim : list Z) (nxt : Z -> res Z)
  (Hnxt : forall q c, m !! (q + 1) = Some c -> 0 <= c < 128 -> nxt q = Ok (q + 1))
  (Hwidth : 10 <= width < 2 ^ 32 - 1).

Local Abbreviation at_walk q l found wb wr :=
  {| ptr := q; len := l; found_visible_char := found; soft_wrap := true; wrap_before := wb; indent := None; wrapped := wr |}.

(** One char, with another ASCII char or the NUL behind it. *)
Lemma walk_visible p q l found wb wr c d : m !! q = Some c -> word_char c -> m !! (q + 1) = Some d -> 0 <= d < 128 -> q < e ->
  1 <= l < width -> found = true \/ q = p ->
  walk_step m e width line_delim nxt p (at_walk q l found wb wr) = Ok (inl (at_walk (q + 1) (l + 1) true wb wr)).
Proof.
  intros Hc [Hr Hh] Hd Hd' Hq Hl Hfound. unfold walk_step, wrap_char. cbn [ptr len found_visible_char soft_wrap wrap_before indent wrapped].
  ztrue (l <=? width). ztrue (q <? e). cbn [andb]. rewrite (load_Some _ _ _ Hc). cbn [bind].
  zfalse (c =? 32). zfalse (c =? HYPHEN). zfalse (c =? CR). zfalse (c =? LF). zfalse (l =? width). cbn [orb].
  assert (u32 (l + 1) = l + 1) as Hl1 by (unfold u32; apply Z.mod_small; lia).
  destruct found; cbn [negb bind see_visible ptr len found_visible_char soft_wrap wrap_before indent wrapped].
  - rewrite (Hnxt q d Hd Hd'). cbn [bind]. by rewrite Hl1.
  - destruct Hfound as [|<-]; [done|]. rewrite (Hnxt q d Hd Hd'). cbn [bind]. zfalse (q <? q). by rewrite Hl1.
Qed.

Lemma walk_space p q l wb wr d : m !! q = Some 32 -> m !! (q + 1) = Some d -> 0 <= d < 128 -> q < e -> 1 <= l <= width ->
  walk_step m e width line_delim nxt p (at_walk q l true wb wr) = Ok (inl (at_walk (q + 1) (l + 1) true q wr)).
Proof.
  intros Hc Hd Hd' Hq Hl. unfold walk_step, wrap_char. cbn [ptr len found_visible_char soft_wrap wrap_before indent wrapped].
  ztrue (l <=? width). ztrue (q <? e). cbn [andb]. rewrite (load_Some _ _ _ Hc). cbn [bind]. change (32 =? 32) with true. cbn [bind ptr].
  rewrite (Hnxt q d Hd Hd'). cbn [bind len found_visible_char soft_wrap wrap_before indent wrapped].
  unfold u32. by rewrite Z.mod_small by lia.
Qed.

(** A visible char in the last column: the walk stays where it is. *)
Lemma walk_last p q wb wr c : m !! q = Some c -> word_char c -> q < e ->
  walk_step m e width line_delim nxt p (at_walk q width true wb wr) = Ok (inl (at_walk q (width + 1) true wb wr)).
Proof.
  intros Hc [Hr Hh] Hq. unfold walk_step, wrap_char. cbn [ptr len found_visible_char soft_wrap wrap_before indent wrapped].
  ztrue (width <=? width). ztrue (q <? e). cbn [andb]. rewrite (load_Some _ _ _ Hc). cbn [bind].
  zfalse (c =? 32). zfalse (c =? HYPHEN). zfalse (c =? CR). zfalse (c =? LF). ztrue (width =? width). cbn [orb].
  unfold with_ptr. cbn [bind ptr len found_visible_char soft_wrap wrap_before indent wrapped].
  rewrite (Hnxt (q - 1) c) by (rewrite ?Z.sub_add; (done || lia)). cbn [bind]. rewrite Z.sub_add.
  unfold u32. by rewrite Z.mod_small by lia.
Qed.

(** [text] is at [q], and an ASCII char or the NUL behind it. *)
Definition before_ascii (q : Z) (text : list Z) : Prop :=
  holds m q text /\ (exists d, m !! (q + Zlen text) = Some d /\ 0 <= d < 128) /\ q + Zlen text <= e.

Lemma before_ascii_cons q c text : before_ascii q (c :: text) -> Forall (fun c => 0 <= c < 128) text ->
  m !! q = Some c /\ q < e /\ (exists d, m !! (q + 1) = Some d /\ 0 <= d < 128) /\ before_ascii (q + 1) text.
Proof.
  intros ([Hc Hm] & Hd & He) Hascii. rewrite Zlen_cons in *. pose proof (Zlen_nonneg text). split; [done|]. split; [lia|].
  replace (q + (1 + Zlen text)) with (q + 1 + Zlen text) in * by lia. split; [|done].
  destruct text as [|c' text]; [rewrite Zlen_nil, Z.add_0_r in Hd; done|]. inversion Hascii; subst. exists c'. by destruct Hm.
Qed.

Lemma word_ascii text : Forall word_char text -> Forall (fun c => 0 <= c < 128) text.
Proof. intros H. eapply Forall_impl; [exact H|]. intros c [Hc _]. lia. Qed.

Lemma walk_word p text : forall q l found wb wr fuel, Forall word_char text -> before_ascii q text -> 1 <= l -> l + Zlen text <= width ->
  found = true \/ q = p /\ text <> [] ->
  iterate (Datatypes.length text + fuel) (walk_step m e width line_delim nxt p) (at_walk q l found wb wr) =
    iterate fuel (walk_step m e width line_delim nxt p) (at_walk (q + Zlen text) (l + Zlen text) true wb wr).
Proof.
  induction text as [|c text IH]; intros q l found wb wr fuel Hw Hq Hl Hlen Hfound.
  - destruct Hfound as [->|[_ ?]]; [|done]. by rewrite Zlen_nil, !Z.add_0_r.
  - inversion Hw as [|? ? Hc Hws]; subst. rewrite Zlen_cons in *. pose proof (Zlen_nonneg text).
    destruct (before_ascii_cons q c text Hq (word_ascii text Hws)) as (Hmc & He & (d & Hd & Hd') & Hq').
    change (Datatypes.length (c :: text) + fuel)%nat with (S (Datatypes.length text + fuel)). cbn [iterate].
    rewrite (walk_visible p q l found wb wr c d) by (done || lia || (destruct Hfound as [->|[-> _]]; tauto)). cbn [bind].
    rewrite IH by (done || lia || by left). do 2 f_equal; lia.
Qed.

Definition is_word (w : list Z) : Prop := Forall word_char w /\ w <> [].

Lemma words_ascii ws : Forall is_word ws -> Forall (fun c => 0 <= c < 128) (concat (map (cons 32) ws)).
Proof.
  induction 1 as [|w ws [Hw _] _ IH]; [constructor|]. cbn [map concat]. constructor; [lia|]. apply Forall_app. split; [by apply word_ascii|done].
Qed.

Lemma before_ascii_app q a b : before_ascii q (a ++ b) -> Forall (fun c => 0 <= c < 128) b -> before_ascii q a /\ before_ascii (q + Zlen a) b.
Proof.
  intros (Hm & Hd & He) Hb. apply holds_app in Hm as [Ha Hmb]. rewrite Zlen_app, Z.add_assoc in *. pose proof (Zlen_nonneg b).
  split; [|by split]. split; [done|]. split; [|lia]. destruct b as [|c b]; [by rewrite Zlen_nil, Z.add_0_r in Hd|].
  inversion Hb; subst. exists c. by destruct Hmb.
Qed.

(** More words, each behind a space. *)
Lemma walk_words p ws : forall q l wb wr fuel, Forall is_word ws -> before_ascii q (concat (map (cons 32) ws)) -> 1 <= l ->
  l + Zlen (concat (map (cons 32) ws)) <= width ->
  exists wb', iterate (Datatypes.length (concat (map (cons 32) ws)) + fuel) (walk_step m e width line_delim nxt p) (at_walk q l true wb wr) =
    iterate fuel (walk_step m e width line_delim nxt p)
      (at_walk (q + Zlen (concat (map (cons 32) ws))) (l + Zlen (concat (map (cons 32) ws))) true wb' wr).
Proof.
  induction ws as [|w ws IH]; intros q l wb wr fuel Hws Hq Hl Hlen.
  - exists wb. cbn [map concat]. by rewrite Zlen_nil, !Z.add_0_r.
  - inversion Hws as [|? ? [Hw Hne] Hws']; subst. cbn [map concat] in *. rewrite <-app_comm_cons in *. rewrite Zlen_cons, Zlen_app in *.
    pose proof (Zlen_nonneg w). pose proof (Zlen_nonneg (concat (map (cons 32) ws))).
    assert (Forall (fun c => 0 <= c < 128) (w ++ concat (map (cons 32) ws))) as Hascii
      by (apply Forall_app; split; [by apply word_ascii|by apply words_ascii]).
    destruct (before_ascii_cons q 32 _ Hq Hascii) as (Hmc & He & (d & Hd & Hd') & Hq').
    destruct (before_ascii_app (q + 1) w _ Hq' (words_ascii ws Hws')) as [Hqw Hqs].
    cbn [Datatypes.length Nat.add iterate]. rewrite (walk_space p q l wb wr d) by (done || lia). cbn [bind].
    rewrite length_app, <-Nat.add_assoc. rewrite walk_word by (done || lia || by left).
    destruct (IH (q + 1 + Zlen w) (l + 1 + Zlen w) q wr fuel) as [wb' ->]; [done|done|lia|lia|]. exists wb'. do 2 f_equal; lia.
Qed.

(** The walk over a line that is not the last one. *)
Lemma walk_full_line p line a next rest wr : is_word line -> Forall is_word a -> is_word next -> Forall (fun c => 0 <= c < 128) rest ->
  before_ascii p (spaced line a ++ 32 :: next ++ rest) -> Zlen (spaced line a) < width -> width <= Zlen (spaced line a) + 1 + Zlen next ->
  exists q, walk_line m e width line_delim nxt p 1 None wr =
    Ok (at_walk q (width + 1) true (p + Zlen (spaced line a)) wr).
Proof.
  intros [Hline Hne] Ha [Hnext Hnne] Hrest Hp Hlen Hfull. set (L := spaced line a) in *. pose proof (Zlen_nonneg L) as HL.
  assert (Forall (fun c => 0 <= c < 128) (next ++ rest)) as Hn by (apply Forall_app; split; [by apply word_ascii|done]).
  destruct (before_ascii_app p L (32 :: next ++ rest) Hp) as [HpL Hp1]; [by constructor; [lia|]|].
  destruct (before_ascii_cons _ _ _ Hp1 Hn) as (Hspace & He & (d & Hd & Hd') & Hp2).
  destruct (before_ascii_app p line (concat (map (cons 32) a)) HpL (words_ascii a Ha)) as [Hpl Hpa].
  assert (Zlen L = Zlen line + Zlen (concat (map (cons 32) a))) as HLlen by (unfold L, spaced; apply Zlen_app).
  pose proof (Zlen_nonneg line). pose proof (Zlen_nonneg (concat (map (cons 32) a))).
  assert (S (S (Z.to_nat width)) = Datatypes.length line + (Datatypes.length (concat (map (cons 32%Z) a)) + S (S (S (Z.to_nat width) - S (Datatypes.length L)))))%nat as Hfuel.
  { unfold L, spaced in *. rewrite length_app. unfold Zlen in *. rewrite length_app in *. lia. }
  unfold walk_line. rewrite Hfuel. rewrite walk_word by (done || lia || by right).
  destruct (walk_words p a (p + Zlen line) (1 + Zlen line) 0 wr (S (S (S (Z.to_nat width) - S (Datatypes.length L)))) Ha Hpa) as [wb' ->]; [lia|lia|].
  rewrite <-!Z.add_assoc, <-HLlen. rewrite (iterate_inl _ _ _ _ (walk_space p (p + Zlen L) (1 + Zlen L) wb' wr d Hspace Hd Hd' He ltac:(lia))).
  replace (1 + Zlen L + 1) with (Zlen L + 2) by lia. replace (S (S (Z.to_nat width) - S (Datatypes.length L)))%nat with (S (Z.to_nat (width - Zlen L))) by (unfold Zlen; lia).
  destruct (Z.eqb_spec (Zlen L + 1) width) as [Hlast|Hmore].
  - exists (p + Zlen L + 1). cbn [iterate]. unfold walk_step at 1. cbn [len ptr]. zfalse (Zlen L + 2 <=? width). cbn [andb bind].
    by replace (width + 1) with (Zlen L + 2) by lia.
  - assert (exists n1 c n2, next = n1 ++ c :: n2 /\ Zlen n1 = width - (Zlen L + 2)) as (n1 & c & n2 & -> & Hn1).
    { destruct (lookup_lt_is_Some_2 next (Z.to_nat (width - (Zlen L + 2)))) as [c Hc]; [unfold Zlen in *; lia|].
      exists (take (Z.to_nat (width - (Zlen L + 2))) next), c, (drop (S (Z.to_nat (width - (Zlen L + 2)))) next).
      rewrite take_drop_middle by done. split; [done|]. apply lookup_lt_Some in Hc.
      unfold Zlen at 1. rewrite length_take. clear -Hc HL Hlen Hmore. lia. }
    apply Forall_app in Hnext as [Hw1 Hw2]. inversion Hw2 as [|? ? Hwc _]; subst.
    rewrite <-app_assoc in Hp2, Hn. apply Forall_app in Hn as [_ Hn2].
    destruct (before_ascii_app _ n1 _ Hp2 Hn2) as [Hpn1 Hpc]. cbn [app] in Hpc, Hn2. inversion Hn2 as [|? ? _ Hn3]; subst.
    destruct (before_ascii_cons _ c _ Hpc Hn3) as (Hmc & Hec & _).
    replace (S (Z.to_nat (width - Zlen L))) with (Datatypes.length n1 + 3)%nat by (unfold Zlen at 1 in Hn1; clear -Hn1 HL Hlen; lia).
    rewrite walk_word by (done || lia || by left). exists (p + Zlen L + 1 + Zlen n1).
    replace (Zlen L + 2 + Zlen n1) with width by lia.
    rewrite (iterate_inl _ _ _ _ (walk_last p _ _ wr c Hmc Hwc Hec)). cbn [iterate]. unfold walk_step at 1. cbn [len ptr].
    by zfalse (width + 1 <=? width).
Qed.
(** The break after a full line. *)
Lemma soft_wrap_spec wr p line q c : line <> [] -> 0 < p -> holds m p line -> m !! (p + Zlen line) = Some 32 -> p + Zlen line < e ->
  m !! (p + Zlen line + 1) = Some c -> c <> 32 ->
  insert_soft_wrap m e line_delim wr (p + Zlen line) p q None = Ok (wr ++ line ++ line_delim, p + Zlen line + 1, 1).
Proof.
  intros Hline Hp Hm Hspace He Hc Hc'. unfold insert_soft_wrap. pose proof (Zlen_nonneg line). zfalse (p + Zlen line =? 0).
  rewrite load_range_spec by done. cbn [bind]. unfold span_fuel. destruct (Z.to_nat (e - (p + Zlen line))) as [|n] eqn:Hn; [lia|].
  cbn [iterate]. rewrite (load_Some _ _ _ Hspace). cbn [bind]. change (32 =? 32) with true. ztrue (p + Zlen line <? e). cbn [andb bind].
  rewrite (load_Some _ _ _ Hc). cbn [bind]. by zfalse (c =? 32).
Qed.

(** ** The lines *)

Lemma wrap_words n : forall line ws p wr fuel, (Datatypes.length ws < n)%nat -> is_word line -> Forall is_word ws ->
  Forall (fun w => Zlen w < width) (line :: ws) -> 0 < p -> before_ascii p (spaced line ws) -> p + Zlen (spaced line ws) = e ->
  (Z.to_nat (e - p) < fuel)%nat ->
  iterate fuel (wrap_step m e width line_delim nxt) (p, 1, None, wr) = Ok (wr ++ join line_delim (fill width line ws)).
Proof.
  induction n as [|n IH]; intros line ws p wr fuel Hn Hline Hws Hshort Hp Htext He Hfuel; [lia|].
  destruct fuel as [|fuel]; [lia|]. inversion Hshort as [|? ? Hl Hshort']; subst. cbn [iterate]. unfold wrap_step at 1.
  assert (0 < Zlen (spaced line ws)) as Hpos.
  { unfold spaced. rewrite Zlen_app. destruct Hline as [_ Hne]. destruct line; [done|]. rewrite Zlen_cons.
    pose proof (Zlen_nonneg line). pose proof (Zlen_nonneg (concat (map (cons 32) ws))). lia. }
  ztrue (p <? e). change (u32 (1 - 1)) with 0. replace (e - p + 0) with (Zlen (spaced line ws)) by lia.
  destruct (fill_split width ws line Hl) as [[-> Hlen]|(a & next & b & Hsplit & -> & Hlen & Hnext)].
  - ztrue (Zlen (spaced line ws) <? width). rewrite <-He, load_range_spec by apply Htext. cbn [bind]. unfold join. cbn. by rewrite app_nil_r.
  - rewrite Hsplit in *. apply Forall_app in Hws as [Ha Hb]. inversion Hb as [|? ? Hword Hb']; subst ws.
    apply Forall_app in Hshort' as [_ Hshort']. rewrite length_app in Hn. cbn [Datatypes.length] in Hn.
    rewrite spaced_app in *. rewrite Zlen_app, Zlen_cons in *. pose proof (Zlen_nonneg (spaced line a)).
    pose proof (Zlen_nonneg (concat (map (cons 32) b))).
    assert (Zlen (spaced next b) = Zlen next + Zlen (concat (map (cons 32) b))) as Hnb by apply Zlen_app.
    zfalse (Zlen (spaced line a) + (1 + Zlen (spaced next b)) <? width).
    assert (Forall (fun c => 0 <= c < 128) (concat (map (cons 32) b))) as Hbascii by by apply words_ascii.
    destruct (walk_full_line p line a next (concat (map (cons 32) b)) wr) as [q ->]; [done..|lia|].
    cbn [bind ptr len found_visible_char soft_wrap wrap_before indent wrapped]. zfalse (width + 1 <? width). rewrite andb_false_r.
    destruct Hline as [_ Hne]. destruct (before_ascii_app p (spaced line a) _ Htext) as [[Hma _] Hp1].
    { constructor; [lia|]. apply Forall_app. split; [by apply word_ascii, Hword|done]. }
    destruct (before_ascii_cons _ _ _ Hp1) as (Hspace & Hin & _ & Hp2); [apply Forall_app; split; [by apply word_ascii, Hword|done]|].
    pose proof Hword as [Hwc Hnne]. destruct next as [|c next']; [done|]. inversion Hwc as [|? ? [Hc _] _]; subst.
    rewrite (soft_wrap_spec wr p (spaced line a) q c); [|by destruct line|done|done|done|done|apply Hp2|lia].
    cbn [bind]. rewrite (IH (c :: next') b) by (done || lia).
    destruct (fill_cons width (c :: next') b) as (l1 & ls & ->). by rewrite join_cons, <-!app_assoc.
Qed.
End words.

(** Only the spaces where lines end are replaced. *)
Lemma fill_join width ws : forall line, join [32] (fill width line ws) = spaced line ws.
Proof.
  induction ws as [|w ws IH]; intros line; cbn [fill].
  - unfold join, spaced. simpl. done.
  - destruct (_ <? _); [by rewrite IH, spaced_cons|]. destruct (fill_cons width w ws) as (l & ls & Hf). pose proof (IH w) as Hw.
    rewrite Hf in *. rewrite join_cons, Hw. unfold spaced. cbn [map concat]. by rewrite <-app_comm_cons.
Qed.

(** Moving to an ASCII char. *)
Lemma next_utf8_char_ascii m q c : m !! (q + 1) = Some c -> 0 <= c < 128 -> next_utf8_char m q = Ok (q + 1).
Proof.
  intros Hc Hr. unfold next_utf8_char. cbn [iterate]. rewrite (load_Some _ _ _ Hc). cbn [bind].
  replace (u8 c) with c by (unfold u8; by rewrite Z.mod_small by lia). by zfalse (128 <=? c).
Qed.

(** C19: on a text of words with a space between them, each word shorter than
    the width and of visible ASCII chars other than the hyphen, [wrap_lines] is
    greedy filling: a word goes on the current line while that line stays
    shorter than the width, the line delimiter replaces the space in front of
    a word that does not fit, every line is shorter than the width, and the
    rest of the text is kept. *)
Theorem wrap_lines_fills m v width line_delim delim w ws d :
  holds m (begin v) (spaced w ws ++ [d]) -> 0 <= d < 128 -> length v = Zlen (spaced w ws) -> 0 < begin v ->
  holds_cstr m line_delim delim -> 10 <= width < 2 ^ 32 - 1 ->
  Forall (fun w => w <> [] /\ Forall word_char w /\ Zlen w < width) (w :: ws) ->
  wrap_lines m v width line_delim (Some next_utf8_char) = Ok (join delim (fill width w ws)) /\
  Forall (fun line => Zlen line < width) (fill width w ws) /\
  join [32] (fill width w ws) = join [32] (w :: ws).
Proof.
  intros Hm Hd Hlen Hb Hdelim Hwidth Hwords.
  assert (Forall is_word (w :: ws) /\ Forall (fun w => Zlen w < width) (w :: ws)) as [Hw Hshort]
    by (split; (eapply Forall_impl; [exact Hwords|]); unfold is_word; intros x; tauto).
  inversion Hw; inversion Hshort; subst. split; [|split; [by apply fill_short|apply fill_join]].
  unfold wrap_lines. rewrite bool_decide_true by done. ztrue (10 <=? width). cbn [precondition bind].
  rewrite (string_of_cstr_spec _ _ _ Hdelim). cbn [bind]. apply holds_app in Hm as [Hm [Hmd _]].
  rewrite <-(app_nil_l (join _ _)).
  apply (wrap_words m (view_end v) width delim (next_utf8_char m) (next_utf8_char_ascii m) Hwidth (S (Datatypes.length ws))); try done.
  - lia.
  - split; [done|]. split; [by exists d|]. unfold view_end. lia.
  - unfold view_end. lia.
  - apply span_fuel_gt.
Qed.

Lemma wrap_lines_fills_witness :
  let m := cstr_at 100 "the quick brown fox jumps" ∪ map_seqZ 16 [CR; LF; 0] in
  wrap_lines m {| begin := 100; length := 25 |} 11 16 (Some next_utf8_char) =
    Ok (join [CR; LF] [str "the quick"; str "brown fox"; str "jumps"]).
Proof.
  intros m. apply (wrap_lines_fills m _ 11 16 [CR; LF] (str "the") [str "quick"; str "brown"; str "fox"; str "jumps"] 0).
  all: try (vm_compute; repeat split; congruence).
  - split; [lia|]. split; [decided|]. unfold no_nul. by decided.
  - repeat (apply Forall_cons; split; [split; [done|split; [|done]]|]); [..|constructor].
    all: match goal with |- Forall _ ?l => let l' := eval vm_compute in l in change l with l' end.
    all: repeat (apply Forall_cons; split; [unfold word_char, HYPHEN; lia|]); constructor.
Defined.

(** A hyphen steps over the char behind it: a line break there is kept in the
    text, and added again by the wrap after the hyphen; at the end of a text
    with wide chars the walk leaves the text. *)
Lemma char_behind_hyphen :
  run_wrap "abc-d hello" 10 = Ok (str "abc-d" ++ [LF] ++ str "hello") /\
  wrap_lines (map_seqZ 100 (str "abc-" ++ [LF] ++ str "hello" ++ [0]) ∪ map_seqZ 16 [LF; 0]) {| begin := 100; length := 10 |} 10 16 (Some next_utf8_char) =
    Ok (str "abc-" ++ [LF; LF] ++ str "hello") /\
  wrap_lines (map_seqZ 100 (str "abc" ++ [-30; -126; -84; -30; -126; -84] ++ str "-" ++ [0]) ∪ map_seqZ 16 [LF; 0])
    {| begin := 100; length := 10 |} 10 16 (Some next_utf8_char) = Undef.
Proof. vm_compute. done. Qed.
