(* ===== verification/Validators.v ===== *)
(** * Command-line validators: core/cli/cmdline_validators.h and cmdline_validators.cpp

    Boost and PCRE are parameters: what [boost::filesystem] says of a path, and
    whether a text matches a regular expression.  The literals of the messages
    are in memory, at addresses that are arguments; a [std::string] is its
    chars.  The [void const *] of a validator is [None] for null. *)

From stdpp Require Import base tactics list gmap strings.
From Stdlib Require Import ZArith Lia SpecFloat.
From S2P Require Import Prelude CString ScanNumbers Unicode StrView StdString Cmdline Arg Interp.
#[local] Open Scope Z_scope.
#[local] Arguments str : simpl never.

(** ** Doubles *)

Definition isnan (d : double) : bool := match d with S754_nan => true | _ => false end.
(** [std::numeric_limits<double>::max()]. *)
Definition dbl_max : double := S754_finite false (2 ^ 53 - 1) 971.

(** ** Numbers in a range *)

Record numeric_range_info : Type := {
  min : double;
  max : double;
  allowed_formats : Z;
}.

Definition RANGE_MSG : list Z :=
  str "Error with {1}=" ++ [34] ++ str "{2}" ++ [34] ++
  str ": expected a value between {3=min} and {4=max} (inclusive), formatted as {5}.".

Section in_numeric_range.
Context (printf : list Z -> printed -> list Z) (pow : double -> double -> double).

(** [n *= -1] of an [int64_t]. *)
Definition negated (n : Z) : res Z := if n =? - 2 ^ 63 then Undef else Ok (- n).

(** The test of a number that was read to the end of the value. *)
Definition number_in_range (nri : numeric_range_info) (info : number_info) : res bool :=
  if format info =? nf_floating_point_only then
    match value info with
    | floating_point d =>
        Ok (negb ((negb (isnan (min nri)) && SFltb d (min nri)) ||
                  (negb (isnan (max nri)) && SFltb (max nri) d)))
    | whole_number _ => Undef
    end
  else
    match value info with
    | floating_point _ => Undef
    | whole_number w =>
        let n := i64 w in
        let! n := if negative info then negated n else Ok n in
        Ok (SFleb (min nri) (double_of_Z n) && SFleb (double_of_Z n) (max nri))
    end.

Definition in_numeric_range (m : mem) (msg : Z) (param : cmdline_param) (value : Z)
    (range_info : option numeric_range_info) : res (list Z) :=
  let! _ := precondition (bool_decide (is_Some range_info)) "range_info != nullptr" in
  match range_info with
  | None => Undef
  | Some nri =>
      let! len := strlen m value in
      let ptr_to_null_char := value + len in
      let! (e, info) := scan_number pow m value ptr_to_null_char (allowed_formats nri) in
      let! valid := if e =? ptr_to_null_char then number_in_range nri info else Ok false in
      if valid : bool then Ok []
      else
        let! name := get_preferred_name param in
        let! formats := get_names_for_numeric_formats (allowed_formats nri) (str "|") in
        interp printf m msg [arg_of_string name; arg_of_cstr value; arg_of_double (min nri); arg_of_double (max nri); arg_of_string formats]
  end.
End in_numeric_range.

(** ** Regular expressions *)

(** A compiled expression: its pattern, and the texts it matches. *)
Record RE : Type := {
  pattern : list Z;
  FullMatch : list Z -> bool;
}.

Definition REGEX_MSG : list Z :=
  str "Error with {1}=" ++ [34] ++ str "{2}" ++ [34] ++ str ": expected a value matching regex {3}.".

(** [name_of_comment] is the match of [comment_pat]: the comment that starts a pattern. *)
Definition matches_regex (printf : list Z -> printed -> list Z) (name_of_comment : list Z -> option (list Z))
    (m : mem) (msg : Z) (param : cmdline_param) (value : Z) (regex : option RE) : res (list Z) :=
  let! _ := precondition (bool_decide (is_Some regex)) "regex != nullptr" in
  match regex with
  | None => Undef
  | Some re =>
      let! text := string_of_cstr m value in
      if negb (FullMatch re text) then
        let pat := pattern re in
        let pat := match name_of_comment pat with
                   | Some name => str "<" ++ name ++ str ">"
                   | None => [34] ++ pat ++ [34]
                   end in
        let! name := get_preferred_name param in
        interp printf m msg [arg_of_string name; arg_of_cstr value; arg_of_string pat]
      else Ok []
  end.

(** ** Files *)

(** The types the code names; the others that Boost has are [other_file]. *)
Inductive file_type : Type :=
| status_error
| file_not_found
| regular_file
| directory_file
| symlink_file
| block_file
| character_file
| fifo_file
| socket_file
| other_file (n : Z).
#[export] Instance file_type_eq_dec : EqDecision file_type.
Proof. solve_decision. Defined.

Record filesys_info : Type := {
  type_must_be_in : list file_type;
  perms_mask : Z;
  masked_perms_must_equal : Z;
  min_size : double;
  max_size : double;
  name_must_match : option RE;
}.

Definition is_in (types : list file_type) (value : file_type) : bool := bool_decide (value ∈ types).

(** The problems so far, and their number. *)
Definition append (err : list Z * Z) (msg : string) : list Z * Z :=
  let '(ss, n) := err in ((if 0 <? n then ss ++ str ", " else ss) ++ str msg, u32 (n + 1)).

Definition FILESYS_MSG : list Z := str "Error with {1}=" ++ [34] ++ str "{2}" ++ [34] ++ str ": {3}.".

Definition file_exists (typ : file_type) : bool := negb (bool_decide (typ = file_not_found) || bool_decide (typ = status_error)).

Definition check_type (fsinfo : filesys_info) (typ : file_type) (err : list Z * Z) : list Z * Z :=
  if negb (is_in (type_must_be_in fsinfo) typ) then
    if negb (file_exists typ) then append err "doesn't exist or isn't available"
    else
      let fnf_ok := is_in (type_must_be_in fsinfo) file_not_found in
      let err_ok := is_in (type_must_be_in fsinfo) status_error in
      let cant_exist := fnf_ok && ((Zlen (type_must_be_in fsinfo) =? 1) || (err_ok && (Zlen (type_must_be_in fsinfo) =? 2))) in
      if cant_exist then append err "already exists"
      else
        append err match typ with
                   | directory_file => "is a folder"
                   | symlink_file => "is a symlink"
                   | file_not_found => "doesn't exist or isn't available"
                   | status_error => "unable to stat item"
                   | regular_file => "is a file"
                   | block_file => "is a block special file"
                   | character_file => "is a character special file"
                   | fifo_file => "is a FIFO/pipe"
                   | socket_file => "is a socket"
                   | other_file _ => "type is unrecognized"
                   end
  else err.

(** [(need & perms) != need], where [need] is a [bool]. *)
Definition lacks (need : bool) (perms : Z) : bool := negb (Z.land (Z.b2z need) perms =? Z.b2z need).

Definition check_perms (fsinfo : filesys_info) (typ : file_type) (perms : Z) (err : list Z * Z) : list Z * Z :=
  if file_exists typ && negb (perms_mask fsinfo =? 0) && negb (masked_perms_must_equal fsinfo =? 0) then
    let x := Z.land (u32 perms) (perms_mask fsinfo) in
    if negb (x =? masked_perms_must_equal fsinfo) then
      let need_exe := negb (Z.land (masked_perms_must_equal fsinfo) 0x49 =? 0) in
      let need_write := negb (Z.land (masked_perms_must_equal fsinfo) 0x92 =? 0) in
      let need_read := negb (Z.land (masked_perms_must_equal fsinfo) 0x124 =? 0) in
      let err := if lacks need_exe perms then append err "not executable" else err in
      let err := if lacks need_write perms then append err "not writable" else err in
      if lacks need_read perms then append err "not readable" else err
    else err
  else err.

Definition has_min_size (fsinfo : filesys_info) : bool :=
  negb (isnan (min_size fsinfo)) && SFltb (double_of_Z 0) (min_size fsinfo).
Definition has_max_size (fsinfo : filesys_info) : bool :=
  negb (isnan (min_size fsinfo)) && SFltb (min_size fsinfo) dbl_max.

(** [file_size] is that of the path. *)
Definition check_size (fsinfo : filesys_info) (typ : file_type) (file_size : res Z) (err : list Z * Z) : res (list Z * Z) :=
  if negb (bool_decide (typ = directory_file)) && (file_exists typ && (has_min_size fsinfo || has_max_size fsinfo)) then
    let! sz := file_size in
    Ok (if has_min_size fsinfo && SFltb (double_of_Z sz) (min_size fsinfo) then append err "file is too small"
        else if has_max_size fsinfo && SFltb (max_size fsinfo) (double_of_Z sz) then append err "file is too big"
        else err)
  else Ok err.

Definition check_name (fsinfo : filesys_info) (p : list Z) (err : list Z * Z) : list Z * Z :=
  match name_must_match fsinfo with
  | Some re => if negb (FullMatch re p) then append err "invalid name" else err
  | None => err
  end.

(** [status] and [file_size] are those of Boost: they can throw. *)
Definition matches_filesys_info (printf : list Z -> printed -> list Z) (status : list Z -> res (file_type * Z))
    (file_size : list Z -> res Z) (m : mem) (msg : Z) (param : cmdline_param) (value : Z)
    (fsinfo_ptr : option filesys_info) : res (list Z) :=
  let! _ := precondition (bool_decide (is_Some fsinfo_ptr)) "fsinfo_ptr != nullptr" in
  match fsinfo_ptr with
  | None => Undef
  | Some fsinfo =>
      let! p := string_of_cstr m value in
      let! (typ, perms) := status p in
      let err := check_type fsinfo typ ([], 0) in
      let err := check_perms fsinfo typ perms err in
      let! err := check_size fsinfo typ (file_size p) err in
      let '(text, problem_count) := check_name fsinfo p err in
      if negb (problem_count =? 0) then
        let! name := get_preferred_name param in
        interp printf m msg [arg_of_string name; arg_of_cstr value; arg_of_string text]
      else Ok []
  end.

(** * The tests of the repository *)

Definition test_param : cmdline_param :=
  {| param_names := [str "--number"]; param_help := []; occurrence_rule := 63; placeholder := []; validator := 0; reference_data := 0 |}.
Definition cstr_text_at (a : Z) (text : list Z) : mem := map_seqZ a (text ++ [0]).
(** [pow 10 n] of small whole [n]. *)
Definition ten_to (x y : double) : double := match int_of_double y with Ok n => double_of_Z (10 ^ n) | _ => S754_nan end.
Definition check_is_in_range (text : string) (nri : numeric_range_info) : res (list Z) :=
  in_numeric_range any_printf ten_to (cstr_text_at 1000 RANGE_MSG ∪ cstr_at 16 text) 1000 test_param 16 (Some nri).
Definition accepts (r : res (list Z)) : bool := match r with Ok [] => true | _ => false end.
Definition infinity : double := S754_infinity false.

Example in_numeric_range_tests :
  let range1 := {| min := double_of_Z 0; max := double_of_Z 31; allowed_formats := nf_all |} in
  let range3 := {| min := double_of_Z 1025; max := double_of_Z 65535; allowed_formats := nf_decimal |} in
  forallb (fun s => accepts (check_is_in_range s range1)) ["3"; "31"; "0"; "07"; "0x0000001f"; "14.7"; "0b0000_1011"] = true /\
  accepts (check_is_in_range "-1" range1) = false /\
  accepts (check_is_in_range "3610" range3) = true /\
  forallb (fun s => negb (accepts (check_is_in_range s range3)))
    ["3"; "0"; "1024"; "3610.1"; "0x0000001f"; "14.7"; "0b0000_1011"; "-5"; "65536"] = true.
Proof. vm_compute. repeat split. Qed.

(** A minus is lost before a radix point, an empty value counts as 0, a number
    above the range of [int64_t] wraps, and the least [int64_t] overflows; for
    a whole number a limit that is not a number refuses everything. *)
Lemma in_numeric_range_accepts_too_much :
  let range lo hi := {| min := lo; max := hi; allowed_formats := nf_all |} in
  check_is_in_range "-14.7" (range (double_of_Z 0) (double_of_Z 31)) = Ok [] /\
  check_is_in_range "" (range (double_of_Z 0) (double_of_Z 31)) = Ok [] /\
  check_is_in_range "18446744073709551615" (range (double_of_Z (-5)) (double_of_Z 5)) = Ok [] /\
  check_is_in_range "-9223372036854775808" (range (double_of_Z (-5)) (double_of_Z 5)) = Undef /\
  check_is_in_range "1.0" (range S754_nan S754_nan) = Ok [] /\
  accepts (check_is_in_range "1" (range S754_nan S754_nan)) = false.
Proof. vm_compute. repeat split. Qed.

(** * Specification *)

(** ** The messages *)

(** The pieces of a text without references. *)
Definition lits (l : list Z) : list piece := map lit l.
Definition plain_chars (l : list Z) : Prop := Forall (fun c => negb (c =? 0) && negb (c =? "{"%ch) = true) l.

Lemma print_lits l ps : print_template (lits l ++ ps) = l ++ print_template ps.
Proof. induction l as [|c l IH]; [done|]. unfold print_template in *. simpl. by rewrite IH. Qed.

Lemma renders_lits printf m args l ps out : renders printf m args ps out -> renders printf m args (lits l ++ ps) (l ++ out).
Proof. intros H. induction l as [|c l IH]; [done|]. by apply renders_lit. Qed.

Lemma renders_lits_end printf m args l : renders printf m args (lits l) l.
Proof. pose proof (renders_lits printf m args l [] [] (renders_end _ _ _)) as H. by rewrite !app_nil_r in H. Qed.

Lemma lits_ok args l ps : plain_chars l -> template_ok args (lits l ++ ps) = template_ok args ps.
Proof.
  induction 1 as [|c l Hc _ IH]; [done|]. cbn [lits map app template_ok piece_ok]. unfold lits in IH. rewrite IH, Hc.
  destruct (map lit l ++ ps); by rewrite andb_true_r.
Qed.

Definition quote : list Z := [34].
(** What the messages of the three validators start with. *)
Definition error_with (name text : list Z) : list Z := str "Error with " ++ name ++ str "=" ++ quote ++ text ++ quote.
Definition range_message (printf : list Z -> printed -> list Z) (name text : list Z) (nri : numeric_range_info) (formats : list Z) : list Z :=
  error_with name text ++ str ": expected a value between " ++ printf (str "%g") (pr_double (min nri)) ++
  str " and " ++ printf (str "%g") (pr_double (max nri)) ++ str " (inclusive), formatted as " ++ formats ++ str ".".

Definition range_template : list piece :=
  lits (str "Error with ") ++ ref 1 [] (plain None) :: lits (str "=" ++ quote) ++ ref 2 [] (plain None) ::
  lits (quote ++ str ": expected a value between ") ++ ref 3 [] (plain (Some (str "min"))) ::
  lits (str " and ") ++ ref 4 [] (plain (Some (str "max"))) ::
  lits (str " (inclusive), formatted as ") ++ ref 5 [] (plain None) :: lits (str ".").

Lemma range_msg_is : RANGE_MSG = print_template range_template.
Proof. reflexivity. Qed.

Ltac plain := repeat (rewrite lits_ok; [|by decided]); cbn [template_ok]; try done.

(** What the C library prints for a limit fits the buffer it is printed into. *)
Definition printable_limits (printf : list Z -> printed -> list Z) (nri : numeric_range_info) : Prop :=
  short (printf (str "%g") (pr_double (min nri))) /\ short (printf (str "%g") (pr_double (max nri))).

Lemma range_text printf m msg value name text nri formats : holds_cstr m msg RANGE_MSG -> holds_cstr m value text -> value <> 0 ->
  printable_limits printf nri ->
  interp printf m msg [arg_of_string name; arg_of_cstr value; arg_of_double (min nri); arg_of_double (max nri); arg_of_string formats] =
  Ok (range_message printf name text nri formats).
Proof.
  intros Hmsg Hvalue Hv [Hmin Hmax]. rewrite range_msg_is in Hmsg.
  apply (interp_template _ _ _ _ range_template); [done| |done|].
  - unfold range_template. reflexivity.
  - unfold range_template, range_message, error_with. rewrite <-!app_assoc.
    apply renders_lits. eapply renders_ref; [done|apply renders_plain, shown_string|].
    change (str "=" ++ quote ++ text ++ ?l) with (str "=" ++ quote ++ (text ++ l)).
    rewrite (app_assoc (str "=") quote). apply renders_lits.
    eapply renders_ref; [done|apply renders_plain; by apply shown_cstr|].
    rewrite (app_assoc quote). apply renders_lits. eapply renders_ref; [done|apply renders_plain; by apply shown_float|].
    apply renders_lits. eapply renders_ref; [done|apply renders_plain; by apply shown_float|].
    apply renders_lits. eapply renders_ref; [done|apply renders_plain, shown_string|].
    apply renders_lits_end.
Qed.

(** ** Formats *)

Lemma land_pow2 f k : 0 <= k -> Z.land f (2 ^ k) = if Z.testbit f k then 2 ^ k else 0.
Proof.
  intros Hk. apply Z.bits_inj'. intros i Hi. rewrite Z.land_spec, Z.pow2_bits_eqb by done.
  destruct (Z.eqb_spec k i) as [<-|Hne].
  - rewrite andb_true_r. destruct (Z.testbit f k) eqn:H; [by rewrite Z.pow2_bits_true|by rewrite Z.bits_0].
  - rewrite andb_false_r. destruct (Z.testbit f k); [by rewrite Z.pow2_bits_false|by rewrite Z.bits_0].
Qed.

Lemma enum_and_bit f k : 0 <= k < 32 -> enum_and f (2 ^ k) = if Z.testbit f k then 2 ^ k else 0.
Proof.
  intros Hk. unfold enum_and. assert (2 ^ k < 2 ^ 32) by (apply Z.pow_lt_mono_r; lia). pose proof (Z.pow_pos_nonneg 2 k).
  rewrite (u32_small (2 ^ k)) by lia. rewrite land_pow2 by lia. unfold u32 at 2. rewrite Z.mod_pow2_bits_low by lia.
  destruct (Z.testbit f k); rewrite u32_small by lia; done.
Qed.

(** The names of the formats whose bits are set. *)
Definition format_names (f : Z) : list Z :=
  join (str "|") (omap (fun '(k, name) => if Z.testbit f k then Some (str name) else None)
    [(0, "decimal"); (1, "octal"); (2, "hex"); (3, "binary"); (4, "float")]).

Lemma names_of_formats f : get_names_for_numeric_formats f (str "|") = Ok (format_names f).
Proof.
  unfold get_names_for_numeric_formats, format_names, nf_decimal. cbv [omap list_omap].
  pose proof (enum_and_bit f 0 ltac:(lia)) as H0. pose proof (enum_and_bit f 1 ltac:(lia)) as H1. pose proof (enum_and_bit f 2 ltac:(lia)) as H2.
  pose proof (enum_and_bit f 3 ltac:(lia)) as H3. pose proof (enum_and_bit f 4 ltac:(lia)) as H4.
  change (2 ^ 0) with 1 in H0. change (2 ^ 1) with 2 in H1. change (2 ^ 2) with 4 in H2. change (2 ^ 3) with 8 in H3. change (2 ^ 4) with 16 in H4.
  change 32%nat with (S (S (S (S (S (S 26)))))). cbn [iterate].
  change (1 <? nf_all) with true. cbn iota. rewrite H0.
  destruct (Z.testbit f 0); cbv [Z.eqb Pos.eqb negb bind]; change (u32 (Z.shiftl 1 1)) with 2; change (2 <? nf_all) with true; cbn iota; rewrite H1.
  all: destruct (Z.testbit f 1); cbv [Z.eqb Pos.eqb negb bind]; change (u32 (Z.shiftl 2 1)) with 4; change (4 <? nf_all) with true; cbn iota; rewrite H2.
  all: destruct (Z.testbit f 2); cbv [Z.eqb Pos.eqb negb bind]; change (u32 (Z.shiftl 4 1)) with 8; change (8 <? nf_all) with true; cbn iota; rewrite H3.
  all: destruct (Z.testbit f 3); cbv [Z.eqb Pos.eqb negb bind]; change (u32 (Z.shiftl 8 1)) with 16; change (16 <? nf_all) with true; cbn iota; rewrite H4.
  all: destruct (Z.testbit f 4); vm_compute; reflexivity.
Qed.

(** ** Literals of whole numbers *)

(** A text that is a sign, a radix prefix and a numeral. *)
Inductive literal : list Z -> radix -> sign -> list Z -> Prop :=
| decimal_literal s d l : d <> "0"%ch -> Forall (fun c => is_numeral_char 10 c = true) (d :: l) ->
    literal (sign_chars s ++ d :: l) Decimal s (d :: l)
| prefixed_literal s x r l : marker_radix x = Some r -> r = Hex \/ r = Binary -> l <> [] ->
    Forall (fun c => is_numeral_char (radix_base r) c = true) l -> literal (sign_chars s ++ "0"%ch :: x :: l) r s l.

Definition allows (f : Z) (r : radix) : bool := negb (enum_and (radix_format r) f =? 0).

Lemma literal_read pow m t text r s l allowed : literal text r s l -> holds m t text ->
  0 < Zlen text /\
  scan_number pow m t (t + Zlen text) allowed =
    Ok (if allows allowed r then t + Zlen text else t,
        {| format := radix_format r; value := whole_number (u64 (numeral_value (radix_base r) l)); negative := is_minus s |}).
Proof.
  destruct 1 as [s d l Hd Hl|s x r l Hx Hr Hne Hl]; intros Hm; rewrite Zlen_app, !Zlen_cons; pose proof (Zlen_nonneg (sign_chars s));
    pose proof (Zlen_nonneg l); (split; [lia|]).
  - rewrite (scan_number_decimal_spec pow m t _ s d l [] allowed); [|by rewrite app_nil_r|rewrite Zlen_cons, Zlen_nil; lia|done|done|done].
    unfold accepted, allows. rewrite Zlen_cons, <-Z.add_assoc. done.
  - replace (t + (Zlen (sign_chars s) + (1 + (1 + Zlen l)))) with (t + Zlen (sign_chars s) + 2 + Zlen l) by lia.
    rewrite (scan_number_prefixed_spec pow m t s x l allowed r Hm Hne Hx).
    pose proof (scan_len_stop _ l [] Hl ltac:(done)) as Hlen. rewrite app_nil_r in Hlen. rewrite Hlen.
    rewrite take_ge by (unfold Zlen; lia). done.
Qed.

(** The number of a literal, and whether it is within the limits. *)
Definition literal_value (r : radix) (s : sign) (l : list Z) : Z :=
  if is_minus s then - numeral_value (radix_base r) l else numeral_value (radix_base r) l.
Definition in_limits (nri : numeric_range_info) (z : Z) : bool := SFleb (min nri) (double_of_Z z) && SFleb (double_of_Z z) (max nri).

Lemma digit_value_nonneg base c v : digit_value base c = Some v -> 0 <= v.
Proof. unfold digit_value. destruct (Z.leb_spec 0 (get_ascii_hex_value c)); [|done]. destruct (_ <? _); [|done]. by intros [= <-]. Qed.

Lemma numeral_value_nonneg base l : 0 <= base -> 0 <= numeral_value base l.
Proof.
  intros Hb. unfold numeral_value. assert (forall n, 0 <= n -> 0 <= fold_left (fun n c => match digit_value base c with Some v => n * base + v | None => n end) l n) as H; [|by apply H].
  induction l as [|c l IH]; intros n Hn; cbn [fold_left]; [done|]. apply IH. destruct (digit_value base c) eqn:Hd; [|done].
  apply digit_value_nonneg in Hd. nia.
Qed.

(** C36: for a value that is a decimal literal that does not start with 0, or a hex or binary one, of a whole number
    below 2^63 in magnitude, [in_numeric_range] accepts exactly when the format is allowed and the number, as a
    double, is neither below the least nor above the greatest; otherwise it returns the message with the name of the
    parameter, the value, both limits and the allowed formats. Nothing is said of 0, of octal literals, of which the
    code drops a digit, and of larger numbers, which wrap (in_numeric_range_accepts_too_much); the C library prints
    the limits in fewer than 36 chars. *)
Theorem in_numeric_range_decides printf pow m msg param value name names text r s l nri :
  holds_cstr m msg RANGE_MSG -> holds_cstr m value text -> 0 < value -> param_names param = name :: names ->
  literal text r s l -> numeral_value (radix_base r) l < 2 ^ 63 -> printable_limits printf nri ->
  in_numeric_range printf pow m msg param value (Some nri) =
    Ok (if allows (allowed_formats nri) r && in_limits nri (literal_value r s l) then []
        else range_message printf name text nri (format_names (allowed_formats nri))).
Proof.
  intros Hmsg Hvalue Hv Hname Hlit Hbig Hlimits. unfold in_numeric_range. rewrite bool_decide_true by done. cbn [precondition bind].
  pose proof Hvalue as (_ & Hm & Hnul). rewrite (strlen_spec m value text) by done. cbn [bind]. apply holds_app in Hm as [Hm _].
  destruct (literal_read pow m value text r s l (allowed_formats nri) Hlit Hm) as [Hpos ->]. cbn [bind].
  pose proof (numeral_value_nonneg (radix_base r) l ltac:(by destruct r)) as Hn.
  assert (number_in_range nri {| format := radix_format r; value := whole_number (u64 (numeral_value (radix_base r) l)); negative := is_minus s |} =
    Ok (in_limits nri (literal_value r s l))) as Hrange.
  { unfold number_in_range. cbn [format ScanNumbers.value negative]. replace (radix_format r =? nf_floating_point_only) with false by (by destruct r).
    rewrite u64_small by lia. unfold i64. rewrite Z.mod_small by lia. rewrite Z.add_simpl_r. unfold literal_value, negated.
    destruct (is_minus s); [|done]. by zfalse (numeral_value (radix_base r) l =? - 2 ^ 63). }
  unfold get_preferred_name. rewrite Hname. cbn [name0 bind]. rewrite names_of_formats. cbn [bind].
  rewrite (range_text printf m msg value name text nri _ Hmsg Hvalue) by (lia || done).
  destruct (allows (allowed_formats nri) r); cbn [andb].
  - ztrue (value + Zlen text =? value + Zlen text). rewrite Hrange. cbn [bind]. by destruct (in_limits _ _).
  - by zfalse (value =? value + Zlen text).
Qed.

Lemma in_numeric_range_decides_witness :
  in_numeric_range any_printf ten_to (cstr_text_at 1000 RANGE_MSG ∪ cstr_at 16 "-0x2F") 1000 test_param 16
    (Some {| min := double_of_Z 0; max := double_of_Z 31; allowed_formats := nf_hex |}) =
  Ok (str "Error with --number=" ++ quote ++ str "-0x2F" ++ quote ++
      str ": expected a value between ? and ? (inclusive), formatted as hex.").
Proof.
  apply (in_numeric_range_decides any_printf ten_to _ 1000 test_param 16 (str "--number") [] (str "-0x2F") Hex Minus (str "2F")
    {| min := double_of_Z 0; max := double_of_Z 31; allowed_formats := nf_hex |}).
  - split; [lia|]. split; [decided|]. unfold no_nul. by decided.
  - split; [lia|]. split; [decided|]. unfold no_nul. by decided.
  - lia.
  - reflexivity.
  - apply (prefixed_literal Minus "x"%ch); [reflexivity|by left|discriminate|by decided].
  - reflexivity.
  - split; (split; [reflexivity|unfold no_nul; by decided]).
Defined.

(** ** Files *)

(** What [append] makes of a list of problems. *)
Definition listed (problems : list string) : list Z * Z := (join (str ", ") (map str problems), Zlen problems).

Lemma append_listed problems msg : Zlen problems < 100 -> append (listed problems) msg = listed (problems ++ [msg]).
Proof.
  intros Hlen. unfold append, listed. pose proof (Zlen_nonneg problems). rewrite map_app, Zlen_app. change (Zlen [msg]) with 1. rewrite u32_small by lia.
  destruct problems as [|x problems]; [cbn; by rewrite app_nil_r|]. rewrite Zlen_cons in *. pose proof (Zlen_nonneg problems).
  ztrue (0 <? 1 + Zlen problems). cbn [map]. by rewrite join_snoc, <-app_assoc.
Qed.

(** A check adds problems, none exactly when [ok]. *)
Definition adds (ok : Prop) (problems : list string) (err : list Z * Z) : Prop :=
  exists more, err = listed (problems ++ more) /\ Zlen more <= 3 /\ (more = [] <-> ok).

Lemma adds_none (ok : Prop) problems : ok -> adds ok problems (listed problems).
Proof. intros Hok. exists []. by rewrite app_nil_r. Qed.

Lemma adds_iff ok ok' problems err : (ok <-> ok') -> adds ok' problems err -> adds ok problems err.
Proof. intros Hiff (more & Herr & Hlen & Hok). exists more. by rewrite Hiff. Qed.

Lemma adds_one (ok : Prop) problems msg : Zlen problems < 100 -> ~ ok -> adds ok problems (append (listed problems) msg).
Proof. intros Hlen Hok. exists [msg]. rewrite append_listed by done. by split_and!. Qed.

Lemma type_checked fsinfo typ : adds (typ ∈ type_must_be_in fsinfo) [] (check_type fsinfo typ (listed [])).
Proof.
  unfold check_type, is_in. destruct (bool_decide_reflect (typ ∈ type_must_be_in fsinfo)) as [Hin|Hin]; cbn [negb]; [by apply adds_none|].
  destruct (file_exists typ); cbn [negb]; [|by apply adds_one]. destruct (_ && _); by apply adds_one.
Qed.

(** The lowest bit of [perms], execution by others, stands for all. *)
Lemma lacks_spec need perms : lacks need perms = need && negb (Z.odd perms).
Proof.
  unfold lacks. destruct need; cbn [Z.b2z andb]; [|by rewrite Z.land_0_l]. rewrite Z.land_comm. change 1 with (Z.ones 1). rewrite Z.land_ones by lia.
  change (2 ^ 1) with 2. rewrite Zmod_odd. by destruct (Z.odd perms).
Qed.

(** [x] has none of the bits of [a], [b] and [c]. *)
Lemma no_permission x : Z.land x 0x49 = 0 -> Z.land x 0x92 = 0 -> Z.land x 0x124 = 0 -> Z.land x 0x1ff = 0.
Proof.
  intros H1 H2 H3. change 0x1ff with (Z.lor (Z.lor 0x49 0x92) 0x124). by rewrite !Z.land_lor_distr_r, H1, H2, H3.
Qed.

Definition perms_ok (fsinfo : filesys_info) (typ : file_type) (perms : Z) : Prop :=
  file_exists typ = true -> perms_mask fsinfo <> 0 -> masked_perms_must_equal fsinfo <> 0 ->
  Z.land perms (perms_mask fsinfo) = masked_perms_must_equal fsinfo \/ Z.land (masked_perms_must_equal fsinfo) 0x1ff = 0 \/ Z.odd perms = true.

Lemma perms_checked fsinfo typ perms problems : Zlen problems < 90 -> 0 <= perms < 2 ^ 32 ->
  adds (perms_ok fsinfo typ perms) problems (check_perms fsinfo typ perms (listed problems)).
Proof.
  intros Hlen Hperms. unfold check_perms. rewrite u32_small by lia. rewrite !lacks_spec. set (req := masked_perms_must_equal fsinfo).
  destruct (file_exists typ && negb (perms_mask fsinfo =? 0) && negb (req =? 0)) eqn:Hc.
  2:{ apply adds_none. intros H1 H2 H3. rewrite H1 in Hc. fold req in H3. apply Z.eqb_neq in H2, H3. by rewrite H2, H3 in Hc. }
  apply andb_prop in Hc as [[H1 H2]%andb_prop H3]. apply negb_true_iff, Z.eqb_neq in H2, H3.
  destruct (Z.eqb_spec (Z.land perms (perms_mask fsinfo)) req) as [He|Hne]; cbn [negb]; [apply adds_none; by left|].
  destruct (Z.odd perms) eqn:Hodd; cbn [negb andb]; rewrite ?andb_false_r, ?andb_true_r; [apply adds_none; by right; right|].
  assert (perms_ok fsinfo typ perms <-> Z.land req 0x1ff = 0) as Hiff.
  { unfold perms_ok. fold req. rewrite Hodd. split; [|by right; left]. intros H. destruct (H H1 H2 H3) as [?|[?|?]]; done. }
  assert (Z.land req 0x1ff = 0 <-> Z.land req 0x49 = 0 /\ Z.land req 0x92 = 0 /\ Z.land req 0x124 = 0) as Hbits.
  { split; [|intros (?&?&?); by apply no_permission]. intros Hz.
    assert (forall k, Z.land (Z.land req 0x1ff) k = 0) as Hk by (intros k; by rewrite Hz). split_and!.
    - specialize (Hk 0x49). by rewrite <-Z.land_assoc in Hk.
    - specialize (Hk 0x92). by rewrite <-Z.land_assoc in Hk.
    - specialize (Hk 0x124). by rewrite <-Z.land_assoc in Hk. }
  apply (adds_iff _ _ _ _ (iff_trans Hiff Hbits)).
  destruct (Z.eqb_spec (Z.land req 0x49) 0), (Z.eqb_spec (Z.land req 0x92) 0), (Z.eqb_spec (Z.land req 0x124) 0); cbn [negb];
    [by apply adds_none|..].
  all: rewrite !append_listed by (rewrite ?Zlen_app; change (Zlen [_]) with 1; lia); rewrite <-?app_assoc; eexists; split; [reflexivity|].
  all: split; [done|]; split; [done|tauto].
Qed.

(** The size is within the limits that are given: a limit that is not a number is none. *)
Definition size_ok (fsinfo : filesys_info) (typ : file_type) (sz : Z) : Prop :=
  typ <> directory_file -> file_exists typ = true ->
  (min_size fsinfo <> S754_nan -> SFltb (double_of_Z sz) (min_size fsinfo) = false) /\
  (max_size fsinfo <> S754_nan -> SFltb (max_size fsinfo) (double_of_Z sz) = false).
(** A greatest size is given only together with a least one, which is below the greatest double. *)
Definition limits_paired (fsinfo : filesys_info) : Prop :=
  max_size fsinfo <> S754_nan -> SFltb (min_size fsinfo) dbl_max = true.

Definition not_negative (d : double) : Prop :=
  match d with S754_finite true _ _ | S754_infinity true => False | _ => True end.

Lemma double_not_negative sz : 0 <= sz -> not_negative (double_of_Z sz).
Proof.
  unfold double_of_Z, binary_normalize. destruct sz as [|n|n]; [done| |lia]. intros _.
  unfold binary_round. destruct (shl_align _ _ _) as [mz ez]. unfold binary_round_aux.
  destruct (shr_fexp _ _ _ _ _) as [mrs e]. destruct (shr_fexp _ _ _ _ _) as [mrs' e'].
  destruct (shr_m mrs'); [done| |done]. by destruct (_ <=? _).
Qed.

(** A least size that is not above 0 keeps no size out. *)
Lemma no_min_size d lo : not_negative d -> SFltb (double_of_Z 0) lo = false -> SFltb d lo = false.
Proof. by destruct d as [[]|[]| |[]], lo as [[]|[]| |[]]. Qed.

Lemma isnan_spec d : isnan d = false <-> d <> S754_nan.
Proof. by destruct d. Qed.

Lemma min_size_tested fsinfo sz : 0 <= sz ->
  has_min_size fsinfo && SFltb (double_of_Z sz) (min_size fsinfo) = false <->
  (min_size fsinfo <> S754_nan -> SFltb (double_of_Z sz) (min_size fsinfo) = false).
Proof.
  intros Hsz. rewrite <-isnan_spec. unfold has_min_size. destruct (isnan (min_size fsinfo)); cbn [negb andb]; [done|].
  destruct (SFltb (double_of_Z 0) (min_size fsinfo)) eqn:H0; cbn [andb]; [tauto|].
  pose proof (no_min_size _ _ (double_not_negative sz Hsz) H0). tauto.
Qed.

Lemma max_size_tested fsinfo sz : limits_paired fsinfo ->
  has_max_size fsinfo && SFltb (max_size fsinfo) (double_of_Z sz) = false <->
  (max_size fsinfo <> S754_nan -> SFltb (max_size fsinfo) (double_of_Z sz) = false).
Proof.
  unfold limits_paired, has_max_size. intros Hpair. destruct (decide (isnan (max_size fsinfo) = true)) as [Hnan|Hnan].
  - assert (SFltb (max_size fsinfo) (double_of_Z sz) = false) as -> by (by destruct (max_size fsinfo)). by rewrite andb_false_r.
  - apply not_true_is_false, isnan_spec in Hnan. specialize (Hpair Hnan). rewrite Hpair.
    assert (isnan (min_size fsinfo) = false) as -> by (by destruct (min_size fsinfo)). cbn [negb andb]. tauto.
Qed.

Lemma size_checked fsinfo typ file_size sz problems : Zlen problems < 90 -> file_size = Ok sz -> 0 <= sz -> limits_paired fsinfo ->
  exists err, check_size fsinfo typ file_size (listed problems) = Ok err /\ adds (size_ok fsinfo typ sz) problems err.
Proof.
  intros Hlen -> Hsz Hpair. pose proof (min_size_tested fsinfo sz Hsz) as Hmin. pose proof (max_size_tested fsinfo sz Hpair) as Hmax.
  unfold check_size, size_ok. destruct (bool_decide_reflect (typ = directory_file)) as [?|Hdir]; cbn [negb andb].
  { eexists. split; [done|]. by apply adds_none. }
  destruct (file_exists typ); cbn [andb]; [|eexists; split; [done|]; by apply adds_none].
  destruct (has_min_size fsinfo), (has_max_size fsinfo); cbn [orb andb bind] in *; eexists; (split; [done|]).
  all: repeat match goal with |- context [if SFltb ?a ?b then _ else _] => destruct (SFltb a b) eqn:? end.
  all: first [apply adds_none; intros _ _; tauto | apply adds_one; [lia|intros H; specialize (H Hdir eq_refl); intuition congruence]].
Qed.

Definition name_ok (fsinfo : filesys_info) (p : list Z) : Prop := forall re, name_must_match fsinfo = Some re -> FullMatch re p = true.

Lemma name_checked fsinfo p problems : Zlen problems < 90 -> adds (name_ok fsinfo p) problems (check_name fsinfo p (listed problems)).
Proof.
  intros Hlen. unfold check_name, name_ok. destruct (name_must_match fsinfo) as [re|]; [|by apply adds_none].
  destruct (FullMatch re p) eqn:Hre; cbn [negb].
  - apply adds_none. by intros ? [= <-].
  - apply adds_one; [lia|]. intros H. by rewrite (H re eq_refl) in Hre.
Qed.

Definition filesys_message (name text : list Z) (problems : list string) : list Z :=
  error_with name text ++ str ": " ++ join (str ", ") (map str problems) ++ str ".".
Definition filesys_template : list piece :=
  lits (str "Error with ") ++ ref 1 [] (plain None) :: lits (str "=" ++ quote) ++ ref 2 [] (plain None) ::
  lits (quote ++ str ": ") ++ ref 3 [] (plain None) :: lits (str ".").

Lemma filesys_msg_is : FILESYS_MSG = print_template filesys_template.
Proof. reflexivity. Qed.

Lemma filesys_text printf m msg value name text problems : holds_cstr m msg FILESYS_MSG -> holds_cstr m value text -> value <> 0 ->
  interp printf m msg [arg_of_string name; arg_of_cstr value; arg_of_string (join (str ", ") (map str problems))] =
  Ok (filesys_message name text problems).
Proof.
  intros Hmsg Hvalue Hv. rewrite filesys_msg_is in Hmsg.
  apply (interp_template _ _ _ _ filesys_template); [done|reflexivity|done|].
  unfold filesys_template, filesys_message, error_with. rewrite <-!app_assoc.
  apply renders_lits. eapply renders_ref; [done|apply renders_plain, shown_string|].
  rewrite (app_assoc (str "=") quote). apply renders_lits.
  eapply renders_ref; [done|apply renders_plain; by apply shown_cstr|].
  rewrite (app_assoc quote). apply renders_lits. eapply renders_ref; [done|apply renders_plain, Interp.shown_string|].
  apply renders_lits_end.
Qed.


(** A file that nobody may write passes for writable, as others may execute it. *)
Definition must_be_writable : filesys_info :=
  {| type_must_be_in := [regular_file]; perms_mask := 0x92; masked_perms_must_equal := 0x80; min_size := double_of_Z 0;
     max_size := infinity; name_must_match := None |}.
Definition run_filesys (fsinfo : filesys_info) (typ : file_type) (perms sz : Z) : res (list Z) :=
  matches_filesys_info any_printf (fun _ => Ok (typ, perms)) (fun _ => Ok sz)
    (cstr_text_at 1000 FILESYS_MSG ∪ cstr_at 16 "a.out") 1000 test_param 16 (Some fsinfo).


Lemma executable_passes_for_writable :
  run_filesys must_be_writable regular_file 0x16d 10 = Ok [] /\
  accepts (run_filesys must_be_writable regular_file 0x16c 10) = false.
Proof. vm_compute. split; reflexivity. Qed.

(** The greatest size is not looked at when there is no least one. *)
Lemma max_size_without_min :
  let fsinfo := {| type_must_be_in := [regular_file]; perms_mask := 0; masked_perms_must_equal := 0; min_size := S754_nan;
                   max_size := double_of_Z 10; name_must_match := None |} in
  run_filesys fsinfo regular_file 0 11 = Ok [].
Proof. vm_compute. reflexivity. Qed.

Example matches_filesys_info_tests :
  let sample types mask req lo hi := {| type_must_be_in := types; perms_mask := mask; masked_perms_must_equal := req;
                                        min_size := lo; max_size := hi; name_must_match := None |} in
  run_filesys (sample [regular_file] 0x124 0x124 (double_of_Z 0) infinity) regular_file 0x1a4 100 = Ok [] /\
  run_filesys (sample [regular_file] 0 0 (double_of_Z 1048576) infinity) regular_file 0x1a4 100 =
    Ok (filesys_message (str "--number") (str "a.out") ["file is too small"%string]) /\
  run_filesys (sample [regular_file] 0x49 0x49 (double_of_Z 0) (double_of_Z 10)) regular_file 0x1a4 100 =
    Ok (filesys_message (str "--number") (str "a.out") ["not executable"%string; "file is too big"%string]) /\
  run_filesys (sample [file_not_found; status_error] 0 0 (double_of_Z 0) infinity) regular_file 0x1a4 100 =
    Ok (filesys_message (str "--number") (str "a.out") ["already exists"%string]).
Proof. vm_compute. repeat split. Qed.
