(* ===== verification/BuildError.v ===== *)
(** * Errors of a build: lang/build_error.h/.cpp

    An exception that says where the source of a program is wrong; its base
    [std::runtime_error] keeps the message. *)

From stdpp Require Import base tactics list gmap strings.
From Stdlib Require Import ZArith Lia.
From S2P Require Import Prelude CString StdString Arg Interp Validators.
#[local] Open Scope Z_scope.

Definition BUILD_ERROR_MSG : list Z := str "Syntax error at {1}, line {2}, column {3}: {4}.".

(** The message of a new [build_error], with the format at [format]. *)
Definition build_error (printf : list Z -> printed -> list Z) (m : mem) (format file line column msg : Z) : res (list Z) :=
  interp printf m format [arg_of_cstr file; arg_of_uint32 line; arg_of_uint32 column; arg_of_cstr msg].

Definition build_error_template : list piece :=
  lits (str "Syntax error at ") ++ ref 1 [] (plain None) :: lits (str ", line ") ++ ref 2 [] (plain None) ::
  lits (str ", column ") ++ ref 3 [] (plain None) :: lits (str ": ") ++ ref 4 [] (plain None) :: lits (str ".").

(** The place and the message are inserted as they are: what looks like a reference
    in the name of the file or in the message is not expanded again. *)
Theorem build_error_text printf m format file line column msg name text : holds_cstr m format BUILD_ERROR_MSG ->
  holds_cstr m file name -> file <> 0 -> holds_cstr m msg text -> msg <> 0 ->
  build_error printf m format file line column msg =
  Ok (str "Syntax error at " ++ name ++ str ", line " ++ show_unsigned line ++ str ", column " ++ show_unsigned column ++
      str ": " ++ text ++ str ".").
Proof.
  intros Hformat Hfile Hf0 Hmsg Hm0. apply (interp_template _ _ _ _ build_error_template); [done|done|done|].
  unfold build_error_template. apply renders_lits. eapply renders_ref; [done|apply renders_plain; by apply shown_cstr|].
  apply renders_lits. eapply renders_ref; [done|apply renders_plain, shown_unsigned|]. apply renders_lits. eapply renders_ref; [done|apply renders_plain, shown_unsigned|].
  apply renders_lits. eapply renders_ref; [done|apply renders_plain; by apply shown_cstr|]. apply renders_lits_end.
Qed.
