(* ===== verification/Palette.v ===== *)
(** * Colour palettes: core/cli/ansi_color_palette.h and ansi_color_palette.cpp

    A palette maps the names of a specification to colours by tables, one for
    each sequence of chars that several names start with.  A row of [entries]
    is what was written of it, the colour and then the name with its NUL: its
    other chars are uninitialised. *)

From stdpp Require Import base tactics list gmap strings.
From Stdlib Require Import ZArith Lia.
From S2P Require Import Prelude CString StrView StdString.
#[local] Open Scope Z_scope.
#[local] Arguments str : simpl never.

(** ** Reading the specification *)

Section reading.
Context (m : mem).

(** The new [p], and the char, 0 at the end. *)
Definition name_char_step (e p : Z) : res (Z + Z * Z) :=
  if p <? e then
    let! c := load m p in
    let p := p + 1 in
    if ("a"%ch <=? c) && (c <=? "z"%ch) then Ok (inr (p, c))
    else if ("A"%ch <=? c) && (c <=? "Z"%ch) then Ok (inr (p, c + 32))
    else if ("0"%ch <=? c) && (c <=? "9"%ch) then Ok (inr (p, c))
    else if negb (c =? "."%ch) && negb (c =? "-"%ch) && negb (c =? "_"%ch) then Ok (inr (p, 0))
    else Ok (inl p)
  else Ok (inr (p, 0)).
Definition next_name_char (p e : Z) : res (Z * Z) := iterate (span_fuel p e) (name_char_step e) p.

(** Whether there is a name, the rest of [txt], and the name. *)
Definition find_next_name (txt : str_view) : res (bool * str_view * str_view) :=
  let e := view_end txt in
  let! (p, found) := iterate (span_fuel (begin txt) e) (fun p =>
    if p <? e then
      let! c := load m p in
      if (("a"%ch <=? c) && (c <=? "z"%ch)) || (("A"%ch <=? c) && (c <=? "z"%ch)) then Ok (inr (p, true))
      else Ok (inl (p + 1))
    else Ok (inr (p, false))) (begin txt) in
  if negb found then Ok (false, txt, view_null)
  else
    let name := {| begin := p; length := 0 |} in
    let txt := begin_at txt p in
    let! (name, txt) := iterate (span_fuel p e) (fun p =>
      if p <? e then
        let! c := load m p in
        let! alnum := isalnum c in
        if alnum || (c =? "."%ch) || (c =? "-"%ch) || (c =? "_"%ch) then Ok (inl (p + 1))
        else Ok (inr (end_at name p, begin_at txt p))
      else Ok (inr (name, txt))) p in
    Ok (true, txt, name).

(** The rest of [txt], and the value if there is one. *)
Definition find_next_value (txt : str_view) : res (str_view * option Z) :=
  let e := view_end txt in
  iterate (span_fuel (begin txt) e) (fun '(p, found_equal, txt) =>
    if p <? e then
      let! c := load m p in
      let p := p + 1 in
      if c =? "="%ch then
        if found_equal : bool then Ok (inr (txt, None)) else Ok (inl (p, true, begin_at txt p))
      else if c =? " "%ch then Ok (inl (p, found_equal, begin_at txt p))
      else if negb found_equal || (c <? "0"%ch) || ("9"%ch <? c) then Ok (inr (txt, None))
      else
        let value := u8 (c - "0"%ch) in
        let! (p, value) :=
          if p <? e then
            let! c := load m p in
            Ok (if ("0"%ch <=? c) && (c <=? "9"%ch) then (p + 1, u8 (value * (10 + (c - "0"%ch)))) else (p, value))
          else Ok (p, value) in
        Ok (inr (begin_at txt p, Some value))
    else Ok (inr (txt, None))) (begin txt, false, txt).

(** The chars [copy_name] writes: 14 and a NUL at most. *)
Definition copy_name (src : str_view) : res (list Z) :=
  let e := view_end src in
  let! (p, c) := next_name_char (begin src) e in
  iterate 16 (fun '(p, c, dest) =>
    if negb (c =? 0) && (Zlen dest <? 14) then
      let! (p, c') := next_name_char p e in
      Ok (inl (p, c', dest ++ [c]))
    else Ok (inr (dest ++ [0]))) (p, c, []).
End reading.

(** ** Tables: a [mapper_t] is an array of 36 bytes *)

Definition NO_MATCH : Z := 0xFF.
(** The tables that [data_t] reserves. *)
Definition reserved : nat := 8.

Definition get_mapper_idx_for_char (c : Z) : nat :=
  Z.to_nat (if c <=? "z"%ch then u8 (c - "a"%ch) else u8 (c - "0"%ch)).

Definition alloc_mapper (mappers : list (list Z)) : list (list Z) := mappers ++ [replicate 36 NO_MATCH].

(** [this_map[idx] = v]: [this_map] is a reference into the vector, which dangles
    once there are more tables than were reserved. *)
Definition set_map (mappers : list (list Z)) (this_map idx : nat) (v : Z) : res (list (list Z)) :=
  if (reserved <? Datatypes.length mappers)%nat then Undef
  else
    match mappers !! this_map with
    | Some t => if (idx <? Datatypes.length t)%nat then Ok (<[this_map := <[idx := u8 v]> t]> mappers) else Undef
    | None => Undef
    end.

(** What changes in [fill_maps]: [mappers] and [unfinished_entry_count]. *)
#[local] Abbreviation filling := (list (list Z) * Z)%type.

Section filling.
Context (entries : list (list Z)).

(** [entries[k][i]]. *)
Definition entry_char (k i : nat) : res Z :=
  match entries !! k with
  | Some row => match row !! i with Some c => Ok c | None => Undef end
  | None => Undef
  end.

(** The loop over [k]: which entries have the char [c] at [name_idx] as entry [j]
    does; they are not considered again. *)
Definition same_step (j name_idx : nat) (c : Z) (st : nat * list bool * list bool) (k : nat) : res (nat * list bool * list bool) :=
  let '(count, same, bits) := st in
  if negb (k =? j)%nat && default false (bits !! k) then
    let! d := entry_char k name_idx in
    Ok (if d =? c then (S count, <[k := true]> same, <[k := false]> bits) else st)
  else Ok st.
Fixpoint same_loop (j name_idx : nat) (c : Z) (ks : list nat) (st : nat * list bool * list bool) : res (nat * list bool * list bool) :=
  match ks with
  | [] => Ok st
  | k :: ks => let! st := same_step j name_idx c st k in same_loop j name_idx c ks st
  end.

(** One entry of a table: [recurse] is [fill_maps] on the next char. *)
Definition fill_step (recurse : filling -> list bool -> nat -> res filling) (this_map name_idx : nat)
    (st : nat * filling * list bool) : res (nat * filling * list bool + filling) :=
  let '(j, (mappers, unfinished), bits) := st in
  if (j <? Datatypes.length entries)%nat then
    if default false (bits !! j) then
      let! c := entry_char j name_idx in
      let idx := get_mapper_idx_for_char c in
      let same := <[j := true]> (replicate (Datatypes.length entries) false) in
      let! (count, same, bits) := same_loop j name_idx c (seq 0 (Datatypes.length entries)) (1%nat, same, bits) in
      if (count =? 1)%nat then
        let! color := entry_char j 0 in
        let! mappers := set_map mappers this_map idx color in
        let unfinished := u32 (unfinished - 1) in
        if unfinished =? 0 then Ok (inr (mappers, unfinished))
        else Ok (inl (S j, (mappers, unfinished), <[j := false]> bits))
      else
        let mappers := alloc_mapper mappers in
        let! mappers := set_map mappers this_map idx (16 + Z.of_nat (Datatypes.length mappers - 1)) in
        let! (mappers, unfinished) := recurse (mappers, unfinished) same (S name_idx) in
        if unfinished =? 0 then Ok (inr (mappers, unfinished))
        else Ok (inl (S j, (mappers, unfinished), <[j := false]> bits))
    else Ok (inl (S j, (mappers, unfinished), bits))
  else Ok (inr (mappers, unfinished)).

(** Rows have 16 chars, which bounds the depth of the recursion. *)
Fixpoint fill_maps (fuel : nat) (st : filling) (bits : list bool) (name_idx : nat) : res filling :=
  match fuel with
  | O => Spin
  | S fuel =>
      iterate (S (Datatypes.length entries)) (fill_step (fill_maps fuel) (Datatypes.length st.1 - 1) name_idx) (0%nat, st, bits)
  end.

Definition generate_maps : res (list (list Z)) :=
  let mappers := alloc_mapper [] in
  let! (mappers, _) := fill_maps 17 (mappers, Z.of_nat (Datatypes.length entries)) (replicate (Datatypes.length entries) true) 1 in
  Ok mappers.
End filling.

(** ** The palette *)

(** One turn of the constructor: [entries] has room for 240. *)
Definition entry_step (m : mem) (st : str_view * list (list Z)) : res (str_view * list (list Z) + list (list Z)) :=
  let '(spec, entries) := st in
  let! (found, spec, name) := find_next_name m spec in
  if found && (Zlen entries <=? 240) then
    let! (spec, value) := find_next_value m spec in
    let! _ := precondition (bool_decide (is_Some value)) "find_next_value(spec, value)" in
    if Zlen entries <? 240 then
      let! chars := copy_name m name in
      Ok (inl (spec, entries ++ [to_char (default 0 value) :: chars]))
    else Undef
  else Ok (inr entries).

Definition new_palette (m : mem) (spec : str_view) : res (list (list Z)) :=
  let! _ := precondition (view_bool spec) "_spec" in
  let! entries := iterate (span_fuel (begin spec) (view_end spec)) (entry_step m) (spec, []) in
  generate_maps entries.

(** One turn of [map_name]: [p] and [this_map]. *)
Definition map_step (m : mem) (mappers : list (list Z)) (e : Z) (st : Z * nat) : res (Z * nat + Z) :=
  let '(p, this_map) := st in
  let! d := load m p in
  if negb (d =? 0) && (p <? e) then
    let! (p, c) := next_name_char m p e in
    if negb (c =? 0) then
      match mappers !! this_map with
      | None => Undef
      | Some t =>
          match t !! get_mapper_idx_for_char c with
          | None => Undef
          | Some n =>
              if n <? 16 then Ok (inr n)
              else
                let next := Z.to_nat (n - 16) in
                if (next <? Datatypes.length mappers)%nat then Ok (inl (p, next)) else Undef
          end
      end
    else Ok (inr 0)
  else Ok (inr 0).

Definition map_name (m : mem) (mappers : list (list Z)) (name : Z) : res Z :=
  let! nothing := is_null_or_empty m name in
  let! _ := precondition (negb nothing) "!is_null_or_empty(name)" in
  let! len := strlen m name in
  iterate (S (size m)) (map_step m mappers (name + len)) (name, 0%nat).

(** * The tests of the repository *)

Definition run_palette (spec : list Z) (names : list string) : list (res Z) :=
  let m := map_seqZ 1000 (spec ++ [0]) in
  map (fun name =>
    let! mappers := new_palette m {| begin := 1000; length := Zlen spec |} in
    map_name (m ∪ cstr_at 16 name) mappers 16) names.

Definition lines (l : list string) : list Z := concat (map (fun s => str s ++ [LF]) l).

Example palette_tests :
  run_palette (lines ["status=3"; "warning=4"; "error=5"]) ["status"; "warning"; "error"] = [Ok 3; Ok 4; Ok 5] /\
  run_palette (lines ["header=14"; "see-also=2"; "callout=10"; "error=9"; "cross-ref=15"; "warning=11"; "keyword=6";
                      "optional=4"; "normal=8"; "note=3"; "hidden=0"]) ["cross"; "call"; "error"; "See.Also"; "n"; "no"; "nor"] =
    [Ok 15; Ok 10; Ok 9; Ok 2; Ok 0; Ok 0; Ok 8].
Proof. vm_compute. split; reflexivity. Qed.

(** A name with a digit is outside the tables, and so is the end of a name that
    another one starts with, or that occurs twice; names that share eight chars
    need more tables than were reserved; an unknown name leads to a table that
    there is not; and 241 names are one too many. *)
Lemma palette_undefined :
  run_palette (lines ["h1=3"; "h2=4"]) ["h1"] = [Undef] /\
  run_palette (lines ["warn=3"; "warning=4"]) ["warn"] = [Undef] /\
  run_palette (lines ["note=3"; "Note=4"]) ["note"] = [Undef] /\
  run_palette (lines ["background-a=3"; "background-b=4"]) ["background-a"] = [Undef] /\
  run_palette (lines ["note=3"]) ["error"] = [Undef] /\
  run_palette (concat (replicate 241 (lines ["note=3"]))) ["note"] = [Undef].
Proof. vm_compute. repeat split. Qed.

(** A colour of two digits is read as if it were below twenty: 25 counts as 30,
    which is the number of a table. *)
Lemma two_digit_color : run_palette (lines ["note=25"]) ["note"; "n"] = [Undef; Undef].
Proof. vm_compute. reflexivity. Qed.

(** * Specification *)

Definition letter (c : Z) : Prop := 97 <= c <= 122.

(** The significant chars of a name, in lower case. *)
Definition norm_char (c : Z) : option Z :=
  if ("a"%ch <=? c) && (c <=? "z"%ch) then Some c
  else if ("A"%ch <=? c) && (c <=? "Z"%ch) then Some (c + 32)
  else if ("0"%ch <=? c) && (c <=? "9"%ch) then Some c
  else None.
Definition norm (text : list Z) : list Z := omap norm_char text.

(** ** How many tables names need besides the first *)

Definition with_first (c : Z) (l : list (list Z)) : list (list Z) := filter (fun s => head s = Some c) l.
Definition without_first (c : Z) (l : list (list Z)) : list (list Z) := filter (fun s => head s <> Some c) l.

Inductive tables : list (list Z) -> nat -> Prop :=
| tables_nil : tables [] 0
| tables_one c s l k : with_first c l = [] -> tables (without_first c l) k -> tables ((c :: s) :: l) k
| tables_many c s l k k' : with_first c l <> [] -> tables (map tail ((c :: s) :: with_first c l)) k ->
    tables (without_first c l) k' -> tables ((c :: s) :: l) (S (k + k')).

(** Tables can be made exactly for names of which none starts another. *)
Definition prefix_free (l : list (list Z)) : Prop :=
  NoDup l /\ [] ∉ l /\ Forall (fun a => Forall (fun b => a `prefix_of` b -> a = b) l) l.

Lemma prefix_free_spec l : prefix_free l <-> NoDup l /\ [] ∉ l /\ forall a b, a ∈ l -> b ∈ l -> a `prefix_of` b -> a = b.
Proof. unfold prefix_free. setoid_rewrite Forall_forall. setoid_rewrite Forall_forall. naive_solver. Qed.

Lemma prefix_free_filter (P : list Z -> Prop) `{!forall s, Decision (P s)} l : prefix_free l -> prefix_free (filter P l).
Proof.
  rewrite !prefix_free_spec. intros (Hnd & Hne & Hpre). split_and!; [by apply NoDup_filter|by intros [_ Hin]%list_elem_of_filter|].
  intros a b [_ Ha]%list_elem_of_filter [_ Hb]%list_elem_of_filter. by apply Hpre.
Qed.
Lemma prefix_free_tails c l : prefix_free l -> Forall (fun s => head s = Some c) l -> (2 <= Datatypes.length l)%nat -> prefix_free (map tail l).
Proof.
  rewrite !prefix_free_spec. intros (Hnd & Hne & Hpre) Hc Hlen. rewrite Forall_forall in Hc.
  assert (forall s, s ∈ l -> s = c :: tail s) as Hs by (intros [|d s] Hin%Hc; [done|by injection Hin as ->]).
  split_and!.
  - apply NoDup_fmap_2_strong; [|done]. intros a b Ha Hb E. by rewrite (Hs a Ha), (Hs b Hb), E.
  - intros (a & E & Ha)%list_elem_of_fmap. destruct l as [|b [|b' l]]; simpl in Hlen; [lia..|].
    assert (exists b0, b0 ∈ b :: b' :: l /\ b0 <> a) as (b0 & Hb0 & Hne0).
    { destruct (decide (b = a)) as [->|]; [exists b'|exists b]; (split; [set_solver|]); [|done]. intros ->. apply NoDup_cons in Hnd as [Hno _]. set_solver. }
    apply Hne0. symmetry. apply Hpre; [done..|]. rewrite (Hs a Ha), <- E, (Hs b0 Hb0). by exists (tail b0).
  - intros a b (a0 & -> & Ha)%list_elem_of_fmap (b0 & -> & Hb)%list_elem_of_fmap Hpr. f_equal. apply Hpre; [done..|].
    rewrite (Hs a0 Ha), (Hs b0 Hb). by apply prefix_cons.
Qed.

Lemma with_first_heads c l : Forall (fun s => head s = Some c) (with_first c l).
Proof. apply Forall_forall. by intros s [Hs _]%list_elem_of_filter. Qed.

Definition names_size (l : list (list Z)) : nat := foldr (fun s k => S (Datatypes.length s) + k)%nat 0%nat l.
Lemma names_size_filter (P : list Z -> Prop) `{!forall s, Decision (P s)} l :
  (names_size (filter P l) <= names_size l)%nat.
Proof. induction l as [|s l IH]; [done|]. rewrite filter_cons. case_decide; cbn [names_size foldr] in *; unfold names_size in *; lia. Qed.
Lemma names_size_tails l : Forall (fun s => s <> []) l ->
  (names_size (map tail l) + Datatypes.length l = names_size l)%nat.
Proof.
  induction 1 as [|s l Hs _ IH]; [done|]. destruct s as [|c s]; [done|]. unfold names_size in *. cbn [map foldr tail Datatypes.length] in *. lia.
Qed.

Fixpoint count_tables (fuel : nat) (l : list (list Z)) : nat :=
  match fuel, l with
  | S fuel, (c :: s) :: l =>
      ((if decide (with_first c l = []) then 0 else S (count_tables fuel (map tail ((c :: s) :: with_first c l)))) +
       count_tables fuel (without_first c l))%nat
  | _, _ => 0%nat
  end.
(** How many tables the names need besides the first. *)
Definition table_count (l : list (list Z)) : nat := count_tables (names_size l) l.

Lemma tables_counted fuel : forall l, (names_size l <= fuel)%nat -> prefix_free l -> tables l (count_tables fuel l).
Proof.
  assert (forall l, prefix_free ([] :: l) -> False) as Hempty by (intros l (_ & Hne & _); apply Hne; by left).
  induction fuel as [|fuel IH]; intros [|[|c s] l] Hsize Hpf;
    [exact tables_nil|by apply Hempty in Hpf|cbn [names_size foldr Datatypes.length] in Hsize; lia|exact tables_nil|by apply Hempty in Hpf|].
  cbn [names_size foldr Datatypes.length] in Hsize. fold (names_size l) in Hsize.
  assert (prefix_free l) as Hl.
  { rewrite prefix_free_spec in Hpf |- *. destruct Hpf as (Hnd & Hne & Hpre). apply NoDup_cons in Hnd as [_ Hnd].
    split_and!; [done|set_solver|]. intros a b Ha Hb. apply Hpre; by right. }
  pose proof (names_size_filter (fun s => head s <> Some c) l) as Hw. pose proof (names_size_filter (fun s => head s = Some c) l) as Hf.
  assert (tables (without_first c l) (count_tables fuel (without_first c l))) as Hk'.
  { apply IH; [unfold without_first; lia|by apply prefix_free_filter]. }
  cbn [count_tables]. case_decide as Hd; [by apply tables_one|].
  assert (Forall (fun s0 => head s0 = Some c) ((c :: s) :: with_first c l)) as Hheads by (constructor; [done|apply with_first_heads]).
  apply tables_many; [done| |done]. apply IH.
  - pose proof (names_size_tails ((c :: s) :: with_first c l)) as Ht. specialize (Ht ltac:(eapply Forall_impl; [exact Hheads|by intros [|]])).
    unfold with_first in *. cbn [names_size foldr Datatypes.length] in Ht. fold (names_size (filter (fun s => head s = Some c) l)) in Ht. lia.
  - apply (prefix_free_tails c); [|done|].
    + replace ((c :: s) :: with_first c l) with (filter (fun s => head s = Some c) ((c :: s) :: l)) by (by rewrite filter_cons_True).
      by apply prefix_free_filter.
    + destruct (with_first c l); [done|simpl; lia].
Qed.

(** ** What the tables say *)

(** The way along the chars from a table: a colour, or a table after it. *)
Inductive walks (ms : list (list Z)) : nat -> list Z -> Z -> Prop :=
| walks_end M t c l v : ms !! M = Some t -> t !! get_mapper_idx_for_char c = Some v -> 0 <= v < 16 -> walks ms M (c :: l) v
| walks_next M t c l n v : ms !! M = Some t -> t !! get_mapper_idx_for_char c = Some n -> 16 <= n ->
    (M < Z.to_nat (n - 16))%nat -> walks ms (Z.to_nat (n - 16)) l v -> walks ms M (c :: l) v.

Lemma walks_frame ms ms' M l v : walks ms M l v -> (forall i, (M <= i < Datatypes.length ms)%nat -> ms' !! i = ms !! i) -> walks ms' M l v.
Proof.
  induction 1 as [M t c l v Ht Hv Hr|M t c l n v Ht Hn Hr Hlt Hw IH]; intros Hms.
  - eapply walks_end; [rewrite Hms; [exact Ht|]|exact Hv|done]. apply lookup_lt_Some in Ht. lia.
  - eapply walks_next; [rewrite Hms; [exact Ht|]|exact Hn|done..|].
    + apply lookup_lt_Some in Ht. lia.
    + apply IH. intros i Hi. apply Hms. lia.
Qed.

(** The first table may change elsewhere. *)
Lemma walks_frame_first ms ms' M c l v : walks ms M (c :: l) v ->
  (forall t, ms !! M = Some t -> exists t', ms' !! M = Some t' /\ t' !! get_mapper_idx_for_char c = t !! get_mapper_idx_for_char c) ->
  (forall i, (M < i < Datatypes.length ms)%nat -> ms' !! i = ms !! i) -> walks ms' M (c :: l) v.
Proof.
  intros Hw Hfirst Hms. inversion Hw as [? t ? ? ? Ht Hv Hr|? t ? ? n ? Ht Hn Hr Hlt Hrest]; subst; destruct (Hfirst t Ht) as (t' & Ht' & Heq).
  - eapply walks_end; [exact Ht'|by rewrite Heq|done].
  - eapply walks_next; [exact Ht'|by rewrite Heq|done..|]. eapply walks_frame; [exact Hrest|]. intros i Hi. apply Hms. lia.
Qed.

Lemma letter_index c : letter c -> get_mapper_idx_for_char c = Z.to_nat (c - 97).
Proof. intros Hc. unfold get_mapper_idx_for_char, letter in *. ztrue (c <=? 122). unfold u8. by rewrite Z.mod_small by lia. Qed.

Lemma letter_index_lt c : letter c -> (get_mapper_idx_for_char c < 36)%nat.
Proof. intros Hc. rewrite letter_index by done. unfold letter in Hc. lia. Qed.

Lemma letter_index_inj c d : letter c -> letter d -> get_mapper_idx_for_char c = get_mapper_idx_for_char d -> c = d.
Proof. intros Hc Hd. rewrite !letter_index by done. unfold letter in *. lia. Qed.

(** ** Filling the tables *)

Lemma filter_ext_in {A} (P Q : A -> Prop) `{!forall x, Decision (P x)} `{!forall x, Decision (Q x)} (l : list A) :
  (forall x, x ∈ l -> P x <-> Q x) -> filter P l = filter Q l.
Proof.
  induction l as [|x l IH]; intros Hpq; [done|]. rewrite !filter_cons. pose proof (Hpq x ltac:(by apply elem_of_cons; left)) as Hx.
  rewrite IH by (intros y Hy; apply Hpq; by apply elem_of_cons; right). repeat case_decide; tauto.
Qed.

Lemma filter_map {A B} (f : A -> B) (P : B -> Prop) `{!forall x, Decision (P x)} (l : list A) :
  filter P (map f l) = map f (filter (fun x => P (f x)) l).
Proof. induction l as [|x l IH]; [done|]. cbn [map]. rewrite !filter_cons. case_decide; cbn [map]; by rewrite IH. Qed.

(** Entries [k] of a list that are set to [b]. *)
Fixpoint mark (b : bool) (ks : list nat) (l : list bool) : list bool :=
  match ks with [] => l | k :: ks => mark b ks (<[k := b]> l) end.

Lemma mark_length b ks l : Datatypes.length (mark b ks l) = Datatypes.length l.
Proof. revert l. induction ks as [|k ks IH]; intros l; [done|]. cbn [mark]. rewrite IH. by rewrite length_insert. Qed.

Lemma mark_in b ks l x : x ∈ ks -> (x < Datatypes.length l)%nat -> mark b ks l !! x = Some b.
Proof.
  revert l. induction ks as [|k ks IH]; intros l Hin Hx; [by apply not_elem_of_nil in Hin|]. cbn [mark].
  destruct (decide (x ∈ ks)) as [Hks|Hks]; [apply IH; [done|by rewrite length_insert]|].
  apply elem_of_cons in Hin as [->|?]; [|done]. clear IH. assert (forall l, l !! k = Some b -> mark b ks l !! k = Some b) as H.
  { clear Hx l. induction ks as [|k' ks IH]; intros l Hl; [done|]. cbn [mark]. apply not_elem_of_cons in Hks as [Hne Hks]. apply IH; [done|].
    by rewrite list_lookup_insert_ne. }
  apply H. by apply list_lookup_insert_eq.
Qed.

Lemma mark_out b ks l x : x ∉ ks -> mark b ks l !! x = l !! x.
Proof.
  revert l. induction ks as [|k ks IH]; intros l Hx; [done|]. cbn [mark]. apply not_elem_of_cons in Hx as [Hne Hks]. rewrite IH by done.
  by rewrite list_lookup_insert_ne.
Qed.

Section filled.
Context (named : list (list Z * Z)).
Context (Hnamed : Forall (fun '(name, color) => Forall letter name /\ 0 <= color < 16) named).

(** The rows, and what is left of a name at an index. *)
Definition rows : list (list Z) := map (fun '(name, color) => color :: name ++ [0]) named.
Definition suffix (i k : nat) : list Z := match named !! k with Some (name, _) => drop i name | None => [] end.
Definition color (k : nat) : Z := match named !! k with Some (_, color) => color | None => 0 end.

Lemma rows_length : Datatypes.length rows = Datatypes.length named.
Proof. apply length_map. Qed.

Lemma suffix_letters i k : Forall letter (suffix i k).
Proof.
  unfold suffix. destruct (named !! k) as [[name c]|] eqn:Hk; [|constructor]. rewrite Forall_forall in Hnamed.
  apply list_elem_of_lookup_2, Hnamed in Hk as [Hl _]. by apply Forall_drop.
Qed.

Lemma color_range k : 0 <= color k < 16.
Proof.
  unfold color. destruct (named !! k) as [[name c]|] eqn:Hk; [|lia]. rewrite Forall_forall in Hnamed. by apply list_elem_of_lookup_2, Hnamed in Hk as [_ Hc].
Qed.

Lemma suffix_tail i k : tail (suffix i k) = suffix (S i) k.
Proof.
  unfold suffix. destruct (named !! k) as [[name c]|]; [|done]. rewrite <-(Nat.add_1_r i), <-drop_drop. by destruct (drop i name).
Qed.

Lemma suffix_char i k c : head (suffix i k) = Some c -> entry_char rows k (S i) = Ok c.
Proof.
  unfold suffix, entry_char, rows. rewrite list_lookup_fmap. destruct (named !! k) as [[name v]|]; [|done]. intros Hc. cbn [fmap option_fmap option_map].
  rewrite lookup_cons. rewrite lookup_app_l.
  - rewrite <-(Nat.add_0_r i), <-lookup_drop. destruct (drop i name); [done|]. by injection Hc as ->.
  - destruct (Nat.ltb_spec i (Datatypes.length name)) as [?|Hge]; [done|]. by rewrite drop_ge in Hc.
Qed.

Lemma color_char k : (k < Datatypes.length named)%nat -> entry_char rows k 0 = Ok (color k).
Proof.
  intros Hk. unfold color, entry_char, rows. rewrite list_lookup_fmap. apply lookup_lt_is_Some in Hk as [[name v] ->]. done.
Qed.

(** The loop over [k] marks the entries that have the char. *)
Definition shares (i j : nat) (c : Z) (bits : list bool) (k : nat) : Prop := k <> j /\ bits !! k = Some true /\ head (suffix i k) = Some c.
#[local] Instance shares_dec i j c bits k : Decision (shares i j c bits k).
Proof. unfold shares. apply _. Defined.

Lemma same_loop_spec i j c ks : forall count same bits, NoDup ks ->
  (forall k, k ∈ ks -> k <> j -> bits !! k = Some true -> is_Some (head (suffix i k))) ->
  same_loop rows j (S i) c ks (count, same, bits) =
    (let group := filter (shares i j c bits) ks in
    Ok ((count + Datatypes.length group)%nat, mark true group same, mark false group bits)).
Proof.
  induction ks as [|k ks IH]; intros count same bits Hnd Hchars; [cbn zeta; rewrite filter_nil; cbn; by rewrite Nat.add_0_r|].
  apply NoDup_cons in Hnd as [Hk Hnd]. cbn [same_loop]. unfold same_step at 1. cbn zeta. rewrite filter_cons.
  destruct (decide (shares i j c bits k)) as [(Hj & Hbit & Hc)|Hno].
  - rewrite Hbit. rewrite (proj2 (Nat.eqb_neq k j) Hj). cbn [negb andb default id]. rewrite (suffix_char i k c Hc). cbn [bind]. rewrite Z.eqb_refl. cbn iota. cbn [bind].
    assert (forall k', k' ∈ ks -> <[k := false]> bits !! k' = bits !! k') as Hsame by (intros k' Hk'; apply list_lookup_insert_ne; by intros ->).
    rewrite IH; [|done|].
    + cbn zeta. assert (filter (shares i j c (<[k := false]> bits)) ks = filter (shares i j c bits) ks) as ->.
      { apply filter_ext_in. intros x Hx. unfold shares. by rewrite Hsame. }
      cbn [Datatypes.length mark]. do 2 f_equal. f_equal. lia.
    + intros k' Hk' Hne. rewrite Hsame by done. apply Hchars; [by apply elem_of_cons; right|done].
  - assert ((let! st := (if negb (k =? j)%nat && default false (bits !! k) then
        let! d := entry_char rows k (S i) in
        Ok (if d =? c then (S count, <[k := true]> same, <[k := false]> bits) else (count, same, bits)) else Ok (count, same, bits)) in
        same_loop rows j (S i) c ks st) = same_loop rows j (S i) c ks (count, same, bits)) as ->.
    { destruct (Nat.eqb_spec k j) as [->|Hne]; cbn [negb andb bind]; [done|]. destruct (bits !! k) as [[]|] eqn:Hbit; cbn [default id bind]; [|done..].
      destruct (Hchars k) as [d Hd]; [by apply elem_of_cons; left|done..|]. rewrite (suffix_char i k d Hd). cbn [bind].
      destruct (Z.eqb_spec d c) as [->|]; [|done]. exfalso. apply Hno. by split_and!. }
    apply IH; [done|]. intros k' Hk'. apply Hchars. by apply elem_of_cons; right.
Qed.

(** The entries from [j] on that are considered. *)
Definition pending (j : nat) (bits : list bool) : list nat := filter (fun x => bits !! x = Some true) (seq j (Datatypes.length named - j)).

Lemma pending_next j bits : (j < Datatypes.length named)%nat ->
  pending j bits = (if decide (bits !! j = Some true) then [j] else []) ++ pending (S j) bits.
Proof.
  intros Hj. unfold pending. replace (Datatypes.length named - j)%nat with (S (Datatypes.length named - S j)) by lia.
  cbn [seq]. rewrite filter_cons. by case_decide.
Qed.

Lemma elem_of_pending j bits x : x ∈ pending j bits <-> bits !! x = Some true /\ (j <= x < Datatypes.length named)%nat.
Proof.
  unfold pending. rewrite list_elem_of_filter, elem_of_seq. split; [intros (H & Hx & Hy); split; [done|lia]|intros (H & Hx); split; [done|lia]].
Qed.

Section step.
Context (recurse : filling -> list bool -> nat -> res filling) (this i : nat) (st : filling) (bits : list bool).

Lemma skip_entry j : (j < Datatypes.length named)%nat -> bits !! j <> Some true ->
  fill_step rows recurse this (S i) (j, st, bits) = Ok (inl (S j, st, bits)).
Proof.
  intros Hj Hbit. unfold fill_step. destruct st as [ms u]. rewrite rows_length, (proj2 (Nat.ltb_lt _ _) Hj). by destruct (bits !! j) as [[]|].
Qed.

(** The loop gets to the next entry to consider, or to the end. *)
Lemma reach_entry d : forall j, (Datatypes.length named - j = d)%nat -> (j <= Datatypes.length named)%nat ->
  match pending j bits with
  | [] => iterate (S d) (fill_step rows recurse this (S i)) (j, st, bits) = Ok st
  | x :: rest => (j <= x < Datatypes.length named)%nat /\ bits !! x = Some true /\ rest = pending (S x) bits /\
      (forall y, (j <= y < x)%nat -> bits !! y <> Some true) /\
      iterate (S d) (fill_step rows recurse this (S i)) (j, st, bits) =
      iterate (S (Datatypes.length named - x)) (fill_step rows recurse this (S i)) (x, st, bits)
  end.
Proof.
  induction d as [|d IH]; intros j Hd Hj.
  - assert (pending j bits = []) as -> by (unfold pending; by rewrite Hd). cbn [iterate]. unfold fill_step. destruct st as [ms u].
    rewrite rows_length, (proj2 (Nat.ltb_ge _ _)) by lia. done.
  - rewrite pending_next by lia. case_decide as Hbit; cbn [app].
    + split; [lia|]. split; [done|]. split; [done|]. split; [intros y Hy; lia|]. by rewrite Hd.
    + assert (iterate (S (S d)) (fill_step rows recurse this (S i)) (j, st, bits) =
        iterate (S d) (fill_step rows recurse this (S i)) (S j, st, bits)) as -> by (cbn [iterate]; rewrite skip_entry by (done || lia); done).
      specialize (IH (S j) ltac:(lia) ltac:(lia)). destruct (pending (S j) bits) as [|x rest]; [done|].
      destruct IH as (Hx & Hb & Hrest & Hskip & Heq). split; [lia|]. split; [done|]. split; [done|]. split; [|done].
      intros y Hy. destruct (decide (y = j)) as [->|]; [done|]. apply Hskip. lia.
Qed.
End step.

(** The entries that share the char of entry [x], and the others. *)
Definition with_char (i : nat) (c : Z) (l : list nat) : list nat := filter (fun k => head (suffix i k) = Some c) l.
Definition without_char (i : nat) (c : Z) (l : list nat) : list nat := filter (fun k => head (suffix i k) <> Some c) l.

Lemma pending_split x bits : (x < Datatypes.length named)%nat -> pending 0 bits = filter (fun y => bits !! y = Some true) (seq 0 x) ++ pending x bits.
Proof.
  intros Hx. unfold pending. rewrite <-filter_app. f_equal. rewrite Nat.sub_0_r. replace (Datatypes.length named) with (x + (Datatypes.length named - x))%nat at 1 by lia.
  apply seq_app.
Qed.

Lemma filter_none {A} (P : A -> Prop) `{!forall x, Decision (P x)} (l : list A) : (forall x, x ∈ l -> ~ P x) -> filter P l = [].
Proof.
  induction l as [|x l IH]; intros Hl; [done|]. rewrite filter_cons, decide_False by (apply Hl; by apply elem_of_cons; left).
  apply IH. intros y Hy. apply Hl. by apply elem_of_cons; right.
Qed.

Lemma filter_every {A} (P : A -> Prop) `{!forall x, Decision (P x)} (l : list A) : (forall x, x ∈ l -> P x) -> filter P l = l.
Proof.
  induction l as [|x l IH]; intros Hl; [done|]. rewrite filter_cons, decide_True by (apply Hl; by apply elem_of_cons; left).
  f_equal. apply IH. intros y Hy. apply Hl. by apply elem_of_cons; right.
Qed.

Section group.
Context (i x : nat) (c : Z) (bits : list bool).
Context (Hx : (x < Datatypes.length named)%nat) (Hlen : Datatypes.length bits = Datatypes.length named).
Context (Hbefore : forall y, (y < x)%nat -> bits !! y <> Some true).

Lemma group_found : filter (shares i x c bits) (seq 0 (Datatypes.length named)) = with_char i c (pending (S x) bits).
Proof.
  replace (Datatypes.length named) with (x + S (Datatypes.length named - S x))%nat by lia. rewrite seq_app, filter_app. cbn [seq Nat.add].
  rewrite filter_none, filter_cons, decide_False; [|by intros [? _]|].
  - cbn [app]. unfold with_char, pending. rewrite list_filter_filter. apply filter_ext_in. intros y Hy%elem_of_seq. unfold shares. split; [tauto|].
    intros [? ?]. split; [lia|tauto].
  - intros y Hy%elem_of_seq (_ & Hb & _). apply (Hbefore y); [lia|done].
Qed.

Let group := with_char i c (pending (S x) bits).

Lemma group_after y : y ∈ group -> (x < y < Datatypes.length named)%nat /\ bits !! y = Some true /\ head (suffix i y) = Some c.
Proof. unfold group, with_char. rewrite list_elem_of_filter, elem_of_pending. intros (? & ? & ?). split_and!; (done || lia). Qed.

Lemma group_bits : pending 0 (mark true group (<[x := true]> (replicate (Datatypes.length named) false))) = x :: group.
Proof.
  set (b := mark true group _). assert (Datatypes.length b = Datatypes.length named) as Hb by (unfold b; by rewrite mark_length, length_insert, length_replicate).
  assert (forall y, (y < Datatypes.length named)%nat -> b !! y = Some true <-> y = x \/ y ∈ group) as Hiff.
  { intros y Hy. unfold b. destruct (decide (y ∈ group)) as [Hin|Hout].
    - rewrite mark_in; [tauto|done|by rewrite length_insert, length_replicate].
    - rewrite mark_out by done. destruct (decide (y = x)) as [->|Hne].
      + rewrite list_lookup_insert_eq by (by rewrite length_replicate). tauto.
      + rewrite list_lookup_insert_ne by done. rewrite lookup_replicate_2 by done. split; [done|tauto]. }
  rewrite (pending_split x) by done. rewrite filter_none; cbn [app].
  - rewrite pending_next by done. rewrite decide_True by (apply Hiff; [done|by left]). cbn [app]. f_equal. unfold group at 1, with_char, pending.
    rewrite list_filter_filter. apply filter_ext_in. intros y Hy%elem_of_seq. rewrite Hiff by lia. unfold group, with_char.
    rewrite list_elem_of_filter, elem_of_pending. split; [intros [->|?]; [lia|tauto]|]. intros [? ?]. right. split_and!; (done || lia).
  - intros y Hy%elem_of_seq Ht. apply Hiff in Ht as [->|Ht]; [lia|apply group_after in Ht; lia|lia].
Qed.

Lemma rest_bits : pending (S x) (<[x := false]> (mark false group bits)) = without_char i c (pending (S x) bits).
Proof.
  unfold without_char, pending. rewrite list_filter_filter. apply filter_ext_in. intros y Hy%elem_of_seq.
  rewrite list_lookup_insert_ne by lia. destruct (decide (y ∈ group)) as [Hin|Hout].
  - rewrite mark_in by (done || lia). apply group_after in Hin. split; [done|tauto].
  - rewrite mark_out by done. split; [|tauto]. intros Hb. split; [|done]. intros Hh. apply Hout. unfold group, with_char.
    rewrite list_elem_of_filter, elem_of_pending. split_and!; (done || lia).
Qed.
End group.

(** What a run of the loop from entry [j] does, in terms of the names that are
    left: the tables it adds, what it keeps, and where the names then lead. *)
Definition filled_by (i this : nat) (left : list nat) (ms ms' : list (list Z)) (t : list Z) (k : nat) : Prop :=
  Datatypes.length ms' = (Datatypes.length ms + k)%nat /\
  (forall y, (y < Datatypes.length ms)%nat -> y <> this -> ms' !! y = ms !! y) /\
  (exists t', ms' !! this = Some t' /\ Datatypes.length t' = 36%nat /\
    forall c, letter c -> (forall y, y ∈ left -> head (suffix i y) <> Some c) ->
      t' !! get_mapper_idx_for_char c = t !! get_mapper_idx_for_char c) /\
  (forall y, y ∈ left -> walks ms' this (suffix i y) (color y)).

Definition fills (names : list (list Z)) (k : nat) : Prop := forall fuel i j this ms u bits t,
  names = map (suffix i) (pending j bits) -> Datatypes.length bits = Datatypes.length named -> (j <= Datatypes.length named)%nat ->
  (forall y, (y < j)%nat -> bits !! y <> Some true) ->
  (forall y, y ∈ pending j bits -> (Datatypes.length (suffix i y) <= fuel)%nat) ->
  ms !! this = Some t -> Datatypes.length t = 36%nat -> (Datatypes.length ms + k <= reserved)%nat ->
  Zlen (pending j bits) <= u < 2 ^ 32 ->
  exists ms', iterate (S (Datatypes.length named - j)) (fill_step rows (fill_maps rows fuel) this (S i)) (j, (ms, u), bits) =
      Ok (ms', u - Zlen (pending j bits)) /\
    filled_by i this (pending j bits) ms ms' t k.

Lemma fills_nil : fills [] 0.
Proof.
  intros fuel i j this ms u bits t Hnames Hlen Hj Hbefore Hfuel Ht Ht36 Hres Hu.
  pose proof (reach_entry (fill_maps rows fuel) this i (ms, u) bits _ j eq_refl Hj) as Hreach.
  destruct (pending j bits); [|done]. exists ms. rewrite Zlen_nil, Z.sub_0_r. split; [exact Hreach|]. split; [lia|]. split; [done|].
  split; [by exists t|]. intros y Hy. by apply not_elem_of_nil in Hy.
Qed.

(** Tables after the first entry's class, and then the rest. *)
Lemma filled_compose i this x c s group rest ms ms2 ms3 t t2 k1 k2 : suffix i x = c :: s -> letter c ->
  ms !! this = Some t ->
  Datatypes.length ms2 = (Datatypes.length ms + k1)%nat ->
  (forall y, (y < Datatypes.length ms)%nat -> y <> this -> ms2 !! y = ms !! y) ->
  ms2 !! this = Some t2 -> Datatypes.length t2 = 36%nat ->
  (forall d, letter d -> d <> c -> t2 !! get_mapper_idx_for_char d = t !! get_mapper_idx_for_char d) ->
  (forall y, y ∈ x :: group -> head (suffix i y) = Some c /\ walks ms2 this (suffix i y) (color y)) ->
  (forall y, y ∈ rest -> head (suffix i y) <> Some c) ->
  filled_by i this rest ms2 ms3 t2 k2 ->
  filled_by i this (x :: group ++ rest) ms ms3 t (k1 + k2).
Proof.
  intros Hxs Hc Ht Hlen2 Hframe2 Ht2 Ht36 Hother Hclass Hrest (Hlen3 & Hframe3 & (t3 & Ht3 & Ht3l & Hkeep3) & Hwalks3).
  assert (this < Datatypes.length ms)%nat as Hthis by (by apply lookup_lt_Some in Ht).
  split; [lia|]. split; [|split].
  - intros y Hy Hne. rewrite Hframe3 by (done || lia). by apply Hframe2.
  - exists t3. split; [done|]. split; [done|]. intros d Hd Hnot. assert (d <> c) as Hdc.
    { intros ->. apply (Hnot x); [by apply elem_of_cons; left|]. by rewrite Hxs. }
    rewrite Hkeep3; [by apply Hother|done|]. intros y Hy. apply Hnot. apply elem_of_cons; right. apply elem_of_app; by right.
  - intros y Hy. rewrite app_comm_cons in Hy. apply elem_of_app in Hy as [Hy|Hy]; [|by apply Hwalks3]. destruct (Hclass y Hy) as [Hh Hw].
    destruct (suffix i y) as [|c' s'] eqn:Hs; [done|]. injection Hh as ->. eapply walks_frame_first; [exact Hw| |].
    + intros t' Ht'. rewrite Ht2 in Ht'. injection Ht' as <-. exists t3. split; [done|]. by apply Hkeep3.
    + intros z Hz. apply Hframe3; lia.
Qed.

Lemma filled_by_ext i this l l' ms ms' t k : (forall y, y ∈ l <-> y ∈ l') -> filled_by i this l ms ms' t k -> filled_by i this l' ms ms' t k.
Proof.
  intros Hl (Hlen & Hframe & (t' & Ht' & Ht36 & Hkeep) & Hwalks). split; [done|]. split; [done|]. split.
  - exists t'. split; [done|]. split; [done|]. intros c Hc Hnot. apply Hkeep; [done|]. intros y Hy. by apply Hnot, Hl.
  - intros y Hy. by apply Hwalks, Hl.
Qed.

(** The tables after the class of the first entry that is left. *)
Record class_filled (i this x : nat) (c : Z) (group : list nat) (ms ms2 : list (list Z)) (t t2 : list Z) (k1 : nat) : Prop := {
  class_length : Datatypes.length ms2 = (Datatypes.length ms + k1)%nat;
  class_frame : forall y, (y < Datatypes.length ms)%nat -> y <> this -> ms2 !! y = ms !! y;
  class_table : ms2 !! this = Some t2;
  class_table_length : Datatypes.length t2 = 36%nat;
  class_keeps : forall d, letter d -> d <> c -> t2 !! get_mapper_idx_for_char d = t !! get_mapper_idx_for_char d;
  class_walks : forall y, y ∈ x :: group -> walks ms2 this (suffix i y) (color y);
}.

(** The loop from entry [x] on, given what it does with the class of [x]. *)
Lemma after_class fuel i this x c s bits ms ms2 u t t2 k1 k2 :
  let rest := pending (S x) bits in
  let group := with_char i c rest in
  let bits' := <[x := false]> (mark false group bits) in
  let u2 := u - Zlen (x :: group) in
  fills (map (suffix i) (without_char i c rest)) k2 ->
  (x < Datatypes.length named)%nat -> Datatypes.length bits = Datatypes.length named ->
  (forall y, (y < x)%nat -> bits !! y <> Some true) -> suffix i x = c :: s ->
  (forall y, y ∈ x :: rest -> (Datatypes.length (suffix i y) <= fuel)%nat) ->
  ms !! this = Some t -> (Datatypes.length ms + (k1 + k2) <= reserved)%nat -> Zlen (x :: rest) <= u < 2 ^ 32 ->
  class_filled i this x c group ms ms2 t t2 k1 ->
  fill_step rows (fill_maps rows fuel) this (S i) (x, (ms, u), bits) =
    Ok (if u2 =? 0 then inr (ms2, u2) else inl (S x, (ms2, u2), bits')) ->
  exists ms', iterate (S (Datatypes.length named - x)) (fill_step rows (fill_maps rows fuel) this (S i)) (x, (ms, u), bits) =
      Ok (ms', u - Zlen (x :: rest)) /\
    filled_by i this (x :: rest) ms ms' t (k1 + k2).
Proof.
  intros rest group bits' u2 Hrestfills Hx Hlen Hbefore Hxs Hfuel Ht Hres Hu Hclass Hstep.
  pose proof (suffix_letters i x) as Hl. rewrite Hxs in Hl. inversion Hl as [|? ? Hc _]; subst.
  assert (forall y, y ∈ x :: group ++ without_char i c rest <-> y ∈ x :: rest) as Hmem.
  { intros y. unfold group, with_char, without_char. rewrite !elem_of_cons, elem_of_app, !list_elem_of_filter.
    destruct (decide (head (suffix i y) = Some c)); tauto. }
  assert (Zlen rest = Zlen group + Zlen (without_char i c rest)) as Hcount.
  { unfold group, with_char, without_char. clear. induction rest as [|y rest IH]; [done|]. rewrite !filter_cons.
    repeat case_decide; try tauto; rewrite !Zlen_cons; lia. }
  rewrite !Zlen_cons in *. unfold u2 in *. clear u2. rewrite Zlen_cons in Hstep. pose proof (Zlen_nonneg group). pose proof (Zlen_nonneg (without_char i c rest)).
  assert (forall ms3, filled_by i this (without_char i c rest) ms2 ms3 t2 k2 -> filled_by i this (x :: rest) ms ms3 t (k1 + k2)) as Hcompose.
  { intros ms3 H3. apply (filled_by_ext _ _ _ _ _ _ _ _ Hmem). destruct Hclass as [Hl2 Hf2 Ht2 Ht36 Hk2 Hw2].
    apply (filled_compose i this x c s group _ ms ms2 ms3 t t2); try done.
    - intros y Hy. split; [|by apply Hw2]. apply elem_of_cons in Hy as [->|Hy]; [by rewrite Hxs|].
      unfold group, with_char in Hy. by apply list_elem_of_filter in Hy as [? _].
    - intros y Hy. unfold without_char in Hy. by apply list_elem_of_filter in Hy as [? _]. }
  assert (pending (S x) bits' = without_char i c rest) as Hpending by by apply rest_bits.
  assert (exists ms3, iterate (S (Datatypes.length named - S x)) (fill_step rows (fill_maps rows fuel) this (S i)) (S x, (ms2, u - (1 + Zlen group)), bits') =
      Ok (ms3, u - (1 + Zlen group) - Zlen (without_char i c rest)) /\ filled_by i this (without_char i c rest) ms2 ms3 t2 k2) as (ms3 & Hrun & H3).
  { rewrite <-Hpending in *. destruct Hclass as [Hl2 Hf2 Ht2 Ht36 Hk2 Hw2].
    apply Hrestfills; [done|unfold bits'; by rewrite length_insert, mark_length|lia| | |done|done|lia|lia].
    - intros y Hy. unfold bits'. destruct (decide (y = x)) as [->|Hne].
      + rewrite list_lookup_insert_eq by (rewrite mark_length; lia). done.
      + rewrite list_lookup_insert_ne by done. rewrite mark_out; [apply Hbefore; lia|]. intros Hin. apply list_elem_of_filter in Hin as [_ Hin].
        apply elem_of_pending in Hin. lia.
    - intros y Hy. apply Hfuel, Hmem. apply elem_of_cons; right. apply elem_of_app; by right. }
  exists ms3. split; [|by apply Hcompose]. replace (u - (1 + Zlen rest)) with (u - (1 + Zlen group) - Zlen (without_char i c rest)) by lia.
  cbn [iterate]. rewrite Hstep. destruct (Z.eqb_spec (u - (1 + Zlen group)) 0) as [Hz|Hz]; cbn [bind].
  - pose proof (reach_entry (fill_maps rows fuel) this i (ms2, u - (1 + Zlen group)) bits' _ (S x) eq_refl Hx) as Hend.
    rewrite Hpending in Hend. destruct (without_char i c rest) as [|y l]; [|rewrite Zlen_cons in *; pose proof (Zlen_nonneg l); lia].
    rewrite Hend in Hrun. exact Hrun.
  - replace (Datatypes.length named - x)%nat with (S (Datatypes.length named - S x)) by lia. exact Hrun.
Qed.

(** The step at an entry that is considered. *)
Lemma step_at recurse this i x c s ms u bits :
  let group := with_char i c (pending (S x) bits) in
  let bits' := <[x := false]> (mark false group bits) in
  suffix i x = c :: s -> (x < Datatypes.length named)%nat -> Datatypes.length bits = Datatypes.length named -> bits !! x = Some true ->
  (forall y, (y < x)%nat -> bits !! y <> Some true) -> (forall y, y ∈ pending (S x) bits -> suffix i y <> []) ->
  fill_step rows recurse this (S i) (x, (ms, u), bits) =
    (let next st := Ok (if st.2 =? 0 then inr st else inl (S x, st, bits')) in
     if bool_decide (group = []) then
       let! ms2 := set_map ms this (get_mapper_idx_for_char c) (color x) in next (ms2, u32 (u - 1))
     else
       let! ms2 := set_map (alloc_mapper ms) this (get_mapper_idx_for_char c) (16 + Z.of_nat (Datatypes.length ms)) in
       let! st := recurse (ms2, u) (mark true group (<[x := true]> (replicate (Datatypes.length named) false))) (S (S i)) in next st).
Proof.
  intros group bits' Hxs Hx Hlen Hbit Hbefore Hne. unfold fill_step. rewrite rows_length, (proj2 (Nat.ltb_lt _ _) Hx), Hbit. cbn [default id].
  rewrite (suffix_char i x c) by (by rewrite Hxs). cbn [bind].
  rewrite same_loop_spec; [|apply NoDup_seq|].
  - rewrite group_found by done. fold group. cbn zeta. cbn [bind]. cbn [Nat.add Nat.eqb].
    destruct group as [|y group'] eqn:Hg; cbn [Datatypes.length Nat.eqb].
    + rewrite bool_decide_true by done. rewrite color_char by done. cbn [bind]. destruct (set_map _ _ _ _); cbn [bind snd]; [|done..].
      by destruct (_ =? 0).
    + rewrite bool_decide_false by done. unfold alloc_mapper. rewrite length_app. cbn [Datatypes.length]. rewrite Nat.add_sub.
      destruct (set_map _ _ _ _); cbn [bind]; [|done..]. destruct (recurse _ _ _) as [[ms3 u3]| | |]; cbn [bind snd]; [|done..]. by destruct (u3 =? 0).
  - intros k Hk Hkx Hkb. apply elem_of_seq in Hk. destruct (decide (k < x)%nat) as [Hlt|Hge]; [by apply Hbefore in Hkb|].
    specialize (Hne k). rewrite elem_of_pending in Hne. destruct (suffix i k); [by destruct Hne; [split; [done|lia]|]|by eexists].
Qed.

Lemma set_map_spec ms this idx v t : (Datatypes.length ms <= reserved)%nat -> ms !! this = Some t -> (idx < Datatypes.length t)%nat -> 0 <= v < 256 ->
  set_map ms this idx v = Ok (<[this := <[idx := v]> t]> ms).
Proof.
  intros Hms Ht Hidx Hv. unfold set_map. rewrite (proj2 (Nat.ltb_ge _ _) Hms), Ht, (proj2 (Nat.ltb_lt _ _) Hidx). unfold u8. by rewrite Z.mod_small by lia.
Qed.

Lemma with_first_map i c l : with_first c (map (suffix i) l) = map (suffix i) (with_char i c l).
Proof. apply filter_map. Qed.
Lemma without_first_map i c l : without_first c (map (suffix i) l) = map (suffix i) (without_char i c l).
Proof. unfold without_first, without_char. by rewrite filter_map. Qed.

(** The first entry that is left. *)
Lemma first_left fuel i j this ms u bits c s l : (c :: s) :: l = map (suffix i) (pending j bits) -> (j <= Datatypes.length named)%nat ->
  (forall y, (y < j)%nat -> bits !! y <> Some true) ->
  exists x, pending j bits = x :: pending (S x) bits /\ suffix i x = c :: s /\ l = map (suffix i) (pending (S x) bits) /\
    (x < Datatypes.length named)%nat /\ bits !! x = Some true /\ (forall y, (y < x)%nat -> bits !! y <> Some true) /\
    iterate (S (Datatypes.length named - j)) (fill_step rows (fill_maps rows fuel) this (S i)) (j, (ms, u), bits) =
    iterate (S (Datatypes.length named - x)) (fill_step rows (fill_maps rows fuel) this (S i)) (x, (ms, u), bits).
Proof.
  intros Hnames Hj Hbefore. pose proof (reach_entry (fill_maps rows fuel) this i (ms, u) bits _ j eq_refl Hj) as Hreach.
  destruct (pending j bits) as [|x rest]; [done|]. destruct Hreach as (Hx & Hbit & -> & Hskip & Heq). cbn [map] in Hnames. injection Hnames as Hs Hl.
  exists x. split_and!; [done|done|done|lia|done| |done]. intros y Hy. destruct (decide (y < j)%nat); [by apply Hbefore|apply Hskip; lia].
Qed.

Lemma fills_one c s l k : with_first c l = [] -> Forall (fun s => s <> []) l -> fills (without_first c l) k -> fills ((c :: s) :: l) k.
Proof.
  intros Hnone Hne Hfills fuel i j this ms u bits t Hnames Hlen Hj Hbefore Hfuel Ht Ht36 Hres Hu.
  destruct (first_left fuel i j this ms u bits c s l Hnames Hj Hbefore) as (x & Hpend & Hxs & -> & Hx & Hbit & Hbx & ->).
  rewrite Hpend in *. rewrite with_first_map in Hnone. apply map_eq_nil in Hnone. rewrite without_first_map in Hfills.
  pose proof (suffix_letters i x) as Hl. rewrite Hxs in Hl. inversion Hl as [|? ? Hc _]; subst.
  pose proof (letter_index_lt c Hc) as Hidx. pose proof (color_range x) as Hcolor.
  rewrite Zlen_cons in Hu. pose proof (Zlen_nonneg (pending (S x) bits)).
  apply (after_class fuel i this x c s bits ms (<[this := <[get_mapper_idx_for_char c := color x]> t]> ms) u t (<[get_mapper_idx_for_char c := color x]> t) 0 k);
    try done; [by rewrite Zlen_cons| |].
  - assert (this < Datatypes.length ms)%nat as Hthis by (by apply lookup_lt_Some in Ht). rewrite Hnone. split.
    + by rewrite length_insert.
    + intros y Hy Hyt. by rewrite list_lookup_insert_ne.
    + by apply list_lookup_insert_eq.
    + by rewrite length_insert.
    + intros d Hd Hdc. apply list_lookup_insert_ne. intros Heq. by apply letter_index_inj in Heq.
    + intros y Hy. apply list_elem_of_singleton in Hy as ->. rewrite Hxs. eapply walks_end; [by apply list_lookup_insert_eq| |done].
      apply list_lookup_insert_eq. lia.
  - rewrite (step_at _ _ _ _ c s) by (try done; intros y Hy; rewrite Forall_forall in Hne; apply Hne, list_elem_of_fmap; by exists y).
    rewrite Hnone. rewrite bool_decide_true by done. rewrite (set_map_spec _ _ _ _ t) by (done || lia). cbn [bind]. cbn zeta. cbn [snd].
    change (Zlen [x]) with 1. by rewrite u32_small by lia.
Qed.

(** The class of [x] has a table of its own. *)
Lemma class_with_table i this x c s group ms ms3 t k :
  suffix i x = c :: s -> letter c -> ms !! this = Some t -> Datatypes.length t = 36%nat -> (Datatypes.length ms < reserved)%nat ->
  (forall y, y ∈ group -> head (suffix i y) = Some c) ->
  let t2 := <[get_mapper_idx_for_char c := 16 + Z.of_nat (Datatypes.length ms)]> t in
  filled_by (S i) (Datatypes.length ms) (x :: group) (<[this := t2]> (alloc_mapper ms)) ms3 (replicate 36 NO_MATCH) k ->
  class_filled i this x c group ms ms3 t t2 (S k).
Proof.
  intros Hxs Hc Ht Ht36 Hms Hgroup t2 (Hlen & Hframe & _ & Hwalks). pose proof (letter_index_lt c Hc) as Hidx.
  assert (this < Datatypes.length ms)%nat as Hthis by (by apply lookup_lt_Some in Ht).
  unfold alloc_mapper in *. rewrite length_insert, length_app in *. cbn [Datatypes.length] in *.
  assert (ms3 !! this = Some t2) as Ht3 by (rewrite Hframe by lia; apply list_lookup_insert_eq; rewrite length_app; cbn; lia).
  split; [lia| |done|unfold t2; by rewrite length_insert| |].
  - intros y Hy Hyt. rewrite Hframe by lia. rewrite list_lookup_insert_ne by done. by apply lookup_app_l.
  - intros d Hd Hdc. unfold t2. apply list_lookup_insert_ne. intros Heq. by apply letter_index_inj in Heq.
  - intros y Hy. assert (exists s', suffix i y = c :: s' /\ suffix (S i) y = s') as (s' & Hs & Hs').
    { assert (head (suffix i y) = Some c) as Hh by (apply elem_of_cons in Hy as [->|Hy]; [by rewrite Hxs|by apply Hgroup]).
      rewrite <-suffix_tail. destruct (suffix i y) as [|c' s']; [done|]. injection Hh as ->. by exists s'. }
    rewrite Hs. eapply (walks_next ms3 this t2 c s' (16 + Z.of_nat (Datatypes.length ms))); [done|unfold t2; apply list_lookup_insert_eq; lia|lia|lia|].
    replace (Z.to_nat (16 + Z.of_nat (Datatypes.length ms) - 16)) with (Datatypes.length ms) by lia. rewrite <-Hs'. by apply Hwalks.
Qed.

Lemma fills_many c s l k k' : with_first c l <> [] -> Forall (fun s => s <> []) l ->
  fills (map tail ((c :: s) :: with_first c l)) k -> fills (without_first c l) k' -> fills ((c :: s) :: l) (S (k + k')).
Proof.
  intros Hsome Hne Hfills1 Hfills2 fuel i j this ms u bits t Hnames Hlen Hj Hbefore Hfuel Ht Ht36 Hres Hu.
  destruct (first_left fuel i j this ms u bits c s l Hnames Hj Hbefore) as (x & Hpend & Hxs & -> & Hx & Hbit & Hbx & ->).
  rewrite Hpend in *. rewrite with_first_map in *. rewrite without_first_map in Hfills2. set (rest := pending (S x) bits) in *.
  set (group := with_char i c rest) in *.
  pose proof (suffix_letters i x) as Hl. rewrite Hxs in Hl. inversion Hl as [|? ? Hc _]; subst.
  pose proof (letter_index_lt c Hc) as Hidx. rewrite Zlen_cons in Hu. pose proof (Zlen_nonneg rest).
  assert (Forall (fun y => y ∈ rest) group /\ Zlen group <= Zlen rest) as [Hsub Hgl].
  { unfold group, with_char. clear. split; [apply Forall_forall; intros y Hy; by apply list_elem_of_filter in Hy as [_ ?]|].
    induction rest as [|y rest IH]; [done|]. rewrite filter_cons. case_decide; rewrite !Zlen_cons; lia. }
  rewrite Forall_forall in Hsub.
  assert (forall y, y ∈ group -> head (suffix i y) = Some c) as Hgroup by (intros y Hy; unfold group in Hy; by apply list_elem_of_filter in Hy as [? _]).
  destruct fuel as [|fuel]; [pose proof (Hfuel x ltac:(by apply elem_of_cons; left)) as Hf; rewrite Hxs in Hf; cbn in Hf; lia|].
  set (t2 := <[get_mapper_idx_for_char c := 16 + Z.of_nat (Datatypes.length ms)]> t).
  set (ms1 := <[this := t2]> (alloc_mapper ms)).
  assert (Datatypes.length ms1 = S (Datatypes.length ms)) as Hlen1 by (unfold ms1, alloc_mapper; rewrite length_insert, length_app; cbn; lia).
  assert (this < Datatypes.length ms)%nat as Hthis by (by apply lookup_lt_Some in Ht).
  set (same := mark true group (<[x := true]> (replicate (Datatypes.length named) false))).
  pose proof (group_bits i x c bits Hx Hlen) as Hsame. fold rest group same in Hsame.
  destruct (Hfills1 fuel (S i) 0%nat (Datatypes.length ms) ms1 u same (replicate 36 NO_MATCH)) as (ms3 & Hrun & Hby).
  - rewrite Hsame. cbn [map]. f_equal; [by rewrite <-Hxs, suffix_tail|]. rewrite map_map. apply map_ext. intros y. by rewrite suffix_tail.
  - unfold same. by rewrite mark_length, length_insert, length_replicate.
  - lia.
  - intros y Hy. lia.
  - rewrite Hsame. intros y Hy. rewrite <-suffix_tail. pose proof (Hfuel y) as Hf. destruct (suffix i y); cbn in *; [lia|].
    assert (y ∈ x :: rest) as Hin by (apply elem_of_cons in Hy as [->|Hy]; apply elem_of_cons; [by left|right; by apply Hsub]).
    specialize (Hf Hin). lia.
  - unfold ms1, alloc_mapper. rewrite list_lookup_insert_ne by lia. by rewrite lookup_app_r, Nat.sub_diag by lia.
  - done.
  - rewrite Hlen1. lia.
  - rewrite Hsame, Zlen_cons. lia.
  - rewrite Hsame in Hrun, Hby. apply (class_with_table i this x c s group ms ms3 t k) in Hby; [|done|done|done|done|lia|done].
    change (S (k + k')) with (S k + k')%nat.
    apply (after_class (S fuel) i this x c s bits ms ms3 u t t2 (S k) k'); try done; [by rewrite Zlen_cons|].
    rewrite (step_at _ _ _ _ c s) by (try done; intros y Hy; rewrite Forall_forall in Hne; apply Hne, list_elem_of_fmap; by exists y).
    fold rest group same. rewrite bool_decide_false by (intros Hnil; by rewrite Hnil in Hsome).
    rewrite (set_map_spec _ _ _ _ t); [|unfold alloc_mapper; rewrite length_app; cbn; lia|unfold alloc_mapper; by apply lookup_app_l_Some|lia|unfold reserved in *; lia].
    cbn [bind]. fold t2 ms1. cbn [fill_maps]. rewrite rows_length. cbn [fst]. rewrite Hlen1. rewrite Nat.sub_0_r in Hrun.
    cbn [Nat.sub]. rewrite Nat.sub_0_r. rewrite Hrun. done.
Qed.

Lemma tables_nonempty names k : tables names k -> Forall (fun s => s <> []) names.
Proof.
  induction 1 as [|c s l k Hnone _ IH|c s l k k' _ _ _ _ IH]; [constructor| |].
  - constructor; [done|]. apply Forall_forall. intros y Hy. destruct (decide (head y = Some c)) as [Hh|Hh].
    + by destruct y.
    + rewrite Forall_forall in IH. apply IH, list_elem_of_filter. done.
  - constructor; [done|]. apply Forall_forall. intros y Hy. destruct (decide (head y = Some c)) as [Hh|Hh].
    + by destruct y.
    + rewrite Forall_forall in IH. apply IH, list_elem_of_filter. done.
Qed.

Lemma tables_fill names k : tables names k -> fills names k.
Proof.
  intros H. induction H as [|c s l k Hnone H IH|c s l k k' Hsome H1 IH1 H2 IH2]; [apply fills_nil|..].
  - apply fills_one; [done| |done]. apply (tables_one c s) in H; [|done]. apply tables_nonempty in H. by inversion H.
  - apply fills_many; [done| |done..]. pose proof (tables_many c s l k k' Hsome H1 H2) as H. apply tables_nonempty in H. by inversion H.
Qed.

Lemma fill_maps_unfold fuel st bits i : fill_maps rows (S fuel) st bits i =
  iterate (S (Datatypes.length rows)) (fill_step rows (fill_maps rows fuel) (Datatypes.length st.1 - 1) i) (0%nat, st, bits).
Proof. done. Qed.

Lemma generated k : tables (map fst named) k -> (k < reserved)%nat -> Zlen named < 2 ^ 32 ->
  Forall (fun '(name, _) => (Datatypes.length name <= 16)%nat) named ->
  exists ms, generate_maps rows = Ok ms /\ forall name color, (name, color) ∈ named -> walks ms 0 name color.
Proof.
  intros Htables Hk Hlen Hshort.
  assert (pending 0 (replicate (Datatypes.length named) true) = seq 0 (Datatypes.length named)) as Hall.
  { unfold pending. rewrite Nat.sub_0_r. apply filter_every. intros y Hy%elem_of_seq. apply lookup_replicate_2. lia. }
  assert (map (suffix 0) (seq 0 (Datatypes.length named)) = map fst named) as Hnames.
  { apply list_eq. intros y. rewrite !list_lookup_fmap. destruct (decide (y < Datatypes.length named)%nat) as [Hy|Hy].
    - rewrite lookup_seq_lt by done. cbn. unfold suffix. destruct (lookup_lt_is_Some_2 named y Hy) as [[name c] ->]. by rewrite drop_0.
    - rewrite lookup_seq_ge by lia. rewrite lookup_ge_None_2 by lia. done. }
  destruct (tables_fill _ k Htables 16%nat 0%nat 0%nat 0%nat [replicate 36 NO_MATCH] (Z.of_nat (Datatypes.length named))
    (replicate (Datatypes.length named) true) (replicate 36 NO_MATCH)) as (ms & Hrun & (_ & _ & _ & Hwalks)).
  - by rewrite Hall.
  - by rewrite length_replicate.
  - lia.
  - intros y Hy. lia.
  - intros y Hy. unfold suffix. destruct (named !! y) as [[name c]|] eqn:Hn; [|cbn; lia]. rewrite Forall_forall in Hshort.
    apply list_elem_of_lookup_2, Hshort in Hn. by rewrite drop_0.
  - done.
  - done.
  - cbn [Datatypes.length]. lia.
  - rewrite Hall. unfold Zlen in *. rewrite length_seq. lia.
  - exists ms. split.
    + unfold generate_maps. rewrite rows_length. change 17%nat with (S 16). rewrite fill_maps_unfold, rows_length. cbn [alloc_mapper app fst Datatypes.length].
      change (1 - 1)%nat with 0%nat. rewrite Nat.sub_0_r in Hrun. by rewrite Hrun.
    + intros name c Hin. apply list_elem_of_lookup_1 in Hin as [y Hy]. pose proof (Hwalks y) as Hw. rewrite Hall, elem_of_seq in Hw.
      unfold suffix, color in Hw. rewrite Hy, drop_0 in Hw. apply Hw. apply lookup_lt_Some in Hy. lia.
Qed.
End filled.

(** ** Looking names up *)

Lemma norm_cons c text : norm (c :: text) = match norm_char c with Some d => d :: norm text | None => norm text end.
Proof. unfold norm. cbn [omap list_omap]. done. Qed.

(** Letters, digits and separators. *)
Definition name_char (c : Z) : Prop := is_Some (norm_char c) \/ c = "."%ch \/ c = "-"%ch \/ c = "_"%ch.

Lemma norm_char_range c d : norm_char c = Some d -> 0 < c < 128 /\ d <> 0.
Proof. unfold norm_char. ztest; intros [= <-]; lia. Qed.

Lemma next_name_char_spec m e text : forall p fuel, holds m p text -> Forall name_char text -> e = p + Zlen text ->
  (Datatypes.length text < fuel)%nat ->
  exists pre post, text = pre ++ post /\
    iterate fuel (name_char_step m e) p = Ok (p + Zlen pre, default 0 (head (norm text))) /\
    norm post = tail (norm text) /\ (norm text <> [] -> pre <> []).
Proof.
  induction text as [|c text IH]; intros p fuel Hm Hname He Hf; (destruct fuel as [|fuel]; [cbn in Hf; lia|]); cbn [iterate]; unfold name_char_step at 1.
  - exists [], []. rewrite Zlen_nil in *. rewrite Z.add_0_r in *. zfalse (p <? e). done.
  - rewrite Zlen_cons in He. pose proof (Zlen_nonneg text). destruct Hm as [Hc Hm]. inversion Hname as [|? ? Hcn Hn]; subst.
    ztrue (p <? p + (1 + Zlen text)). rewrite (load_Some _ _ _ Hc). cbn [bind]. rewrite norm_cons. unfold norm_char at 1 2 3.
    destruct (("a"%ch <=? c) && (c <=? "z"%ch)) eqn:H1; [exists [c], text; by split_and!|].
    destruct (("A"%ch <=? c) && (c <=? "Z"%ch)) eqn:H2; [exists [c], text; by split_and!|].
    destruct (("0"%ch <=? c) && (c <=? "9"%ch)) eqn:H3; [exists [c], text; by split_and!|].
    assert (negb (c =? "."%ch) && negb (c =? "-"%ch) && negb (c =? "_"%ch) = false) as ->.
    { unfold name_char, norm_char in Hcn. rewrite H1, H2, H3 in Hcn. destruct Hcn as [[? ?]|[->|[->| ->]]]; done. }
    cbn [bind]. destruct (IH (p + 1) fuel Hm Hn ltac:(lia)) as (pre & post & -> & Hrun & Hpost & Hpre); [cbn in Hf; lia|].
    exists (c :: pre), post. rewrite Zlen_cons. split; [done|]. split; [|by split].
    rewrite Hrun. do 2 f_equal. lia.
Qed.

Lemma next_name_char_ok m p text : holds m p text -> Forall name_char text ->
  exists pre post, text = pre ++ post /\ next_name_char m p (p + Zlen text) = Ok (p + Zlen pre, default 0 (head (norm text))) /\
    norm post = tail (norm text) /\ (norm text <> [] -> pre <> []).
Proof. intros Hm Hn. apply next_name_char_spec; [done..|]. by apply length_lt_span_fuel. Qed.

Lemma name_char_not_nul c : name_char c -> c <> 0.
Proof. unfold name_char, norm_char. intros [[d Hd]|[->|[->| ->]]]; [|done..]. intros ->. done. Qed.

(** The lookup goes the way that the tables say. *)
Lemma map_walk m ms M chars v : walks ms M chars v -> Forall letter chars -> forall text more p fuel, holds m p text -> Forall name_char text ->
  norm text = chars ++ more -> (Datatypes.length text < fuel)%nat ->
  iterate fuel (map_step m ms (p + Zlen text)) (p, M) = Ok v.
Proof.
  intros Hw. induction Hw as [M t c l v Ht Hv Hr|M t c l n v Ht Hn Hr Hlt Hw IH]; intros Hl text more p fuel Hm Hname Hnorm Hf;
    inversion Hl as [|? ? Hc Hl']; subst; (destruct fuel as [|fuel]; [lia|]); cbn [iterate]; unfold map_step at 1.
  all: destruct (next_name_char_ok m p text Hm Hname) as (pre & post & Htext & Hnext & Hpost & Hpre); rewrite Hnorm in *; cbn [app head default tail] in *.
  all: assert (exists d text', text = d :: text' /\ d <> 0 /\ m !! p = Some d) as (d & text' & Hd & Hd0 & Hmd)
    by (destruct text as [|d text']; [done|]; inversion Hname; destruct Hm; exists d, text'; split_and!; [done|by apply name_char_not_nul|done]).
  all: rewrite (load_Some _ _ _ Hmd); cbn [bind]; zfalse (d =? 0).
  all: assert (0 < Zlen text) as Hpos by (rewrite Hd, Zlen_cons; pose proof (Zlen_nonneg text'); lia).
  all: ztrue (p <? p + Zlen text); cbn [negb andb]; rewrite Hnext; cbn [bind from_option id]; unfold letter in Hc; zfalse (c =? 0); cbn [negb]; rewrite Ht.
  - rewrite Hv. ztrue (v <? 16). done.
  - rewrite Hn. zfalse (n <? 16). cbn zeta. assert (exists t', ms !! Z.to_nat (n - 16) = Some t') as [t' Ht'] by (inversion Hw; subst; by eexists).
    rewrite (proj2 (Nat.ltb_lt _ _)) by (by apply lookup_lt_Some in Ht'). cbn [bind].
    rewrite Htext in Hm, Hname, Hf |- *. apply holds_app in Hm as [_ Hm]. apply Forall_app in Hname as [_ Hname].
    rewrite Zlen_app, Z.add_assoc. apply (IH Hl' post more); [done|done|done|]. rewrite length_app in Hf.
    specialize (Hpre ltac:(done)). destruct pre; [done|]. cbn in Hf. lia.
Qed.

Lemma map_name_walk m ms chars v name text more : walks ms 0 chars v -> Forall letter chars -> holds_cstr m name text ->
  Forall name_char text -> norm text = chars ++ more -> map_name m ms name = Ok v.
Proof.
  intros Hw Hl Hcstr Hname Hnorm. unfold map_name. rewrite (is_null_or_empty_spec _ _ _ Hcstr). cbn [bind].
  assert (text <> []) as Hne by (intros ->; inversion Hw; subst; discriminate).
  rewrite bool_decide_false by done. cbn [negb precondition bind]. destruct Hcstr as (Hp & Hm & Hnul). rewrite (strlen_spec m name text) by done. cbn [bind].
  pose proof (holds_cstr_size m name text Hm) as Hsize. apply holds_app in Hm as [Hm _]. by apply (map_walk m ms 0 chars v Hw Hl text more).
Qed.

(** ** Reading a specification *)

(** A line: a spelling of a name, and a colour. *)
Definition item_text (item : list Z * Z) : list Z := item.1 ++ "="%ch :: show_unsigned item.2 ++ [LF].
Definition spec_text (items : list (list Z * Z)) : list Z := concat (map item_text items).

Definition alpha (c : Z) : Prop := 97 <= c <= 122 \/ 65 <= c <= 90.
Definition item_ok (item : list Z * Z) : Prop :=
  (exists c s, item.1 = c :: s /\ alpha c) /\ Forall name_char item.1 /\ Forall letter (norm item.1) /\
  Zlen (norm item.1) <= 14 /\ 0 <= item.2 < 16.

(** A view that reaches to [e]. *)
Definition view_to (e p : Z) : str_view := {| begin := p; length := e - p |}.

Lemma begin_at_view e p q : p <= q <= e -> begin_at (view_to e p) q = view_to e q.
Proof.
  intros H. unfold begin_at, view_to. cbn [begin length]. destruct (Z.ltb_spec p q).
  - f_equal. destruct (Z.leb_spec (e - p) (q - p)); lia.
  - zfalse (q <? p). f_equal; lia.
Qed.

Lemma view_end_to e p : view_end (view_to e p) = e.
Proof. unfold view_end, view_to. cbn [begin length]. lia. Qed.

Lemma name_char_alnum c : name_char c ->
  isalnum c = Ok (is_ascii_alphanumeric c) /\ is_ascii_alphanumeric c || (c =? "."%ch) || (c =? "-"%ch) || (c =? "_"%ch) = true.
Proof.
  unfold name_char, isalnum. intros [[d Hd]|[->|[->| ->]]]; [|done..]. pose proof (norm_char_range c d Hd) as [Hr _]. ztrue (-1 <=? c). ztrue (c <=? 255).
  split; [done|]. unfold norm_char in Hd. unfold is_ascii_alphanumeric, is_ascii_alpha, is_ascii_digit, is_ascii_lower, is_ascii_upper.
  ztest_in Hd; ztest; lia.
Qed.

Section reading_spec.
Context (m : mem) (e : Z).

Lemma find_name_spec p lead s tl : holds m p (lead ++ s ++ "="%ch :: tl) -> lead = [] \/ lead = [LF] -> (exists c s', s = c :: s' /\ alpha c) ->
  Forall name_char s -> p <> 0 -> p + Zlen lead <> 0 -> e = p + Zlen (lead ++ s ++ "="%ch :: tl) ->
  find_next_name m (view_to e p) = Ok (true, view_to e (p + Zlen lead + Zlen s), {| begin := p + Zlen lead; length := Zlen s |}).
Proof.
  intros Hm Hlead (c & s' & Hs & Hc) Hname Hp Hq He. unfold find_next_name. rewrite view_end_to. cbn [begin view_to].
  set (q := p + Zlen lead) in *. rewrite !Zlen_app, Zlen_cons in He. pose proof (Zlen_nonneg lead). pose proof (Zlen_nonneg s). pose proof (Zlen_nonneg tl).
  apply holds_app in Hm as [Hmlead Hm]. fold q in Hm. assert (0 < Zlen s) by (rewrite Hs, Zlen_cons; pose proof (Zlen_nonneg s'); lia).
  assert (forall fuel, (0 < fuel)%nat -> iterate fuel (fun p => if p <? e then let! c := load m p in
      if (("a"%ch <=? c) && (c <=? "z"%ch)) || (("A"%ch <=? c) && (c <=? "z"%ch)) then Ok (inr (p, true)) else Ok (inl (p + 1))
      else Ok (inr (p, false))) q = Ok (q, true)) as Hfirst.
  { intros [|fuel] Hf; [lia|]. cbn [iterate]. ztrue (q <? e). rewrite Hs in Hm. destruct Hm as [Hmc _]. rewrite (load_Some _ _ _ Hmc). cbn [bind].
    unfold alpha in Hc. replace ((("a"%ch <=? c) && (c <=? "z"%ch)) || (("A"%ch <=? c) && (c <=? "z"%ch))) with true by (symmetry; ztest). done. }
  assert (iterate (span_fuel p e) (fun p => if p <? e then let! c := load m p in
      if (("a"%ch <=? c) && (c <=? "z"%ch)) || (("A"%ch <=? c) && (c <=? "z"%ch)) then Ok (inr (p, true)) else Ok (inl (p + 1))
      else Ok (inr (p, false))) p = Ok (q, true)) as ->.
  { destruct Hlead as [->| ->].
    - unfold q in *. rewrite Zlen_nil, Z.add_0_r in *. apply Hfirst. unfold span_fuel. lia.
    - change (Zlen [LF]) with 1 in *. unfold span_fuel. cbn [iterate]. ztrue (p <? e). destruct Hmlead as [Hlf _]. rewrite (load_Some _ _ _ Hlf). cbn [bind].
      change ((("a"%ch <=? LF) && (LF <=? "z"%ch)) || (("A"%ch <=? LF) && (LF <=? "z"%ch))) with false. cbn [bind]. apply Hfirst. lia. }
  cbn [bind negb]. rewrite begin_at_view by lia. apply holds_app in Hm as [Hms [Heq _]].
  assert (forall l r fuel, holds m r l -> Forall name_char l -> r + Zlen l = q + Zlen s -> q <= r -> (Datatypes.length l < fuel)%nat ->
    iterate fuel (fun p => if p <? e then let! c := load m p in let! alnum := isalnum c in
        if alnum || (c =? "."%ch) || (c =? "-"%ch) || (c =? "_"%ch) then Ok (inl (p + 1))
        else Ok (inr (end_at {| begin := q; length := 0 |} p, begin_at (view_to e q) p))
      else Ok (inr ({| begin := q; length := 0 |}, view_to e q))) r =
      Ok ({| begin := q; length := Zlen s |}, view_to e (q + Zlen s))) as Hsecond.
  { induction l as [|d l IH]; intros r fuel Hl Hn Hr Hqr Hf; (destruct fuel as [|fuel]; [cbn in Hf; lia|]); cbn [iterate].
    - rewrite Zlen_nil, Z.add_0_r in Hr. subst r. ztrue (q + Zlen s <? e). rewrite (load_Some _ _ _ Heq). cbn [bind]. change (isalnum "="%ch) with (Ok false). cbn [bind].
      change (false || ("="%ch =? "."%ch) || ("="%ch =? "-"%ch) || ("="%ch =? "_"%ch)) with false. cbn [bind].
      rewrite begin_at_view by lia. unfold end_at. cbn [begin]. zfalse (q =? 0). cbn [negb]. ztrue (q <=? q + Zlen s). do 2 f_equal. f_equal. lia.
    - rewrite Zlen_cons in Hr. pose proof (Zlen_nonneg l). destruct Hl as [Hd Hl]. apply Forall_cons in Hn as [Hdn Hn'].
      ztrue (r <? e). rewrite (load_Some _ _ _ Hd). cbn [bind]. destruct (name_char_alnum d Hdn) as [-> Hb]. cbn [bind]. rewrite Hb. cbn [bind].
      apply IH; (done || lia || (cbn in Hf; lia)). }
  rewrite (Hsecond s q); [done|done|done|done|lia|unfold span_fuel, Zlen in *; lia].
Qed.

Lemma show_small v : 0 <= v < 16 -> show_unsigned v = if v <? 10 then [48 + v] else [49; 48 + (v - 10)].
Proof.
  intros Hv. assert (Forall (fun v => show_unsigned v = if v <? 10 then [48 + v] else [49; 48 + (v - 10)]) (seqZ 0 16)) as H by decided.
  rewrite Forall_forall in H. apply H, elem_of_seqZ. lia.
Qed.

Lemma find_value_spec p v tl : holds m p ("="%ch :: show_unsigned v ++ LF :: tl) -> 0 <= v < 16 ->
  e = p + Zlen ("="%ch :: show_unsigned v ++ LF :: tl) ->
  find_next_value m (view_to e p) = Ok (view_to e (p + 1 + Zlen (show_unsigned v)), Some v).
Proof.
  intros [Heq Hm] Hv He. unfold find_next_value. rewrite view_end_to. cbn [begin view_to]. rewrite show_small in * by done.
  rewrite Zlen_cons, Zlen_app, Zlen_cons in He. pose proof (Zlen_nonneg tl).
  unfold span_fuel. replace (Z.to_nat (e - p)) with (S (Z.to_nat (e - p - 1))) by (pose proof (Zlen_nonneg (if v <? 10 then [48 + v] else [49; 48 + (v - 10)])); lia).
  destruct (Z.ltb_spec v 10) as [Hlt|Hge]; cbn [app] in Hm; [change (Zlen [48 + v]) with 1 in *|change (Zlen [49; 48 + (v - 10)]) with 2 in *];
    cbn [iterate]; ztrue (p <? e); rewrite (load_Some _ _ _ Heq); cbn [bind]; change ("="%ch =? "="%ch) with true; cbn [bind]; ztrue (p + 1 <? e);
    rewrite begin_at_view by lia.
  - destruct Hm as (Hd & Hlf & _). rewrite (load_Some _ _ _ Hd). cbn [bind]. zfalse (48 + v =? "="%ch). zfalse (48 + v =? " "%ch). cbn [negb orb].
    zfalse (48 + v <? "0"%ch). zfalse ("9"%ch <? 48 + v). cbn [orb]. ztrue (p + 1 + 1 <? e). rewrite (load_Some _ _ _ Hlf). cbn [bind].
    change (("0"%ch <=? LF) && (LF <=? "9"%ch)) with false. cbn [bind]. rewrite begin_at_view by lia. do 3 f_equal. unfold u8. rewrite Z.mod_small; lia.
  - destruct Hm as (Hd & Hd2 & Hlf & _). rewrite (load_Some _ _ _ Hd). cbn [bind]. change (49 =? "="%ch) with false. change (49 =? " "%ch) with false. cbn [negb orb].
    change (49 <? "0"%ch) with false. change ("9"%ch <? 49) with false. cbn [orb]. ztrue (p + 1 + 1 <? e). rewrite (load_Some _ _ _ Hd2). cbn [bind].
    ztrue ("0"%ch <=? 48 + (v - 10)). ztrue (48 + (v - 10) <=? "9"%ch). cbn [andb bind]. rewrite begin_at_view by lia.
    replace (p + 1 + 1 + 1) with (p + 1 + 2) by lia. do 3 f_equal. change (u8 (49 - "0"%ch)) with 1. unfold u8. rewrite Z.mod_small; lia.
Qed.

(** No name, only the end of the last line. *)
Lemma find_no_name p lead : holds m p lead -> lead = [] \/ lead = [LF] -> e = p + Zlen lead ->
  find_next_name m (view_to e p) = Ok (false, view_to e p, view_null).
Proof.
  intros Hm Hlead He. unfold find_next_name. rewrite view_end_to. cbn [begin view_to]. destruct Hlead as [->| ->].
  - rewrite Zlen_nil, Z.add_0_r in He. unfold span_fuel. cbn [iterate]. by zfalse (p <? e).
  - change (Zlen [LF]) with 1 in He. unfold span_fuel. replace (Z.to_nat (e - p)) with 1%nat by lia. cbn [iterate]. ztrue (p <? e). destruct Hm as [Hlf _].
    rewrite (load_Some _ _ _ Hlf). cbn [bind]. change ((("a"%ch <=? LF) && (LF <=? "z"%ch)) || (("A"%ch <=? LF) && (LF <=? "z"%ch))) with false. cbn [bind].
    by zfalse (p + 1 <? e).
Qed.

Lemma copy_loop q todo : forall text p dest fuel, holds m p text -> Forall name_char text -> p + Zlen text = q -> Forall letter todo ->
  norm text = tail todo -> Zlen dest + Zlen todo <= 14 -> (Datatypes.length todo < fuel)%nat ->
  iterate fuel (fun '(p, c, dest) =>
    if negb (c =? 0) && (Zlen dest <? 14) then let! (p, c') := next_name_char m p q in Ok (inl (p, c', dest ++ [c]))
    else Ok (inr (dest ++ [0]))) (p, default 0 (head todo), dest) = Ok (dest ++ todo ++ [0]).
Proof.
  induction todo as [|c todo IH]; intros text p dest fuel Hm Hname Hq Hl Hnorm Hlen Hf; (destruct fuel as [|fuel]; [cbn in Hf; lia|]); cbn [iterate].
  - done.
  - apply Forall_cons in Hl as [Hc Hl]. cbn [head default from_option id tail] in *. unfold letter in Hc. zfalse (c =? 0). rewrite Zlen_cons in Hlen.
    pose proof (Zlen_nonneg todo). ztrue (Zlen dest <? 14). cbn [negb andb].
    destruct (next_name_char_ok m p text Hm Hname) as (pre & post & -> & Hnext & Hpost & _). rewrite Hq in Hnext. rewrite Hnext. cbn [bind].
    rewrite Hnorm in *. apply holds_app in Hm as [_ Hm]. apply Forall_app in Hname as [_ Hname]. rewrite Zlen_app, Z.add_assoc in Hq.
    change (fun x : Z => x) with (@id Z). rewrite (IH post); [|done..|rewrite Zlen_app; change (Zlen [c]) with 1; lia|cbn in Hf; lia]. by rewrite <-app_assoc.
Qed.

Lemma copy_name_spec p s : holds m p s -> Forall name_char s -> Forall letter (norm s) -> Zlen (norm s) <= 14 ->
  copy_name m {| begin := p; length := Zlen s |} = Ok (norm s ++ [0]).
Proof.
  intros Hm Hname Hl Hlen. unfold copy_name. change (view_end {| begin := p; length := Zlen s |}) with (p + Zlen s). cbn [begin].
  destruct (next_name_char_ok m p s Hm Hname) as (pre & post & -> & Hnext & Hpost & _). rewrite Hnext. cbn [bind].
  apply holds_app in Hm as [_ Hm]. apply Forall_app in Hname as [_ Hname].
  rewrite (copy_loop (p + Zlen (pre ++ post)) (norm (pre ++ post)) post); [done|done|done|rewrite Zlen_app; lia|done|done|done|].
  unfold Zlen in Hlen. lia.
Qed.
End reading_spec.

(** The names of a specification in lower case. *)
Definition named_of (items : list (list Z * Z)) : list (list Z * Z) := map (fun item => (norm item.1, item.2)) items.

Lemma entry_step_spec m e p lead item rest entries : holds m p (lead ++ item_text item ++ rest) -> lead = [] \/ lead = [LF] -> 0 < p ->
  e = p + Zlen (lead ++ item_text item ++ rest) -> item_ok item -> Zlen entries < 240 ->
  entry_step m (view_to e p, entries) =
    Ok (inl (view_to e (p + Zlen lead + Zlen item.1 + 1 + Zlen (show_unsigned item.2)), entries ++ [item.2 :: norm item.1 ++ [0]])).
Proof.
  destruct item as [s v]. unfold item_text, item_ok. cbn [fst snd]. intros Hm Hlead Hp He (Hs & Hname & Hl & Hlen & Hv) Hcount.
  rewrite <-app_assoc in Hm, He. cbn [app] in Hm, He. rewrite <-app_assoc in Hm, He. cbn [app] in Hm, He.
  pose proof (Zlen_nonneg lead). unfold entry_step.
  rewrite (find_name_spec m e p lead s (show_unsigned v ++ LF :: rest)); [|done|done|done|done|lia|lia|done].
  cbn [bind]. ztrue (Zlen entries <=? 240). cbn [andb]. rewrite Zlen_app, Zlen_app in He.
  apply holds_app in Hm as [_ Hm]. apply holds_app in Hm as [Hms Hm].
  rewrite (find_value_spec m e _ v rest Hm Hv) by lia. cbn [bind]. rewrite bool_decide_true by done. cbn [precondition bind].
  ztrue (Zlen entries <? 240). rewrite (copy_name_spec m _ s Hms Hname Hl Hlen). cbn [bind default from_option id].
  assert (to_char v = v) as -> by (unfold to_char; rewrite Z.mod_small; lia). done.
Qed.

Lemma read_entries m e items : forall p lead entries fuel, holds m p (lead ++ spec_text items) -> lead = [] \/ lead = [LF] -> 0 < p ->
  e = p + Zlen (lead ++ spec_text items) -> Forall item_ok items -> Zlen entries + Zlen items <= 240 -> (Datatypes.length items < fuel)%nat ->
  iterate fuel (entry_step m) (view_to e p, entries) = Ok (entries ++ rows (named_of items)).
Proof.
  induction items as [|item items IH]; intros p lead entries fuel Hm Hlead Hp He Hok Hcount Hf; (destruct fuel as [|fuel]; [cbn in Hf; lia|]); cbn [iterate].
  - unfold spec_text in *. cbn [map concat] in *. rewrite app_nil_r in *. unfold entry_step. rewrite (find_no_name m e p lead Hm Hlead He).
    unfold named_of, rows. cbn [map bind andb]. done.
  - apply Forall_cons in Hok as [Hitem Hok]. rewrite Zlen_cons in Hcount. pose proof (Zlen_nonneg items). unfold spec_text in *. cbn [map concat] in *.
    rewrite (entry_step_spec m e p lead item (concat (map item_text items)) entries) by (done || lia). cbn [bind].
    unfold item_text in Hm, He at 1. rewrite Zlen_app, Zlen_app, Zlen_app, Zlen_cons, Zlen_app in He.
    repeat (rewrite <-app_assoc in Hm; cbn [app] in Hm). apply holds_app in Hm as [_ Hm]. apply holds_app in Hm as [_ [_ Hm]]. apply holds_app in Hm as [_ Hm].
    pose proof (Zlen_nonneg lead). pose proof (Zlen_nonneg item.1). pose proof (Zlen_nonneg (show_unsigned item.2)).
    rewrite (IH _ [LF]); [by rewrite <-app_assoc|exact Hm|by right|lia| |done| |cbn in Hf; lia].
    + rewrite Zlen_app. lia.
    + rewrite Zlen_app. change (Zlen [_]) with 1. lia.
Qed.

Lemma items_named items : Forall item_ok items -> Forall (fun '(name, color) => Forall letter name /\ 0 <= color < 16) (named_of items) /\
  Forall (fun '(name, _) => (Datatypes.length name <= 16)%nat) (named_of items).
Proof.
  intros Hok. unfold named_of. split; apply Forall_map; (eapply Forall_impl; [exact Hok|]); intros [s v] (_ & _ & Hl & Hlen & Hv); cbn [fst snd] in *.
  - done.
  - unfold Zlen in Hlen. lia.
Qed.

(** C23: a specification of at most 240 lines, each a name that starts with a letter and has at most 14 letters,
    with dots, hyphens and underscores between them and no digit, an equal sign and a colour from 0 to 15, makes a
    palette, when no name starts another and the names need fewer than eight tables besides the first; and in that
    palette every spelling of each name, in any case, with any separators, and with any letters, digits and
    separators behind it, is mapped to the colour of that name. Of digits, which the parser of names accepts,
    nothing is said: they index outside a table (palette_undefined). *)
Theorem palette_maps_names m spec items :
  shows m spec (spec_text items) -> items <> [] -> Zlen items <= 240 -> Forall item_ok items ->
  prefix_free (map (fun item => norm item.1) items) -> (table_count (map (fun item => norm item.1) items) < 8)%nat ->
  exists mappers, new_palette m spec = Ok mappers /\
    forall m' name text item more, item ∈ items -> holds_cstr m' name text -> Forall name_char text ->
      norm text = norm item.1 ++ more -> map_name m' mappers name = Ok item.2.
Proof.
  intros (Hb & Hlen & Hm) Hne Hcount Hok Hfree Hk. pose proof (tables_counted _ _ (le_n _) Hfree) as Htables.
  fold (table_count (map (fun item => norm item.1) items)) in Htables. set (k := table_count _) in *. destruct (items_named items Hok) as [Hnamed Hshort].
  assert (Zlen (named_of items) = Zlen items) as Hnl by (unfold Zlen, named_of; by rewrite length_map).
  destruct (generated (named_of items) Hnamed k) as (ms & Hgen & Hwalks).
  - unfold named_of. rewrite map_map. exact Htables.
  - unfold reserved. lia.
  - lia.
  - done.
  - exists ms. split.
    + assert (0 < Zlen (spec_text items)) as Hpos.
      { destruct items as [|item items]; [done|]. unfold spec_text, item_text. cbn [map concat]. rewrite !Zlen_app, Zlen_cons.
        pose proof (Zlen_nonneg item.1). pose proof (Zlen_nonneg (show_unsigned item.2 ++ [LF])). pose proof (Zlen_nonneg (concat (map item_text items))).
        unfold item_text in *. lia. }
      unfold new_palette, view_bool, is_empty. zfalse (length spec =? 0). cbn [negb precondition bind].
      assert (spec = view_to (view_end spec) (begin spec)) as Hspec by (destruct spec as [b n]; unfold view_to, view_end; cbn; f_equal; lia).
      rewrite Hspec at 3. rewrite (read_entries m (view_end spec) items (begin spec) []); [done|done|by left|done| |done|rewrite Zlen_nil; lia|].
      * unfold view_end. rewrite Hlen. done.
      * assert (Zlen items <= Zlen (spec_text items)); [|unfold span_fuel, view_end, Zlen in *; lia]. clear. induction items as [|item items IH]; [done|].
        unfold spec_text, item_text in *. cbn [map concat]. rewrite Zlen_app, !Zlen_cons, Zlen_app, Zlen_cons.
        pose proof (Zlen_nonneg item.1). pose proof (Zlen_nonneg (show_unsigned item.2 ++ [LF])). lia.
    + intros m' name text [s v] more Hitem Hcstr Hname Hnorm. assert ((norm s, v) ∈ named_of items) as Hin by (apply list_elem_of_fmap; by exists (s, v)).
      rewrite Forall_forall in Hnamed. apply (map_name_walk m' ms (norm s) v name text more); [by apply Hwalks|by apply (Hnamed _ Hin)|done..].
Qed.

Lemma palette_maps_names_witness :
  let spec := str "Note=3" ++ [LF] ++ str "see-also=12" ++ [LF] ++ str "normal=8" ++ [LF] in
  let m := map_seqZ 1000 spec in
  exists mappers, new_palette m {| begin := 1000; length := Zlen spec |} = Ok mappers /\ map_name (cstr_at 16 "N.o_t-ES") mappers 16 = Ok 3.
Proof.
  intros spec m. destruct (palette_maps_names m {| begin := 1000; length := Zlen spec |} [(str "Note", 3); (str "see-also", 12); (str "normal", 8)])
    as (mappers & Hnew & Hmap).
  - split; [cbn; lia|]. split; [reflexivity|decided].
  - discriminate.
  - vm_compute. discriminate.
  - repeat (apply Forall_cons; split); [..|constructor]; unfold item_ok; cbn [fst snd].
    all: match goal with |- context [str ?s] => let l := eval vm_compute in (str s) in change (str s) with l end.
    all: split; [eexists _, _; split; [reflexivity|unfold alpha; lia]|split; [|split; [|split; [vm_compute; discriminate|lia]]]].
    all: try (match goal with |- Forall letter ?l => let l' := eval vm_compute in l in change l with l' end).
    all: repeat (apply Forall_cons; split; [first [unfold letter; lia|left; eexists; reflexivity|right; tauto]|]); constructor.
  - decided.
  - vm_compute. lia.
  - exists mappers. split; [exact Hnew|].
    apply (Hmap (cstr_at 16 "N.o_t-ES") 16 (str "N.o_t-ES") (str "Note", 3) (str "s")).
    + by left.
    + split; [lia|]. split; [decided|]. unfold no_nul. by decided.
    + change (str "N.o_t-ES") with [78; 46; 111; 95; 116; 45; 69; 83].
      repeat (apply Forall_cons; split; [first [left; eexists; reflexivity|right; tauto]|]); constructor.
    + reflexivity.
Defined.
