(* ===== verification/Console.v ===== *)
(** * The console: core/cli/ansi_color.h/.cpp and .tuples, and core/cli/tty.cpp

    What the system says of a file descriptor is an argument. *)

From stdpp Require Import base tactics list strings.
From Stdlib Require Import ZArith Lia.
From S2P Require Import Prelude.
#[local] Open Scope Z_scope.

(** ** Colours *)

(** The name of a colour and the two numbers of its escape sequence. *)
Definition ansi_colors : list (string * (Z * Z)) :=
 [
  ("black"%string, (0, 30)); ("maroon"%string, (0, 31)); ("green"%string, (0, 32)); ("olive"%string, (0, 33));
  ("navy"%string, (0, 34)); ("gray"%string, (1, 30)); ("purple"%string, (0, 35)); ("teal"%string, (0, 36));
  ("silver"%string, (0, 37)); ("red"%string, (1, 31)); ("lime"%string, (1, 32)); ("yellow"%string, (1, 33));
  ("blue"%string, (1, 34)); ("fuschia"%string, (1, 35)); ("aqua"%string, (1, 36)); ("white"%string, (1, 37))
 ].

Definition decimal2 (n : Z) : list Z :=
  if n <? 10 then ["0"%ch + n] else ["0"%ch + n / 10; "0"%ch + n mod 10].
Definition ANSI_ESCAPE_PREFIX : list Z := [27; "["%ch].
Definition ANSI_ESCAPE (hi lo : Z) : list Z :=
  ANSI_ESCAPE_PREFIX ++ decimal2 hi ++ [";"%ch] ++ decimal2 lo ++ ["m"%ch].
Definition RESET_COLOR : list Z := ANSI_ESCAPE_PREFIX ++ str "0m".

Definition ansi_color_names : list (list Z) := map (fun c => str c.1) ansi_colors.
Definition ansi_color_esc_seqs : list (list Z) := map (fun c => ANSI_ESCAPE c.2.1 c.2.2) ansi_colors.

(** Reading past the end of a table is undefined. *)
Definition at_index (l : list (list Z)) (i : Z) : res (list Z) :=
  match l !! Z.to_nat i with Some s => Ok s | None => Undef end.

Definition get_ansi_color_name (which : Z) : res (list Z) :=
  if which <=? 15 then at_index ansi_color_names which else Ok [].
Definition get_ansi_color_esc_seq (which : Z) : res (list Z) :=
  if which <=? 15 then at_index ansi_color_esc_seqs which else Ok [].

(** ** The terminal *)

Record winsize : Type := { ws_row : Z; ws_col : Z }.

Definition STDIN_FILE_DESCRIPTOR : Z := 0.
Definition STDOUT_FILE_DESCRIPTOR : Z := 1.
Definition STDERR_FILE_DESCRIPTOR : Z := 2.

Section tty.
(** [ioctl] gives [None] when it fails, and then leaves the struct as it was: unset, [garbage]. *)
Context (isatty : Z -> Z) (ioctl_winsize : Z -> option winsize) (garbage : winsize).

Definition is_a_tty (file_desc : Z) : bool := negb (isatty file_desc =? 0).
Definition window : winsize := default garbage (ioctl_winsize STDOUT_FILE_DESCRIPTOR).
Definition get_tty_column_count : Z := if is_a_tty STDOUT_FILE_DESCRIPTOR then ws_col window else 0.
Definition get_tty_row_count : Z := if is_a_tty STDOUT_FILE_DESCRIPTOR then ws_row window else 0.
End tty.

(** * Properties of the tables *)

(** Every number gives a name and a sequence, and no two colours share either. *)
Lemma colors_total which : 0 <= which ->
  exists name seq, get_ansi_color_name which = Ok name /\ get_ansi_color_esc_seq which = Ok seq /\
    (name = [] <-> 15 < which) /\ (seq = [] <-> 15 < which).
Proof.
  intros Hw. unfold get_ansi_color_name, get_ansi_color_esc_seq. destruct (Z.leb_spec which 15).
  - assert (exists i : nat, which = Z.of_nat i /\ (i < 16)%nat) as (i & -> & Hi) by (exists (Z.to_nat which); lia).
    unfold at_index. rewrite Nat2Z.id. do 16 (destruct i as [|i]; [eexists _, _; split; [reflexivity|split; [reflexivity|]]; split; (split; [discriminate|lia])|]). lia.
  - exists [], []. split; [done|split; [done|]]. split; by split.
Qed.

Lemma colors_distinct : NoDup ansi_color_names /\ NoDup ansi_color_esc_seqs.
Proof. split; decided. Qed.
