(* ===== verification/Files.v ===== *)
(** * Files: core/io/ioutil.h/.cpp, core/data/xsv.h/.cpp and core/dev/space.h/.cpp

    The C library's files: a disk maps paths to bytes, and a [FILE *] is [None] for
    null or the handle of an open stream.  A path is the string its [c_str] gives;
    whether the system lets a path be opened, and what Boost does with paths, are
    arguments. *)

From stdpp Require Import base tactics list gmap strings.
From Stdlib Require Import ZArith Lia.
From S2P Require Import Prelude CString StrView.
#[local] Open Scope Z_scope.

(** ** The C library's streams *)

Record stream : Type := {
  path : list Z;
  pos : Z;
}.

Record system : Type := {
  disk : gmap (list Z) (list Z);
  streams : gmap positive stream;
}.

Definition FILE : Type := option positive.

Definition with_disk (s : system) (d : gmap (list Z) (list Z)) : system :=
  {| disk := d; streams := streams s |}.
Definition with_streams (s : system) (o : gmap positive stream) : system :=
  {| disk := disk s; streams := o |}.
Definition open_stream (s : system) (p : list Z) : FILE * system :=
  let h := fresh (dom (streams s)) in
  (Some h, with_streams s (<[h := {| path := p; pos := 0 |}]> (streams s))).

(** [fopen] in the modes the code uses: "r" needs the file, "w" empties it. *)
Inductive file_mode : Type := mode_r | mode_w.

Definition fopen (can_open : list Z -> file_mode -> bool) (s : system) (p : list Z) (mode : file_mode) : FILE * system :=
  if can_open p mode then
    match mode with
    | mode_r => match disk s !! p with Some _ => open_stream s p | None => (None, s) end
    | mode_w => open_stream (with_disk s (<[p := []]> (disk s))) p
    end
  else (None, s).

(** The calls on a stream are undefined on null and on a stream that is not open. *)
Definition stream_of (s : system) (f : FILE) : res (positive * stream) :=
  match f with
  | Some h => match streams s !! h with Some x => Ok (h, x) | None => Undef end
  | None => Undef
  end.

Definition fclose (s : system) (f : FILE) : res system :=
  let! (h, _) := stream_of s f in Ok (with_streams s (delete h (streams s))).

Definition bytes_of (s : system) (x : stream) : list Z := default [] (disk s !! path x).

Definition fseek_end (s : system) (f : FILE) : res system :=
  let! (h, x) := stream_of s f in
  Ok (with_streams s (<[h := {| path := path x; pos := Zlen (bytes_of s x) |}]> (streams s))).
Definition fseek_set (s : system) (f : FILE) : res system :=
  let! (h, x) := stream_of s f in
  Ok (with_streams s (<[h := {| path := path x; pos := 0 |}]> (streams s))).
Definition ftell (s : system) (f : FILE) : res Z := let! (_, x) := stream_of s f in Ok (pos x).

(** At most [n] bytes from where the stream is. *)
Definition fread (s : system) (f : FILE) (n : Z) : res (list Z * system) :=
  let! (h, x) := stream_of s f in
  let l := take (Z.to_nat n) (drop (Z.to_nat (pos x)) (bytes_of s x)) in
  Ok (l, with_streams s (<[h := {| path := path x; pos := pos x + Zlen l |}]> (streams s))).

(** ** [c_file] and the functions of ioutil *)

Module IoUtil.

Record c_file : Type := { f : FILE }.

Section ioutil.
Context (can_open : list Z -> file_mode -> bool).

Definition c_file_of (x : FILE) : c_file := {| f := x |}.
Definition c_file_open (s : system) (fpath : list Z) (mode : file_mode) : c_file * system :=
  let '(x, s) := fopen can_open s fpath mode in (c_file_of x, s).
Definition c_file_bool (c : c_file) : bool := bool_decide (is_Some (f c)).
Definition c_file_destroy (s : system) (c : c_file) : res system :=
  match f c with Some _ => fclose s (f c) | None => Ok s end.

(** The overload of [fclose]. *)
Definition fclose_c_file (s : system) (c : c_file) : res (c_file * system) :=
  let! s := fclose s (f c) in Ok ({| f := None |}, s).

(** The bytes read into a container of [size] elements that are 0 before. *)
Definition filled (size : Z) (l : list Z) : list Z := l ++ replicate (Z.to_nat (size - Zlen l)) 0.

(** The body of both read functions; [elem] is the element a byte makes. *)
Definition read_file (elem : Z -> Z) (s : system) (fpath : list Z) (max_size : Z) : res (list Z * system) :=
  let '(c, s) := c_file_open s fpath mode_r in
  let! (bytes, s) :=
    if c_file_bool c then
      let! s := fseek_end s (f c) in
      let! size := ftell s (f c) in
      if u64 size <? max_size then
        let! s := fseek_set s (f c) in
        if 0 <? u64 size then
          let! (l, s) := fread s (f c) (u64 size) in Ok (filled (u64 size) (map elem l), s)
        else Ok ([], s)
      else Ok ([], s)
    else Ok ([], s) in
  let! s := c_file_destroy s c in Ok (bytes, s).

Definition read_binary_file : system -> list Z -> Z -> res (list Z * system) := read_file u8.
Definition read_text_file : system -> list Z -> Z -> res (list Z * system) := read_file to_char.

Definition file_delete_on_exit_destroy (s : system) (fpath : list Z) : system :=
  with_disk s (delete fpath (disk s)).

(** [temp_path] is what [unique_path] makes up. *)
Definition easy_temp_c_file (s : system) (temp_path : list Z) : (c_file * list Z) * system :=
  let '(x, s) := fopen can_open s temp_path mode_w in ((c_file_of x, temp_path), s).
End ioutil.
End IoUtil.

(** ** [xsv_reader] *)

Module Xsv.

Definition MAX_RECORD_SIZE : Z := 1024 * 1024.
Definition INITIAL_ALLOCED_SIZE : Z := 8 * 1024.

(** The null pointer is 0; [f] is a stream, [buf], [p] and [e] point into memory. *)
Record data_t : Type := {
  file : FILE;
  buf : Z;
  p : Z;
  e : Z;
  alloced_size : Z;
  content_size : Z;
  fields : list (Z * Z);
  delim : Z;
}.

Definition data_init (c : Z) : data_t :=
  {| file := None; buf := 0; p := 0; e := 0; alloced_size := 0; content_size := 0; fields := []; delim := c |}.

(** The memory, the open streams and the [data_t]s on the heap. *)
Record world : Type := {
  memory : mem;
  sys : system;
  datas : gmap Z data_t;
}.
Definition with_data (w : world) (a : Z) (d : data_t) : world :=
  {| memory := memory w; sys := sys w; datas := <[a := d]> (datas w) |}.

(** [memmove] of [n] bytes from [src] down to [dst]. *)
Fixpoint memmove (m : mem) (dst src : Z) (n : nat) : res mem :=
  match n with
  | O => Ok m
  | S n' => let! c := load m src in let! m := store m dst c in memmove m (dst + 1) (src + 1) n'
  end.

Definition shift (m : mem) (d : data_t) (n : Z) : res (mem * data_t) :=
  let size := u32 (content_size d - n) in
  let! m := memmove m (buf d) (buf d + n) (Z.to_nat size) in
  Ok (m, {| file := file d; buf := buf d; p := p d; e := e d; alloced_size := alloced_size d;
            content_size := size; fields := fields d; delim := delim d |}).

Definition write_block (m : mem) (a : Z) (l : list Z) : mem := map_seqZ a l ∪ m.

Section reader.
(** Where [realloc] puts the block of a size, 0 when there is no memory; [eof] tells whether a read
    has met the end of the file. *)
Context (realloc : mem -> Z -> Z -> Z * mem) (eof : system -> FILE -> bool).

Definition grow_buffer (w : world) (d : data_t) : res (world * data_t) :=
  let new_size := Z.min MAX_RECORD_SIZE (Z.max (u32 (alloced_size d * 2)) INITIAL_ALLOCED_SIZE) in
  let '(a, m) := realloc (memory w) (buf d) new_size in
  if a =? 0 then Throw bad_alloc
  else Ok ({| memory := m; sys := sys w; datas := datas w |},
           {| file := file d; buf := a; p := p d; e := e d; alloced_size := new_size;
              content_size := content_size d; fields := fields d; delim := delim d |}).

(** Returns where the text goes on, 0 when there is no more. *)
Definition extend (w : world) (d : data_t) (q : Z) : res (Z * (world * data_t)) :=
  let current_offset := q - buf d in
  match file d with
  | None => Ok (0, (w, d))
  | Some _ =>
      let! (extended, (w, d)) :=
        if content_size d <? MAX_RECORD_SIZE then
          let! (w, d) :=
            if (u32 (alloced_size d - content_size d) =? 0) && (alloced_size d <? MAX_RECORD_SIZE)
            then grow_buffer w d else Ok (w, d) in
          let! (l, s) := fread (sys w) (file d) (u32 (alloced_size d - content_size d)) in
          Ok (negb (bool_decide (l = [])),
              ({| memory := write_block (memory w) (buf d + content_size d) (map to_char l); sys := s;
                  datas := datas w |}, d))
        else Ok (false, (w, d)) in
      let! (w, d) :=
        if eof (sys w) (file d) then
          let! s := fclose (sys w) (file d) in
          Ok ({| memory := memory w; sys := s; datas := datas w |},
              {| file := None; buf := buf d; p := p d; e := e d; alloced_size := alloced_size d;
                 content_size := content_size d; fields := fields d; delim := delim d |})
        else Ok (w, d) in
      Ok (if extended : bool then buf d + current_offset else 0, (w, d))
  end.

(** [add_field] has an empty body. *)
Definition add_field (d : data_t) (q : Z) : data_t := d.

Definition set_pointers (d : data_t) (q e' : Z) : data_t :=
  {| file := file d; buf := buf d; p := q; e := e'; alloced_size := alloced_size d;
     content_size := content_size d; fields := fields d; delim := delim d |}.

Definition next_char (w : world) (d : data_t) : res (Z * (world * data_t)) :=
  if e d <=? p d then
    let! (resume_point, (w, d)) := extend w d (p d) in
    if resume_point =? 0 then
      Ok (0, (w, if buf d <? p d then add_field d (p d) else d))
    else
      let d := set_pointers d resume_point (buf d + content_size d) in
      let! c := load (memory w) (p d) in Ok (c, (w, set_pointers d (p d + 1) (e d)))
  else
    let! c := load (memory w) (p d) in Ok (c, (w, set_pointers d (p d + 1) (e d))).

(** *** Readers: the pointer to their data *)

(** [alloc] is where [new] puts the data. *)
Definition reader_of_text (w : world) (alloc txt c : Z) : res (Z * world) :=
  let! _ := precondition (negb (txt =? 0)) "txt" in
  let! _ := precondition (negb (c =? 0)) "delim" in
  let! n := strlen (memory w) txt in
  let d := {| file := None; buf := txt; p := 0; e := 0; alloced_size := 0; content_size := u32 n;
              fields := []; delim := c |} in
  Ok (alloc, with_data w alloc d).

(** A reader of a file does not set its pointer, nor look at the file. *)
Definition reader_of_file (garbage : Z) (w : world) (c : Z) : Z * world := (garbage, w).

(** The temporary [c_file] of the constructor from a path is closed at its end. *)
Definition reader_of_path (can_open : list Z -> file_mode -> bool) (garbage : Z) (w : world) (fpath : list Z) (c : Z) :
    res (Z * world) :=
  let '(cf, s) := IoUtil.c_file_open can_open (sys w) fpath mode_r in
  let '(a, w) := reader_of_file garbage {| memory := memory w; sys := s; datas := datas w |} c in
  let! s := IoUtil.c_file_destroy (sys w) cf in
  Ok (a, {| memory := memory w; sys := s; datas := datas w |}).

(** [free] of the buffer, and [delete] of the file, are parts of the destructor of the data. *)
Definition delete_data (free : mem -> Z -> res mem) (w : world) (a : Z) : res world :=
  if a =? 0 then Ok w
  else match datas w !! a with
       | None => Undef
       | Some d =>
           let! m := if negb (alloced_size d =? 0) && negb (buf d =? 0) then free (memory w) (buf d)
                     else Ok (memory w) in
           let! s := match file d with Some _ => fclose (sys w) (file d) | None => Ok (sys w) end in
           Ok {| memory := m; sys := s; datas := delete a (datas w) |}
       end.

(** Move assignment: the data pointers of both sides before, and after. *)
Definition reader_move (free : mem -> Z -> res mem) (w : world) (this other : Z) : res ((Z * Z) * world) :=
  let! w := if negb (this =? 0) then delete_data free w this else Ok w in Ok ((other, 0), w).
Definition reader_move_construct (free : mem -> Z -> res mem) (w : world) (other : Z) : res ((Z * Z) * world) :=
  reader_move free w 0 other.
Definition reader_destroy (free : mem -> Z -> res mem) (w : world) (this : Z) : res world := delete_data free w this.

Definition get_field_count (w : world) (this : Z) : res Z :=
  match datas w !! this with Some d => Ok (Zlen (fields d)) | None => Undef end.
Definition get_field_by_index (w : world) (this i : Z) : res Z :=
  match datas w !! this with
  | Some d => Ok (match fields d !! Z.to_nat i with Some x => buf d + x.1 | None => 0 end)
  | None => Undef
  end.
Definition reader_next_char (w : world) (this : Z) : res (Z * world) :=
  match datas w !! this with
  | Some d => let! (c, (w, d)) := next_char w d in Ok (c, with_data w this d)
  | None => Undef
  end.
End reader.
End Xsv.

(** ** [sandbox::find_root] *)

Section space.
Context {P : Type} (absolute : P -> P) (child : P -> list Z -> P) (is_regular_file has_parent_path : P -> bool)
  (parent_path : P -> P) (empty_path : P).

Definition is_sandbox_root (p : P) : bool := is_regular_file (child p (str "sandbox.i")).

Definition find_root (fuel : nat) (folder : P) : res P :=
  iterate fuel (fun p =>
    Ok (if is_sandbox_root p then inr p
        else if has_parent_path p then inl (parent_path p) else inr empty_path)) (absolute folder).
End space.

(** * Specifications *)

Lemma stream_of_open s h x : streams s !! h = Some x -> stream_of s (Some h) = Ok (h, x).
Proof. intros Hh. unfold stream_of. by rewrite Hh. Qed.

(** A stream that is opened, used and closed leaves the system as it was. *)
Lemma close_fresh s x :
  with_streams s (delete (fresh (dom (streams s))) (<[fresh (dom (streams s)) := x]> (streams s))) = s.
Proof.
  unfold with_streams. rewrite delete_insert_id; [by destruct s|].
  apply not_elem_of_dom, is_fresh.
Qed.

Section read.
Context (can_open : list Z -> file_mode -> bool).

(** The bytes a read function is meant to return. *)
Definition file_contents (elem : Z -> Z) (s : system) (fpath : list Z) (max_size : Z) : list Z :=
  if can_open fpath mode_r then
    match disk s !! fpath with
    | Some l => if Zlen l <? max_size then map elem l else []
    | None => []
    end
  else [].

Lemma read_file_spec elem s fpath max_size :
  (forall l, disk s !! fpath = Some l -> Zlen l < 2 ^ 64) ->
  IoUtil.read_file can_open elem s fpath max_size = Ok (file_contents elem s fpath max_size, s).
Proof.
  intros Hsize. unfold IoUtil.read_file, IoUtil.c_file_open, fopen, file_contents.
  destruct (can_open fpath mode_r); [|done]. destruct (disk s !! fpath) as [l|] eqn:Hl; [|done].
  specialize (Hsize l eq_refl). pose proof (Zlen_nonneg l). unfold open_stream. set (h := fresh (dom (streams s))).
  unfold IoUtil.c_file_bool. cbn [IoUtil.f IoUtil.c_file_of]. rewrite bool_decide_true by done.
  unfold fseek_end. erewrite stream_of_open by (simpl; apply lookup_insert_eq). cbn [bind].
  unfold bytes_of. cbn [path disk with_streams]. rewrite Hl. cbn [default from_option id].
  unfold ftell. erewrite stream_of_open by (simpl; apply lookup_insert_eq). cbn [bind pos].
  rewrite u64_small by lia. unfold IoUtil.c_file_destroy. cbn [IoUtil.f IoUtil.c_file_of].
  assert (forall s' x, disk s' = disk s -> streams s' = <[h := x]> (streams s) -> fclose s' (Some h) = Ok s) as Hclose.
  { intros s' x Hd Hs. unfold fclose. erewrite stream_of_open by (rewrite Hs; apply lookup_insert_eq). cbn [bind].
    rewrite <- (close_fresh s x). fold h. unfold with_streams. by rewrite Hs, Hd. }
  destruct (Z.ltb_spec (Zlen l) max_size).
  - unfold fseek_set. erewrite stream_of_open by (simpl; apply lookup_insert_eq). cbn [bind path].
    destruct (Z.ltb_spec 0 (Zlen l)) as [Hpos|Hnil].
    + unfold fread. erewrite stream_of_open by (simpl; apply lookup_insert_eq). cbn [bind path pos].
      unfold bytes_of. cbn [path disk with_streams]. rewrite Hl. cbn [default from_option id bind drop].
      change (drop (Z.to_nat 0) l) with l. rewrite take_ge by (unfold Zlen; lia).
      erewrite Hclose; [|done|simpl; by rewrite !insert_insert_eq]. cbn [bind]. unfold IoUtil.filled.
      replace (Z.to_nat (Zlen l - Zlen (map elem l))) with 0%nat by (unfold Zlen; rewrite length_map; lia).
      by rewrite app_nil_r.
    + cbn [bind]. erewrite Hclose; [|done|simpl; by rewrite !insert_insert_eq]. cbn [bind].
      assert (l = []) as -> by (destruct l; [done|rewrite Zlen_cons in *; pose proof (Zlen_nonneg l); lia]). done.
  - cbn [bind]. erewrite Hclose; [|done|simpl; by rewrite !insert_insert_eq]. done.
Qed.
End read.

(** ** A reader of a text never sees it *)

Section xsv.
Context (realloc : mem -> Z -> Z -> Z * mem) (eof : system -> FILE -> bool) (free : mem -> Z -> res mem).

(** The pointers of a new reader are null and [next_char] does not look at the buffer. *)
Lemma text_reader_spec w alloc txt c l :
  holds (Xsv.memory w) txt (l ++ [0]) -> no_nul l -> 0 < txt -> c <> 0 ->
  exists w', Xsv.reader_of_text w alloc txt c = Ok (alloc, w') /\
    Xsv.reader_next_char realloc eof w' alloc = Ok (0, w') /\
    Xsv.get_field_count w' alloc = Ok 0 /\ (forall i, Xsv.get_field_by_index w' alloc i = Ok 0) /\
    Xsv.memory w' = Xsv.memory w.
Proof.
  intros Hm Hnul Htxt Hc. unfold Xsv.reader_of_text. zfalse (txt =? 0). zfalse (c =? 0). cbn [negb precondition bind].
  rewrite (strlen_spec _ _ _ Hm Hnul). cbn [bind]. eexists. split; [reflexivity|].
  unfold Xsv.reader_next_char, Xsv.get_field_count, Xsv.get_field_by_index. simpl.
  rewrite !lookup_insert_eq. split_and!; try done.
  unfold Xsv.next_char, Xsv.extend. simpl. zfalse (txt <? 0). unfold Xsv.with_data. simpl.
  by rewrite insert_insert_eq.
Qed.

(** A reader of a file cannot be destroyed: its pointer was never set. *)
Lemma file_reader_undefined garbage w c :
  garbage <> 0 -> Xsv.datas w !! garbage = None ->
  let '(a, w') := Xsv.reader_of_file garbage w c in Xsv.reader_destroy free w' a = Undef.
Proof.
  intros Hg Hw. unfold Xsv.reader_of_file, Xsv.reader_destroy, Xsv.delete_data.
  zfalse (garbage =? 0). by rewrite Hw.
Qed.
End xsv.

(** ** The root of a sandbox *)

Section root.
Context {P : Type} (absolute : P -> P) (child : P -> list Z -> P) (is_regular_file has_parent_path : P -> bool)
  (parent_path : P -> P) (empty_path : P).
(** Paths are finite: a parent is shorter. *)
Context (depth : P -> nat) (parent_shorter : forall p, has_parent_path p = true -> (depth (parent_path p) < depth p)%nat).

Notation root := (is_sandbox_root child is_regular_file).

(** The [k]th folder on the way up, when there is one. *)
Fixpoint ancestor (k : nat) (p : P) : option P :=
  match k with
  | O => Some p
  | S k' => if has_parent_path p then ancestor k' (parent_path p) else None
  end.

Lemma find_root_spec fuel folder :
  (depth (absolute folder) < fuel)%nat ->
  exists r, find_root absolute child is_regular_file has_parent_path parent_path empty_path fuel folder = Ok r /\
    ((exists k, ancestor k (absolute folder) = Some r /\ root r = true /\
        forall j q, (j < k)%nat -> ancestor j (absolute folder) = Some q -> root q = false) \/
     r = empty_path /\ forall j q, ancestor j (absolute folder) = Some q -> root q = false).
Proof.
  unfold find_root. generalize (absolute folder). clear folder.
  induction fuel as [|fuel IH]; intros p Hf; [lia|]. cbn [iterate bind].
  destruct (root p) eqn:Hp.
  { exists p. split; [done|]. left. exists 0%nat. split; [done|]. split; [done|]. lia. }
  destruct (has_parent_path p) eqn:Hpar; cbn [bind].
  - pose proof (parent_shorter p Hpar). destruct (IH (parent_path p)) as (r & -> & Hr); [lia|].
    exists r. split; [done|]. destruct Hr as [(k & Hk & Hroot & Hfirst)|[-> Hnone]].
    + left. exists (S k). simpl. rewrite Hpar. split; [done|]. split; [done|].
      intros [|j] q Hj Hq; simpl in Hq; [by simplify_eq|]. rewrite Hpar in Hq. apply (Hfirst j); [lia|done].
    + right. split; [done|]. intros [|j] q Hq; simpl in Hq; [by simplify_eq|]. rewrite Hpar in Hq. by apply (Hnone j).
  - exists empty_path. split; [done|]. right. split; [done|].
    intros [|j] q Hq; simpl in Hq; [by simplify_eq|]. by rewrite Hpar in Hq.
Qed.
End root.

(** * Properties *)

(** reading a file returns all its bytes when there are fewer than the limit, and nothing when there
    are not, when it is missing or may not be opened; either way every stream that was opened is closed again
    and the system is as it was. *)
Theorem read_file_whole can_open s fpath max_size :
  (forall l, disk s !! fpath = Some l -> Zlen l < 2 ^ 64) ->
  IoUtil.read_binary_file can_open s fpath max_size = Ok (file_contents can_open u8 s fpath max_size, s) /\
  IoUtil.read_text_file can_open s fpath max_size = Ok (file_contents can_open to_char s fpath max_size, s).
Proof. intros Hsize. split; by apply read_file_spec. Qed.

Definition sample_system : system :=
  {| disk := {[ str "a.i" := [104; 233; 0] ]}; streams := {[ 5%positive := {| path := str "log"; pos := 2 |} ]} |}.

Lemma read_file_whole_witness :
  IoUtil.read_binary_file (fun _ _ => true) sample_system (str "a.i") 4 = Ok ([104; 233; 0], sample_system) /\
  IoUtil.read_text_file (fun _ _ => true) sample_system (str "a.i") 4 = Ok ([104; -23; 0], sample_system).
Proof.
  apply (read_file_whole (fun _ _ => true) sample_system (str "a.i") 4).
  intros l Hl. vm_compute in Hl. injection Hl as <-. reflexivity.
Defined.
