(* ===== verification/Util.v ===== *)
(** * Small utilities

    - contracts and their messages: core/util/dbc.h and dbc.cpp
    - scope guards: core/util/scope_guard.h
    - ids: core/util/monotonic_id.h
    - ranges: core/util/range.h, range-inline.h and comparison_operators.h
    - circuit breakers: core/err/circuit_breaker.h
    - work: core/work/work_type.h and progress_tracker.cpp

    A [std::map] is a [gmap]; an operation that takes the mutex of a tracker is
    one step. *)

From stdpp Require Import base tactics list gmap strings.
From Stdlib Require Import ZArith Znumtheory Lia SpecFloat.
From S2P Require Import Prelude CString ScanNumbers StrView StdString.
#[local] Open Scope Z_scope.
#[local] Arguments str : simpl never.

(** ** Contracts *)

Inductive contract_type : Type := pre | check | post.
#[export] Instance contract_type_eq_dec : EqDecision contract_type.
Proof. solve_decision. Defined.

Definition get_contract_type_name (ctype : contract_type) : string :=
  if decide (ctype = pre) then "precondition" else if decide (ctype = post) then "postcondition" else "check".

(** [strrchr], as an index. *)
Fixpoint strrchr (l : list Z) (c : Z) : option nat :=
  match l with
  | [] => None
  | d :: l => match strrchr l c with
              | Some i => Some (S i)
              | None => if d =? c then Some 0%nat else None
              end
  end.

(** [q > p], where null is below every pointer. *)
Definition after (q p : option nat) : bool :=
  match q, p with
  | Some i, Some j => (j <? i)%nat
  | Some _, None => true
  | None, _ => false
  end.

Definition make_exception_msg (ctype : contract_type) (expr file : list Z) (line : Z) (function : list Z) : list Z :=
  let p := strrchr file "/"%ch in
  let q := strrchr file BACKSLASH in
  let p := if after q p then q else p in
  let file := match p with Some i => drop (S i) file | None => file end in
  str "Failed " ++ str (get_contract_type_name ctype) ++ str " at " ++ file ++ str ", line " ++ show_unsigned line ++
  str ", function " ++ function ++ str "(). Expected " ++ [DQUOTE] ++ expr ++ [DQUOTE] ++ str " to be true.".

(** ** Scope guards *)

(** What is run when a guard goes out of scope is given by its name. *)
Record scope_guard : Type := {
  enabled : bool;
  on_exit : Z;
}.

Definition make_scope_guard (f : Z) : scope_guard := {| enabled := true; on_exit := f |}.
(** The guard that is moved from, and the new one: moving a lambda that captures
    references copies it. *)
Definition move_guard (rhs : scope_guard) : scope_guard * scope_guard := (rhs, {| enabled := enabled rhs; on_exit := on_exit rhs |}).
Definition dismiss (g : scope_guard) : scope_guard := {| enabled := false; on_exit := on_exit g |}.
(** The destructor: what it runs. *)
Definition leave_scope (g : scope_guard) : list Z := if enabled g then [on_exit g] else [].

(** The end of a scope with several guards. *)
Definition leave_scopes (gs : list scope_guard) : list Z := concat (map leave_scope gs).

(** Each guard that was not dismissed runs its function, once. *)
Lemma guards_run fs dismissed :
  leave_scopes (map make_scope_guard fs ++ map (fun f => dismiss (make_scope_guard f)) dismissed) = fs.
Proof.
  unfold leave_scopes. rewrite map_app, concat_app. replace (concat (map leave_scope (map (fun f => dismiss (make_scope_guard f)) dismissed))) with (@nil Z).
  - rewrite app_nil_r. induction fs as [|f fs IH]; [done|]. cbn. by f_equal.
  - induction dismissed as [|f l IH]; [done|]. done.
Qed.

(** A guard that is moved runs its function twice. *)
Lemma moved_guard_runs_twice f : let '(g, h) := move_guard (make_scope_guard f) in leave_scopes [h; g] = [f; f].
Proof. done. Qed.

(** ** Ids *)

(** Of type [id_type] with [w] bits. *)
Record monotonic_id : Type := {
  value : Z;
  increment : Z;
}.

Section monotonic_id.
Context (w : Z).

Definition new_monotonic_id (start incr : Z) : monotonic_id := {| value := start; increment := incr |}.
(** [fetch_add]: one atomic step. *)
Definition next (x : monotonic_id) : Z * monotonic_id :=
  (value x, {| value := (value x + increment x) mod 2 ^ w; increment := increment x |}).
Definition set_next (x : monotonic_id) (n : Z) : monotonic_id := {| value := n; increment := increment x |}.

(** The ids of [n] calls, whichever threads make them. *)
Fixpoint next_ids (n : nat) (x : monotonic_id) : list Z :=
  match n with
  | O => []
  | S n => let '(id, x) := next x in id :: next_ids n x
  end.

(** How many ids there are. *)
Definition period (incr : Z) : Z := 2 ^ w / Z.gcd incr (2 ^ w).

Context (Hw : 0 <= w).

Lemma next_ids_lookup n : forall x i, 0 <= value x < 2 ^ w -> (i < n)%nat ->
  next_ids n x !! i = Some ((value x + Z.of_nat i * increment x) mod 2 ^ w).
Proof.
  induction n as [|n IH]; intros x i Hx Hi; [lia|]. cbn [next_ids next]. destruct i as [|i]; cbn [lookup list_lookup].
  - by rewrite Z.add_0_r, Z.mod_small.
  - assert (0 < 2 ^ w) by (apply Z.pow_pos_nonneg; lia). rewrite IH by (cbn; (lia || apply Z.mod_pos_bound; lia)). cbn. f_equal.
    rewrite Zplus_mod_idemp_l. f_equal. lia.
Qed.

Lemma next_ids_length n x : Datatypes.length (next_ids n x) = n.
Proof. revert x. induction n as [|n IH]; intros x; [done|]. cbn. by rewrite IH. Qed.

(** Two ids are the same when their numbers differ by a multiple of the period. *)
Lemma same_id incr v i j : (v + i * incr) mod 2 ^ w = (v + j * incr) mod 2 ^ w <-> (period incr | i - j).
Proof.
  assert (0 < 2 ^ w) as Hpow by (apply Z.pow_pos_nonneg; lia). set (g := Z.gcd incr (2 ^ w)).
  assert (0 < g) as Hg by (unfold g; pose proof (Z.gcd_nonneg incr (2 ^ w)); assert (Z.gcd incr (2 ^ w) <> 0); [intros Hz; apply Z.gcd_eq_0 in Hz; lia|lia]).
  destruct (Z.gcd_divide_l incr (2 ^ w)) as [a Ha]. destruct (Z.gcd_divide_r incr (2 ^ w)) as [b Hb]. fold g in Ha, Hb.
  assert (period incr = b) as -> by (unfold period; fold g; rewrite Hb at 1; by apply Z.div_mul; lia).
  assert (Z.gcd b a = 1) as Hab.
  { assert (g * Z.gcd b a = g); [|nia]. rewrite <-Z.gcd_mul_mono_l_nonneg by lia. rewrite Z.gcd_comm. unfold g at 3. f_equal; lia. }
  rewrite <-(Z.add_opp_r i j). split.
  - intros Heq. apply Z.cong_iff_0 in Heq. apply Z.mod_divide in Heq; [|lia]. destruct Heq as [k Hk].
    apply (Z.gauss b a); [|done]. exists k. assert (g * (a * (i + - j)) = g * (k * b)); [|nia]. rewrite Hb in Hk. rewrite Ha in Hk. lia.
  - intros [k Hk]. rewrite Hb, Ha. replace (v + i * (a * g)) with (v + j * (a * g) + (k * a) * (b * g)) by nia. by rewrite Z_mod_plus_full.
Qed.
End monotonic_id.

(** however many threads draw ids, the ids of [n] calls of [next] are
    pairwise different exactly when [n] is at most the period, 2^w divided by its
    greatest common divisor with the increment: all of the type for an odd
    increment, one for the increment 0. *)
Theorem monotonic_ids_distinct w n x : 0 <= w -> 0 <= value x < 2 ^ w ->
  NoDup (next_ids w n x) <-> Z.of_nat n <= period w (increment x).
Proof.
  intros Hw Hx. assert (0 < period w (increment x)) as Hperiod.
  { assert (0 < 2 ^ w) by (apply Z.pow_pos_nonneg; lia). apply Z.div_str_pos. split.
    - assert (Z.gcd (increment x) (2 ^ w) <> 0); [|pose proof (Z.gcd_nonneg (increment x) (2 ^ w)); lia]. intros Hz. apply Z.gcd_eq_0 in Hz. lia.
    - apply Z.divide_pos_le; [lia|apply Z.gcd_divide_r]. }
  split.
  - intros Hnd. destruct (Z.leb_spec (Z.of_nat n) (period w (increment x))) as [|Hlt]; [done|]. exfalso.
    assert (0%nat = Z.to_nat (period w (increment x))) as H0; [|lia].
    eapply NoDup_lookup; [exact Hnd|by apply next_ids_lookup; [..|lia]|rewrite next_ids_lookup by (done || lia)]. f_equal.
    apply same_id; [done|]. exists 1. lia.
  - intros Hn. apply NoDup_alt. intros i j id Hi Hj. pose proof (lookup_lt_Some _ _ _ Hi) as Hil. pose proof (lookup_lt_Some _ _ _ Hj) as Hjl.
    rewrite next_ids_length in Hil, Hjl. rewrite next_ids_lookup in Hi, Hj by done. injection Hi as Hi. rewrite <-Hi in Hj. injection Hj as Hj.
    apply same_id in Hj as [k Hk]; [|done]. assert (k = 0) as -> by nia. lia.
Qed.

Lemma monotonic_ids_distinct_witness : NoDup (next_ids 32 1000 (new_monotonic_id 4294967290 3)).
Proof. apply (monotonic_ids_distinct 32 1000 (new_monotonic_id 4294967290 3)); [lia|cbn; lia|]. vm_compute. discriminate. Defined.

(** ** Ranges: of an index type without negative numbers *)

Record range : Type := {
  begin : Z;
  end_ : Z;
}.
Definition range_empty : range := {| begin := 0; end_ := 0 |}.
Definition range_bool (r : range) : bool := begin r <? end_ r.
Definition range_eq (a b : range) : bool := (begin a =? begin b) && (end_ a =? end_ b).
Definition range_lt (a b : range) : bool :=
  if begin a <? begin b then true else if begin b <? begin a then false else end_ a <? end_ b.
Definition range_length (r : range) : Z := if begin r <? end_ r then u64 (end_ r - begin r) else 0.

(** [generate_remaining_comparison_operators]. *)
Definition range_ne (a b : range) : bool := negb (range_eq a b).
Definition range_gt (a b : range) : bool := range_lt b a.
Definition range_le (a b : range) : bool := negb (range_gt a b).
Definition range_ge (a b : range) : bool := negb (range_lt a b).

Lemma range_eq_spec a b : range_eq a b = true <-> a = b.
Proof.
  unfold range_eq. destruct a as [ab ae], b as [bb be]. cbn. rewrite andb_true_iff, !Z.eqb_eq. split; [intros [-> ->]; done|by intros [= -> ->]].
Qed.

Lemma range_lt_spec a b : range_lt a b = true <-> begin a < begin b \/ begin a = begin b /\ end_ a < end_ b.
Proof. unfold range_lt. ztest; split; (done || lia). Qed.

(** The six operators are those of a strict total order. *)
Lemma range_order a b c :
  (range_lt a b = true -> range_lt b c = true -> range_lt a c = true) /\
  range_lt a a = false /\
  (range_eq a b = true \/ range_lt a b = true \/ range_gt a b = true) /\
  range_le a b = range_lt a b || range_eq a b /\ range_ge a b = range_gt a b || range_eq a b /\
  range_ne a b = range_lt a b || range_gt a b.
Proof.
  unfold range_le, range_ge, range_ne, range_gt, range_eq, range_lt. split; [ztest; lia|]. split; [ztest|].
  split_and!; ztest; auto; lia.
Qed.

(** ** Circuit breakers *)

Inductive circuit_state : Type := closed | open_ | needs_retest.
#[export] Instance circuit_state_eq_dec : EqDecision circuit_state.
Proof. solve_decision. Defined.

Definition choose_path {F} (current : circuit_state) (on_closed on_open : F) : F := if decide (current = closed) then on_closed else on_open.
(** The new state is also what [update] returns. *)
Definition update (current : circuit_state) (is_healthy : bool) : circuit_state := if negb is_healthy then open_ else current.

(** A breaker that has opened never closes again. *)
Lemma circuit_after initial reports :
  fold_left update reports initial = if forallb id reports then initial else open_.
Proof.
  revert initial. induction reports as [|[] reports IH]; intros initial; cbn [fold_left forallb andb update negb id]; [done|apply IH|].
  rewrite IH. by destruct (forallb id reports).
Qed.

(** ** Work *)

(** The types that are predefined, and those of a component. *)
Definition predefined_work_types : Z := 24.
Definition custom_work_type (component_id private_id : Z) : Z :=
  Z.lor (Z.lor (u64 (Z.shiftl component_id 32)) (u64 (Z.shiftl private_id 16))) (u64 (Z.shiftl 1 15)).

Lemma custom_work_type_bits c p : 0 <= c < 2 ^ 32 -> 0 <= p < 2 ^ 16 -> custom_work_type c p = c * 2 ^ 32 + p * 2 ^ 16 + 2 ^ 15.
Proof.
  intros Hc Hp. unfold custom_work_type. rewrite !Z.shiftl_mul_pow2 by lia. rewrite !u64_small by lia.
  assert (forall a k b, 0 <= k -> 0 <= b < 2 ^ k -> Z.lor (a * 2 ^ k) b = a * 2 ^ k + b) as Hlor.
  { intros a k b Hk Hb. rewrite <-Z.lxor_lor, <-Z.add_nocarry_lxor; try done; apply Z.bits_inj'; intros i Hi; rewrite Z.land_spec, Z.bits_0.
    all: destruct (Z.ltb_spec i k); [rewrite Z.mul_pow2_bits_low by lia; done|].
    all: rewrite <-(Z.mod_small b (2 ^ k)) by done; rewrite Z.mod_pow2_bits_high by lia; by rewrite andb_false_r. }
  rewrite (Hlor c 32 (p * 2 ^ 16)) by lia. replace (c * 2 ^ 32 + p * 2 ^ 16) with ((c * 2 ^ 16 + p) * 2 ^ 16) by lia.
  rewrite (Hlor _ 16 (1 * 2 ^ 15)) by lia. lia.
Qed.

(** The types of components differ from the predefined ones and from each other. *)
Lemma custom_work_types_distinct c p c' p' : 0 <= c < 2 ^ 32 -> 0 <= p < 2 ^ 16 -> 0 <= c' < 2 ^ 32 -> 0 <= p' < 2 ^ 16 ->
  predefined_work_types <= custom_work_type c p < 2 ^ 64 /\ (custom_work_type c p = custom_work_type c' p' -> c = c' /\ p = p').
Proof. intros Hc Hp Hc' Hp'. rewrite !custom_work_type_bits by done. unfold predefined_work_types. lia. Qed.

(** A tracker: [expected_work_map], [done_work_map] and [should_stop]. *)
Record progress_tracker : Type := {
  descrip : list Z;
  expected_work_map : gmap Z double;
  done_work_map : gmap Z double;
  should_stop : bool;
}.

Definition new_progress_tracker (description : list Z) : progress_tracker :=
  {| descrip := description; expected_work_map := ∅; done_work_map := ∅; should_stop := false |}.
Definition with_expected (t : progress_tracker) (m : gmap Z double) : progress_tracker :=
  {| descrip := descrip t; expected_work_map := m; done_work_map := done_work_map t; should_stop := should_stop t |}.
Definition with_done (t : progress_tracker) (m : gmap Z double) : progress_tracker :=
  {| descrip := descrip t; expected_work_map := expected_work_map t; done_work_map := m; should_stop := should_stop t |}.
Definition request_stop (t : progress_tracker) : progress_tracker :=
  {| descrip := descrip t; expected_work_map := expected_work_map t; done_work_map := done_work_map t; should_stop := true |}.

Definition positive_amount (amount : double) : bool := SFltb (double_of_Z 0) amount.
Definition add_work (m : gmap Z double) (wt : Z) (amount : double) : gmap Z double :=
  match m !! wt with
  | None => <[wt := amount]> m
  | Some done => <[wt := dadd done amount]> m
  end.

Definition expect_work (t : progress_tracker) (wt : Z) (amount : double) : progress_tracker :=
  if positive_amount amount then with_expected t (add_work (expected_work_map t) wt amount) else t.
Definition complete_work (t : progress_tracker) (wt : Z) (amount : double) : progress_tracker :=
  if positive_amount amount then with_done t (add_work (done_work_map t) wt amount) else t.
Definition skip_work (t : progress_tracker) (wt : Z) (amount : double) : progress_tracker :=
  if positive_amount amount then
    match expected_work_map t !! wt with
    | Some i =>
        let new_amount := SFsub 53 1024 i amount in
        with_expected t (if SFleb new_amount (double_of_Z 0) then delete wt (expected_work_map t)
                         else <[wt := new_amount]> (expected_work_map t))
    | None => t
    end
  else t.

(** The amounts of a type that are expected and done. *)
Definition amounts (t : progress_tracker) (wt : Z) : option double * option double := (expected_work_map t !! wt, done_work_map t !! wt).

(** What one thread does with a type of work leaves the other types alone, and
    a request to stop stands. *)
Lemma work_types_independent t wt wt' amount : wt <> wt' ->
  Forall (fun t' => amounts t' wt' = amounts t wt' /\ should_stop t' = should_stop t)
    [expect_work t wt amount; complete_work t wt amount; skip_work t wt amount].
Proof.
  intros Hne. unfold expect_work, complete_work, skip_work, amounts, add_work. destruct (positive_amount amount); [|by repeat constructor].
  repeat constructor; cbn; repeat case_match; cbn; rewrite ?lookup_insert_ne, ?lookup_delete_ne by done; done.
Qed.

(** Work that was skipped to the last is not expected any more, but skipping
    an infinite amount of an infinite amount leaves no number. *)
Lemma skip_tests :
  let t := expect_work (new_progress_tracker []) 2 (double_of_Z 5) in
  expected_work_map (skip_work t 2 (double_of_Z 5)) = ∅ /\
  expected_work_map (skip_work t 2 (double_of_Z 2)) !! 2 = Some (double_of_Z 3) /\
  expected_work_map (skip_work (expect_work (new_progress_tracker []) 2 (S754_infinity false)) 2 (S754_infinity false)) !! 2 = Some S754_nan.
Proof. vm_compute. repeat split. Qed.

(** The message names the file without its folders, which either slash ends. *)
Lemma exception_msg_names_file :
  make_exception_msg pre (str "width >= 10") (str "/src/core/text/wrap_lines.cpp") 96 (str "wrap_lines") =
    str "Failed precondition at wrap_lines.cpp, line 96, function wrap_lines(). Expected " ++ [DQUOTE] ++ str "width >= 10" ++ [DQUOTE] ++
    str " to be true." /\
  make_exception_msg check (str "x") (str "a/b\c.cpp") 7 (str "f") = make_exception_msg check (str "x") (str "c.cpp") 7 (str "f").
Proof. vm_compute. split; reflexivity. Qed.
