(* ===== verification/Main.v ===== *)
(** * The program: i/main.cpp

    [main] gives its arguments to a [cmdline], and prints the help when it is
    needed.  What it does is its exit code and the text it prints; [place] is
    where a contract stands in the code, the file, the line and the function, and
    [bad_alloc_what] what the C++ library says when there is no memory. *)

From stdpp Require Import base tactics list gmap strings.
From Stdlib Require Import ZArith Lia.
From S2P Require Import Prelude CString StrView StdString Cmdline Util.
#[local] Open Scope Z_scope.
#[local] Arguments str : simpl never.

Section main.
Context (place : string -> list Z * Z * list Z) (bad_alloc_what : list Z).

(** [e.what()]. *)
Definition what (e : exn) : list Z :=
  match e with
  | contract_violation expr => let '(file, line, function) := place expr in make_exception_msg pre (str expr) file line function
  | state_error what | runtime_error what | logic_error what => what
  | bad_alloc => bad_alloc_what
  | process_exit _ => []
  end.

(** The body of the [try] block. *)
Definition try_block (m : mem) (argv : list Z) : res (Z * list Z) :=
  let cmdline := cmdline_new in
  let! cmdline := set_args m cmdline argv in
  let! needed := help_needed cmdline in
  if needed : bool then let! help := get_help cmdline in Ok (1, c_str help) else Ok (0, []).

Definition main (m : mem) (argv : list Z) : res (Z * list Z) :=
  match try_block m argv with
  | Throw (process_exit n) => Throw (process_exit n)
  | Throw e => Ok (1, str "Fatal error: " ++ what e ++ [LF])
  | r => r
  end.
End main.

(** [main] fails on every command line: it sets the arguments of a cmdline
    that was not validated, so the precondition of [set_args] throws, and the
    program prints that and returns 1, whatever its arguments are. *)
Theorem main_fails place bad_alloc_what m argv :
  let '(file, line, function) := place "data->phase == lifecycle_phase::usage" in
  main place bad_alloc_what m argv =
    Ok (1, str "Fatal error: " ++
           make_exception_msg pre (str "data->phase == lifecycle_phase::usage") file line function ++ [LF]).
Proof.
  unfold main, try_block, set_args, in_phase. cbn [cmdline_new phase]. rewrite bool_decide_false by done. cbn [precondition bind].
  rewrite decide_True by done. unfold what. by destruct (place _) as [[file line] function].
Qed.

Example main_prints :
  main (fun _ => (str "/src/core/cli/cmdline.cpp", 106, str "set_args")) [] ∅ [] =
  Ok (1, str "Fatal error: Failed precondition at cmdline.cpp, line 106, function set_args(). Expected " ++ [DQUOTE] ++
         str "data->phase == lifecycle_phase::usage" ++ [DQUOTE] ++ str " to be true." ++ [LF]).
Proof. vm_compute. reflexivity. Qed.
