(* ===== verification/Curl.v ===== *)
(** * Requests, responses and sessions: core/net/curl/request*, response*, session*,
    session_state*, too_slow* and channel.h/.cpp

    The objects live in a [net]: the blocks of [strdup], and the impls of
    requests, responses, sessions and channels, by address; a [session] and its
    impl, and a [channel] and its impl, are one object here.  A handle, a
    [request] or a [response], is the value of its [impl] member, null being 0.
    The lock of a session is held by one operation at a time, so that operations
    are atomic; what runs on other threads while [wait] blocks is an argument,
    as is what libcurl answers. *)

From stdpp Require Import base tactics list gmap strings.
From Stdlib Require Import ZArith Lia.
From S2P Require Import Prelude CString StrView StdString Headers HttpMethod Arg Interp.
#[local] Open Scope Z_scope.

(** ** States of a session *)

Inductive session_state : Type :=
| configuring | requesting | waiting_for_response | accepting_response | idle.

#[export] Instance session_state_eq_dec : EqDecision session_state.
Proof. solve_decision. Defined.

Definition state_number (s : session_state) : Z :=
  match s with
  | configuring => 0 | requesting => 1 | waiting_for_response => 2 | accepting_response => 3 | idle => 4
  end.

Definition session_state_names : list string :=
  ["configuring"; "requesting"; "waiting_for_response"; "accepting_response"; "idle"]%string.
Definition session_state_count : Z := Zlen session_state_names.
Definition get_name_for_session_state (ss : session_state) : option string :=
  let i := state_number ss in
  if i <? session_state_count then session_state_names !! Z.to_nat i else None.

Definition is_busy (ss : session_state) : bool := negb (bool_decide (ss = idle)) && negb (bool_decide (ss = configuring)).

(** When a transfer is too slow. *)
Record too_slow : Type := { bytes_per_second : Z; seconds : Z }.
Definition too_slow_default : too_slow := {| bytes_per_second := 10; seconds := 30 |}.
Definition too_slow_of (bps secs : Z) : too_slow := {| bytes_per_second := bps; seconds := secs |}.
Definition too_slow_standard : too_slow := too_slow_of 10 30.
Definition too_slow_never : too_slow := too_slow_of 0 0.

(** ** Objects *)

(** A [char *]: null, the verb in the table of methods, a block of [strdup], or
    a string that belongs to libcurl. *)
Inductive chars : Type :=
| no_chars
| verb_of (i : http_method_id)
| owned (a : Z)
| of_libcurl (text : list Z).

#[export] Instance chars_eq_dec : EqDecision chars.
Proof. solve_decision. Defined.

Record request_impl : Type := {
  q_id : Z;
  q_session : Z;
  q_verb : chars;
  q_url : chars;
  q_headers : Z;
  q_refs : Z;
}.

Record response_impl : Type := {
  p_id : Z;
  p_session : Z;
  p_owns_session : bool;
  p_headers : Z;
  p_received_bytes : list Z;
  p_expected_receive_total : Z;
  p_sent_byte_count : Z;
  p_expected_send_total : Z;
  p_status_code : Z;
  p_effective_url : chars;
  p_refs : Z;
}.

(** The options the code sets on an easy handle, with what the callbacks get. *)
Inductive curlopt : Type :=
| CURLOPT_URL (text : list Z)
| CURLOPT_HTTPGET
| CURLOPT_HTTPPOST
| CURLOPT_POSTFIELDSIZE (n : Z)
| CURLOPT_WRITEFUNCTION (response : Z)
| CURLOPT_HEADERFUNCTION (response : Z)
| CURLOPT_VERBOSE
| CURLOPT_ERRORBUFFER (session : Z)
| CURLOPT_PRIVATE (session : Z)
| CURLOPT_XFERINFOFUNCTION (response : Z)
| CURLOPT_OPENSOCKETFUNCTION (channel : Z)
| CURLOPT_CLOSESOCKETFUNCTION (channel : Z).

Record session_impl : Type := {
  s_id : Z;
  s_channel : Z;
  s_request : Z;
  s_response : Z;
  s_easy : list curlopt;
  s_error : list Z;
  s_state : session_state;
  s_socket_state : Z;
}.

(** [c_runner] is the thread the [std::thread] stands for, [c_started] counts the
    threads that were started. *)
Record channel_impl : Type := {
  c_id : Z;
  c_still_running : Z;
  c_runner : option Z;
  c_started : Z;
  c_sessions : gmap Z Z;
}.

(** The objects, the headers they refer to, the next address and the next ids,
    32-bit counters. *)
Record net : Type := {
  strings : gmap Z (list Z);
  requests : gmap Z request_impl;
  responses : gmap Z response_impl;
  sessions : gmap Z session_impl;
  channels : gmap Z channel_impl;
  collections : heap;
  next_address : Z;
  next_request_id : Z;
  next_response_id : Z;
  next_session_id : Z;
  next_channel_id : Z;
  default_channel : Z;
}.

(** ** Updates *)

Definition with_q_session (x : request_impl) (v : Z) : request_impl :=
  {| q_id := q_id x; q_session := v; q_verb := q_verb x; q_url := q_url x; q_headers := q_headers x; q_refs := q_refs x |}.
Definition with_q_verb (x : request_impl) (v : chars) : request_impl :=
  {| q_id := q_id x; q_session := q_session x; q_verb := v; q_url := q_url x; q_headers := q_headers x; q_refs := q_refs x |}.
Definition with_q_url (x : request_impl) (v : chars) : request_impl :=
  {| q_id := q_id x; q_session := q_session x; q_verb := q_verb x; q_url := v; q_headers := q_headers x; q_refs := q_refs x |}.
Definition with_q_refs (x : request_impl) (v : Z) : request_impl :=
  {| q_id := q_id x; q_session := q_session x; q_verb := q_verb x; q_url := q_url x; q_headers := q_headers x; q_refs := v |}.
Definition with_p_session (x : response_impl) (v : Z) : response_impl :=
  {| p_id := p_id x; p_session := v; p_owns_session := p_owns_session x; p_headers := p_headers x; p_received_bytes := p_received_bytes x; p_expected_receive_total := p_expected_receive_total x; p_sent_byte_count := p_sent_byte_count x; p_expected_send_total := p_expected_send_total x; p_status_code := p_status_code x; p_effective_url := p_effective_url x; p_refs := p_refs x |}.
Definition with_p_owns_session (x : response_impl) (v : bool) : response_impl :=
  {| p_id := p_id x; p_session := p_session x; p_owns_session := v; p_headers := p_headers x; p_received_bytes := p_received_bytes x; p_expected_receive_total := p_expected_receive_total x; p_sent_byte_count := p_sent_byte_count x; p_expected_send_total := p_expected_send_total x; p_status_code := p_status_code x; p_effective_url := p_effective_url x; p_refs := p_refs x |}.
Definition with_p_received_bytes (x : response_impl) (v : list Z) : response_impl :=
  {| p_id := p_id x; p_session := p_session x; p_owns_session := p_owns_session x; p_headers := p_headers x; p_received_bytes := v; p_expected_receive_total := p_expected_receive_total x; p_sent_byte_count := p_sent_byte_count x; p_expected_send_total := p_expected_send_total x; p_status_code := p_status_code x; p_effective_url := p_effective_url x; p_refs := p_refs x |}.
Definition with_p_refs (x : response_impl) (v : Z) : response_impl :=
  {| p_id := p_id x; p_session := p_session x; p_owns_session := p_owns_session x; p_headers := p_headers x; p_received_bytes := p_received_bytes x; p_expected_receive_total := p_expected_receive_total x; p_sent_byte_count := p_sent_byte_count x; p_expected_send_total := p_expected_send_total x; p_status_code := p_status_code x; p_effective_url := p_effective_url x; p_refs := v |}.
Definition with_s_channel (x : session_impl) (v : Z) : session_impl :=
  {| s_id := s_id x; s_channel := v; s_request := s_request x; s_response := s_response x; s_easy := s_easy x; s_error := s_error x; s_state := s_state x; s_socket_state := s_socket_state x |}.
Definition with_s_request (x : session_impl) (v : Z) : session_impl :=
  {| s_id := s_id x; s_channel := s_channel x; s_request := v; s_response := s_response x; s_easy := s_easy x; s_error := s_error x; s_state := s_state x; s_socket_state := s_socket_state x |}.
Definition with_s_easy (x : session_impl) (v : list curlopt) : session_impl :=
  {| s_id := s_id x; s_channel := s_channel x; s_request := s_request x; s_response := s_response x; s_easy := v; s_error := s_error x; s_state := s_state x; s_socket_state := s_socket_state x |}.
Definition with_s_error (x : session_impl) (v : list Z) : session_impl :=
  {| s_id := s_id x; s_channel := s_channel x; s_request := s_request x; s_response := s_response x; s_easy := s_easy x; s_error := v; s_state := s_state x; s_socket_state := s_socket_state x |}.
Definition with_s_state (x : session_impl) (v : session_state) : session_impl :=
  {| s_id := s_id x; s_channel := s_channel x; s_request := s_request x; s_response := s_response x; s_easy := s_easy x; s_error := s_error x; s_state := v; s_socket_state := s_socket_state x |}.
Definition with_s_socket_state (x : session_impl) (v : Z) : session_impl :=
  {| s_id := s_id x; s_channel := s_channel x; s_request := s_request x; s_response := s_response x; s_easy := s_easy x; s_error := s_error x; s_state := s_state x; s_socket_state := v |}.
Definition with_c_still_running (x : channel_impl) (v : Z) : channel_impl :=
  {| c_id := c_id x; c_still_running := v; c_runner := c_runner x; c_started := c_started x; c_sessions := c_sessions x |}.
Definition with_c_runner (x : channel_impl) (v : option Z) : channel_impl :=
  {| c_id := c_id x; c_still_running := c_still_running x; c_runner := v; c_started := c_started x; c_sessions := c_sessions x |}.
Definition with_c_sessions (x : channel_impl) (v : gmap Z Z) : channel_impl :=
  {| c_id := c_id x; c_still_running := c_still_running x; c_runner := c_runner x; c_started := c_started x; c_sessions := v |}.
Definition with_strings (x : net) (v : gmap Z (list Z)) : net :=
  {| strings := v; requests := requests x; responses := responses x; sessions := sessions x; channels := channels x; collections := collections x; next_address := next_address x; next_request_id := next_request_id x; next_response_id := next_response_id x; next_session_id := next_session_id x; next_channel_id := next_channel_id x; default_channel := default_channel x |}.
Definition with_requests (x : net) (v : gmap Z request_impl) : net :=
  {| strings := strings x; requests := v; responses := responses x; sessions := sessions x; channels := channels x; collections := collections x; next_address := next_address x; next_request_id := next_request_id x; next_response_id := next_response_id x; next_session_id := next_session_id x; next_channel_id := next_channel_id x; default_channel := default_channel x |}.
Definition with_responses (x : net) (v : gmap Z response_impl) : net :=
  {| strings := strings x; requests := requests x; responses := v; sessions := sessions x; channels := channels x; collections := collections x; next_address := next_address x; next_request_id := next_request_id x; next_response_id := next_response_id x; next_session_id := next_session_id x; next_channel_id := next_channel_id x; default_channel := default_channel x |}.
Definition with_sessions (x : net) (v : gmap Z session_impl) : net :=
  {| strings := strings x; requests := requests x; responses := responses x; sessions := v; channels := channels x; collections := collections x; next_address := next_address x; next_request_id := next_request_id x; next_response_id := next_response_id x; next_session_id := next_session_id x; next_channel_id := next_channel_id x; default_channel := default_channel x |}.
Definition with_channels (x : net) (v : gmap Z channel_impl) : net :=
  {| strings := strings x; requests := requests x; responses := responses x; sessions := sessions x; channels := v; collections := collections x; next_address := next_address x; next_request_id := next_request_id x; next_response_id := next_response_id x; next_session_id := next_session_id x; next_channel_id := next_channel_id x; default_channel := default_channel x |}.
Definition with_collections (x : net) (v : heap) : net :=
  {| strings := strings x; requests := requests x; responses := responses x; sessions := sessions x; channels := channels x; collections := v; next_address := next_address x; next_request_id := next_request_id x; next_response_id := next_response_id x; next_session_id := next_session_id x; next_channel_id := next_channel_id x; default_channel := default_channel x |}.
Definition with_next_address (x : net) (v : Z) : net :=
  {| strings := strings x; requests := requests x; responses := responses x; sessions := sessions x; channels := channels x; collections := collections x; next_address := v; next_request_id := next_request_id x; next_response_id := next_response_id x; next_session_id := next_session_id x; next_channel_id := next_channel_id x; default_channel := default_channel x |}.
Definition with_next_request_id (x : net) (v : Z) : net :=
  {| strings := strings x; requests := requests x; responses := responses x; sessions := sessions x; channels := channels x; collections := collections x; next_address := next_address x; next_request_id := v; next_response_id := next_response_id x; next_session_id := next_session_id x; next_channel_id := next_channel_id x; default_channel := default_channel x |}.
Definition with_next_response_id (x : net) (v : Z) : net :=
  {| strings := strings x; requests := requests x; responses := responses x; sessions := sessions x; channels := channels x; collections := collections x; next_address := next_address x; next_request_id := next_request_id x; next_response_id := v; next_session_id := next_session_id x; next_channel_id := next_channel_id x; default_channel := default_channel x |}.
Definition with_next_session_id (x : net) (v : Z) : net :=
  {| strings := strings x; requests := requests x; responses := responses x; sessions := sessions x; channels := channels x; collections := collections x; next_address := next_address x; next_request_id := next_request_id x; next_response_id := next_response_id x; next_session_id := v; next_channel_id := next_channel_id x; default_channel := default_channel x |}.
Definition with_next_channel_id (x : net) (v : Z) : net :=
  {| strings := strings x; requests := requests x; responses := responses x; sessions := sessions x; channels := channels x; collections := collections x; next_address := next_address x; next_request_id := next_request_id x; next_response_id := next_response_id x; next_session_id := next_session_id x; next_channel_id := v; default_channel := default_channel x |}.
Definition with_default_channel (x : net) (v : Z) : net :=
  {| strings := strings x; requests := requests x; responses := responses x; sessions := sessions x; channels := channels x; collections := collections x; next_address := next_address x; next_request_id := next_request_id x; next_response_id := next_response_id x; next_session_id := next_session_id x; next_channel_id := next_channel_id x; default_channel := v |}.

(** ** Running code

    Code changes the [net], and what it changed stays changed when it throws. *)
Definition M (A : Type) : Type := net -> res (net * (exn + A)).

Definition ret {A} (a : A) : M A := fun n => Ok (n, inr a).
Definition andthen {A B} (m : M A) (k : A -> M B) : M B := fun n =>
  let! (n, r) := m n in match r with inl e => Ok (n, inl e) | inr a => k a n end.
Definition throw {A} (e : exn) : M A := fun n => Ok (n, inl e).
Definition undef {A} : M A := fun _ => Undef.
Definition lift {A} (r : res A) : M A := fun n =>
  match r with Ok a => Ok (n, inr a) | Throw e => Ok (n, inl e) | Undef => Undef | Spin => Spin end.
Definition get {A} (f : net -> A) : M A := fun n => Ok (n, inr (f n)).
Definition set (f : net -> net) : M unit := fun n => Ok (f n, inr tt).

Notation "'let*' x ':=' m 'in' k" := (andthen m (fun x => k))
  (at level 10, x pattern, m at level 100, k at level 200,
   format "'[v' 'let*'  x  ':='  m  'in' '/' k ']'") : res_scope.

Lemma andthen_ok {A B} (m : M A) (k : A -> M B) n n' a : m n = Ok (n', inr a) -> (let* a := m in k a) n = k a n'.
Proof. intros Hm. unfold andthen. by rewrite Hm. Qed.

Definition when (b : bool) (m : M unit) : M unit := if b then m else ret tt.

(** What a pointer points to: no object is undefined behaviour. *)
Definition deref {A} (objects : net -> gmap Z A) (p : Z) : M A := fun n =>
  match objects n !! p with Some x => Ok (n, inr x) | None => Undef end.
Definition request_at : Z -> M request_impl := deref requests.
Definition response_at : Z -> M response_impl := deref responses.
Definition session_at : Z -> M session_impl := deref sessions.
Definition channel_at : Z -> M channel_impl := deref channels.

Definition put_request (p : Z) (x : request_impl) : M unit := set (fun n => with_requests n (<[p := x]> (requests n))).
Definition put_response (p : Z) (x : response_impl) : M unit := set (fun n => with_responses n (<[p := x]> (responses n))).
Definition put_session (p : Z) (x : session_impl) : M unit := set (fun n => with_sessions n (<[p := x]> (sessions n))).
Definition put_channel (p : Z) (x : channel_impl) : M unit := set (fun n => with_channels n (<[p := x]> (channels n))).

Definition alloc : M Z := fun n => Ok (with_next_address n (next_address n + 1), inr (next_address n)).

(** [monotonic_id<uint32_t>::next]. *)
Definition get_next_request_id : M Z := fun n => Ok (with_next_request_id n (u32 (next_request_id n + 1)), inr (next_request_id n)).
Definition get_next_response_id : M Z := fun n => Ok (with_next_response_id n (u32 (next_response_id n + 1)), inr (next_response_id n)).
Definition get_next_session_id : M Z := fun n => Ok (with_next_session_id n (u32 (next_session_id n + 1)), inr (next_session_id n)).
Definition get_next_id : M Z := fun n => Ok (with_next_channel_id n (u32 (next_channel_id n + 1)), inr (next_channel_id n)).

(** ** Strings: [strdup] and [free] *)

Definition strdup (text : list Z) : M chars :=
  let* a := alloc in
  let* _ := set (fun n => with_strings n (<[a := text]> (strings n))) in ret (owned a).
Definition free (c : chars) : M unit :=
  match c with
  | no_chars => ret tt
  | owned a => let* _ := deref strings a in set (fun n => with_strings n (delete a (strings n)))
  | verb_of _ | of_libcurl _ => undef
  end.
Definition method_verb (i : http_method_id) : list Z :=
  match get_http_method_by_id i with Some h => str (verb h) | None => [] end.
(** The chars a [char *] that is not null points to. *)
Definition text_at (c : chars) : M (list Z) :=
  match c with
  | no_chars => undef
  | verb_of i => ret (method_verb i)
  | owned a => deref strings a
  | of_libcurl t => ret t
  end.

(** A [char const *] of the caller is a C string, or [None] for null. *)
Definition not_empty (value : option (list Z)) : bool :=
  match value with Some (_ :: _) => true | _ => false end.

(** ** Headers, in the heap of [Headers] *)

Definition new_headers : M Z := fun n =>
  let (h, p) := headers_new (collections n) in Ok (with_collections n h, inr p).
Definition destroy_headers (p : Z) : M unit :=
  let* h := get collections in let* h := lift (headers_destroy h p) in set (fun n => with_collections n h).
Definition add_header (m : mem) (p : Z) (line : str_view) : M unit :=
  let* h := get collections in let* h := lift (headers_add m h p line) in set (fun n => with_collections n h).

(** ** Requests: .private/request-impl-inline.h *)

Definition new_request (session : Z) : M Z :=
  let* i := get_next_request_id in
  let* h := new_headers in
  let* p := alloc in
  let* _ := put_request p {| q_id := i; q_session := session; q_verb := no_chars; q_url := no_chars; q_headers := h; q_refs := 1 |} in
  ret p.

Definition is_standard_verb (c : chars) : bool :=
  bool_decide (c ∈ map verb_of [http_get; http_post; http_put; http_head; http_options]).

Definition free_verb (p : Z) : M unit :=
  let* x := request_at p in
  if bool_decide (q_verb x = no_chars) then ret tt
  else
    let* _ := when (negb (is_standard_verb (q_verb x))) (free (q_verb x)) in
    put_request p (with_q_verb x no_chars).

Definition delete_request (p : Z) : M unit :=
  let* _ := free_verb p in
  let* x := request_at p in
  let* _ := when (negb (bool_decide (q_url x = no_chars))) (free (q_url x)) in
  let* _ := destroy_headers (q_headers x) in
  set (fun n => with_requests n (delete p (requests n))).

Definition request_add_ref (p : Z) : M unit :=
  let* x := request_at p in put_request p (with_q_refs x (u32 (q_refs x + 1))).
Definition request_release_ref (p : Z) : M unit :=
  let* x := request_at p in
  let* _ := put_request p (with_q_refs x (u32 (q_refs x - 1))) in
  when (q_refs x =? 1) (delete_request p).

Definition impl_set_url (p : Z) (value : option (list Z)) : M unit :=
  let* x := request_at p in
  let* _ := when (negb (bool_decide (q_url x = no_chars))) (free (q_url x)) in
  match value with
  | Some (c :: t) => let* u := strdup (c :: t) in put_request p (with_q_url x u)
  | _ => ret tt
  end.

(** The chain of comparisons with the standard verbs. *)
Definition standard_verb (value : list Z) : option http_method_id :=
  let same i := ci_cmp (method_verb i) value =? 0 in
  if same http_get then Some http_get
  else if same http_post then Some http_post
  else if same http_put then Some http_put
  else if same http_head then Some http_head
  else if same http_options then Some http_options
  else None.

Definition impl_set_verb (p : Z) (value : option (list Z)) : M unit :=
  let* x := request_at p in
  let* same :=
    match value with
    | Some v => if bool_decide (q_verb x = no_chars) then ret false else let* t := text_at (q_verb x) in ret (ci_cmp t v =? 0)
    | None => ret false
    end in
  if same : bool then ret tt
  else
    let* _ := free_verb p in
    match value with
    | None => ret tt
    | Some v =>
        let* x := request_at p in
        match standard_verb v with
        | Some i => put_request p (with_q_verb x (verb_of i))
        | None => let* c := strdup v in put_request p (with_q_verb x c)
        end
    end.

(** ** The class [request]: request.cpp *)

Definition request_of_session (session : Z) : M Z := new_request session.
(** The new handle, and the new value of [other]. *)
Definition request_move (other : Z) : M (Z * Z) := ret (other, 0).
Definition request_copy (other : Z) : M Z :=
  let* x := request_at other in
  let* p := new_request (q_session x) in
  let* _ := request_add_ref p in ret p.
Definition request_of_impl (other : Z) : M Z := let* _ := request_add_ref other in ret other.
Definition request_destroy (impl : Z) : M unit := when (negb (impl =? 0)) (request_release_ref impl).

Definition request_set_verb (impl : Z) (verb : option (list Z)) : M unit :=
  match verb with
  | Some (c :: t) =>
      let* x := request_at impl in let* v := strdup (c :: t) in put_request impl (with_q_verb x v)
  | _ => ret tt
  end.
Definition request_set_url (impl : Z) (url : option (list Z)) : M unit :=
  match url with
  | Some (c :: t) =>
      let* x := request_at impl in let* u := strdup (c :: t) in put_request impl (with_q_url x u)
  | _ => ret tt
  end.
Definition request_get_verb (impl : Z) : M chars := let* x := request_at impl in ret (q_verb x).
Definition request_get_url (impl : Z) : M chars := let* x := request_at impl in ret (q_url x).
Definition request_get_id (impl : Z) : M Z := let* x := request_at impl in ret (q_id x).
Definition request_get_headers (impl : Z) : M Z := let* x := request_at impl in ret (q_headers x).

(** [*p] of a pointer that a reference is bound to. *)
Definition reference {A} (objects : net -> gmap Z A) (p : Z) : M Z := let* _ := deref objects p in ret p.
Definition request_get_session (impl : Z) : M Z := let* x := request_at impl in reference sessions (q_session x).
Definition request_get_channel (impl : Z) : M Z :=
  let* x := request_at impl in let* s := session_at (q_session x) in reference channels (s_channel s).

(** ** Responses: .private/response-impl-inline.h *)

Definition new_response (session : Z) : M Z :=
  let* i := get_next_response_id in
  let* h := new_headers in
  let* p := alloc in
  let* _ := put_response p {| p_id := i; p_session := session; p_owns_session := false; p_headers := h;
    p_received_bytes := []; p_expected_receive_total := 0; p_sent_byte_count := 0; p_expected_send_total := 0;
    p_status_code := 0; p_effective_url := no_chars; p_refs := 1 |} in
  ret p.

Definition response_add_ref (p : Z) : M unit :=
  let* x := response_at p in put_response p (with_p_refs x (u32 (p_refs x + 1))).

(** ** Channels: the sessions attached to a channel, and its thread (channel.cpp) *)

Definition new_channel : M Z :=
  let* i := get_next_id in
  let* p := alloc in
  let* _ := put_channel p {| c_id := i; c_still_running := 1; c_runner := None; c_started := 0; c_sessions := ∅ |} in
  ret p.

(** A [std::thread] that stands for no thread has the inert id. *)
Definition impl_is_open (x : channel_impl) : bool := negb (bool_decide (c_runner x = None)).
Definition channel_is_open (ch : Z) : M bool := let* x := channel_at ch in ret (impl_is_open x).
Definition channel_get_id (ch : Z) : M Z := let* x := channel_at ch in ret (c_id x).

(** Starting the thread, and [detach], after which the [std::thread] stands for
    no thread. *)
Definition start_thread (x : channel_impl) : channel_impl :=
  {| c_id := c_id x; c_still_running := c_still_running x; c_runner := Some (c_started x);
     c_started := c_started x + 1; c_sessions := c_sessions x |}.
Definition channel_open (ch : Z) : M unit :=
  let* x := channel_at ch in
  when (negb (impl_is_open x)) (put_channel ch (with_c_runner (start_thread x) None)).

Definition channel_attach (ch s : Z) : M unit :=
  when (negb (s =? 0))
    (let* x := channel_at ch in
     let* y := session_at s in
     put_channel ch (with_c_sessions x (<[s_id y := s]> (c_sessions x)))).
Definition channel_detach (ch session_id : Z) : M unit :=
  let* x := channel_at ch in put_channel ch (with_c_sessions x (delete session_id (c_sessions x))).

(** The loop of the destructor over the sessions; their order does not matter. *)
Fixpoint break_backrefs (ss : list Z) : M unit :=
  match ss with
  | [] => ret tt
  | s :: ss =>
      let* _ := when (negb (s =? 0)) (let* y := session_at s in put_session s (with_s_channel y 0)) in
      break_backrefs ss
  end.
Definition channel_destroy (ch : Z) : M unit :=
  let* x := channel_at ch in
  let* _ := when (impl_is_open x)
    (let* _ := put_channel ch (with_c_still_running x 0) in break_backrefs (map snd (map_to_list (c_sessions x)))) in
  set (fun n => with_channels n (delete ch (channels n))).

Definition get_default : M Z :=
  let* ch := get default_channel in
  if ch =? 0 then let* ch := new_channel in let* _ := set (fun n => with_default_channel n ch) in ret ch
  else ret ch.

(** ** Destructors of sessions and responses, which call each other *)

(** [~impl_t] and [release_ref] of a response, given [delete session]. *)
Definition delete_response (delete_session : Z -> M unit) (p : Z) : M unit :=
  let* x := response_at p in
  let* _ := when (p_owns_session x && negb (p_session x =? 0)) (delete_session (p_session x)) in
  let* x := response_at p in
  let* _ := when (negb (bool_decide (p_effective_url x = no_chars))) (free (p_effective_url x)) in
  let* _ := destroy_headers (p_headers x) in
  set (fun n => with_responses n (delete p (responses n))).
Definition release_response (delete_session : Z -> M unit) (p : Z) : M unit :=
  let* x := response_at p in
  let* _ := put_response p (with_p_refs x (u32 (p_refs x - 1))) in
  when (p_refs x =? 1) (delete_response delete_session p).

(** [session::impl_t::~impl_t]. *)
Definition session_dtor (delete_session : Z -> M unit) (s : Z) : M unit :=
  let* x := session_at s in
  let* _ := when (negb (s_channel x =? 0)) (channel_detach (s_channel x) (s_id x)) in
  let* _ := when (negb (s_request x =? 0))
    (let* r := request_at (s_request x) in
     let* _ := put_request (s_request x) (with_q_session r 0) in
     let* _ := request_release_ref (s_request x) in
     let* y := session_at s in put_session s (with_s_request y 0)) in
  let* y := session_at s in
  let* _ := when (negb (s_response y =? 0))
    (let* r := response_at (s_response y) in
     let* _ := put_response (s_response y) (with_p_session r 0) in
     let* _ := release_response delete_session (s_response y) in
     let* z := session_at s in put_session s (with_s_request z 0)) in
  set (fun n => with_sessions n (delete s (sessions n))).

Fixpoint delete_session (fuel : nat) (s : Z) : M unit :=
  match fuel with
  | O => fun _ => Spin
  | S fuel => session_dtor (delete_session fuel) s
  end.

(** A destructor first takes the session away from the response it releases, so
    each nested call is for another response. *)
Definition session_destroy (s : Z) : M unit := fun n => delete_session (S (size (responses n))) s n.
Definition response_release_ref (p : Z) : M unit := release_response session_destroy p.

(** ** The class [response]: response.cpp *)

Definition response_of_session (session : Z) : M Z := new_response session.
Definition response_move (other : Z) : M (Z * Z) := ret (other, 0).
Definition response_copy (other : Z) : M Z := let* _ := response_add_ref other in ret other.
Definition response_of_impl (other : Z) : M Z := let* _ := response_add_ref other in ret other.
Definition response_destroy (impl : Z) : M unit := when (negb (impl =? 0)) (response_release_ref impl).

Definition response_get_status_code (impl : Z) : M Z := let* x := response_at impl in ret (p_status_code x).
Definition response_get_session (impl : Z) : M Z := let* x := response_at impl in reference sessions (p_session x).
Definition response_get_channel (impl : Z) : M Z :=
  let* x := response_at impl in let* s := session_at (p_session x) in reference channels (s_channel s).
Definition response_get_id (impl : Z) : M Z := let* x := response_at impl in ret (p_id x).
Definition response_get_headers (impl : Z) : M Z := let* x := response_at impl in ret (p_headers x).
Definition response_get_body (impl : Z) : M (list Z) := let* x := response_at impl in ret (p_received_bytes x).

Definition max_stored_response_size : Z := 16 * 1024 * 1024.

(** How many of [byte_count] more bytes are stored; the size to reserve is only
    a hint for the string. *)
Definition bytes_to_store (received_byte_count byte_count : Z) : Z :=
  let desired_byte_count := u64 (received_byte_count + byte_count + 1) in
  if max_stored_response_size <? desired_byte_count
  then u64 (byte_count - (desired_byte_count - max_stored_response_size)) else byte_count.

Definition store_bytes (p : Z) (bytes : list Z) (byte_count : Z) : M Z :=
  let* x := response_at p in
  let* s := session_at (p_session x) in
  let* _ := when (bool_decide (s_state s = requesting) || bool_decide (s_state s = waiting_for_response))
    (put_session (p_session x) (with_s_state s accepting_response)) in
  if negb (byte_count =? 0) then
    let received_byte_count := Zlen (p_received_bytes x) in
    if max_stored_response_size <=? received_byte_count then ret 0
    else
      let byte_count := bytes_to_store received_byte_count byte_count in
      if byte_count <=? Zlen bytes then
        let* _ := put_response p (with_p_received_bytes x (p_received_bytes x ++ take (Z.to_nat byte_count) bytes)) in
        ret byte_count
      else undef
  else ret byte_count.

Definition store_header (m : mem) (p : Z) (txt byte_count : Z) : M Z :=
  if negb (byte_count =? 0) then
    let captured_byte_count := u64 (byte_count - 2) in
    let* crlf :=
      if 2 <=? byte_count then
        let* c := lift (load m (txt + (byte_count - 2))) in
        if c =? CR then let* d := lift (load m (txt + (byte_count - 1))) in ret (d =? LF) else ret false
      else ret false in
    if crlf && (byte_count =? 2) then ret byte_count
    else
      let captured_byte_count := if crlf : bool then captured_byte_count else u64 (captured_byte_count + 2) in
      let* x := response_at p in
      let* _ := add_header m (p_headers x) (view_of_length txt captured_byte_count) in
      ret byte_count
  else ret byte_count.

(** The macro [update_item], used twice for the first total. *)
Definition update_progress (p : Z) (expected_receive_total received_so_far expected_send_total sent_byte_count : Z) : M bool :=
  let* x := response_at p in
  let change1 := negb (expected_receive_total =? p_expected_receive_total x) in
  let change2 := negb (expected_send_total =? p_expected_send_total x) in
  let change3 := negb (sent_byte_count =? p_sent_byte_count x) in
  let* _ := put_response p {| p_id := p_id x; p_session := p_session x; p_owns_session := p_owns_session x;
    p_headers := p_headers x; p_received_bytes := p_received_bytes x;
    p_expected_receive_total := expected_receive_total; p_sent_byte_count := sent_byte_count;
    p_expected_send_total := expected_send_total; p_status_code := p_status_code x;
    p_effective_url := p_effective_url x; p_refs := p_refs x |} in
  ret (change1 || change2 || change3).

(** ** The class [session]: session.cpp *)

Definition CURL_ERROR_SIZE : Z := 256.
Definition CURL_POLL_NONE : Z := 0.
Definition CURLM_OK : Z := 0.
Definition CURLM_BAD_SOCKET : Z := 5.

Definition new_session (ch : Z) : M Z :=
  let* s := alloc in
  let* i := get_next_session_id in
  let* q := new_request s in
  let* p := new_response s in
  let* _ := put_session s {| s_id := i; s_channel := ch; s_request := q; s_response := p; s_easy := []; s_error := [];
    s_state := configuring; s_socket_state := CURL_POLL_NONE |} in
  let* _ := channel_attach ch s in
  ret s.
Definition new_default_session : M Z := let* ch := get_default in new_session ch.

(** The C string that [copy_error] leaves in the buffer. *)
Definition copy_error (txt : option (list Z)) (bytes_to_copy : Z) : list Z :=
  if negb (bytes_to_copy =? 0) && not_empty txt
  then c_str (take (Z.to_nat (Z.min (CURL_ERROR_SIZE - 1) bytes_to_copy)) (default [] txt)) else [].
Definition session_set_error (s : Z) (txt : option (list Z)) : M unit :=
  let* x := session_at s in
  put_session s (with_s_error x (copy_error txt (match txt with Some t => Zlen t | None => 0 end))).

Definition session_get_state (s : Z) : M session_state := let* x := session_at s in ret (s_state x).
Definition session_get_id (s : Z) : M Z := let* x := session_at s in ret (s_id x).
Definition session_get_channel (s : Z) : M Z := let* x := session_at s in ret (s_channel x).
Definition get_current_request (s : Z) : M Z := let* x := session_at s in request_of_impl (s_request x).
Definition get_current_response (s : Z) : M Z := let* x := session_at s in response_of_impl (s_response x).
Definition session_get (s : Z) (url : option (list Z)) : M Z := response_of_session s.

Definition setopts (s : Z) (os : list curlopt) : M unit :=
  let* x := session_at s in put_session s (with_s_easy x (s_easy x ++ os)).

(** The method of a verb, as the lookup by name finds it; [method->id] of null is
    undefined. *)
Definition method_of (verb : chars) : M http_method_id :=
  let* t := if bool_decide (verb = no_chars) then ret None else let* t := text_at verb in ret (Some t) in
  let* r := lift (match t with
    | None => get_http_method_by_name ∅ 0
    | Some t => get_http_method_by_name (map_seqZ 1 (t ++ [0])) 1
    end) in
  match r with Some h => ret (HttpMethod.id h) | None => undef end.
Definition set_curl_verb (s : Z) (verb : chars) : M unit :=
  let* i := method_of verb in
  match i with
  | http_get => setopts s [CURLOPT_HTTPGET]
  | http_post => setopts s [CURLOPT_HTTPPOST; CURLOPT_POSTFIELDSIZE 0]
  | _ => ret tt
  end.

Definition mcode_or_die (code : Z) : M unit :=
  if code =? CURLM_OK then ret tt else if code =? CURLM_BAD_SOCKET then ret tt else throw (process_exit code).

Definition set_state (s : Z) (st : session_state) : M unit :=
  let* x := session_at s in put_session s (with_s_state x st).
Definition session_set_error_string (s : Z) (txt : list Z) : M unit :=
  let* x := session_at s in put_session s (with_s_error x (copy_error (Some txt) (Zlen txt))).

Definition reset_prelocked (s : Z) : M unit :=
  let* x := session_at s in
  if negb (bool_decide (s_state x = configuring)) then
    let* _ := request_release_ref (s_request x) in
    let* q := new_request s in
    let* x := session_at s in put_session s (with_s_request x q)
  else
    let* r := request_at (s_request x) in
    let* _ := when (negb (bool_decide (q_url r = no_chars)))
      (let* _ := free (q_url r) in put_request (s_request x) (with_q_url r no_chars)) in
    free_verb (s_request x).
Definition session_reset (s : Z) : M Z :=
  let* _ := reset_prelocked s in let* x := session_at s in request_of_impl (s_request x).

(** [printf] is what the C library prints, [add_handle] what libcurl answers when
    the easy handle of a session is added, [effective_url] and [response_code] what
    it says of a transfer. *)
Section libcurl.
Context (printf : list Z -> printed -> list Z) (add_handle : net -> Z -> Z)
  (effective_url : net -> Z -> list Z) (response_code : net -> Z -> Z).

(** The message of [send_prelocked], with its literals in memory. *)
Definition state_message (st : session_state) : res (list Z) :=
  match get_name_for_session_state st with
  | Some name =>
      interp printf (cstr_at 16 "Session state is '{1}'; request cannot be sent." ∪ cstr_at 200 name) 16 [arg_of_cstr 200]
  | None => interp printf (cstr_at 16 "Session state is '{1}'; request cannot be sent.") 16 [arg_of_cstr 0]
  end.

Definition send_prelocked (s : Z) : M unit :=
  let* x := session_at s in
  if s_channel x =? 0 then throw (state_error (str "Session is detached from channel."))
  else
    let* _ := channel_at (s_channel x) in
    if negb (bool_decide (s_state x = configuring)) then
      let* what := lift (state_message (s_state x)) in throw (state_error what)
    else
      let* url := if s_request x =? 0 then ret no_chars else let* r := request_at (s_request x) in ret (q_url r) in
      let* t := if bool_decide (url = no_chars) then ret [] else text_at url in
      if bool_decide (t = []) then throw (state_error (str "No url has been configured in the request."))
      else
        let* r := request_at (s_request x) in
        let* _ := setopts s [CURLOPT_URL t] in
        let* _ := set_curl_verb s (q_verb r) in
        let* _ := setopts s [CURLOPT_WRITEFUNCTION (s_response x); CURLOPT_HEADERFUNCTION (s_response x); CURLOPT_VERBOSE;
          CURLOPT_ERRORBUFFER s; CURLOPT_PRIVATE s; CURLOPT_XFERINFOFUNCTION (s_response x);
          CURLOPT_OPENSOCKETFUNCTION (s_channel x); CURLOPT_CLOSESOCKETFUNCTION (s_channel x)] in
        let* _ := channel_open (s_channel x) in
        let* _ := set_state s requesting in
        let* rc := get (fun n => add_handle n s) in
        mcode_or_die rc.
Definition session_send (s : Z) : M Z :=
  let* _ := send_prelocked s in let* x := session_at s in response_of_impl (s_response x).
Definition session_start_get (s : Z) (url : option (list Z)) : M Z :=
  let* _ := reset_prelocked s in
  let* x := session_at s in
  let* _ := impl_set_url (s_request x) url in
  let* _ := impl_set_verb (s_request x) (Some (str "get")) in
  let* _ := send_prelocked s in
  let* x := session_at s in response_of_impl (s_response x).

(** The end of a transfer.  [curl_multi_remove_handle] is handed the multi handle of the channel, which is
    reached through the session, whether the channel is still there or not. *)
Definition cleanup_after_transfer (s : Z) : M unit :=
  let* x := session_at s in
  if bool_decide (s_state x = idle) then ret tt
  else
    let* _ := put_session s (with_s_state x idle) in
    let* u := get (fun n => effective_url n s) in
    let* code := get (fun n => response_code n s) in
    let* r := response_at (s_response x) in
    let* _ := put_response (s_response x) {| p_id := p_id r; p_session := p_session r; p_owns_session := p_owns_session r;
      p_headers := p_headers r; p_received_bytes := p_received_bytes r;
      p_expected_receive_total := p_expected_receive_total r; p_sent_byte_count := p_sent_byte_count r;
      p_expected_send_total := p_expected_send_total r; p_status_code := u16 code;
      p_effective_url := of_libcurl u; p_refs := p_refs r |} in
    let* _ := channel_at (s_channel x) in ret tt.

Definition wait_millisecs (timeout_millisecs : Z) : Z := Z.max 100 timeout_millisecs.

(** [wait]: [meanwhile] is what other threads do until the time is over or the
    session is not busy. *)
Definition session_wait (s : Z) (meanwhile : net -> net) : M bool :=
  let* x := session_at s in
  match s_state x with
  | configuring => ret false
  | idle => ret true
  | _ =>
      let* _ := set meanwhile in
      let* x := session_at s in ret (negb (is_busy (s_state x)))
  end.
Definition response_wait (impl : Z) (meanwhile : net -> net) : M bool :=
  let* x := response_at impl in session_wait (p_session x) meanwhile.

(** [request::start_get] and [request::get]: [new session] and its response. *)
Definition request_start_get (url : option (list Z)) : M Z :=
  let* s := new_default_session in
  let* temporary := session_start_get s url in
  let* _ := response_destroy temporary in
  let* x := session_at s in
  let* r := response_at (s_response x) in
  let* _ := put_response (s_response x) (with_p_owns_session r true) in
  response_of_impl (s_response x).
Definition request_get (url : option (list Z)) (meanwhile : net -> net) : M Z :=
  let* resp := request_start_get url in
  let* _ := response_wait resp meanwhile in ret resp.
Definition request_start_get_string (url : list Z) : M Z := request_start_get (Some (c_str url)).
Definition request_get_string (url : list Z) (meanwhile : net -> net) : M Z := request_get (Some (c_str url)) meanwhile.
End libcurl.

(** ** Examples *)

Definition net_empty : net := {| strings := ∅; requests := ∅; responses := ∅; sessions := ∅; channels := ∅;
  collections := {| cells := ∅; brk := 1 |}; next_address := 1; next_request_id := 0; next_response_id := 0;
  next_session_id := 0; next_channel_id := 0; default_channel := 0 |}.

Definition start_example : M Z := request_start_get any_printf (fun _ _ => 0) (Some (str "http://x/")).

(** The session of a one-off request outlives every handle. *)
Lemma one_off_session_leaks : exists n,
  (let* r := start_example in response_destroy r) net_empty = Ok (n, inr tt) /\
  size (sessions n) = 1%nat /\ size (responses n) = 1%nat /\ size (requests n) = 1%nat.
Proof. eexists. vm_compute. repeat split. Qed.

(** After a transfer a session cannot be used again: [reset] leaves it idle. *)
Lemma reset_session_does_not_send : exists n,
  (let* s := new_default_session in
   let* _ := session_start_get any_printf (fun _ _ => 0) s (Some (str "a")) in
   let* _ := cleanup_after_transfer (fun _ _ => str "a") (fun _ _ => 200) s in
   let* q := session_reset s in
   let* _ := request_set_url q (Some (str "b")) in
   session_send any_printf (fun _ _ => 0) s) net_empty =
  Ok (n, inl (state_error (str "Session state is 'idle'; request cannot be sent."))).
Proof. eexists. vm_compute. reflexivity. Qed.

(** When the session of a finished transfer dies first, with the last handle the
    response frees the URL that belongs to libcurl. *)
Lemma effective_url_freed_twice :
  (let* s := new_default_session in
   let* r := session_start_get any_printf (fun _ _ => 0) s (Some (str "a")) in
   let* _ := cleanup_after_transfer (fun _ _ => str "a") (fun _ _ => 200) s in
   let* _ := response_destroy r in
   session_destroy s) net_empty = Undef.
Proof. vm_compute. reflexivity. Qed.

(** A verb that is not in the table of methods, or none, is dereferenced as null. *)
Lemma unknown_verb_undefined :
  (let* s := new_default_session in
   let* q := get_current_request s in
   let* _ := request_set_url q (Some (str "a")) in
   session_send any_printf (fun _ _ => 0) s) net_empty = Undef.
Proof. vm_compute. reflexivity. Qed.

(** A channel is closed at once after it was opened. *)
Lemma channel_open_closes ch n x : channels n !! ch = Some x -> c_runner x = None ->
  exists n', channel_open ch n = Ok (n', inr tt) /\ channel_is_open ch n' = Ok (n', inr false).
Proof.
  intros Hx Hr. unfold channel_open, channel_at, andthen, deref. rewrite Hx. cbn [bind].
  unfold impl_is_open. rewrite Hr. cbn. eexists. split; [done|].
  unfold channel_is_open, channel_at, deref, andthen. simpl. by rewrite lookup_insert_eq.
Qed.
