(* ===== verification/CurlProtocol.v ===== *)
(** * The life of a session

    Any sequence of operations on the objects of [Curl], whatever thread runs
    them: how the state of a session can change, and how often it sends. *)

From stdpp Require Import base tactics list gmap strings.
From Stdlib Require Import ZArith Lia.
From S2P Require Import Prelude CString StrView StdString Headers HttpMethod Arg Interp Curl.
#[local] Open Scope Z_scope.

(** ** How code changes the sessions *)

(** Addresses are given out in order. *)
Definition well_formed (n : net) : Prop := forall s x, sessions n !! s = Some x -> s < next_address n.

Section keeps.
Context (P : session_state -> session_state -> Prop) `{!Reflexive P} `{!Transitive P}.

(** From [n] to [n'] a session stays, with a state related by [P], dies for good,
    or is new. *)
Record evolves (n n' : net) : Prop := {
  ev_wf : well_formed n';
  ev_next : next_address n <= next_address n';
  ev_session : forall s x', sessions n' !! s = Some x' ->
    (exists x, sessions n !! s = Some x /\ P (s_state x) (s_state x') /\ s_id x' = s_id x) \/
    (sessions n !! s = None /\ next_address n <= s);
}.

Lemma evolves_refl n : well_formed n -> evolves n n.
Proof. intros Hwf. split; [done|lia|]. intros s x Hx. left. by exists x. Qed.

Lemma evolves_trans n n1 n2 : well_formed n -> evolves n n1 -> evolves n1 n2 -> evolves n n2.
Proof.
  intros Hwf [Hwf1 Hn1 H1] [Hwf2 Hn2 H2]. split; [done|lia|]. intros s x2 Hx2.
  destruct (H2 s x2 Hx2) as [(x1 & Hx1 & HP1 & Hid1)|[Hnone Hs]].
  - destruct (H1 s x1 Hx1) as [(x & Hx & HP & Hid)|[Hnone Hs]]; [|by right].
    left. exists x. split; [done|]. split; [by transitivity (s_state x1)|congruence].
  - right. split; [|lia]. destruct (sessions n !! s) as [x|] eqn:Hx; [|done]. apply Hwf in Hx. lia.
Qed.

Definition keeps_at {A} (n : net) (m : M A) : Prop :=
  match m n with Ok (n', _) => evolves n n' | _ => True end.
Definition keeps {A} (m : M A) : Prop := forall n, well_formed n -> keeps_at n m.

Lemma keeps_at_andthen {A B} (m : M A) (k : A -> M B) n : well_formed n -> keeps_at n m ->
  (forall n' a, m n = Ok (n', inr a) -> evolves n n' -> keeps_at n' (k a)) -> keeps_at n (let* a := m in k a).
Proof.
  unfold keeps_at, andthen. intros Hwf Hm Hk. destruct (m n) as [[n' [e|a]]| | |] eqn:E; cbn [bind]; [done| |done..].
  specialize (Hk n' a eq_refl Hm). destruct (k a n') as [[n2 r]| | |]; [|done..]. by eapply evolves_trans.
Qed.

Lemma keeps_andthen {A B} (m : M A) (k : A -> M B) : keeps m -> (forall a, keeps (k a)) -> keeps (let* a := m in k a).
Proof. intros Hm Hk n Hwf. apply keeps_at_andthen; [done|by apply Hm|]. intros n' a _ Hev. apply Hk, Hev. Qed.

Lemma keeps_ret {A} (a : A) : keeps (ret a).
Proof. intros n Hwf. by apply evolves_refl. Qed.
Lemma keeps_throw {A} e : keeps (@throw A e).
Proof. intros n Hwf. by apply evolves_refl. Qed.
Lemma keeps_undef {A} : keeps (@undef A).
Proof. by intros n Hwf. Qed.
Lemma keeps_lift {A} (r : res A) : keeps (lift r).
Proof. intros n Hwf. unfold keeps_at, lift. destruct r; try done; by apply evolves_refl. Qed.
Lemma keeps_get {A} (f : net -> A) : keeps (get f).
Proof. intros n Hwf. by apply evolves_refl. Qed.
Lemma keeps_deref {A} (o : net -> gmap Z A) p : keeps (deref o p).
Proof. intros n Hwf. unfold keeps_at, deref. destruct (o n !! p); [by apply evolves_refl|done]. Qed.
Lemma keeps_when b m : (b = true -> keeps m) -> keeps (when b m).
Proof. intros Hm. destruct b; [by apply Hm|apply keeps_ret]. Qed.
Lemma keeps_if {A} (b : bool) (m1 m2 : M A) : (b = true -> keeps m1) -> (b = false -> keeps m2) -> keeps (if b then m1 else m2).
Proof. destruct b; auto. Qed.

(** Code that leaves the sessions alone. *)
Lemma keeps_sessions {A} (m : M A) : (forall n n' r, m n = Ok (n', r) -> sessions n' = sessions n /\ next_address n <= next_address n') -> keeps m.
Proof.
  intros Hm n Hwf. unfold keeps_at. destruct (m n) as [[n' r]| | |] eqn:E; [|done..]. destruct (Hm _ _ _ E) as [Hs Hn]. split; [|done|].
  - intros s x Hx. rewrite Hs in Hx. apply Hwf in Hx. lia.
  - intros s x Hx. rewrite Hs in Hx. left. by exists x.
Qed.
Lemma keeps_set f : (forall n, sessions (f n) = sessions n /\ next_address n <= next_address (f n)) -> keeps (set f).
Proof. intros Hf. apply keeps_sessions. intros n n' r [= <- <-]. apply Hf. Qed.

(** Code that changes a session. *)
Lemma keeps_at_put n s x x' : well_formed n -> sessions n !! s = Some x -> P (s_state x) (s_state x') -> s_id x' = s_id x ->
  keeps_at n (put_session s x').
Proof.
  intros Hwf Hx HP Hid. unfold keeps_at, put_session, set. split; simpl; [|lia|].
  - intros t y. simpl. destruct (decide (t = s)) as [->|]; [intros _; by eapply Hwf|]. rewrite lookup_insert_ne by done. apply Hwf.
  - intros t y. simpl. destruct (decide (t = s)) as [->|].
    + rewrite lookup_insert_eq. intros [= <-]. left. by exists x.
    + rewrite lookup_insert_ne by done. intros Hy. left. by exists y.
Qed.

Lemma keeps_session {A} s (k : session_impl -> M A) :
  (forall n x, well_formed n -> sessions n !! s = Some x -> keeps_at n (k x)) -> keeps (let* x := session_at s in k x).
Proof.
  intros Hk n Hwf. unfold keeps_at, andthen, session_at, deref. destruct (sessions n !! s) as [x|] eqn:Hx; cbn [bind]; [|done].
  by apply Hk.
Qed.

Lemma keeps_update s (f : session_impl -> session_impl) : (forall x, P (s_state x) (s_state (f x)) /\ s_id (f x) = s_id x) ->
  keeps (let* x := session_at s in put_session s (f x)).
Proof. intros Hf. apply keeps_session. intros n x Hwf Hx. destruct (Hf x). by eapply keeps_at_put. Qed.

Lemma keeps_delete s : keeps (set (fun n => with_sessions n (delete s (sessions n)))).
Proof.
  intros n Hwf. split; simpl; [|lia|]; intros t y Hy; simpl in *; apply lookup_delete_Some in Hy as [_ Hy]; [by apply Hwf in Hy|].
  left. by exists y.
Qed.

(** What holds when code is done, however it ends. *)
Definition ensures {A} (n : net) (m : M A) (Q : net -> exn + A -> Prop) : Prop :=
  match m n with Ok (n', r) => Q n' r | _ => True end.

(** A step of code that started in [base]. *)
Lemma ensures_step {A B} base n (m : M A) (k : A -> M B) Q : well_formed base -> evolves base n -> keeps m ->
  (forall n' e, evolves base n' -> Q n' (inl e)) -> (forall n' a, evolves base n' -> ensures n' (k a) Q) ->
  ensures n (let* a := m in k a) Q.
Proof.
  intros Hwf Hev Hm Hthrow Hk. unfold ensures, andthen. specialize (Hm n (ev_wf _ _ Hev)). unfold keeps_at in Hm.
  destruct (m n) as [[n' [e|a]]| | |]; cbn [bind]; [|by apply Hk, (evolves_trans base n n')|done..].
  by apply Hthrow, (evolves_trans base n n').
Qed.
End keeps.

(** ** The operations that do not change the state of a session *)

Ltac keeps_tc :=
  try match goal with
  | |- Reflexive _ => solve [typeclasses eauto]
  | |- Transitive _ => solve [typeclasses eauto]
  end.
Ltac keeps_base :=
  match goal with
  | |- keeps _ (ret _) => apply keeps_ret; keeps_tc
  | |- keeps _ (throw _) => apply keeps_throw; keeps_tc
  | |- keeps _ undef => apply keeps_undef; keeps_tc
  | |- keeps _ (lift _) => apply keeps_lift; keeps_tc
  | |- keeps _ (get _) => apply keeps_get; keeps_tc
  | |- keeps _ (deref _ _) => apply keeps_deref; keeps_tc
  | |- keeps _ (request_at _) => apply keeps_deref; keeps_tc
  | |- keeps _ (response_at _) => apply keeps_deref; keeps_tc
  | |- keeps _ (channel_at _) => apply keeps_deref; keeps_tc
  | |- keeps _ (session_at _) => apply keeps_deref; keeps_tc
  | |- keeps _ (set _) => apply keeps_set; keeps_tc; intros ?; simpl; (split; [reflexivity|lia])
  | |- keeps _ (when _ _) => apply keeps_when; keeps_tc; intros _
  | |- keeps _ (if _ then _ else _) => apply keeps_if; keeps_tc; intros _
  | |- keeps _ (let* x := session_at _ in put_session _ _) => apply keeps_update; keeps_tc; intros ?; split; [simpl; reflexivity|reflexivity]
  | |- keeps _ (andthen _ _) => apply keeps_andthen; keeps_tc; [|intros ?]
  | |- keeps _ (match ?x with _ => _ end) => destruct x
  end.
Ltac keeps_all := repeat (keeps_base || solve [eauto with curl typeclass_instances]).

Section operations.
Context (P : session_state -> session_state -> Prop) `{!Reflexive P} `{!Transitive P}.

Lemma keeps_put_request p x : keeps P (put_request p x).
Proof. unfold put_request. keeps_all. Qed.
Lemma keeps_put_response p x : keeps P (put_response p x).
Proof. unfold put_response. keeps_all. Qed.
Lemma keeps_put_channel p x : keeps P (put_channel p x).
Proof. unfold put_channel. keeps_all. Qed.
Lemma keeps_alloc : keeps P alloc.
Proof. apply keeps_sessions; keeps_tc. intros n n' r [= <- <-]. simpl. split; [done|lia]. Qed.
Lemma keeps_ids : keeps P get_next_request_id /\ keeps P get_next_response_id /\ keeps P get_next_session_id /\ keeps P get_next_id.
Proof. split_and!; apply keeps_sessions; keeps_tc; intros n n' r [= <- <-]; simpl; (split; [done|lia]). Qed.
Lemma keeps_next_request_id : keeps P get_next_request_id.
Proof. apply keeps_ids. Qed.
Lemma keeps_next_response_id : keeps P get_next_response_id.
Proof. apply keeps_ids. Qed.
Lemma keeps_next_session_id : keeps P get_next_session_id.
Proof. apply keeps_ids. Qed.
Lemma keeps_next_id : keeps P get_next_id.
Proof. apply keeps_ids. Qed.
Lemma keeps_new_headers : keeps P new_headers.
Proof.
  apply keeps_sessions; keeps_tc. intros n n' r. unfold new_headers. destruct (headers_new (collections n)). intros [= <- <-]. simpl. split; [done|lia].
Qed.
#[local] Hint Resolve keeps_put_request keeps_put_response keeps_put_channel keeps_alloc keeps_next_request_id keeps_next_response_id
  keeps_next_session_id keeps_next_id keeps_new_headers : curl.

Lemma keeps_strdup t : keeps P (strdup t).
Proof. unfold strdup. keeps_all. Qed.
Lemma keeps_free c : keeps P (free c).
Proof. unfold free. keeps_all. Qed.
Lemma keeps_text_at c : keeps P (text_at c).
Proof. unfold text_at. keeps_all. Qed.
Lemma keeps_destroy_headers p : keeps P (destroy_headers p).
Proof. unfold destroy_headers. keeps_all. Qed.
Lemma keeps_add_header m p l : keeps P (add_header m p l).
Proof. unfold add_header. keeps_all. Qed.
#[local] Hint Resolve keeps_strdup keeps_free keeps_text_at keeps_destroy_headers keeps_add_header : curl.

Lemma keeps_new_request s : keeps P (new_request s).
Proof. unfold new_request. keeps_all. Qed.
Lemma keeps_free_verb p : keeps P (free_verb p).
Proof. unfold free_verb. keeps_all. Qed.
#[local] Hint Resolve keeps_new_request keeps_free_verb : curl.
Lemma keeps_delete_request p : keeps P (delete_request p).
Proof. unfold delete_request. keeps_all. Qed.
Lemma keeps_request_add_ref p : keeps P (request_add_ref p).
Proof. unfold request_add_ref. keeps_all. Qed.
#[local] Hint Resolve keeps_delete_request keeps_request_add_ref : curl.
Lemma keeps_request_release_ref p : keeps P (request_release_ref p).
Proof. unfold request_release_ref. keeps_all. Qed.
Lemma keeps_impl_set_url p v : keeps P (impl_set_url p v).
Proof. unfold impl_set_url. keeps_all. Qed.
Lemma keeps_impl_set_verb p v : keeps P (impl_set_verb p v).
Proof. unfold impl_set_verb. keeps_all. Qed.
#[local] Hint Resolve keeps_request_release_ref keeps_impl_set_url keeps_impl_set_verb : curl.

Lemma keeps_request_copy p : keeps P (request_copy p).
Proof. unfold request_copy. keeps_all. Qed.
Lemma keeps_request_of_impl p : keeps P (request_of_impl p).
Proof. unfold request_of_impl. keeps_all. Qed.
Lemma keeps_request_destroy p : keeps P (request_destroy p).
Proof. unfold request_destroy. keeps_all. Qed.
Lemma keeps_request_set_verb p v : keeps P (request_set_verb p v).
Proof. unfold request_set_verb. keeps_all. Qed.
Lemma keeps_request_set_url p v : keeps P (request_set_url p v).
Proof. unfold request_set_url. keeps_all. Qed.
Lemma keeps_new_response s : keeps P (new_response s).
Proof. unfold new_response. keeps_all. Qed.
Lemma keeps_response_add_ref p : keeps P (response_add_ref p).
Proof. unfold response_add_ref. keeps_all. Qed.
#[local] Hint Resolve keeps_request_copy keeps_request_of_impl keeps_request_destroy keeps_request_set_verb keeps_request_set_url
  keeps_new_response keeps_response_add_ref : curl.
Lemma keeps_response_of_impl p : keeps P (response_of_impl p).
Proof. unfold response_of_impl. keeps_all. Qed.

Lemma keeps_new_channel : keeps P new_channel.
Proof. unfold new_channel. keeps_all. Qed.
Lemma keeps_channel_open c : keeps P (channel_open c).
Proof. unfold channel_open. keeps_all. Qed.
Lemma keeps_channel_attach c s : keeps P (channel_attach c s).
Proof. unfold channel_attach. keeps_all. Qed.
Lemma keeps_channel_detach c s : keeps P (channel_detach c s).
Proof. unfold channel_detach. keeps_all. Qed.
#[local] Hint Resolve keeps_response_of_impl keeps_new_channel keeps_channel_open keeps_channel_attach keeps_channel_detach : curl.
Lemma keeps_break_backrefs ss : keeps P (break_backrefs ss).
Proof. induction ss as [|s ss IH]; cbn [break_backrefs]; keeps_all. Qed.
Lemma keeps_get_default : keeps P get_default.
Proof. unfold get_default. keeps_all. Qed.
#[local] Hint Resolve keeps_break_backrefs keeps_get_default : curl.
Lemma keeps_channel_destroy c : keeps P (channel_destroy c).
Proof. unfold channel_destroy. keeps_all. Qed.

Lemma keeps_release_response d p : (forall s, keeps P (d s)) -> keeps P (release_response d p).
Proof. intros Hd. unfold release_response, delete_response. keeps_all. Qed.
#[local] Hint Resolve keeps_release_response keeps_delete : curl.
Lemma keeps_delete_session fuel : forall s, keeps P (delete_session fuel s).
Proof.
  induction fuel as [|fuel IH]; intros s; cbn [delete_session]; [by intros n Hwf|]. unfold session_dtor. keeps_all.
Qed.
Lemma keeps_session_destroy s : keeps P (session_destroy s).
Proof. intros n Hwf. unfold session_destroy. by apply keeps_delete_session. Qed.
#[local] Hint Resolve keeps_session_destroy : curl.
Lemma keeps_response_destroy p : keeps P (response_destroy p).
Proof. unfold response_destroy, response_release_ref. keeps_all. Qed.
End operations.

#[export] Hint Resolve keeps_put_request keeps_put_response keeps_put_channel keeps_alloc keeps_next_session_id keeps_new_request
  keeps_free keeps_text_at keeps_free_verb keeps_request_release_ref keeps_impl_set_url keeps_impl_set_verb keeps_request_of_impl
  keeps_new_response keeps_response_of_impl keeps_channel_open keeps_channel_attach keeps_get_default keeps_add_header
  keeps_response_destroy keeps_new_channel keeps_channel_destroy keeps_session_destroy keeps_request_copy keeps_request_destroy
  keeps_request_set_verb keeps_request_set_url keeps_response_add_ref : curl.

Section more_operations.
Context (P : session_state -> session_state -> Prop) `{!Reflexive P} `{!Transitive P}.

Lemma keeps_setopts s os : keeps P (setopts s os).
Proof. unfold setopts. keeps_all. Qed.
#[local] Hint Resolve keeps_setopts : curl.
Lemma keeps_set_curl_verb s c : keeps P (set_curl_verb s c).
Proof. unfold set_curl_verb, method_of. keeps_all. Qed.
Lemma keeps_mcode_or_die c : keeps P (mcode_or_die c).
Proof. unfold mcode_or_die. keeps_all. Qed.
Lemma keeps_reset_prelocked s : keeps P (reset_prelocked s).
Proof. unfold reset_prelocked. keeps_all. Qed.
Lemma keeps_store_header m p txt k : keeps P (store_header m p txt k).
Proof. unfold store_header. keeps_all. Qed.
Lemma keeps_update_progress p a b c d : keeps P (update_progress p a b c d).
Proof. unfold update_progress. keeps_all. Qed.

(** The address of a new session is not that of another one. *)
Lemma keeps_new_session ch : keeps P (new_session ch).
Proof.
  intros n Hwf. unfold new_session. set (s := next_address n). set (base := with_next_address n (s + 1)).
  assert (well_formed base) as Hwfb by (intros t x Hx; simpl in *; apply Hwf in Hx; unfold s; lia).
  assert (evolves P n base) as Hnb by (split; [done|simpl; unfold s; lia|intros t x Hx; left; by exists x]).
  change (ensures base (let* i := get_next_session_id in let* q := new_request s in let* p := new_response s in
    let* _ := put_session s {| s_id := i; s_channel := ch; s_request := q; s_response := p; s_easy := []; s_error := [];
      s_state := configuring; s_socket_state := CURL_POLL_NONE |} in
    let* _ := channel_attach ch s in ret s) (fun n' _ => evolves P n n')).
  assert (forall n', evolves P base n' -> evolves P n n') as Htrans by (intros n' Hev; by apply (evolves_trans P n base)).
  apply (ensures_step P base base); [done|by apply evolves_refl|by apply keeps_next_session_id|auto|]. intros n1 i Hev1.
  apply (ensures_step P base n1); [done|done|by apply keeps_new_request|auto|]. intros n2 q Hev2.
  apply (ensures_step P base n2); [done|done|by apply keeps_new_response|auto|]. intros n3 p Hev3.
  set (x := Build_session_impl i ch q p [] [] configuring CURL_POLL_NONE).
  assert (sessions n3 !! s = None) as Hfresh.
  { destruct (sessions n3 !! s) as [y|] eqn:Hy; [|done]. destruct (ev_session _ _ _ Hev3 s y Hy) as [(z & Hz & _)|[_ Hle]].
    - apply Hwf in Hz. unfold s in Hz. lia.
    - unfold base, s in Hle. simpl in Hle. lia. }
  assert (evolves P n (with_sessions n3 (<[s := x]> (sessions n3)))) as Hput.
  { destruct (Htrans n3 Hev3) as [Hwf3 Hn3 Hs3]. pose proof (ev_next _ _ _ Hev3) as Hnext. split; simpl; [|lia|].
    - intros t y Hy. simpl in *. destruct (decide (t = s)) as [->|]; [unfold base in Hnext; simpl in Hnext; lia|].
      rewrite lookup_insert_ne in Hy by done. by eapply Hwf3.
    - intros t y Hy. destruct (decide (t = s)) as [->|]; [|rewrite lookup_insert_ne in Hy by done; by apply Hs3].
      right. split; [|unfold s; lia]. destruct (sessions n !! s) as [z|] eqn:Hz; [|done]. apply Hwf in Hz. unfold s in Hz. lia. }
  change (ensures (with_sessions n3 (<[s := x]> (sessions n3))) (let* _ := channel_attach ch s in ret s) (fun n' _ => evolves P n n')).
  apply (ensures_step P n); [done|done|by apply keeps_channel_attach|auto|]. intros n4 _ Hev4. exact Hev4.
Qed.
#[local] Hint Resolve keeps_new_session : curl.
Lemma keeps_new_default_session : keeps P new_default_session.
Proof. unfold new_default_session. keeps_all. Qed.
End more_operations.

#[export] Hint Resolve keeps_setopts keeps_set_curl_verb keeps_mcode_or_die keeps_reset_prelocked keeps_store_header keeps_update_progress
  keeps_new_session keeps_new_default_session : curl.

(** ** The operations that change the state of a session *)

(** The same state, or one further on other than [waiting_for_response]. *)
Definition later (a b : session_state) : Prop := a = b \/ state_number a < state_number b /\ b <> waiting_for_response.
#[export] Instance later_reflexive : Reflexive later.
Proof. intros a. by left. Qed.
#[export] Instance later_transitive : Transitive later.
Proof. intros a b c [->|[Hab Hb]] [->|[Hbc Hc]]; [by left|by right|by right|right; split; [lia|done]]. Qed.

(** The same of code that ends no transfer: it does not make a session idle. *)
Definition onward (a b : session_state) : Prop :=
  a = b \/ state_number a < state_number b /\ b <> waiting_for_response /\ b <> idle.
#[export] Instance onward_reflexive : Reflexive onward.
Proof. intros a. by left. Qed.
#[export] Instance onward_transitive : Transitive onward.
Proof. intros a b c [->|[Hab Hb]] [->|[Hbc Hc]]; [by left|by right|by right|right; split; [lia|done]]. Qed.

Lemma onward_later a b : onward a b -> later a b.
Proof. unfold onward, later. tauto. Qed.
Lemma onward_busy a b : onward a b -> is_busy a = true -> is_busy b = true.
Proof. intros [->|(Hab & _ & Hb)]; [done|]. by destruct a, b; simpl in *; try lia. Qed.

Lemma evolves_mono (P Q : session_state -> session_state -> Prop) n n' :
  (forall a b, P a b -> Q a b) -> evolves P n n' -> evolves Q n n'.
Proof.
  intros HPQ [Hwf Hn Hs]. split; [done|done|]. intros s x' Hx'. destruct (Hs s x' Hx') as [(x & Hx & HP & Hid)|]; [|by right].
  left. exists x. split; [done|]. split; [by apply HPQ|done].
Qed.
Lemma evolves_onward n n' : evolves eq n n' -> evolves onward n n'.
Proof. apply evolves_mono. intros a b ->. by left. Qed.
Lemma evolves_later n n' : evolves onward n n' -> evolves later n n'.
Proof. apply evolves_mono, onward_later. Qed.

(** A session is still the one it was, as far as its state goes. *)
Lemma evolves_eq_state n n' s x x' : well_formed n -> evolves eq n n' -> sessions n !! s = Some x -> sessions n' !! s = Some x' -> s_state x' = s_state x.
Proof.
  intros Hwf [_ _ Hs] Hx Hx'. destruct (Hs s x' Hx') as [(y & Hy & HP & _)|[Hnone _]]; congruence.
Qed.

Lemma keeps_store_bytes p bytes k : keeps onward (store_bytes p bytes k).
Proof.
  unfold store_bytes. apply keeps_andthen; keeps_tc; [keeps_all|intros x].
  apply keeps_session. intros n s Hwf Hs. apply keeps_at_andthen; keeps_tc; [done| |].
  - destruct (bool_decide (s_state s = requesting) || bool_decide (s_state s = waiting_for_response)) eqn:Hb; cbn [when]; [|apply keeps_ret; keeps_tc; done].
    eapply keeps_at_put; keeps_tc; [done|eassumption| |done]. right. split; [|done].
    apply orb_true_iff in Hb as [->%bool_decide_eq_true| ->%bool_decide_eq_true]; simpl; lia.
  - intros n' _ _ Hev. match goal with |- keeps_at _ _ ?m => assert (keeps onward m) as Hk end; [|apply Hk, Hev].
    cbv zeta. keeps_all.
Qed.

Section sending.
Context (printf : list Z -> printed -> list Z) (add_handle : net -> Z -> Z)
  (effective_url : net -> Z -> list Z) (response_code : net -> Z -> Z).

Lemma keeps_cleanup s : keeps later (cleanup_after_transfer effective_url response_code s).
Proof.
  unfold cleanup_after_transfer. apply keeps_session. intros n x Hwf Hx.
  case_bool_decide as Hidle; [apply keeps_ret; keeps_tc; done|].
  apply keeps_at_andthen; keeps_tc; [done| |].
  - eapply keeps_at_put; keeps_tc; [done|eassumption| |done]. right. split; [|done]. destruct (s_state x); simpl; (lia || done).
  - intros n' _ _ Hev. match goal with |- keeps_at _ _ ?m => assert (keeps later m) as Hk end; [|apply Hk, Hev].
    keeps_all.
Qed.

(** A send that returns found its session configuring, and leaves it requesting. *)
Definition sent (s : Z) (n n' : net) : Prop :=
  exists x, sessions n !! s = Some x /\ s_state x = configuring /\
    forall x', sessions n' !! s = Some x' -> onward requesting (s_state x').

Lemma send_prelocked_evolves n s : well_formed n ->
  ensures n (send_prelocked printf add_handle s) (fun n' r => evolves onward n n' /\ (forall u, r = inr u -> sent s n n')).
Proof.
  intros Hwf. assert (evolves eq n n) as Hnn by by apply evolves_refl.
  assert (forall A (r : exn + A) e, r = inl e -> forall (Q : Prop), forall u, r = inr u -> Q) as Hthrow by (intros A r e -> Q u; done).
  assert (forall A (m : M A), keeps eq m -> forall n1, evolves eq n n1 -> ensures n1 m (fun n' _ => evolves eq n n')) as Hany.
  { intros A m Hm n1 Hev. specialize (Hm n1 (ev_wf _ _ _ Hev)). unfold ensures, keeps_at in *. destruct (m n1) as [[n' r]| | |]; [|done..].
    by apply (evolves_trans eq n n1). }
  unfold send_prelocked, ensures, andthen at 1, session_at, deref. destruct (sessions n !! s) as [x|] eqn:Hx; cbn [bind]; [|done].
  destruct (s_channel x =? 0); [by split; [apply evolves_refl; [exact _|done]|]|].
  match goal with |- match ?m n with _ => _ end => change (ensures n m (fun n' r => evolves onward n n' /\ (forall u : unit, r = inr u -> sent s n n'))) end.
  assert (forall n' (e : exn), evolves eq n n' -> evolves onward n n' /\ (forall u : unit, inl e = inr u -> sent s n n')) as Hinl
    by (intros n' e Hev; split; [by apply evolves_onward|done]).
  apply (ensures_step eq n n); [done|done|keeps_all|auto|]. intros n1 _ Hev1.
  case_bool_decide as Hconf; cbn [negb].
  2: { apply (ensures_step eq n n1); [done|done|keeps_all|auto|]. intros n2 what Hev2. by apply Hinl. }
  apply (ensures_step eq n n1); [done|done|keeps_all|auto|]. intros n2 url Hev2.
  apply (ensures_step eq n n2); [done|done|keeps_all|auto|]. intros n3 t Hev3.
  case_bool_decide; [by apply Hinl|].
  apply (ensures_step eq n n3); [done|done|keeps_all|auto|]. intros n4 r Hev4.
  apply (ensures_step eq n n4); [done|done|keeps_all|auto|]. intros n5 _ Hev5.
  apply (ensures_step eq n n5); [done|done|keeps_all|auto|]. intros n6 _ Hev6.
  apply (ensures_step eq n n6); [done|done|keeps_all|auto|]. intros n7 _ Hev7.
  apply (ensures_step eq n n7); [done|done|keeps_all|auto|]. intros n8 _ Hev8.
  unfold set_state, session_at, deref, put_session, set, get, andthen, ensures. destruct (sessions n8 !! s) as [x8|] eqn:Hx8; cbn [bind]; [|done].
  pose proof (evolves_eq_state n n8 s x x8 Hwf Hev8 Hx Hx8) as Hst.
  set (n9 := with_sessions n8 (<[s := with_s_state x8 requesting]> (sessions n8))).
  assert (evolves onward n n9) as Hev9.
  { apply (evolves_trans onward n n8); [done|by apply evolves_onward|].
    apply (keeps_at_put onward n8 s x8); [apply Hev8|done| |done]. rewrite Hst, Hconf. right. split; [simpl; lia|done]. }
  assert (sent s n n9) as Hsent.
  { exists x. split; [done|]. split; [done|]. intros x' Hx'. unfold n9 in Hx'. simpl in Hx'. rewrite lookup_insert_eq in Hx'.
    injection Hx' as <-. apply onward_reflexive. }
  unfold mcode_or_die. destruct (add_handle n9 s =? CURLM_OK); [done|]. by destruct (add_handle n9 s =? CURLM_BAD_SOCKET).
Qed.

(** [reset], [start_get] and the rest of [send]. *)
Lemma evolves_later_sent s n n1 n2 : well_formed n -> evolves eq n n1 -> evolves onward n1 n2 -> sent s n1 n2 -> (exists x, sessions n !! s = Some x) -> sent s n n2.
Proof.
  intros Hwf Hev1 Hev2 (x1 & Hx1 & Hconf & Hlater) [x Hx]. exists x. split; [done|]. split; [|done].
  by rewrite <-(evolves_eq_state n n1 s x x1).
Qed.

Lemma later_sent s n n1 n2 : well_formed n1 -> evolves onward n1 n2 -> sent s n n1 -> (exists x, sessions n1 !! s = Some x) -> sent s n n2.
Proof.
  intros Hwf [_ _ Hs] (x & Hx & Hconf & Hlater) [x1 Hx1]. exists x. split; [done|]. split; [done|]. intros x2 Hx2.
  destruct (Hs s x2 Hx2) as [(y & Hy & HP & _)|[Hnone _]]; [|congruence]. transitivity (s_state y); [by apply Hlater|done].
Qed.

Lemma after_send {A} (k : session_impl -> M A) s n n1 : well_formed n -> evolves onward n n1 -> sent s n n1 -> (forall x, keeps onward (k x)) ->
  ensures n1 (let* x := session_at s in k x) (fun n' r => evolves onward n n' /\ (forall a, r = inr a -> sent s n n')).
Proof.
  intros Hwf Hev Hsent Hk. unfold ensures, andthen, session_at, deref. destruct (sessions n1 !! s) as [x|] eqn:Hx; cbn [bind]; [|done].
  specialize (Hk x n1 (ev_wf _ _ _ Hev)). unfold keeps_at in Hk. destruct (k x n1) as [[n2 r]| | |]; [|done..].
  split; [by apply (evolves_trans onward n n1)|]. intros a ->. apply (later_sent s n n1); [apply Hev|done|done|by exists x].
Qed.

Lemma send_evolves n s : well_formed n ->
  ensures n (session_send printf add_handle s) (fun n' r => evolves onward n n' /\ (forall a, r = inr a -> sent s n n')).
Proof.
  intros Hwf. pose proof (send_prelocked_evolves n s Hwf) as Hsend. unfold ensures in Hsend. unfold ensures, session_send, andthen at 1.
  destruct (send_prelocked printf add_handle s n) as [[n1 [e|u]]| | |]; cbn [bind]; [by destruct Hsend| |done..].
  destruct Hsend as [Hev Hsent]. apply (after_send _ s n n1); [done|done|by eapply Hsent|]. intros x. keeps_all.
Qed.

Lemma start_get_evolves n s url : well_formed n ->
  ensures n (session_start_get printf add_handle s url) (fun n' r => evolves onward n n' /\ (forall a, r = inr a -> sent s n n')).
Proof.
  intros Hwf. destruct (sessions n !! s) as [x|] eqn:Hx.
  2: { unfold ensures, session_start_get, reset_prelocked, andthen, session_at, deref. by rewrite Hx. }
  assert (forall n' (e : exn), evolves eq n n' -> evolves onward n n' /\ (forall a : Z, inl e = inr a -> sent s n n')) as Hinl
    by (intros n' e Hev; split; [by apply evolves_onward|done]).
  unfold session_start_get.
  apply (ensures_step eq n n); [done|by apply evolves_refl|keeps_all|auto|]. intros n1 _ Hev1.
  apply (ensures_step eq n n1); [done|done|keeps_all|auto|]. intros n2 x2 Hev2.
  apply (ensures_step eq n n2); [done|done|keeps_all|auto|]. intros n3 _ Hev3.
  apply (ensures_step eq n n3); [done|done|keeps_all|auto|]. intros n4 _ Hev4.
  pose proof (send_prelocked_evolves n4 s (ev_wf _ _ _ Hev4)) as Hsend. unfold ensures in Hsend. unfold ensures, andthen at 1.
  destruct (send_prelocked printf add_handle s n4) as [[n5 [e|u]]| | |]; cbn [bind]; [| |done..]; destruct Hsend as [Hev5 Hsent].
  - split; [|done]. apply (evolves_trans onward n n4); [done|by apply evolves_onward|done].
  - apply (after_send _ s n n5); [done| | |intros y; keeps_all].
    + apply (evolves_trans onward n n4); [done|by apply evolves_onward|done].
    + apply (evolves_later_sent s n n4); [done|done|done|by eapply Hsent|by exists x].
Qed.

Lemma keeps_request_start_get url : keeps onward (request_start_get printf add_handle url).
Proof.
  unfold request_start_get. apply keeps_andthen; keeps_tc; [keeps_all|]. intros s.
  apply keeps_andthen; keeps_tc; [|intros r; keeps_all].
  intros n Hwf. pose proof (start_get_evolves n s url Hwf) as H. unfold keeps_at, ensures in *.
  destruct (session_start_get printf add_handle s url n) as [[n' r]| | |]; [|done..]. by destruct H.
Qed.

(** ** Operations in any order

    The operations of the clients, and those of the thread that runs the
    callbacks of libcurl. *)

Inductive op : Type :=
| op_new_channel
| op_channel_destroy (ch : Z)
| op_new_session (ch : Z)
| op_new_default_session
| op_session_destroy (s : Z)
| op_send (s : Z)
| op_start_get (s : Z) (url : option (list Z))
| op_reset (s : Z)
| op_set_error (s : Z) (txt : option (list Z))
| op_get_current_request (s : Z)
| op_get_current_response (s : Z)
| op_session_get (s : Z) (url : option (list Z))
| op_request_copy (q : Z)
| op_request_destroy (q : Z)
| op_request_set_verb (q : Z) (verb : option (list Z))
| op_request_set_url (q : Z) (url : option (list Z))
| op_response_copy (p : Z)
| op_response_destroy (p : Z)
| op_request_start_get (url : option (list Z))
| op_store_bytes (p : Z) (bytes : list Z) (byte_count : Z)
| op_store_header (m : mem) (p txt byte_count : Z)
| op_update_progress (p expected_receive received expected_send sent : Z)
| op_cleanup_after_transfer (s : Z).

Definition ignore {A} (m : M A) : M unit := let* _ := m in ret tt.

Definition run (o : op) : M unit :=
  match o with
  | op_new_channel => ignore new_channel
  | op_channel_destroy ch => channel_destroy ch
  | op_new_session ch => ignore (new_session ch)
  | op_new_default_session => ignore new_default_session
  | op_session_destroy s => session_destroy s
  | op_send s => ignore (session_send printf add_handle s)
  | op_start_get s url => ignore (session_start_get printf add_handle s url)
  | op_reset s => ignore (session_reset s)
  | op_set_error s txt => session_set_error s txt
  | op_get_current_request s => ignore (get_current_request s)
  | op_get_current_response s => ignore (get_current_response s)
  | op_session_get s url => ignore (session_get s url)
  | op_request_copy q => ignore (request_copy q)
  | op_request_destroy q => request_destroy q
  | op_request_set_verb q v => request_set_verb q v
  | op_request_set_url q u => request_set_url q u
  | op_response_copy p => ignore (response_copy p)
  | op_response_destroy p => response_destroy p
  | op_request_start_get url => ignore (request_start_get printf add_handle url)
  | op_store_bytes p bytes k => ignore (store_bytes p bytes k)
  | op_store_header m p txt k => ignore (store_header m p txt k)
  | op_update_progress p a b c d => ignore (update_progress p a b c d)
  | op_cleanup_after_transfer s => cleanup_after_transfer effective_url response_code s
  end.

(** What happened: each operation, and whether it returned or threw. *)
Inductive trace : net -> list (op * bool) -> net -> Prop :=
| trace_done n : trace n [] n
| trace_returns n o n1 l n2 : run o n = Ok (n1, inr tt) -> trace n1 l n2 -> trace n ((o, true) :: l) n2
| trace_throws n o e n1 l n2 : run o n = Ok (n1, inl e) -> trace n1 l n2 -> trace n ((o, false) :: l) n2.

(** The sends of a session that returned, and the ends of its transfers. *)
Definition is_send (s : Z) (o : op) : bool :=
  match o with op_send t | op_start_get t _ => t =? s | _ => false end.
Definition is_end (s : Z) (o : op) : bool :=
  match o with op_cleanup_after_transfer t => t =? s | _ => false end.
Fixpoint sends (s : Z) (l : list (op * bool)) : Z :=
  match l with
  | [] => 0
  | (o, returned) :: l => (if is_send s o && returned then 1 else 0) + sends s l
  end.
Fixpoint ends (s : Z) (l : list (op * bool)) : Z :=
  match l with [] => 0 | (o, _) :: l => (if is_end s o then 1 else 0) + ends s l end.

Lemma ends_nonneg s l : 0 <= ends s l.
Proof. induction l as [|[o b] l IH]; simpl; [lia|]. destruct (is_end s o); lia. Qed.

(** What a session may do in one operation: go on, unless its transfer ends. *)
Definition goes_on (o : op) (n n' : net) : Prop :=
  forall s x x', is_end s o = false -> sessions n !! s = Some x -> sessions n' !! s = Some x' -> onward (s_state x) (s_state x').

Lemma evolves_goes_on o n n' : well_formed n -> evolves onward n n' -> goes_on o n n'.
Proof.
  intros Hwf [_ _ Hs] s x x' _ Hx Hx'. destruct (Hs s x' Hx') as [(y & Hy & HP & _)|[Hnone _]]; congruence.
Qed.

Lemma ensures_ignore {A} n (m : M A) (P Q : net -> Prop) : ensures n m (fun n' r => P n' /\ (forall a, r = inr a -> Q n')) ->
  ensures n (ignore m) (fun n' r => P n' /\ (r = inr tt -> Q n')).
Proof.
  unfold ensures, ignore, andthen. destruct (m n) as [[n' [e|a]]| | |]; cbn [bind]; [|intros [Hev Hq]|done..].
  - intros [Hev _]. split; [done|done].
  - split; [done|]. intros _. by eapply Hq.
Qed.

(** The end of a transfer changes no other session. *)
Lemma cleanup_frame s t n n' r : s <> t ->
  cleanup_after_transfer effective_url response_code t n = Ok (n', r) -> sessions n' !! s = sessions n !! s.
Proof.
  intros Hst. unfold cleanup_after_transfer, andthen, session_at, response_at, channel_at, deref, put_session, put_response, set, get, ret.
  destruct (sessions n !! t) as [x|]; cbn [bind]; [|done]. case_bool_decide; cbn [bind]; [by intros [= <- <-]|].
  simpl. destruct (responses n !! s_response x) as [y|]; cbn [bind]; [|done]. simpl.
  destruct (channels n !! s_channel x); cbn [bind]; [|done]. intros [= <- <-]. simpl. by rewrite lookup_insert_ne by done.
Qed.

Lemma run_evolves o n : well_formed n ->
  ensures n (run o) (fun n' r => (evolves later n n' /\ goes_on o n n') /\ (forall s, is_send s o = true -> r = inr tt -> sent s n n')).
Proof.
  intros Hwf. assert (forall m : M unit, (forall s, is_send s o = false) -> keeps onward m ->
    ensures n m (fun n' r => (evolves later n n' /\ goes_on o n n') /\ (forall s, is_send s o = true -> r = inr tt -> sent s n n'))) as Hkeeps.
  { intros m Hno Hm. specialize (Hm n Hwf). unfold keeps_at, ensures in *. destruct (m n) as [[n' r]| | |]; [|done..].
    split; [split; [by apply evolves_later|by apply evolves_goes_on]|]. intros s Hs. by rewrite Hno in Hs. }
  assert (forall A s (m : M A), (forall t, is_send t o = (s =? t)) ->
    ensures n m (fun n' r => evolves onward n n' /\ (forall a, r = inr a -> sent s n n')) ->
    ensures n (ignore m) (fun n' r => (evolves later n n' /\ goes_on o n n') /\ (forall s, is_send s o = true -> r = inr tt -> sent s n n'))) as Hsend.
  { intros A s m Ho Hm. apply (ensures_ignore n m (fun n' => evolves onward n n') (fun n' => sent s n n')) in Hm.
    unfold ensures in *. destruct (ignore m n) as [[n' r]| | |]; [|done..]. destruct Hm as [Hev Hs].
    split; [split; [by apply evolves_later|by apply evolves_goes_on]|]. intros t. rewrite Ho. by intros <-%Z.eqb_eq. }
  destruct o as [| | | | |s|s url|s| | | | | | | | | | | | | | |s]; cbn [run];
    try (apply Hkeeps; [done|unfold ignore, session_reset, session_set_error, get_current_request, get_current_response, session_get,
      response_of_session, response_copy; keeps_all; by (apply keeps_request_start_get || apply keeps_store_bytes)]).
  - by apply (Hsend _ s), send_evolves.
  - by apply (Hsend _ s), start_get_evolves.
  - pose proof (keeps_cleanup s n Hwf) as Hev. unfold keeps_at, ensures in *.
    destruct (cleanup_after_transfer effective_url response_code s n) as [[n' r]| | |] eqn:E; [|done..].
    split; [split; [done|]|by intros t Ht]. intros t x x' Ht Hx Hx'. simpl in Ht. apply Z.eqb_neq in Ht.
    rewrite (cleanup_frame t s n n' r) in Hx' by done. replace x' with x by congruence. reflexivity.
Qed.

(** A session that is gone stays gone, and nothing can be sent on it. *)
Lemma run_dead n o n1 r s : well_formed n -> run o n = Ok (n1, r) -> sessions n !! s = None -> s < next_address n ->
  well_formed n1 /\ sessions n1 !! s = None /\ s < next_address n1 /\ (is_send s o = true -> r <> inr tt).
Proof.
  intros Hwf Hrun Hnone Hlt. pose proof (run_evolves o n Hwf) as H. unfold ensures in H. rewrite Hrun in H.
  destruct H as [[[Hwf1 Hn Hs] _] Hsent]. split; [done|]. split; [|split; [lia|]].
  - destruct (sessions n1 !! s) as [x|] eqn:Hx; [|done]. destruct (Hs s x Hx) as [(y & Hy & _)|[_ Hle]]; [congruence|lia].
  - intros His Hr. destruct (Hsent s His Hr) as (x & Hx & _). congruence.
Qed.

Lemma trace_dead n l n' s : trace n l n' -> well_formed n -> sessions n !! s = None -> s < next_address n ->
  sessions n' !! s = None /\ sends s l = 0.
Proof.
  induction 1 as [n|n o n1 l n2 Hrun _ IH|n o e n1 l n2 Hrun _ IH]; intros Hwf Hnone Hlt; cbn [sends]; [done|..];
    destruct (run_dead _ _ _ _ _ Hwf Hrun Hnone Hlt) as (Hwf1 & Hnone1 & Hlt1 & Hno); destruct IH as [Hn ->]; try done.
  - split; [done|]. destruct (is_send s o); [by destruct (Hno eq_refl)|done].
  - by rewrite andb_false_r.
Qed.

Lemma run_well_formed n o n1 r : well_formed n -> run o n = Ok (n1, r) -> well_formed n1.
Proof. intros Hwf Hrun. pose proof (run_evolves o n Hwf) as H. unfold ensures in H. rewrite Hrun in H. apply H. Qed.

(** What a sequence says of a session in state [st] with id [i]. *)
Definition life (s i : Z) (st : session_state) (l : list (op * bool)) (n' : net) : Prop :=
  (forall x', sessions n' !! s = Some x' -> s_id x' = i /\ later st (s_state x')) /\
  sends s l <= (if bool_decide (st = configuring) then 1 else 0).

Lemma life_step n o n1 r b l n2 s x : well_formed n -> run o n = Ok (n1, r) -> (b = true -> r = inr tt) -> trace n1 l n2 ->
  sessions n !! s = Some x -> (forall x1, sessions n1 !! s = Some x1 -> life s (s_id x1) (s_state x1) l n2) ->
  life s (s_id x) (s_state x) ((o, b) :: l) n2.
Proof.
  intros Hwf Hrun Hb Htrace Hx IH. pose proof (run_evolves o n Hwf) as H. unfold ensures in H. rewrite Hrun in H.
  destruct H as [[[Hwf1 Hn Hs] _] Hsent]. unfold life. cbn [sends]. destruct (sessions n1 !! s) as [x1|] eqn:Hx1.
  - destruct (Hs s x1 Hx1) as [(y & Hy & Hlater & Hid)|[Hnone _]]; [|congruence]. rewrite Hx in Hy. injection Hy as <-.
    destruct (IH x1 eq_refl) as [Hfinal Hsends]. split.
    + intros x' Hx'. destruct (Hfinal x' Hx') as [Hid' Hlater']. split; [congruence|]. by transitivity (s_state x1).
    + destruct (is_send s o && b) eqn:Hsend.
      * apply andb_true_iff in Hsend as [Hsend ->]. destruct (Hsent s Hsend (Hb eq_refl)) as (y & Hy & Hconf & Hreq).
        rewrite Hx in Hy. injection Hy as <-. rewrite Hconf. specialize (Hreq x1 Hx1). apply onward_later in Hreq.
        rewrite (bool_decide_eq_false_2 (s_state x1 = configuring)) in Hsends; [rewrite bool_decide_eq_true_2 by done; cbn match in *; lia|].
        intros He. rewrite He in Hreq. destruct Hreq as [Hreq|[Hreq _]]; [done|simpl in Hreq; lia].
      * assert (s_state x1 = configuring -> s_state x = configuring) as Hback.
        { intros He. rewrite He in Hlater. destruct Hlater as [->|[Hlt _]]; [done|destruct (s_state x); simpl in Hlt; lia]. }
        repeat case_bool_decide; try lia. by destruct (Hback ltac:(done)).
  - pose proof (Hwf s x Hx) as Hlt. destruct (trace_dead n1 l n2 s) as [Hgone ->]; [done|done|done|lia|]. split; [by rewrite Hgone|].
    destruct (is_send s o && b) eqn:Hsend; [|case_bool_decide; lia].
    apply andb_true_iff in Hsend as [Hsend ->]. destruct (Hsent s Hsend (Hb eq_refl)) as (y & Hy & Hconf & _).
    rewrite Hx in Hy. injection Hy as <-. rewrite Hconf, bool_decide_eq_true_2 by done. lia.
Qed.

(** In any sequence of operations of clients and of the callbacks that hand over data
    and end transfers, whichever throw, a session moves only forward through its states, never to
    [waiting_for_response]; and over its whole life at most one send on it succeeds,
    none when it is not in state configuring: a session, [reset] or not, serves one
    transfer. *)
Lemma session_one_transfer n l n' s x : well_formed n -> trace n l n' -> sessions n !! s = Some x ->
  (forall x', sessions n' !! s = Some x' -> s_id x' = s_id x /\ later (s_state x) (s_state x')) /\
  sends s l <= (if bool_decide (s_state x = configuring) then 1 else 0).
Proof.
  intros Hwf Htrace. revert x Hwf. induction Htrace as [n|n o n1 l n2 Hrun Htrace IH|n o e n1 l n2 Hrun Htrace IH]; intros x Hwf Hx.
  - split; [|cbn; case_bool_decide; lia]. intros x' Hx'. rewrite Hx in Hx'. injection Hx' as <-. split; [done|reflexivity].
  - apply (life_step n o n1 (inr tt)); try done. intros x1 Hx1. apply IH; [|done]. by eapply run_well_formed.
  - apply (life_step n o n1 (inl e)); try done. intros x1 Hx1. apply IH; [|done]. by eapply run_well_formed.
Qed.

(** What a sequence says of the transfers of a session that is busy or not. *)
Definition one_at_a_time (s i : Z) (busy : bool) (l : list (op * bool)) (n' : net) : Prop :=
  (forall x', sessions n' !! s = Some x' -> s_id x' = i) /\
  sends s l <= (if busy then 0 else 1) + ends s l /\
  (ends s l = 0 -> busy = true \/ 0 < sends s l ->
   forall x', sessions n' !! s = Some x' -> is_busy (s_state x') = true).

Lemma turn_step n o n1 r b l n2 s x : well_formed n -> run o n = Ok (n1, r) -> (b = true -> r = inr tt) -> trace n1 l n2 ->
  sessions n !! s = Some x ->
  (forall x1, sessions n1 !! s = Some x1 -> one_at_a_time s (s_id x1) (is_busy (s_state x1)) l n2) ->
  one_at_a_time s (s_id x) (is_busy (s_state x)) ((o, b) :: l) n2.
Proof.
  intros Hwf Hrun Hb Htrace Hx IH. pose proof (run_evolves o n Hwf) as H. unfold ensures in H. rewrite Hrun in H.
  destruct H as [[[Hwf1 Hn Hs] Hon] Hsent]. unfold one_at_a_time. cbn [sends ends]. pose proof (ends_nonneg s l) as Hpos.
  assert (is_send s o && b = true -> is_end s o = false /\ s_state x = configuring /\
    forall x1, sessions n1 !! s = Some x1 -> is_busy (s_state x1) = true) as Hsend.
  { intros [Hsend ->]%andb_true_iff. destruct (Hsent s Hsend (Hb eq_refl)) as (y & Hy & Hconf & Hreq).
    rewrite Hx in Hy. injection Hy as <-. split; [by destruct o|]. split; [done|]. intros x1 Hx1.
    by apply (onward_busy requesting); [apply Hreq|]. }
  destruct (sessions n1 !! s) as [x1|] eqn:Hx1.
  - destruct (Hs s x1 Hx1) as [(y & Hy & _ & Hid)|[Hnone _]]; [|congruence]. rewrite Hx in Hy. injection Hy as <-.
    destruct (IH x1 eq_refl) as (Hfinal & Hsends & Hbusy). split; [by rewrite <-Hid|]. clear Hfinal Hid.
    destruct (is_send s o && b) eqn:Ho.
    + destruct (Hsend eq_refl) as (-> & -> & Hx1b). specialize (Hx1b x1 eq_refl). rewrite Hx1b in Hsends, Hbusy.
      change (is_busy configuring) with false. cbn match in *. split; [lia|]. intros He _. apply Hbusy; [lia|by left].
    + destruct (is_end s o) eqn:He; [split; [destruct (is_busy (s_state x)), (is_busy (s_state x1)); lia|lia]|].
      pose proof (onward_busy _ _ (Hon s x x1 He Hx Hx1)) as Hkeep.
      split; [destruct (is_busy (s_state x)), (is_busy (s_state x1)); try lia; by discriminate Hkeep|].
      intros Hends Hor. apply Hbusy; [lia|]. destruct Hor as [Hxb|Hpos1]; [left; by apply Hkeep|right; lia].
  - pose proof (Hwf s x Hx) as Hlt. destruct (trace_dead n1 l n2 s) as [Hgone Hzero]; [done|done|done|lia|]. rewrite Hgone, Hzero.
    split; [done|]. split; [|by intros ? ? ?]. destruct (is_send s o && b) eqn:Ho.
    + destruct (Hsend eq_refl) as (-> & -> & _). change (is_busy configuring) with false. cbn match. lia.
    + destruct (is_busy (s_state x)), (is_end s o); lia.
Qed.

(** C15: a session handles one interaction at a time, as session.h says. In any sequence of operations of clients
    and of the callbacks that hand over data and end transfers, whichever throw (one that reaches undefined
    behaviour ends the sequence), a session keeps its id; the sends on it that succeed are at most one more than the
    ends of its transfers, and no more than these if it is busy at the start; and from the time it is busy, or a
    send has succeeded, it is busy, whatever is done with it, until its transfer ends or it dies ([one_at_a_time]).
    *)
Theorem session_one_at_a_time n l n' s x : well_formed n -> trace n l n' -> sessions n !! s = Some x ->
  one_at_a_time s (s_id x) (is_busy (s_state x)) l n'.
Proof.
  intros Hwf Htrace. revert x Hwf. induction Htrace as [n|n o n1 l n2 Hrun Htrace IH|n o e n1 l n2 Hrun Htrace IH]; intros x Hwf Hx.
  - split; [by intros x' Hx'; replace x' with x by congruence|]. split; [cbn; destruct (is_busy (s_state x)); lia|].
    intros _ [Hb|Hpos]; [by intros x' Hx'; replace x' with x by congruence|cbn in Hpos; lia].
  - apply (turn_step n o n1 (inr tt)); try done. intros x1 Hx1. apply IH; [|done]. by eapply run_well_formed.
  - apply (turn_step n o n1 (inl e)); try done. intros x1 Hx1. apply IH; [|done]. by eapply run_well_formed.
Qed.
End sending.

(** A session at address 2, used once, reset, and used again in vain. *)
Definition one_session : net := Eval vm_compute in match new_default_session net_empty with Ok (n, _) => n | _ => net_empty end.
Definition fresh_session : session_impl := Eval vm_compute in
  match sessions one_session !! 2 with Some x => x | None => {| s_id := 0; s_channel := 0; s_request := 0; s_response := 0;
    s_easy := []; s_error := []; s_state := idle; s_socket_state := 0 |} end.
Definition used_twice : list (op * bool) :=
  [(op_start_get 2 (Some (str "a")), true); (op_store_bytes 4 (str "xy") 2, true); (op_cleanup_after_transfer 2, true); (op_reset 2, true);
   (op_request_set_url 6 (Some (str "b")), true); (op_send 2, false)].

Lemma session_one_at_a_time_witness : exists n',
  trace any_printf (fun _ _ => 0) (fun _ _ => str "a") (fun _ _ => 200) one_session used_twice n' /\
  one_at_a_time 2 (s_id fresh_session) false used_twice n'.
Proof.
  assert (exists n', trace any_printf (fun _ _ => 0) (fun _ _ => str "a") (fun _ _ => 200) one_session used_twice n') as [n' Htrace].
  { eexists. do 5 (eapply trace_returns; [vm_compute; reflexivity|]). eapply trace_throws; [vm_compute; reflexivity|]. apply trace_done. }
  exists n'. split; [exact Htrace|].
  apply (session_one_at_a_time any_printf (fun _ _ => 0) (fun _ _ => str "a") (fun _ _ => 200) one_session used_twice n' 2 fresh_session);
    [|exact Htrace|reflexivity].
  intros s x Hx. apply elem_of_map_to_list in Hx. vm_compute in Hx. apply list_elem_of_In in Hx. destruct Hx as [[= <- <-]|[]]. reflexivity.
Defined.
