(* ===== verification/CurlOwnership.v ===== *)
(** * Who keeps requests, responses and sessions alive

    The counts of references of the requests and responses of [Curl], the blocks of
    [strdup] and the headers they own: an invariant of programs that use sessions
    and handles in any order, and that each operation keeps it. *)

From stdpp Require Import base tactics list gmap strings.
From Stdlib Require Import ZArith Lia.
From S2P Require Import Prelude CString StrView StdString Headers HttpMethod Arg Interp Curl.
#[local] Open Scope Z_scope.

(** ** What code yields *)

(** [m] returns or throws, and [Q] holds of what it leaves and gives. *)
Definition yields {A} (n : net) (m : M A) (Q : net -> exn + A -> Prop) : Prop :=
  match m n with Ok (n', r) => Q n' r | _ => False end.
(** [m] returns. *)
Definition does {A} (n : net) (m : M A) (Q : net -> A -> Prop) : Prop :=
  yields n m (fun n' r => match r with inr a => Q n' a | inl _ => False end).

Lemma yields_mono {A} n (m : M A) (P Q : net -> exn + A -> Prop) :
  yields n m P -> (forall n' r, P n' r -> Q n' r) -> yields n m Q.
Proof. unfold yields. destruct (m n) as [[n' r]| | |]; auto. Qed.
Lemma does_mono {A} n (m : M A) (P Q : net -> A -> Prop) : does n m P -> (forall n' a, P n' a -> Q n' a) -> does n m Q.
Proof. intros Hm H. eapply yields_mono; [exact Hm|]. intros n' [e|a]; [done|apply H]. Qed.

Lemma yields_andthen {A B} n (m : M A) (k : A -> M B) P Q :
  does n m P -> (forall n' a, P n' a -> yields n' (k a) Q) -> yields n (let* a := m in k a) Q.
Proof.
  unfold does, yields, andthen. destruct (m n) as [[n' [e|a]]| | |]; cbn [bind]; [done| |done..]. intros HP Hk. by apply Hk.
Qed.
Lemma does_andthen {A B} n (m : M A) (k : A -> M B) P Q :
  does n m P -> (forall n' a, P n' a -> does n' (k a) Q) -> does n (let* a := m in k a) Q.
Proof. apply yields_andthen. Qed.
Lemma yields_bind {A B} n (m : M A) (k : A -> M B) P Q :
  yields n m P -> (forall n' e, P n' (inl e) -> Q n' (inl e)) -> (forall n' a, P n' (inr a) -> yields n' (k a) Q) ->
  yields n (let* a := m in k a) Q.
Proof.
  unfold yields, andthen. intros Hm He Ha. destruct (m n) as [[n' [e|a]]| | |]; cbn [bind]; [by apply He|by apply Ha|done..].
Qed.

Lemma does_ret {A} n (a : A) (Q : net -> A -> Prop) : Q n a -> does n (ret a) Q.
Proof. done. Qed.
Lemma does_get {A} n (f : net -> A) (Q : net -> A -> Prop) : Q n (f n) -> does n (get f) Q.
Proof. done. Qed.
Lemma does_set n f (Q : net -> unit -> Prop) : Q (f n) tt -> does n (set f) Q.
Proof. done. Qed.
Lemma does_deref {A} n (o : net -> gmap Z A) p x (Q : net -> A -> Prop) : o n !! p = Some x -> Q n x -> does n (deref o p) Q.
Proof. intros Hx HQ. unfold does, yields, deref. by rewrite Hx. Qed.
Lemma does_lift {A} n (r : res A) a (Q : net -> A -> Prop) : r = Ok a -> Q n a -> does n (lift r) Q.
Proof. intros ->. done. Qed.
Lemma does_when n b m (Q : net -> unit -> Prop) : (b = true -> does n m Q) -> (b = false -> Q n tt) -> does n (when b m) Q.
Proof. destruct b; [intros H _; by apply H|intros _ H; by apply H]. Qed.
Lemma yields_does {A} n (m : M A) (P : net -> A -> Prop) (Q : net -> exn + A -> Prop) :
  does n m P -> (forall n' a, P n' a -> Q n' (inr a)) -> yields n m Q.
Proof. intros Hm HQ. eapply yields_mono; [exact Hm|]. intros n' [e|a]; [done|apply HQ]. Qed.

(** An access, and then the rest. *)
Lemma yields_at {A B} n (o : net -> gmap Z A) p x (k : A -> M B) Q :
  o n !! p = Some x -> yields n (k x) Q -> yields n (let* x := deref o p in k x) Q.
Proof. intros Hx Hk. eapply yields_andthen; [by apply (does_deref n o p x (fun n' y => n' = n /\ y = x))|]. by intros n' a [-> ->]. Qed.
Lemma does_at {A B} n (o : net -> gmap Z A) p x (k : A -> M B) Q :
  o n !! p = Some x -> does n (k x) Q -> does n (let* x := deref o p in k x) Q.
Proof. apply yields_at. Qed.
Lemma does_then {B} n f (k : unit -> M B) Q : does (f n) (k tt) Q -> does n (let* u := set f in k u) Q.
Proof. done. Qed.

(** ** What is owned *)

(** The block of a [char *] that was allocated. *)
Definition block (c : chars) : list Z := match c with owned a => [a] | _ => [] end.
Definition blocks_of (x : request_impl) : list Z := block (q_verb x) ++ block (q_url x).
Definition blocks (m : gmap Z request_impl) : list Z := map_to_list m ≫= (fun e => blocks_of e.2).

Definition header_handles (n : net) : list Z :=
  map (fun e => q_headers e.2) (map_to_list (requests n)) ++ map (fun e => p_headers e.2) (map_to_list (responses n)).

(** A verb is null, one of the five standard ones or a block; a URL is null or a block. *)
Definition verb_ok (c : chars) : Prop := c = no_chars \/ is_standard_verb c = true \/ exists a, c = owned a.
Definition url_ok (c : chars) : Prop := c = no_chars \/ exists a, c = owned a.

(** The requests [qs] and responses [ps] are referred to, 0 being a null pointer:
    an impl is alive as long as one of them is it, its count says how many are,
    no block belongs to two of them, and each has headers of its own. *)
Record owned_by (n : net) (qs ps : list Z) : Prop := {
  o_request : forall p x, requests n !! p = Some x ->
    q_refs x = Z.of_nat (handles qs p) /\ 0 < q_refs x /\ verb_ok (q_verb x) /\ url_ok (q_url x);
  o_request_live : forall p, p ∈ qs -> p <> 0 -> is_Some (requests n !! p);
  o_response : forall p x, responses n !! p = Some x ->
    p_refs x = Z.of_nat (handles ps p) /\ 0 < p_refs x /\ p_effective_url x = no_chars;
  o_response_live : forall p, p ∈ ps -> p <> 0 -> is_Some (responses n !! p);
  o_blocks : NoDup (blocks (requests n));
  o_strings : forall a, a ∈ blocks (requests n) -> is_Some (strings n !! a);
  o_headers : consistent (collections n) (header_handles n);
  o_header_live : Forall (fun p => p <> 0) (header_handles n);
  o_addresses : forall p, is_Some (requests n !! p) \/ is_Some (responses n !! p) \/ is_Some (strings n !! p) \/
    is_Some (sessions n !! p) \/ is_Some (channels n !! p) -> 0 < p < next_address n;
  o_start : 0 < next_address n;
}.

(** What the sessions refer to. *)
Definition seats (n : net) : gmap Z (Z * Z * Z) := (fun x => (s_channel x, s_request x, s_response x)) <$> sessions n.
Definition held_requests (n : net) : list Z := map (fun e => e.2.1.2) (map_to_list (seats n)).
Definition held_responses (n : net) : list Z := map (fun e => e.2.2) (map_to_list (seats n)).

(** The responses that own a session are related to it by [F]. *)
Definition owners (n : net) (F : Z -> Z -> Prop) : Prop :=
  forall p x, responses n !! p = Some x -> p_owns_session x = true -> p_session x <> 0 -> F (p_session x) p.
(** They are the ones that the session holds. *)
Definition holds_response (n : net) (s p : Z) : Prop := exists c q, seats n !! s = Some (c, q, p).
Definition owner_ok (n : net) : Prop := owners n (holds_response n).

(** The response of a session belongs to it. *)
Definition backs (n : net) (G : Z -> Z -> Prop) : Prop := forall p x, responses n !! p = Some x -> p_session x <> 0 -> G (p_session x) p.
Definition back_ok (n : net) : Prop := backs n (fun t p => forall s c q, seats n !! s = Some (c, q, p) -> t = s).

(** Room for the counts: fewer than 2^32 references to headers. *)
Definition weight (n : net) : Z := Zlen (header_handles n) + Z.of_nat (size (cells (collections n))).

(** The default channel, once there is one, is there. *)
Definition default_ok (n : net) : Prop := default_channel n = 0 \/ is_Some (channels n !! default_channel n).

(** What code that works on single objects does not spoil, [k] being how much
    heavier it makes the state, *)
Record mild (k : Z) (n n' : net) : Prop := {
  mi_channels : forall c, is_Some (channels n !! c) -> is_Some (channels n' !! c);
  mi_default : default_ok n -> default_ok n';
  mi_owners : forall F, owners n F -> owners n' F;
  mi_backs : forall G, (forall t p, next_address n <= p -> G t p) -> backs n G -> backs n' G;
  mi_next : next_address n <= next_address n';
  mi_weight : weight n' <= weight n + k;
}.
(** and what it leaves alone when it only works on requests and responses. *)
Record frame (k : Z) (n n' : net) : Prop := { fr_seats : seats n' = seats n; fr_mild : mild k n n' }.

Lemma mild_refl n : mild 0 n n.
Proof. split; [auto..|done|lia]. Qed.
Lemma mild_trans j k n n1 n2 : mild j n n1 -> mild k n1 n2 -> mild (j + k) n n2.
Proof.
  intros [Hc1 Hd1 Ho1 Hb1 Hn1 Hw1] [Hc2 Hd2 Ho2 Hb2 Hn2 Hw2]. split; [auto..| |lia|lia].
  intros G HG Hb. apply Hb2; [intros t p Hp; apply HG; lia|by apply Hb1].
Qed.
Lemma frame_refl n : frame 0 n n.
Proof. split; [done|apply mild_refl]. Qed.
Lemma frame_trans j k n n1 n2 : frame j n n1 -> frame k n1 n2 -> frame (j + k) n n2.
Proof. intros [Hs1 Hm1] [Hs2 Hm2]. split; [congruence|by eapply mild_trans]. Qed.
Lemma frame_owner k n n' : frame k n n' -> owner_ok n -> owner_ok n'.
Proof. intros [Hs Hm] Hok. unfold owner_ok, holds_response. rewrite Hs. by apply (mi_owners _ _ _ Hm). Qed.
Lemma frame_held k n n' : frame k n n' -> held_requests n' = held_requests n /\ held_responses n' = held_responses n.
Proof. intros [Hs _]. unfold held_requests, held_responses. by rewrite Hs. Qed.
Lemma mild_same n n' : channels n' = channels n -> default_channel n' = default_channel n -> responses n' = responses n ->
  next_address n <= next_address n' -> weight n' <= weight n -> mild 0 n n'.
Proof.
  intros Hc Hd Hr Hn Hw. split; [by rewrite Hc|unfold default_ok; by rewrite Hc, Hd|unfold owners; by rewrite Hr|unfold backs; by rewrite Hr|done|lia].
Qed.

(** ** Blocks and headers of a request *)

Lemma blocks_insert m p x : m !! p = None -> blocks (<[p := x]> m) ≡ₚ blocks_of x ++ blocks m.
Proof. intros Hp. unfold blocks. by rewrite map_to_list_insert. Qed.
Lemma blocks_pick m p x : m !! p = Some x -> blocks m ≡ₚ blocks_of x ++ blocks (delete p m).
Proof. intros Hp. rewrite <- (insert_delete_id m p x Hp) at 1. apply blocks_insert, lookup_delete_eq. Qed.
Lemma blocks_put m p y : blocks (<[p := y]> m) ≡ₚ blocks_of y ++ blocks (delete p m).
Proof. rewrite <- insert_delete_eq. apply blocks_insert, lookup_delete_eq. Qed.

Section map_listed.
Context {A : Type} (f : A -> Z).
Definition listed (m : gmap Z A) : list Z := map (fun e => f e.2) (map_to_list m).

Lemma listed_insert m p x : m !! p = None -> listed (<[p := x]> m) ≡ₚ f x :: listed m.
Proof. intros Hp. unfold listed. by rewrite map_to_list_insert. Qed.
Lemma listed_pick m p x : m !! p = Some x -> listed m ≡ₚ f x :: listed (delete p m).
Proof. intros Hp. rewrite <- (insert_delete_id m p x Hp) at 1. apply listed_insert, lookup_delete_eq. Qed.
Lemma listed_put m p x y : m !! p = Some x -> f y = f x -> listed (<[p := y]> m) ≡ₚ listed m.
Proof.
  intros Hp Hf. rewrite (listed_pick m p x Hp), <- insert_delete_eq, listed_insert by apply lookup_delete_eq. by rewrite Hf.
Qed.
End map_listed.

Lemma header_handles_listed n : header_handles n = listed q_headers (requests n) ++ listed p_headers (responses n).
Proof. done. Qed.

#[export] Instance handles_proper : Proper ((≡ₚ) ==> eq ==> eq) handles.
Proof. intros l l' Hl p q ->. unfold handles. by rewrite Hl. Qed.
#[export] Instance Zlen_proper {A} : Proper ((≡ₚ) ==> eq) (@Zlen A).
Proof. intros l l' Hl. unfold Zlen. by rewrite Hl. Qed.
#[export] Instance consistent_proper h : Proper ((≡ₚ) ==> iff) (consistent h).
Proof. intros l l' Hl. split; by apply consistent_perm. Qed.

(** ** Changing a request *)

Definition rest (n : net) (p : Z) : list Z := blocks (delete p (requests n)).

(** The state [n] with the request [p] changed to [y] and other [strings]. *)
Definition changed (n : net) (p : Z) (y : request_impl) (st : gmap Z (list Z)) (next : Z) : net :=
  with_next_address (with_requests (with_strings n st) (<[p := y]> (requests n))) next.

Lemma handles_same qs qs' p : (forall r, r <> p -> r <> 0 -> handles qs' r = handles qs r) ->
  forall r, r <> p -> r <> 0 -> r ∈ qs' -> r ∈ qs.
Proof.
  intros Hsame r Hr Hr0 Hin%handles_elem. rewrite Hsame in Hin by done. destruct (decide (r ∈ qs)) as [|Hno]; [done|].
  unfold handles in Hin. destruct (filter (fun q => q = r) qs) as [|q l] eqn:E; [simpl in Hin; lia|].
  assert (q ∈ filter (fun q => q = r) qs) as Hq by (rewrite E; by left). by apply list_elem_of_filter in Hq as [-> Hq].
Qed.

Lemma owned_changed n qs qs' ps p x y st next :
  owned_by n qs ps -> requests n !! p = Some x ->
  q_headers y = q_headers x -> q_refs y = Z.of_nat (handles qs' p) -> 0 < q_refs y ->
  (forall r, r <> p -> r <> 0 -> handles qs' r = handles qs r) ->
  verb_ok (q_verb y) -> url_ok (q_url y) ->
  NoDup (blocks_of y ++ rest n p) -> (forall a, a ∈ blocks_of y ++ rest n p -> is_Some (st !! a)) ->
  next_address n <= next -> (forall a, is_Some (st !! a) -> is_Some (strings n !! a) \/ next_address n <= a < next) ->
  owned_by (changed n p y st next) qs' ps /\ frame 0 n (changed n p y st next).
Proof.
  intros [Hq Hql Hp Hpl Hnd Hst Hh Hhl Hadr H0] Hx Hhe Hrefs Hpos Hsame Hv Hu Hnd' Hst' Hnext Hnew.
  assert (header_handles (changed n p y st next) ≡ₚ header_handles n) as Hhh.
  { rewrite !header_handles_listed. simpl. by rewrite (listed_put q_headers _ p x y). }
  split.
  - split; simpl.
    + intros r z. destruct (decide (r = p)) as [->|Hr]; [rewrite lookup_insert_eq; by intros [= <-]|].
      rewrite lookup_insert_ne by done. intros Hz. destruct (Hq r z Hz) as (E & H). split; [|done].
      rewrite E, Hsame; [done..|]. destruct (Hadr r); [eauto|lia].
    + intros r Hr Hr0. destruct (decide (r = p)) as [->|]; [rewrite lookup_insert_eq; eauto|].
      rewrite lookup_insert_ne by done. apply Hql; [by eapply handles_same|done].
    + done.
    + done.
    + by rewrite blocks_put.
    + intros a. rewrite blocks_put. apply Hst'.
    + by rewrite Hhh.
    + by rewrite Hhh.
    + intros r Hr. assert (0 < r < next_address n \/ next_address n <= r < next) as [|]; [|lia..].
      destruct Hr as [Hr|[Hr|[Hr|Hr]]]; [| |destruct (Hnew r Hr); [|by right]|]; left; apply Hadr; eauto.
      left. destruct (decide (r = p)) as [->|]; [eauto|]. by rewrite lookup_insert_ne in Hr.
    + lia.
  - split; [done|]. apply mild_same; try done. unfold weight. rewrite Hhh. simpl. lia.
Qed.

(** The blocks of a request are not those of another one. *)
Lemma owned_blocks n qs ps p x : owned_by n qs ps -> requests n !! p = Some x ->
  NoDup (blocks_of x ++ rest n p) /\ forall a, a ∈ blocks_of x ++ rest n p -> is_Some (strings n !! a).
Proof.
  intros Ho Hx. pose proof (o_blocks _ _ _ Ho) as Hnd. pose proof (o_strings _ _ _ Ho) as Hst.
  rewrite (blocks_pick _ p x Hx) in Hnd. split; [done|]. intros a Ha. apply Hst. by rewrite (blocks_pick _ p x Hx).
Qed.

(** Changes that leave the strings alone. *)
Lemma put_request_does n qs qs' ps p x y (Q : net -> unit -> Prop) :
  owned_by n qs ps -> requests n !! p = Some x ->
  q_headers y = q_headers x -> blocks_of y = blocks_of x -> verb_ok (q_verb y) -> url_ok (q_url y) ->
  q_refs y = Z.of_nat (handles qs' p) -> 0 < q_refs y -> (forall r, r <> p -> r <> 0 -> handles qs' r = handles qs r) ->
  (let n' := with_requests n (<[p := y]> (requests n)) in owned_by n' qs' ps -> frame 0 n n' -> Q n' tt) -> does n (put_request p y) Q.
Proof.
  intros Ho Hx Hh Hb Hv Hu Hr Hpos Hsame HQ.
  destruct (owned_blocks n qs ps p x Ho Hx) as [Hnd Hst]. rewrite <- Hb in Hnd, Hst.
  destruct (owned_changed n qs qs' ps p x y (strings n) (next_address n)) as [Ho' Hf]; try done; [auto|].
  assert (changed n p y (strings n) (next_address n) = with_requests n (<[p:=y]> (requests n))) as E by by destruct n.
  rewrite E in *. by apply HQ.
Qed.

Lemma handles_bound qs p : Z.of_nat (handles qs p) <= Zlen qs.
Proof. pose proof (handles_le qs p). unfold Zlen. lia. Qed.

Lemma request_add_ref_does n qs ps p x (Q : net -> unit -> Prop) :
  owned_by n qs ps -> requests n !! p = Some x -> Zlen qs < 2 ^ 32 - 1 ->
  (let n' := with_requests n (<[p := with_q_refs x (q_refs x + 1)]> (requests n)) in
   owned_by n' (p :: qs) ps -> frame 0 n n' -> Q n' tt) -> does n (request_add_ref p) Q.
Proof.
  intros Ho Hx Hroom HQ. unfold request_add_ref. eapply does_at; [exact Hx|].
  pose proof (o_request _ _ _ Ho p x Hx) as (Hr & Hpos & Hv & Hu). pose proof (handles_bound qs p).
  rewrite u32_small by lia. eapply put_request_does; [exact Ho|exact Hx|done..| | | |exact HQ]; simpl; [|lia|].
  - rewrite handles_cons, decide_True by done. lia.
  - intros r Hrp _. rewrite handles_cons, decide_False; [lia|congruence].
Qed.

(** ** Verbs and URLs *)

Definition freed (c : chars) (st : gmap Z (list Z)) : gmap Z (list Z) := match c with owned a => delete a st | _ => st end.

Lemma free_does n c (Q : net -> unit -> Prop) : url_ok c -> (forall a, a ∈ block c -> is_Some (strings n !! a)) ->
  Q (with_strings n (freed c (strings n))) tt -> does n (free c) Q.
Proof.
  intros [->|[a ->]] Hlive HQ; simpl in *.
  - assert (with_strings n (strings n) = n) as E by by destruct n. by rewrite E in HQ.
  - destruct (Hlive a) as [t Ht]; [by left|]. eapply does_at; [exact Ht|]. exact HQ.
Qed.

Lemma freed_live c st a : is_Some (st !! a) -> a ∉ block c -> is_Some (freed c st !! a).
Proof.
  intros Ha Hno. destruct c; simpl in *; try done. rewrite lookup_delete_ne; [done|]. intros ->. apply Hno. by left.
Qed.
Lemma freed_subset c st a : is_Some (freed c st !! a) -> is_Some (st !! a).
Proof. destruct c; simpl; try done. rewrite !lookup_delete_is_Some. tauto. Qed.

(** A request that gives up the block of one [char *], [c], and may get another. *)
Lemma slot_changed n qs ps p x y c st next :
  owned_by n qs ps -> requests n !! p = Some x -> q_headers y = q_headers x -> q_refs y = q_refs x ->
  verb_ok (q_verb y) -> url_ok (q_url y) ->
  (exists k new, blocks_of x ≡ₚ block c ++ k /\ blocks_of y ≡ₚ block new ++ k /\
     (forall a, a ∈ block new -> a = next_address n /\ is_Some (st !! a))) ->
  (forall a, is_Some (strings n !! a) -> a ∉ block c -> is_Some (st !! a)) ->
  next_address n <= next -> (forall a, is_Some (st !! a) -> is_Some (strings n !! a) \/ next_address n <= a < next) ->
  owned_by (changed n p y st next) qs ps /\ frame 0 n (changed n p y st next).
Proof.
  intros Ho Hx Hh Hr Hv Hu (k & new & Hbx & Hby & Hnew) Hkeep Hnext Hst.
  destruct (o_request _ _ _ Ho p x Hx) as (Hrefs & Hpos & _).
  destruct (owned_blocks n qs ps p x Ho Hx) as [Hnd Hlive].
  assert (forall a, a ∈ k ++ rest n p -> is_Some (strings n !! a) /\ a ∉ block c) as Hother.
  { intros a Ha. split; [apply Hlive; rewrite Hbx, <- app_assoc; apply elem_of_app; by right|].
    rewrite Hbx, <- app_assoc in Hnd. apply NoDup_app in Hnd as (_ & Hno & _). intros Hc. by apply (Hno a). }
  apply (owned_changed n qs qs ps p x y st next); try done; [congruence|lia| |].
  - rewrite Hby, <- app_assoc. apply NoDup_app. split; [destruct new; simpl; try constructor; [set_solver|constructor]|].
    rewrite Hbx, <- app_assoc in Hnd. apply NoDup_app in Hnd as (_ & _ & Hnd). split; [|done].
    intros a [-> _]%Hnew [Hin _]%Hother. pose proof (o_addresses _ _ _ Ho (next_address n) ltac:(eauto)). lia.
  - intros a. rewrite Hby, <- app_assoc. intros [[_ Ha]%Hnew|Ha]%elem_of_app; [done|]. apply Hother in Ha as [Ha Hno]. by apply Hkeep.
Qed.

(** What becomes of the requests: [p] gets another impl, with the same headers and count. *)
Definition replaced (n n' : net) (p : Z) (y : request_impl) : Prop := requests n' = <[p := y]> (requests n) /\ responses n' = responses n.

Lemma free_verb_does n qs ps p x (Q : net -> unit -> Prop) :
  owned_by n qs ps -> requests n !! p = Some x ->
  (forall n', owned_by n' qs ps -> frame 0 n n' -> replaced n n' p (with_q_verb x no_chars) -> Q n' tt) -> does n (free_verb p) Q.
Proof.
  intros Ho Hx HQ. unfold free_verb. eapply does_at; [exact Hx|].
  destruct (o_request _ _ _ Ho p x Hx) as (Hr & Hpos & Hv & Hu). destruct (owned_blocks n qs ps p x Ho Hx) as [Hnd Hlive].
  case_bool_decide as Hnone.
  { apply does_ret, HQ; [done|apply frame_refl|]. split; [|done]. symmetry. apply insert_id. rewrite Hx. f_equal. destruct x; simpl in *. by subst. }
  destruct (slot_changed n qs ps p x (with_q_verb x no_chars) (if is_standard_verb (q_verb x) then no_chars else q_verb x)
    (if is_standard_verb (q_verb x) then strings n else freed (q_verb x) (strings n)) (next_address n)) as [Ho' Hf]; try done.
  - by left.
  - exists (block (q_url x)), no_chars. split_and!; [|done|by intros a ?%not_elem_of_nil].
    destruct Hv as [|[Hs|[a Ha]]]; [done| |].
    + rewrite Hs. unfold blocks_of. destruct (q_verb x); done.
    + unfold blocks_of. rewrite Ha. simpl. done.
  - intros a Ha Hno. destruct (is_standard_verb (q_verb x)); [done|]. by apply freed_live.
  - intros a Ha. left. destruct (is_standard_verb (q_verb x)); [done|]. by eapply freed_subset.
  - eapply does_andthen; [apply (does_when _ _ _ (fun n' _ => n' = with_strings n (if is_standard_verb (q_verb x) then strings n else freed (q_verb x) (strings n))))|].
    + intros Hs%negb_true_iff. apply free_does; [|intros a Ha; apply Hlive; unfold blocks_of; set_solver|by rewrite Hs].
      destruct Hv as [|[|Hv]]; [done|congruence|by right].
    + intros Hs%negb_false_iff. rewrite Hs. by destruct n.
    + intros n' u ->. apply HQ; [|done|done]. exact Ho'.
Qed.

(** The verb, or the URL. *)
Definition slot (verb : bool) (x : request_impl) : chars := if verb then q_verb x else q_url x.
Definition with_slot (verb : bool) (x : request_impl) (v : chars) : request_impl := if verb then with_q_verb x v else with_q_url x v.

(** [strdup] into a [char *], whose old block, if there is one, nobody has any more. *)
Lemma strdup_does b n qs ps p x t (Q : net -> unit -> Prop) :
  owned_by n qs ps -> requests n !! p = Some x ->
  (forall n' a, owned_by n' qs ps -> frame 0 n n' -> replaced n n' p (with_slot b x (owned a)) -> strings n' !! a = Some t -> Q n' tt) ->
  does n (let* v := strdup t in put_request p (with_slot b x v)) Q.
Proof.
  intros Ho Hx HQ. destruct (o_request _ _ _ Ho p x Hx) as (Hr & Hpos & Hv & Hu). set (a := next_address n).
  destruct (slot_changed n qs ps p x (with_slot b x (owned a)) (slot b x) (<[a := t]> (strings n)) (a + 1)) as [Ho' Hf]; try done.
  - by destruct b.
  - by destruct b.
  - destruct b; simpl; [by right; right; exists a|done].
  - destruct b; simpl; [done|by right; exists a].
  - exists (block (slot (negb b) x)), (owned a). assert (forall r, r ∈ [a] -> r = next_address n /\ is_Some (<[a := t]> (strings n) !! r)) as Hnew.
    { intros r ->%list_elem_of_singleton. split; [done|]. rewrite lookup_insert_eq. eauto. }
    destruct b; (split_and!; [| |exact Hnew]); unfold blocks_of, slot; simpl; try done; by rewrite Permutation_app_comm.
  - intros r Hr' _. apply lookup_insert_is_Some'. by right.
  - unfold a. lia.
  - intros r Hr'. apply lookup_insert_is_Some' in Hr' as [Hr'|Hr']; [right; unfold a in *; lia|by left].
  - unfold does, yields. eapply (HQ _ a Ho' Hf); [done|]. simpl. by rewrite lookup_insert_eq.
Qed.

Lemma request_set_verb_does n qs ps p verb (Q : net -> unit -> Prop) :
  owned_by n qs ps -> is_Some (requests n !! p) -> (forall n', owned_by n' qs ps -> frame 0 n n' -> Q n' tt) ->
  does n (request_set_verb p verb) Q.
Proof.
  intros Ho [x Hx] HQ. destruct verb as [[|c t]|]; try (apply does_ret, HQ; [done|apply frame_refl]).
  eapply does_at; [exact Hx|]. apply (strdup_does true n qs ps p x); auto.
Qed.
Lemma request_set_url_does n qs ps p url (Q : net -> unit -> Prop) :
  owned_by n qs ps -> is_Some (requests n !! p) -> (forall n', owned_by n' qs ps -> frame 0 n n' -> Q n' tt) ->
  does n (request_set_url p url) Q.
Proof.
  intros Ho [x Hx] HQ. destruct url as [[|c t]|]; try (apply does_ret, HQ; [done|apply frame_refl]).
  eapply does_at; [exact Hx|]. apply (strdup_does false n qs ps p x); auto.
Qed.

(** [impl_t::set_url] and [set_verb] of a request that has neither, as [start_get]
    uses them. *)
Lemma impl_set_url_does n qs ps p x url (Q : net -> unit -> Prop) :
  owned_by n qs ps -> requests n !! p = Some x -> q_url x = no_chars ->
  (forall n' u, owned_by n' qs ps -> frame 0 n n' -> replaced n n' p (with_q_url x u) ->
    (forall a, u = owned a -> exists c t, url = Some (c :: t) /\ strings n' !! a = Some (c :: t)) -> Q n' tt) ->
  does n (impl_set_url p url) Q.
Proof.
  intros Ho Hx Hu HQ. unfold impl_set_url. eapply does_at; [exact Hx|]. rewrite Hu. simpl. apply does_then.
  assert (Q n tt) as Hn.
  { apply (HQ n no_chars); [done|apply frame_refl| |done]. split; [|done]. symmetry. apply insert_id. rewrite Hx. destruct x; simpl in *. by subst. }
  destruct url as [[|c t]|]; try (by apply does_ret). apply (strdup_does false n qs ps p x); [done..|].
  intros n' a Ho' Hf Hr Hs. apply (HQ n' (owned a)); try done. intros b [= <-]. by exists c, t.
Qed.
Lemma impl_set_get_verb_does n qs ps p x (Q : net -> unit -> Prop) :
  owned_by n qs ps -> requests n !! p = Some x -> q_verb x = no_chars ->
  (let n' := with_requests n (<[p := with_q_verb x (verb_of http_get)]> (requests n)) in
   owned_by n' qs ps -> frame 0 n n' -> Q n' tt) -> does n (impl_set_verb p (Some (str "get"))) Q.
Proof.
  intros Ho Hx Hv HQ. destruct (o_request _ _ _ Ho p x Hx) as (Hr & Hpos & _ & Hu).
  unfold impl_set_verb. eapply does_at; [exact Hx|]. rewrite Hv. unfold free_verb.
  eapply does_andthen; [by apply (does_ret _ _ (fun n' b => n' = n /\ b = false))|]. intros n' b [-> ->]. cbn [bool_decide].
  eapply does_andthen; [eapply does_at; [exact Hx|]; rewrite Hv; by apply (does_ret _ _ (fun n' _ => n' = n))|]. intros n' _ ->.
  eapply does_at; [exact Hx|]. assert (standard_verb (str "get") = Some http_get) as -> by by vm_compute.
  eapply put_request_does; [exact Ho|exact Hx|done|..|exact HQ]; simpl; try done; [unfold blocks_of; by rewrite Hv|by right; left].
Qed.

(** ** The end of a request *)

Lemma freed_free n c (Q : net -> unit -> Prop) : url_ok c -> (forall a, a ∈ block c -> is_Some (strings n !! a)) ->
  Q (with_strings n (freed c (strings n))) tt -> does n (when (negb (bool_decide (c = no_chars))) (free c)) Q.
Proof.
  intros Hc Hlive HQ. apply does_when; [intros _; by apply free_does|].
  intros ->%negb_false_iff%bool_decide_eq_true. by destruct n.
Qed.

(** After [free_verb], whatever the count says. *)
Lemma free_verb_runs n p z : requests n !! p = Some z -> verb_ok (q_verb z) -> (forall a, a ∈ block (q_verb z) -> is_Some (strings n !! a)) ->
  does n (free_verb p) (fun n' _ => n' = with_requests (with_strings n (freed (q_verb z) (strings n))) (<[p := with_q_verb z no_chars]> (requests n))).
Proof.
  intros Hz Hv Hlive. unfold free_verb. eapply does_at; [exact Hz|]. case_bool_decide as Hno.
  { apply does_ret. rewrite Hno. simpl. assert (with_q_verb z no_chars = z) as -> by (destruct z; simpl in *; by subst).
    rewrite insert_id by done. by destruct n. }
  eapply does_andthen; [apply (does_when _ _ _ (fun n' _ => n' = with_strings n (freed (q_verb z) (strings n))))|].
  - intros Hs%negb_true_iff. apply free_does; [|done..]. destruct Hv as [|[|Hv]]; [done|congruence|by right].
  - intros Hs%negb_false_iff. destruct Hv as [|[Hv|[a Ha]]]; [done| |rewrite Ha in Hs; by vm_compute in Hs].
    destruct (q_verb z); try done; by destruct n.
  - intros n' _ ->. by apply does_set.
Qed.

Lemma delete_request_runs n p z h' : requests n !! p = Some z -> verb_ok (q_verb z) -> url_ok (q_url z) ->
  NoDup (blocks_of z) -> (forall a, a ∈ blocks_of z -> is_Some (strings n !! a)) ->
  headers_destroy (collections n) (q_headers z) = Ok h' ->
  does n (delete_request p) (fun n' _ => n' = with_requests (with_collections
    (with_strings n (freed (q_url z) (freed (q_verb z) (strings n)))) h') (delete p (requests n))).
Proof.
  intros Hz Hv Hu Hnd Hlive Hh. unfold delete_request.
  eapply does_andthen; [apply (free_verb_runs n p z); [done..|]; intros a Ha; apply Hlive; unfold blocks_of; set_solver|].
  intros n1 u ->. eapply does_at; [simpl; apply lookup_insert_eq|]. eapply does_andthen; [apply freed_free with
    (Q := fun n' _ => n' = with_requests (with_strings n (freed (q_url z) (freed (q_verb z) (strings n)))) (<[p := with_q_verb z no_chars]> (requests n)))|].
  - done.
  - intros a Ha. simpl. apply freed_live; [apply Hlive; unfold blocks_of; set_solver|].
    unfold blocks_of in Hnd. apply NoDup_app in Hnd as (_ & Hno & _). intros Hin. by apply (Hno a).
  - done.
  - intros n2 v ->. set (n2 := with_requests _ _). unfold destroy_headers.
    apply (does_andthen _ _ _ (fun n' _ => n' = with_collections n2 h')); [|intros n3 w ->; apply does_set; unfold n2; simpl; by rewrite delete_insert_eq].
    apply (does_andthen _ _ _ (fun n' h => n' = n2 /\ h = collections n)); [done|]. intros n3 h [-> ->].
    apply (does_andthen _ _ _ (fun n' h => n' = n2 /\ h = h')); [by eapply does_lift|]. intros n4 h [-> ->]. by apply does_set.
Qed.

(** Its headers go, and nobody else's. *)
Lemma destroy_headers_of n h0 rest a : consistent (collections n) (header_handles n) -> Forall (fun p => p <> 0) (header_handles n) ->
  weight n < 2 ^ 32 - 1 -> header_handles n ≡ₚ a :: rest -> h0 = collections n ->
  exists h', headers_destroy h0 a = Ok h' /\ consistent h' rest /\ Forall (fun p => p <> 0) rest /\
    Zlen rest + Z.of_nat (size (cells h')) <= weight n.
Proof.
  intros Hcon Hlive Hroom Hperm ->. unfold weight in *. rewrite Hperm in Hcon, Hlive, Hroom. inversion Hlive as [|? ? Ha Hrest]; subst.
  destruct (headers_destroy_spec (collections n) rest a) as (h' & Hd & Hcon'); [done| |done|].
  { unfold few. done. }
  exists h'. split_and!; [done..|]. apply release_ref_size in Hd. rewrite Hperm, Zlen_cons. lia.
Qed.

(** A state without a request that nothing refers to, without its blocks and
    with other headers. *)
Definition without_request (n : net) (p : Z) (st : gmap Z (list Z)) (h : heap) : net :=
  with_requests (with_collections (with_strings n st) h) (delete p (requests n)).

Lemma owned_without n qs ps p x st h :
  owned_by n (p :: qs) ps -> requests n !! p = Some x -> handles qs p = 0%nat ->
  (forall a, a ∈ rest n p -> is_Some (st !! a)) -> (forall a, is_Some (st !! a) -> is_Some (strings n !! a)) ->
  consistent h (header_handles (without_request n p st h)) -> Forall (fun p => p <> 0) (header_handles (without_request n p st h)) ->
  Zlen (header_handles (without_request n p st h)) + Z.of_nat (size (cells h)) <= weight n ->
  owned_by (without_request n p st h) qs ps /\ frame 0 n (without_request n p st h).
Proof.
  intros [Hq Hql Hp Hpl Hnd Hst Hh Hhl Hadr H0] Hx Hzero Hrest Hsub Hcon Hlive Hw.
  split; [|split; [done|by apply mild_same]].
  split; try done; simpl.
  - intros r y [Hr Hy]%lookup_delete_Some. destruct (Hq r y Hy) as (E & H). rewrite handles_cons, decide_False in E by done. done.
  - intros r Hr Hr0. rewrite lookup_delete_is_Some. split; [intros <-; by eapply handles_zero|]. apply Hql; [by right|done].
  - rewrite (blocks_pick _ p x Hx) in Hnd. by apply NoDup_app in Hnd as (_ & _ & Hnd).
  - intros r Hr. apply Hadr. rewrite lookup_delete_is_Some in Hr. naive_solver.
Qed.

Lemma request_release_ref_does n qs ps p (Q : net -> unit -> Prop) :
  owned_by n (p :: qs) ps -> p <> 0 -> Zlen qs < 2 ^ 32 - 1 -> weight n < 2 ^ 32 - 1 ->
  (forall n', owned_by n' qs ps -> frame 0 n n' -> Q n' tt) -> does n (request_release_ref p) Q.
Proof.
  intros Ho Hp Hroom Hweight HQ. destruct (o_request_live _ _ _ Ho p) as [x Hx]; [by left|done|].
  destruct (o_request _ _ _ Ho p x Hx) as (Hr & Hpos & Hv & Hu). rewrite handles_cons, decide_True in Hr by done.
  pose proof (handles_bound qs p). destruct (owned_blocks n _ ps p x Ho Hx) as [Hnd Hlive].
  unfold request_release_ref. eapply does_at; [exact Hx|]. destruct (Z.eqb_spec (q_refs x) 1) as [H1|H1].
  2: { eapply does_andthen with (P := fun n' _ => Q n' tt); [|by intros n' u HQ'; apply does_ret; destruct u].
    rewrite u32_small by lia. apply (put_request_does n (p :: qs) qs ps p x); try done; simpl; [lia..| |intros Ho' Hf; by apply HQ].
    intros r Hrp _. rewrite handles_cons, decide_False; [done|congruence]. }
  apply does_then. rewrite H1. change (u32 (1 - 1)) with 0. set (z := with_q_refs x 0). set (n1 := with_requests n _).
  set (st := freed (q_url x) (freed (q_verb x) (strings n))).
  assert (forall h, header_handles n ≡ₚ q_headers x :: header_handles (without_request n p st h)) as Hhh.
  { intros h. rewrite !header_handles_listed. simpl. by rewrite (listed_pick q_headers _ p x Hx). }
  destruct (destroy_headers_of n (collections n1) _ _ (o_headers _ _ _ Ho) (o_header_live _ _ _ Ho) Hweight (Hhh heap_empty)) as (h' & Hd & Hcon & Hl & Hw); [done|].
  apply NoDup_app in Hnd as (Hnd1 & Hno & Hnd2).
  assert (forall a, a ∈ blocks_of x -> is_Some (strings n !! a)) as Hown by (intros a Ha; apply Hlive, elem_of_app; by left).
  destruct (owned_without n qs ps p x st h') as [Ho' Hf]; try done; [lia|..].
  - intros a Ha. unfold st. repeat apply freed_live; [by apply Hlive, elem_of_app; right|..];
      intros Hin; apply (Hno a); try done; unfold blocks_of; set_solver.
  - intros a Ha. by apply freed_subset, freed_subset in Ha.
  - eapply does_mono; [by apply (delete_request_runs n1 p z h'); [apply lookup_insert_eq|..]|].
    intros n' [] ->. unfold n1. simpl. rewrite delete_insert_eq. by apply HQ.
Qed.

(** ** Responses *)

Lemma owned_put_response n qs ps ps' p x y :
  owned_by n qs ps -> responses n !! p = Some x ->
  p_headers y = p_headers x -> p_effective_url y = no_chars -> p_refs y = Z.of_nat (handles ps' p) -> 0 < p_refs y ->
  (forall r, r <> p -> r <> 0 -> handles ps' r = handles ps r) ->
  let n' := with_responses n (<[p := y]> (responses n)) in owned_by n' qs ps' /\ weight n' = weight n.
Proof.
  intros [Hq Hql Hp Hpl Hnd Hst Hh Hhl Hadr H0] Hx Hhe Hu Hr Hpos Hsame n'.
  assert (header_handles n' ≡ₚ header_handles n) as Hhh.
  { rewrite !header_handles_listed. simpl. by rewrite (listed_put p_headers _ p x y). }
  split; [|unfold weight; by rewrite Hhh]. split; try done; simpl.
  - intros r z. destruct (decide (r = p)) as [->|Hrp]; [rewrite lookup_insert_eq; by intros [= <-]|].
    rewrite lookup_insert_ne by done. intros Hz. destruct (Hp r z Hz) as (E & H). split; [|done].
    rewrite E, Hsame; [done..|]. destruct (Hadr r); [eauto|lia].
  - intros r Hrin Hr0. destruct (decide (r = p)) as [->|]; [rewrite lookup_insert_eq; eauto|].
    rewrite lookup_insert_ne by done. apply Hpl; [by eapply handles_same|done].
  - by rewrite Hhh.
  - by rewrite Hhh.
  - intros r [Hr'|[Hr'|Hr']]; apply Hadr; eauto. right. left. destruct (decide (r = p)) as [->|]; [eauto|].
    by rewrite lookup_insert_ne in Hr'.
Qed.

Lemma put_response_does n qs ps ps' p x y (Q : net -> unit -> Prop) :
  owned_by n qs ps -> responses n !! p = Some x ->
  p_headers y = p_headers x -> p_effective_url y = no_chars -> p_refs y = Z.of_nat (handles ps' p) -> 0 < p_refs y ->
  (forall r, r <> p -> r <> 0 -> handles ps' r = handles ps r) ->
  (p_owns_session y = true -> p_owns_session x = true) -> p_session y = p_session x \/ p_session y = 0 ->
  (let n' := with_responses n (<[p := y]> (responses n)) in owned_by n' qs ps' -> frame 0 n n' -> Q n' tt) -> does n (put_response p y) Q.
Proof.
  intros Ho Hx Hhe Hu Hr Hpos Hsame Hown Hback HQ. destruct (owned_put_response n qs ps ps' p x y) as [Ho' Hw]; try done.
  apply HQ; [done|]. split; [done|]. split; [auto|auto| | |done|lia].
  - intros F HF r z. simpl. destruct (decide (r = p)) as [->|]; [|rewrite lookup_insert_ne by done; apply HF].
    rewrite lookup_insert_eq. intros [= <-] Hz Hz0. destruct Hback as [E|]; [|done]. rewrite E in *. apply HF; auto.
  - intros G HG HB r z. simpl. destruct (decide (r = p)) as [->|]; [|rewrite lookup_insert_ne by done; apply HB].
    rewrite lookup_insert_eq. intros [= <-] Hz0. destruct Hback as [E|]; [|done]. rewrite E in *. by apply HB.
Qed.

Lemma response_add_ref_does n qs ps p x (Q : net -> unit -> Prop) :
  owned_by n qs ps -> responses n !! p = Some x -> Zlen ps < 2 ^ 32 - 1 ->
  (let n' := with_responses n (<[p := with_p_refs x (p_refs x + 1)]> (responses n)) in
   owned_by n' qs (p :: ps) -> frame 0 n n' -> Q n' tt) -> does n (response_add_ref p) Q.
Proof.
  intros Ho Hx Hroom HQ. unfold response_add_ref. eapply does_at; [exact Hx|].
  pose proof (o_response _ _ _ Ho p x Hx) as (Hr & Hpos & Hu). pose proof (handles_bound ps p).
  rewrite u32_small by lia. apply (put_response_does n qs ps (p :: ps) p x); try done; simpl; [|lia| |by left].
  - rewrite handles_cons, decide_True by done. lia.
  - intros r Hrp _. rewrite handles_cons, decide_False; [lia|congruence].
Qed.

Definition without_response (n : net) (p : Z) (h : heap) : net :=
  with_responses (with_collections n h) (delete p (responses n)).

Lemma owned_without_response n qs ps p x h :
  owned_by n qs (p :: ps) -> responses n !! p = Some x -> handles ps p = 0%nat ->
  consistent h (header_handles (without_response n p h)) -> Forall (fun p => p <> 0) (header_handles (without_response n p h)) ->
  Zlen (header_handles (without_response n p h)) + Z.of_nat (size (cells h)) <= weight n ->
  owned_by (without_response n p h) qs ps /\ frame 0 n (without_response n p h).
Proof.
  intros [Hq Hql Hp Hpl Hnd Hst Hh Hhl Hadr H0] Hx Hzero Hcon Hlive Hw. split.
  2: { split; [done|]. split; [auto|auto| | |done|unfold weight at 1; simpl; lia].
    - intros F HF r y Hy. simpl in Hy. apply lookup_delete_Some in Hy as [_ Hy]. by apply HF.
    - intros G HG HB r y Hy. simpl in Hy. apply lookup_delete_Some in Hy as [_ Hy]. by apply HB. }
  split; try done; simpl.
  - intros r y [Hr Hy]%lookup_delete_Some. destruct (Hp r y Hy) as (E & H). rewrite handles_cons, decide_False in E by done. done.
  - intros r Hr Hr0. rewrite lookup_delete_is_Some. split; [intros <-; by eapply handles_zero|]. apply Hpl; [by right|done].
  - intros r Hr. apply Hadr. rewrite lookup_delete_is_Some in Hr. naive_solver.
Qed.

(** Dropping a reference to a response which does not own a session that lives. *)
Lemma release_response_does d n qs ps p (Q : net -> unit -> Prop) :
  owned_by n qs (p :: ps) -> p <> 0 -> Zlen ps < 2 ^ 32 - 1 -> weight n < 2 ^ 32 - 1 ->
  (forall x, responses n !! p = Some x -> p_owns_session x = true -> p_session x <> 0 -> (0 < handles ps p)%nat) ->
  (forall n', owned_by n' qs ps -> frame 0 n n' -> Q n' tt) -> does n (release_response d p) Q.
Proof.
  intros Ho Hp Hroom Hweight Hown HQ. destruct (o_response_live _ _ _ Ho p) as [x Hx]; [by left|done|].
  destruct (o_response _ _ _ Ho p x Hx) as (Hr & Hpos & Hu). rewrite handles_cons, decide_True in Hr by done.
  pose proof (handles_bound ps p). specialize (Hown x Hx).
  unfold release_response. eapply does_at; [exact Hx|]. destruct (Z.eqb_spec (p_refs x) 1) as [H1|H1].
  2: { eapply does_andthen with (P := fun n' _ => Q n' tt); [|by intros n' u HQ'; apply does_ret; destruct u].
    rewrite u32_small by lia. apply (put_response_does n qs (p :: ps) ps p x); try done; simpl; [lia..| |by left|intros Ho' Hf; by apply HQ].
    intros r Hrp _. rewrite handles_cons, decide_False; [done|congruence]. }
  apply does_then. rewrite H1. change (u32 (1 - 1)) with 0. set (z := with_p_refs x 0). set (n1 := with_responses n _).
  assert (forall h, header_handles n ≡ₚ p_headers x :: header_handles (without_response n p h)) as Hhh.
  { intros h. rewrite !header_handles_listed. simpl. rewrite (listed_pick p_headers _ p x Hx). by rewrite Permutation_middle. }
  destruct (destroy_headers_of n (collections n1) _ _ (o_headers _ _ _ Ho) (o_header_live _ _ _ Ho) Hweight (Hhh heap_empty)) as (h' & Hd & Hcon & Hl & Hw); [done|].
  destruct (owned_without_response n qs ps p x h') as [Ho' Hf]; try done; [lia|].
  unfold delete_response. eapply does_at; [apply lookup_insert_eq|]. simpl.
  assert (p_owns_session x && negb (p_session x =? 0) = false) as ->.
  { destruct (p_owns_session x), (Z.eqb_spec (p_session x) 0); try done. lia. }
  eapply does_at; [apply lookup_insert_eq|]. simpl. rewrite Hu.
  apply (does_andthen _ _ _ (fun n' _ => n' = n1)); [done|]. intros n2 _ ->.
  apply (does_andthen _ _ _ (fun n' _ => n' = with_collections n1 h')).
  - unfold destroy_headers. apply (does_andthen _ _ _ (fun n' h => n' = n1 /\ h = collections n)); [done|]. intros n3 h [-> ->].
    apply (does_andthen _ _ _ (fun n' h => n' = n1 /\ h = h')); [by eapply does_lift|]. intros n4 h [-> ->]. by apply does_set.
  - intros n2 _ ->. apply does_set. unfold n1. simpl. rewrite delete_insert_eq. by apply HQ.
Qed.

(** ** New requests and responses *)

Lemma fresh_handles n qs ps : owned_by n qs ps -> handles qs (next_address n) = 0%nat /\ handles ps (next_address n) = 0%nat /\
  requests n !! next_address n = None /\ responses n !! next_address n = None /\ sessions n !! next_address n = None.
Proof.
  intros Ho. pose proof (o_start _ _ _ Ho) as H0.
  assert (forall r, is_Some (requests n !! r) \/ is_Some (responses n !! r) \/ is_Some (strings n !! r) \/
    is_Some (sessions n !! r) \/ is_Some (channels n !! r) -> r <> next_address n) as Hne
    by (intros r Hr ->; pose proof (o_addresses _ _ _ Ho _ Hr); lia).
  assert (forall qs, (forall p, p ∈ qs -> p <> 0 -> p <> next_address n) -> handles qs (next_address n) = 0%nat) as Hzero.
  { intros l Hl. destruct (handles l (next_address n)) eqn:E; [done|]. exfalso. unfold handles in E.
    destruct (filter _ l) as [|q l'] eqn:Ef; [done|]. assert (q ∈ filter (fun q => q = next_address n) l) as Hq by (rewrite Ef; by left).
    apply list_elem_of_filter in Hq as [-> Hq]. by apply (Hl _ Hq); [lia|]. }
  split_and!.
  - apply Hzero. intros p Hp Hp0. apply Hne. left. by apply (o_request_live _ _ _ Ho).
  - apply Hzero. intros p Hp Hp0. apply Hne. right. left. by apply (o_response_live _ _ _ Ho).
  - apply eq_None_not_Some. intros H. apply (Hne (next_address n)); auto.
  - apply eq_None_not_Some. intros H. apply (Hne (next_address n)); auto.
  - apply eq_None_not_Some. intros H. apply (Hne (next_address n)); auto.
Qed.

Lemma new_collection n qs ps : owned_by n qs ps ->
  consistent (headers_new (collections n)).1 (brk (collections n) :: header_handles n) /\ brk (collections n) <> 0 /\
  Z.of_nat (size (cells (headers_new (collections n)).1)) <= Z.of_nat (size (cells (collections n))) + 1.
Proof.
  intros Ho. pose proof (o_headers _ _ _ Ho) as Hcon. split_and!; [by apply consistent_new|pose proof (heap_start _ _ Hcon); lia|].
  unfold headers_new, impl_t_new. cbn [fst cells]. rewrite map_size_insert. destruct (cells _ !! _); unfold Datatypes.id; lia.
Qed.

Lemma new_request_does n qs ps s (Q : net -> Z -> Prop) :
  owned_by n qs ps -> (forall n' x, owned_by n' (next_address n :: qs) ps -> frame 2 n n' -> replaced n n' (next_address n) x ->
    q_verb x = no_chars -> q_url x = no_chars -> next_address n <> 0 -> next_address n <= next_address n' -> Q n' (next_address n)) ->
  does n (new_request s) Q.
Proof.
  intros Ho HQ. destruct (fresh_handles n qs ps Ho) as (Hfq & _ & Hfresh & _). destruct (new_collection n qs ps Ho) as (Hcon & Hbrk & Hsize).
  destruct Ho as [Hq Hql Hp Hpl Hnd Hst Hh Hhl Hadr H0].
  unfold does, yields, new_request, andthen. cbn. set (p := next_address n) in *. set (x := Build_request_impl _ _ _ _ _ _).
  match goal with |- Q ?m _ => set (n' := m) end.
  assert (header_handles n' ≡ₚ brk (collections n) :: header_handles n) as Hhh.
  { rewrite !header_handles_listed. simpl. by rewrite listed_insert. }
  apply (HQ n' x); try done; [|split| |simpl; unfold p; lia].
  - split; simpl; try done.
    + intros r y. destruct (decide (r = p)) as [->|Hr]; [rewrite lookup_insert_eq; intros [= <-]; simpl|].
      * rewrite handles_cons, decide_True, Hfq by done. split_and!; [done|done|by left|by left].
      * rewrite lookup_insert_ne by done. intros Hy. rewrite handles_cons, decide_False by done. by apply Hq.
    + intros r Hr Hr0. destruct (decide (r = p)) as [->|]; [rewrite lookup_insert_eq; eauto|]. rewrite lookup_insert_ne by done.
      apply elem_of_cons in Hr as [->|Hr]; [done|by apply Hql].
    + by rewrite blocks_insert.
    + intros a. rewrite blocks_insert by done. apply Hst.
    + by rewrite Hhh.
    + rewrite Hhh. by constructor.
    + intros r Hr. assert (r = p \/ 0 < r < next_address n) as [->|]; [|lia..]. destruct (decide (r = p)) as [|Hrp]; [by left|right].
      apply Hadr. by rewrite lookup_insert_ne in Hr.
    + lia.
  - done.
  - split; [auto..|simpl; lia|]. unfold weight. rewrite Hhh, Zlen_cons. simpl. simpl in Hsize. lia.
  - lia.
Qed.

Lemma new_response_does n qs ps s (Q : net -> Z -> Prop) :
  owned_by n qs ps -> (forall n', owned_by n' qs (next_address n :: ps) -> frame 2 n n' ->
    next_address n <> 0 -> next_address n <= next_address n' -> requests n' = requests n ->
    (forall x, responses n' !! next_address n = Some x -> p_session x = s) -> Q n' (next_address n)) ->
  does n (new_response s) Q.
Proof.
  intros Ho HQ. destruct (fresh_handles n qs ps Ho) as (_ & Hfp & _ & Hfresh & _). destruct (new_collection n qs ps Ho) as (Hcon & Hbrk & Hsize).
  destruct Ho as [Hq Hql Hp Hpl Hnd Hst Hh Hhl Hadr H0].
  unfold does, yields, new_response, andthen. cbn. set (p := next_address n) in *. set (x := Build_response_impl _ _ _ _ _ _ _ _ _ _ _).
  match goal with |- Q ?m _ => set (n' := m) end.
  assert (header_handles n' ≡ₚ brk (collections n) :: header_handles n) as Hhh.
  { rewrite !header_handles_listed. simpl. rewrite (listed_insert p_headers) by done. by rewrite Permutation_middle. }
  apply (HQ n'); try done; [|split| |simpl; unfold p; lia|by intros y; simpl; rewrite lookup_insert_eq; intros [= <-]].
  - split; simpl; try done.
    + intros r y. destruct (decide (r = p)) as [->|Hr]; [rewrite lookup_insert_eq; intros [= <-]; simpl|].
      * rewrite handles_cons, decide_True, Hfp by done. done.
      * rewrite lookup_insert_ne by done. intros Hy. rewrite handles_cons, decide_False by done. by apply Hp.
    + intros r Hr Hr0. destruct (decide (r = p)) as [->|]; [rewrite lookup_insert_eq; eauto|]. rewrite lookup_insert_ne by done.
      apply elem_of_cons in Hr as [->|Hr]; [done|by apply Hpl].
    + by rewrite Hhh.
    + rewrite Hhh. by constructor.
    + intros r Hr. assert (r = p \/ 0 < r < next_address n) as [->|]; [|lia..]. destruct (decide (r = p)) as [|Hrp]; [by left|right].
      apply Hadr. by rewrite lookup_insert_ne in Hr.
    + lia.
  - done.
  - split; [auto|auto| | |simpl; lia|].
    2: { intros G HG HB r y. simpl. destruct (decide (r = p)) as [->|]; [rewrite lookup_insert_eq; intros [= <-] _; by apply HG|].
      rewrite lookup_insert_ne by done. apply HB. }
    { intros F HF r y. simpl. destruct (decide (r = p)) as [->|]; [rewrite lookup_insert_eq; by intros [= <-]|].
      rewrite lookup_insert_ne by done. apply HF. }
    unfold weight. rewrite Hhh, Zlen_cons. simpl. simpl in Hsize. lia.
  - lia.
Qed.

(** ** Sessions and channels *)

Definition seat (x : session_impl) : Z * Z * Z := (s_channel x, s_request x, s_response x).

Lemma seat_at n s c q p : seats n !! s = Some (c, q, p) -> exists x, sessions n !! s = Some x /\ s_channel x = c /\ s_request x = q /\ s_response x = p.
Proof. unfold seats. rewrite lookup_fmap. destruct (sessions n !! s) as [x|]; [|done]. intros [= <- <- <-]. by exists x. Qed.
Lemma seats_alive n s : is_Some (seats n !! s) <-> is_Some (sessions n !! s).
Proof. unfold seats. by rewrite lookup_fmap, fmap_is_Some. Qed.

(** Code that puts sessions or channels at known addresses keeps what is owned. *)
Lemma owned_sessions n qs ps m : owned_by n qs ps -> (forall s, is_Some (m !! s) -> 0 < s < next_address n) ->
  owned_by (with_sessions n m) qs ps /\ mild 0 n (with_sessions n m).
Proof.
  intros [Hq Hql Hp Hpl Hnd Hst Hh Hhl Hadr H0] Hm. split; [|by apply mild_same]. split; try done.
  intros r Hr. simpl in *. destruct Hr as [Hr|[Hr|[Hr|[Hr|Hr]]]]; [apply Hadr; eauto..|by apply Hm|apply Hadr; eauto].
Qed.
Lemma owned_channels n qs ps c x : owned_by n qs ps -> is_Some (channels n !! c) ->
  let n' := with_channels n (<[c := x]> (channels n)) in owned_by n' qs ps /\ frame 0 n n'.
Proof.
  intros [Hq Hql Hp Hpl Hnd Hst Hh Hhl Hadr H0] Hc. assert (forall r, is_Some (channels n !! r) -> is_Some (<[c := x]> (channels n) !! r)) as Hmono.
  { intros r Hr. apply lookup_insert_is_Some'. by right. }
  split.
  - split; try done. intros r Hr. apply Hadr. simpl in Hr. rewrite lookup_insert_is_Some' in Hr. destruct Hr as [|[|[|[|[<-|]]]]]; auto.
  - split; [done|]. split; [done| |done|done|done|by rewrite Z.add_0_r]. intros [|]; [by left|right; by apply Hmono].
Qed.

Lemma put_session_does n qs ps s y (Q : net -> unit -> Prop) : owned_by n qs ps -> is_Some (seats n !! s) ->
  (let n' := with_sessions n (<[s := y]> (sessions n)) in owned_by n' qs ps -> mild 0 n n' -> seats n' = <[s := seat y]> (seats n) -> Q n' tt) ->
  does n (put_session s y) Q.
Proof.
  intros Ho Hs HQ. rewrite seats_alive in Hs. destruct (owned_sessions n qs ps (<[s := y]> (sessions n)) Ho) as [Ho' Hm].
  { intros r Hr. apply (o_addresses _ _ _ Ho). apply lookup_insert_is_Some' in Hr as [<-|Hr]; auto. }
  apply HQ; [done..|]. unfold seats. simpl. by rewrite fmap_insert.
Qed.

(** A session whose references stay. *)
Lemma update_session_does n qs ps s e (f : session_impl -> session_impl) (Q : net -> unit -> Prop) :
  owned_by n qs ps -> seats n !! s = Some e -> (forall x, seat (f x) = seat x) ->
  (forall n', owned_by n' qs ps -> frame 0 n n' -> requests n' = requests n -> strings n' = strings n ->
    (forall x, sessions n !! s = Some x -> n' = with_sessions n (<[s := f x]> (sessions n))) -> Q n' tt) ->
  does n (let* x := session_at s in put_session s (f x)) Q.
Proof.
  intros Ho Hs Hf HQ. pose proof Hs as Hs'. unfold seats in Hs'. rewrite lookup_fmap in Hs'.
  destruct (sessions n !! s) as [x|] eqn:Hx; [|done]. eapply does_at; [exact Hx|].
  eapply put_session_does; [exact Ho|eauto|]. intros n' Ho' Hm Hseats. apply HQ; try done; [|by intros y [= <-]].
  split; [|done]. rewrite Hseats. apply insert_id. rewrite Hf, Hs. by rewrite <- Hs'.
Qed.

Lemma put_channel_does n qs ps c x (Q : net -> unit -> Prop) : owned_by n qs ps -> is_Some (channels n !! c) ->
  (let n' := with_channels n (<[c := x]> (channels n)) in owned_by n' qs ps -> frame 0 n n' -> Q n' tt) -> does n (put_channel c x) Q.
Proof. intros Ho Hc HQ. destruct (owned_channels n qs ps c x Ho Hc). by apply HQ. Qed.

Lemma channel_attach_does n qs ps c s (Q : net -> unit -> Prop) : owned_by n qs ps -> is_Some (channels n !! c) -> is_Some (seats n !! s) ->
  (forall n', owned_by n' qs ps -> frame 0 n n' -> Q n' tt) -> does n (channel_attach c s) Q.
Proof.
  intros Ho [x Hx] [y Hy]%seats_alive HQ. unfold channel_attach. apply does_when; [intros _|intros _; apply HQ; [done|apply frame_refl]].
  eapply does_at; [exact Hx|]. eapply does_at; [exact Hy|]. eapply put_channel_does; [exact Ho|eauto|]. intros n'. apply HQ.
Qed.
Lemma channel_detach_does n qs ps c i (Q : net -> unit -> Prop) : owned_by n qs ps -> is_Some (channels n !! c) ->
  (forall n', owned_by n' qs ps -> frame 0 n n' -> sessions n' = sessions n -> Q n' tt) -> does n (channel_detach c i) Q.
Proof.
  intros Ho [x Hx] HQ. eapply does_at; [exact Hx|]. eapply put_channel_does; [exact Ho|eauto|]. intros n' Ho' Hf. by apply HQ.
Qed.
Lemma channel_open_does n qs ps c (Q : net -> unit -> Prop) : owned_by n qs ps -> is_Some (channels n !! c) ->
  (forall n', owned_by n' qs ps -> frame 0 n n' -> Q n' tt) -> does n (channel_open c) Q.
Proof.
  intros Ho [x Hx] HQ. unfold channel_open. eapply does_at; [exact Hx|]. apply does_when; [intros _|intros _; apply HQ; [done|apply frame_refl]].
  eapply put_channel_does; [exact Ho|eauto|]. intros n'. apply HQ.
Qed.

Lemma new_channel_does n qs ps (Q : net -> Z -> Prop) : owned_by n qs ps ->
  (forall n' c, owned_by n' qs ps -> frame 0 n n' -> is_Some (channels n' !! c) -> Q n' c) -> does n new_channel Q.
Proof.
  intros Ho HQ. unfold does, yields, new_channel, andthen. cbn. destruct Ho as [Hq Hql Hp Hpl Hnd Hst Hh Hhl Hadr Hs0]. apply HQ.
  - split; try done; simpl; [|lia]. intros r Hr. rewrite lookup_insert_is_Some' in Hr.
    assert (r = next_address n \/ 0 < r < next_address n) as [|]; [|lia..].
    destruct Hr as [|[|[|[|[<-|]]]]]; [right; apply Hadr; auto..|by left|right; apply Hadr; auto 6].
  - split; [done|]. split; [| |done|done|simpl; lia|by rewrite Z.add_0_r].
    + intros c Hc. simpl. apply lookup_insert_is_Some'. by right.
    + intros [|Hc]; [by left|right]. simpl. apply lookup_insert_is_Some'. by right.
  - simpl. rewrite lookup_insert_eq. eauto.
Qed.

Lemma get_default_does n qs ps (Q : net -> Z -> Prop) : owned_by n qs ps -> default_ok n ->
  (forall n' c, owned_by n' qs ps -> frame 0 n n' -> is_Some (channels n' !! c) -> Q n' c) -> does n get_default Q.
Proof.
  intros Ho Hd HQ. unfold get_default. apply (does_andthen _ _ _ (fun n' c => n' = n /\ c = default_channel n)); [done|]. intros n1 c [-> ->].
  destruct (Z.eqb_spec (default_channel n) 0) as [H0|H0].
  2: { apply does_ret, HQ; [done|apply frame_refl|]. by destruct Hd. }
  eapply does_andthen with (P := fun n' c => owned_by n' qs ps /\ frame 0 n n' /\ is_Some (channels n' !! c)); [by eapply new_channel_does|].
  intros n' c ([Hq Hql Hp Hpl Hnd Hst Hh Hhl Hadr Hs0] & [Hfs [Hc1 Hc2 Hc3 Hc4 Hc5 Hc6]] & Hc). apply does_then, does_ret, HQ; [by split| |done].
  split; [done|]. split; try done. intros _. by right.
Qed.

(** ** The invariant

    [qs] and [ps] are the references from outside the sessions. *)

Record core (n : net) (qs ps : list Z) : Prop := {
  co_owned : owned_by n (qs ++ held_requests n) (ps ++ held_responses n);
  co_owner : owner_ok n;
  co_back : back_ok n;
  co_seats : forall s c q p, seats n !! s = Some (c, q, p) -> q <> 0 /\ p <> 0 /\ is_Some (channels n !! c);
  co_default : default_ok n;
}.

(** Room for the counts: fewer references than 2^32. *)
Definition load (n : net) (qs ps : list Z) : Z := Zlen qs + Zlen ps + Z.of_nat (size (seats n)) + weight n.
Definition roomy (n : net) (qs ps : list Z) : Prop := load n qs ps < 2 ^ 32 - 8.

Lemma owned_perm n qs qs' ps ps' : qs ≡ₚ qs' -> ps ≡ₚ ps' -> owned_by n qs ps -> owned_by n qs' ps'.
Proof.
  intros Hqs Hps [Hq Hql Hp Hpl Hnd Hst Hh Hhl Hadr H0]. split; try done.
  - intros p x. rewrite <- Hqs. apply Hq.
  - intros p. rewrite <- Hqs. apply Hql.
  - intros p x. rewrite <- Hps. apply Hp.
  - intros p. rewrite <- Hps. apply Hpl.
Qed.

Lemma held_requests_listed n : held_requests n = listed (fun e : Z * Z * Z => e.1.2) (seats n).
Proof. done. Qed.
Lemma held_responses_listed n : held_responses n = listed (fun e : Z * Z * Z => e.2) (seats n).
Proof. done. Qed.
Lemma held_length n : Zlen (held_requests n) = Z.of_nat (size (seats n)) /\ Zlen (held_responses n) = Z.of_nat (size (seats n)).
Proof. unfold held_requests, held_responses, Zlen. by rewrite !length_map, length_map_to_list. Qed.

(** The references of one session, and those of the others. *)
Lemma held_pick n s c q p : seats n !! s = Some (c, q, p) ->
  held_requests n ≡ₚ q :: listed (fun e => e.1.2) (delete s (seats n)) /\ held_responses n ≡ₚ p :: listed (fun e => e.2) (delete s (seats n)).
Proof. intros Hs. by rewrite held_requests_listed, held_responses_listed, !(listed_pick _ _ s _ Hs). Qed.
Lemma held_put n' m s c q p : seats n' = <[s := (c, q, p)]> m ->
  held_requests n' ≡ₚ q :: listed (fun e => e.1.2) (delete s m) /\ held_responses n' ≡ₚ p :: listed (fun e => e.2) (delete s m).
Proof.
  intros Hs. rewrite held_requests_listed, held_responses_listed, Hs, <- (insert_delete_eq m s (c, q, p)).
  by rewrite !listed_insert by apply lookup_delete_eq.
Qed.

(** The responses of sessions are not those to come. *)
Lemma back_later n qs ps t p : core n qs ps -> next_address n <= p -> forall s c q, seats n !! s = Some (c, q, p) -> t = s.
Proof.
  intros [Ho How Hba Hse Hd] Hp s c q Hs. exfalso. destruct (Hse _ _ _ _ Hs) as (_ & Hp0 & _).
  assert (is_Some (responses n !! p)) as Hlive.
  { apply (o_response_live _ _ _ Ho); [|done]. rewrite (proj2 (held_pick n s c q p Hs)). set_solver. }
  pose proof (o_addresses _ _ _ Ho p ltac:(auto)). lia.
Qed.

(** Code that only works on requests and responses. *)
Lemma core_frame n qs ps k n' qs' ps' : core n qs ps -> frame k n n' ->
  owned_by n' (qs' ++ held_requests n) (ps' ++ held_responses n) -> core n' qs' ps'.
Proof.
  intros Hcore Hf Ho'. pose proof Hcore as [Ho How Hba Hse Hd]. destruct (frame_held k n n' Hf) as [Hhq Hhp]. split.
  - by rewrite Hhq, Hhp.
  - by eapply frame_owner.
  - unfold back_ok. rewrite (fr_seats _ _ _ Hf). apply (mi_backs _ _ _ (fr_mild _ _ _ Hf)); [|done].
    intros t p Hp. by eapply back_later.
  - intros s c q p Hs. rewrite (fr_seats _ _ _ Hf) in Hs. destruct (Hse _ _ _ _ Hs) as (? & ? & ?). split_and!; [done..|].
    by apply (mi_channels _ _ _ (fr_mild _ _ _ Hf)).
  - by apply (mi_default _ _ _ (fr_mild _ _ _ Hf)).
Qed.

Lemma roomy_bounds n qs ps : roomy n qs ps -> Zlen (qs ++ held_requests n) < 2 ^ 32 - 8 /\ Zlen (ps ++ held_responses n) < 2 ^ 32 - 8 /\
  weight n < 2 ^ 32 - 8.
Proof.
  unfold roomy, load. intros H. destruct (held_length n) as [Hq Hp]. rewrite !Zlen_app, Hq, Hp.
  pose proof (Zlen_nonneg qs). pose proof (Zlen_nonneg ps). assert (0 <= weight n) by (unfold weight; pose proof (Zlen_nonneg (header_handles n)); lia). lia.
Qed.

(** ** New sessions *)

Lemma core_seated n n' qs ps s ch q p k : core n qs ps -> mild k n n' -> seats n' = <[s := (ch, q, p)]> (seats n) -> seats n !! s = None ->
  q <> 0 -> p <> 0 -> is_Some (channels n !! ch) -> (forall x, responses n' !! p = Some x -> p_session x = s) ->
  owned_by n' (q :: qs ++ held_requests n) (p :: ps ++ held_responses n) -> core n' qs ps.
Proof.
  intros Hcore Hm Hseats Hnone Hq0 Hp0 Hch Hps Ho'. pose proof Hcore as [Ho How Hba Hse Hd].
  destruct (held_put n' (seats n) s ch q p Hseats) as [Hhq Hhp]. rewrite delete_id in Hhq, Hhp by done. split.
  - eapply owned_perm; [..|exact Ho']; [rewrite Hhq|rewrite Hhp]; by rewrite Permutation_middle.
  - intros r y Hy Hown Hs0. pose proof (mi_owners _ _ _ Hm (holds_response n) How r y Hy Hown Hs0) as (c & q' & Hc).
    exists c, q'. rewrite Hseats, lookup_insert_ne; [done|]. intros E. rewrite <- E in Hc. congruence.
  - intros r y Hy Hs0 t c q'. rewrite Hseats. intros [[<- [= _ _ <-]]|[_ Ht]]%lookup_insert_Some; [by apply Hps|].
    apply (mi_backs _ _ _ Hm _ (fun t p => back_later n qs ps t p Hcore) Hba r y Hy Hs0 t c q' Ht).
  - intros t c q' p'. rewrite Hseats. intros [[<- [= <- <- <-]]|[_ Ht]]%lookup_insert_Some.
    + split_and!; [done..|]. by apply (mi_channels _ _ _ Hm).
    + destruct (Hse _ _ _ _ Ht) as (? & ? & ?). split_and!; [done..|]. by apply (mi_channels _ _ _ Hm).
  - by apply (mi_default _ _ _ Hm).
Qed.

Lemma new_session_does n qs ps ch (Q : net -> Z -> Prop) : core n qs ps -> is_Some (channels n !! ch) ->
  (forall n' s q p, core n' qs ps -> seats n' = <[s := (ch, q, p)]> (seats n) -> seats n !! s = None -> weight n' <= weight n + 4 -> Q n' s) ->
  does n (new_session ch) Q.
Proof.
  intros Hcore Hch HQ. pose proof Hcore as [Ho How Hba Hse Hd]. set (s := next_address n). destruct (fresh_handles n _ _ Ho) as (_ & _ & _ & _ & Hfresh).
  set (n1 := with_next_session_id (with_next_address n (s + 1)) (u32 (next_session_id n + 1))).
  assert (owned_by n1 (qs ++ held_requests n) (ps ++ held_responses n) /\ frame 0 n n1) as [Ho1 Hf1].
  { destruct Ho as [Hq Hql Hp Hpl Hnd Hst Hh Hhl Hadr H0]. split; [|split; [done|apply mild_same; try done; simpl; unfold s; lia]]. split; try done; simpl; [|unfold s; lia].
    intros r Hr. specialize (Hadr r Hr). unfold s. lia. }
  assert (0 < s < next_address n1) as Hs1 by (pose proof (o_start _ _ _ Ho); simpl; unfold s; lia).
  change (does n1 (let* q := new_request s in let* p := new_response s in
    let* _ := put_session s {| s_id := next_session_id n; s_channel := ch; s_request := q; s_response := p; s_easy := []; s_error := [];
      s_state := configuring; s_socket_state := CURL_POLL_NONE |} in let* _ := channel_attach ch s in ret s) Q).
  eapply does_andthen with (P := fun n2 q => owned_by n2 (q :: qs ++ held_requests n) (ps ++ held_responses n) /\ frame 2 n n2 /\ q <> 0 /\
    next_address n1 <= next_address n2).
  { eapply new_request_does; [exact Ho1|]. intros n2 x Ho2 Hf2 _ _ _ Hq0 Hn. split_and!; [done| |done..]. by apply (frame_trans 0 2 n n1). }
  intros n2 q (Ho2 & Hf2 & Hq0 & Hn2).
  eapply does_andthen with (P := fun n3 p => owned_by n3 (q :: qs ++ held_requests n) (p :: ps ++ held_responses n) /\ frame 4 n n3 /\ p <> 0 /\
    next_address n1 <= next_address n3 /\ forall x, responses n3 !! p = Some x -> p_session x = s).
  { eapply new_response_does; [exact Ho2|]. intros n3 Ho3 Hf3 Hp0 Hn _ Hps. split_and!; [done| |done|lia|done]. by apply (frame_trans 2 2 n n2). }
  intros n3 p (Ho3 & Hf3 & Hp0 & Hn3 & Hps). set (x := Build_session_impl _ _ _ _ _ _ _ _).
  apply does_then. destruct (owned_sessions n3 _ _ (<[s := x]> (sessions n3)) Ho3) as [Ho4 Hm4].
  { intros r Hr. apply lookup_insert_is_Some' in Hr as [<-|Hr]; [lia|]. apply (o_addresses _ _ _ Ho3). auto. }
  set (n4 := with_sessions n3 _) in *. assert (seats n4 = <[s := (ch, q, p)]> (seats n)) as Hseats.
  { unfold seats. simpl. rewrite fmap_insert. f_equal. apply (fr_seats _ _ _ Hf3). }
  assert (mild 4 n n4) as Hm by (apply (mild_trans 4 0 n n3); [apply Hf3|done]).
  assert (seats n !! s = None) as Hnone by (unfold seats; rewrite lookup_fmap; unfold s; by rewrite Hfresh).
  eapply does_andthen with (P := fun n5 _ => owned_by n5 (q :: qs ++ held_requests n) (p :: ps ++ held_responses n) /\ frame 0 n4 n5).
  { eapply channel_attach_does; [exact Ho4|by apply (mi_channels _ _ _ Hm)|rewrite Hseats, lookup_insert_eq; eauto|done]. }
  intros n5 _ [Ho5 Hf5]. apply does_ret.
  assert (core n4 qs ps) as Hcore4 by by eapply core_seated.
  apply (HQ n5 s q p).
  - destruct (held_put n4 (seats n) s ch q p Hseats) as [Hhq Hhp]. rewrite delete_id in Hhq, Hhp by done.
    eapply core_frame; [exact Hcore4|exact Hf5|]. eapply owned_perm; [..|exact Ho5]; [rewrite Hhq|rewrite Hhp]; by rewrite Permutation_middle.
  - by rewrite (fr_seats _ _ _ Hf5).
  - done.
  - pose proof (mi_weight _ _ _ Hm). pose proof (mi_weight _ _ _ (fr_mild _ _ _ Hf5)). lia.
Qed.

(** ** The end of a session *)

Lemma drop_request_does n qs ps s c q p : owned_by n (q :: qs) ps -> seats n !! s = Some (c, q, p) -> q <> 0 ->
  Zlen qs < 2 ^ 32 - 1 -> weight n < 2 ^ 32 - 1 ->
  does n (when (negb (q =? 0)) (let* r := request_at q in
     let* _ := put_request q (with_q_session r 0) in
     let* _ := request_release_ref q in
     let* y := session_at s in put_session s (with_s_request y 0)))
    (fun n' _ => owned_by n' qs ps /\ mild 0 n n' /\ seats n' = <[s := (c, 0, p)]> (seats n)).
Proof.
  intros Ho Hs Hq0 Hroom Hw. apply does_when; [intros _|intros H%negb_false_iff%Z.eqb_eq; lia].
  destruct (o_request_live _ _ _ Ho q) as [r Hr]; [by left|done|]. destruct (o_request _ _ _ Ho q r Hr) as (Hrefs & Hpos & Hv & Hu).
  eapply does_at; [exact Hr|].
  eapply does_andthen with (P := fun n2 _ => owned_by n2 (q :: qs) ps /\ frame 0 n n2).
  { by eapply (put_request_does n (q :: qs) (q :: qs)). }
  intros n2 _ [Ho2 Hf2]. eapply does_andthen with (P := fun n3 _ => owned_by n3 qs ps /\ frame 0 n n3).
  { eapply request_release_ref_does; [exact Ho2|done|lia|pose proof (mi_weight _ _ _ (fr_mild _ _ _ Hf2)); lia|].
    intros n3 Ho3 Hf3. split; [done|]. by apply (frame_trans 0 0 n n2). }
  intros n3 _ [Ho3 Hf3]. rewrite <- (fr_seats _ _ _ Hf3) in Hs |- *. destruct (seat_at _ _ _ _ _ Hs) as (y & Hy & Hyc & Hyq & Hyp).
  eapply does_at; [exact Hy|]. eapply put_session_does; [exact Ho3|eauto|]. intros n4 Ho4 Hm4 Hs4. split_and!; [done| |].
  - apply (mild_trans 0 0 n n3); [apply Hf3|done].
  - rewrite Hs4. unfold seat. simpl. by rewrite Hyc, Hyp.
Qed.

(** No response owns the session any more. *)
Lemma drop_response_does d n qs ps s c q p F : owned_by n qs (p :: ps) -> seats n !! s = Some (c, q, p) -> p <> 0 ->
  Zlen ps < 2 ^ 32 - 1 -> weight n < 2 ^ 32 - 1 -> owners n F -> (forall r, F s r -> r = p) ->
  does n (when (negb (p =? 0)) (let* r := response_at p in
     let* _ := put_response p (with_p_session r 0) in
     let* _ := release_response d p in
     let* z := session_at s in put_session s (with_s_request z 0)))
    (fun n' _ => owned_by n' qs ps /\ mild 0 n n' /\ owners n' (fun t r => F t r /\ t <> s) /\ seats n' = <[s := (c, 0, p)]> (seats n)).
Proof.
  intros Ho Hs Hp0 Hroom Hw How HF. apply does_when; [intros _|intros H%negb_false_iff%Z.eqb_eq; lia].
  destruct (o_response_live _ _ _ Ho p) as [r Hr]; [by left|done|]. destruct (o_response _ _ _ Ho p r Hr) as (Hrefs & Hpos & Hu).
  eapply does_at; [exact Hr|].
  eapply does_andthen with (P := fun n3 _ => owned_by n3 qs (p :: ps) /\ frame 0 n n3 /\
    responses n3 = <[p := with_p_session r 0]> (responses n)).
  { eapply (put_response_does n qs (p :: ps) (p :: ps)); try done. by right. }
  intros n3 _ (Ho3 & Hf3 & Hr3).
  assert (owners n3 (fun t r => F t r /\ t <> s)) as How3.
  { intros t z. rewrite Hr3. intros [[<- <-]|[Hpt Hz]]%lookup_insert_Some; [done|]. intros Hown Hz0.
    pose proof (How t z Hz Hown Hz0) as Hh. split; [done|]. intros E. rewrite E in Hh. by apply HF in Hh. }
  eapply does_andthen with (P := fun n4 _ => owned_by n4 qs ps /\ frame 0 n3 n4).
  { eapply release_response_does; [exact Ho3|done|lia|pose proof (mi_weight _ _ _ (fr_mild _ _ _ Hf3)); lia| |done].
    intros z. rewrite Hr3, lookup_insert_eq. by intros [= <-]. }
  intros n4 _ [Ho4 Hf4]. assert (frame 0 n n4) as Hf24 by by apply (frame_trans 0 0 n n3).
  rewrite <- (fr_seats _ _ _ Hf24) in Hs |- *. destruct (seat_at _ _ _ _ _ Hs) as (z & Hz & Hzc & Hzq & Hzp). eapply does_at; [exact Hz|].
  eapply put_session_does; [exact Ho4|eauto|]. intros n5 Ho5 Hm5 Hs5. split_and!.
  - done.
  - apply (mild_trans 0 0 n n4); [apply Hf24|done].
  - apply (mi_owners _ _ _ Hm5), (mi_owners _ _ _ (fr_mild _ _ _ Hf4)), How3.
  - rewrite Hs5. unfold seat. simpl. by rewrite Hzc, Hzp.
Qed.

Lemma session_destroy_does n qs ps s c q p (Q : net -> unit -> Prop) : core n qs ps -> roomy n qs ps -> seats n !! s = Some (c, q, p) ->
  (forall n', core n' qs ps -> seats n' = delete s (seats n) -> weight n' <= weight n -> Q n' tt) -> does n (session_destroy s) Q.
Proof.
  intros Hcore Hroomy Hs HQ. pose proof Hcore as [Ho How Hba Hse Hd].
  destruct (Hse _ _ _ _ Hs) as (Hq0 & Hp0 & Hc). destruct (seat_at _ _ _ _ _ Hs) as (x & Hx & Hxc & Hxq & Hxp).
  destruct (roomy_bounds _ _ _ Hroomy) as (Hrq & Hrp & Hrw). destruct (held_pick n s c q p Hs) as [Hhq Hhp].
  set (m := delete s (seats n)) in *. set (qs0 := qs ++ listed (fun e => e.1.2) m). set (ps0 := ps ++ listed (fun e => e.2) m).
  assert (qs ++ held_requests n ≡ₚ q :: qs0) as Eq by (rewrite Hhq; symmetry; apply Permutation_middle).
  assert (ps ++ held_responses n ≡ₚ p :: ps0) as Ep by (rewrite Hhp; symmetry; apply Permutation_middle).
  apply (owned_perm _ _ _ _ _ Eq Ep) in Ho. rewrite Eq, Zlen_cons in Hrq. rewrite Ep, Zlen_cons in Hrp.
  change (does n (session_dtor (delete_session (size (responses n))) s) Q). generalize (delete_session (size (responses n))). intros d.
  unfold session_dtor. eapply does_at; [exact Hx|]. rewrite Hxc, Hxq.
  eapply does_andthen with (P := fun n1 _ => owned_by n1 (q :: qs0) (p :: ps0) /\ frame 0 n n1).
  { apply does_when; [intros _|intros _; split; [done|apply frame_refl]]. by eapply channel_detach_does. }
  intros n1 _ [Ho1 [Hs1 Hm1]]. rewrite <- Hs1 in Hs. pose proof (mi_weight _ _ _ Hm1) as Hw1.
  eapply does_andthen; [by eapply (drop_request_does n1 qs0 (p :: ps0) s c q p); try done; lia|].
  intros n2 _ (Ho2 & Hm2 & Hs2). pose proof (mi_weight _ _ _ Hm2) as Hw2.
  assert (seats n2 !! s = Some (c, 0, p)) as Hn2 by (rewrite Hs2; apply lookup_insert_eq).
  destruct (seat_at _ _ _ _ _ Hn2) as (y & Hy & Hyc & Hyq & Hyp). eapply does_at; [exact Hy|]. rewrite Hyp.
  eapply does_andthen; [eapply (drop_response_does d n2 qs0 ps0 s c 0 p (holds_response n)); try done; [lia..| |]|].
  { by apply (mi_owners _ _ _ Hm2), (mi_owners _ _ _ Hm1). }
  { intros r (c' & q' & Hh). rewrite Hs1 in Hs. congruence. }
  intros n3 _ (Ho3 & Hm3 & How3 & Hs3). pose proof (mi_weight _ _ _ Hm3) as Hw3. apply does_set.
  destruct (owned_sessions n3 qs0 ps0 (delete s (sessions n3)) Ho3) as [Ho4 Hm4].
  { intros r [_ Hr]%lookup_delete_is_Some. apply (o_addresses _ _ _ Ho3). auto. }
  set (n4 := with_sessions n3 _) in *. pose proof (mi_weight _ _ _ Hm4) as Hw4.
  assert (seats n4 = m) as Hs4.
  { unfold seats. simpl. rewrite fmap_delete. change (delete s (seats n3) = m). by rewrite Hs3, Hs2, Hs1, !delete_insert_eq. }
  assert (mild 0 n n4) as Hm by by apply (mild_trans 0 0 n n3); [apply (mild_trans 0 0 n n2); [apply (mild_trans 0 0 n n1)|]|].
  apply HQ; [split|done|lia].
  - by rewrite held_requests_listed, held_responses_listed, Hs4.
  - intros r z Hz Hown Hz0. destruct (How3 r z Hz Hown Hz0) as [(c' & q' & Hh) Hne]. exists c', q'. rewrite Hs4. unfold m. by rewrite lookup_delete_ne.
  - intros r z Hz Hz0 t c' q'. rewrite Hs4. intros [_ Ht]%lookup_delete_Some.
    apply (mi_backs _ _ _ Hm _ (fun t p => back_later n qs ps t p Hcore) Hba r z Hz Hz0 t c' q' Ht).
  - intros t c' q' p'. rewrite Hs4. intros [_ Ht]%lookup_delete_Some. destruct (Hse _ _ _ _ Ht) as (? & ? & ?). split_and!; [done..|].
    by apply (mi_channels _ _ _ Hm).
  - by apply (mi_default _ _ _ Hm).
Qed.

(** ** Resetting a session *)

Lemma drop_url_does n qs ps p x (Q : net -> unit -> Prop) : owned_by n qs ps -> requests n !! p = Some x ->
  (forall n', owned_by n' qs ps -> frame 0 n n' -> replaced n n' p (with_q_url x no_chars) -> Q n' tt) ->
  does n (when (negb (bool_decide (q_url x = no_chars))) (let* _ := free (q_url x) in put_request p (with_q_url x no_chars))) Q.
Proof.
  intros Ho Hx HQ. destruct (o_request _ _ _ Ho p x Hx) as (Hr & Hpos & Hv & Hu). destruct (owned_blocks n qs ps p x Ho Hx) as [Hnd Hlive].
  apply does_when.
  2: { intros Hno%negb_false_iff%bool_decide_eq_true. apply HQ; [done|apply frame_refl|]. split; [|done].
    symmetry. apply insert_id. rewrite Hx. destruct x; simpl in *. by subst. }
  intros _. destruct (slot_changed n qs ps p x (with_q_url x no_chars) (q_url x) (freed (q_url x) (strings n)) (next_address n)) as [Ho' Hf]; try done.
  - by left.
  - exists (block (q_verb x)), no_chars. split_and!; [|unfold blocks_of; simpl; by rewrite app_nil_r|by intros a ?%not_elem_of_nil].
    unfold blocks_of. apply Permutation_app_comm.
  - intros a Ha Hno. by apply freed_live.
  - intros a Ha. left. by eapply freed_subset.
  - eapply does_andthen; [apply free_does with (Q := fun n' _ => n' = with_strings n (freed (q_url x) (strings n))); [done| |done]|].
    + intros a Ha. apply Hlive. unfold blocks_of. set_solver.
    + intros n' _ ->. apply does_set. by apply HQ.
Qed.

Lemma core_perm n qs qs' ps ps' : qs ≡ₚ qs' -> ps ≡ₚ ps' -> core n qs ps -> core n qs' ps'.
Proof.
  intros Hqs Hps [Ho How Hba Hse Hd]. split; [|done..]. eapply owned_perm; [| |exact Ho]; [by rewrite Hqs|by rewrite Hps].
Qed.

(** A session that gets another request. *)
Lemma core_reseated n n' qs ps s c q q' p k : core n qs ps -> seats n !! s = Some (c, q, p) -> mild k n n' ->
  seats n' = <[s := (c, q', p)]> (seats n) -> q' <> 0 ->
  owned_by n' (q' :: qs ++ listed (fun e => e.1.2) (delete s (seats n))) (ps ++ held_responses n) -> core n' qs ps.
Proof.
  intros Hcore Hs Hm Hs' Hq' Ho'. pose proof Hcore as [Ho How Hba Hse Hd]. destruct (held_put n' (seats n) s c q' p Hs') as [Hhq Hhp].
  destruct (held_pick n s c q p Hs) as [_ Hhp0]. split.
  - eapply owned_perm; [| |exact Ho'].
    + rewrite Hhq. apply Permutation_middle.
    + by rewrite Hhp, Hhp0.
  - intros r z Hz Hown Hz0. destruct (mi_owners _ _ _ Hm _ How r z Hz Hown Hz0) as (c' & q0 & Hh). unfold holds_response. rewrite Hs'.
    destruct (decide (p_session z = s)) as [E|Hne]; [|exists c', q0; by rewrite lookup_insert_ne].
    rewrite E in Hh |- *. exists c, q'. rewrite lookup_insert_eq. congruence.
  - intros r z Hz Hz0 t c' q0. rewrite Hs'. pose proof (mi_backs _ _ _ Hm _ (fun t p => back_later n qs ps t p Hcore) Hba r z Hz Hz0) as Hb.
    intros [[<- [= _ _ <-]]|[_ Ht]]%lookup_insert_Some; [by eapply Hb|by eapply Hb].
  - intros t c' q0 p'. rewrite Hs'. intros [[<- [= <- <- <-]]|[_ Ht]]%lookup_insert_Some.
    + destruct (Hse _ _ _ _ Hs) as (? & ? & ?). split_and!; [done..|]. by apply (mi_channels _ _ _ Hm).
    + destruct (Hse _ _ _ _ Ht) as (? & ? & ?). split_and!; [done..|]. by apply (mi_channels _ _ _ Hm).
  - by apply (mi_default _ _ _ Hm).
Qed.

(** The request that a session has after [reset]: it has no verb and no URL. *)
Definition blank (n : net) (q : Z) : Prop := exists x, requests n !! q = Some x /\ q_verb x = no_chars /\ q_url x = no_chars.

Lemma reset_prelocked_does n qs ps s c q p (Q : net -> unit -> Prop) : core n qs ps -> roomy n qs ps -> seats n !! s = Some (c, q, p) ->
  (forall n' q', core n' qs ps -> seats n' = <[s := (c, q', p)]> (seats n) -> blank n' q' -> weight n' <= weight n + 2 -> Q n' tt) ->
  does n (reset_prelocked s) Q.
Proof.
  intros Hcore Hroomy Hs HQ. pose proof Hcore as [Ho How Hba Hse Hd]. destruct (Hse _ _ _ _ Hs) as (Hq0 & Hp0 & Hc).
  destruct (seat_at _ _ _ _ _ Hs) as (x & Hx & Hxc & Hxq & Hxp). destruct (roomy_bounds _ _ _ Hroomy) as (Hrq & Hrp & Hrw).
  destruct (held_pick n s c q p Hs) as [Hhq Hhp]. set (qs0 := qs ++ listed (fun e => e.1.2) (delete s (seats n))).
  assert (qs ++ held_requests n ≡ₚ q :: qs0) as Eq by (rewrite Hhq; symmetry; apply Permutation_middle).
  apply (owned_perm _ _ _ _ _ Eq (reflexivity _)) in Ho. rewrite Eq, Zlen_cons in Hrq.
  unfold reset_prelocked. eapply does_at; [exact Hx|]. rewrite Hxq. case_bool_decide; cbn [negb].
  - destruct (o_request_live _ _ _ Ho q) as [r Hr]; [by left|done|]. eapply does_at; [exact Hr|].
    eapply does_andthen with (P := fun n1 _ => owned_by n1 (q :: qs0) (ps ++ held_responses n) /\ frame 0 n n1 /\
      requests n1 !! q = Some (with_q_url r no_chars)).
    { eapply drop_url_does; [exact Ho|exact Hr|]. intros n1 Ho1 Hf1 [Hr1 _]. split_and!; [done..|]. by rewrite Hr1, lookup_insert_eq. }
    intros n1 _ (Ho1 & Hf1 & Hr1). eapply free_verb_does; [exact Ho1|exact Hr1|]. intros n2 Ho2 Hf2 [Hr2 _].
    assert (frame 0 n n2) as Hf by by apply (frame_trans 0 0 n n1). apply (HQ n2 q).
    + eapply core_frame; [exact Hcore|exact Hf|]. by eapply owned_perm; [symmetry; exact Eq| |exact Ho2].
    + rewrite (fr_seats _ _ _ Hf). symmetry. by apply insert_id.
    + exists (with_q_verb (with_q_url r no_chars) no_chars). by rewrite Hr2, lookup_insert_eq.
    + pose proof (mi_weight _ _ _ (fr_mild _ _ _ Hf)). lia.
  - eapply does_andthen with (P := fun n1 _ => owned_by n1 qs0 (ps ++ held_responses n) /\ frame 0 n n1).
    { eapply request_release_ref_does; [exact Ho|done|lia|lia|done]. }
    intros n1 _ [Ho1 Hf1].
    eapply does_andthen with (P := fun n2 q' => owned_by n2 (q' :: qs0) (ps ++ held_responses n) /\ frame 2 n n2 /\ blank n2 q' /\ q' <> 0).
    { eapply new_request_does; [exact Ho1|]. intros n2 y Ho2 Hf2 [Hr2 _] Hv Hu Hq'0 _. split_and!; [done|by apply (frame_trans 0 2 n n1)| |done].
      exists y. by rewrite Hr2, lookup_insert_eq. }
    intros n2 q' (Ho2 & Hf2 & Hblank & Hq'0). pose proof Hs as Hs2. rewrite <- (fr_seats _ _ _ Hf2) in Hs2.
    destruct (seat_at _ _ _ _ _ Hs2) as (y & Hy & Hyc & Hyq & Hyp). eapply does_at; [exact Hy|].
    eapply put_session_does; [exact Ho2|eauto|]. intros n3 Ho3 Hm3 Hs3.
    assert (seats n3 = <[s := (c, q', p)]> (seats n)) as Hs3' by (rewrite Hs3, (fr_seats _ _ _ Hf2); unfold seat; simpl; by rewrite Hyc, Hyp).
    assert (mild 2 n n3) as Hm by (apply (mild_trans 2 0 n n2); [apply Hf2|done]).
    apply (HQ n3 q'); [by eapply core_reseated|done|done|apply (mi_weight _ _ _ Hm)].
Qed.

(** ** Handles *)

(** A reference to the request or the response of a session. *)
Lemma get_current_request_does n qs ps s c q p (Q : net -> Z -> Prop) : core n qs ps -> roomy n qs ps -> seats n !! s = Some (c, q, p) ->
  (forall n', core n' (q :: qs) ps -> frame 0 n n' -> Q n' q) -> does n (get_current_request s) Q.
Proof.
  intros Hcore Hroomy Hs HQ. pose proof Hcore as [Ho How Hba Hse Hd]. destruct (Hse _ _ _ _ Hs) as (Hq0 & Hp0 & Hc).
  destruct (seat_at _ _ _ _ _ Hs) as (x & Hx & Hxc & Hxq & Hxp). destruct (roomy_bounds _ _ _ Hroomy) as (Hrq & Hrp & Hrw).
  unfold get_current_request, request_of_impl. eapply does_at; [exact Hx|]. rewrite Hxq.
  destruct (o_request_live _ _ _ Ho q) as [r Hr]; [|done|]. { rewrite (proj1 (held_pick n s c q p Hs)). set_solver. }
  eapply does_andthen with (P := fun n' _ => core n' (q :: qs) ps /\ frame 0 n n'); [|intros n' _ [Hc' Hf']; by apply HQ].
  eapply request_add_ref_does; [exact Ho|exact Hr|lia|]. intros n' Ho' Hf'. split; [|done]. by eapply core_frame.
Qed.
Lemma response_of_impl_does n qs ps p (Q : net -> Z -> Prop) : core n qs ps -> roomy n qs ps -> p ∈ ps ++ held_responses n -> p <> 0 ->
  (forall n', core n' qs (p :: ps) -> frame 0 n n' -> Q n' p) -> does n (response_of_impl p) Q.
Proof.
  intros Hcore Hroomy Hp Hp0 HQ. pose proof Hcore as [Ho How Hba Hse Hd]. destruct (roomy_bounds _ _ _ Hroomy) as (Hrq & Hrp & Hrw).
  destruct (o_response_live _ _ _ Ho p) as [r Hr]; [done|done|].
  eapply does_andthen with (P := fun n' _ => core n' qs (p :: ps) /\ frame 0 n n'); [|intros n' _ [Hc' Hf']; by apply HQ].
  eapply response_add_ref_does; [exact Ho|exact Hr|lia|]. intros n' Ho' Hf'. split; [|done]. by eapply core_frame.
Qed.
(** Reading which response a session has, and a reference to it. *)
Lemma current_response_does n qs ps s c q p (Q : net -> Z -> Prop) : core n qs ps -> roomy n qs ps -> seats n !! s = Some (c, q, p) ->
  (forall n', core n' qs (p :: ps) -> frame 0 n n' -> Q n' p) -> does n (let* x := session_at s in response_of_impl (s_response x)) Q.
Proof.
  intros Hcore Hroomy Hs HQ. destruct (co_seats _ _ _ Hcore _ _ _ _ Hs) as (Hq0 & Hp0 & Hc).
  destruct (seat_at _ _ _ _ _ Hs) as (x & Hx & Hxc & Hxq & Hxp). eapply does_at; [exact Hx|]. rewrite Hxp.
  eapply response_of_impl_does; try done. rewrite (proj2 (held_pick n s c q p Hs)). set_solver.
Qed.

(** [request(request const &)]: the new request has a count of two and one
    handle. *)
Lemma request_copy_does n qs ps q (Q : net -> Z -> Prop) : core n qs ps -> roomy n qs ps -> q ∈ qs -> q <> 0 ->
  (forall n' q', core n' (q' :: q' :: qs) ps -> frame 2 n n' -> requests n !! q' = None -> blank n' q' -> Q n' q') -> does n (request_copy q) Q.
Proof.
  intros Hcore Hroomy Hq Hq0 HQ. pose proof Hcore as [Ho How Hba Hse Hd]. destruct (roomy_bounds _ _ _ Hroomy) as (Hrq & Hrp & Hrw).
  destruct (o_request_live _ _ _ Ho q) as [r Hr]; [set_solver|done|]. destruct (fresh_handles n _ _ Ho) as (_ & _ & Hfresh & _).
  unfold request_copy. eapply does_at; [exact Hr|].
  eapply does_andthen with (P := fun n1 q' => owned_by n1 (q' :: qs ++ held_requests n) (ps ++ held_responses n) /\ frame 2 n n1 /\ blank n1 q' /\
    requests n !! q' = None).
  { eapply new_request_does; [exact Ho|]. intros n1 y Ho1 Hf1 [Hr1 _] Hv Hu _ _. split_and!; [done|done| |done]. exists y. by rewrite Hr1, lookup_insert_eq. }
  intros n1 q' (Ho1 & Hf1 & (y & Hy & Hv & Hu) & Hnone).
  eapply does_andthen with (P := fun n2 _ => core n2 (q' :: q' :: qs) ps /\ frame 2 n n2 /\ blank n2 q'); [|intros n2 _ (Hc2 & Hf2 & Hb2); by apply HQ].
  eapply request_add_ref_does; [exact Ho1|exact Hy|rewrite Zlen_cons; lia|]. intros n2 Ho2 Hf2.
  assert (frame 2 n n2) as Hf by by apply (frame_trans 2 0 n n1). split_and!; [by eapply core_frame|done|].
  exists (with_q_refs y (q_refs y + 1)). unfold n2. simpl. by rewrite lookup_insert_eq.
Qed.

Lemma owned_null n qs ps : owned_by n (0 :: qs) ps <-> owned_by n qs ps.
Proof.
  assert (forall qs qs', (forall p, p <> 0 -> handles qs p = handles qs' p) -> (forall p, p <> 0 -> p ∈ qs' -> p ∈ qs) ->
    owned_by n qs ps -> owned_by n qs' ps) as Hsame.
  { intros l l' Hl Hin [Hq Hql Hp Hpl Hnd Hst Hh Hhl Hadr H0]. split; try done; [|auto].
    intros p x Hx. rewrite <- Hl; [by apply Hq|]. destruct (Hadr p); [eauto|lia]. }
  split; apply Hsame; intros p Hp; try (by rewrite handles_cons, decide_False by done); set_solver.
Qed.
Lemma owned_null_response n qs ps : owned_by n qs (0 :: ps) <-> owned_by n qs ps.
Proof.
  assert (forall ps ps', (forall p, p <> 0 -> handles ps p = handles ps' p) -> (forall p, p <> 0 -> p ∈ ps' -> p ∈ ps) ->
    owned_by n qs ps -> owned_by n qs ps') as Hsame.
  { intros l l' Hl Hin [Hq Hql Hp Hpl Hnd Hst Hh Hhl Hadr H0]. split; try done; [|auto].
    intros p x Hx. rewrite <- Hl; [by apply Hp|]. destruct (Hadr p); [eauto|lia]. }
  split; apply Hsame; intros p Hp; try (by rewrite handles_cons, decide_False by done); set_solver.
Qed.

Lemma request_destroy_does n qs ps q (Q : net -> unit -> Prop) : core n (q :: qs) ps -> roomy n (q :: qs) ps ->
  (forall n', core n' qs ps -> frame 0 n n' -> Q n' tt) -> does n (request_destroy q) Q.
Proof.
  intros Hcore Hroomy HQ. pose proof Hcore as [Ho How Hba Hse Hd]. destruct (roomy_bounds _ _ _ Hroomy) as (Hrq & Hrp & Hrw).
  simpl in Ho, Hrq. rewrite Zlen_cons in Hrq. unfold request_destroy. apply does_when; intros H.
  - apply negb_true_iff, Z.eqb_neq in H. eapply request_release_ref_does; [exact Ho|done|lia|lia|].
    intros n' Ho' Hf'. apply HQ; [|done]. by eapply core_frame.
  - apply negb_false_iff, Z.eqb_eq in H as ->. apply HQ; [|apply frame_refl]. eapply core_frame; [exact Hcore|apply frame_refl|by apply owned_null].
Qed.
Lemma response_destroy_does n qs ps p (Q : net -> unit -> Prop) : core n qs (p :: ps) -> roomy n qs (p :: ps) ->
  (forall n', core n' qs ps -> frame 0 n n' -> Q n' tt) -> does n (response_destroy p) Q.
Proof.
  intros Hcore Hroomy HQ. pose proof Hcore as [Ho How Hba Hse Hd]. destruct (roomy_bounds _ _ _ Hroomy) as (Hrq & Hrp & Hrw).
  simpl in Ho, Hrp. rewrite Zlen_cons in Hrp. unfold response_destroy, response_release_ref. apply does_when; intros H.
  - apply negb_true_iff, Z.eqb_neq in H. eapply release_response_does; [exact Ho|done|lia|lia| |].
    + intros x Hx Hown Hs0. destruct (How p x Hx Hown Hs0) as (c & q & Hs). apply handles_elem.
      rewrite (proj2 (held_pick n _ c q p Hs)). set_solver.
    + intros n' Ho' Hf'. apply HQ; [|done]. by eapply core_frame.
  - apply negb_false_iff, Z.eqb_eq in H as ->. apply HQ; [|apply frame_refl]. eapply core_frame; [exact Hcore|apply frame_refl|by apply owned_null_response].
Qed.

(** ** Sending *)

Section sending.
Context (printf : list Z -> printed -> list Z) (add_handle : net -> Z -> Z).

Lemma state_message_ok st : exists t, state_message printf st = Ok t.
Proof. destruct st; eexists; vm_compute; reflexivity. Qed.

(** The lookup by name finds a method for the verb. *)
Definition known_verb (n : net) (c : chars) : Prop := exists i, method_of c n = Ok (n, inr i).

Lemma known_verb_strings n n' c : known_verb n c -> strings n' = strings n -> known_verb n' c.
Proof.
  intros [i Hi] Hst. exists i. unfold method_of, andthen, lift, text_at, deref in *.
  destruct c; simpl in *; rewrite ?Hst; repeat first [case_match | progress simplify_eq/=]; unfold ret in *; by simplify_eq.
Qed.
Lemma known_get n : known_verb n (verb_of http_get).
Proof. exists http_get. by vm_compute. Qed.

Lemma setopts_does n qs ps s e os (Q : net -> unit -> Prop) : owned_by n qs ps -> seats n !! s = Some e ->
  (forall n', owned_by n' qs ps -> frame 0 n n' -> requests n' = requests n -> strings n' = strings n -> Q n' tt) -> does n (setopts s os) Q.
Proof.
  intros Ho Hs HQ. eapply (update_session_does n qs ps s e (fun x => with_s_easy x (s_easy x ++ os))); [done|done|done|].
  intros n' Ho' Hf Hr Hst _. by apply HQ.
Qed.
Lemma set_curl_verb_does n qs ps s e v (Q : net -> unit -> Prop) : owned_by n qs ps -> seats n !! s = Some e -> known_verb n v ->
  (forall n', owned_by n' qs ps -> frame 0 n n' -> Q n' tt) -> does n (set_curl_verb s v) Q.
Proof.
  intros Ho Hs Hv HQ. unfold set_curl_verb. eapply does_andthen with (P := fun n' i => n' = n).
  { destruct Hv as [i Hi]. unfold does, yields. by rewrite Hi. }
  intros n' i ->. assert (Q n tt) as Hn by (apply HQ; [done|apply frame_refl]).
  destruct i; try exact Hn; eapply setopts_does; try done; intros n' Ho' Hf _ _; by apply HQ.
Qed.
Lemma mcode_or_die_yields n c (Q : net -> exn + unit -> Prop) : (forall r, Q n r) -> yields n (mcode_or_die c) Q.
Proof. intros HQ. unfold mcode_or_die. destruct (c =? CURLM_OK); [apply HQ|]. destruct (c =? CURLM_BAD_SOCKET); apply HQ. Qed.

Lemma url_text_does n qs ps q r (Q : net -> list Z -> Prop) : owned_by n qs ps -> requests n !! q = Some r -> (forall t, Q n t) ->
  does n (if bool_decide (q_url r = no_chars) then ret [] else text_at (q_url r)) Q.
Proof.
  intros Ho Hr HQ. case_bool_decide as Hno; [apply HQ|]. destruct (o_request _ _ _ Ho q r Hr) as (_ & _ & _ & [|[a Ha]]); [done|].
  destruct (owned_blocks n qs ps q r Ho Hr) as [_ Hlive]. rewrite Ha. destruct (Hlive a) as [t Ht]; [unfold blocks_of; rewrite Ha; set_solver|].
  eapply does_deref; [exact Ht|apply HQ].
Qed.

Lemma send_prelocked_does n qs ps s c q p (Q : net -> exn + unit -> Prop) : core n qs ps -> seats n !! s = Some (c, q, p) ->
  (forall r, requests n !! q = Some r -> known_verb n (q_verb r)) ->
  (forall n' r, core n' qs ps -> frame 0 n n' -> Q n' r) -> yields n (send_prelocked printf add_handle s) Q.
Proof.
  intros Hcore Hs Hverb HQ. pose proof Hcore as [Ho How Hba Hse Hd]. destruct (Hse _ _ _ _ Hs) as (Hq0 & Hp0 & [ch Hch]).
  destruct (seat_at _ _ _ _ _ Hs) as (x & Hx & Hxc & Hxq & Hxp).
  assert (forall e, Q n (inl e)) as Hthrow by (intros e; by apply HQ, frame_refl).
  unfold send_prelocked. eapply yields_at; [exact Hx|]. rewrite Hxc, Hxq, Hxp. destruct (Z.eqb_spec c 0) as [|Hc0]; [apply Hthrow|].
  eapply yields_at; [exact Hch|]. case_bool_decide; cbn [negb].
  2: { destruct (state_message_ok (s_state x)) as [t Ht]. eapply yields_andthen; [apply (does_lift _ _ _ (fun n' _ => n' = n) Ht); done|].
       intros n' t' ->. apply Hthrow. }
  zfalse (q =? 0). destruct (o_request_live _ _ _ Ho q) as [r Hr]; [rewrite (proj1 (held_pick n s c q p Hs)); set_solver|done|].
  eapply yields_andthen; [eapply does_at; [exact Hr|]; by apply (does_ret _ _ (fun n' u => n' = n /\ u = q_url r))|]. intros n' u [-> ->].
  eapply yields_andthen; [by apply (url_text_does n _ _ q r (fun n' _ => n' = n) Ho Hr)|]. intros n' t ->.
  case_bool_decide; [apply Hthrow|]. eapply yields_at; [exact Hr|].
  set (good := fun n' (_ : unit) => owned_by n' (qs ++ held_requests n) (ps ++ held_responses n) /\ frame 0 n n').
  eapply yields_andthen with (P := fun n1 _ => good n1 tt /\ strings n1 = strings n /\ requests n1 = requests n); [by eapply setopts_does|].
  intros n1 _ ([Ho1 Hf1] & Hst1 & Hr1). assert (forall n', frame 0 n n' -> seats n' !! s = Some (c, q, p)) as Hseat
    by (intros n' Hf; by rewrite (fr_seats _ _ _ Hf)).
  eapply yields_andthen with (P := good).
  { eapply set_curl_verb_does; [exact Ho1|by apply Hseat|by eapply known_verb_strings; [apply Hverb|]|].
    intros n2 Ho2 Hf2. split; [done|by apply (frame_trans 0 0 n n1)]. }
  intros n2 _ [Ho2 Hf2]. eapply yields_andthen with (P := good).
  { eapply setopts_does; [exact Ho2|by apply Hseat|]. intros n3 Ho3 Hf3 _ _. split; [done|by apply (frame_trans 0 0 n n2)]. }
  intros n3 _ [Ho3 Hf3]. eapply yields_andthen with (P := good).
  { eapply channel_open_does; [exact Ho3|by eapply mi_channels; [apply Hf3|eauto]|]. intros n4 Ho4 Hf4. split; [done|by apply (frame_trans 0 0 n n3)]. }
  intros n4 _ [Ho4 Hf4]. eapply yields_andthen with (P := good).
  { eapply (update_session_does n4 _ _ s _ (fun x => with_s_state x requesting)); [exact Ho4|by apply Hseat|done|].
    intros n5 Ho5 Hf5 _ _ _. split; [done|by apply (frame_trans 0 0 n n4)]. }
  intros n5 _ [Ho5 Hf5]. eapply yields_andthen; [by apply (does_get _ _ (fun n' _ => n' = n5))|]. intros n' rc ->.
  apply mcode_or_die_yields. intros r'. apply HQ; [by eapply core_frame|done].
Qed.

(** ** Sends, and requests that need no session *)

(** The handle that an operation returns, if it returns. *)
Definition returned (ps : list Z) (r : exn + Z) : list Z := match r with inr p => p :: ps | inl _ => ps end.

Lemma session_send_does n qs ps s c q p (Q : net -> exn + Z -> Prop) : core n qs ps -> roomy n qs ps -> seats n !! s = Some (c, q, p) ->
  (forall r, requests n !! q = Some r -> known_verb n (q_verb r)) ->
  (forall n' r, core n' qs (returned ps r) -> frame 0 n n' -> Q n' r) -> yields n (session_send printf add_handle s) Q.
Proof.
  intros Hcore Hroomy Hs Hverb HQ. unfold session_send.
  eapply yields_bind with (P := fun n1 _ => core n1 qs ps /\ frame 0 n n1); [by eapply send_prelocked_does|intros n1 e [Hc1 Hf1]; by apply HQ|].
  intros n1 _ [Hc1 Hf1]. eapply yields_does; [eapply (current_response_does n1) with (Q := fun n' p => core n' qs (p :: ps) /\ frame 0 n n'); [exact Hc1| |
    by rewrite (fr_seats _ _ _ Hf1)|]|intros n' r [Hc' Hf']; by apply HQ].
  - unfold roomy, load in *. rewrite (fr_seats _ _ _ Hf1). pose proof (mi_weight _ _ _ (fr_mild _ _ _ Hf1)). lia.
  - intros n2 Hc2 Hf2. split; [done|by apply (frame_trans 0 0 n n1)].
Qed.

Lemma session_start_get_does n qs ps s c q p url (Q : net -> exn + Z -> Prop) : core n qs ps -> load n qs ps < 2 ^ 32 - 16 -> seats n !! s = Some (c, q, p) ->
  (forall n' r q', core n' qs (returned ps r) -> seats n' = <[s := (c, q', p)]> (seats n) -> weight n' <= weight n + 2 ->
    (forall p', r = inr p' -> p' = p) -> Q n' r) ->
  yields n (session_start_get printf add_handle s url) Q.
Proof.
  intros Hcore Hroomy Hs HQ. unfold session_start_get.
  eapply yields_andthen with (P := fun n1 _ => exists q', core n1 qs ps /\ seats n1 = <[s := (c, q', p)]> (seats n) /\ blank n1 q' /\
    weight n1 <= weight n + 2).
  { eapply reset_prelocked_does; [done|unfold roomy; lia|done|]. intros n1 q' Hc1 Hs1 Hb1 Hw1. by exists q'. }
  intros n1 _ (q' & Hc1 & Hs1 & (r & Hr & Hv & Hu) & Hw1). assert (seats n1 !! s = Some (c, q', p)) as Hn1 by (rewrite Hs1; apply lookup_insert_eq).
  destruct (seat_at _ _ _ _ _ Hn1) as (x & Hx & Hxc & Hxq & Hxp). eapply yields_at; [exact Hx|]. rewrite Hxq.
  pose proof (co_owned _ _ _ Hc1) as Ho1.
  eapply yields_andthen with (P := fun n2 _ => owned_by n2 (qs ++ held_requests n1) (ps ++ held_responses n1) /\ frame 0 n1 n2 /\
    exists u, requests n2 !! q' = Some (with_q_url r u)).
  { eapply impl_set_url_does; [exact Ho1|exact Hr|done|]. intros n2 u Ho2 Hf2 [Hr2 _] _. split_and!; [done..|]. exists u. by rewrite Hr2, lookup_insert_eq. }
  intros n2 _ (Ho2 & Hf2 & u & Hr2).
  eapply yields_andthen with (P := fun n3 _ => core n3 qs ps /\ frame 0 n1 n3 /\ requests n3 !! q' = Some (with_q_verb (with_q_url r u) (verb_of http_get))).
  { eapply impl_set_get_verb_does; [exact Ho2|exact Hr2|done|]. intros n3 Ho3 Hf3. assert (frame 0 n1 n3) as Hf by by apply (frame_trans 0 0 n1 n2).
    split_and!; [by eapply core_frame|done|]. unfold n3. simpl. by rewrite lookup_insert_eq. }
  intros n3 _ (Hc3 & Hf3 & Hr3). assert (forall n', frame 0 n1 n' -> seats n' = <[s := (c, q', p)]> (seats n) /\ weight n' <= weight n + 2) as Hfinal.
  { intros n' Hf. rewrite (fr_seats _ _ _ Hf). pose proof (mi_weight _ _ _ (fr_mild _ _ _ Hf)). split; [done|lia]. }
  eapply yields_bind with (P := fun n4 _ => core n4 qs ps /\ frame 0 n1 n4).
  { eapply send_prelocked_does; [exact Hc3|by rewrite (fr_seats _ _ _ Hf3)| |].
    - intros r'. rewrite Hr3. intros [= <-]. apply known_get.
    - intros n4 e Hc4 Hf4. split; [done|by apply (frame_trans 0 0 n1 n3)]. }
  { intros n4 e [Hc4 Hf4]. destruct (Hfinal n4 Hf4). by apply (HQ n4 (inl e) q'). }
  intros n4 _ [Hc4 Hf4]. destruct (Hfinal n4 Hf4) as [Hs4 Hw4].
  eapply yields_does; [eapply (current_response_does n4) with (Q := fun n' p' => core n' qs (p' :: ps) /\ frame 0 n1 n' /\ p' = p); [exact Hc4| |
    rewrite Hs4; apply lookup_insert_eq|]|].
  - unfold roomy, load in *. rewrite Hs4, map_size_insert_Some by done. lia.
  - intros n5 Hc5 Hf5. split_and!; [done|by apply (frame_trans 0 0 n1 n4)|done].
  - intros n5 p' (Hc5 & Hf5 & ->). destruct (Hfinal n5 Hf5). apply (HQ n5 (inr p) q'); [done..|]. by intros p' [= <-].
Qed.

(** The response of a session that becomes its owner. *)
Lemma core_own_session n qs ps s c q p r : core n qs ps -> seats n !! s = Some (c, q, p) -> responses n !! p = Some r ->
  let n' := with_responses n (<[p := with_p_owns_session r true]> (responses n)) in core n' qs ps /\ weight n' = weight n.
Proof.
  intros [Ho How Hba Hse Hd] Hs Hr n'. destruct (o_response _ _ _ Ho p r Hr) as (Hrefs & Hpos & Hu).
  destruct (owned_put_response n _ _ (ps ++ held_responses n) p r (with_p_owns_session r true) Ho Hr) as [Ho' Hw]; try done.
  split; [|done]. split; try done.
  - intros t z. simpl. intros [[<- <-]|[Hne Hz]]%lookup_insert_Some; [|by apply How]. simpl. intros _ Hs0.
    rewrite <- (Hba p r Hr Hs0 s c q Hs) in Hs. by exists c, q.
  - intros t z. simpl. intros [[<- <-]|[Hne Hz]]%lookup_insert_Some; [|by apply Hba]. simpl. by apply Hba.
Qed.

Lemma request_start_get_does n qs ps url (Q : net -> exn + Z -> Prop) : core n qs ps -> load n qs ps < 2 ^ 32 - 32 ->
  (forall n' r, core n' qs (returned ps r) -> (forall t, is_Some (seats n !! t) -> is_Some (seats n' !! t)) -> Q n' r) ->
  yields n (request_start_get printf add_handle url) Q.
Proof.
  intros Hcore Hload HQ. unfold request_start_get.
  eapply yields_andthen with (P := fun n1 s => exists c q p, core n1 qs ps /\ seats n1 = <[s := (c, q, p)]> (seats n) /\ seats n !! s = None /\
    weight n1 <= weight n + 4).
  { unfold new_default_session. eapply does_andthen with (P := fun n1 c => core n1 qs ps /\ frame 0 n n1 /\ is_Some (channels n1 !! c)).
    - eapply get_default_does; [apply Hcore|apply Hcore|]. intros n1 c Ho1 Hf1 Hc. split_and!; [by eapply core_frame|done..].
    - intros n1 c (Hc1 & Hf1 & Hch). eapply new_session_does; [done..|]. intros n2 s q p Hc2 Hs2 Hnone Hw2. rewrite (fr_seats _ _ _ Hf1) in Hs2, Hnone.
      exists c, q, p. split_and!; [done..|]. pose proof (mi_weight _ _ _ (fr_mild _ _ _ Hf1)). lia. }
  intros n1 s (c & q & p & Hc1 & Hs1 & Hnone & Hw1). assert (seats n1 !! s = Some (c, q, p)) as Hn1 by (rewrite Hs1; apply lookup_insert_eq).
  assert (Z.of_nat (size (seats n1)) = Z.of_nat (size (seats n)) + 1) as Hsz1 by (rewrite Hs1, map_size_insert_None by done; lia).
  assert (forall n' q', seats n' = <[s := (c, q', p)]> (seats n1) -> forall t, is_Some (seats n !! t) -> is_Some (seats n' !! t)) as Hkeep.
  { intros n' q' -> t Ht. apply lookup_insert_is_Some'. right. rewrite Hs1. apply lookup_insert_is_Some'. by right. }
  eapply yields_bind with (P := fun n2 r => core n2 qs (returned ps r) /\ weight n2 <= weight n1 + 2 /\ (forall p', r = inr p' -> p' = p) /\
    exists q', seats n2 = <[s := (c, q', p)]> (seats n1)).
  { eapply session_start_get_does; [exact Hc1|unfold load in *; lia|exact Hn1|]. intros n2 r q' Hc2 Hs2 Hw2 Hp'. split_and!; [done..|]. by exists q'. }
  { intros n2 e (Hc2 & _ & _ & q' & Hs2). apply HQ; [done|by eapply Hkeep]. }
  intros n2 p' (Hc2 & Hw2 & Hp' & q' & Hs2). rewrite (Hp' p') in * by done. clear Hp'. simpl in Hc2.
  assert (Z.of_nat (size (seats n2)) = Z.of_nat (size (seats n)) + 1) as Hsz2 by (rewrite Hs2, map_size_insert_Some by done; lia).
  eapply yields_andthen with (P := fun n3 _ => core n3 qs ps /\ frame 0 n2 n3).
  { eapply response_destroy_does; [exact Hc2|unfold roomy, load in *; rewrite Zlen_cons; lia|done]. }
  intros n3 _ [Hc3 Hf3]. assert (seats n3 !! s = Some (c, q', p)) as Hn3 by (rewrite (fr_seats _ _ _ Hf3), Hs2; apply lookup_insert_eq).
  destruct (seat_at _ _ _ _ _ Hn3) as (x & Hx & Hxc & Hxq & Hxp). eapply yields_at; [exact Hx|]. rewrite Hxp.
  destruct (co_seats _ _ _ Hc3 _ _ _ _ Hn3) as (_ & Hp0 & _). assert (p ∈ ps ++ held_responses n3) as Hin by (rewrite (proj2 (held_pick n3 s c q' p Hn3)); set_solver).
  destruct (o_response_live _ _ _ (co_owned _ _ _ Hc3) p Hin Hp0) as [r Hr]. eapply yields_at; [exact Hr|].
  destruct (core_own_session n3 qs ps s c q' p r Hc3 Hn3 Hr) as [Hc4 Hw4]. set (n4 := with_responses n3 _) in *.
  eapply yields_andthen with (P := fun n' _ => n' = n4); [by apply does_set|]. intros n' _ ->.
  eapply yields_does; [eapply (response_of_impl_does n4) with (Q := fun n' p' => core n' qs (p' :: ps) /\ frame 0 n4 n'); [exact Hc4| |done..]|].
  - pose proof (mi_weight _ _ _ (fr_mild _ _ _ Hf3)). unfold roomy, load in *. change (seats n4) with (seats n3). rewrite (fr_seats _ _ _ Hf3). lia.
  - intros n5 u [Hc5 Hf5]. apply HQ; [done|]. rewrite (fr_seats _ _ _ Hf5). change (seats n4) with (seats n3). rewrite (fr_seats _ _ _ Hf3). by eapply Hkeep.
Qed.

(** ** Programs

    What a program has: its handles of requests and of responses, known by their
    position, 0 being one that was moved from, and its sessions.  [pr_lost] has the
    second references that copies of requests are made with. *)

Record program : Type := {
  pr_net : net;
  pr_requests : list Z;
  pr_responses : list Z;
  pr_sessions : list Z;
  pr_lost : list Z;
}.
Definition program_empty : program := {| pr_net := net_empty; pr_requests := []; pr_responses := []; pr_sessions := []; pr_lost := [] |}.
Definition program_of (st : program) (n : net) (qs ps : list Z) : program :=
  {| pr_net := n; pr_requests := qs; pr_responses := ps; pr_sessions := pr_sessions st; pr_lost := pr_lost st |}.
Definition with_net (st : program) (n : net) : program := program_of st n (pr_requests st) (pr_responses st).
Definition add_request (st : program) (n : net) (q : Z) : program := program_of st n (q :: pr_requests st) (pr_responses st).
Definition add_response (st : program) (n : net) (p : Z) : program := program_of st n (pr_requests st) (p :: pr_responses st).
Definition with_pr_sessions (st : program) (n : net) (ss : list Z) : program :=
  {| pr_net := n; pr_requests := pr_requests st; pr_responses := pr_responses st; pr_sessions := ss; pr_lost := pr_lost st |}.

Inductive action : Type :=
| act_new_channel
| act_new_session (ch : Z)
| act_new_default_session
| act_destroy_session (i : nat)
| act_reset (i : nat)
| act_send (i : nat)
| act_start_get (i : nat) (url : option (list Z))
| act_session_get (i : nat) (url : option (list Z))
| act_request_start_get (url : option (list Z))
| act_current_request (i : nat)
| act_current_response (i : nat)
| act_copy_request (j : nat)
| act_move_request (j : nat)
| act_destroy_request (j : nat)
| act_set_verb (j : nat) (verb : option (list Z))
| act_set_url (j : nat) (url : option (list Z))
| act_copy_response (j : nat)
| act_move_response (j : nat)
| act_destroy_response (j : nat).

(** Runs [m]: what it returns goes to [k], and what it throws leaves the handles
    as they were. *)
Definition perform {A} (st : program) (m : M A) (k : net -> A -> program) : res program :=
  let! (n, r) := m (pr_net st) in Ok (match r with inr a => k n a | inl _ => with_net st n end).
Definition at_index (st : program) (l : list Z) (i : nat) (k : Z -> res program) : res program :=
  match l !! i with Some p => k p | None => Ok st end.

Definition act (st : program) (a : action) : res program :=
  let session := at_index st (pr_sessions st) in
  let request := at_index st (pr_requests st) in
  let response := at_index st (pr_responses st) in
  match a with
  | act_new_channel => perform st new_channel (fun n _ => with_net st n)
  | act_new_session ch => perform st (new_session ch) (fun n s => with_pr_sessions st n (s :: pr_sessions st))
  | act_new_default_session => perform st new_default_session (fun n s => with_pr_sessions st n (s :: pr_sessions st))
  | act_destroy_session i => session i (fun s => perform st (session_destroy s) (fun n _ => with_pr_sessions st n (delete i (pr_sessions st))))
  | act_reset i => session i (fun s => perform st (session_reset s) (add_request st))
  | act_send i => session i (fun s => perform st (session_send printf add_handle s) (add_response st))
  | act_start_get i url => session i (fun s => perform st (session_start_get printf add_handle s url) (add_response st))
  | act_session_get i url => session i (fun s => perform st (session_get s url) (add_response st))
  | act_request_start_get url => perform st (request_start_get printf add_handle url) (add_response st)
  | act_current_request i => session i (fun s => perform st (get_current_request s) (add_request st))
  | act_current_response i => session i (fun s => perform st (get_current_response s) (add_response st))
  | act_copy_request j => request j (fun q => perform st (request_copy q) (fun n q' =>
      {| pr_net := n; pr_requests := q' :: pr_requests st; pr_responses := pr_responses st; pr_sessions := pr_sessions st; pr_lost := q' :: pr_lost st |}))
  | act_move_request j => request j (fun q => perform st (request_move q) (fun n '(q', other) =>
      program_of st n (q' :: <[j := other]> (pr_requests st)) (pr_responses st)))
  | act_destroy_request j => request j (fun q => perform st (request_destroy q) (fun n _ =>
      program_of st n (delete j (pr_requests st)) (pr_responses st)))
  | act_set_verb j v => request j (fun q => perform st (request_set_verb q v) (fun n _ => with_net st n))
  | act_set_url j u => request j (fun q => perform st (request_set_url q u) (fun n _ => with_net st n))
  | act_copy_response j => response j (fun p => perform st (response_copy p) (add_response st))
  | act_move_response j => response j (fun p => perform st (response_move p) (fun n '(p', other) =>
      program_of st n (pr_requests st) (p' :: <[j := other]> (pr_responses st))))
  | act_destroy_response j => response j (fun p => perform st (response_destroy p) (fun n _ =>
      program_of st n (pr_requests st) (delete j (pr_responses st))))
  end.

(** What is left to the caller: a channel that lives, a handle that was not moved
    from, a verb that libcurl knows, and fewer than about 2^32 references. *)
Definition permitted (st : program) (a : action) : Prop :=
  load (pr_net st) (pr_requests st ++ pr_lost st) (pr_responses st) < 2 ^ 32 - 32 /\
  match a with
  | act_new_session ch => is_Some (channels (pr_net st) !! ch)
  | act_send i => forall s x r, pr_sessions st !! i = Some s -> sessions (pr_net st) !! s = Some x ->
      requests (pr_net st) !! s_request x = Some r -> known_verb (pr_net st) (q_verb r)
  | act_copy_request j | act_set_verb j _ | act_set_url j _ => pr_requests st !! j <> Some 0
  | act_copy_response j => pr_responses st !! j <> Some 0
  | _ => True
  end.

Fixpoint acts (st : program) (l : list action) : res program :=
  match l with [] => Ok st | a :: l => let! st := act st a in acts st l end.
Fixpoint all_permitted (st : program) (l : list action) : Prop :=
  match l with
  | [] => True
  | a :: l => permitted st a /\ match act st a with Ok st => all_permitted st l | _ => True end
  end.

(** The invariant of programs. *)
Record sound (st : program) : Prop := {
  sd_core : core (pr_net st) (pr_requests st ++ pr_lost st) (pr_responses st);
  sd_sessions : forall s, s ∈ pr_sessions st -> is_Some (seats (pr_net st) !! s);
  sd_distinct : NoDup (pr_sessions st);
}.

Lemma perform_sound {A} st (m : M A) (k : net -> A -> program) :
  yields (pr_net st) m (fun n r => sound (match r with inr a => k n a | inl _ => with_net st n end)) -> wp (perform st m k) sound.
Proof. unfold yields, perform. by destruct (m (pr_net st)) as [[n r]| | |]. Qed.
Lemma perform_does {A} st (m : M A) (k : net -> A -> program) : does (pr_net st) m (fun n a => sound (k n a)) -> wp (perform st m k) sound.
Proof. intros Hm. eapply perform_sound, yields_does; [exact Hm|done]. Qed.
Lemma at_index_sound st l i k : sound st -> (forall p, l !! i = Some p -> wp (k p) sound) -> wp (at_index st l i k) sound.
Proof. intros Hst Hk. unfold at_index. destruct (l !! i); [by apply Hk|exact Hst]. Qed.

(** Only the handles change. *)
Lemma sound_frame st k n qs ps : sound st -> frame k (pr_net st) n -> core n (qs ++ pr_lost st) ps -> sound (program_of st n qs ps).
Proof. intros [Hc Hs Hd] Hf Hc'. split; [done| |done]. simpl. by rewrite (fr_seats _ _ _ Hf). Qed.

Lemma sound_net st k n : sound st -> frame k (pr_net st) n -> core n (pr_requests st ++ pr_lost st) (pr_responses st) -> sound (with_net st n).
Proof. apply sound_frame. Qed.
Lemma sound_load st a : permitted st a -> roomy (pr_net st) (pr_requests st ++ pr_lost st) (pr_responses st).
Proof. intros [Hload _]. unfold roomy. lia. Qed.
Lemma session_seat st i s : sound st -> pr_sessions st !! i = Some s -> exists c q p, seats (pr_net st) !! s = Some (c, q, p).
Proof. intros [_ Hs _] Hi. destruct (Hs s) as [[[c q] p] Hse]; [by eapply list_elem_of_lookup_2|]. by exists c, q, p. Qed.

(** A session that is new. *)
Lemma sound_new_session st n s e : sound st -> core n (pr_requests st ++ pr_lost st) (pr_responses st) ->
  seats n = <[s := e]> (seats (pr_net st)) -> seats (pr_net st) !! s = None -> sound (with_pr_sessions st n (s :: pr_sessions st)).
Proof.
  intros [Hc Hs Hd] Hc' Hse Hnone. split; [done| |]; simpl.
  - intros t Ht. rewrite Hse. apply lookup_insert_is_Some'. apply elem_of_cons in Ht as [->|Ht]; [by left|right; by apply Hs].
  - constructor; [|done]. intros Hin%Hs. rewrite Hnone in Hin. by destruct Hin.
Qed.
(** Sessions that still have a seat. *)
Lemma sound_seats st n qs ps : sound st -> core n (qs ++ pr_lost st) ps -> (forall t, is_Some (seats (pr_net st) !! t) -> is_Some (seats n !! t)) ->
  sound (program_of st n qs ps).
Proof. intros [Hc Hs Hd] Hc' Hk. split; [done|auto|done]. Qed.

(** A new channel, and new sessions. *)
Lemma new_channel_sound st : sound st -> wp (act st act_new_channel) sound.
Proof.
  intros Hst. apply perform_does. eapply new_channel_does; [apply (sd_core _ Hst)|]. intros n c Ho Hf _.
  eapply sound_net; [done|exact Hf|]. by eapply core_frame; [apply (sd_core _ Hst)|..].
Qed.
Lemma new_session_sound st ch : sound st -> is_Some (channels (pr_net st) !! ch) -> wp (act st (act_new_session ch)) sound.
Proof.
  intros Hst Hch. apply perform_does. eapply new_session_does; [apply (sd_core _ Hst)|done|]. intros n s q p Hc Hs Hnone _. by eapply sound_new_session.
Qed.
Lemma new_default_session_sound st : sound st -> wp (act st act_new_default_session) sound.
Proof.
  intros Hst. pose proof (sd_core _ Hst) as Hcore. apply perform_does. unfold new_default_session.
  eapply does_andthen with (P := fun n1 c => core n1 (pr_requests st ++ pr_lost st) (pr_responses st) /\ frame 0 (pr_net st) n1 /\ is_Some (channels n1 !! c)).
  - eapply get_default_does; [apply Hcore|apply Hcore|]. intros n1 c Ho1 Hf1 Hc. split_and!; [by eapply core_frame|done..].
  - intros n1 c (Hc1 & Hf1 & Hch). eapply new_session_does; [done..|]. intros n s q p Hc Hs Hnone _. rewrite (fr_seats _ _ _ Hf1) in Hs, Hnone.
    by eapply sound_new_session.
Qed.
Lemma destroy_session_sound st i : sound st -> permitted st (act_destroy_session i) -> wp (act st (act_destroy_session i)) sound.
Proof.
  intros Hst Hp. apply at_index_sound; [done|]. intros s Hi. destruct (session_seat st i s Hst Hi) as (c & q & p & Hs).
  apply perform_does. eapply session_destroy_does; [apply (sd_core _ Hst)|by eapply sound_load|exact Hs|]. intros n Hc Hse _.
  pose proof (sd_distinct _ Hst) as Hd. rewrite (delete_Permutation _ _ _ Hi) in Hd. apply NoDup_cons in Hd as [Hno Hd]. split; [done| |done]. simpl.
  intros t Ht. rewrite Hse, lookup_delete_is_Some. split; [by intros ->|]. apply (sd_sessions _ Hst). rewrite (delete_Permutation _ _ _ Hi). by right.
Qed.

(** Sessions that are used. *)
Lemma reset_sound st i : sound st -> permitted st (act_reset i) -> wp (act st (act_reset i)) sound.
Proof.
  intros Hst Hp. pose proof Hp as [Hload _]. apply at_index_sound; [done|]. intros s Hi. destruct (session_seat st i s Hst Hi) as (c & q & p & Hs).
  apply perform_does. unfold session_reset.
  eapply does_andthen with (P := fun n _ => core n (pr_requests st ++ pr_lost st) (pr_responses st) /\
    exists q', seats n = <[s := (c, q', p)]> (seats (pr_net st)) /\ weight n <= weight (pr_net st) + 2).
  { eapply reset_prelocked_does; [apply (sd_core _ Hst)|by eapply sound_load|exact Hs|]. intros n q' Hc Hse _ Hw. split; [done|by exists q']. }
  intros n _ (Hc & q' & Hse & Hw). eapply (get_current_request_does n); [exact Hc| |rewrite Hse; apply lookup_insert_eq|].
  - unfold roomy, load in *. rewrite Hse, map_size_insert_Some by done. lia.
  - intros n' Hc' Hf'. apply (sound_seats st n' (q' :: pr_requests st)); [done|done|]. intros t Ht. rewrite (fr_seats _ _ _ Hf'), Hse.
    apply lookup_insert_is_Some'. by right.
Qed.
Lemma send_sound st i : sound st -> permitted st (act_send i) -> wp (act st (act_send i)) sound.
Proof.
  intros Hst Hp. pose proof Hp as [_ Hverb]. apply at_index_sound; [done|]. intros s Hi. destruct (session_seat st i s Hst Hi) as (c & q & p & Hs).
  destruct (seat_at _ _ _ _ _ Hs) as (x & Hx & Hxc & Hxq & Hxp). apply perform_sound.
  eapply session_send_does; [apply (sd_core _ Hst)|by eapply sound_load|exact Hs| |].
  - intros r Hr. eapply Hverb; [done..|by rewrite Hxq].
  - intros n [e|r] Hc Hf; [by eapply sound_net|by eapply sound_frame].
Qed.
Lemma start_get_sound st i url : sound st -> permitted st (act_start_get i url) -> wp (act st (act_start_get i url)) sound.
Proof.
  intros Hst [Hload _]. apply at_index_sound; [done|]. intros s Hi. destruct (session_seat st i s Hst Hi) as (c & q & p & Hs).
  apply perform_sound. eapply session_start_get_does; [apply (sd_core _ Hst)|lia|exact Hs|].
  intros n r q' Hc Hse _ _. assert (forall t, is_Some (seats (pr_net st) !! t) -> is_Some (seats n !! t)) as Hk.
  { intros t Ht. rewrite Hse. apply lookup_insert_is_Some'. by right. }
  destruct r as [e|p']; by apply sound_seats.
Qed.
Lemma request_start_get_sound st url : sound st -> permitted st (act_request_start_get url) -> wp (act st (act_request_start_get url)) sound.
Proof.
  intros Hst [Hload _]. apply perform_sound. eapply request_start_get_does; [apply (sd_core _ Hst)|lia|].
  intros n [e|p'] Hc Hk; by apply sound_seats.
Qed.
Lemma session_get_sound st i url : sound st -> wp (act st (act_session_get i url)) sound.
Proof.
  intros Hst. pose proof (sd_core _ Hst) as Hcore. apply at_index_sound; [done|]. intros s Hi. apply perform_does.
  eapply new_response_does; [apply Hcore|]. intros n Ho Hf _ _ _ _. eapply (sound_frame st 2 n _ (_ :: _)); [done|exact Hf|]. by eapply core_frame.
Qed.
Lemma current_request_sound st i : sound st -> permitted st (act_current_request i) -> wp (act st (act_current_request i)) sound.
Proof.
  intros Hst Hp. apply at_index_sound; [done|]. intros s Hi. destruct (session_seat st i s Hst Hi) as (c & q & p & Hs).
  apply perform_does. eapply get_current_request_does; [apply (sd_core _ Hst)|by eapply sound_load|exact Hs|].
  intros n Hc Hf. by eapply (sound_frame st 0 n (_ :: _)).
Qed.
Lemma current_response_sound st i : sound st -> permitted st (act_current_response i) -> wp (act st (act_current_response i)) sound.
Proof.
  intros Hst Hp. apply at_index_sound; [done|]. intros s Hi. destruct (session_seat st i s Hst Hi) as (c & q & p & Hs).
  apply perform_does. eapply current_response_does; [apply (sd_core _ Hst)|by eapply sound_load|exact Hs|].
  intros n Hc Hf. by eapply (sound_frame st 0 n _ (_ :: _)).
Qed.

(** Handles that are used. *)
Lemma handle_live st j q : sound st -> pr_requests st !! j = Some q -> q <> 0 -> is_Some (requests (pr_net st) !! q).
Proof.
  intros Hst Hj Hq. apply (o_request_live _ _ _ (co_owned _ _ _ (sd_core _ Hst))); [|done]. rewrite !elem_of_app.
  left. left. by eapply list_elem_of_lookup_2.
Qed.
Lemma copy_request_sound st j : sound st -> permitted st (act_copy_request j) -> wp (act st (act_copy_request j)) sound.
Proof.
  intros Hst Hp. pose proof Hp as [_ Hq]. pose proof Hst as [Hc Hs Hd]. apply at_index_sound; [done|]. intros q Hj. apply perform_does.
  eapply request_copy_does; [exact Hc|by eapply sound_load|apply elem_of_app; left; by eapply list_elem_of_lookup_2|congruence|].
  intros n q' Hc' Hf _ _. split; [|simpl; by rewrite (fr_seats _ _ _ Hf)|done]. simpl.
  eapply core_perm; [|done|exact Hc']. by rewrite <- Permutation_middle.
Qed.
Lemma moved_perm (l : list Z) j q : l !! j = Some q -> 0 :: l ≡ₚ q :: <[j := 0]> l.
Proof.
  intros Hj. pose proof (lookup_lt_Some _ _ _ Hj) as Hlt. rewrite (insert_take_drop l j 0 Hlt), <- (take_drop_middle l j q Hj) at 1.
  rewrite <- !Permutation_middle. apply perm_swap.
Qed.
Lemma move_request_sound st j : sound st -> wp (act st (act_move_request j)) sound.
Proof.
  intros Hst. pose proof (sd_core _ Hst) as Hcore. apply at_index_sound; [done|]. intros q Hj. apply perform_does, does_ret.
  eapply (sound_frame st 0); [done|apply frame_refl|]. eapply core_frame; [exact Hcore|apply frame_refl|].
  eapply owned_perm; [|done|apply owned_null, Hcore]. change (?a :: ?b ++ ?c) with ((a :: b) ++ c). by rewrite <- (moved_perm _ _ _ Hj).
Qed.
Lemma destroy_request_sound st j : sound st -> permitted st (act_destroy_request j) -> wp (act st (act_destroy_request j)) sound.
Proof.
  intros Hst Hp. pose proof (sound_load _ _ Hp) as Hroomy. pose proof (sd_core _ Hst) as Hcore. apply at_index_sound; [done|]. intros q Hj.
  pose proof (delete_Permutation _ _ _ Hj) as Hperm. apply perform_does.
  eapply (request_destroy_does _ (delete j (pr_requests st) ++ pr_lost st) (pr_responses st)).
  - eapply core_perm; [|done|exact Hcore]. change (?a :: ?b ++ ?c) with ((a :: b) ++ c). by rewrite <- Hperm.
  - unfold roomy, load in *. change (?a :: ?b ++ ?c) with ((a :: b) ++ c). by rewrite <- Hperm.
  - intros n Hc Hf. by eapply sound_frame.
Qed.
Lemma set_slot_sound st j verb : sound st -> pr_requests st !! j <> Some 0 ->
  wp (act st (act_set_verb j verb)) sound /\ wp (act st (act_set_url j verb)) sound.
Proof.
  intros Hst Hno. pose proof (sd_core _ Hst) as Hcore. split; (apply at_index_sound; [done|]; intros q Hj; apply perform_does).
  - eapply request_set_verb_does; [apply Hcore|eapply handle_live; [done..|congruence]|]. intros n Ho Hf. eapply sound_net; [done|done|]. by eapply core_frame.
  - eapply request_set_url_does; [apply Hcore|eapply handle_live; [done..|congruence]|]. intros n Ho Hf. eapply sound_net; [done|done|]. by eapply core_frame.
Qed.
Lemma copy_response_sound st j : sound st -> permitted st (act_copy_response j) -> wp (act st (act_copy_response j)) sound.
Proof.
  intros Hst Hp. pose proof Hp as [_ Hno]. pose proof (sd_core _ Hst) as Hcore. apply at_index_sound; [done|]. intros p Hj. apply perform_does.
  eapply response_of_impl_does; [exact Hcore|by eapply sound_load|apply elem_of_app; left; by eapply list_elem_of_lookup_2|congruence|].
  intros n Hc Hf. by eapply (sound_frame st 0 n _ (_ :: _)).
Qed.
Lemma move_response_sound st j : sound st -> wp (act st (act_move_response j)) sound.
Proof.
  intros Hst. pose proof (sd_core _ Hst) as Hcore. apply at_index_sound; [done|]. intros q Hj. apply perform_does, does_ret.
  eapply (sound_frame st 0); [done|apply frame_refl|]. eapply core_frame; [exact Hcore|apply frame_refl|].
  eapply owned_perm; [done| |apply owned_null_response, Hcore]. change (?a :: ?b ++ ?c) with ((a :: b) ++ c). by rewrite <- (moved_perm _ _ _ Hj).
Qed.
Lemma destroy_response_sound st j : sound st -> permitted st (act_destroy_response j) -> wp (act st (act_destroy_response j)) sound.
Proof.
  intros Hst Hp. pose proof (sound_load _ _ Hp) as Hroomy. pose proof (sd_core _ Hst) as Hcore. apply at_index_sound; [done|]. intros p Hj.
  pose proof (delete_Permutation _ _ _ Hj) as Hperm. apply perform_does.
  eapply (response_destroy_does _ (pr_requests st ++ pr_lost st) (delete j (pr_responses st))).
  - by eapply core_perm; [done| |exact Hcore].
  - unfold roomy, load in *. by rewrite <- Hperm.
  - intros n Hc Hf. by eapply sound_frame.
Qed.

Lemma act_sound st a : sound st -> permitted st a -> wp (act st a) sound.
Proof.
  intros Hst Hp. pose proof Hp as [_ Hcond].
  destruct a; auto using new_channel_sound, new_session_sound, new_default_session_sound, destroy_session_sound, reset_sound, send_sound,
    start_get_sound, session_get_sound, request_start_get_sound, current_request_sound, current_response_sound, copy_request_sound, move_request_sound,
    destroy_request_sound, copy_response_sound, move_response_sound, destroy_response_sound; by eapply set_slot_sound.
Qed.

Lemma acts_sound l : forall st, sound st -> all_permitted st l -> wp (acts st l) sound.
Proof.
  induction l as [|a l IH]; intros st Hst; [done|]. intros [Hp Hall]. cbn [acts]. apply wp_bind. pose proof (act_sound st a Hst Hp) as Hwp.
  apply wp_Ok_iff in Hwp as (st' & E & Hst'). rewrite E in Hall |- *. by apply IH.
Qed.

Lemma sound_empty : sound program_empty.
Proof.
  split; [|by intros s ?%not_elem_of_nil|constructor]. split; try done; [|by left]. split; try done; simpl; try (by intros ? ?%not_elem_of_nil).
  - constructor.
  - apply consistent_empty.
  - intros p Hp. rewrite !lookup_empty in Hp. by destruct Hp as [[]|[[]|[[]|[[]|[]]]]].
Qed.

(** When no session is left. *)
Lemma sound_no_session st : sound st -> sessions (pr_net st) = ∅ -> pr_requests st = [] -> pr_responses st = [] ->
  responses (pr_net st) = ∅ /\ (forall q, is_Some (requests (pr_net st) !! q) <-> q ∈ pr_lost st /\ q <> 0) /\
  (pr_lost st = [] -> cells (collections (pr_net st)) = ∅).
Proof.
  intros [Hc _ _] Hs Hqs Hps. pose proof (co_owned _ _ _ Hc) as Ho. rewrite Hqs, Hps in Ho. simpl in Ho.
  assert (held_requests (pr_net st) = [] /\ held_responses (pr_net st) = []) as [Hhq Hhp].
  { unfold held_requests, held_responses, seats. by rewrite Hs, fmap_empty, map_to_list_empty. }
  rewrite Hhq, Hhp, app_nil_r in Ho.
  assert (responses (pr_net st) = ∅) as Hr.
  { apply map_empty. intros p. destruct (responses (pr_net st) !! p) as [x|] eqn:Hx; [|done].
    destruct (o_response _ _ _ Ho p x Hx) as (E & Hpos & _). rewrite handles_nil in E. lia. }
  assert (forall q, is_Some (requests (pr_net st) !! q) <-> q ∈ pr_lost st /\ q <> 0) as Hq.
  { intros q. split; [|intros [Hq Hq0]; by apply (o_request_live _ _ _ Ho)]. intros [x Hx].
    destruct (o_request _ _ _ Ho q x Hx) as (E & Hpos & _). pose proof (o_addresses _ _ _ Ho q ltac:(eauto)). split; [|lia].
    destruct (decide (q ∈ pr_lost st)) as [|Hno]; [done|]. exfalso. assert (handles (pr_lost st) q = 0%nat) as E0; [|lia].
    unfold handles. destruct (filter _ _) as [|r l] eqn:Ef; [done|]. assert (r ∈ filter (fun r => r = q) (pr_lost st)) as Hin by (rewrite Ef; by left).
    by apply list_elem_of_filter in Hin as [-> Hin]. }
  split_and!; [done|done|]. intros Hl. apply consistent_no_leak. pose proof (o_headers _ _ _ Ho) as Hh.
  assert (requests (pr_net st) = ∅) as Hrq.
  { apply map_empty. intros q. apply eq_None_not_Some. intros Hin%Hq. rewrite Hl in Hin. set_solver. }
  unfold header_handles in Hh. by rewrite Hrq, Hr, !map_to_list_empty in Hh.
Qed.
End sending.

(** A copy of a request outlives its handle. *)
Definition copying : list action :=
  [act_new_default_session; act_current_request 0; act_copy_request 0; act_destroy_request 0; act_destroy_request 0; act_destroy_session 0].
Example copied_request_leaks : exists st, acts any_printf (fun _ _ => 0) program_empty copying = Ok st /\
  pr_requests st = [] /\ size (sessions (pr_net st)) = 0%nat /\ size (requests (pr_net st)) = 1%nat.
Proof. eexists. vm_compute. repeat split. Qed.

(** A verb or a URL that is set again is not freed. *)
Example set_verb_leaks : exists n,
  (let* s := new_default_session in
   let* q := get_current_request s in
   let* _ := request_set_verb q (Some (str "a")) in
   let* _ := request_set_verb q (Some (str "b")) in
   let* _ := request_destroy q in session_destroy s) net_empty = Ok (n, inr tt) /\ requests n = ∅ /\ size (strings n) = 1%nat.
Proof. eexists. vm_compute. repeat split. Qed.

(** [impl_t::set_url] of null leaves the pointer to the block it has freed. *)
Example impl_set_url_dangles :
  (let* s := new_default_session in
   let* x := session_at s in
   let* _ := impl_set_url (s_request x) (Some (str "a")) in
   let* _ := impl_set_url (s_request x) None in session_destroy s) net_empty = Undef.
Proof. vm_compute. reflexivity. Qed.

(** * Properties *)

(** C10: whatever sequence of these actions a program runs from the start: making channels and sessions, destroying
    sessions, reset, send, start_get and get on a session, one-off requests, getting, copying, moving and destroying
    handles of requests and responses, set_verb and set_url. No action reaches a freed object, or frees an object or
    a string twice; afterwards each count of a request or response is the number of handles and sessions that refer
    to it, no two requests share a string, and the headers are consistent. Once there is no session and no handle,
    no response is left, and of the requests only those made by copying another one. [permitted] leaves to the
    program: that a channel given is alive, that a handle that was moved from is only destroyed, moved or left
    alone, that the verb of a request that is sent is one libcurl has a method for, and fewer than about 2^32
    references. Not among the actions are the destruction of a channel and the end of a transfer, after which the
    URL of libcurl is freed with the last handle (effective_url_freed_twice); and of strings nothing is said once
    they are replaced, which set_verb and set_url do without freeing them (set_verb_leaks). *)
Theorem curl_reference_counts printf add_handle l :
  all_permitted printf add_handle program_empty l ->
  wp (acts printf add_handle program_empty l) (fun st => sound st /\
    (sessions (pr_net st) = ∅ -> pr_requests st = [] -> pr_responses st = [] ->
     responses (pr_net st) = ∅ /\ (forall q, is_Some (requests (pr_net st) !! q) <-> q ∈ pr_lost st /\ q <> 0) /\
     (pr_lost st = [] -> cells (collections (pr_net st)) = ∅))).
Proof.
  intros Hl. eapply wp_mono; [|apply acts_sound; [exact sound_empty|exact Hl]].
  intros st Hst. split; [done|]. intros. by apply sound_no_session.
Qed.

Lemma curl_reference_counts_witness :
  let l := [act_new_default_session; act_current_request 0; act_set_url 0 (Some (str "http://x/")); act_start_get 0 (Some (str "http://y/"));
    act_copy_request 0; act_move_response 0; act_reset 0; act_destroy_response 0; act_request_start_get (Some (str "z"));
    act_destroy_session 0] in
  wp (acts any_printf (fun _ _ => 0) program_empty l) (fun st => sound st /\
    (sessions (pr_net st) = ∅ -> pr_requests st = [] -> pr_responses st = [] ->
     responses (pr_net st) = ∅ /\ (forall q, is_Some (requests (pr_net st) !! q) <-> q ∈ pr_lost st /\ q <> 0) /\
     (pr_lost st = [] -> cells (collections (pr_net st)) = ∅))).
Proof. cbv zeta. apply curl_reference_counts. vm_compute. repeat split; done. Defined.
