(* ===== verification/CurlResponse.v ===== *)
(** * What a response stores

    The bodies and headers that the callbacks of libcurl hand over. *)

From stdpp Require Import base tactics list gmap strings.
From Stdlib Require Import ZArith Lia.
From S2P Require Import Prelude CString StrView StdString Headers HttpMethod Arg Interp Curl.
#[local] Open Scope Z_scope.

(** The callbacks of libcurl_callbacks.cpp that hand over data; a null pointer
    stores nothing. *)
Definition on_receive_data (data : list Z) (size_per_record num_records rimpl : Z) : M Z :=
  if negb (rimpl =? 0) then store_bytes rimpl data (u64 (size_per_record * num_records)) else ret 0.
Definition on_receive_header (m : mem) (data size_per_record num_records rimpl : Z) : M Z :=
  if negb (rimpl =? 0) then store_header m rimpl data (u64 (size_per_record * num_records)) else ret 0.
Definition on_progress (rimpl expected_receive_total received_so_far expected_send_total sent_so_far : Z) : M Z :=
  let* _ := when (negb (rimpl =? 0))
    (let* _ := update_progress rimpl expected_receive_total received_so_far expected_send_total sent_so_far in ret tt) in
  ret 0.

(** libcurl hands over a body in chunks, as records of one byte, and gives up at
    the first answer that is not the size of its chunk. *)
Fixpoint receive (rimpl : Z) (chunks : list (list Z)) : M bool :=
  match chunks with
  | [] => ret true
  | c :: chunks =>
      let* handled := on_receive_data c 1 (Zlen c) rimpl in
      if handled =? Zlen c then receive rimpl chunks else ret false
  end.

(** * Specification *)

(** The response [p] of session [s], and its body. *)
Record holds_body (n : net) (p s : Z) (st : session_state) (body : list Z) : Prop := {
  hb_response : exists x, responses n !! p = Some x /\ p_session x = s /\ p_received_bytes x = body;
  hb_session : exists y, sessions n !! s = Some y /\ s_state y = st;
}.

(** The longest body. *)
Definition max_body : Z := max_stored_response_size - 1.

(** What the first chunk does to the state. *)
Definition accepting (st : session_state) : session_state :=
  match st with requesting | waiting_for_response => accepting_response | _ => st end.

Lemma bytes_to_store_spec received count : 0 <= received <= max_body -> 0 <= count < 2 ^ 62 ->
  bytes_to_store received count = Z.min count (max_body - received).
Proof.
  unfold bytes_to_store, max_body, max_stored_response_size. intros Hr Hc. unfold u64. rewrite (Z.mod_small (received + count + 1)) by lia.
  destruct (Z.ltb_spec (16 * 1024 * 1024) (received + count + 1)); [|lia]. rewrite Z.mod_small by lia. lia.
Qed.

Lemma store_bytes_spec n p s st body bytes : holds_body n p s st body -> Zlen body <= max_body -> Zlen bytes < 2 ^ 62 ->
  let k := Z.min (Zlen bytes) (max_body - Zlen body) in
  exists n', store_bytes p bytes (Zlen bytes) n = Ok (n', inr k) /\
    holds_body n' p s (accepting st) (body ++ take (Z.to_nat k) bytes).
Proof.
  intros [(x & Hx & Hs & Hbody) (y & Hy & Hst)] Hmax Hlen k. pose proof (Zlen_nonneg body) as Hb0. pose proof (Zlen_nonneg bytes) as Hb1.
  unfold store_bytes, response_at, session_at, andthen at 1, deref. rewrite Hx. cbn [bind]. rewrite Hs.
  unfold andthen at 1. rewrite Hy. cbn [bind]. rewrite Hst.
  set (b := bool_decide (st = requesting) || bool_decide (st = waiting_for_response)).
  set (y' := with_s_state y (accepting st)). set (n1 := if b then with_sessions n (<[s := y']> (sessions n)) else n).
  assert (when b (put_session s (with_s_state y accepting_response)) n = Ok (n1, inr tt)) as Hwhen.
  { unfold n1, y'. destruct st; reflexivity. }
  assert (exists z, sessions n1 !! s = Some z /\ s_state z = accepting st) as Hz.
  { unfold n1. destruct b eqn:Hb; [exists y'; simpl; by rewrite lookup_insert_eq|]. exists y. split; [done|].
    rewrite Hst. revert Hb. unfold b. by destruct st. }
  assert (responses n1 !! p = Some x) as Hx1 by (unfold n1; by destruct b).
  unfold andthen at 1. rewrite Hwhen. cbn [bind]. rewrite Hbody.
  destruct (Z.eqb_spec (Zlen bytes) 0) as [H0|H0]; cbn [negb].
  - exists n1. unfold ret. unfold k. rewrite H0. rewrite Z.min_l by lia. split; [done|]. rewrite take_0, app_nil_r.
    split; [by exists x|done].
  - assert (Zlen body < max_stored_response_size) by (unfold max_body in Hmax; lia). zfalse (max_stored_response_size <=? Zlen body).
    rewrite bytes_to_store_spec by lia. fold k. ztrue (k <=? Zlen bytes).
    unfold andthen, put_response, set, ret. cbn [bind]. eexists. split; [done|]. split; simpl.
    + eexists. split; [apply lookup_insert_eq|]. done.
    + exact Hz.
Qed.

Lemma take_bounded_app (body bytes : list Z) : Zlen body <= max_body ->
  body ++ take (Z.to_nat (Z.min (Zlen bytes) (max_body - Zlen body))) bytes = take (Z.to_nat max_body) (body ++ bytes).
Proof.
  intros Hb. rewrite take_app. rewrite (take_ge body) by (unfold Zlen in Hb; lia). f_equal.
  destruct (Z.min_spec (Zlen bytes) (max_body - Zlen body)) as [[Hlt ->]|[Hle ->]].
  - rewrite !take_ge by (unfold Zlen in *; lia). done.
  - f_equal. unfold Zlen. lia.
Qed.

(** ** Headers *)

(** A header line is stored without its line break, the empty line not at all. *)
Lemma store_header_line m p txt l n x : responses n !! p = Some x -> holds m txt (l ++ [CR; LF]) -> Zlen l + 2 < 2 ^ 63 ->
  store_header m p txt (Zlen l + 2) n =
    (if bool_decide (l = []) then ret 2
     else let* _ := add_header m (p_headers x) (view_of_length txt (Zlen l)) in ret (Zlen l + 2)) n.
Proof.
  intros Hx Hm Hlen. pose proof (Zlen_nonneg l) as Hl. apply holds_app in Hm as [_ (Hcr & Hlf & _)].
  unfold store_header. zfalse (Zlen l + 2 =? 0). ztrue (2 <=? Zlen l + 2). cbn [negb].
  replace (txt + (Zlen l + 2 - 2)) with (txt + Zlen l) by lia. replace (txt + (Zlen l + 2 - 1)) with (txt + Zlen l + 1) by lia.
  rewrite (andthen_ok _ _ n n true).
  2: { rewrite (andthen_ok _ _ n n CR) by (unfold lift; by rewrite (load_Some _ _ _ Hcr)). change (CR =? CR) with true. cbn match.
       rewrite (andthen_ok _ _ n n LF) by (unfold lift; by rewrite (load_Some _ _ _ Hlf)). done. }
  cbn [andb]. case_bool_decide as Hnil; [by subst l|].
  assert (Zlen l <> 0) by (destruct l; [done|rewrite Zlen_cons in *; pose proof (Zlen_nonneg l); lia]).
  zfalse (Zlen l + 2 =? 2). rewrite (andthen_ok _ _ n n x) by (unfold response_at, deref; by rewrite Hx).
  unfold u64. replace (Zlen l + 2 - 2) with (Zlen l) by lia. by rewrite Z.mod_small by lia.
Qed.

(** The name and the value of a line: what is before the first colon, and the rest
    with the colon. *)
Fixpoint split_line (l : list Z) : list Z * list Z :=
  match l with
  | [] => ([], [])
  | c :: l' => if c =? ":"%ch then ([], l) else let (k, v) := split_line l' in (c :: k, v)
  end.
Definition line_name (l : list Z) : list Z := (split_line l).1.
Definition line_value (l : list Z) : list Z := (split_line l).2.

Lemma split_line_spec l : l = line_name l ++ line_value l /\ ":"%ch ∉ line_name l /\ (line_value l = [] \/ head (line_value l) = Some ":"%ch).
Proof.
  unfold line_name, line_value. induction l as [|c l IH]; [split_and!; [done|by intros ?%not_elem_of_nil|by left]|]. cbn [split_line].
  destruct (Z.eqb_spec c ":"%ch) as [->|Hc]; [split_and!; [done|by intros ?%not_elem_of_nil|by right]|].
  destruct (split_line l) as [k v]. cbn [fst snd] in *. destruct IH as (-> & Hk & Hv). split_and!; [done| |done].
  intros [E|Hin]%elem_of_cons; [by apply Hc|done].
Qed.

(** libcurl hands over a line at a time, and gives up like for bodies; [calls] are
    the memory, the address and the size of each. *)
Fixpoint receive_headers (rimpl : Z) (calls : list (mem * Z * Z)) : M bool :=
  match calls with
  | [] => ret true
  | (m, data, count) :: calls =>
      let* handled := on_receive_header m data 1 count rimpl in
      if handled =? count then receive_headers rimpl calls else ret false
  end.
Definition line_call (call : mem * Z * Z) (l : list Z) : Prop :=
  let '(m, data, count) := call in 0 < data /\ count = Zlen l + 2 /\ holds m data (l ++ [CR; LF]) /\ Zlen l < 2 ^ 61.
Definition line_ok (l : list Z) : Prop := l = [] \/ line_name l <> [] /\ header_name (line_name l).

Definition line_for (q l : list Z) : option (list Z) := if decide (same_name (line_name l) q) then Some (line_value l) else None.
(** The value of the last of the lines with a name. *)
Definition last_value (lines : list (list Z)) (q : list Z) : option (list Z) := last (omap (line_for q) lines).

Lemma last_value_cons l lines q : last_value (l :: lines) q = match last_value lines q with Some v => Some v | None => line_for q l end.
Proof.
  unfold last_value. change (omap (line_for q) (l :: lines)) with
    (match line_for q l with Some v => v :: omap (line_for q) lines | None => omap (line_for q) lines end).
  destruct (line_for q l) as [v|]; [|by destruct (last _)]. by rewrite last_cons.
Qed.

(** The last line with a name, and the value of a line: what is behind the colon and the blanks after it. *)
Definition last_line (lines : list (list Z)) (q : list Z) : option (list Z) := last (filter (fun l => same_name (line_name l) q) lines).
Definition header_value (l : list Z) : list Z := let v := tail (line_value l) in drop (Z.to_nat (scan_len is_blank v)) v.

Lemma last_value_line lines q : last_value lines q = line_value <$> last_line lines q.
Proof.
  unfold last_line. induction lines as [|l lines IH]; [done|]. rewrite last_value_cons, IH, filter_cons. unfold line_for. case_decide as Hq.
  - rewrite last_cons. by destruct (last (filter _ lines)).
  - by destruct (last (filter _ lines)).
Qed.

Lemma line_value_lead l : exists lead, line_value l = lead ++ header_value l /\ Forall (fun c => c = ":"%ch \/ is_blank c = true) lead.
Proof.
  destruct (split_line_spec l) as (_ & _ & Hv). unfold header_value. destruct (line_value l) as [|c v]; [by exists []|]. cbn [tail].
  exists (c :: take (Z.to_nat (scan_len is_blank v)) v). split; [cbn; by rewrite take_drop|]. constructor.
  - left. destruct Hv as [Hv|Hv]; [done|]. simpl in Hv. congruence.
  - destruct (scan_len_split is_blank v) as (l1 & l2 & -> & Hlen & Hl1 & _). rewrite <-Hlen. unfold Zlen. rewrite Nat2Z.id, take_app_length.
    eapply Forall_impl; [exact Hl1|]. intros x Hx. by right.
Qed.

(** The headers [p] of [n] have the entries [mp]. *)
Definition holds_map (n : net) (p : Z) (mp : headers_map) : Prop :=
  exists x, cells (collections n) !! p = Some x /\ header_map x = mp /\ defaults x = 0.

(** One line. *)
Lemma receive_line n p x m data count l mp : p <> 0 -> responses n !! p = Some x -> holds_map n (p_headers x) mp ->
  line_call (m, data, count) l -> line_ok l ->
  exists n', on_receive_header m data 1 count p n = Ok (n', inr count) /\ responses n' = responses n /\
    holds_map n' (p_headers x) (if decide (l = []) then mp else map_assign mp (line_name l) (line_value l)).
Proof.
  intros Hp Hx (y & Hy & Hmp & Hd) (Hdata & -> & Hm & Hlen) Hok. pose proof (Zlen_nonneg l).
  unfold on_receive_header. zfalse (p =? 0). cbn [negb]. replace (u64 (1 * (Zlen l + 2))) with (Zlen l + 2) by (unfold u64; rewrite Z.mod_small; lia).
  rewrite (store_header_line m p data l n x Hx Hm) by lia. destruct (decide (l = [])) as [->|Hne]; [rewrite bool_decide_true by done|rewrite bool_decide_false by done].
  { exists n. split_and!; [done..|by exists y]. }
  destruct Hok as [|[Hname Hhn]]; [done|]. destruct (split_line_spec l) as (Hsplit & Hcolon & Hval).
  unfold add_header, andthen, get, lift. cbn [bind].
  rewrite (headers_add_line m (collections n) (p_headers x) y (view_of_length data (Zlen l)) (line_name l) (line_value l)); try done.
  - eexists. split_and!; [done..|]. simpl. unfold holds_map. simpl. rewrite lookup_insert_eq, Hmp. eexists. by split_and!.
  - rewrite <- Hsplit. lia.
  - rewrite <- Hsplit. apply holds_app in Hm as [Hm _]. by split_and!.
Qed.

Lemma receive_headers_spec calls lines : forall n p x mp, p <> 0 -> responses n !! p = Some x -> holds_map n (p_headers x) mp ->
  named mp -> Forall2 line_call calls lines -> Forall line_ok lines ->
  exists n' mp', receive_headers p calls n = Ok (n', inr true) /\ responses n' = responses n /\ holds_map n' (p_headers x) mp' /\
    forall q, q <> [] -> header_name q -> map_find mp' q = match last_value lines q with Some v => Some v | None => map_find mp q end.
Proof.
  intros n p x mp Hp Hx Hmp Hnamed Hcalls. revert n mp Hx Hmp Hnamed.
  induction Hcalls as [|[[m data] count] l calls lines Hcall _ IH]; intros n mp Hx Hmp Hnamed Hok; [by exists n, mp|].
  apply Forall_cons in Hok as [Hl Hok]. destruct (receive_line n p x m data count l mp) as (n1 & Hrun & Hr1 & Hmp1); [done..|].
  edestruct (IH n1) as (n' & mp' & Hrun' & Hr' & Hmp' & Hfind); [by rewrite Hr1|exact Hmp1| |done|].
  { case_decide as Hne; [done|]. destruct Hl as [|[_ Hhn]]; [done|]. by apply map_assign_named. }
  exists n', mp'. split_and!; [|by rewrite Hr'|done|].
  - cbn [receive_headers]. unfold andthen. rewrite Hrun. cbn [bind]. by rewrite Z.eqb_refl.
  - intros q Hq Hqn. rewrite Hfind, last_value_cons by done. destruct (last_value lines q) as [v|]; [done|]. unfold line_for.
    case_decide as Hne.
    + subst l. rewrite decide_False; [done|]. intros E. destruct q; [done|]. by apply (f_equal Datatypes.length) in E.
    + destruct Hl as [|[_ Hhn]]; [done|]. rewrite map_find_assign by done. by case_decide.
Qed.

(** ** Bodies *)

Lemma receive_spec chunks : forall n p s st body, p <> 0 -> holds_body n p s st body -> Zlen body <= max_body ->
  Forall (fun c => Zlen c < 2 ^ 62) chunks -> chunks <> [] ->
  exists n' b body', receive p chunks n = Ok (n', inr b) /\
    holds_body n' p s (accepting st) body' /\
    (b = true -> body' = body ++ concat chunks /\ Zlen body' <= max_body) /\
    (b = false -> body' = take (Z.to_nat max_body) (body ++ concat chunks) /\ max_body < Zlen (body ++ concat chunks)).
Proof.
  induction chunks as [|c chunks IH]; intros n p s st body Hp Hbody Hmax Hsmall Hne; [done|]. inversion Hsmall as [|? ? Hc Hcs]; subst.
  cbn [receive concat]. unfold on_receive_data. zfalse (p =? 0). cbn [negb].
  replace (u64 (1 * Zlen c)) with (Zlen c) by (unfold u64; rewrite Z.mod_small; pose proof (Zlen_nonneg c); lia).
  destruct (store_bytes_spec n p s st body c Hbody Hmax Hc) as (n1 & Hrun & Hbody1).
  unfold andthen at 1. rewrite Hrun. cbn [bind]. pose proof (Zlen_nonneg c). pose proof (Zlen_nonneg body). pose proof (Zlen_nonneg (concat chunks)).
  destruct (Z.eqb_spec (Z.min (Zlen c) (max_body - Zlen body)) (Zlen c)) as [Hall|Hpart].
  - rewrite Hall, take_ge in Hbody1 by (unfold Zlen; lia).
    assert (Zlen (body ++ c) <= max_body) by (rewrite Zlen_app; lia).
    destruct chunks as [|c' chunks].
    + exists n1, true, (body ++ c). cbn [receive concat]. rewrite app_nil_r. split; [done|]. split; [done|]. split; [done|done].
    + destruct (IH n1 p s (accepting st) (body ++ c)) as (n' & b & body' & Hrun' & Hbody' & Ht & Hf); [done..|].
      exists n', b, body'. split; [exact Hrun'|]. replace (accepting (accepting st)) with (accepting st) in Hbody' by (by destruct st).
      rewrite <-app_assoc in Ht, Hf. done.
  - exists n1, false. eexists. split; [done|]. split; [done|]. split; [done|]. intros _. rewrite take_bounded_app by done.
    rewrite (app_assoc body). rewrite (take_app_le (body ++ c)); [split; [done|]|]; rewrite ?Zlen_app; unfold Zlen in *; rewrite ?length_app; lia.
Qed.

(** C25: however libcurl cuts a body into chunks, the response stores the body while
    it fits in 16777215 bytes, answers with the size of each chunk, and so receives
    all of it; of a longer body it stores exactly that many bytes and then answers
    with less, so that libcurl gives up; the first chunk moves a session that is
    requesting to accepting_response. *)
Theorem body_received n p s st chunks : p <> 0 -> holds_body n p s st [] -> Forall (fun c => Zlen c < 2 ^ 62) chunks -> chunks <> [] ->
  exists n', receive p chunks n = Ok (n', inr (Zlen (concat chunks) <=? max_body)) /\
    holds_body n' p s (accepting st) (take (Z.to_nat max_body) (concat chunks)).
Proof.
  intros Hp Hbody Hsmall Hne.
  destruct (receive_spec chunks n p s st []) as (n' & b & body' & Hrun & Hbody' & Ht & Hf); [done|done|done|done|done|].
  exists n'. rewrite Hrun. cbn [app] in *. destruct b.
  - destruct (Ht eq_refl) as [-> Hle]. ztrue (Zlen (concat chunks) <=? max_body). split; [done|]. rewrite take_ge; [done|unfold Zlen in Hle; lia].
  - destruct (Hf eq_refl) as [-> Hlt]. zfalse (Zlen (concat chunks) <=? max_body). done.
Qed.

(** A session that has sent its request. *)
Definition sent_net : net := Eval vm_compute in
  match (let* s := new_default_session in session_start_get any_printf (fun _ _ => 0) s (Some (str "a"))) net_empty with
  | Ok (n, _) => n | _ => net_empty end.

Lemma body_received_witness : exists n',
  receive 4 [str "abc"; []; str "de"] sent_net = Ok (n', inr true) /\ holds_body n' 4 2 accepting_response (str "abcde").
Proof.
  destruct (body_received sent_net 4 2 requesting [str "abc"; []; str "de"]) as (n' & Hrun & Hbody).
  - done.
  - split; eexists; (split; [reflexivity|]); done.
  - repeat (constructor; [done|]). constructor.
  - done.
  - exists n'. split; [exact Hrun|exact Hbody].
Defined.

(** C26: however many lines libcurl hands over for the headers of a response, each ended by CR LF, in whatever
    memory, each is accepted, and afterwards the headers have exactly the names of the lines, up to case. What they
    have for a name ends in the value of the last line with that name, which is what follows the colon and the
    blanks; before it can stand only the colon and blanks, as the code keeps them there (headers_add_line). The name
    of each line, up to the first colon, is not empty and, like the name asked for, has no NUL and no char between
    'Z' and 'a' ([line_ok]); a line without colon is a name with an empty value; the empty line at the end changes
    nothing. *)
Theorem headers_received n p x calls lines : p <> 0 -> responses n !! p = Some x -> p_headers x <> 0 -> holds_map n (p_headers x) [] ->
  Forall2 line_call calls lines -> Forall line_ok lines ->
  exists n', receive_headers p calls n = Ok (n', inr true) /\ responses n' = responses n /\
    forall m query q, shows m query q -> q <> [] -> header_name q ->
      match last_line lines q with
      | None => headers_get m (collections n') (p_headers x) query = Ok None
      | Some l => exists lead, headers_get m (collections n') (p_headers x) query = Ok (Some (lead ++ header_value l)) /\
          Forall (fun c => c = ":"%ch \/ is_blank c = true) lead
      end.
Proof.
  intros Hp Hx Hhp Hmp Hcalls Hok.
  destruct (receive_headers_spec calls lines n p x []) as (n' & mp' & Hrun & Hr & (y & Hy & Hmap & Hd) & Hfind); [done|done|done|constructor|done|done|].
  exists n'. split_and!; [done..|]. intros m query q Hq Hne Hqn.
  assert (headers_get m (collections n') (p_headers x) query = Ok (last_value lines q)) as ->.
  { unfold headers_get, view_bool, is_empty. pose proof Hq as (_ & -> & _).
    assert (Zlen q <> 0) as Hlen by (destruct q; [done|]; rewrite Zlen_cons; pose proof (Zlen_nonneg q); lia). zfalse (Zlen q =? 0). cbn [negb].
    rewrite (load_range_view _ _ _ Hq). cbn [bind].
    assert (chain (collections n') (p_headers x) [(p_headers x, y)]) as Hchain by (by split_and!).
    rewrite (impl_get_spec _ _ [(p_headers x, y)]); [|done|done|by eapply chain_fuel]. cbn [layered]. rewrite Hmap, Hfind by done.
    by destruct (last_value lines q). }
  rewrite last_value_line. destruct (last_line lines q) as [l|]; [|done]. cbn [fmap option_fmap option_map].
  destruct (line_value_lead l) as (lead & -> & Hlead). by exists lead.
Qed.

Definition status_lines : list (list Z) := [str "HTTP/1.1 200 OK"; str "Via: a"; str "Server: x"; str "VIA: b"; []].
Definition line_at (l : list Z) : mem * Z * Z := (map_seqZ 500 (l ++ [CR; LF]), 500, Zlen l + 2).

Lemma headers_received_witness : exists n', receive_headers 4 (map line_at status_lines) sent_net = Ok (n', inr true) /\
  exists x lead, responses sent_net !! 4 = Some x /\
  headers_get (cstr_at 16 "via") (collections n') (p_headers x) (view_of_length 16 3) = Ok (Some (lead ++ str "b")).
Proof.
  destruct (responses sent_net !! 4) as [x|] eqn:Hx; [|vm_compute in Hx; discriminate].
  destruct (headers_received sent_net 4 x (map line_at status_lines) status_lines) as (n' & Hrun & _ & Hget).
  - discriminate.
  - exact Hx.
  - vm_compute in Hx. injection Hx as <-. discriminate.
  - vm_compute in Hx. injection Hx as <-. eexists. split; [reflexivity|]. by split.
  - repeat constructor; try (vm_compute; done).
  - unfold status_lines. repeat (apply Forall_cons; split); [..|constructor]; first [by left|right; split; [discriminate|decided]].
  - exists n'. split; [exact Hrun|].
    specialize (Hget (cstr_at 16 "via") (view_of_length 16 3) (str "via")).
    change (last_line status_lines (str "via")) with (Some (str "VIA: b")) in Hget.
    destruct Hget as (lead & Hget & _); [|discriminate|decided|].
    + split; [cbn; lia|]. split; [reflexivity|]. decided.
    + exists x, lead. split; [done|exact Hget].
Defined.
