(* ===== verification/CurlReactor.v ===== *)
(** * Sockets, timers and the end of transfers: channel.cpp and libcurl_callbacks.cpp

    The part of a channel that its thread works with: the sockets by file
    descriptor, the handlers queued with asio, the timer, and the pointers that
    libcurl keeps for the sockets.  What libcurl does inside
    [curl_multi_socket_action] is an argument. *)

From stdpp Require Import base tactics list gmap strings.
From Stdlib Require Import ZArith Lia.
From S2P Require Import Prelude CString StrView StdString Headers HttpMethod Arg Interp Curl.
#[local] Open Scope Z_scope.

Definition CURL_POLL_IN : Z := 1.
Definition CURL_POLL_OUT : Z := 2.
Definition CURL_POLL_INOUT : Z := 3.
Definition CURL_POLL_REMOVE : Z := 4.
Definition CURL_SOCKET_BAD : Z := -1.
Definition CURLSOCKTYPE_IPCXN : Z := 0.
Definition AF_INET : Z := 2.
Definition CURLMSG_DONE : Z := 1.

(** An [int *] of the code points at the socket state of a session, or at the
    session itself, whose first member is its id. *)
Inductive int_ptr : Type :=
| socket_state_of (s : Z)
| session_itself (s : Z).

(** A handler queued with asio: [on_socket_event], or a posted cleanup. *)
Inductive handler : Type :=
| read_ready (tcp_socket event : Z) (socket_state : int_ptr)
| write_ready (tcp_socket event : Z) (socket_state : int_ptr)
| posted_cleanup (s : Z).

(** [sockets] are the live [asio_socket_t], each with its descriptor if it is
    open; [assigned] is what [curl_multi_assign] set. *)
Record reactor : Type := {
  sockets : gmap Z (option Z);
  next_socket : Z;
  socket_map : gmap Z Z;
  queue : list handler;
  timer : option Z;
  assigned : gmap Z int_ptr;
  still_running : Z;
}.

Definition with_sockets (x : reactor) (v : gmap Z (option Z)) : reactor :=
  {| sockets := v; next_socket := next_socket x; socket_map := socket_map x; queue := queue x; timer := timer x; assigned := assigned x; still_running := still_running x |}.
Definition with_next_socket (x : reactor) (v : Z) : reactor :=
  {| sockets := sockets x; next_socket := v; socket_map := socket_map x; queue := queue x; timer := timer x; assigned := assigned x; still_running := still_running x |}.
Definition with_socket_map (x : reactor) (v : gmap Z Z) : reactor :=
  {| sockets := sockets x; next_socket := next_socket x; socket_map := v; queue := queue x; timer := timer x; assigned := assigned x; still_running := still_running x |}.
Definition with_queue (x : reactor) (v : list handler) : reactor :=
  {| sockets := sockets x; next_socket := next_socket x; socket_map := socket_map x; queue := v; timer := timer x; assigned := assigned x; still_running := still_running x |}.
Definition with_timer (x : reactor) (v : option Z) : reactor :=
  {| sockets := sockets x; next_socket := next_socket x; socket_map := socket_map x; queue := queue x; timer := v; assigned := assigned x; still_running := still_running x |}.
Definition with_assigned (x : reactor) (v : gmap Z int_ptr) : reactor :=
  {| sockets := sockets x; next_socket := next_socket x; socket_map := socket_map x; queue := queue x; timer := timer x; assigned := v; still_running := still_running x |}.

Definition read_int (p : int_ptr) : M Z :=
  match p with
  | socket_state_of s => let* x := session_at s in ret (s_socket_state x)
  | session_itself s => let* x := session_at s in ret (s_id x)
  end.
Definition with_s_id (x : session_impl) (v : Z) : session_impl :=
  {| s_id := v; s_channel := s_channel x; s_request := s_request x; s_response := s_response x; s_easy := s_easy x;
     s_error := s_error x; s_state := s_state x; s_socket_state := s_socket_state x |}.
Definition write_int (p : int_ptr) (v : Z) : M unit :=
  match p with
  | socket_state_of s => let* x := session_at s in put_session s (with_s_socket_state x v)
  | session_itself s => let* x := session_at s in put_session s (with_s_id x v)
  end.

(** ** Sockets *)

(** [ec] says whether opening failed, [fd] is the descriptor otherwise.
    [insert] does not replace an entry. *)
Definition on_open_socket (x : reactor) (chimpl purpose family : Z) (ec : bool) (fd : Z) : reactor * Z :=
  if negb (chimpl =? 0) then
    if (purpose =? CURLSOCKTYPE_IPCXN) && (family =? AF_INET) then
      let tcp_socket := next_socket x in
      let x := with_next_socket x (tcp_socket + 1) in
      if ec then (with_sockets x (<[tcp_socket := None]> (sockets x)), CURL_SOCKET_BAD)
      else
        let x := with_sockets x (<[tcp_socket := Some fd]> (sockets x)) in
        (match socket_map x !! fd with
         | None => with_socket_map x (<[fd := tcp_socket]> (socket_map x))
         | Some _ => x
         end, fd)
    else (x, CURL_SOCKET_BAD)
  else (x, CURL_SOCKET_BAD).

Definition on_close_socket (x : reactor) (chimpl item : Z) : res reactor :=
  if negb (chimpl =? 0) then
    match socket_map x !! item with
    | Some tcp_socket =>
        match sockets x !! tcp_socket with
        | Some _ => Ok (with_socket_map (with_sockets x (delete tcp_socket (sockets x))) (delete item (socket_map x)))
        | None => Undef
        end
    | None => Ok x
    end
  else Ok x.

Definition queue_callback_when_socket_is_ready (x : reactor) (socket_state : int_ptr) (tcp_socket : Z) : M reactor :=
  let* desired_state := read_int socket_state in
  let add hs := ret (with_queue x (queue x ++ hs)) in
  if desired_state =? CURL_POLL_IN then add [read_ready tcp_socket desired_state socket_state]
  else if desired_state =? CURL_POLL_OUT then add [write_ready tcp_socket desired_state socket_state]
  else if desired_state =? CURL_POLL_INOUT then
    add [read_ready tcp_socket desired_state socket_state; write_ready tcp_socket desired_state socket_state]
  else ret x.

Definition change_socket_state (x : reactor) (socket_state : int_ptr) (sock desired_state : Z) : M reactor :=
  match socket_map x !! sock with
  | None => ret x
  | Some tcp_socket =>
      let* _ := write_int socket_state desired_state in
      queue_callback_when_socket_is_ready x socket_state tcp_socket
  end.

(** The [CURLINFO_PRIVATE] of an easy handle. *)
Definition private_of (s : Z) : M Z :=
  let* x := session_at s in
  ret (fold_left (fun p o => match o with CURLOPT_PRIVATE t => t | _ => p end) (s_easy x) 0).

(** [easy] is the handle of the session [s]. *)
Definition add_socket (x : reactor) (sock s desired_state : Z) : M reactor :=
  let* simpl := private_of s in
  let x := with_assigned x (<[sock := session_itself simpl]> (assigned x)) in
  change_socket_state x (socket_state_of simpl) sock desired_state.

Definition remove_socket (socket_state : int_ptr) : M unit := write_int socket_state CURL_POLL_NONE.

(** libcurl passes the pointer assigned to the socket, or null. *)
Definition on_socket_update (x : reactor) (s sock desired_state : Z) : M reactor :=
  let socket_state := assigned x !! sock in
  if desired_state =? CURL_POLL_REMOVE then
    let* simpl := private_of s in
    let* y := session_at simpl in
    if negb (bool_decide (s_state y = idle)) then
      let x := with_queue x (queue x ++ [posted_cleanup simpl]) in
      let* _ := match socket_state with Some p => remove_socket p | None => undef end in
      ret x
    else ret x
  else
    match socket_state with
    | None => add_socket x sock s desired_state
    | Some p => change_socket_state x p sock desired_state
    end.

(** ** Events *)

Definition socket_state_implies_pending_transfer (state : Z) : bool :=
  (state =? CURL_POLL_IN) || (state =? CURL_POLL_OUT) || (state =? CURL_POLL_INOUT).

Definition socket_state_descrips : list string := ["none"; "IN"; "OUT"; "INOUT"; "REMOVE"]%string.
Definition get_socket_state_descrip (state : Z) : option string :=
  socket_state_descrips !! (if (0 <? state) && (state <=? 4) then Z.to_nat state else 0%nat).

(** A message of libcurl: what it says, and the easy handle, by its session. *)
Definition message : Type := Z * Z.

Section events.
Context (effective_url : net -> Z -> list Z) (response_code : net -> Z -> Z)
  (socket_action : reactor -> Z -> Z -> M (reactor * Z)) (info_read : reactor -> list message).

Fixpoint handle_messages (msgs : list message) : M unit :=
  match msgs with
  | [] => ret tt
  | (msg, easy) :: msgs =>
      let* _ := when (msg =? CURLMSG_DONE)
        (let* simpl := private_of easy in cleanup_after_transfer effective_url response_code simpl) in
      handle_messages msgs
  end.
Definition handle_done_transfers (x : reactor) : M unit := handle_messages (info_read x).

Definition CURL_SOCKET_TIMEOUT : Z := CURL_SOCKET_BAD.

Definition on_socket_event (x : reactor) (tcp_socket event : Z) (socket_state : int_ptr) : M reactor :=
  let* start_state := read_int socket_state in
  match sockets x !! tcp_socket with
  | None => undef
  | Some handle =>
      let* (x, rc) := socket_action x (default CURL_SOCKET_BAD handle) event in
      let* _ := mcode_or_die rc in
      let* now := read_int socket_state in
      let* x := if (now =? start_state) && socket_state_implies_pending_transfer start_state
        then queue_callback_when_socket_is_ready x socket_state tcp_socket else ret x in
      let* _ := handle_done_transfers x in
      ret (if still_running x <=? 0 then with_timer x None else x)
  end.

Definition on_timeout (x : reactor) (error : bool) : M reactor :=
  if negb error then
    let* (x, rc) := socket_action x CURL_SOCKET_TIMEOUT 0 in
    let* _ := mcode_or_die rc in
    let* _ := handle_done_transfers x in ret x
  else ret x.

Definition on_adjust_timeout (x : reactor) (timeout_ms : Z) : M reactor :=
  let x := with_timer x None in
  if 0 <? timeout_ms then ret (with_timer x (Some timeout_ms))
  else if timeout_ms =? 0 then on_timeout x false
  else ret (with_timer x None).
End events.

(** * The pointer that libcurl keeps

    [add_socket] has libcurl keep a pointer to the session where the later
    callbacks expect one to its socket state: they overwrite the id. *)
Lemma write_int_spec n p s v y : (p = socket_state_of s \/ p = session_itself s) -> sessions n !! s = Some y ->
  exists y', write_int p v n = Ok (with_sessions n (<[s := y']> (sessions n)), inr tt) /\
    y' = (match p with socket_state_of _ => with_s_socket_state y v | session_itself _ => with_s_id y v end).
Proof.
  intros [->| ->] Hy; (eexists; split; [|reflexivity]); unfold write_int, session_at, put_session, set, andthen, deref; by rewrite Hy.
Qed.

Lemma queue_callback_net x p t n x' n' r : queue_callback_when_socket_is_ready x p t n = Ok (n', r) -> r = inr x' ->
  n' = n /\ socket_map x' = socket_map x /\ assigned x' = assigned x.
Proof.
  intros Hrun ->. unfold queue_callback_when_socket_is_ready, read_int, andthen in Hrun.
  assert (exists v, (match p with socket_state_of s => let* y := session_at s in ret (s_socket_state y)
    | session_itself s => let* y := session_at s in ret (s_id y) end) n = Ok (n, inr v)) as [v Hv].
  { destruct p; unfold session_at, deref, andthen in *; destruct (sessions n !! s); simpl in *; try done; by eexists. }
  unfold andthen in Hv. rewrite Hv in Hrun. cbn [bind] in Hrun. unfold ret in Hrun. repeat case_match; by injection Hrun as <- <-.
Qed.

Lemma second_update_overwrites_id x n s sock d1 d2 t y x1 n1 x2 n2 : sessions n !! s = Some y -> private_of s n = Ok (n, inr s) ->
  socket_map x !! sock = Some t -> assigned x !! sock = None -> d1 <> CURL_POLL_REMOVE -> d2 <> CURL_POLL_REMOVE ->
  on_socket_update x s sock d1 n = Ok (n1, inr x1) -> on_socket_update x1 s sock d2 n1 = Ok (n2, inr x2) ->
  exists y2, sessions n2 !! s = Some y2 /\ s_id y2 = d2 /\ s_socket_state y2 = d1.
Proof.
  intros Hy Hpriv Hmap Hnone Hd1 Hd2 Hrun1 Hrun2. unfold on_socket_update in Hrun1. rewrite (proj2 (Z.eqb_neq d1 _) Hd1), Hnone in Hrun1.
  unfold add_socket in Hrun1. rewrite (andthen_ok _ _ n n s Hpriv) in Hrun1.
  set (x0 := with_assigned x (<[sock := session_itself s]> (assigned x))) in *.
  unfold change_socket_state in Hrun1. change (socket_map x0) with (socket_map x) in Hrun1. rewrite Hmap in Hrun1.
  destruct (write_int_spec n (socket_state_of s) s d1 y) as (y1 & Hw & ->); [by left|done|]. rewrite (andthen_ok _ _ _ _ _ Hw) in Hrun1.
  destruct (queue_callback_net _ _ _ _ _ _ _ Hrun1 eq_refl) as (-> & Hm1 & Ha1).
  unfold on_socket_update in Hrun2. rewrite (proj2 (Z.eqb_neq d2 _) Hd2), Ha1 in Hrun2. unfold x0 in Hrun2 at 1. simpl in Hrun2.
  rewrite lookup_insert_eq in Hrun2. unfold change_socket_state in Hrun2. rewrite Hm1 in Hrun2. change (socket_map x0) with (socket_map x) in Hrun2.
  rewrite Hmap in Hrun2. match type of Hrun2 with (andthen _ _) ?m = _ => set (m1 := m) in * end.
  destruct (write_int_spec m1 (session_itself s) s d2 (with_s_socket_state y d1)) as (y2 & Hw2 & ->); [by right|apply lookup_insert_eq|].
  rewrite (andthen_ok _ _ _ _ _ Hw2) in Hrun2. destruct (queue_callback_net _ _ _ _ _ _ _ Hrun2 eq_refl) as (-> & _ & _).
  eexists. split; [apply lookup_insert_eq|]. done.
Qed.

(** * The sockets of a channel *)

Inductive socket_op : Type :=
| open_socket (purpose family : Z) (ec : bool) (fd : Z)
| close_socket (item : Z).

Definition run_socket_op (x : reactor) (o : socket_op) : res reactor :=
  match o with
  | open_socket purpose family ec fd => Ok (on_open_socket x 1 purpose family ec fd).1
  | close_socket item => on_close_socket x 1 item
  end.
Fixpoint run_socket_ops (x : reactor) (os : list socket_op) : res reactor :=
  match os with
  | [] => Ok x
  | o :: os => let! x := run_socket_op x o in run_socket_ops x os
  end.

(** The sockets that are created and stay in no table: the ones whose opening
    failed. *)
Definition fails_to_open (o : socket_op) : bool :=
  match o with open_socket purpose family ec _ => (purpose =? CURLSOCKTYPE_IPCXN) && (family =? AF_INET) && ec | _ => false end.
Definition failures (os : list socket_op) : nat := Datatypes.length (filter (fun o => fails_to_open o = true) os).

(** The system gives out descriptors that are not in use. *)
Fixpoint fresh_descriptors (x : reactor) (os : list socket_op) : Prop :=
  match os with
  | [] => True
  | o :: os =>
      match o with open_socket _ _ false fd => socket_map x !! fd = None | _ => True end /\
      match run_socket_op x o with Ok x => fresh_descriptors x os | _ => True end
  end.

(** The table maps each descriptor to the live socket that is open at it. *)
Record tracks (x : reactor) : Prop := {
  tr_live : forall fd t, socket_map x !! fd = Some t -> sockets x !! t = Some (Some fd);
  tr_open : forall fd t, sockets x !! t = Some (Some fd) -> socket_map x !! fd = Some t;
  tr_next : forall t o, sockets x !! t = Some o -> t < next_socket x;
}.

Lemma run_socket_op_tracks x o : tracks x -> (match o with open_socket _ _ false fd => socket_map x !! fd = None | _ => True end) ->
  exists x', run_socket_op x o = Ok x' /\ tracks x' /\
    (size (sockets x') + size (socket_map x) = size (sockets x) + size (socket_map x') + (if fails_to_open o then 1 else 0))%nat.
Proof.
  intros [Hlive Hopen Hnext] Hfresh.
  assert (sockets x !! next_socket x = None) as Hnew.
  { destruct (sockets x !! next_socket x) as [o'|] eqn:Ho; [|done]. apply Hnext in Ho. lia. }
  destruct o as [purpose family ec fd|item]; cbn [run_socket_op fails_to_open].
  - unfold on_open_socket. change (negb (1 =? 0)) with true. cbn match.
    destruct ((purpose =? CURLSOCKTYPE_IPCXN) && (family =? AF_INET)); cbn [andb].
    2: { exists x. split; [done|]. split; [by split|lia]. }
    destruct ec; cbn [fst].
    + eexists. split; [done|]. split; [|simpl; rewrite (map_size_insert_None _ _ _ Hnew); lia]. split; simpl.
      * intros f t Hf. rewrite lookup_insert_ne; [by apply Hlive|]. intros <-. apply Hlive in Hf. congruence.
      * intros f t Ht. destruct (decide (t = next_socket x)) as [->|]; [by rewrite lookup_insert_eq in Ht|].
        rewrite lookup_insert_ne in Ht by done. by apply Hopen.
      * intros t o Ht. destruct (decide (t = next_socket x)) as [->|]; [lia|]. rewrite lookup_insert_ne in Ht by done. apply Hnext in Ht. lia.
    + simpl. rewrite Hfresh. eexists. split; [done|]. split; [|simpl; rewrite (map_size_insert_None _ _ _ Hnew), (map_size_insert_None _ _ _ Hfresh); lia].
      split; simpl.
      * intros f t Hf. destruct (decide (f = fd)) as [->|]; [rewrite lookup_insert_eq in Hf; injection Hf as <-; by rewrite lookup_insert_eq|].
        rewrite lookup_insert_ne in Hf by done. rewrite lookup_insert_ne; [by apply Hlive|]. intros <-. apply Hlive in Hf. congruence.
      * intros f t Ht. destruct (decide (t = next_socket x)) as [->|].
        -- rewrite lookup_insert_eq in Ht. injection Ht as <-. by rewrite lookup_insert_eq.
        -- rewrite lookup_insert_ne in Ht by done. apply Hopen in Ht. rewrite lookup_insert_ne; [done|]. congruence.
      * intros t o Ht. destruct (decide (t = next_socket x)) as [->|]; [lia|]. rewrite lookup_insert_ne in Ht by done. apply Hnext in Ht. lia.
  - unfold on_close_socket. change (negb (1 =? 0)) with true. cbn match. destruct (socket_map x !! item) as [t|] eqn:Ht.
    2: { exists x. split; [done|]. split; [by split|lia]. }
    pose proof (Hlive item t Ht) as Hs. rewrite Hs. eexists. split; [done|]. split.
    2: { simpl. rewrite !map_size_delete_Some by (by eexists).
         assert (size (sockets x) <> 0%nat) by (intros H0%map_size_empty_inv; rewrite H0 in Hs; by rewrite lookup_empty in Hs).
         assert (size (socket_map x) <> 0%nat) by (intros H0%map_size_empty_inv; rewrite H0 in Ht; by rewrite lookup_empty in Ht). lia. }
    split; simpl.
    + intros f u [Hne Hf]%lookup_delete_Some. rewrite lookup_delete_ne; [by apply Hlive|]. intros <-. apply Hlive in Hf. congruence.
    + intros f u [Hne Hu]%lookup_delete_Some. rewrite lookup_delete_ne; [by apply Hopen|]. intros <-. apply Hopen in Hu. congruence.
    + intros u o [_ Hu]%lookup_delete_Some. by eapply Hnext.
Qed.

(** C24: however libcurl opens and closes sockets on a channel, no socket is deleted
    twice, and the table of the channel always maps exactly the descriptors in use
    to the live sockets open at them; the live sockets that are in no table, and
    are never deleted, are the ones whose opening failed. *)
Theorem sockets_tracked x os : tracks x -> fresh_descriptors x os ->
  exists x', run_socket_ops x os = Ok x' /\ tracks x' /\
    (size (sockets x') + size (socket_map x) = size (sockets x) + size (socket_map x') + failures os)%nat.
Proof.
  revert x. induction os as [|o os IH]; intros x Hx Hfresh; cbn [run_socket_ops]; [exists x; split; [done|]; split; [done|unfold failures; simpl; lia]|].
  destruct Hfresh as [Ho Hos]. destruct (run_socket_op_tracks x o Hx Ho) as (x1 & Hrun & Hx1 & Hsize). rewrite Hrun in *. cbn [bind].
  destruct (IH x1 Hx1 Hos) as (x' & -> & Hx' & Hsize'). exists x'. split; [done|]. split; [done|].
  unfold failures in *. rewrite filter_cons. destruct (fails_to_open o); case_decide; simpl; (done || lia).
Qed.

Definition no_sockets : reactor := {| sockets := ∅; next_socket := 1; socket_map := ∅; queue := []; timer := None; assigned := ∅; still_running := 1 |}.

Lemma sockets_tracked_witness : exists x',
  run_socket_ops no_sockets [open_socket 0 2 false 7; open_socket 0 2 true 0; close_socket 7; close_socket 7] = Ok x' /\ tracks x' /\
    (size (sockets x') + size (socket_map no_sockets) = size (sockets no_sockets) + size (socket_map x') + 1)%nat.
Proof.
  apply (sockets_tracked no_sockets [open_socket 0 2 false 7; open_socket 0 2 true 0; close_socket 7; close_socket 7]).
  - split; simpl; intros * H; by rewrite lookup_empty in H.
  - repeat split.
Defined.
