(* ===== verification/JsonText.v ===== *)
(** * Numbers and strings as JSON text: core/data/json/tool.h and the functions of
    writer.cpp that value.cpp and the writers share

    [printf_17g] is what the C library's [snprintf] makes of a finite double with
    ["%.17g"].  [negate_min] is what [-x] gives for the least [int64_t], where the
    result does not fit: [Undef] by the language, the same number again on the
    compilers and targets where negation wraps. *)

From stdpp Require Import base tactics list strings.
From Stdlib Require Import ZArith Lia SpecFloat.
From S2P Require Import Prelude CString StdString ScanNumbers Unicode.
#[local] Open Scope Z_scope.

(** ** tool.h *)


Definition codepoint_to_utf8 (cp : Z) : list Z :=
  if cp <=? 0x7f then [to_char cp]
  else if cp <=? 0x7FF then
    [to_char (Z.lor 0xC0 (Z.land 0x1f (Z.shiftr cp 6))); to_char (Z.lor 0x80 (Z.land 0x3f cp))]
  else if cp <=? 0xFFFF then
    [to_char (Z.lor 0xE0 (Z.land 0xf (Z.shiftr cp 12))); to_char (Z.lor 0x80 (Z.land 0x3f (Z.shiftr cp 6)));
     to_char (Z.lor 0x80 (Z.land 0x3f cp))]
  else if cp <=? 0x10FFFF then
    [to_char (Z.lor 0xF0 (Z.land 0x7 (Z.shiftr cp 18))); to_char (Z.lor 0x80 (Z.land 0x3f (Z.shiftr cp 12)));
     to_char (Z.lor 0x80 (Z.land 0x3f (Z.shiftr cp 6))); to_char (Z.lor 0x80 (Z.land 0x3f cp))]
  else [].

Definition is_control_char (ch : Z) : bool := (0 <? ch) && (ch <=? 0x1F).

Definition uint_to_string_buffer_size : Z := 3 * 8 + 1.

(** Writes before [current], in a buffer that begins at 0: [current] and the chars from
    there on.  Writing before the buffer is undefined. *)
Definition put_before (c : Z) '((current, chars) : Z * list Z) : res (Z * list Z) :=
  if 0 <? current then Ok (current - 1, c :: chars) else Undef.

Definition uint_to_string (n : Z) (current : Z * list Z) : res (Z * list Z) :=
  let! current := put_before 0 current in
  iterate 65 (fun '(n, current) =>
    let! current := put_before (to_char (n mod 10) + "0"%ch) current in
    if negb (n / 10 =? 0) then Ok (inl (n / 10, current)) else Ok (inr current)) (n, current).

Definition fix_numeric_locale (s : list Z) : list Z := map (fun c => if c =? ","%ch then "."%ch else c) s.

(** ** value_to_string *)

Section text.
Context (negate_min : res Z) (printf_17g : double -> list Z).

(** [-x] on [int64_t]. *)
Definition negate (x : Z) : res Z := if x =? - 2 ^ 63 then negate_min else Ok (- x).

Definition largest_int_to_string (value : Z) : res (list Z) :=
  let is_negative := value <? 0 in
  let! value := if is_negative then negate value else Ok value in
  let! current := uint_to_string (u64 value) (uint_to_string_buffer_size, []) in
  let! current := if is_negative then put_before "-"%ch current else Ok current in
  Ok (c_str current.2).

Definition largest_uint_to_string (value : Z) : res (list Z) :=
  let! current := uint_to_string value (uint_to_string_buffer_size, []) in
  Ok (c_str current.2).

Definition is_finite (d : double) : bool :=
  match d with S754_zero _ | S754_finite _ _ _ => true | _ => false end.

(** [buffer] has 32 chars; [snprintf] cuts what it prints, but gives the length
    of the whole. *)
Definition double_to_string (d : double) : res (list Z) :=
  let printed :=
    if is_finite d then printf_17g d
    else if negb (SFeqb d d) then str "null"
    else if SFltb d (S754_zero false) then str "-1e+9999"
    else str "1e+9999" in
  if 32 <? Zlen printed then Undef
  else Ok (c_str (fix_numeric_locale (take 31 printed))).

Definition bool_to_string (b : bool) : list Z := if b then str "true" else str "false".
End text.

(** ** value_to_quoted_string *)

(** [contains_control_char], on the chars of a C string. *)
Definition contains_control_char (s : list Z) : bool := existsb is_control_char s.
Definition contains_control_char0 (s : list Z) : bool := existsb (fun c => is_control_char c || (c =? 0)) s.

(** [strpbrk] and [strnpbrk] against the same chars, as a test. *)
Definition has_special (s : list Z) : bool :=
  existsb (fun c => (c =? DQUOTE) || (c =? BACKSLASH) || (c =? 8) || (c =? 12) || (c =? LF) || (c =? CR) || (c =? TAB)) s.

(** [std::hex << std::uppercase << std::setfill('0') << std::setw(4)]. *)
Definition hex_digit (n : Z) : Z := if n <? 10 then "0"%ch + n else "A"%ch + (n - 10).
Fixpoint hex_digits (fuel : nat) (n : Z) (acc : list Z) : list Z :=
  match fuel with
  | O => acc
  | S fuel' =>
      let acc := hex_digit (n mod 16) :: acc in
      if n / 16 =? 0 then acc else hex_digits fuel' (n / 16) acc
  end.
Definition setw4_hex (n : Z) : list Z :=
  let digits := hex_digits 8 (u32 n) [] in replicate (4 - length digits) "0"%ch ++ digits.

(** One char of the loops; [control] is the test of the default case. *)
Definition escape_char (control : Z -> bool) (c : Z) : list Z :=
  if c =? DQUOTE then [BACKSLASH; DQUOTE]
  else if c =? BACKSLASH then [BACKSLASH; BACKSLASH]
  else if c =? 8 then [BACKSLASH; "b"%ch]
  else if c =? 12 then [BACKSLASH; "f"%ch]
  else if c =? LF then [BACKSLASH; "n"%ch]
  else if c =? CR then [BACKSLASH; "r"%ch]
  else if c =? TAB then [BACKSLASH; "t"%ch]
  else if control c then [BACKSLASH; "u"%ch] ++ setw4_hex c
  else [c].

(** A C string, or [None] for nullptr. *)
Definition value_to_quoted_string (value : option (list Z)) : list Z :=
  match value with
  | None => []
  | Some s =>
      if negb (has_special s) && negb (contains_control_char s) then [DQUOTE] ++ s ++ [DQUOTE]
      else [DQUOTE] ++ concat (map (escape_char is_control_char) s) ++ [DQUOTE]
  end.

(** A pointer and a length, with a NUL behind the chars; the first return appends
    [value] as a C string. *)
Definition value_to_quoted_string_n (value : option (list Z)) : list Z :=
  match value with
  | None => []
  | Some s =>
      if negb (has_special s) && negb (contains_control_char0 s) then [DQUOTE] ++ c_str s ++ [DQUOTE]
      else [DQUOTE] ++ concat (map (escape_char (fun c => is_control_char c || (c =? 0))) s) ++ [DQUOTE]
  end.

(** * Lemmas *)

(** The encoder writes UTF-8. *)
Lemma codepoint_to_utf8_chars cp : 0 <= cp <= 0x10FFFF -> codepoint_to_utf8 cp = utf8_chars cp.
Proof.
  intros Hcp. unfold codepoint_to_utf8, utf8_chars, utf8_bytes.
  assert (forall x, 0 <= x mod 64 < 64) as Hmod by (intros; apply Z.mod_pos_bound; lia).
  assert (forall x k, 0 < k -> 0 <= x <= 0x10FFFF -> 0 <= x / k <= 0x10FFFF / k) as Hdiv.
  { intros x k Hk Hx. split; [apply Z.div_pos; lia|apply Z.div_le_mono; lia]. }
  rewrite !(Z.land_comm _ cp), !(Z.land_comm _ (Z.shiftr _ _)), !land_3F.
  rewrite land_1F, land_0F, land_07, !Z.shiftr_div_pow2 by lia.
  change (2 ^ 6) with 64. change (2 ^ 12) with 4096. change (2 ^ 18) with 262144.
  rewrite !(Z.lor_comm _ (_ mod _)), !lor_80 by apply Hmod.
  destruct (Z.leb_spec cp 0x7f); [by ztrue (cp <? 0x80)|]. zfalse (cp <? 0x80).
  destruct (Z.leb_spec cp 0x7FF).
  { ztrue (cp <? 0x800). simpl. pose proof (Z.div_lt_upper_bound cp 64 32). pose proof (Hdiv cp 64).
    rewrite Z.mod_small, lor_C0 by lia. done. }
  zfalse (cp <? 0x800). destruct (Z.leb_spec cp 0xFFFF).
  { ztrue (cp <? 0x10000). simpl. pose proof (Z.div_lt_upper_bound cp 4096 16). pose proof (Hdiv cp 4096).
    rewrite (Z.mod_small (cp / 4096)), lor_E0 by lia. done. }
  zfalse (cp <? 0x10000). ztrue (cp <=? 0x10FFFF). simpl. pose proof (Hdiv cp 262144 ltac:(lia) ltac:(lia)) as Hd.
  change (0x10FFFF / 262144) with 4 in Hd. rewrite (Z.mod_small (cp / 262144)), lor_F0 by lia. done.
Qed.

(** ** Lengths *)

Lemma c_str_length s : Zlen (c_str s) <= Zlen s.
Proof. induction s as [|c s IH]; simpl; [done|]. destruct (c =? 0); rewrite ?Zlen_cons; [change (Zlen (@nil Z)) with 0; pose proof (Zlen_nonneg s)|]; lia. Qed.

Lemma double_length printf_17g d t : double_to_string printf_17g d = Ok t -> Zlen t <= 31.
Proof.
  unfold double_to_string. case_match; [done|]. intros [= <-]. etrans; [apply c_str_length|].
  unfold fix_numeric_locale, Zlen. rewrite length_map, length_take. lia.
Qed.
