(* ===== verification/JsonValue.v ===== *)
(** * JSON values: core/data/json/value.h, value.cpp, assertions.h

    A value owns its members, so it is a tree: a payload (the union [value_] with
    [type_]), the comments attached to it and the offsets of its text.  The
    [std::map] of an array or object is the list of its entries in order; an array is
    keyed by index and may have gaps.  A string is the list of its chars ([None] for the null
    pointer of [value(vt_string)]); who owns the chars is not modelled.
    A reference into a value is the list of keys that leads to it. *)

From stdpp Require Import base tactics list strings.
From Stdlib Require Import ZArith Lia SpecFloat.
From S2P Require Import Prelude CString StdString ScanNumbers JsonText.
#[local] Open Scope Z_scope.

Definition fail {A} (what : string) : res A := Throw (logic_error (str what)).

(** [JSON_ASSERT_MESSAGE(condition, message)]. *)
Definition json_assert (condition : bool) (message : string) : res unit :=
  if condition then Ok tt else fail message.

(** [assert(condition)]: nothing is said of a program that fails one. *)
Definition assert_that (condition : bool) : res unit := if condition then Ok tt else Undef.

(** ** Limits *)

Definition min_int : Z := - 2 ^ 31.
Definition max_int : Z := 2 ^ 31 - 1.
Definition max_uint : Z := 2 ^ 32 - 1.
Definition min_int64 : Z := - 2 ^ 63.
Definition max_int64 : Z := 2 ^ 63 - 1.
Definition max_uint64 : Z := 2 ^ 64 - 1.

(** ** std::map *)

Section std_map.
Context {K V : Type} (less equal : K -> K -> bool).

(** [find]: the first entry that is not below the key, if the key is not below it. *)
Fixpoint map_find (k : K) (m : list (K * V)) : option V :=
  match m with
  | [] => None
  | (k', v) :: m' => if less k' k then map_find k m' else if less k k' then None else Some v
  end.

(** [lower_bound], the test [it->first == key], and [insert] at [it] when it fails. *)
Fixpoint map_ensure (k : K) (v : V) (m : list (K * V)) : list (K * V) :=
  match m with
  | [] => [(k, v)]
  | (k', v') :: m' =>
      if less k' k then (k', v') :: map_ensure k v m'
      else if equal k' k then m else (k, v) :: m
  end.

Fixpoint map_erase (k : K) (m : list (K * V)) : list (K * V) :=
  match m with
  | [] => []
  | (k', v) :: m' => if less k' k then (k', v) :: map_erase k m' else if less k k' then m else m'
  end.

(** What runs on the value that a reference to the entry of [k] designates. *)
Fixpoint map_update (k : K) (f : V -> res V) (m : list (K * V)) : res (list (K * V)) :=
  match m with
  | [] => Undef
  | (k', v) :: m' =>
      if less k' k then let! m'' := map_update k f m' in Ok ((k', v) :: m'')
      else if less k k' then Undef else let! v' := f v in Ok ((k', v') :: m')
  end.
End std_map.

(** *** czstring: the keys *)

(** [memcmp] compares as [unsigned char]. *)
Fixpoint memcmp (a b : list Z) : comparison :=
  match a, b with
  | x :: a', y :: b' => match u8 x ?= u8 y with Eq => memcmp a' b' | c => c end
  | _, _ => Eq
  end.

(** The length of a key is kept in thirty bits. *)
Definition czstring (s : list Z) : list Z := take (Z.to_nat (Zlen s mod 2 ^ 30)) s.

(** [operator<] and [operator==]; [memcmp] above stops at the shorter of the two. *)
Definition name_less (a b : list Z) : bool :=
  match memcmp a b with Lt => true | Gt => false | Eq => Zlen a <? Zlen b end.
Definition name_equal (a b : list Z) : bool :=
  if negb (Zlen a =? Zlen b) then false else match memcmp a b with Eq => true | _ => false end.

(** ** value *)

Inductive value_type : Type :=
| vt_null | vt_int | vt_uint | vt_real | vt_string | vt_bool | vt_array | vt_object.

#[export] Instance value_type_eq_dec : EqDecision value_type.
Proof. solve_decision. Defined.

Definition type_number (t : value_type) : Z :=
  match t with
  | vt_null => 0 | vt_int => 1 | vt_uint => 2 | vt_real => 3 | vt_string => 4 | vt_bool => 5 | vt_array => 6 | vt_object => 7
  end.

Inductive comment_placement : Type := comment_before | comment_after_on_same_line | comment_after.

(** The array of [comment_info]. *)
Record comment_infos : Type := {
  before_ : option (list Z);
  same_line_ : option (list Z);
  after_ : option (list Z)
}.

(** [type_] and the member of the union it selects. *)
Inductive holder (V : Type) : Type :=
| null_
| int_ (n : Z)
| uint_ (n : Z)
| real_ (d : double)
| string_ (s : option (list Z))
| bool_ (b : bool)
| array_ (m : list (Z * V))
| object_ (m : list (list Z * V)).
Arguments null_ {V}.
Arguments int_ {V} n.
Arguments uint_ {V} n.
Arguments real_ {V} d.
Arguments string_ {V} s.
Arguments bool_ {V} b.
Arguments array_ {V} m.
Arguments object_ {V} m.

#[local] Unset Elimination Schemes.
Inductive value : Type :=
| Value (value_ : holder value) (comments_ : option comment_infos) (start_ limit_ : Z).
#[local] Set Elimination Schemes.

Definition value_ (v : value) : holder value := let '(Value h _ _ _) := v in h.
Definition comments_ (v : value) : option comment_infos := let '(Value _ c _ _) := v in c.
Definition start_ (v : value) : Z := let '(Value _ _ s _) := v in s.
Definition limit_ (v : value) : Z := let '(Value _ _ _ l) := v in l.

(** Induction over a value and its members. *)
Definition value_ind (P : value -> Prop)
    (Hleaf : forall h c s l,
       match h with array_ _ | object_ _ => False | _ => True end -> P (Value h c s l))
    (Harray : forall m c s l, Forall (fun e => P e.2) m -> P (Value (array_ m) c s l))
    (Hobject : forall m c s l, Forall (fun e => P e.2) m -> P (Value (object_ m) c s l)) :
  forall v, P v :=
  fix go (v : value) : P v :=
    let members {K} := fix members (m : list (K * value)) : Forall (fun e => P e.2) m :=
      match m with
      | [] => List.Forall_nil _
      | e :: m' => List.Forall_cons _ e m' (go e.2) (members m')
      end in
    match v with
    | Value (array_ m) c s l => Harray m c s l (members m)
    | Value (object_ m) c s l => Hobject m c s l (members m)
    | Value h c s l => Hleaf h c s l I
    end.

(** Payloads, comments and offsets. *)
Definition init_basic (h : holder value) : value := Value h None 0 0.
Definition null_ref : value := init_basic null_.
Definition set_payload (h : holder value) (v : value) : value := let '(Value _ c s l) := v in Value h c s l.
Definition set_offset_start (start : Z) (v : value) : value := let '(Value h c _ l) := v in Value h c start l.
Definition set_offset_limit (limit : Z) (v : value) : value := let '(Value h c s _) := v in Value h c s limit.

(** [swap_payload(other)], as far as [*this] goes: comments and offsets stay. *)
Definition swap_payload (other v : value) : value := set_payload (value_ other) v.

Definition type (v : value) : value_type :=
  match value_ v with
  | null_ => vt_null
  | int_ _ => vt_int
  | uint_ _ => vt_uint
  | real_ _ => vt_real
  | string_ _ => vt_string
  | bool_ _ => vt_bool
  | array_ _ => vt_array
  | object_ _ => vt_object
  end.

(** *** Constructors *)

Definition value_of_type (t : value_type) : value :=
  init_basic match t with
             | vt_null => null_
             | vt_int => int_ 0
             | vt_uint => uint_ 0
             | vt_real => real_ (S754_zero false)
             | vt_string => string_ None
             | vt_bool => bool_ false
             | vt_array => array_ []
             | vt_object => object_ []
             end.
Definition value_of_int (n : Z) : value := init_basic (int_ n).
Definition value_of_uint (n : Z) : value := init_basic (uint_ n).
Definition value_of_double (d : double) : value := init_basic (real_ d).
Definition value_of_bool (b : bool) : value := init_basic (bool_ b).

(** What [duplicate_and_prefix_string_value] keeps of a string. *)
Definition duplicate_and_prefix_string_value (s : list Z) : res (list Z) :=
  let length := u32 (Zlen s) in
  let! _ := json_assert (length <=? max_int - 4 - 1)
    "in json::value::duplicate_and_prefix_string_value(): length too big for prefixing" in
  Ok (take (Z.to_nat length) s).
Definition value_of_string (s : list Z) : res value :=
  let! s := duplicate_and_prefix_string_value s in Ok (init_basic (string_ (Some s))).
Definition value_of_cstr (s : list Z) : res value := value_of_string (c_str s).
Definition value_of_static_string (s : list Z) : value := init_basic (string_ (Some (c_str s))).

(** *** Kinds *)

Definition is_null (v : value) : bool := match value_ v with null_ => true | _ => false end.
Definition is_bool (v : value) : bool := match value_ v with bool_ _ => true | _ => false end.
Definition isString (v : value) : bool := match value_ v with string_ _ => true | _ => false end.
Definition is_array (v : value) : bool := match value_ v with array_ _ => true | _ => false end.
Definition is_object (v : value) : bool := match value_ v with object_ _ => true | _ => false end.

(** The integer part of a finite double, toward zero. *)
Definition trunc (d : double) : option Z :=
  match d with
  | S754_zero _ => Some 0
  | S754_finite s m e =>
      let n := if 0 <=? e then Zpos m * 2 ^ e else Zpos m / 2 ^ (- e) in
      Some (if s then - n else n)
  | _ => None
  end.

(** [modf(d, &integral_part) == 0.0]: an infinity has no fraction. *)
Definition is_integral (d : double) : bool :=
  match d with
  | S754_zero _ | S754_infinity _ => true
  | S754_finite _ m e => (0 <=? e) || (Zpos m mod 2 ^ (- e) =? 0)
  | S754_nan => false
  end.

(** [d >= min && d <= max], with the integers converted to double. *)
Definition in_range (d : double) (min max : Z) : bool := SFleb (double_of_Z min) d && SFleb d (double_of_Z max).

(** A conversion of a double to an integer type whose range is [min .. max]. *)
Definition to_integer (min max : Z) (d : double) : res Z :=
  match trunc d with
  | Some n => if (min <=? n) && (n <=? max) then Ok n else Undef
  | None => Undef
  end.

Definition is_int (v : value) : bool :=
  match value_ v with
  | int_ n => (min_int <=? n) && (n <=? max_int)
  | uint_ n => n <=? u32 max_int
  | real_ d => in_range d min_int max_int && is_integral d
  | _ => false
  end.
Definition is_uint (v : value) : bool :=
  match value_ v with
  | int_ n => (0 <=? n) && (u64 n <=? u64 max_uint)
  | uint_ n => n <=? max_uint
  | real_ d => in_range d 0 max_uint && is_integral d
  | _ => false
  end.
Definition is_int64 (v : value) : bool :=
  match value_ v with
  | int_ _ => true
  | uint_ n => n <=? u64 max_int64
  | real_ d => SFleb (double_of_Z min_int64) d && SFltb d (double_of_Z max_int64) && is_integral d
  | _ => false
  end.
Definition isUInt64 (v : value) : bool :=
  match value_ v with
  | int_ n => 0 <=? n
  | uint_ _ => true
  | real_ d => SFleb (double_of_Z 0) d && SFltb d (double_of_Z (2 ^ 64)) && is_integral d
  | _ => false
  end.
Definition isIntegral (v : value) : bool := is_int64 v || isUInt64 v.
Definition isDouble (v : value) : bool := match value_ v with real_ _ => true | _ => isIntegral v end.
Definition isNumeric (v : value) : bool := isIntegral v || isDouble v.

(** *** Conversions *)

Definition as_int (v : value) : res Z :=
  match value_ v with
  | int_ n => let! _ := json_assert (is_int v) "largest_int_t out of int32_t range" in Ok (i32 n)
  | uint_ n => let! _ := json_assert (is_int v) "largest_uint_t out of int32_t range" in Ok (i32 n)
  | real_ d =>
      let! _ := json_assert (in_range d min_int max_int) "double out of int32_t range" in to_integer min_int max_int d
  | null_ => Ok 0
  | bool_ b => Ok (if b then 1 else 0)
  | _ => fail "value is not convertible to int32_t."
  end.
Definition as_uint (v : value) : res Z :=
  match value_ v with
  | int_ n => let! _ := json_assert (is_uint v) "largest_int_t out of uint32_t range" in Ok (u32 n)
  | uint_ n => let! _ := json_assert (is_uint v) "largest_uint_t out of uint32_t range" in Ok (u32 n)
  | real_ d => let! _ := json_assert (in_range d 0 max_uint) "double out of uint32_t range" in to_integer 0 max_uint d
  | null_ => Ok 0
  | bool_ b => Ok (if b then 1 else 0)
  | _ => fail "value is not convertible to uint32_t."
  end.
Definition as_int64 (v : value) : res Z :=
  match value_ v with
  | int_ n => Ok n
  | uint_ n => let! _ := json_assert (is_int64 v) "largest_uint_t out of int64_t range" in Ok (i64 n)
  | real_ d =>
      let! _ := json_assert (in_range d min_int64 max_int64) "double out of int64_t range" in
      to_integer min_int64 max_int64 d
  | null_ => Ok 0
  | bool_ b => Ok (if b then 1 else 0)
  | _ => fail "value is not convertible to int64_t."
  end.
Definition as_uint64 (v : value) : res Z :=
  match value_ v with
  | int_ n => let! _ := json_assert (isUInt64 v) "largest_int_t out of uint64_t range" in Ok (u64 n)
  | uint_ n => Ok n
  | real_ d =>
      let! _ := json_assert (in_range d 0 max_uint64) "double out of uint64_t range" in to_integer 0 max_uint64 d
  | null_ => Ok 0
  | bool_ b => Ok (if b then 1 else 0)
  | _ => fail "value is not convertible to uint64_t."
  end.
Definition as_largest_int : value -> res Z := as_int64.
Definition as_largest_uint : value -> res Z := as_uint64.

Definition as_double (v : value) : res double :=
  match value_ v with
  | int_ n => Ok (double_of_Z n)
  | uint_ n => Ok (double_of_Z n)
  | real_ d => Ok d
  | null_ => Ok (S754_zero false)
  | bool_ b => Ok (double_of_Z (if b then 1 else 0))
  | _ => fail "value is not convertible to double."
  end.
Definition as_bool (v : value) : res bool :=
  match value_ v with
  | bool_ b => Ok b
  | null_ => Ok false
  | int_ n => Ok (negb (n =? 0))
  | uint_ n => Ok (negb (n =? 0))
  | real_ d => Ok (negb (SFeqb d (S754_zero false)))
  | _ => fail "value is not convertible to bool."
  end.

(** [None] is the null pointer; a C string ends at the first NUL. *)
Definition as_cstring (v : value) : res (option (list Z)) :=
  match value_ v with
  | string_ None => Ok None
  | string_ (Some s) => Ok (Some (c_str s))
  | _ => fail "in json::value::as_cstring(): requires vt_string"
  end.
(** [get_string]: [None] when it returns false. *)
Definition get_string (v : value) : option (list Z) :=
  match value_ v with string_ s => s | _ => None end.

Section as_string.
Context (negate_min : res Z) (printf_17g : double -> list Z).

Definition as_string (v : value) : res (list Z) :=
  match value_ v with
  | null_ => Ok []
  | string_ s => Ok (default [] s)
  | bool_ b => Ok (bool_to_string b)
  | int_ n => largest_int_to_string negate_min n
  | uint_ n => largest_uint_to_string n
  | real_ d => double_to_string printf_17g d
  | _ => fail "Type is not convertible to string"
  end.
End as_string.

Definition is_zero (d : res double) : bool := match d with Ok d => SFeqb d (S754_zero false) | _ => false end.
Definition map_is_empty (v : value) : bool :=
  match value_ v with array_ [] | object_ [] => true | _ => false end.

Definition is_convertible_to (v : value) (other : value_type) : bool :=
  match other with
  | vt_null =>
      (isNumeric v && is_zero (as_double v))
      || match value_ v with bool_ b => negb b | string_ s => bool_decide (default [] s = []) | _ => false end
      || map_is_empty v || is_null v
  | vt_int =>
      is_int v || match value_ v with real_ d => in_range d min_int max_int | _ => false end || is_bool v || is_null v
  | vt_uint =>
      is_uint v || match value_ v with real_ d => in_range d 0 max_uint | _ => false end || is_bool v || is_null v
  | vt_real => isNumeric v || is_bool v || is_null v
  | vt_bool => isNumeric v || is_bool v || is_null v
  | vt_string => isNumeric v || is_bool v || isString v || is_null v
  | vt_array => is_array v || is_null v
  | vt_object => is_object v || is_null v
  end.

(** *** Comparison *)

(** The [operator<] of a map: [std::lexicographical_compare] on pairs, given [operator<]
    of the keys and of the values.  The latter may run out of fuel. *)
Section map_less.
Context {K V : Type} (less : K -> K -> bool) (value_less : V -> V -> res bool).

Definition pair_less (a b : K * V) : res bool :=
  if less a.1 b.1 then Ok true else if less b.1 a.1 then Ok false else value_less a.2 b.2.

Fixpoint map_less (a b : list (K * V)) : res bool :=
  match a, b with
  | _, [] => Ok false
  | [], _ => Ok true
  | x :: a', y :: b' =>
      let! lt := pair_less x y in
      if lt : bool then Ok true
      else
        let! gt := pair_less y x in
        if gt : bool then Ok false else map_less a' b'
  end.
End map_less.

Definition bool_less (a b : bool) : bool := negb a && b.

(** [operator<]. *)
Fixpoint value_less (fuel : nat) (a b : value) : res bool :=
  match fuel with
  | O => Spin
  | S fuel' =>
      let type_delta := type_number (type a) - type_number (type b) in
      if negb (type_delta =? 0) then Ok (type_delta <? 0)
      else
        match value_ a, value_ b with
        | int_ x, int_ y => Ok (x <? y)
        | uint_ x, uint_ y => Ok (x <? y)
        | real_ x, real_ y => Ok (SFltb x y)
        | bool_ x, bool_ y => Ok (bool_less x y)
        | string_ (Some x), string_ (Some y) => Ok (name_less x y)
        | string_ _, string_ y => Ok (bool_decide (is_Some y))
        | array_ x, array_ y =>
            let delta := i32 (Zlen x - Zlen y) in
            if negb (delta =? 0) then Ok (delta <? 0) else map_less Z.ltb (value_less fuel') x y
        | object_ x, object_ y =>
            let delta := i32 (Zlen x - Zlen y) in
            if negb (delta =? 0) then Ok (delta <? 0) else map_less name_less (value_less fuel') x y
        | _, _ => Ok false
        end
  end.

(** [compare]: -1, 1 or 0. *)
Definition compare (fuel : nat) (a b : value) : res Z :=
  let! lt := value_less fuel a b in
  if lt : bool then Ok (-1)
  else let! gt := value_less fuel b a in if gt : bool then Ok 1 else Ok 0.

(** The [operator==] of a map: sizes, then entries in order. *)
Definition map_equal {K V W : Type} (equal : K -> K -> bool) (value_equal : V -> W -> bool) :
    list (K * V) -> list (K * W) -> bool :=
  fix go a b :=
    match a, b with
    | [], [] => true
    | x :: a', y :: b' => equal x.1 y.1 && value_equal x.2 y.2 && go a' b'
    | _, _ => false
    end.

(** [operator==]. *)
Fixpoint value_equal (a b : value) : bool :=
  match a with
  | Value ha _ _ _ =>
      match ha, value_ b with
      | null_, null_ => true
      | int_ x, int_ y => x =? y
      | uint_ x, uint_ y => x =? y
      | real_ x, real_ y => SFeqb x y
      | bool_ x, bool_ y => eqb x y
      | string_ (Some x), string_ (Some y) => name_equal x y
      | string_ None, string_ None => true
      | array_ x, array_ y => map_equal Z.eqb value_equal x y
      | object_ x, object_ y => map_equal name_equal value_equal x y
      | _, _ => false
      end
  end.

(** *** Size *)

Definition size (v : value) : Z :=
  match value_ v with
  | array_ m => match last m with Some (i, _) => u32 (i + 1) | None => 0 end
  | object_ m => u32 (Zlen m)
  | _ => 0
  end.
Definition empty (v : value) : bool := if is_null v || is_array v || is_object v then size v =? 0 else false.

Definition clear (v : value) : res value :=
  let! _ := json_assert (is_null v || is_array v || is_object v) "in json::value::clear(): requires complex value" in
  let h := match value_ v with array_ _ => array_ [] | object_ _ => object_ [] | h => h end in
  Ok (Value h (comments_ v) 0 0).

(** *** Members *)

(** [*this = value(type)] for a null value: its comments and offsets go too. *)
Definition become (t : value_type) (v : value) : value := if is_null v then value_of_type t else v.

(** [operator[](array_index)]: the value with the member that the returned reference designates. *)
Definition index_demand (i : Z) (v : value) : res value :=
  match value_ (become vt_array v) with
  | array_ m => Ok (set_payload (array_ (map_ensure Z.ltb Z.eqb i null_ref m)) (become vt_array v))
  | _ => fail "in json::value::operator[](array_index): requires vt_array"
  end.
Definition int_demand (i : Z) (v : value) : res value :=
  let! _ := json_assert (0 <=? i) "in json::value::operator[](int index): index cannot be negative" in
  index_demand (u32 i) v.

(** [resolve_reference(key, end)]; [name_demand] is [operator[](std::string const &)]. *)
Definition name_demand (key : list Z) (v : value) : res value :=
  match value_ (become vt_object v) with
  | object_ m =>
      Ok (set_payload (object_ (map_ensure name_less name_equal (czstring key) null_ref m)) (become vt_object v))
  | _ => fail "in json::value::resolve_reference(key, end): requires vt_object"
  end.

(** The const [operator[]]s and [find]; [None] is the address of [null_ref], or nullptr. *)
Definition index_find (i : Z) (v : value) : res (option value) :=
  match value_ v with
  | null_ => Ok None
  | array_ m => Ok (map_find Z.ltb i m)
  | _ => fail "in json::value::operator[](array_index)const: requires vt_array"
  end.
Definition int_find (i : Z) (v : value) : res (option value) :=
  let! _ := json_assert (0 <=? i) "in json::value::operator[](int index) const: index cannot be negative" in
  index_find (u32 i) v.
Definition find (key : list Z) (v : value) : res (option value) :=
  match value_ v with
  | null_ => Ok None
  | object_ m => Ok (map_find name_less (czstring key) m)
  | _ => fail "in json::value::find(key, end, found): requires vt_object or vt_null"
  end.
Definition deref (v : option value) : value := default null_ref v.

Definition index_get (i : Z) (dflt v : value) : res value := let! found := index_find i v in Ok (default dflt found).
Definition name_get (key : list Z) (dflt v : value) : res value := let! found := find key v in Ok (default dflt found).
Definition is_valid_index (i : Z) (v : value) : bool := i <? size v.
Definition is_member (key : list Z) (v : value) : res bool := let! found := find key v in Ok (bool_decide (is_Some found)).

Definition get_member_names (v : value) : res (list (list Z)) :=
  match value_ v with
  | null_ => Ok []
  | object_ m => Ok m.*1
  | _ => fail "in json::value::get_member_names(), value must be vt_object"
  end.

(** *** References *)

Inductive key : Type := index_key (i : Z) | name_key (s : list Z).
#[export] Instance key_eq_dec : EqDecision key.
Proof. solve_decision. Defined.

(** The member a key leads to, and what runs on it; undefined when there is none. *)
Definition member (k : key) (v : value) : option value :=
  match k, value_ v with
  | index_key i, array_ m => map_find Z.ltb i m
  | name_key s, object_ m => map_find name_less s m
  | _, _ => None
  end.
Definition update_member (k : key) (f : value -> res value) (v : value) : res value :=
  match k, value_ v with
  | index_key i, array_ m => let! m' := map_update Z.ltb i f m in Ok (set_payload (array_ m') v)
  | name_key s, object_ m => let! m' := map_update name_less s f m in Ok (set_payload (object_ m') v)
  | _, _ => Undef
  end.

Fixpoint value_at (p : list key) (v : value) : option value :=
  match p with
  | [] => Some v
  | k :: p' => match member k v with Some c => value_at p' c | None => None end
  end.
Fixpoint update_at (p : list key) (f : value -> res value) (v : value) : res value :=
  match p with
  | [] => f v
  | k :: p' => update_member k (update_at p' f) v
  end.

(** Assignment through a reference: [operator=] replaces everything. *)
Definition assign_index (i : Z) (x v : value) : res value :=
  let! v := index_demand i v in update_member (index_key i) (fun _ => Ok x) v.
Definition assign_name (key : list Z) (x v : value) : res value :=
  let! v := name_demand key v in update_member (name_key (czstring key)) (fun _ => Ok x) v.

Definition append (x v : value) : res value := assign_index (size v) x v.

(** [remove_member(key, end, removed)]: what it returns, [*removed] and the value. *)
Definition remove_member_into (key : list Z) (removed v : value) : bool * value * value :=
  match value_ v with
  | object_ m =>
      match map_find name_less (czstring key) m with
      | None => (false, removed, v)
      | Some x => (true, x, set_payload (object_ (map_erase name_less (czstring key) m)) v)
      end
  | _ => (false, removed, v)
  end.
(** [remove_member(char const *key)]; the overload on a string takes its [c_str()]. *)
Definition remove_member (key : list Z) (v : value) : res (value * value) :=
  let! _ := json_assert (is_null v || is_object v) "in json::value::remove_member(): requires vt_object" in
  if is_null v then Ok (null_ref, v)
  else let '(_, removed, v) := remove_member_into (c_str key) null_ref v in Ok (removed, v).

(** One turn of the loop: the entry of [i] is assigned [operator[](i + 1)], which makes
    the next entry if there is none. *)
Definition shift_left (i : Z) (v : value) : res value :=
  let! v := index_demand (i + 1) v in
  let! next := index_find (i + 1) v in
  let! v := index_demand i v in
  update_member (index_key i) (fun _ => Ok (deref next)) v.

Fixpoint shift_all (indices : list Z) (v : value) : res value :=
  match indices with
  | [] => Ok v
  | i :: indices' => let! v := shift_left i v in shift_all indices' v
  end.

Definition remove_index (index : Z) (removed v : value) : res (bool * value * value) :=
  match value_ v with
  | array_ m =>
      match map_find Z.ltb index m with
      | None => Ok (false, removed, v)
      | Some x =>
          let oldSize := size v in
          let! v := shift_all (seqZ index (oldSize - 1 - index)) v in
          match value_ v with
          | array_ m => Ok (true, x, set_payload (array_ (map_erase Z.ltb (oldSize - 1) m)) v)
          | _ => Undef
          end
      end
  | _ => Ok (false, removed, v)
  end.

Definition resize (newSize : Z) (v : value) : res value :=
  let! _ := json_assert (is_null v || is_array v) "in json::value::resize(): requires vt_array" in
  let v := become vt_array v in
  let oldSize := size v in
  if newSize =? 0 then clear v
  else if oldSize <? newSize then index_demand (newSize - 1) v
  else
    match value_ v with
    | array_ m =>
        let v := set_payload (array_ (foldl (fun m i => map_erase Z.ltb i m) m (seqZ newSize (oldSize - newSize)))) v in
        let! _ := assert_that (size v =? newSize) in Ok v
    | _ => Undef
    end.

(** *** Comments *)

Definition comment_at (p : comment_placement) (c : comment_infos) : option (list Z) :=
  match p with comment_before => before_ c | comment_after_on_same_line => same_line_ c | comment_after => after_ c end.
Definition no_comments : comment_infos := {| before_ := None; same_line_ := None; after_ := None |}.

(** [duplicate_string_value]. *)
Definition duplicate_string_value (s : list Z) : list Z :=
  if max_int <=? Zlen s then take (Z.to_nat (max_int - 1)) s else s.

(** [comment_info::set_comment]: what it stores of the [len] first chars of [text], which
    has a NUL behind it. *)
Definition comment_info_set_comment (text : list Z) (len : nat) : res (list Z) :=
  let first := default 0 (head text) in
  let! _ := json_assert ((first =? 0) || (first =? "/"%ch))
    "in json::value::set_comment(): Comments must start with /" in
  Ok (duplicate_string_value (take len text)).

Definition put_comment (placement : comment_placement) (t : list Z) (c : comment_infos) : comment_infos :=
  match placement with
  | comment_before => {| before_ := Some t; same_line_ := same_line_ c; after_ := after_ c |}
  | comment_after_on_same_line => {| before_ := before_ c; same_line_ := Some t; after_ := after_ c |}
  | comment_after => {| before_ := before_ c; same_line_ := same_line_ c; after_ := Some t |}
  end.

(** A trailing newline is not kept. *)
Definition set_comment (comment : list Z) (placement : comment_placement) (v : value) : res value :=
  let len := length comment in
  let len := if (0 <? len)%nat && bool_decide (last comment = Some LF) then pred len else len in
  let! t := comment_info_set_comment comment len in
  let '(Value h c s l) := v in
  Ok (Value h (Some (put_comment placement t (default no_comments c))) s l).
Definition has_comment (placement : comment_placement) (v : value) : bool :=
  match comments_ v with Some c => bool_decide (is_Some (comment_at placement c)) | None => false end.
Definition get_comment (placement : comment_placement) (v : value) : list Z :=
  match comments_ v with Some c => c_str (default [] (comment_at placement c)) | None => [] end.

(** The payload alone: no comments, no offsets, at any depth. *)
Fixpoint strip (v : value) : value :=
  match v with
  | Value h _ _ _ =>
      init_basic
        match h with
        | array_ m => array_ (map (fun e => (e.1, strip e.2)) m)
        | object_ m => object_ (map (fun e => (e.1, strip e.2)) m)
        | h => h
        end
  end.
Definition strip_members {K} (m : list (K * value)) : list (K * value) := map (fun e => (e.1, strip e.2)) m.

(** Insertion or replacement. *)
Fixpoint map_set {K V} (less equal : K -> K -> bool) (k : K) (v : V) (m : list (K * V)) : list (K * V) :=
  match m with
  | [] => [(k, v)]
  | (k', v') :: m' =>
      if less k' k then (k', v') :: map_set less equal k v m'
      else if equal k' k then (k', v) :: m' else (k, v) :: m
  end.

(** * Lemmas *)

(** ** Maps *)

Section std_map_lemmas.
Context {K V : Type} (less equal : K -> K -> bool).

Lemma map_update_spec (k : K) (f : V -> res V) m v v' :
  map_find less k m = Some v -> f v = Ok v' ->
  map_update less k f m = map_update less k (fun _ => Ok v') m.
Proof.
  induction m as [|[k' w] m IH]; simpl; [done|]. destruct (less k' k); [intros; by rewrite IH|].
  destruct (less k k'); [done|]. intros [= ->] ->. done.
Qed.

Lemma map_update_find (k : K) m (v v' : V) :
  map_find less k m = Some v ->
  exists m', map_update less k (fun _ => Ok v') m = Ok m' /\ map_find less k m' = Some v'.
Proof.
  induction m as [|[k' w] m IH]; simpl; [done|]. destruct (less k' k) eqn:E1.
  - intros (m' & -> & Hf)%IH. simpl. eexists. split; [done|]. simpl. by rewrite E1.
  - destruct (less k k') eqn:E2; [done|]. intros _. eexists. split; [done|]. simpl. by rewrite E1, E2.
Qed.

Lemma map_update_same (k : K) m (v : V) :
  map_find less k m = Some v -> map_update less k (fun _ => Ok v) m = Ok m.
Proof.
  induction m as [|[k' w] m IH]; simpl; [done|]. destruct (less k' k); [by intros ->%IH|].
  destruct (less k k'); [done|]. by intros [= ->].
Qed.

Lemma map_update_update (k : K) m m1 (a b : V) :
  map_update less k (fun _ => Ok a) m = Ok m1 ->
  map_update less k (fun _ => Ok b) m1 = map_update less k (fun _ => Ok b) m.
Proof.
  revert m1. induction m as [|[k' w] m IH]; intros m1; simpl; [done|]. destruct (less k' k) eqn:E1.
  - intros (m' & Hm & [= <-])%bind_Ok_inv. simpl. rewrite E1. by rewrite (IH m').
  - destruct (less k k') eqn:E2; [done|]. intros [= <-]. simpl. by rewrite E1, E2.
Qed.

Context (Hequal : forall a b, equal a b = true -> less a b = false /\ less b a = false).
Context (Hirrefl : forall a, less a a = false).

Lemma map_ensure_find (k : K) (v : V) m : exists x, map_find less k (map_ensure less equal k v m) = Some x.
Proof using Hequal Hirrefl.
  induction m as [|[k' w] m [x IH]]; simpl; [rewrite Hirrefl; eauto|]. destruct (less k' k) eqn:E1; simpl.
  - rewrite E1. eauto.
  - destruct (equal k' k) eqn:E2; simpl.
    + rewrite E1. destruct (Hequal _ _ E2) as [_ ->]. eauto.
    + rewrite Hirrefl. eauto.
Qed.

Lemma map_ensure_update (k : K) (d v : V) m m' :
  map_update less k (fun _ => Ok v) (map_ensure less equal k d m) = Ok m' -> m' = map_set less equal k v m.
Proof using Hequal Hirrefl.
  revert m'. induction m as [|[k' w] m IH]; intros m'; simpl; [rewrite Hirrefl; by intros [= <-]|].
  destruct (less k' k) eqn:E1; simpl.
  - rewrite E1. intros (m1 & Hm & [= <-])%bind_Ok_inv. f_equal. by apply IH.
  - destruct (equal k' k) eqn:E2; simpl.
    + rewrite E1. destruct (Hequal _ _ E2) as [_ ->]. by intros [= <-].
    + rewrite Hirrefl. by intros [= <-].
Qed.
End std_map_lemmas.

(** ** Names *)

Lemma memcmp_refl a : memcmp a a = Eq.
Proof. induction a as [|x a IH]; simpl; [done|]. by rewrite Z.compare_refl. Qed.
Lemma memcmp_sym a b : memcmp b a = CompOpp (memcmp a b).
Proof.
  revert b. induction a as [|x a IH]; intros [|y b]; simpl; [done..|]. rewrite (Z.compare_antisym (u8 x)).
  destruct (u8 x ?= u8 y); simpl; auto.
Qed.
Lemma name_less_irrefl a : name_less a a = false.
Proof. unfold name_less. rewrite memcmp_refl. apply Z.ltb_irrefl. Qed.
Lemma name_equal_less a b : name_equal a b = true -> name_less a b = false /\ name_less b a = false.
Proof.
  unfold name_equal, name_less. rewrite (memcmp_sym a b).
  destruct (Z.eqb_spec (Zlen a) (Zlen b)) as [He|]; simpl; [|done]. rewrite He.
  destruct (memcmp a b); simpl; [|done..]. by rewrite Z.ltb_irrefl.
Qed.
Lemma index_equal_less a b : (a =? b) = true -> (a <? b) = false /\ (b <? a) = false.
Proof. intros ->%Z.eqb_eq. by rewrite Z.ltb_irrefl. Qed.

Lemma czstring_small s : Zlen s < 2 ^ 30 -> czstring s = s.
Proof.
  intros Hs. pose proof (Zlen_nonneg s). unfold czstring. rewrite Z.mod_small by lia.
  unfold Zlen. by rewrite Nat2Z.id, firstn_all.
Qed.

(** ** References *)

(** Assignment through a reference. *)
Definition set_at (p : list key) (x : value) : value -> res value := update_at p (fun _ => Ok x).

Lemma update_member_spec k f v c c' :
  member k v = Some c -> f c = Ok c' -> update_member k f v = update_member k (fun _ => Ok c') v.
Proof.
  unfold member, update_member. destruct k; destruct (value_ v); try done; intros Hc Hf.
  all: by rewrite (map_update_spec _ _ _ _ c c').
Qed.

Lemma value_set_payload h v : value_ (set_payload h v) = h.
Proof. by destruct v. Qed.
Lemma set_payload_twice h h' v : set_payload h (set_payload h' v) = set_payload h v.
Proof. by destruct v. Qed.

Lemma update_member_member k v c x :
  member k v = Some c -> exists v', update_member k (fun _ => Ok x) v = Ok v' /\ member k v' = Some x.
Proof.
  unfold member, update_member. destruct k; destruct (value_ v) eqn:E; try done; intros Hc.
  all: destruct (map_update_find _ _ _ _ x Hc) as (m' & -> & Hf); simpl; eexists; split; [done|];
    by rewrite value_set_payload.
Qed.

Lemma update_member_twice k v v1 a b :
  update_member k (fun _ => Ok a) v = Ok v1 ->
  update_member k (fun _ => Ok b) v1 = update_member k (fun _ => Ok b) v.
Proof.
  unfold update_member. destruct k; destruct (value_ v) eqn:E; try done;
    intros (m1 & Hm & [= <-])%bind_Ok_inv; rewrite value_set_payload, (map_update_update _ _ _ _ _ _ Hm);
    by destruct v, (map_update _ _ _ _).
Qed.

Lemma set_at_total p root v x :
  value_at p root = Some v -> exists root', set_at p x root = Ok root' /\ value_at p root' = Some x.
Proof.
  unfold set_at. revert root. induction p as [|k p IH]; intros root; simpl; [by exists x|].
  destruct (member k root) as [c|] eqn:Hc; [|done]. intros (c' & Hu & Hv)%IH.
  rewrite (update_member_spec _ _ _ _ _ Hc Hu).
  destruct (update_member_member _ _ _ c' Hc) as (v' & -> & Hm). exists v'. by rewrite Hm.
Qed.

Lemma set_at_cons k p root c c' x :
  member k root = Some c -> set_at p x c = Ok c' -> set_at (k :: p) x root = update_member k (fun _ => Ok c') root.
Proof. intros Hc Hs. exact (update_member_spec _ _ _ _ _ Hc Hs). Qed.

Lemma update_at_spec p f root v v' :
  value_at p root = Some v -> f v = Ok v' -> update_at p f root = set_at p v' root.
Proof.
  revert root. induction p as [|k p IH]; intros root; simpl; [by intros [= ->]|].
  destruct (member k root) as [c|] eqn:Hc; [|done]. intros Hv Hf. unfold set_at. simpl.
  destruct (set_at_total _ _ _ v' Hv) as (c' & Hs & _).
  rewrite (update_member_spec _ _ _ _ c' Hc) by (by rewrite (IH c)).
  symmetry. by apply update_member_spec with c.
Qed.

Lemma update_at_inv p f root root' :
  update_at p f root = Ok root' -> exists v v', value_at p root = Some v /\ f v = Ok v' /\ set_at p v' root = Ok root'.
Proof.
  revert root root'. induction p as [|k p IH]; intros root root'; simpl; [by exists root, root'|].
  assert (forall K (less : K -> K -> bool) k m (m' : list (K * value)), map_update less k (update_at p f) m = Ok m' ->
    exists c c', map_find less k m = Some c /\ update_at p f c = Ok c') as Hmap.
  { clear root root' k. intros K less k m. induction m as [|[k' w] m IHm]; intros m'; simpl; [done|].
    destruct (less k' k); [intros (m1 & ? & _)%bind_Ok_inv; eauto|]. destruct (less k k'); [done|].
    intros (v' & ? & _)%bind_Ok_inv. eauto. }
  assert (forall c c', member k root = Some c -> update_at p f c = Ok c' -> update_member k (update_at p f) root = Ok root' ->
    exists v v', match member k root with Some c => value_at p c | None => None end = Some v /\
      f v = Ok v' /\ set_at (k :: p) v' root = Ok root') as Hcase.
  { intros c c' Hc Hu Hr. destruct (IH _ _ Hu) as (v & v' & Hv & Hf & Hs). exists v, v'. rewrite Hc. split_and!; [done..|].
    rewrite (update_member_spec _ _ _ _ _ Hc Hu) in Hr. rewrite <-Hr. exact (update_member_spec _ _ _ _ _ Hc Hs). }
  intros Hu. pose proof Hu as Hu'. unfold update_member in Hu'. destruct k; destruct (value_ root) eqn:E; try discriminate Hu';
    apply bind_Ok_inv in Hu' as (m' & Hm & _); destruct (Hmap _ _ _ _ _ Hm) as (c & c' & Hc & Hcu);
    apply (Hcase c c'); auto; unfold member; by rewrite E.
Qed.

(** Assigning twice is assigning once. *)
Lemma set_at_twice p root root1 a b : set_at p a root = Ok root1 -> set_at p b root1 = set_at p b root.
Proof.
  revert root root1. induction p as [|k p IH]; intros root root1; [done|]. intros Hu.
  destruct (update_at_inv (k :: p) _ _ _ Hu) as (v & v' & Hv & _ & _). simpl in Hv.
  destruct (member k root) as [c|] eqn:Hc; [|done].
  destruct (set_at_total _ _ _ a Hv) as (ca & Ha & _). destruct (set_at_total _ _ _ b Hv) as (cb & Hb & _).
  rewrite (set_at_cons _ _ _ _ _ _ Hc Ha) in Hu. rewrite (set_at_cons _ _ _ _ _ _ Hc Hb).
  destruct (update_member_member _ _ _ ca Hc) as (v1 & Hv1 & Hm1). rewrite Hv1 in Hu. injection Hu as <-.
  rewrite (set_at_cons _ _ _ _ cb _ Hm1) by (by rewrite (IH c ca Ha)).
  by rewrite (update_member_twice _ _ _ _ _ Hv1).
Qed.

Lemma set_at_value p root root' x : set_at p x root = Ok root' -> value_at p root' = Some x.
Proof.
  intros Hs. destruct (update_at_inv _ _ _ _ Hs) as (v & v' & Hv & [= <-] & _).
  destruct (set_at_total _ _ _ x Hv) as (r' & Hr & Hx). unfold set_at in *. congruence.
Qed.

Lemma set_at_same p : forall root v, value_at p root = Some v -> set_at p v root = Ok root.
Proof.
  unfold set_at. induction p as [|k p IH]; intros root v; simpl; [by intros [= ->]|].
  destruct (member k root) as [c|] eqn:Hc; [|done]. intros Hv.
  rewrite (update_member_spec k _ root c c Hc) by (by apply IH).
  unfold member, update_member in *. destruct k, (value_ root) eqn:E; try done;
    rewrite (map_update_same _ _ _ c Hc); simpl; f_equal; destruct root; simpl in *; by subst.
Qed.

(** A member of the value at [p] is at [p ++ [k]]. *)
Lemma value_at_snoc p k root : value_at (p ++ [k]) root = match value_at p root with Some v => member k v | None => None end.
Proof.
  revert root. induction p as [|k' p IH]; intros root; simpl; [by destruct (member k root)|].
  by destruct (member k' root).
Qed.
Lemma set_at_snoc p k root v v' x :
  value_at p root = Some v -> update_member k (fun _ => Ok x) v = Ok v' -> set_at (p ++ [k]) x root = set_at p v' root.
Proof.
  unfold set_at. revert root. induction p as [|k' p IH]; intros root; simpl; [by intros [= ->]|].
  destruct (member k' root) as [c|] eqn:Hc; [|done]. intros Hv Hu.
  destruct (set_at_total _ _ _ v' Hv) as (c' & Hs & _).
  rewrite (update_member_spec _ _ _ _ c' Hc) by (by rewrite (IH c)).
  symmetry. by apply update_member_spec with c.
Qed.
