(* ===== verification/JsonWriter.v ===== *)
(** * The fast writer: class fast_writer of core/data/json/writer.h, writer.cpp

    [document_] is threaded through the calls.  The fuel is a bound on the depth of the
    value; [depth] is enough. *)

From stdpp Require Import base tactics list strings.
From Stdlib Require Import ZArith Lia.
From S2P Require Import Prelude CString StdString ScanNumbers JsonText JsonValue.
#[local] Open Scope Z_scope.

Record fast_writer : Type := {
  yaml_compatibility_enabled_ : bool;
  drop_null_placeholders_ : bool;
  omit_ending_line_feed_ : bool
}.

Definition fast_writer_new : fast_writer :=
  {| yaml_compatibility_enabled_ := false; drop_null_placeholders_ := false; omit_ending_line_feed_ := false |}.
Definition enable_yaml_compatibility (w : fast_writer) : fast_writer :=
  {| yaml_compatibility_enabled_ := true; drop_null_placeholders_ := drop_null_placeholders_ w;
     omit_ending_line_feed_ := omit_ending_line_feed_ w |}.
Definition drop_null_placeholders (w : fast_writer) : fast_writer :=
  {| yaml_compatibility_enabled_ := yaml_compatibility_enabled_ w; drop_null_placeholders_ := true;
     omit_ending_line_feed_ := omit_ending_line_feed_ w |}.
Definition omit_ending_line_feed (w : fast_writer) : fast_writer :=
  {| yaml_compatibility_enabled_ := yaml_compatibility_enabled_ w;
     drop_null_placeholders_ := drop_null_placeholders_ w; omit_ending_line_feed_ := true |}.

(** A loop over a list that threads a state. *)
Fixpoint for_each {A S} (body : A -> S -> res S) (l : list A) (s : S) : res S :=
  match l with
  | [] => Ok s
  | x :: l' => let! s := body x s in for_each body l' s
  end.

Section write.
Context (negate_min : res Z) (printf_17g : double -> list Z) (w : fast_writer).

Fixpoint write_value (fuel : nat) (v : value) (document_ : list Z) : res (list Z) :=
  match fuel with
  | O => Spin
  | S fuel' =>
      match type v with
      | vt_null => Ok (if negb (drop_null_placeholders_ w) then document_ ++ str "null" else document_)
      | vt_int =>
          let! n := as_largest_int v in
          let! s := largest_int_to_string negate_min n in Ok (document_ ++ s)
      | vt_uint =>
          let! n := as_largest_uint v in
          let! s := largest_uint_to_string n in Ok (document_ ++ s)
      | vt_real =>
          let! d := as_double v in
          let! s := double_to_string printf_17g d in Ok (document_ ++ s)
      | vt_string =>
          let! s := as_cstring v in Ok (document_ ++ value_to_quoted_string s)
      | vt_bool =>
          let! b := as_bool v in Ok (document_ ++ bool_to_string b)
      | vt_array =>
          let document_ := document_ ++ ["["%ch] in
          let size := i32 (size v) in
          let! document_ :=
            for_each (fun index document_ =>
              let document_ := if 0 <? index then document_ ++ [","%ch] else document_ in
              let! child := int_find index v in
              write_value fuel' (deref child) document_) (seqZ 0 size) document_ in
          Ok (document_ ++ ["]"%ch])
      | vt_object =>
          let! members := get_member_names v in
          let document_ := document_ ++ ["{"%ch] in
          let! document_ :=
            for_each (fun '(i, name) document_ =>
              let document_ := if (0 <? i)%nat then document_ ++ [","%ch] else document_ in
              let document_ := document_ ++ value_to_quoted_string_n (Some name) in
              let document_ := document_ ++ str (if yaml_compatibility_enabled_ w then ": " else ":") in
              let! child := find name v in
              write_value fuel' (deref child) document_) (imap pair members) document_ in
          Ok (document_ ++ ["}"%ch])
      end
  end.

Definition write (fuel : nat) (root : value) : res (list Z) :=
  let! document_ := write_value fuel root [] in
  Ok (if negb (omit_ending_line_feed_ w) then document_ ++ [LF] else document_).
End write.

(** The depth of a value, which bounds the recursion. *)
Fixpoint depth (v : value) : nat :=
  match v with
  | Value (array_ m) _ _ _ => S (foldr (fun e n => depth e.2 `max` n)%nat 0%nat m)
  | Value (object_ m) _ _ _ => S (foldr (fun e n => depth e.2 `max` n)%nat 0%nat m)
  | _ => 1%nat
  end.
