(* ===== verification/JsonReader.v ===== *)
(** * Reading JSON: core/data/json/reader.h, reader.cpp, features.h

    Class [our_reader] is a copy of class [reader] with four more features; one set of
    definitions models both, and [ours_] says which one runs where they differ.
    A location is an address in the memory that holds the text.  [nodes_] and
    [last_value_] point to values: here they are references into [root], which is part
    of the state.  [read_token] always returns true and its result is not modelled.

    [sscanf_lf] is what the C library's [sscanf] reads with ["%lf"] from a C string, if it
    reads anything; [negate_min] and [printf_17g] are those of [JsonText]. *)

From stdpp Require Import base tactics list gmap strings.
From Stdlib Require Import ZArith Lia.
From S2P Require Import Prelude CString StdString ScanNumbers JsonText JsonValue.
#[local] Open Scope Z_scope.

(** ** Data *)

(** What class [our_features] has and class [features] has not; [our_reader]'s limit
    of the stack is one of them. *)
Record our_features : Type := {
  allow_single_quotes_ : bool;
  fail_if_extra_ : bool;
  reject_dup_keys_ : bool;
  stack_limit_ : Z
}.

Record features : Type := {
  allow_comments_ : bool;
  strict_root_ : bool;
  allow_dropped_null_placeholders_ : bool;
  allow_numeric_keys_ : bool;
  ours_ : option our_features
}.

Definition features_all : features :=
  {| allow_comments_ := true; strict_root_ := false; allow_dropped_null_placeholders_ := false;
     allow_numeric_keys_ := false; ours_ := None |}.
Definition features_strict_mode : features :=
  {| allow_comments_ := false; strict_root_ := true; allow_dropped_null_placeholders_ := false;
     allow_numeric_keys_ := false; ours_ := None |}.

Definition stack_limit_g : Z := 1000.
Definition stack_limit (f : features) : Z :=
  match ours_ f with Some x => stack_limit_ x | None => stack_limit_g end.

Inductive token_type : Type :=
| tt_end_of_stream | tt_object_begin | tt_object_end | tt_array_begin | tt_array_end | tt_string | tt_number
| tt_true | tt_false | tt_null | tt_array_separator | tt_member_separator | tt_comment | tt_error.
#[export] Instance token_type_eq_dec : EqDecision token_type.
Proof. solve_decision. Defined.

Record token : Type := { token_type_ : token_type; token_start_ : Z; token_end_ : Z }.
Record error_info : Type := { token_ : token; message_ : list Z; extra_ : Z }.

Record reader : Type := {
  nodes_ : list (list key);
  errors_ : list error_info;
  begin_ : Z;
  end_ : Z;
  current_ : Z;
  last_value_end_ : Z;
  last_value_ : option (list key);
  comments_before_ : list Z;
  stack_depth_ : Z;
  collect_comments_ : bool;
  root_ : value
}.

Definition with_nodes (x : list (list key)) (r : reader) : reader :=
  {| nodes_ := x; errors_ := errors_ r; begin_ := begin_ r; end_ := end_ r; current_ := current_ r;
     last_value_end_ := last_value_end_ r; last_value_ := last_value_ r; comments_before_ := comments_before_ r;
     stack_depth_ := stack_depth_ r; collect_comments_ := collect_comments_ r; root_ := root_ r |}.
Definition with_errors (x : list error_info) (r : reader) : reader :=
  {| nodes_ := nodes_ r; errors_ := x; begin_ := begin_ r; end_ := end_ r; current_ := current_ r;
     last_value_end_ := last_value_end_ r; last_value_ := last_value_ r; comments_before_ := comments_before_ r;
     stack_depth_ := stack_depth_ r; collect_comments_ := collect_comments_ r; root_ := root_ r |}.
Definition with_current (x : Z) (r : reader) : reader :=
  {| nodes_ := nodes_ r; errors_ := errors_ r; begin_ := begin_ r; end_ := end_ r; current_ := x;
     last_value_end_ := last_value_end_ r; last_value_ := last_value_ r; comments_before_ := comments_before_ r;
     stack_depth_ := stack_depth_ r; collect_comments_ := collect_comments_ r; root_ := root_ r |}.
Definition with_last (e : Z) (x : option (list key)) (r : reader) : reader :=
  {| nodes_ := nodes_ r; errors_ := errors_ r; begin_ := begin_ r; end_ := end_ r; current_ := current_ r;
     last_value_end_ := e; last_value_ := x; comments_before_ := comments_before_ r;
     stack_depth_ := stack_depth_ r; collect_comments_ := collect_comments_ r; root_ := root_ r |}.
Definition with_comments (x : list Z) (r : reader) : reader :=
  {| nodes_ := nodes_ r; errors_ := errors_ r; begin_ := begin_ r; end_ := end_ r; current_ := current_ r;
     last_value_end_ := last_value_end_ r; last_value_ := last_value_ r; comments_before_ := x;
     stack_depth_ := stack_depth_ r; collect_comments_ := collect_comments_ r; root_ := root_ r |}.
Definition with_depth (x : Z) (r : reader) : reader :=
  {| nodes_ := nodes_ r; errors_ := errors_ r; begin_ := begin_ r; end_ := end_ r; current_ := current_ r;
     last_value_end_ := last_value_end_ r; last_value_ := last_value_ r; comments_before_ := comments_before_ r;
     stack_depth_ := x; collect_comments_ := collect_comments_ r; root_ := root_ r |}.
Definition with_root (x : value) (r : reader) : reader :=
  {| nodes_ := nodes_ r; errors_ := errors_ r; begin_ := begin_ r; end_ := end_ r; current_ := current_ r;
     last_value_end_ := last_value_end_ r; last_value_ := last_value_ r; comments_before_ := comments_before_ r;
     stack_depth_ := stack_depth_ r; collect_comments_ := collect_comments_ r; root_ := x |}.

(** ** The state of a reader, threaded *)

Definition M (A : Type) : Type := reader -> res (A * reader).
Definition ret {A} (a : A) : M A := fun r => Ok (a, r).
Definition mbind {A B} (x : M A) (k : A -> M B) : M B := fun r => let! (a, r) := x r in k a r.
Definition lift {A} (x : res A) : M A := fun r => let! a := x in Ok (a, r).
Definition get {A} (f : reader -> A) : M A := fun r => Ok (f r, r).
Definition put (f : reader -> reader) : M unit := fun r => Ok (tt, f r).

Notation "'let*' x ':=' m 'in' k" := (mbind m (fun x => k))
  (at level 10, x pattern, m at level 100, k at level 200, format "'[v' 'let*'  x  ':='  m  'in' '/' k ']'").

(** A loop: [inl] stays in it. *)
Definition loop {S A} (fuel : nat) (body : S -> M (S + A)) (s : S) : M A :=
  fun r => iterate fuel (fun '(s, r) =>
    let! (x, r) := body s r in
    Ok match x with inl s => inl (s, r) | inr a => inr (a, r) end) (s, r).

(** [contains_new_line]. *)
Definition contains_new_line (m : mem) (b e : Z) : res bool :=
  iterate (span_fuel b e) (fun b =>
    if b <? e then
      let! c := load m b in
      if (c =? LF) || (c =? CR) then Ok (inr true) else Ok (inl (b + 1))
    else Ok (inr false)) b.

(** [normalize_eol], on the chars of the range. *)
Fixpoint normalize_eol (s : list Z) : list Z :=
  match s with
  | [] => []
  | c :: s' =>
      if c =? CR then
        LF :: match s' with d :: s'' => if d =? LF then normalize_eol s'' else normalize_eol s' | [] => [] end
      else c :: normalize_eol s'
  end.

Section reader.
Context (negate_min : res Z) (printf_17g : double -> list Z) (sscanf_lf : list Z -> option double).
Context (m : mem) (features_ : features).

(** [current_value()], as what is done with it. *)
Definition on_current_value (f : value -> res value) : M unit := fun r =>
  match nodes_ r with
  | p :: _ => let! root := update_at p f (root_ r) in Ok (tt, with_root root r)
  | [] => Undef
  end.
Definition get_current_value : M value := fun r =>
  match nodes_ r with
  | p :: _ => match value_at p (root_ r) with Some v => Ok (v, r) | None => Undef end
  | [] => Undef
  end.
Definition push_node (k : key) : M unit := fun r =>
  match nodes_ r with p :: _ => Ok (tt, with_nodes ((p ++ [k]) :: nodes_ r) r) | [] => Undef end.
Definition pop_node : M unit := put (fun r => with_nodes (tl (nodes_ r)) r).

Definition get_next_char : M Z := fun r =>
  if current_ r =? end_ r then Ok (0, r)
  else let! c := load m (current_ r) in Ok (c, with_current (current_ r + 1) r).

Definition is_space (c : Z) : bool := (c =? " "%ch) || (c =? TAB) || (c =? CR) || (c =? LF).

Definition skip_spaces : M unit := fun r =>
  let! p := iterate (span_fuel (current_ r) (end_ r)) (fun p =>
    if negb (p =? end_ r) then
      let! c := load m p in if is_space c then Ok (inl (p + 1)) else Ok (inr p)
    else Ok (inr p)) (current_ r) in
  Ok (tt, with_current p r).

Definition match_ (pattern : list Z) : M bool := fun r =>
  if end_ r - current_ r <? Zlen pattern then Ok (false, r)
  else
    let! s := load_range m (current_ r) (current_ r + Zlen pattern) in
    if bool_decide (s = pattern) then Ok (true, with_current (current_ r + Zlen pattern) r) else Ok (false, r).

(** ** Errors *)

Definition add_error (message : list Z) (t : token) (extra : Z) : M bool :=
  let* _ := put (fun r => with_errors (errors_ r ++ [{| token_ := t; message_ := message; extra_ := extra |}]) r) in
  ret false.

(** ** Comments *)

Definition add_comment (b e : Z) (placement : comment_placement) : M unit := fun r =>
  let! _ := assert_that (collect_comments_ r) in
  let! s := load_range m b e in
  let normalized := normalize_eol s in
  match placement with
  | comment_after_on_same_line =>
      match last_value_ r with
      | Some p =>
          let! root := update_at p (set_comment normalized comment_after_on_same_line) (root_ r) in
          Ok (tt, with_root root r)
      | None => Undef
      end
  | _ => Ok (tt, with_comments (comments_before_ r ++ normalized) r)
  end.

Definition c_comment_turn (_ : unit) : M (unit + unit) :=
  let* more := get (fun r => negb (current_ r =? end_ r)) in
  if more : bool then
    let* c := get_next_char in
    if c =? "*"%ch then
      let* p := get current_ in
      let* d := lift (load m p) in
      if d =? "/"%ch then ret (inr tt) else ret (inl tt)
    else ret (inl tt)
  else ret (inr tt).
Definition read_c_style_comment : M bool :=
  let* fuel := get (fun r => span_fuel (current_ r) (end_ r)) in
  let* _ := loop fuel c_comment_turn tt in
  let* c := get_next_char in
  ret (c =? "/"%ch).

Definition cpp_comment_turn (_ : unit) : M (unit + unit) :=
  let* more := get (fun r => negb (current_ r =? end_ r)) in
  if more : bool then
    let* c := get_next_char in
    if c =? LF then ret (inr tt)
    else if c =? CR then
      let* more := get (fun r => negb (current_ r =? end_ r)) in
      if more : bool then
        let* p := get current_ in
        let* d := lift (load m p) in
        if d =? LF then let* _ := get_next_char in ret (inr tt) else ret (inr tt)
      else ret (inr tt)
    else ret (inl tt)
  else ret (inr tt).
Definition read_cpp_style_comment : M bool :=
  let* fuel := get (fun r => span_fuel (current_ r) (end_ r)) in
  let* _ := loop fuel cpp_comment_turn tt in
  ret true.

Definition read_comment : M bool :=
  let* p := get current_ in
  let commentBegin := p - 1 in
  let* c := get_next_char in
  let* successful :=
    (if c =? "*"%ch then read_c_style_comment
     else if c =? "/"%ch then read_cpp_style_comment
     else ret false) in
  if negb successful then ret false
  else
    let* collect := get collect_comments_ in
    if collect : bool then
      let* last := get last_value_end_ in
      let* same :=
        (if negb (last =? 0) then let* nl := lift (contains_new_line m last commentBegin) in ret (negb nl)
         else ret false) in
      let* p := get current_ in
      let* single :=
        (if same : bool then
           if negb (c =? "*"%ch) then ret true
           else let* nl := lift (contains_new_line m commentBegin p) in ret (negb nl)
         else ret false) in
      let* _ := add_comment commentBegin p (if single : bool then comment_after_on_same_line else comment_before) in
      ret true
    else ret true.

(** ** Lexemes *)

Definition is_digit (c : Z) : bool := ("0"%ch <=? c) && (c <=? "9"%ch).

(** [c = (current_ = p) < end_ ? *p++ : 0]: [current_], [c] and [p]. *)
Definition number_char (e p : Z) : res (Z * Z * Z) :=
  if p <? e then let! c := load m p in Ok (p, c, p + 1) else Ok (p, 0, p).
(** [while (c >= '0' && c <= '9')] that. *)
Definition number_digits (e : Z) (s : Z * Z * Z) : res (Z * Z * Z) :=
  iterate (S (span_fuel s.1.1 e)) (fun '(current, c, p) =>
    if is_digit c then let! s := number_char e p in Ok (inl s) else Ok (inr (current, c, p))) s.

Definition read_number : M unit := fun r =>
  let e := end_ r in
  let! (current, c, p) := number_digits e (current_ r, "0"%ch, current_ r) in
  let! (current, c, p) :=
    (if c =? "."%ch then let! s := number_char e p in number_digits e s else Ok (current, c, p)) in
  let! (current, c, p) :=
    (if (c =? "e"%ch) || (c =? "E"%ch) then
       let! (current, c, p) := number_char e p in
       let! s := (if (c =? "+"%ch) || (c =? "-"%ch) then number_char e p else Ok (current, c, p)) in
       number_digits e s
     else Ok (current, c, p)) in
  Ok (tt, with_current current r).

(** The loop of [read_string] and [read_string_single_quote]. *)
Definition quoted_turn (quote c : Z) : M (Z + Z) :=
  let* more := get (fun r => negb (current_ r =? end_ r)) in
  if more : bool then
    let* c := get_next_char in
    if c =? BACKSLASH then let* _ := get_next_char in ret (inl c)
    else if c =? quote then ret (inr c)
    else ret (inl c)
  else ret (inr c).
Definition read_quoted (quote : Z) : M bool :=
  let* fuel := get (fun r => span_fuel (current_ r) (end_ r)) in
  let* c := loop fuel (quoted_turn quote) 0 in
  ret (c =? quote).
Definition read_string : M bool := read_quoted DQUOTE.
Definition read_string_single_quote : M bool := read_quoted "'"%ch.

(** The type of the token that starts with [c], and whether its rest is well formed;
    [tt_error] stands for the type that the default case leaves unset. *)
Definition read_token_rest (c : Z) : M (token_type * bool) :=
  let comment := let* ok := read_comment in ret (tt_comment, ok) in
  if c =? "{"%ch then ret (tt_object_begin, true)
  else if c =? "}"%ch then ret (tt_object_end, true)
  else if c =? "["%ch then ret (tt_array_begin, true)
  else if c =? "]"%ch then ret (tt_array_end, true)
  else if c =? DQUOTE then let* ok := read_string in ret (tt_string, ok)
  else if c =? "'"%ch then
    match ours_ features_ with
    | Some x =>
        if allow_single_quotes_ x then let* ok := read_string_single_quote in ret (tt_string, ok) else comment
    | None => ret (tt_error, false)
    end
  else if c =? "/"%ch then comment
  else if is_digit c || (c =? "-"%ch) then let* _ := read_number in ret (tt_number, true)
  else if c =? "t"%ch then let* ok := match_ (str "rue") in ret (tt_true, ok)
  else if c =? "f"%ch then let* ok := match_ (str "alse") in ret (tt_false, ok)
  else if c =? "n"%ch then let* ok := match_ (str "ull") in ret (tt_null, ok)
  else if c =? ","%ch then ret (tt_array_separator, true)
  else if c =? ":"%ch then ret (tt_member_separator, true)
  else if c =? 0 then ret (tt_end_of_stream, true)
  else ret (tt_error, false).

Definition read_token : M token :=
  let* _ := skip_spaces in
  let* start := get current_ in
  let* c := get_next_char in
  let* (t, ok) := read_token_rest c in
  let* stop := get current_ in
  ret {| token_type_ := if ok : bool then t else tt_error; token_start_ := start; token_end_ := stop |}.

(** [do read_token(token); while (token.type_ == tt_comment)]. *)
Definition comment_turn (_ : unit) : M (unit + token) :=
  let* t := read_token in
  if bool_decide (token_type_ t = tt_comment) then ret (inl tt) else ret (inr t).
Definition read_tokens_past_comments : M token :=
  let* fuel := get (fun r => S (span_fuel (current_ r) (end_ r))) in
  loop fuel comment_turn tt.

Definition skip_comment_tokens : M token :=
  if allow_comments_ features_ then read_tokens_past_comments else read_token.

(** Skips to a token of the type, or to the end, and keeps the errors as they were. *)
Definition recover_turn (skip_until_token : token_type) (_ : unit) : M (unit + unit) :=
  let* skip := read_token in
  if bool_decide (token_type_ skip = skip_until_token) || bool_decide (token_type_ skip = tt_end_of_stream)
  then ret (inr tt) else ret (inl tt).
Definition recover_from_error (skip_until_token : token_type) : M bool :=
  let* error_count := get (fun r => length (errors_ r)) in
  let* fuel := get (fun r => S (span_fuel (current_ r) (end_ r))) in
  let* _ := loop fuel (recover_turn skip_until_token) tt in
  let* _ := put (fun r => with_errors (take error_count (errors_ r)) r) in
  ret false.

Definition add_error_and_recover (message : list Z) (t : token) (skip_until_token : token_type) : M bool :=
  let* _ := add_error message t 0 in recover_from_error skip_until_token.

(** ** Decoding

    The result of a decoder is [None] when it returns false. *)

Definition failed {A} (message : list Z) (t : token) (extra : Z) : M (option A) :=
  let* _ := add_error message t extra in ret None.

Definition decode_double (t : token) : M (option value) :=
  let length := i32 (token_end_ t - token_start_ t) in
  if length <? 0 then failed (str "Unable to parse token length") t 0
  else
    let* s := lift (load_range m (token_start_ t) (token_end_ t)) in
    match sscanf_lf (c_str s) with
    | Some d => ret (Some (value_of_double d))
    | None => failed (str "'" ++ s ++ str "' is not a number.") t 0
    end.

(** The loop over the digits: [None] when it goes on to [decode_double]. *)
Definition decode_digits (max_integer_value stop : Z) (s : Z * Z) : res (option Z) :=
  let threshold := max_integer_value / 10 in
  iterate (span_fuel s.1 stop) (fun '(current, value) =>
    if current <? stop then
      let! c := load m current in
      let current := current + 1 in
      if (c <? "0"%ch) || ("9"%ch <? c) then Ok (inr None)
      else
        let digit := u32 (c - "0"%ch) in
        if (threshold <=? value)
           && ((threshold <? value) || negb (current =? stop) || (max_integer_value mod 10 <? digit))
        then Ok (inr None)
        else Ok (inl (current, u64 (u64 (value * 10) + digit)))
    else Ok (inr (Some value))) s.

Definition decode_number (t : token) : M (option value) :=
  let* c := lift (load m (token_start_ t)) in
  let is_negative := c =? "-"%ch in
  let current := if is_negative then token_start_ t + 1 else token_start_ t in
  let* max_integer_value :=
    lift (if is_negative then let! n := negate negate_min min_int64 in Ok (u64 n) else Ok max_uint64) in
  let* value := lift (decode_digits max_integer_value (token_end_ t) (current, 0)) in
  match value with
  | None => decode_double t
  | Some value =>
      if is_negative then
        let* n := lift (negate negate_min (i64 value)) in ret (Some (value_of_int n))
      else if value <=? u64 max_int then ret (Some (value_of_int (i64 value)))
      else ret (Some (value_of_uint value))
  end.

(** One of the four hexadecimal digits: the next state, or what is returned. *)
Definition escape_digit (t : token) '((index, current, unicode) : Z * Z * Z) : M (Z * Z * Z + option (Z * Z)) :=
  if index <? 4 then
    let* c := lift (load m current) in
    let current := current + 1 in
    let unicode := u32 (unicode * 16) in
    if is_digit c then ret (inl (index + 1, current, u32 (unicode + (c - "0"%ch))))
    else if ("a"%ch <=? c) && (c <=? "f"%ch) then
      ret (inl (index + 1, current, u32 (unicode + (c - "a"%ch + 10))))
    else if ("A"%ch <=? c) && (c <=? "F"%ch) then
      ret (inl (index + 1, current, u32 (unicode + (c - "A"%ch + 10))))
    else
      let* err := failed (str "Bad unicode escape sequence in string: hexadecimal digit expected.") t current in
      ret (inr err)
  else ret (inr (Some (current, unicode))).

(** Where it gets to and [unicode]. *)
Definition decode_unicode_escape_sequence (t : token) (current e : Z) : M (option (Z * Z)) :=
  if e - current <? 4 then
    failed (str "Bad unicode escape sequence in string: four digits expected.") t current
  else loop 5 (escape_digit t) (0, current, 0).

Definition decode_unicode_codepoint (t : token) (current e : Z) : M (option (Z * Z)) :=
  let* r := decode_unicode_escape_sequence t current e in
  match r with
  | None => ret None
  | Some (current, unicode) =>
      if (0xD800 <=? unicode) && (unicode <=? 0xDBFF) then
        if e - current <? 6 then
          failed (str "additional six characters expected to parse unicode surrogate pair.") t current
        else
          let message := str "expecting another \u token to begin the second half of a unicode surrogate pair" in
          let* c := lift (load m current) in
          let current := current + 1 in
          if c =? BACKSLASH then
            let* c := lift (load m current) in
            let current := current + 1 in
            if c =? "u"%ch then
              let* r := decode_unicode_escape_sequence t current e in
              match r with
              | Some (current, surrogatePair) =>
                  ret (Some (current, 0x10000 + Z.shiftl (Z.land unicode 0x3FF) 10 + Z.land surrogatePair 0x3FF))
              | None => ret None
              end
            else failed message t current
          else failed message t current
      else ret (Some (current, unicode))
  end.

(** The escapes of one char. *)
Definition simple_escape (c : Z) : option Z :=
  if c =? DQUOTE then Some DQUOTE
  else if c =? "/"%ch then Some "/"%ch
  else if c =? BACKSLASH then Some BACKSLASH
  else if c =? "b"%ch then Some 8
  else if c =? "f"%ch then Some 12
  else if c =? "n"%ch then Some LF
  else if c =? "r"%ch then Some CR
  else if c =? "t"%ch then Some TAB
  else None.

(** One turn of the loop of [decode_string], which stops at [stop]. *)
Definition string_turn (t : token) (stop : Z) '((current, decoded) : Z * list Z) : M (Z * list Z + option (list Z)) :=
  if negb (current =? stop) then
    let* c := lift (load m current) in
    let current := current + 1 in
    if c =? DQUOTE then ret (inr (Some decoded))
    else if c =? BACKSLASH then
      if current =? stop then
        let* err := failed (str "Empty escape sequence in string") t current in ret (inr err)
      else
        let* escape := lift (load m current) in
        let current := current + 1 in
        match simple_escape escape with
        | Some d => ret (inl (current, decoded ++ [d]))
        | None =>
            if escape =? "u"%ch then
              let* r := decode_unicode_codepoint t current stop in
              match r with
              | Some (current, unicode) => ret (inl (current, decoded ++ codepoint_to_utf8 unicode))
              | None => ret (inr None)
              end
            else
              let* err := failed (str "Bad escape sequence in string") t current in ret (inr err)
        end
    else ret (inl (current, decoded ++ [c]))
  else ret (inr (Some decoded)).
Definition decode_string (t : token) : M (option (list Z)) :=
  loop (span_fuel (token_start_ t) (token_end_ t)) (string_turn t (token_end_ t - 1)) (token_start_ t + 1, []).

(** What [decode_number(token)], [decode_string(token)] and the literals of
    [read_value] do with what they have read. *)
Definition set_current_value (x : value) (start limit : Z) : M unit :=
  on_current_value (fun v => Ok (set_offset_limit limit (set_offset_start start (swap_payload x v)))).
Definition set_token_value (t : token) (x : value) : M unit :=
  let* b := get begin_ in set_current_value x (token_start_ t - b) (token_end_ t - b).

Definition decode_number_value (t : token) : M bool :=
  let* x := decode_number t in
  match x with Some x => let* _ := set_token_value t x in ret true | None => ret false end.
Definition decode_string_value (t : token) : M bool :=
  let* s := decode_string t in
  match s with
  | Some s => let* x := lift (value_of_string s) in let* _ := set_token_value t x in ret true
  | None => ret false
  end.

(** ** Values

    [read_value] is an argument of the readers of arrays and objects. *)

Section members.
Context (read_value : M bool).

(** [value &value = current_value()[...]; nodes_.push(&value); read_value(); nodes_.pop()]. *)
Definition read_member (demand : value -> res value) (k : key) : M bool :=
  let* _ := on_current_value demand in
  let* _ := push_node k in
  let* ok := read_value in
  let* _ := pop_node in
  ret ok.

Definition array_turn (index : Z) : M (Z + bool) :=
  let* ok := read_member (int_demand index) (index_key (u32 index)) in
  if negb ok then let* r := recover_from_error tt_array_end in ret (inr r)
  else
    let* t := read_tokens_past_comments in
    if bool_decide (token_type_ t = tt_array_separator) then ret (inl (index + 1))
    else if bool_decide (token_type_ t = tt_array_end) then ret (inr true)
    else
      let* r := add_error_and_recover (str "Missing ',' or ']' in array declaration") t tt_array_end in
      ret (inr r).

Definition begin_container (ty : value_type) (token_start : token) : M unit :=
  let* b := get begin_ in
  on_current_value (fun v => Ok (set_offset_start (token_start_ token_start - b) (swap_payload (value_of_type ty) v))).

Definition read_array (token_start : token) : M bool :=
  let* _ := begin_container vt_array token_start in
  let* _ := skip_spaces in
  let* p := get current_ in
  let* c := lift (load m p) in
  if c =? "]"%ch then let* _ := read_token in ret true
  else
    let* fuel := get (fun r => span_fuel (current_ r) (end_ r)) in
    loop fuel array_turn 0.

(** The name of a member: [inl] to go on, [inr] with what [read_object] returns; [None]
    to leave the loop. *)
Definition member_name (t : token) : M (option (list Z + bool)) :=
  let recover := let* r := recover_from_error tt_object_end in ret (Some (inr r)) in
  if bool_decide (token_type_ t = tt_string) then
    let* name := decode_string t in
    match name with Some name => ret (Some (inl name)) | None => recover end
  else if bool_decide (token_type_ t = tt_number) && allow_numeric_keys_ features_ then
    let* number_name := decode_number t in
    match number_name with
    | Some n => let* name := lift (as_string negate_min printf_17g n) in ret (Some (inl name))
    | None => recover
    end
  else ret None.

(** What [our_reader] asks of a name: [Some] when [read_object] returns. *)
Definition check_name (t : token) (name : list Z) : M (option bool) :=
  match ours_ features_ with
  | None => ret None
  | Some x =>
      if 2 ^ 30 <=? Zlen name then lift (Throw (runtime_error (str "keylength >= 2^30")))
      else if reject_dup_keys_ x then
        let* v := get_current_value in
        let* dup := lift (is_member name v) in
        if dup : bool then
          let* r := add_error_and_recover (str "Duplicate key: '" ++ name ++ str "'") t tt_object_end in
          ret (Some r)
        else ret None
      else ret None
  end.

(** After the name: the colon, the value and the comma. *)
Definition object_member (t : token) (name : list Z) : M (list Z + bool) :=
  let* colon := read_token in
  if negb (bool_decide (token_type_ colon = tt_member_separator)) then
    let* r := add_error_and_recover (str "Missing ':' after object member name") colon tt_object_end in ret (inr r)
  else
    let* stop := check_name t name in
    match stop with
    | Some r => ret (inr r)
    | None =>
        let* ok := read_member (name_demand name) (name_key (czstring name)) in
        if negb ok then let* r := recover_from_error tt_object_end in ret (inr r)
        else
          let* comma := read_token in
          if bool_decide (token_type_ comma = tt_object_end) then ret (inr true)
          else if bool_decide (token_type_ comma = tt_array_separator) then ret (inl name)
          else if bool_decide (token_type_ comma = tt_comment) then
            let* comma := read_tokens_past_comments in
            if bool_decide (token_type_ comma = tt_object_end) then ret (inr true) else ret (inl name)
          else
            let* r := add_error_and_recover (str "Missing ',' or '}' in object declaration") comma tt_object_end in
            ret (inr r)
    end.

Definition object_turn (name : list Z) : M (list Z + bool) :=
  let* t := read_tokens_past_comments in
  if bool_decide (token_type_ t = tt_object_end) && bool_decide (name = []) then ret (inr true)
  else
    let* r := member_name t in
    match r with
    | Some (inl name) => object_member t name
    | Some (inr r) => ret (inr r)
    | None =>
        let* r := add_error_and_recover (str "Missing '}' or object member name") t tt_object_end in ret (inr r)
    end.

Definition read_object (token_start : token) : M bool :=
  let* _ := begin_container vt_object token_start in
  let* fuel := get (fun r => span_fuel (current_ r) (end_ r)) in
  loop fuel object_turn [].
End members.

(** [current_value().set_offset_limit(current_ - begin_)]. *)
Definition close_container : M unit :=
  let* limit := get (fun r => current_ r - begin_ r) in on_current_value (fun v => Ok (set_offset_limit limit v)).

(** The comments before a value. *)
Definition attach_comments : M unit :=
  let* comments := get comments_before_ in
  let* collect := get collect_comments_ in
  if collect && bool_decide (comments <> []) then
    let* _ := on_current_value (set_comment comments comment_before) in put (with_comments [])
  else ret tt.

(** What leaves [read_value] at once: [None] is the error of the default case. *)
Definition syntax_error (t : token) : M (option bool) :=
  let* b := get begin_ in
  let* _ := on_current_value (fun v =>
    Ok (set_offset_limit (token_end_ t - b) (set_offset_start (token_start_ t - b) v))) in
  let* _ := add_error (str "Syntax error: value, object or array expected.") t 0 in
  ret None.
(** The separator is left for the caller. *)
Definition dropped_null (t : token) : M (option bool) :=
  if allow_dropped_null_placeholders_ features_ then
    let* _ := put (fun r => with_current (current_ r - 1) r) in
    let* limit := get (fun r => current_ r - begin_ r) in
    let* _ := set_current_value null_ref (u64 (limit - 1)) limit in
    ret (Some true)
  else syntax_error t.

Definition read_value_token (read_value : M bool) (t : token) : M (option bool) :=
  let some (x : M bool) := let* ok := x in ret (Some ok) in
  match token_type_ t with
  | tt_object_begin => let* ok := read_object read_value t in let* _ := close_container in ret (Some ok)
  | tt_array_begin => let* ok := read_array read_value t in let* _ := close_container in ret (Some ok)
  | tt_number => some (decode_number_value t)
  | tt_string => some (decode_string_value t)
  | tt_true => let* _ := set_token_value t (value_of_bool true) in ret (Some true)
  | tt_false => let* _ := set_token_value t (value_of_bool false) in ret (Some true)
  | tt_null => let* _ := set_token_value t null_ref in ret (Some true)
  | tt_array_separator | tt_object_end | tt_array_end => dropped_null t
  | _ => syntax_error t
  end.

Fixpoint read_value (fuel : nat) : M bool :=
  match fuel with
  | O => fun _ => Spin
  | S fuel' =>
      let* depth := get stack_depth_ in
      if stack_limit features_ <=? depth then
        lift (Throw (runtime_error (str "Exceeded stack_limit in read_value().")))
      else
        let* _ := put (with_depth (depth + 1)) in
        let* t := skip_comment_tokens in
        let* _ := attach_comments in
        let* ok := read_value_token (read_value fuel') t in
        match ok with
        | None => ret false
        | Some successful =>
            let* collect := get collect_comments_ in
            let* _ :=
              (if collect : bool then
                 put (fun r => with_last (current_ r) (head (nodes_ r)) r)
               else ret tt) in
            let* _ := put (fun r => with_depth (stack_depth_ r - 1) r) in
            ret successful
        end
  end.

(** ** parse

    The depth of the calls is bounded by the limit of the stack, and by the text: each
    takes a char at least. *)
Definition parse_fuel (b e : Z) : nat := S (S (Z.to_nat (Z.min (e - b) (stack_limit features_)))).

Definition start (b e : Z) (collect_comments : bool) (root : value) : reader :=
  {| nodes_ := [[]]; errors_ := []; begin_ := b; end_ := e; current_ := b; last_value_end_ := 0; last_value_ := None;
     comments_before_ := []; stack_depth_ := 0;
     collect_comments_ := if negb (allow_comments_ features_) then false else collect_comments; root_ := root |}.

Definition set_root_comment : M unit :=
  let* comments := get comments_before_ in
  let* collect := get collect_comments_ in
  if collect && bool_decide (comments <> []) then
    fun r => let! root := set_comment comments comment_after (root_ r) in Ok (tt, with_root root r)
  else ret tt.

Definition check_root (successful : bool) : M bool :=
  if strict_root_ features_ then
    let* root := get root_ in
    if negb (is_array root) && negb (is_object root) then
      let* b := get begin_ in
      let* e := get end_ in
      add_error (str "A valid JSON document must be either an array or an object value.")
        {| token_type_ := tt_error; token_start_ := b; token_end_ := e |} 0
    else ret successful
  else ret successful.

Definition has_extra (t : token) : bool :=
  match ours_ features_ with
  | Some x =>
      fail_if_extra_ x && negb (bool_decide (token_type_ t = tt_error))
      && negb (bool_decide (token_type_ t = tt_end_of_stream))
  | None => false
  end.

(** [parse(begin_doc, end_doc, root, collect_comments)]: what it returns and the reader
    after it, which has the new [root]. *)
Definition parse (begin_doc end_doc : Z) (root : value) (collect_comments : bool) : res (bool * reader) :=
  (let* successful := read_value (parse_fuel begin_doc end_doc) in
   let* t := skip_comment_tokens in
   if has_extra t then add_error (str "Extra non-whitespace after JSON value.") t 0
   else
     let* _ := set_root_comment in
     check_root successful) (start begin_doc end_doc collect_comments root).
End reader.

(** [parse(document, root, collect_comments)]: [document_] is a copy of the document,
    whose chars are at [a] with a NUL behind them. *)
Definition document_memory (a : Z) (document : list Z) : mem := map_seqZ a (document ++ [0]).
Definition parse_string (negate_min : res Z) (printf_17g : double -> list Z) (sscanf_lf : list Z -> option double)
    (a : Z) (features_ : features) (document : list Z) (root : value) (collect_comments : bool) : res (bool * reader) :=
  parse negate_min printf_17g sscanf_lf (document_memory a document) features_
    a (a + Zlen document) root collect_comments.

(** ** What is asked after parsing *)

Definition good (r : reader) : bool := (length (errors_ r) =? 0)%nat.

(** [get_location_line_and_column(location, line, column)]. *)
Definition line_and_column (m : mem) (r : reader) (location : Z) : res (Z * Z) :=
  iterate (span_fuel (begin_ r) (end_ r)) (fun '(current, last_line_start, line) =>
    if (current <? location) && negb (current =? end_ r) then
      let! c := load m current in
      let current := current + 1 in
      if c =? CR then
        let! d := load m current in
        let current := if d =? LF then current + 1 else current in
        Ok (inl (current, current, line + 1))
      else if c =? LF then Ok (inl (current, current, line + 1))
      else Ok (inl (current, last_line_start, line))
    else Ok (inr (line + 1, i32 (location - last_line_start) + 1))) (begin_ r, begin_ r, 0).

(** [%d]. *)
Definition show_int (n : Z) : list Z := if n <? 0 then ["-"%ch] ++ show_unsigned (- n) else show_unsigned n.
Definition get_location_line_and_column (m : mem) (r : reader) (location : Z) : res (list Z) :=
  let! (line, column) := line_and_column m r location in
  Ok (str "Line " ++ show_int line ++ str ", Column " ++ show_int column).

Definition format_error (m : mem) (r : reader) (e : error_info) : res (list Z) :=
  let! place := get_location_line_and_column m r (token_start_ (token_ e)) in
  let message := str "* " ++ place ++ [LF] ++ str "  " ++ message_ e ++ [LF] in
  if negb (extra_ e =? 0) then
    let! place := get_location_line_and_column m r (extra_ e) in
    Ok (message ++ str "See " ++ place ++ str " for detail." ++ [LF])
  else Ok message.

Fixpoint format_errors (m : mem) (r : reader) (l : list error_info) : res (list Z) :=
  match l with
  | [] => Ok []
  | e :: l' => let! s := format_error m r e in let! s' := format_errors m r l' in Ok (s ++ s')
  end.
Definition get_formatted_messages (m : mem) (r : reader) : res (list Z) := format_errors m r (errors_ r).

Record structured_error : Type := { offset_start : Z; offset_limit : Z; message : list Z }.
Definition get_structured_errors (r : reader) : list structured_error :=
  map (fun e =>
    {| offset_start := token_start_ (token_ e) - begin_ r; offset_limit := token_end_ (token_ e) - begin_ r;
       message := message_ e |}) (errors_ r).

(** The two [push_error]s. *)
Definition push_error (v : value) (message : list Z) (r : reader) : bool * reader :=
  let length := end_ r - begin_ r in
  if (length <? start_ v) || (length <? limit_ v) then (false, r)
  else
    let t := {| token_type_ := tt_error; token_start_ := begin_ r + start_ v; token_end_ := end_ r + limit_ v |} in
    (true, with_errors (errors_ r ++ [{| token_ := t; message_ := message; extra_ := 0 |}]) r).
Definition push_error_extra (v : value) (message : list Z) (extra : value) (r : reader) : bool * reader :=
  let length := end_ r - begin_ r in
  if (length <? start_ v) || (length <? limit_ v) || (length <? limit_ extra) then (false, r)
  else
    let t := {| token_type_ := tt_error; token_start_ := begin_ r + start_ v; token_end_ := begin_ r + limit_ v |} in
    (true, with_errors (errors_ r ++ [{| token_ := t; message_ := message; extra_ := begin_ r + start_ extra |}]) r).

(** ** The builder of char readers *)

Definition reader_keys : list string :=
  ["collect_comments"%string; "allow_comments"%string; "strict_root"%string;
   "allow_dropped_null_placeholders"%string; "allow_numeric_keys"%string; "allow_single_quotes"%string;
   "stack_limit"%string; "fail_if_extra"%string; "reject_dup_keys"%string].

(** [settings_[name]] of a const builder. *)
Definition setting (settings : value) (name : string) : res value :=
  let! found := find (str name) settings in Ok (deref found).
Definition bool_setting (settings : value) (name : string) : res bool := let! v := setting settings name in as_bool v.

(** The [our_char_reader] that [new_char_reader] makes: its [collect_comments_] and the
    features of its reader. *)
Definition new_char_reader (settings : value) : res (bool * features) :=
  let! collect_comments := bool_setting settings "collect_comments" in
  let! allow_comments := bool_setting settings "allow_comments" in
  let! strict_root := bool_setting settings "strict_root" in
  let! dropped := bool_setting settings "allow_dropped_null_placeholders" in
  let! numeric := bool_setting settings "allow_numeric_keys" in
  let! single := bool_setting settings "allow_single_quotes" in
  let! limit := (let! v := setting settings "stack_limit" in as_int v) in
  let! extra := bool_setting settings "fail_if_extra" in
  let! dup := bool_setting settings "reject_dup_keys" in
  Ok (collect_comments,
      {| allow_comments_ := allow_comments; strict_root_ := strict_root; allow_dropped_null_placeholders_ := dropped;
         allow_numeric_keys_ := numeric;
         ours_ := Some {| allow_single_quotes_ := single; fail_if_extra_ := extra; reject_dup_keys_ := dup;
                          stack_limit_ := limit |} |}).

Fixpoint validate_keys (valid_keys : list string) (settings : value) (keys : list (list Z)) (invalid : value) : res value :=
  match keys with
  | [] => Ok invalid
  | key :: keys' =>
      if bool_decide (key ∈ map str valid_keys) then validate_keys valid_keys settings keys' invalid
      else
        let! found := find key settings in
        let! invalid := assign_name key (deref found) invalid in
        validate_keys valid_keys settings keys' invalid
  end.
(** [validate(invalid)]: what it returns and [*invalid]. *)
Definition validate (settings invalid : value) : res (bool * value) :=
  let! keys := get_member_names settings in
  let! invalid := validate_keys reader_keys settings keys invalid in
  Ok (size invalid =? 0, invalid).

Fixpoint assign_all (l : list (string * value)) (settings : value) : res value :=
  match l with
  | [] => Ok settings
  | (name, x) :: l' => let! settings := assign_name (str name) x settings in assign_all l' settings
  end.
Definition strict_mode : value -> res value :=
  assign_all [("allow_comments"%string, value_of_bool false); ("strict_root"%string, value_of_bool true);
    ("allow_dropped_null_placeholders"%string, value_of_bool false); ("allow_numeric_keys"%string, value_of_bool false);
    ("allow_single_quotes"%string, value_of_bool false); ("fail_if_extra"%string, value_of_bool true);
    ("reject_dup_keys"%string, value_of_bool true)].
Definition set_defaults : value -> res value :=
  assign_all [("collect_comments"%string, value_of_bool true); ("allow_comments"%string, value_of_bool true);
    ("strict_root"%string, value_of_bool false); ("allow_dropped_null_placeholders"%string, value_of_bool false);
    ("allow_numeric_keys"%string, value_of_bool false); ("allow_single_quotes"%string, value_of_bool false);
    ("stack_limit"%string, value_of_int 1000); ("fail_if_extra"%string, value_of_bool false);
    ("reject_dup_keys"%string, value_of_bool false)].
Definition char_reader_builder_new : res value := set_defaults null_ref.

(** [our_char_reader::parse]: what it returns, [*root] and [*errs]. *)
Definition char_reader_parse (negate_min : res Z) (printf_17g : double -> list Z) (sscanf_lf : list Z -> option double)
    (m : mem) '((collect, f) : bool * features) (begin_doc end_doc : Z) (root : value) : res (bool * value * list Z) :=
  let! (ok, r) := parse negate_min printf_17g sscanf_lf m f begin_doc end_doc root collect in
  let! errs := get_formatted_messages m r in
  Ok (ok, root_ r, errs).

(** ** Streams

    A stream is the chars that are left in it; the state it has besides is not modelled. *)

(** [std::getline(sin, doc, delim)]: [doc] and what is left. *)
Fixpoint getline (delim : Z) (sin : list Z) : list Z * list Z :=
  match sin with
  | [] => ([], [])
  | c :: sin' => if c =? delim then ([], sin') else let '(doc, rest) := getline delim sin' in (c :: doc, rest)
  end.
(** [(char)EOF]. *)
Definition EOF : Z := -1.
(** [parse(sin, root, collect_comments)]. *)
Definition parse_istream (negate_min : res Z) (printf_17g : double -> list Z) (sscanf_lf : list Z -> option double)
    (a : Z) (features_ : features) (sin : list Z) (root : value) (collect_comments : bool) : res (bool * reader * list Z) :=
  let '(doc, sin) := getline EOF sin in
  let! (ok, r) := parse_string negate_min printf_17g sscanf_lf a features_ doc root collect_comments in
  Ok (ok, r, sin).

(** [parse_from_stream(fact, sin, root, errs)] for a builder with these settings: all that is left is read. *)
Definition parse_from_stream (negate_min : res Z) (printf_17g : double -> list Z) (sscanf_lf : list Z -> option double)
    (a : Z) (settings : value) (sin : list Z) (root : value) : res (bool * value * list Z) :=
  let! reader_ := new_char_reader settings in
  char_reader_parse negate_min printf_17g sscanf_lf (document_memory a sin) reader_ a (a + Zlen sin) root.

(** [operator>>]: the new [root]. *)
Definition stream_in (negate_min : res Z) (printf_17g : double -> list Z) (sscanf_lf : list Z -> option double)
    (a : Z) (sin : list Z) (root : value) : res value :=
  let! settings := char_reader_builder_new in
  let! (ok, root, errs) := parse_from_stream negate_min printf_17g sscanf_lf a settings sin root in
  if ok : bool then Ok root else Throw (runtime_error (str "reader error")).
