(* ===== verification/JsonGrammar.v ===== *)
(** * What JSON texts mean

    The grammar of RFC 8259, with the value each text stands for: a specification,
    written without reference to the reader.  A value has no comments and no offsets.
    Numbers without fraction and exponent that fit are integers, signed when they fit [int];
    the others are what [sscanf] reads.  Of members with the same name the last counts. *)

From stdpp Require Import base tactics list strings.
From Stdlib Require Import ZArith Lia SpecFloat.
From S2P Require Import Prelude CString StdString ScanNumbers Unicode JsonText JsonValue.
#[local] Open Scope Z_scope.

Definition white (c : Z) : Prop := c = " "%ch \/ c = TAB \/ c = CR \/ c = LF.
Definition blank (w : list Z) : Prop := Forall white w.
Definition digit (c : Z) : Prop := "0"%ch <= c <= "9"%ch.

(** ** Numbers *)

Definition num (ds : list Z) : Z := foldl (fun n c => n * 10 + (c - "0"%ch)) 0 ds.

(** [-]digits[.digits][(e|E)[+|-]digits]. *)
Definition fraction (t : list Z) : Prop := t = [] \/ exists ds, t = "."%ch :: ds /\ Forall digit ds.
Definition exponent (t : list Z) : Prop :=
  t = [] \/
  exists e sign ds, t = e :: sign ++ ds /\ (e = "e"%ch \/ e = "E"%ch) /\
    (sign = [] \/ sign = ["+"%ch] \/ sign = ["-"%ch]) /\ Forall digit ds.
Definition number_text (t : list Z) : Prop :=
  exists sign ds frac exp, t = sign ++ ds ++ frac ++ exp /\ (sign = [] \/ sign = ["-"%ch]) /\
    ds <> [] /\ Forall digit ds /\ fraction frac /\ exponent exp.

Section meaning.
Context (negate_min : res Z) (sscanf_lf : list Z -> option double).

Inductive number : list Z -> holder value -> Prop :=
| number_natural ds :
    ds <> [] -> Forall digit ds -> num ds <= max_uint64 ->
    number ds (if num ds <=? max_int then int_ (num ds) else uint_ (num ds))
| number_negative ds :
    negate_min = Ok min_int64 -> ds <> [] -> Forall digit ds -> num ds <= - min_int64 ->
    number ("-"%ch :: ds) (int_ (- num ds))
| number_real t d :
    number_text t ->
    (forall ds, t = ds -> Forall digit ds -> max_uint64 < num ds) ->
    (forall ds, t = "-"%ch :: ds -> negate_min = Ok min_int64 /\ (Forall digit ds -> - min_int64 < num ds)) ->
    sscanf_lf t = Some d ->
    number t (real_ d).

(** ** Strings *)

Definition hex (c n : Z) : Prop :=
  ("0"%ch <= c <= "9"%ch /\ n = c - "0"%ch) \/ ("a"%ch <= c <= "f"%ch /\ n = c - "a"%ch + 10) \/
  ("A"%ch <= c <= "F"%ch /\ n = c - "A"%ch + 10).
Inductive hex4 : list Z -> Z -> Prop :=
| hex4_intro c1 c2 c3 c4 n1 n2 n3 n4 :
    hex c1 n1 -> hex c2 n2 -> hex c3 n3 -> hex c4 n4 ->
    hex4 [c1; c2; c3; c4] (((n1 * 16 + n2) * 16 + n3) * 16 + n4).

Definition escapes (c d : Z) : Prop :=
  (c, d) ∈ [(DQUOTE, DQUOTE); ("/"%ch, "/"%ch); (BACKSLASH, BACKSLASH); ("b"%ch, 8); ("f"%ch, 12); ("n"%ch, LF);
            ("r"%ch, CR); ("t"%ch, TAB)].

(** The text between the quotes, and the chars it stands for. *)
Inductive chars : list Z -> list Z -> Prop :=
| chars_nil : chars [] []
| chars_plain c t s : c <> DQUOTE -> c <> BACKSLASH -> chars t s -> chars (c :: t) (c :: s)
| chars_escape c d t s : escapes c d -> chars t s -> chars (BACKSLASH :: c :: t) (d :: s)
| chars_unicode h cp t s :
    hex4 h cp -> ~ 0xD800 <= cp <= 0xDBFF -> chars t s ->
    chars (BACKSLASH :: "u"%ch :: h ++ t) (utf8_chars cp ++ s)
| chars_surrogates h1 h2 hi lo t s :
    hex4 h1 hi -> hex4 h2 lo -> 0xD800 <= hi <= 0xDBFF -> 0xDC00 <= lo <= 0xDFFF -> chars t s ->
    chars (BACKSLASH :: "u"%ch :: h1 ++ BACKSLASH :: "u"%ch :: h2 ++ t)
      (utf8_chars (0x10000 + (hi - 0xD800) * 0x400 + (lo - 0xDC00)) ++ s).

(** ** Values *)

Inductive scalar : list Z -> holder value -> Prop :=
| scalar_null : scalar (str "null") null_
| scalar_true : scalar (str "true") (bool_ true)
| scalar_false : scalar (str "false") (bool_ false)
| scalar_number t h : number t h -> scalar t h
| scalar_string t s : chars t s -> scalar (DQUOTE :: t ++ [DQUOTE]) (string_ (Some s)).

Section members.
Context (json : list Z -> value -> Prop).

(** Values between commas, then the bracket. *)
Inductive elements : list Z -> list value -> Prop :=
| elements_last w1 t w2 v :
    blank w1 -> json t v -> blank w2 -> elements (w1 ++ t ++ w2 ++ ["]"%ch]) [v]
| elements_cons w1 t w2 v ts vs :
    blank w1 -> json t v -> blank w2 -> elements ts vs ->
    elements (w1 ++ t ++ w2 ++ ","%ch :: ts) (v :: vs).

Inductive pairs : list Z -> list (list Z * value) -> Prop :=
| pairs_last w1 k name w2 w3 t w4 v :
    blank w1 -> chars k name -> blank w2 -> blank w3 -> json t v -> blank w4 ->
    pairs (w1 ++ DQUOTE :: k ++ DQUOTE :: w2 ++ ":"%ch :: w3 ++ t ++ w4 ++ ["}"%ch]) [(name, v)]
| pairs_cons w1 k name w2 w3 t w4 v ts ps :
    blank w1 -> chars k name -> blank w2 -> blank w3 -> json t v -> blank w4 -> pairs ts ps ->
    pairs (w1 ++ DQUOTE :: k ++ DQUOTE :: w2 ++ ":"%ch :: w3 ++ t ++ w4 ++ ","%ch :: ts) ((name, v) :: ps).
End members.

(** The members of an object, by name: later ones replace earlier ones. *)
Definition add_members (ps : list (list Z * value)) (m : list (list Z * value)) : list (list Z * value) :=
  foldl (fun m p => map_set name_less name_equal p.1 p.2 m) m ps.
Definition indexed (vs : list value) : list (Z * value) := imap (fun i v => (Z.of_nat i, v)) vs.

(** [json n t v]: [t] is the text of [v], nested at most [n] deep. *)
Fixpoint json (n : nat) (t : list Z) (v : value) : Prop :=
  match n with
  | O => False
  | S n' =>
      (exists h, scalar t h /\ v = init_basic h)
      \/ (exists w, blank w /\ t = "["%ch :: w ++ ["]"%ch] /\ v = init_basic (array_ []))
      \/ (exists ts vs, elements (json n') ts vs /\ t = "["%ch :: ts /\ v = init_basic (array_ (indexed vs)))
      \/ (exists w, blank w /\ t = "{"%ch :: w ++ ["}"%ch] /\ v = init_basic (object_ []))
      \/ (exists ts ps, pairs (json n') ts ps /\ t = "{"%ch :: ts /\ v = init_basic (object_ (add_members ps [])))
  end.

(** A document: one value between blanks. *)
Definition document (n : nat) (text : list Z) (v : value) : Prop :=
  exists w1 t w2, text = w1 ++ t ++ w2 /\ blank w1 /\ json n t v /\ blank w2.
End meaning.
