(* ===== verification/JsonReading.v ===== *)
(** * The reader reads JSON

    On a document of [JsonGrammar], not nested deeper than the limit of the stack,
    [parse] returns true and the root is the value the document stands for. *)

From stdpp Require Import base tactics list gmap strings.
From Stdlib Require Import ZArith Lia SpecFloat.
From S2P Require Import Prelude CString StdString ScanNumbers Unicode JsonText JsonValue JsonReader JsonGrammar.
#[local] Open Scope Z_scope.
#[local] Arguments str : simpl never.

(** ** Moving over the text *)

(** Lengths of texts put together. *)
Ltac lens := autorewrite with intent; lia.

Definition move (n : Z) (r : reader) : reader := with_current (current_ r + n) r.

Lemma i32_fits x : - 2 ^ 31 <= x < 2 ^ 31 -> i32 x = x.
Proof. intros. unfold i32. rewrite Z.mod_small; lia. Qed.
Lemma i64_fits x : - 2 ^ 63 <= x < 2 ^ 63 -> i64 x = x.
Proof. intros. unfold i64. rewrite Z.mod_small; lia. Qed.

Lemma move_0 r : move 0 r = r.
Proof. unfold move, with_current. rewrite Z.add_0_r. by destruct r. Qed.
Lemma move_move a b r : move b (move a r) = move (a + b) r.
Proof. unfold move, with_current. simpl. by rewrite Z.add_assoc. Qed.

Section reading.
Context (negate_min : res Z) (printf_17g : double -> list Z) (sscanf_lf : list Z -> option double).
Context (m : mem) (features_ : features).

(** The text from the current location to the end. *)
Definition ahead (r : reader) (l : list Z) : Prop := holds m (current_ r) l /\ end_ r = current_ r + Zlen l.

Lemma ahead_move r a b : ahead r (a ++ b) -> ahead (move (Zlen a) r) b.
Proof. unfold ahead. simpl. rewrite holds_app, Zlen_app. intros [[_ ?] ?]. split; [done|lia]. Qed.
Lemma ahead_cons r c b : ahead r (c :: b) -> ahead (move 1 r) b.
Proof. apply (ahead_move r [c] b). Qed.

Lemma get_next_char_ahead r c l : ahead r (c :: l) -> get_next_char m r = Ok (c, move 1 r).
Proof.
  intros [[Hc _] He]. unfold get_next_char. rewrite Zlen_cons in He. pose proof (Zlen_nonneg l).
  zfalse (current_ r =? end_ r). by rewrite (load_Some _ _ _ Hc).
Qed.
Lemma get_next_char_end r : ahead r [] -> get_next_char m r = Ok (0, r).
Proof. intros [_ He]. unfold get_next_char. rewrite Zlen_nil in He. by ztrue (current_ r =? end_ r). Qed.

Definition starts (ok : Z -> Prop) (l : list Z) : Prop := match l with [] => False | c :: _ => ok c end.

Lemma is_space_white c : is_space c = true <-> white c.
Proof. unfold is_space, white. rewrite !orb_true_iff, !Z.eqb_eq. tauto. Qed.

Lemma skip_spaces_ahead r w l :
  ahead r (w ++ l) -> blank w -> ~ starts white l -> skip_spaces m r = Ok (tt, move (Zlen w) r).
Proof.
  intros [Hm He] Hw Hl. unfold skip_spaces.
  rewrite (iterate_scan_len is_space m (end_ r) _ (w ++ l)); [|..|done|done|by apply length_lt_span_fuel].
  - simpl. rewrite scan_len_app_all.
    + replace (scan_len is_space l) with 0; [by rewrite Z.add_0_r|].
      destruct l as [|c l]; simpl; [done|]. destruct (is_space c) eqn:E; [|done].
      exfalso. by apply Hl, is_space_white.
    + eapply Forall_impl; [exact Hw|]. intros c Hc. by apply is_space_white.
  - intros q c Hc Hq. zfalse (q =? end_ r). simpl. rewrite (load_Some _ _ _ Hc). simpl. by destruct (is_space c).
  - by rewrite Z.eqb_refl.
Qed.

(** A step of a [let*]. *)
Lemma mbind_Ok {A B} (x : M A) (k : A -> M B) r a r' : x r = Ok (a, r') -> mbind x k r = k a r'.
Proof. intros H. unfold mbind. by rewrite H. Qed.

Lemma loop_step {S A} fuel (body : S -> M (S + A)) s r x r' :
  body s r = Ok (x, r') ->
  loop (Datatypes.S fuel) body s r = match x with inl s' => loop fuel body s' r' | inr a => Ok (a, r') end.
Proof. intros H. unfold loop. simpl. rewrite H. simpl. by destruct x. Qed.

(** ** Strings *)

(** The text between quotes, as far as [read_string] looks. *)
Inductive quoted : list Z -> Prop :=
| quoted_nil : quoted []
| quoted_plain c t : c <> DQUOTE -> c <> BACKSLASH -> quoted t -> quoted (c :: t)
| quoted_escape c t : quoted t -> quoted (BACKSLASH :: c :: t).

Lemma hex_range c n : hex c n -> 0 <= n < 16 /\ c <> DQUOTE /\ c <> BACKSLASH.
Proof. unfold hex. lia. Qed.
Lemma hex4_range h cp : hex4 h cp -> 0 <= cp < 0x10000.
Proof. intros []. repeat match goal with H : hex _ _ |- _ => apply hex_range in H end. lia. Qed.

Lemma quoted_hex4 h cp t : hex4 h cp -> quoted t -> quoted (h ++ t).
Proof.
  intros [c1 c2 c3 c4 n1 n2 n3 n4] Ht. repeat match goal with H : hex _ _ |- _ => apply hex_range in H end.
  simpl. repeat (apply quoted_plain; [lia|lia|]). done.
Qed.

Lemma chars_quoted t s : chars t s -> quoted t.
Proof.
  induction 1; [constructor|by constructor|by constructor|..].
  - apply quoted_escape. by eapply quoted_hex4.
  - apply quoted_escape. eapply quoted_hex4; [done|]. apply quoted_escape. by eapply quoted_hex4.
Qed.

Lemma read_quoted_loop_spec t :
  quoted t -> forall fuel c r l, ahead r (t ++ DQUOTE :: l) -> (length t < fuel)%nat ->
  loop fuel (quoted_turn m DQUOTE) c r = Ok (DQUOTE, move (Zlen t + 1) r).
Proof.
  assert (forall r l c, ahead r (c :: l) -> (current_ r =? end_ r) = false) as Hmore.
  { intros r l c [_ He]. rewrite Zlen_cons in He. pose proof (Zlen_nonneg l). ztest. }
  induction 1 as [|d t Hq Hb _ IH|d t _ IH]; intros fuel c r l Ha Hf; (destruct fuel as [|fuel]; [simpl in Hf; lia|]).
  - simpl in Ha. erewrite loop_step; [|unfold quoted_turn, mbind, get; simpl; rewrite (Hmore _ _ _ Ha); simpl;
      by rewrite (get_next_char_ahead _ _ _ Ha)]. done.
  - simpl in Ha, Hf. erewrite loop_step; [|unfold quoted_turn, mbind, get; simpl; rewrite (Hmore _ _ _ Ha); simpl;
      rewrite (get_next_char_ahead _ _ _ Ha); simpl; zfalse (d =? 92); by zfalse (d =? 34)].
    simpl. rewrite (IH _ _ _ _ (ahead_cons _ _ _ Ha)) by lia. rewrite move_move, Zlen_cons. do 3 f_equal. lia.
  - simpl in Ha, Hf. erewrite loop_step; [|unfold quoted_turn, mbind, get; simpl; rewrite (Hmore _ _ _ Ha); simpl;
      rewrite (get_next_char_ahead _ _ _ Ha); simpl; by rewrite (get_next_char_ahead _ _ _ (ahead_cons _ _ _ Ha))].
    simpl. rewrite (IH _ _ _ _ (ahead_cons _ _ _ (ahead_cons _ _ _ Ha))) by lia.
    rewrite !move_move, !Zlen_cons. do 3 f_equal. lia.
Qed.

Lemma read_string_spec r t l :
  quoted t -> ahead r (t ++ DQUOTE :: l) -> read_string m r = Ok (true, move (Zlen t + 1) r).
Proof.
  intros Ht Ha. unfold read_string, read_quoted. unfold mbind at 1, get at 1. simpl.
  erewrite mbind_Ok by (apply (read_quoted_loop_spec t Ht _ _ _ l Ha); destruct Ha as [_ He];
    rewrite Zlen_app in He; unfold span_fuel, Zlen in *; simpl in *; lia).
  done.
Qed.
(** ** Numbers *)

Lemma is_digit_digit c : is_digit c = true <-> digit c.
Proof. unfold is_digit, digit. lia. Qed.

Definition numeric (c : Z) : Prop :=
  digit c \/ c = "."%ch \/ c = "e"%ch \/ c = "E"%ch \/ c = "+"%ch \/ c = "-"%ch.

(** [current_], [c] and [p] in [read_number] when the text from [a] on is [l]. *)
Definition number_state (a : Z) (l : list Z) : Z * Z * Z :=
  match l with [] => (a, 0, a) | c :: _ => (a, c, a + 1) end.

Lemma number_char_spec e a l : holds m a l -> e = a + Zlen l -> number_char m e a = Ok (number_state a l).
Proof.
  unfold number_char. destruct l as [|c l]; intros Hm ->.
  - rewrite Zlen_nil. by zfalse (a <? a + 0).
  - rewrite Zlen_cons. pose proof (Zlen_nonneg l). ztrue (a <? a + (1 + Zlen l)).
    destruct Hm as [Hc _]. by rewrite (load_Some _ _ _ Hc).
Qed.

(** The loop from a digit, [p] being where the text [l] starts. *)
Lemma number_digits_loop e ds : forall fuel a c p l,
  Forall digit ds -> ~ starts digit l -> is_digit c = true -> holds m p (ds ++ l) -> e = p + Zlen (ds ++ l) ->
  (length ds + 1 < fuel)%nat ->
  iterate fuel (fun '(current, c, p) =>
    if is_digit c then let! s := number_char m e p in Ok (inl s) else Ok (inr (current, c, p))) (a, c, p)
  = Ok (number_state (p + Zlen ds) l).
Proof.
  induction ds as [|d ds IH]; intros fuel a c p l Hds Hl Hc Hm He Hf; (destruct fuel as [|fuel]; [simpl in Hf; lia|]);
    simpl; rewrite Hc, (number_char_spec _ _ _ Hm He); simpl in *.
  - rewrite Zlen_nil, Z.add_0_r. destruct fuel as [|fuel]; [lia|]. destruct l as [|x l]; simpl; [done|].
    destruct (is_digit x) eqn:E; [|done]. by apply is_digit_digit in E.
  - apply Forall_cons in Hds as [Hd Hds]. rewrite (IH _ _ _ _ l); [|done|done|by apply is_digit_digit|apply Hm|..].
    + rewrite Zlen_cons. f_equal. f_equal. lia.
    + rewrite Zlen_cons in He. lia.
    + lia.
Qed.

Lemma number_digits_first e a ds l :
  Forall digit ds -> ~ starts digit l -> holds m a (ds ++ l) -> e = a + Zlen (ds ++ l) ->
  number_digits m e (a, "0"%ch, a) = Ok (number_state (a + Zlen ds) l).
Proof.
  intros Hds Hl Hm He. unfold number_digits. apply number_digits_loop; try done.
  rewrite Zlen_app in He. unfold span_fuel, Zlen in *. simpl. lia.
Qed.

Lemma number_digits_spec e a ds l :
  Forall digit ds -> ~ starts digit l -> holds m a (ds ++ l) -> e = a + Zlen (ds ++ l) ->
  number_digits m e (number_state a (ds ++ l)) = Ok (number_state (a + Zlen ds) l).
Proof.
  intros Hds Hl Hm He. unfold number_digits.
  assert ((number_state a (ds ++ l)).1.1 = a) as -> by by destruct (ds ++ l).
  destruct ds as [|d ds].
  - simpl. rewrite Zlen_nil, Z.add_0_r. destruct l as [|x l]; simpl; [done|].
    destruct (is_digit x) eqn:E; [|done]. by apply is_digit_digit in E.
  - apply Forall_cons in Hds as [Hd Hds]. cbn [number_state app holds] in *. rewrite Zlen_cons in He.
    rewrite (number_digits_loop e ds _ _ _ _ l); [|done|done|by apply is_digit_digit|apply Hm|lia|].
    + rewrite Zlen_cons. by rewrite Z.add_assoc.
    + rewrite Zlen_app in He. unfold span_fuel, Zlen in *. lia.
Qed.

Lemma starts_app_digit ok (ds l : list Z) : (ds <> [] -> starts ok ds -> False) -> ~ starts ok l -> ~ starts ok (ds ++ l).
Proof. destruct ds; simpl; naive_solver. Qed.

(** From the digits on; the sign or the first digit has been read. *)
Lemma read_number_spec r ds frac exp l :
  Forall digit ds -> fraction frac -> exponent exp -> ~ starts numeric l -> ahead r (ds ++ frac ++ exp ++ l) ->
  read_number m r = Ok (tt, move (Zlen (ds ++ frac ++ exp)) r).
Proof.
  intros Hds Hfrac Hexp Hl [Hm He].
  assert (forall k, exponent k -> ~ starts digit (k ++ l)) as Hek.
  { intros k [->|(e & sg & es & -> & [-> | ->] & _)]; simpl; [|unfold digit; lia..].
    destruct l as [|x l]; simpl in *; [done|]. unfold numeric in Hl. tauto. }
  unfold read_number. rewrite (number_digits_first _ _ ds (frac ++ exp ++ l)); try done.
  2: { destruct Hfrac as [->|(fs & -> & _)]; simpl; [by apply Hek|unfold digit; lia]. }
  cbn [bind]. apply holds_app in Hm as [_ Hm]. rewrite Zlen_app in He.
  set (a := current_ r + Zlen ds) in *.
  assert (exists a', a' = a + Zlen frac /\ holds m a' (exp ++ l) /\ end_ r = a' + Zlen (exp ++ l) /\
    (let '(current, c, p) := number_state a (frac ++ exp ++ l) in
     if c =? "."%ch then let! s := number_char m (end_ r) p in number_digits m (end_ r) s else Ok (current, c, p))
    = Ok (number_state a' (exp ++ l))) as (a' & Ha' & Hm' & He' & Hrun).
  { destruct Hfrac as [->|(fs & -> & Hfs)]; simpl.
    - exists a. simpl in *. rewrite Zlen_nil. split_and!; [lia|done|lia|].
      destruct (number_state a (exp ++ l)) as [[current c] p] eqn:E. destruct (Z.eqb_spec c "."%ch) as [->|]; [|done].
      exfalso. destruct Hexp as [->|(e & sg & es & -> & [-> | ->] & _)]; simpl in E; try (by injection E; lia).
      destruct l as [|x l]; simpl in *; injection E; intros; subst; [lia|]. apply Hl. unfold numeric. tauto.
    - simpl in *. rewrite Zlen_cons in He. destruct Hm as [_ Hm].
      rewrite (number_char_spec _ _ (fs ++ exp ++ l)) by (done || lia). cbn [bind].
      rewrite (number_digits_spec _ _ fs (exp ++ l)) by (done || lia || by apply Hek).
      exists (a + 1 + Zlen fs). rewrite !Zlen_cons. split_and!; [lia|by apply holds_app in Hm as [_ Hm]| |done].
      rewrite Zlen_app in He. lia. }
  destruct (number_state a (frac ++ exp ++ l)) as [[c1 c2] c3]. rewrite Hrun. cbn [bind].
  rewrite Zlen_app, Zlen_app. unfold move.
  replace (current_ r + (Zlen ds + (Zlen frac + Zlen exp))) with (a' + Zlen exp) by (unfold a in *; lia).
  clear -Hexp Hl Hm' He'.
  destruct Hexp as [->|(e & sg & es & -> & Hee & Hsg & Hes)].
  - rewrite Zlen_nil, Z.add_0_r. simpl. destruct l as [|x l]; simpl; [done|].
    simpl in Hl. unfold numeric in Hl. zfalse (x =? "e"%ch). zfalse (x =? "E"%ch). done.
  - simpl in *. rewrite Zlen_cons in He'. destruct Hm' as [_ Hm].
    replace ((e =? 101) || (e =? 69)) with true by (destruct Hee as [-> | ->]; done).
    rewrite (number_char_spec _ _ ((sg ++ es) ++ l)) by (done || lia). cbn [bind].
    rewrite <-app_assoc in *.
    assert (~ starts digit l) as Hld by (destruct l; simpl in *; [done|]; unfold numeric in Hl; tauto).
    assert ((let '(current, c, p) := number_state (a' + 1) (sg ++ es ++ l) in
      if (c =? "+"%ch) || (c =? "-"%ch) then number_char m (end_ r) p else Ok (current, c, p))
      = Ok (number_state (a' + 1 + Zlen sg) (es ++ l))) as Hsign.
    { destruct Hsg as [->|[-> | ->]]; simpl in *.
      - rewrite Zlen_nil, Z.add_0_r. destruct (number_state (a' + 1) (es ++ l)) as [[current c] p] eqn:E.
        assert (c <> "+"%ch /\ c <> "-"%ch) as [Hp Hn].
        { destruct es as [|x es]; simpl in E.
          - destruct l as [|x l]; simpl in *; injection E; intros; subst; [done|]. unfold numeric in Hl. tauto.
          - apply Forall_cons in Hes as [Hx _]. injection E; intros; subst. unfold digit in Hx. lia. }
        apply Z.eqb_neq in Hp, Hn. by rewrite Hp, Hn.
      - rewrite Zlen_cons in He'. rewrite (number_char_spec _ _ (es ++ l)) by (apply Hm || lia). done.
      - rewrite Zlen_cons in He'. rewrite (number_char_spec _ _ (es ++ l)) by (apply Hm || lia). done. }
    destruct (number_state (a' + 1) (sg ++ es ++ l)) as [[d1 d2] d3]. rewrite Hsign. cbn [bind].
    apply holds_app in Hm as [_ Hm]. rewrite Zlen_app in He'.
    rewrite (number_digits_spec _ _ es l) by (done || lia). cbn [bind].
    rewrite Zlen_cons, Zlen_app. replace (a' + (1 + (Zlen sg + Zlen es))) with (a' + 1 + Zlen sg + Zlen es) by lia.
    by destruct l.
Qed.
(** ** Tokens *)

Lemma match_spec r pattern l :
  ahead r (pattern ++ l) -> match_ m pattern r = Ok (true, move (Zlen pattern) r).
Proof.
  intros [Hm He]. rewrite Zlen_app in He. pose proof (Zlen_nonneg l). unfold match_.
  zfalse (end_ r - current_ r <? Zlen pattern). apply holds_app in Hm as [Hm _].
  rewrite (load_range_spec _ _ _ Hm). simpl. by rewrite bool_decide_true.
Qed.

Definition token_from (r : reader) (ty : token_type) (skipped n : Z) : token :=
  {| token_type_ := ty; token_start_ := current_ r + skipped; token_end_ := current_ r + skipped + n |}.

(** A token is blanks, its first char and its rest. *)
Lemma read_token_spec r w c l ty n :
  blank w -> ~ white c -> ahead r (w ++ c :: l) ->
  read_token_rest m features_ c (move (Zlen w + 1) r) = Ok ((ty, true), move (Zlen w + n) r) ->
  read_token m features_ r = Ok (token_from r ty (Zlen w) n, move (Zlen w + n) r).
Proof.
  intros Hw Hc Ha Hrest. unfold read_token.
  erewrite mbind_Ok by (by eapply skip_spaces_ahead). erewrite mbind_Ok by reflexivity.
  erewrite mbind_Ok by (by eapply get_next_char_ahead, ahead_move). rewrite move_move.
  erewrite mbind_Ok by exact Hrest. simpl. unfold mbind, get, ret, token_from. simpl. by rewrite Z.add_assoc.
Qed.

(** The tokens of one char. *)
Definition punctuation (c : Z) : option token_type :=
  if c =? "{"%ch then Some tt_object_begin else if c =? "}"%ch then Some tt_object_end
  else if c =? "["%ch then Some tt_array_begin else if c =? "]"%ch then Some tt_array_end
  else if c =? ","%ch then Some tt_array_separator else if c =? ":"%ch then Some tt_member_separator else None.

Lemma read_punctuation r w c l ty :
  blank w -> punctuation c = Some ty -> ahead r (w ++ c :: l) ->
  read_token m features_ r = Ok (token_from r ty (Zlen w) 1, move (Zlen w + 1) r).
Proof.
  intros Hw Hc Ha. apply read_token_spec with c l; [done| |done|]; unfold punctuation in Hc; ztest_in Hc; subst;
    injection Hc as <-; unfold white; (lia || done).
Qed.

Lemma read_string_token r w t s l :
  blank w -> chars t s -> ahead r (w ++ DQUOTE :: t ++ DQUOTE :: l) ->
  read_token m features_ r = Ok (token_from r tt_string (Zlen w) (Zlen t + 2), move (Zlen w + (Zlen t + 2)) r).
Proof.
  intros Hw Ht Ha. apply read_token_spec with DQUOTE (t ++ DQUOTE :: l); [done|unfold white; lia|done|].
  unfold read_token_rest. simpl. apply ahead_move, ahead_cons in Ha. rewrite move_move in Ha.
  erewrite mbind_Ok by (eapply read_string_spec; [by eapply chars_quoted|exact Ha]).
  unfold ret. rewrite move_move. do 3 f_equal. lia.
Qed.

Lemma read_literal_token r w c t l ty :
  blank w -> (c, t, ty) ∈ [("t"%ch, str "rue", tt_true); ("f"%ch, str "alse", tt_false); ("n"%ch, str "ull", tt_null)] ->
  ahead r (w ++ c :: t ++ l) ->
  read_token m features_ r = Ok (token_from r ty (Zlen w) (1 + Zlen t), move (Zlen w + (1 + Zlen t)) r).
Proof.
  intros Hw Hc Ha. apply read_token_spec with c (t ++ l); [done| |done|].
  - rewrite !elem_of_cons in Hc. unfold white. destruct Hc as [[= -> -> ->]|[[= -> -> ->]|[[= -> -> ->]|Hc]]]; [lia..|by apply not_elem_of_nil in Hc].
  - apply ahead_move, ahead_cons in Ha. rewrite move_move in Ha. pose proof (match_spec _ _ _ Ha) as Hmatch.
    rewrite move_move, <-Z.add_assoc in Hmatch.
    rewrite !elem_of_cons in Hc. destruct Hc as [[= -> -> ->]|[[= -> -> ->]|[[= -> -> ->]|Hc]]]; [..|by apply not_elem_of_nil in Hc];
      unfold read_token_rest; simpl; by erewrite mbind_Ok by exact Hmatch.
Qed.

Lemma number_text_starts t : number_text t -> exists c t', t = c :: t' /\ (digit c \/ c = "-"%ch).
Proof.
  intros (sign & ds & frac & exp & -> & [-> | ->] & Hds & Hall & _); [|simpl; eauto].
  destruct ds as [|d ds]; [done|]. apply Forall_cons in Hall as [Hd _]. simpl. eauto.
Qed.

Lemma read_number_token r w t l :
  blank w -> number_text t -> ~ starts numeric l -> ahead r (w ++ t ++ l) ->
  read_token m features_ r = Ok (token_from r tt_number (Zlen w) (Zlen t), move (Zlen w + Zlen t) r).
Proof.
  intros Hw Ht Hl Ha. destruct (number_text_starts _ Ht) as (c & t' & -> & Hc).
  assert (exists ds frac exp, t' = ds ++ frac ++ exp /\ Forall digit ds /\ fraction frac /\ exponent exp)
    as (ds & frac & exp & -> & Hds & Hfrac & Hexp).
  { destruct Ht as (sign & ds & frac & exp & Heq & [-> | ->] & Hne & Hall & Hfrac & Hexp).
    - destruct ds as [|d ds]; [done|]. apply Forall_cons in Hall as [_ Hall]. injection Heq as -> ->. by exists ds, frac, exp.
    - injection Heq as -> ->. by exists ds, frac, exp. }
  apply read_token_spec with c ((ds ++ frac ++ exp) ++ l); [done|unfold white, digit in *; lia|done|].
  apply ahead_move, (ahead_cons _ c ((ds ++ frac ++ exp) ++ l)) in Ha. rewrite move_move, <-!app_assoc in Ha.
  pose proof (read_number_spec _ _ _ _ _ Hds Hfrac Hexp Hl Ha) as Hrun. rewrite move_move in Hrun.
  unfold read_token_rest. unfold digit in Hc.
  repeat match goal with |- context [c =? ?k] => first [zfalse (c =? k)|destruct (Z.eqb_spec c k); [lia|]] end.
  replace (is_digit c || _) with true.
  - erewrite mbind_Ok by exact Hrun. unfold ret. rewrite Zlen_cons. do 3 f_equal. lia.
  - unfold is_digit. ztest; lia.
Qed.
(** ** Decoding numbers *)

Definition num_from (v : Z) (ds : list Z) : Z := foldl (fun n c => n * 10 + (c - "0"%ch)) v ds.

Lemma num_from_ge ds v : Forall digit ds -> 0 <= v -> v <= num_from v ds.
Proof.
  revert v. induction ds as [|c ds IH]; intros v Hds Hv; simpl; [lia|]. apply Forall_cons in Hds as [Hc Hds].
  unfold digit in Hc. specialize (IH (v * 10 + (c - "0"%ch)) Hds). unfold num_from in *. lia.
Qed.
Lemma num_from_more c ds v : Forall digit (c :: ds) -> 0 <= v -> v * 10 <= num_from v (c :: ds).
Proof.
  intros Hds Hv. apply Forall_cons in Hds as [Hc Hds]. unfold digit in Hc.
  pose proof (num_from_ge ds (v * 10 + (c - "0"%ch)) Hds). unfold num_from in *. simpl. lia.
Qed.

(** The digits are an integer exactly when they fit. *)
Lemma decode_digits_spec limit stop : forall x fuel a v,
  9 < limit < 2 ^ 64 -> 0 <= v <= limit -> holds m a x -> stop = a + Zlen x -> (length x < fuel)%nat ->
  exists o,
    iterate fuel (fun '(current, value) =>
      if current <? stop then
        let! c := load m current in
        let current := current + 1 in
        if (c <? "0"%ch) || ("9"%ch <? c) then Ok (inr None)
        else
          let digit := u32 (c - "0"%ch) in
          if (limit / 10 <=? value)
             && ((limit / 10 <? value) || negb (current =? stop) || (limit mod 10 <? digit))
          then Ok (inr None)
          else Ok (inl (current, u64 (u64 (value * 10) + digit)))
      else Ok (inr (Some value))) (a, v) = Ok o /\
    match o with
    | Some n => Forall digit x /\ n = num_from v x /\ n <= limit
    | None => Forall digit x -> limit < num_from v x
    end.
Proof.
  induction x as [|c x IH]; intros fuel a v Hlim Hv Hm He Hf; (destruct fuel as [|fuel]; [simpl in Hf; lia|]); simpl.
  - rewrite Zlen_nil in He. zfalse (a <? stop). exists (Some v). split_and!; [done|constructor|done|lia].
  - rewrite Zlen_cons in He. pose proof (Zlen_nonneg x). ztrue (a <? stop). destruct Hm as [Hc Hm].
    rewrite (load_Some _ _ _ Hc). cbn [bind]. simpl in Hf.
    pose proof (Z.div_mod limit 10 ltac:(lia)). pose proof (Z.mod_pos_bound limit 10 ltac:(lia)).
    destruct (Z.ltb_spec c "0"%ch); [|destruct (Z.ltb_spec "9"%ch c)]; simpl.
    1,2: exists None; split; [done|]; intros [Hd _]%Forall_cons; unfold digit in Hd; lia.
    assert (digit c) as Hd by (unfold digit; lia). rewrite (u32_small (c - "0"%ch)) by lia.
    destruct ((limit / 10 <=? v) && _) eqn:E; simpl.
    + exists None. split; [done|]. intros Hx. apply andb_true_iff in E as [E1 E2].
      rewrite !orb_true_iff, negb_true_iff in E2. apply Z.leb_le in E1. pose proof (num_from_more _ _ v Hx ltac:(lia)).
      destruct E2 as [[E2|E2]|E2].
      * apply Z.ltb_lt in E2. unfold num_from in *. simpl in *. lia.
      * apply Z.eqb_neq in E2. destruct x as [|c' x]; [rewrite Zlen_nil in *; lia|].
        apply Forall_cons in Hx as [_ Hx]. pose proof (num_from_more c' x (v * 10 + (c - "0"%ch)) Hx ltac:(lia)) as Hn.
        unfold num_from in *. simpl in *. nia.
      * apply Z.ltb_lt in E2. apply Forall_cons in Hx as [_ Hx].
        pose proof (num_from_ge x (v * 10 + (c - "0"%ch)) Hx ltac:(lia)). unfold num_from in *. simpl. lia.
    + assert (v * 10 + (c - "0"%ch) <= limit) as Hle.
      { apply andb_false_iff in E as [E|E]; [apply Z.leb_gt in E; lia|].
        rewrite !orb_false_iff in E. destruct E as [[E1 _] E2]. apply Z.ltb_ge in E1, E2. lia. }
      rewrite u64_add_l, u64_small by lia.
      destruct (IH fuel (a + 1) (v * 10 + (c - "0"%ch))) as (o & Hrun & Ho); [lia|lia|done|lia|lia|].
      exists o. split; [done|]. destruct o as [n|].
      * destruct Ho as (Hall & -> & ?). split_and!; [by constructor|done|done].
      * intros [_ Hx]%Forall_cons. by apply Ho.
Qed.

Lemma digits_no_nul ds : Forall digit ds -> no_nul ds.
Proof. intros Hds Hin. rewrite Forall_forall in Hds. specialize (Hds _ Hin). unfold digit in Hds. lia. Qed.
Lemma no_nul_app a b : no_nul a -> no_nul b -> no_nul (a ++ b).
Proof. unfold no_nul. rewrite elem_of_app. tauto. Qed.
Lemma no_nul_nil : no_nul [].
Proof. apply not_elem_of_nil. Qed.

Lemma number_text_no_nul t : number_text t -> no_nul t.
Proof.
  intros (sign & ds & frac & exp & -> & Hsign & _ & Hds & Hfrac & Hexp).
  assert (forall sg, sg = [] \/ sg = ["+"%ch] \/ sg = ["-"%ch] -> no_nul sg) as Hsg.
  { intros sg [->|[-> | ->]]; [apply no_nul_nil|apply no_nul_cons; split; [lia|apply no_nul_nil]..]. }
  repeat apply no_nul_app; [apply Hsg; tauto|by apply digits_no_nul|..].
  - destruct Hfrac as [->|(fs & -> & Hfs)]; [apply no_nul_nil|]. apply no_nul_cons. split; [lia|by apply digits_no_nul].
  - destruct Hexp as [->|(e & sg & es & -> & He & Hs & Hes)]; [apply no_nul_nil|]. apply no_nul_cons. split; [lia|].
    apply no_nul_app; [by apply Hsg|by apply digits_no_nul].
Qed.
Lemma number_text_digits ds : ds <> [] -> Forall digit ds -> number_text ds.
Proof.
  intros Hne Hds. exists [], ds, [], []. simpl. rewrite !app_nil_r. split_and!; auto; by left.
Qed.
Lemma number_text_negative ds : ds <> [] -> Forall digit ds -> number_text ("-"%ch :: ds).
Proof.
  intros Hne Hds. exists ["-"%ch], ds, [], []. simpl. rewrite !app_nil_r. split_and!; auto; by left.
Qed.
Lemma number_number_text t h : number negate_min sscanf_lf t h -> number_text t.
Proof. intros []; [by apply number_text_digits|by apply number_text_negative|done]. Qed.

Lemma decode_double_spec tok r t d :
  number_text t -> holds m (token_start_ tok) t -> token_end_ tok = token_start_ tok + Zlen t -> Zlen t < 2 ^ 31 ->
  sscanf_lf t = Some d -> decode_double sscanf_lf m tok r = Ok (Some (value_of_double d), r).
Proof.
  intros Ht Hm He Hlen Hd. unfold decode_double. pose proof (Zlen_nonneg t).
  assert (i32 (token_end_ tok - token_start_ tok) = Zlen t) as ->.
  { rewrite He, i32_fits; lia. }
  zfalse (Zlen t <? 0). rewrite He. unfold mbind, lift. rewrite (load_range_spec _ _ _ Hm). simpl.
  by rewrite (c_str_no_nul t) by (by apply number_text_no_nul); rewrite Hd.
Qed.

Lemma decode_digits_run limit stop a x :
  9 < limit < 2 ^ 64 -> holds m a x -> stop = a + Zlen x ->
  exists o, decode_digits m limit stop (a, 0) = Ok o /\
    match o with
    | Some n => Forall digit x /\ n = num x /\ n <= limit
    | None => Forall digit x -> limit < num x
    end.
Proof.
  intros Hlim Hm He. unfold decode_digits. apply (decode_digits_spec limit stop x); [done|lia|done|done|].
  simpl. by apply length_lt_span_fuel.
Qed.

Lemma num_nonneg ds : Forall digit ds -> 0 <= num ds.
Proof. intros Hds. apply (num_from_ge ds 0); [done|lia]. Qed.

Lemma decode_number_spec tok r t h :
  number negate_min sscanf_lf t h -> holds m (token_start_ tok) t -> token_end_ tok = token_start_ tok + Zlen t ->
  Zlen t < 2 ^ 31 ->
  decode_number negate_min sscanf_lf m tok r = Ok (Some (init_basic h), r).
Proof.
  intros Hn Hm He Hlen. destruct (number_text_starts t) as (c & t' & -> & Hc); [by eapply number_number_text|].
  unfold decode_number, mbind, lift. pose proof Hm as [Hc0 Hm']. rewrite (load_Some _ _ _ Hc0). cbn [bind].
  destruct Hc as [Hc| ->].
  - unfold digit in Hc. zfalse (c =? "-"%ch). cbn [bind].
    destruct (decode_digits_run max_uint64 (token_end_ tok) (token_start_ tok) (c :: t')) as (o & -> & Ho);
      [unfold max_uint64; lia|done|done|]. cbn [bind]. inversion Hn as [ds Hne Hds Hfit|ds|t0 d Ht Hnat Hneg Hd]; subst; [|lia|].
    + destruct o as [n|]; [|specialize (Ho Hds); lia]. destruct Ho as (_ & -> & _).
      pose proof (num_nonneg _ Hds). change (u64 max_int) with max_int.
      destruct (num (c :: t') <=? max_int) eqn:E; [|done]. apply Z.leb_le in E. unfold max_int in E.
      by rewrite i64_fits by lia.
    + destruct o as [n|].
      { destruct Ho as (Hall & -> & Hle). specialize (Hnat _ eq_refl Hall). lia. }
      by rewrite (decode_double_spec _ _ _ d Ht Hm He).
  - cbn [Z.eqb Pos.eqb]. rewrite Z.eqb_refl. 
    assert (negate_min = Ok min_int64) as Hneg.
    { inversion Hn as [ds Hne Hds|ds Hneg|t0 d Ht Hnat Hneg Hd]; subst; [|done|by apply (Hneg t')].
      apply Forall_cons in Hds as [Hd _]. unfold digit in Hd. lia. }
    assert (forall x, x = min_int64 -> negate negate_min x = Ok min_int64) as Hmin.
    { intros x ->. unfold negate. by rewrite Z.eqb_refl. }
    rewrite Hmin by done. cbn [bind]. change (u64 min_int64) with (2 ^ 63). rewrite Zlen_cons in He.
    destruct (decode_digits_run (2 ^ 63) (token_end_ tok) (token_start_ tok + 1) t') as (o & -> & Ho);
      [lia|done|lia|]. cbn [bind]. inversion Hn as [ds Hne Hds|ds _ Hne Hds Hfit|t0 d Ht Hnat Hneg' Hd]; subst.
    + apply Forall_cons in Hds as [Hd _]. unfold digit in Hd. lia.
    + unfold min_int64 in *. destruct o as [n|]; [|specialize (Ho Hds); lia]. destruct Ho as (_ & -> & _).
      pose proof (num_nonneg _ Hds). destruct (Z.eq_dec (num t') (2 ^ 63)) as [->|Hne'].
      * change (i64 (2 ^ 63)) with min_int64. by rewrite Hmin.
      * rewrite i64_fits by lia. unfold negate. by zfalse (num t' =? - 2 ^ 63).
    + destruct o as [n|].
      { destruct Ho as (Hall & -> & Hle). destruct (Hneg' _ eq_refl) as [_ Hbig]. specialize (Hbig Hall).
        unfold min_int64 in *. lia. }
      rewrite (decode_double_spec _ _ ("-"%ch :: t') d Ht Hm); [done|by rewrite Zlen_cons|done|done].
Qed.
(** ** Decoding strings *)

Lemma escape_digit_spec tok c n i a u r :
  hex c n -> m !! a = Some c -> 0 <= u < 2 ^ 28 -> i < 4 ->
  escape_digit m tok (i, a, u) r = Ok (inl (i + 1, a + 1, u * 16 + n), r).
Proof.
  intros Hh Hc Hu Hi. unfold escape_digit. ztrue (i <? 4). unfold mbind, lift. rewrite (load_Some _ _ _ Hc). cbn [bind].
  rewrite (u32_small (u * 16)) by lia. unfold is_digit.
  destruct Hh as [[? ->]|[[? ->]|[? ->]]]; ztest; unfold ret; rewrite u32_small by lia; reflexivity.
Qed.

Lemma decode_hex4 tok h cp a e l r :
  hex4 h cp -> holds m a (h ++ l) -> a + 4 <= e ->
  decode_unicode_escape_sequence m tok a e r = Ok (Some (a + 4, cp), r).
Proof.
  intros [c1 c2 c3 c4 n1 n2 n3 n4 H1 H2 H3 H4] Hm He. unfold decode_unicode_escape_sequence. zfalse (e - a <? 4). cbn iota.
  destruct Hm as (Hm1 & Hm2 & Hm3 & Hm4 & _).
  pose proof (hex_range _ _ H1). pose proof (hex_range _ _ H2). pose proof (hex_range _ _ H3).
  erewrite loop_step by (eapply escape_digit_spec; [exact H1|done|lia|lia]). cbn iota.
  erewrite loop_step by (eapply escape_digit_spec; [exact H2|done|lia|lia]). cbn iota.
  erewrite loop_step by (eapply escape_digit_spec; [exact H3|done|lia|lia]). cbn iota.
  erewrite loop_step by (eapply escape_digit_spec; [exact H4|done|lia|lia]). cbn iota.
  erewrite loop_step by reflexivity. do 4 f_equal; lia.
Qed.

Lemma decode_codepoint tok h cp a e l r :
  hex4 h cp -> ~ 0xD800 <= cp <= 0xDBFF -> holds m a (h ++ l) -> a + 4 <= e ->
  decode_unicode_codepoint m tok a e r = Ok (Some (a + 4, cp), r).
Proof.
  intros Hh Hcp Hm He. unfold decode_unicode_codepoint. erewrite mbind_Ok by (by eapply decode_hex4). simpl.
  by zfalse ((0xD800 <=? cp) && (cp <=? 0xDBFF)).
Qed.

Lemma decode_surrogates tok h1 h2 hi lo a e l r :
  hex4 h1 hi -> hex4 h2 lo -> 0xD800 <= hi <= 0xDBFF -> 0xDC00 <= lo <= 0xDFFF ->
  holds m a (h1 ++ BACKSLASH :: "u"%ch :: h2 ++ l) -> a + 10 <= e ->
  decode_unicode_codepoint m tok a e r = Ok (Some (a + 10, 0x10000 + (hi - 0xD800) * 0x400 + (lo - 0xDC00)), r).
Proof.
  intros H1 H2 Hhi Hlo Hm He. unfold decode_unicode_codepoint.
  assert (Zlen h1 = 4) as Hl1 by (by destruct H1).
  erewrite mbind_Ok by (eapply decode_hex4; [exact H1|exact Hm|lia]). simpl.
  ztrue ((0xD800 <=? hi) && (hi <=? 0xDBFF)). zfalse (e - (a + 4) <? 6).
  apply holds_app in Hm as [_ Hm]. rewrite Hl1 in Hm. destruct Hm as (Hb & Hu & Hm).
  unfold mbind at 1, lift at 1. rewrite (load_Some _ _ _ Hb). cbn [bind]. simpl.
  unfold mbind at 1, lift at 1. rewrite (load_Some _ _ _ Hu). cbn [bind]. simpl.
  erewrite mbind_Ok by (eapply decode_hex4; [exact H2|done|lia]). unfold ret.
  change 0x3FF with (Z.ones 10). rewrite !Z.land_ones, Z.shiftl_mul_pow2 by lia.
  replace (hi mod 2 ^ 10) with (hi - 0xD800) by (apply Z.mod_unique with 54; lia).
  replace (lo mod 2 ^ 10) with (lo - 0xDC00) by (apply Z.mod_unique with 55; lia).
  do 4 f_equal. lia.
Qed.

Lemma simple_escape_escapes c d : escapes c d -> simple_escape c = Some d.
Proof.
  unfold escapes. rewrite !elem_of_cons, elem_of_nil. intros Hc.
  repeat destruct Hc as [[= -> ->]|Hc]; done.
Qed.

(** The turn that [decode_string] takes on a char of the text. *)
Lemma string_turn_plain tok stop a s c r :
  a <> stop -> m !! a = Some c -> c <> DQUOTE -> c <> BACKSLASH ->
  string_turn m tok stop (a, s) r = Ok (inl (a + 1, s ++ [c]), r).
Proof.
  intros Ha Hc Hq Hb. unfold string_turn. zfalse (a =? stop). simpl. unfold mbind, lift.
  rewrite (load_Some _ _ _ Hc). cbn [bind]. zfalse (c =? DQUOTE). by zfalse (c =? BACKSLASH).
Qed.
Lemma string_turn_escape tok stop a s c d r :
  a + 1 < stop -> m !! a = Some BACKSLASH -> m !! (a + 1) = Some c -> escapes c d ->
  string_turn m tok stop (a, s) r = Ok (inl (a + 2, s ++ [d]), r).
Proof.
  intros Ha Hb Hc He. unfold string_turn. zfalse (a =? stop). simpl. unfold mbind, lift.
  rewrite (load_Some _ _ _ Hb). cbn [bind]. simpl. zfalse (a + 1 =? stop). rewrite (load_Some _ _ _ Hc). cbn [bind].
  rewrite (simple_escape_escapes _ _ He). unfold ret. do 4 f_equal. lia.
Qed.
Lemma string_turn_unicode tok stop a s n cp r :
  a + 1 < stop -> m !! a = Some BACKSLASH -> m !! (a + 1) = Some "u"%ch -> 0 <= cp <= 0x10FFFF ->
  decode_unicode_codepoint m tok (a + 2) stop r = Ok (Some (a + 2 + n, cp), r) ->
  string_turn m tok stop (a, s) r = Ok (inl (a + 2 + n, s ++ utf8_chars cp), r).
Proof.
  intros Ha Hb Hc Hcp Hd. unfold string_turn. zfalse (a =? stop). simpl. unfold mbind, lift.
  rewrite (load_Some _ _ _ Hb). cbn [bind]. simpl. zfalse (a + 1 =? stop). rewrite (load_Some _ _ _ Hc). cbn [bind].
  simpl. replace (a + 1 + 1) with (a + 2) by lia. rewrite Hd. cbn [bind]. by rewrite codepoint_to_utf8_chars.
Qed.

Lemma decode_string_loop tok t s :
  chars t s -> forall fuel a acc r,
  holds m a t -> (length t < fuel)%nat ->
  loop fuel (string_turn m tok (a + Zlen t)) (a, acc) r = Ok (Some (acc ++ s), r).
Proof.
  induction 1 as [|c t s Hq Hb Ht IH|c d t s Hc Ht IH|h cp t s Hh Hcp Ht IH|h1 h2 hi lo t s H1 H2 Hhi Hlo Ht IH];
    intros fuel a acc r Hm Hf; (destruct fuel as [|fuel]; [simpl in Hf; lia|]); rewrite ?Zlen_cons;
    try pose proof (Zlen_nonneg t); simpl in Hf.
  - erewrite loop_step by (unfold string_turn; rewrite Zlen_nil, Z.add_0_r, Z.eqb_refl; reflexivity).
    by rewrite app_nil_r.
  - destruct Hm as [Hm0 Hm]. erewrite loop_step by (apply (string_turn_plain _ _ _ _ c); [lia|done..]).
    replace (a + (1 + Zlen t)) with (a + 1 + Zlen t) by lia. rewrite IH by (done || lia). by rewrite <-app_assoc.
  - destruct Hm as (Hm0 & Hm1 & Hm). erewrite loop_step by (apply (string_turn_escape _ _ _ _ c d); [lia|done..]).
    replace (a + (1 + (1 + Zlen t))) with (a + 2 + Zlen t) by lia.
    rewrite IH; [by rewrite <-app_assoc|by replace (a + 2) with (a + 1 + 1) by lia|lia].
  - destruct Hm as (Hm0 & Hm1 & Hm). pose proof (hex4_range _ _ Hh). assert (Zlen h = 4) as Hl by (by destruct Hh).
    rewrite Zlen_app, Hl. replace (a + 1 + 1) with (a + 2) in Hm by lia.
    erewrite loop_step by (eapply (string_turn_unicode _ _ _ _ 4 cp); [lia|done|done|lia|
      eapply decode_codepoint; [done|done|done|lia]]).
    replace (a + (1 + (1 + (4 + Zlen t)))) with (a + 2 + 4 + Zlen t) by lia.
    apply holds_app in Hm as [_ Hm]. rewrite Hl in Hm. rewrite length_app in Hf.
    rewrite IH; [by rewrite <-app_assoc|done|lia].
  - destruct Hm as (Hm0 & Hm1 & Hm). assert (Zlen h1 = 4) as Hl1 by (by destruct H1).
    assert (Zlen h2 = 4) as Hl2 by (by destruct H2). rewrite Zlen_app, !Zlen_cons, Zlen_app, Hl1, Hl2.
    replace (a + 1 + 1) with (a + 2) in Hm by lia.
    erewrite loop_step by (eapply (string_turn_unicode _ _ _ _ 10 (0x10000 + (hi - 0xD800) * 0x400 + (lo - 0xDC00))); [lia|done|done|lia|
      eapply decode_surrogates; [exact H1|exact H2|done|done|done|lia]]).
    replace (a + (1 + (1 + (4 + (1 + (1 + (4 + Zlen t))))))) with (a + 2 + 10 + Zlen t) by lia.
    apply holds_app in Hm as [_ Hm]. destruct Hm as (_ & _ & Hm). apply holds_app in Hm as [_ Hm].
    rewrite Hl1, Hl2 in Hm. rewrite length_app in Hf. simpl in Hf. rewrite length_app in Hf.
    rewrite IH; [by rewrite <-app_assoc|by replace (a + 2 + 10) with (a + 2 + 4 + 1 + 1 + 4) by lia|lia].
Qed.

Lemma decode_string_spec tok t s r :
  chars t s -> holds m (token_start_ tok) (DQUOTE :: t ++ [DQUOTE]) -> token_end_ tok = token_start_ tok + Zlen t + 2 ->
  decode_string m tok r = Ok (Some s, r).
Proof.
  intros Ht [_ Hm] He. apply holds_app in Hm as [Hm _]. unfold decode_string.
  replace (token_end_ tok - 1) with (token_start_ tok + 1 + Zlen t) by lia.
  rewrite (decode_string_loop tok t s) by (done || (unfold span_fuel, Zlen in *; lia)). done.
Qed.
(** ** The state after reading *)

(** [r] with another location, last value and root. *)
Definition after (r : reader) (c e : Z) (q : option (list key)) (rt : value) : reader :=
  with_root rt (with_last e q (with_current c r)).

Lemma move_after k r c e q rt : move k (after r c e q rt) = after r (c + k) e q rt.
Proof. done. Qed.
Lemma after_after r c e q rt c' e' q' rt' : after (after r c e q rt) c' e' q' rt' = after r c' e' q' rt'.
Proof. done. Qed.

Lemma read_tokens_not_comment r r' t :
  read_token m features_ r = Ok (t, r') -> token_type_ t <> tt_comment ->
  read_tokens_past_comments m features_ r = Ok (t, r').
Proof.
  intros Ht Hty. unfold read_tokens_past_comments. erewrite mbind_Ok by reflexivity.
  rewrite (loop_step _ _ _ r (inr t) r'); [done|]. unfold comment_turn. erewrite mbind_Ok by exact Ht.
  by rewrite bool_decide_false.
Qed.
Lemma skip_comment_tokens_not_comment r r' t :
  read_token m features_ r = Ok (t, r') -> token_type_ t <> tt_comment ->
  skip_comment_tokens m features_ r = Ok (t, r').
Proof.
  intros Ht Hty. unfold skip_comment_tokens. destruct (allow_comments_ features_); [by apply read_tokens_not_comment|done].
Qed.

Lemma on_current_value_spec f r p ps old new :
  nodes_ r = p :: ps -> value_at p (root_ r) = Some old -> f old = Ok new ->
  exists rt, set_at p new (root_ r) = Ok rt /\ on_current_value f r = Ok (tt, with_root rt r).
Proof.
  intros Hn Hv Hf. destruct (set_at_total _ _ _ new Hv) as (rt & Hs & _). exists rt. split; [done|].
  unfold on_current_value. by rewrite Hn, (update_at_spec _ _ _ _ _ Hv Hf), Hs.
Qed.

Lemma strip_leaf h c s l :
  match h with array_ _ | object_ _ => False | _ => True end -> strip (Value h c s l) = init_basic h.
Proof. by destruct h. Qed.

(** What the literals, numbers and strings do with the value they have read. *)
Lemma set_token_value_spec t x r p ps old :
  nodes_ r = p :: ps -> value_at p (root_ r) = Some old ->
  match value_ x with array_ _ | object_ _ => False | _ => True end ->
  exists new rt, strip new = init_basic (value_ x) /\ set_at p new (root_ r) = Ok rt /\
    set_token_value t x r = Ok (tt, with_root rt r).
Proof.
  intros Hn Hv Hx. destruct old as [h c s l].
  destruct (on_current_value_spec (fun v => Ok (set_offset_limit (token_end_ t - begin_ r)
    (set_offset_start (token_start_ t - begin_ r) (swap_payload x v)))) r p ps _ _ Hn Hv eq_refl) as (rt & Hs & Hrun).
  eexists _, rt. split_and!; [|exact Hs|exact Hrun]. by apply strip_leaf.
Qed.

Lemma attach_comments_none r : comments_before_ r = [] -> attach_comments r = Ok (tt, r).
Proof.
  intros Hc. unfold attach_comments, mbind, get. rewrite Hc. simpl. by rewrite andb_false_r.
Qed.

(** [rv] reads the values of [J], which are nested [n] deep at most. *)
Definition reads (rv : M bool) (n : Z) (J : list Z -> value -> Prop) : Prop :=
  forall t v w l r p ps old,
  J t v -> blank w -> ahead r (w ++ t ++ l) -> ~ starts numeric l -> Zlen (w ++ t ++ l) < 2 ^ 30 ->
  nodes_ r = p :: ps -> value_at p (root_ r) = Some old ->
  comments_before_ r = [] -> stack_depth_ r + n <= stack_limit features_ ->
  exists new e q rt, strip new = v /\ set_at p new (root_ r) = Ok rt /\
    rv r = Ok (true, after r (current_ r + Zlen (w ++ t)) e q rt).

(** [read_member] makes the member [k] of the current value and reads it. *)
Lemma read_member_spec rv n J demand k t v w l r p ps cur cur1 old :
  reads rv n J -> J t v -> blank w -> ahead r (w ++ t ++ l) -> ~ starts numeric l -> Zlen (w ++ t ++ l) < 2 ^ 30 ->
  nodes_ r = p :: ps -> value_at p (root_ r) = Some cur ->
  comments_before_ r = [] -> stack_depth_ r + n <= stack_limit features_ ->
  demand cur = Ok cur1 -> member k cur1 = Some old ->
  exists new cur2 e q rt, strip new = v /\ update_member k (fun _ => Ok new) cur1 = Ok cur2 /\
    set_at p cur2 (root_ r) = Ok rt /\
    read_member rv demand k r = Ok (true, after r (current_ r + Zlen (w ++ t)) e q rt).
Proof.
  intros Hrv HJ Hw Ha Hl Hlen Hn Hv Hc Hd Hdemand Hk.
  destruct (on_current_value_spec _ _ _ _ _ _ Hn Hv Hdemand) as (rt1 & Hs1 & Hrun1).
  pose proof (set_at_value _ _ _ _ Hs1) as Hv1.
  destruct (Hrv t v w l (with_nodes ((p ++ [k]) :: nodes_ r) (with_root rt1 r)) (p ++ [k]) (nodes_ r) old)
    as (new & e & q & rt & Hnew & Hset & Hrun); try done.
  { simpl. by rewrite value_at_snoc, Hv1. }
  destruct (update_member_member _ _ _ new Hk) as (cur2 & Hu & _).
  exists new, cur2, e, q, rt. split_and!; [done|done| |].
  - simpl in Hset. rewrite (set_at_snoc _ _ _ _ _ _ Hv1 Hu) in Hset.
    by rewrite (set_at_twice _ _ _ _ _ Hs1) in Hset.
  - unfold read_member. erewrite mbind_Ok by exact Hrun1.
    erewrite mbind_Ok by (unfold push_node; simpl; by rewrite Hn). rewrite <-Hn.
    erewrite mbind_Ok by exact Hrun. unfold pop_node, put, mbind, ret. simpl. by destruct r.
Qed.
(** ** Arrays *)

Fixpoint number_from (i : Z) (vs : list value) : list (Z * value) :=
  match vs with [] => [] | v :: vs' => (i, v) :: number_from (i + 1) vs' end.

Lemma number_from_indexed i vs : number_from i vs = imap (fun k v => (i + Z.of_nat k, v)) vs.
Proof.
  revert i. induction vs as [|v vs IH]; intros i; simpl; [done|]. rewrite IH, Z.add_0_r. f_equal.
  apply imap_ext. intros k x _. simpl. f_equal. lia.
Qed.
Lemma indexed_number_from vs : indexed vs = number_from 0 vs.
Proof. rewrite number_from_indexed. apply imap_ext. intros k x _. done. Qed.
Lemma strip_number_from i vs : strip_members (number_from i vs) = number_from i (map strip vs).
Proof. revert i. induction vs as [|v vs IH]; intros i; simpl; [done|]. unfold strip_members in *. by rewrite IH. Qed.

(** An entry behind all others. *)
Lemma map_ensure_last i (d : value) m0 :
  Forall (fun e => e.1 < i) m0 -> map_ensure Z.ltb Z.eqb i d m0 = m0 ++ [(i, d)].
Proof.
  induction 1 as [|[j x] m0 Hj _ IH]; simpl; [done|]. simpl in Hj. ztrue (j <? i). by rewrite IH.
Qed.
Lemma map_find_last i (d : value) m0 :
  Forall (fun e => e.1 < i) m0 -> map_find Z.ltb i (m0 ++ [(i, d)]) = Some d.
Proof.
  induction 1 as [|[j x] m0 Hj _ IH]; simpl; [by rewrite Z.ltb_irrefl|]. simpl in Hj. by ztrue (j <? i).
Qed.
Lemma map_update_last i (d x : value) m0 :
  Forall (fun e => e.1 < i) m0 -> map_update Z.ltb i (fun _ => Ok x) (m0 ++ [(i, d)]) = Ok (m0 ++ [(i, x)]).
Proof.
  induction 1 as [|[j y] m0 Hj _ IH]; simpl; [by rewrite Z.ltb_irrefl|]. simpl in Hj. ztrue (j <? i). by rewrite IH.
Qed.

Lemma blank_not_numeric w l : blank w -> ~ starts numeric l -> ~ starts numeric (w ++ l).
Proof.
  intros Hw Hl. destruct w as [|c w]; simpl; [done|]. apply Forall_cons in Hw as [Hc _].
  unfold white, numeric, digit in *. lia.
Qed.

(** One element: the array grows by it. *)
Lemma array_member rv n J t v w l r p ps cur m0 i :
  reads rv n J -> J t v -> blank w -> ahead r (w ++ t ++ l) -> ~ starts numeric l -> Zlen (w ++ t ++ l) < 2 ^ 30 ->
  nodes_ r = p :: ps -> value_at p (root_ r) = Some cur -> value_ cur = array_ m0 -> Forall (fun e => e.1 < i) m0 ->
  0 <= i < 2 ^ 31 -> comments_before_ r = [] -> stack_depth_ r + n <= stack_limit features_ ->
  exists new cur2 e q rt, strip new = v /\ value_ cur2 = array_ (m0 ++ [(i, new)]) /\
    set_at p cur2 (root_ r) = Ok rt /\
    read_member rv (int_demand i) (index_key (u32 i)) r = Ok (true, after r (current_ r + Zlen (w ++ t)) e q rt).
Proof.
  intros Hrv HJ Hw Ha Hl Hlen Hn Hv Hcur Hm0 Hi Hc Hd.
  assert (become vt_array cur = cur) as Hbecome by (unfold become, is_null; by rewrite Hcur).
  assert (int_demand i cur = Ok (set_payload (array_ (m0 ++ [(i, null_ref)])) cur)) as Hdemand.
  { unfold int_demand, index_demand. ztrue (0 <=? i). simpl. rewrite Hbecome, Hcur, u32_small by lia.
    by rewrite map_ensure_last. }
  destruct (read_member_spec rv n J (int_demand i) (index_key (u32 i)) t v w l r p ps cur _ null_ref Hrv HJ Hw Ha Hl Hlen
    Hn Hv Hc Hd Hdemand) as (new & cur2 & e & q & rt & Hnew & Hu & Hs & Hrun).
  { unfold member. rewrite value_set_payload, u32_small by lia. by apply map_find_last. }
  exists new, cur2, e, q, rt. split_and!; [done| |done|done].
  unfold update_member in Hu. rewrite value_set_payload, u32_small, map_update_last in Hu by (done || lia).
  simpl in Hu. injection Hu as <-. by rewrite value_set_payload.
Qed.

Lemma array_loop rv n J : reads rv n J -> forall ts vs, elements J ts vs ->
  forall fuel r p ps cur m0 i l,
  ahead r (ts ++ l) -> Zlen (ts ++ l) < 2 ^ 30 -> nodes_ r = p :: ps -> value_at p (root_ r) = Some cur ->
  value_ cur = array_ m0 -> Forall (fun e => e.1 < i) m0 -> 0 <= i -> i + Zlen ts < 2 ^ 31 ->
  comments_before_ r = [] -> stack_depth_ r + n <= stack_limit features_ -> (length ts < fuel)%nat ->
  exists news cur2 e q rt, map strip news = vs /\ value_ cur2 = array_ (m0 ++ number_from i news) /\
    set_at p cur2 (root_ r) = Ok rt /\
    loop fuel (array_turn m features_ rv) i r = Ok (true, after r (current_ r + Zlen ts) e q rt).
Proof.
  intros Hrv. induction 1 as [w1 t w2 v Hw1 HJ Hw2|w1 t w2 v ts vs Hw1 HJ Hw2 _ IH];
    intros fuel r p ps cur m0 i l Ha Hlen Hn Hv Hcur Hm0 Hi Hi2 Hc Hd Hf; (destruct fuel as [|fuel]; [lia|]);
    rewrite <-!app_assoc in Ha, Hlen; simpl in Ha, Hlen; rewrite !Zlen_app in Hi2;
    pose proof (Zlen_nonneg w1); pose proof (Zlen_nonneg t); pose proof (Zlen_nonneg w2).
  - edestruct (array_member rv n J t v w1 (w2 ++ "]"%ch :: l) r p ps cur m0 i Hrv HJ Hw1 Ha)
      as (new & cur2 & e & q & rt & Hnew & Hcur2 & Hs & Hrun); try done.
    { apply blank_not_numeric; [done|]. simpl. unfold numeric, digit. lia. }
    { rewrite Zlen_cons, Zlen_nil in Hi2. lia. }
    exists [new], cur2, e, q, rt. split_and!; [by rewrite <-Hnew|done|done|].
    rewrite (loop_step _ _ _ r (inr true) (after r (current_ r + Zlen (w1 ++ t ++ w2 ++ ["]"%ch])) e q rt)); [done|].
    unfold array_turn. erewrite mbind_Ok by exact Hrun. cbn [negb].
    rewrite app_assoc in Ha. apply ahead_move in Ha.
    pose proof (read_punctuation (after r (current_ r + Zlen (w1 ++ t)) e q rt) w2 "]"%ch l tt_array_end Hw2 eq_refl Ha) as Htok.
    erewrite mbind_Ok by (by eapply read_tokens_not_comment). simpl. unfold ret. rewrite move_after. do 2 f_equal. f_equal. lens.
  - edestruct (array_member rv n J t v w1 (w2 ++ ","%ch :: ts ++ l) r p ps cur m0 i Hrv HJ Hw1 Ha)
      as (new & cur2 & e & q & rt & Hnew & Hcur2 & Hs & Hrun); try done.
    { apply blank_not_numeric; [done|]. simpl. unfold numeric, digit. lia. }
    { rewrite Zlen_cons in Hi2. pose proof (Zlen_nonneg ts). lia. }
    rewrite app_assoc in Ha. apply ahead_move in Ha.
    pose proof (read_punctuation (after r (current_ r + Zlen (w1 ++ t)) e q rt) w2 ","%ch (ts ++ l) tt_array_separator Hw2
      eq_refl Ha) as Htok.
    set (r2 := move (Zlen w2 + 1) (after r (current_ r + Zlen (w1 ++ t)) e q rt)) in *.
    assert (ahead r2 (ts ++ l)) as Ha2.
    { apply ahead_move, ahead_cons in Ha. rewrite move_move in Ha. exact Ha. }
    rewrite length_app, length_app, length_app in Hf. simpl in Hf.
    destruct (IH fuel r2 p ps cur2 (m0 ++ [(i, new)]) (i + 1) l) as (news & cur3 & e' & q' & rt' & Hnews & Hcur3 & Hs' & Hrun');
      try done.
    { rewrite !Zlen_app, Zlen_cons in Hlen. rewrite Zlen_app in *. lia. }
    { by eapply set_at_value. }
    { rewrite Forall_app. split; [|repeat constructor; simpl; lia]. eapply Forall_impl; [done|]. simpl. lia. }
    { lia. }
    { rewrite Zlen_cons in Hi2. lia. }
    { lia. }
    exists (new :: news), cur3, e', q', rt'. split_and!.
    + simpl. by rewrite Hnew, Hnews.
    + rewrite Hcur3, <-app_assoc. done.
    + simpl in Hs'. by rewrite (set_at_twice _ _ _ _ _ Hs) in Hs'.
    + rewrite (loop_step _ _ _ r (inl (i + 1)) r2).
      * rewrite Hrun'. unfold r2. rewrite move_after, after_after. simpl. do 2 f_equal. f_equal. lens.
      * unfold array_turn. erewrite mbind_Ok by exact Hrun. cbn [negb].
        erewrite mbind_Ok by (by eapply read_tokens_not_comment). done.
Qed.
(** ** Objects *)

Definition keeps_duplicates : Prop :=
  match ours_ features_ with Some x => reject_dup_keys_ x = false | None => True end.

Lemma utf8_chars_length cp : Zlen (utf8_chars cp) <= 4.
Proof. rewrite utf8_length. unfold proper_length_of_codepoint. ztest. Qed.

Lemma chars_length t s : chars t s -> Zlen s <= Zlen t.
Proof.
  induction 1 as [|c t s ? ? ? IH|c d t s ? ? IH|h cp t s Hh ? ? IH|h1 h2 hi lo t s H1 H2 ? ? ? IH];
    rewrite ?Zlen_app, ?Zlen_cons, ?Zlen_app, ?Zlen_cons, ?Zlen_app; try lia.
  - pose proof (utf8_chars_length cp). assert (Zlen h = 4) as -> by (by destruct Hh). lia.
  - pose proof (utf8_chars_length (0x10000 + (hi - 0xD800) * 0x400 + (lo - 0xDC00))).
    assert (Zlen h1 = 4) as -> by (by destruct H1). assert (Zlen h2 = 4) as -> by (by destruct H2). lia.
Qed.

Lemma strip_map_set k new m0 :
  strip_members (map_set name_less name_equal k new m0) = map_set name_less name_equal k (strip new) (strip_members m0).
Proof.
  induction m0 as [|[k' x] m0 IH]; simpl; [done|]. destruct (name_less k' k); simpl; [by rewrite <-IH|].
  by destruct (name_equal k' k).
Qed.

Lemma check_name_none t name r :
  keeps_duplicates -> Zlen name < 2 ^ 30 -> check_name m features_ t name r = Ok (None, r).
Proof.
  unfold keeps_duplicates, check_name. intros Hk Hn. destruct (ours_ features_) as [x|]; [|done].
  zfalse (2 ^ 30 <=? Zlen name). by rewrite Hk.
Qed.

(** One member: it is inserted or replaces the one of that name. *)
Lemma object_value rv n J t v w name l r p ps cur m0 :
  reads rv n J -> J t v -> blank w -> ahead r (w ++ t ++ l) -> ~ starts numeric l -> Zlen (w ++ t ++ l) < 2 ^ 30 ->
  nodes_ r = p :: ps -> value_at p (root_ r) = Some cur -> value_ cur = object_ m0 -> Zlen name < 2 ^ 30 ->
  comments_before_ r = [] -> stack_depth_ r + n <= stack_limit features_ ->
  exists new cur2 e q rt, strip new = v /\ value_ cur2 = object_ (map_set name_less name_equal name new m0) /\
    set_at p cur2 (root_ r) = Ok rt /\
    read_member rv (name_demand name) (name_key (czstring name)) r
    = Ok (true, after r (current_ r + Zlen (w ++ t)) e q rt).
Proof.
  intros Hrv HJ Hw Ha Hl Hlen Hn Hv Hcur Hname Hc Hd.
  assert (become vt_object cur = cur) as Hbecome by (unfold become, is_null; by rewrite Hcur).
  pose proof (czstring_small _ Hname) as Hcz.
  assert (name_demand name cur =
    Ok (set_payload (object_ (map_ensure name_less name_equal name null_ref m0)) cur)) as Hdemand.
  { unfold name_demand. rewrite Hbecome, Hcur. by rewrite Hcz. }
  destruct (map_ensure_find name_less name_equal name_equal_less name_less_irrefl name null_ref m0) as [old Hold].
  rewrite Hcz.
  destruct (read_member_spec rv n J (name_demand name) (name_key name) t v w l r p ps cur _ old Hrv HJ Hw Ha Hl Hlen
    Hn Hv Hc Hd Hdemand) as (new & cur2 & e & q & rt & Hnew & Hu & Hs & Hrun).
  { unfold member. by rewrite value_set_payload. }
  exists new, cur2, e, q, rt. split_and!; [done| |done|done].
  unfold update_member in Hu. rewrite value_set_payload in Hu. apply bind_Ok_inv in Hu as (m1 & Hm1 & [= <-]).
  rewrite value_set_payload. f_equal.
  exact (map_ensure_update _ _ name_equal_less name_less_irrefl _ _ _ _ _ Hm1).
Qed.

(** The turn of a member, up to the char after its value. *)
Lemma object_turn_spec rv n J w1 k name w2 w3 t w4 v c ty l r p ps cur m0 name0 :
  reads rv n J -> keeps_duplicates ->
  blank w1 -> chars k name -> blank w2 -> blank w3 -> J t v -> blank w4 ->
  (c, ty) ∈ [("}"%ch, tt_object_end); (","%ch, tt_array_separator)] ->
  ahead r (w1 ++ DQUOTE :: k ++ DQUOTE :: w2 ++ ":"%ch :: w3 ++ t ++ w4 ++ c :: l) ->
  Zlen (w1 ++ DQUOTE :: k ++ DQUOTE :: w2 ++ ":"%ch :: w3 ++ t ++ w4 ++ c :: l) < 2 ^ 30 ->
  nodes_ r = p :: ps -> value_at p (root_ r) = Some cur -> value_ cur = object_ m0 ->
  comments_before_ r = [] -> stack_depth_ r + n <= stack_limit features_ ->
  exists new cur2 e q rt r2, strip new = v /\ value_ cur2 = object_ (map_set name_less name_equal name new m0) /\
    set_at p cur2 (root_ r) = Ok rt /\
    r2 = after r (current_ r + Zlen (w1 ++ DQUOTE :: k ++ DQUOTE :: w2 ++ ":"%ch :: w3 ++ t ++ w4 ++ [c])) e q rt /\
    object_turn negate_min printf_17g sscanf_lf m features_ rv name0 r
    = Ok (if bool_decide (ty = tt_object_end) then inr true else inl name, r2).
Proof.
  intros Hrv Hkeep Hw1 Hk Hw2 Hw3 HJ Hw4 Hc Ha Hlen Hn Hv Hcur Hcom Hd.
  assert (~ starts numeric (c :: l) /\ punctuation c = Some ty) as [Hcn Hcp].
  { rewrite !elem_of_cons in Hc. destruct Hc as [[= -> ->]|[[= -> ->]|Hc]]; [..|by apply not_elem_of_nil in Hc];
      (split; [simpl; unfold numeric, digit; lia|done]). }
  pose proof (read_string_token r w1 k name _ Hw1 Hk Ha) as Htok.
  set (tok := token_from r tt_string (Zlen w1) (Zlen k + 2)) in *.
  set (r1 := move (Zlen w1 + (Zlen k + 2)) r) in *.
  assert (ahead r1 (w2 ++ ":"%ch :: w3 ++ t ++ w4 ++ c :: l)) as Ha1.
  { pose proof Ha as Ha'. apply ahead_move, ahead_cons, ahead_move, ahead_cons in Ha'. rewrite !move_move in Ha'.
    replace (Zlen w1 + (1 + (Zlen k + 1))) with (Zlen w1 + (Zlen k + 2)) in Ha' by lia. exact Ha'. }
  pose proof (read_punctuation r1 w2 ":"%ch _ tt_member_separator Hw2 eq_refl Ha1) as Hcolon.
  set (r2 := move (Zlen w2 + 1) r1) in *.
  assert (ahead r2 (w3 ++ t ++ w4 ++ c :: l)) as Ha2.
  { apply ahead_move, ahead_cons in Ha1. by rewrite move_move in Ha1. }
  assert (Zlen name < 2 ^ 30) as Hname.
  { pose proof (chars_length _ _ Hk). autorewrite with intent in Hlen. unfold Zlen in *. lia. }
  edestruct (object_value rv n J t v w3 name (w4 ++ c :: l) r2 p ps cur m0 Hrv HJ Hw3 Ha2)
    as (new & cur2 & e & q & rt & Hnew & Hcur2 & Hs & Hrun); try done.
  { by apply blank_not_numeric. }
  { autorewrite with intent in *. unfold Zlen in *. lia. }
  rewrite app_assoc in Ha2. apply ahead_move in Ha2.
  set (r3 := after r2 (current_ r2 + Zlen (w3 ++ t)) e q rt) in *.
  assert (ahead r3 (w4 ++ c :: l)) as Ha3 by exact Ha2.
  pose proof (read_punctuation r3 w4 c l ty Hw4 Hcp Ha3) as Hcomma.
  exists new, cur2, e, q, rt, (move (Zlen w4 + 1) r3). split_and!; [done|done|done| |].
  { unfold r3, r2, r1. rewrite move_after. unfold move. unfold after, with_root, with_last, with_current. simpl.
    f_equal. lens. }
  assert (decode_string m tok r1 = Ok (Some name, r1)) as Hdecode.
  { apply (decode_string_spec tok k); [done| |unfold tok; simpl; lia]. unfold tok. simpl.
    destruct Ha as [Hm _]. apply holds_app in Hm as [_ Hm].
    change (DQUOTE :: k ++ DQUOTE :: w2 ++ ":"%ch :: w3 ++ t ++ w4 ++ c :: l)
      with ((DQUOTE :: k) ++ [DQUOTE] ++ w2 ++ ":"%ch :: w3 ++ t ++ w4 ++ c :: l) in Hm.
    rewrite app_assoc in Hm. by apply holds_app in Hm as [Hm _]. }
  unfold object_turn. erewrite mbind_Ok by (by eapply read_tokens_not_comment). simpl.
  erewrite mbind_Ok by (unfold member_name; simpl; by erewrite mbind_Ok by exact Hdecode).
  cbn iota beta. unfold object_member. erewrite mbind_Ok by exact Hcolon. simpl.
  erewrite mbind_Ok by (by apply check_name_none). cbn iota. erewrite mbind_Ok by exact Hrun. cbn [negb].
  erewrite mbind_Ok by exact Hcomma. simpl. rewrite !elem_of_cons in Hc.
  destruct Hc as [[= -> ->]|[[= -> ->]|Hc]]; [done..|by apply not_elem_of_nil in Hc].
Qed.
Lemma object_loop rv n J : reads rv n J -> keeps_duplicates -> forall ts pairs0, pairs J ts pairs0 ->
  forall fuel name0 r p ps cur m0 l,
  ahead r (ts ++ l) -> Zlen (ts ++ l) < 2 ^ 30 -> nodes_ r = p :: ps -> value_at p (root_ r) = Some cur ->
  value_ cur = object_ m0 ->
  comments_before_ r = [] -> stack_depth_ r + n <= stack_limit features_ -> (length ts < fuel)%nat ->
  exists m1 cur2 e q rt, strip_members m1 = add_members pairs0 (strip_members m0) /\ value_ cur2 = object_ m1 /\
    set_at p cur2 (root_ r) = Ok rt /\
    loop fuel (object_turn negate_min printf_17g sscanf_lf m features_ rv) name0 r
    = Ok (true, after r (current_ r + Zlen ts) e q rt).
Proof.
  intros Hrv Hkeep. induction 1 as [w1 k name w2 w3 t w4 v Hw1 Hk Hw2 Hw3 HJ Hw4
      |w1 k name w2 w3 t w4 v ts ps0 Hw1 Hk Hw2 Hw3 HJ Hw4 _ IH];
    intros fuel name0 r p ps cur m0 l Ha Hlen Hn Hv Hcur Hc Hd Hf; (destruct fuel as [|fuel]; [lia|]).
  - assert (forall x, (w1 ++ DQUOTE :: k ++ DQUOTE :: w2 ++ ":"%ch :: w3 ++ t ++ w4 ++ ["}"%ch]) ++ x
      = w1 ++ DQUOTE :: k ++ DQUOTE :: w2 ++ ":"%ch :: w3 ++ t ++ w4 ++ "}"%ch :: x) as Heq.
    { intros x. by repeat (rewrite <-app_assoc || rewrite <-app_comm_cons). }
    rewrite Heq in Ha, Hlen.
    edestruct (object_turn_spec rv n J w1 k name w2 w3 t w4 v "}"%ch tt_object_end l r p ps cur m0 name0)
      as (new & cur2 & e & q & rt & r2 & Hnew & Hcur2 & Hs & -> & Hrun); try done; [by left|].
    eexists _, cur2, e, q, rt. split_and!; [|exact Hcur2|done|by rewrite (loop_step _ _ _ _ _ _ Hrun)].
    rewrite strip_map_set, Hnew. done.
  - assert (forall x, (w1 ++ DQUOTE :: k ++ DQUOTE :: w2 ++ ":"%ch :: w3 ++ t ++ w4 ++ ","%ch :: ts) ++ x
      = w1 ++ DQUOTE :: k ++ DQUOTE :: w2 ++ ":"%ch :: w3 ++ t ++ w4 ++ ","%ch :: ts ++ x) as Heq.
    { intros x. by repeat (rewrite <-app_assoc || rewrite <-app_comm_cons). }
    rewrite Heq in Ha, Hlen.
    edestruct (object_turn_spec rv n J w1 k name w2 w3 t w4 v ","%ch tt_array_separator (ts ++ l) r p ps cur m0 name0)
      as (new & cur2 & e & q & rt & r2 & Hnew & Hcur2 & Hs & Hr2 & Hrun); try done; [right; by left|].
    assert (forall x, w1 ++ DQUOTE :: k ++ DQUOTE :: w2 ++ ":"%ch :: w3 ++ t ++ w4 ++ ","%ch :: x
      = (w1 ++ DQUOTE :: k ++ DQUOTE :: w2 ++ ":"%ch :: w3 ++ t ++ w4 ++ [","%ch]) ++ x) as Heq2.
    { intros x. by repeat (rewrite <-app_assoc || rewrite <-app_comm_cons). }
    assert (ahead r2 (ts ++ l)) as Ha2 by (subst r2; rewrite Heq2 in Ha; exact (ahead_move _ _ _ Ha)).
    destruct (IH fuel name r2 p ps cur2 (map_set name_less name_equal name new m0) l)
      as (m1 & cur3 & e' & q' & rt' & Hm1 & Hcur3 & Hs' & Hrun'); try (by subst r2).
    { autorewrite with intent in *. unfold Zlen in *. lia. }
    { subst r2. simpl. by eapply set_at_value. }
    { repeat (rewrite length_app in Hf; simpl in Hf). lia. }
    exists m1, cur3, e', q', rt'. split_and!; [|done| |].
    + rewrite Hm1, strip_map_set, Hnew. done.
    + subst r2. simpl in Hs'. by rewrite (set_at_twice _ _ _ _ _ Hs) in Hs'.
    + rewrite (loop_step _ _ _ _ _ _ Hrun). simpl. rewrite Hrun'. subst r2. rewrite after_after. simpl.
      do 2 f_equal. f_equal. lens.
Qed.

(** ** Values *)

Lemma begin_container_spec ty t r p ps old :
  nodes_ r = p :: ps -> value_at p (root_ r) = Some old ->
  exists cur rt, value_ cur = value_ (value_of_type ty) /\ set_at p cur (root_ r) = Ok rt /\
    begin_container ty t r = Ok (tt, with_root rt r).
Proof.
  intros Hn Hv. destruct old as [h c s l].
  destruct (on_current_value_spec (fun v => Ok (set_offset_start (token_start_ t - begin_ r)
    (swap_payload (value_of_type ty) v))) r p ps _ _ Hn Hv eq_refl) as (rt & Hs & Hrun).
  eexists _, rt. split_and!; [|exact Hs|exact Hrun]. done.
Qed.

Lemma close_container_spec r p ps cur :
  nodes_ r = p :: ps -> value_at p (root_ r) = Some cur ->
  exists new rt, value_ new = value_ cur /\ set_at p new (root_ r) = Ok rt /\
    close_container r = Ok (tt, with_root rt r).
Proof.
  intros Hn Hv. destruct cur as [h c s l].
  destruct (on_current_value_spec (fun v => Ok (set_offset_limit (current_ r - begin_ r) v)) r p ps _ _ Hn Hv eq_refl)
    as (rt & Hs & Hrun).
  eexists _, rt. split_and!; [|exact Hs|exact Hrun]. done.
Qed.

(** From the token of a value on to the end of [read_value]. *)
Lemma read_value_step fuel r t k c e q rt :
  stack_depth_ r < stack_limit features_ -> comments_before_ r = [] ->
  read_token m features_ (with_depth (stack_depth_ r + 1) r) = Ok (t, move k (with_depth (stack_depth_ r + 1) r)) ->
  token_type_ t <> tt_comment ->
  read_value_token negate_min printf_17g sscanf_lf m features_
    (read_value negate_min printf_17g sscanf_lf m features_ fuel) t
    (move k (with_depth (stack_depth_ r + 1) r))
  = Ok (Some true, after (move k (with_depth (stack_depth_ r + 1) r)) c e q rt) ->
  exists e' q', read_value negate_min printf_17g sscanf_lf m features_ (S fuel) r = Ok (true, after r c e' q' rt).
Proof.
  intros Hd Hc Htok Hty Hrun.
  exists (if collect_comments_ r then c else e), (if collect_comments_ r then head (nodes_ r) else q).
  cbn [read_value]. erewrite mbind_Ok by reflexivity. zfalse (stack_limit features_ <=? stack_depth_ r).
  erewrite mbind_Ok by reflexivity. erewrite mbind_Ok by (by eapply skip_comment_tokens_not_comment).
  erewrite mbind_Ok by (by apply attach_comments_none). erewrite mbind_Ok by exact Hrun. cbn iota.
  erewrite mbind_Ok by reflexivity. simpl.
  destruct r as [ns es b e0 c0 lve lv cb d [] rt0]; simpl; unfold mbind, put, ret; simpl;
    do 2 f_equal; unfold after, with_root, with_last, with_current, with_depth; simpl; f_equal; lia.
Qed.
Notation value_reader := (read_value negate_min printf_17g sscanf_lf m features_).

(** The tokens of a value, and what [read_value_token] makes of them: [new] is assigned. *)
Definition token_reads (rv : M bool) (r : reader) (p : list key) (k : Z) (v : value) (len : Z) : Prop :=
  exists t new c e q rt,
    read_token m features_ r = Ok (t, move k r) /\ token_type_ t <> tt_comment /\ c = current_ r + len /\
    read_value_token negate_min printf_17g sscanf_lf m features_ rv t (move k r) = Ok (Some true, after (move k r) c e q rt) /\
    strip new = v /\ set_at p new (root_ r) = Ok rt.

Lemma with_root_after r rt : with_root rt r = after r (current_ r) (last_value_end_ r) (last_value_ r) rt.
Proof. by destruct r. Qed.

Lemma scalar_read rv r p ps old w t h l :
  scalar negate_min sscanf_lf t h -> blank w -> ahead r (w ++ t ++ l) -> ~ starts numeric l -> Zlen (w ++ t ++ l) < 2 ^ 30 ->
  nodes_ r = p :: ps -> value_at p (root_ r) = Some old ->
  token_reads rv r p (Zlen w + Zlen t) (init_basic h) (Zlen (w ++ t)).
Proof.
  intros Ht Hw Ha Hl Hlen Hn Hv.
  assert (forall ty k x, k = Zlen w + Zlen t ->
    read_token m features_ r = Ok (token_from r ty (Zlen w) (Zlen t), move k r) ->
    ty <> tt_comment -> value_ x = h -> match h with array_ _ | object_ _ => False | _ => True end ->
    (forall t0, token_type_ t0 = ty -> token_start_ t0 = current_ r + Zlen w ->
      token_end_ t0 = current_ r + Zlen w + Zlen t ->
      exists y, read_value_token negate_min printf_17g sscanf_lf m features_ rv t0 (move k r)
      = (let* _ := set_token_value t0 x in ret y) (move k r) /\ y = Some true) ->
    token_reads rv r p (Zlen w + Zlen t) (init_basic h) (Zlen (w ++ t))) as Hdone.
  { intros ty k x -> Htok Hty Hx Hleaf Hread. subst h. rewrite Zlen_app.
    destruct (Hread (token_from r ty (Zlen w) (Zlen t)) eq_refl eq_refl eq_refl) as (y & Hy & ->).
    edestruct (set_token_value_spec (token_from r ty (Zlen w) (Zlen t)) x (move (Zlen w + Zlen t) r) p ps old Hn Hv Hleaf)
      as (new & rt & Hnew & Hs & Hrun).
    eexists _, new, _, _, _, rt. split_and!; [exact Htok|done|reflexivity| |exact Hnew|exact Hs].
    rewrite Hy. erewrite mbind_Ok by exact Hrun. by rewrite with_root_after. }
  destruct Ht as [| | |t h Ht|t s Ht].
  - apply (Hdone tt_null (Zlen w + Zlen (str "null")) null_ref); try done; [|by exists (Some true); destruct t0; simpl in *; subst].
    apply (read_literal_token r w "n"%ch (str "ull") l tt_null Hw); [do 2 right; by left|exact Ha].
  - apply (Hdone tt_true (Zlen w + Zlen (str "true")) (value_of_bool true)); try done;
      [|by exists (Some true); destruct t0; simpl in *; subst].
    apply (read_literal_token r w "t"%ch (str "rue") l tt_true Hw); [by left|exact Ha].
  - apply (Hdone tt_false (Zlen w + Zlen (str "false")) (value_of_bool false)); try done;
      [|by exists (Some true); destruct t0; simpl in *; subst].
    apply (read_literal_token r w "f"%ch (str "alse") l tt_false Hw); [right; by left|exact Ha].
  - apply (Hdone tt_number (Zlen w + Zlen t) (init_basic h)); try done.
    + by apply read_number_token with l; [|eapply number_number_text|..].
    + by destruct Ht as [ds|ds|]; [destruct (num ds <=? max_int)|..].
    + intros t0 Hty Hst He. exists (Some true). split; [|done]. destruct t0 as [ty st en]; simpl in *. subst ty.
      unfold read_value_token. simpl. unfold decode_number_value, mbind.
      rewrite (decode_number_spec _ _ t h Ht); simpl; [by destruct (set_token_value _ _ _) as [[]| | |]| | |].
      * destruct Ha as [Hm _]. apply holds_app in Hm as [_ Hm]. apply holds_app in Hm as [Hm _]. by rewrite Hst.
      * lia.
      * autorewrite with intent in Hlen. unfold Zlen in *. lia.
  - apply (Hdone tt_string (Zlen w + Zlen (DQUOTE :: t ++ [DQUOTE])) (init_basic (string_ (Some s)))); try done.
    + pose proof (read_string_token r w t s l Hw Ht) as Htok. 
      replace (Zlen (DQUOTE :: t ++ [DQUOTE])) with (Zlen t + 2) by lens. apply Htok.
      rewrite <-app_comm_cons, <-app_assoc in Ha. exact Ha.
    + intros t0 Hty Hst He. exists (Some true). split; [|done]. destruct t0 as [ty st en]; simpl in *. subst ty.
      unfold read_value_token. simpl. unfold decode_string_value, mbind.
      rewrite (decode_string_spec _ t s); simpl; [|done| |].
      * pose proof (chars_length _ _ Ht). autorewrite with intent in Hlen. pose proof (Zlen_nonneg s).
        assert (value_of_string s = Ok (init_basic (string_ (Some s)))) as Hval.
        { unfold value_of_string, duplicate_and_prefix_string_value, max_int. unfold Zlen in *. rewrite u32_small by lia.
          ztrue (Z.of_nat (length s) <=? 2 ^ 31 - 1 - 4 - 1). simpl. by rewrite Nat2Z.id, firstn_all. }
        unfold lift. rewrite Hval. simpl. by destruct (set_token_value _ _ _) as [[]| | |].
      * destruct Ha as [Hm _]. apply holds_app in Hm as [_ Hm].
        rewrite app_comm_cons in Hm. apply holds_app in Hm as [Hm _]. by rewrite Hst.
      * autorewrite with intent in He. lia.
Qed.
Definition value_start (c : Z) : Prop := ~ white c /\ c <> "]"%ch.

Lemma json_starts n t v : json negate_min sscanf_lf n t v -> starts value_start t.
Proof.
  destruct n as [|n]; [done|].
  intros [(h & Hs & _)|[(w & _ & -> & _)|[(ts & vs & _ & -> & _)|[(w & _ & -> & _)|(ts & ps & _ & -> & _)]]]];
    [|by split; [intros [?|[?|[?|?]]]|]..].
  destruct Hs as [| | |t h Ht|t s]; try (by split; [intros [?|[?|[?|?]]]|]).
  apply number_number_text in Ht. destruct (number_text_starts _ Ht) as (c & t' & -> & Hc). simpl.
  unfold value_start, white, digit in *. lia.
Qed.

Lemma elements_skip (J : list Z -> value -> Prop) ts vs :
  (forall t v, J t v -> starts value_start t) -> elements J ts vs ->
  exists w ts', ts = w ++ ts' /\ blank w /\ starts value_start ts' /\ elements J ts' vs.
Proof.
  intros HJ. destruct 1 as [w1 t w2 v Hw1 Ht Hw2|w1 t w2 v ts vs Hw1 Ht Hw2 Hts].
  - exists w1, (t ++ w2 ++ ["]"%ch]). split_and!; [done|done| |].
    + specialize (HJ _ _ Ht). by destruct t.
    + by apply (elements_last _ [] t w2 v); [constructor|..].
  - exists w1, (t ++ w2 ++ ","%ch :: ts). split_and!; [done|done| |].
    + specialize (HJ _ _ Ht). by destruct t.
    + by apply (elements_cons _ [] t w2 v); [constructor|..].
Qed.

(** What follows the bracket of an array: the members and the closing bracket. *)
Lemma read_array_spec rv n J tok r p ps old ts vs l :
  reads rv n J -> (forall t v, J t v -> starts value_start t) ->
  elements J ts vs \/ (exists w, blank w /\ ts = w ++ ["]"%ch] /\ vs = []) ->
  ahead r (ts ++ l) -> Zlen (ts ++ l) < 2 ^ 30 -> nodes_ r = p :: ps -> value_at p (root_ r) = Some old ->
  comments_before_ r = [] -> stack_depth_ r + n <= stack_limit features_ ->
  exists cur e q rt, strip cur = init_basic (array_ (indexed vs)) /\ set_at p cur (root_ r) = Ok rt /\
    read_array m features_ rv tok r = Ok (true, after r (current_ r + Zlen ts) e q rt).
Proof.
  intros Hrv HJ Hts Ha Hlen Hn Hv Hc Hd.
  destruct (begin_container_spec vt_array tok r p ps old Hn Hv) as (cur0 & rt0 & Hcur0 & Hs0 & Hrun0).
  pose proof (set_at_value _ _ _ _ Hs0) as Hv0.
  unfold read_array. erewrite mbind_Ok by exact Hrun0. destruct Hts as [Hts|(w & Hw & -> & ->)].
  - destruct (elements_skip J ts vs HJ Hts) as (w & ts' & -> & Hw & Hst & Hts').
    rewrite <-app_assoc in Ha, Hlen. destruct ts' as [|c ts']; [done|]. simpl in Hst. destruct Hst as [Hcw Hcb].
    erewrite mbind_Ok by (apply (skip_spaces_ahead (with_root rt0 r) w ((c :: ts') ++ l)); [exact Ha|done|done]).
    apply ahead_move in Ha. set (r1 := move (Zlen w) (with_root rt0 r)).
    assert (ahead r1 ((c :: ts') ++ l)) as Ha1 by exact Ha. erewrite mbind_Ok by reflexivity.
    erewrite mbind_Ok by (unfold lift; destruct Ha1 as [[Hc1 _] _]; rewrite (load_Some _ _ _ Hc1); reflexivity).
    zfalse (c =? "]"%ch). cbn iota. erewrite mbind_Ok by reflexivity.
    destruct (array_loop rv n J Hrv _ _ Hts' (span_fuel (current_ r1) (end_ r1)) r1 p ps cur0 [] 0 l)
      as (news & cur2 & e & q & rt & Hnews & Hcur2 & Hs & Hrun); try done.
    { rewrite Zlen_app in Hlen. pose proof (Zlen_nonneg w). lia. }
    { autorewrite with intent in *. unfold Zlen in *. lia. }
    { destruct Ha1 as [_ He]. rewrite Zlen_app in He. unfold span_fuel, Zlen in *. lia. }
    exists cur2, e, q, rt. split_and!.
    + destruct cur2 as [h cc s0 l0]. simpl in Hcur2. subst h. simpl. unfold init_basic. f_equal. f_equal.
      change (map _ _) with (strip_members (number_from 0 news)).
      by rewrite strip_number_from, Hnews, indexed_number_from.
    + simpl in Hs. by rewrite (set_at_twice _ _ _ _ _ Hs0) in Hs.
    + rewrite Hrun. unfold r1. do 2 f_equal. unfold after, with_root, with_last, with_current. simpl. f_equal. lens.
  - rewrite <-app_assoc in Ha, Hlen. simpl in Ha.
    erewrite mbind_Ok by (apply (skip_spaces_ahead (with_root rt0 r) w ("]"%ch :: l));
      [exact Ha|done|simpl; unfold white; lia]).
    apply ahead_move in Ha. set (r1 := move (Zlen w) (with_root rt0 r)).
    assert (ahead r1 ("]"%ch :: l)) as Ha1 by exact Ha. erewrite mbind_Ok by reflexivity.
    erewrite mbind_Ok by (unfold lift; destruct Ha1 as [[Hc1 _] _]; rewrite (load_Some _ _ _ Hc1); reflexivity).
    rewrite Z.eqb_refl. erewrite mbind_Ok by (apply (read_punctuation r1 [] "]"%ch l tt_array_end); [constructor|done|exact Ha1]).
    exists cur0, (last_value_end_ r), (last_value_ r), rt0. split_and!; [|done|].
    + destruct cur0 as [h cc s0 l0]. simpl in Hcur0. subst h. done.
    + unfold ret, r1, move. do 2 f_equal. unfold after, with_root, with_last, with_current. simpl. f_equal. lens.
Qed.

Lemma read_object_spec rv n J tok r p ps old ts members l :
  reads rv n J -> keeps_duplicates ->
  pairs J ts members \/ (exists w, blank w /\ ts = w ++ ["}"%ch] /\ members = []) ->
  ahead r (ts ++ l) -> Zlen (ts ++ l) < 2 ^ 30 -> nodes_ r = p :: ps -> value_at p (root_ r) = Some old ->
  comments_before_ r = [] -> stack_depth_ r + n <= stack_limit features_ ->
  exists cur e q rt, strip cur = init_basic (object_ (add_members members [])) /\ set_at p cur (root_ r) = Ok rt /\
    read_object negate_min printf_17g sscanf_lf m features_ rv tok r = Ok (true, after r (current_ r + Zlen ts) e q rt).
Proof.
  intros Hrv Hkeep Hts Ha Hlen Hn Hv Hc Hd.
  destruct (begin_container_spec vt_object tok r p ps old Hn Hv) as (cur0 & rt0 & Hcur0 & Hs0 & Hrun0).
  pose proof (set_at_value _ _ _ _ Hs0) as Hv0.
  unfold read_object. erewrite mbind_Ok by exact Hrun0. erewrite mbind_Ok by reflexivity.
  set (r1 := with_root rt0 r). assert (ahead r1 (ts ++ l)) as Ha1 by exact Ha. destruct Hts as [Hts|(w & Hw & -> & ->)].
  - destruct (object_loop rv n J Hrv Hkeep _ _ Hts (span_fuel (current_ r1) (end_ r1)) [] r1 p ps cur0 [] l)
      as (m1 & cur2 & e & q & rt & Hm1 & Hcur2 & Hs & Hrun); try done.
    { destruct Ha1 as [_ He]. rewrite Zlen_app in He. unfold span_fuel, Zlen in *. lia. }
    exists cur2, e, q, rt. split_and!.
    + destruct cur2 as [h cc s0 l0]. simpl in Hcur2. subst h. simpl. unfold init_basic. f_equal. f_equal. exact Hm1.
    + simpl in Hs. by rewrite (set_at_twice _ _ _ _ _ Hs0) in Hs.
    + by rewrite Hrun.
  - rewrite <-app_assoc in Ha1. simpl in Ha1.
    pose proof (read_punctuation r1 w "}"%ch l tt_object_end Hw eq_refl Ha1) as Htok.
    unfold span_fuel. rewrite (loop_step _ _ _ r1 (inr true) (move (Zlen w + 1) r1)).
    + exists cur0, (last_value_end_ r), (last_value_ r), rt0. split_and!; [|done|].
      * destruct cur0 as [h cc s0 l0]. simpl in Hcur0. subst h. done.
      * unfold r1, move. do 2 f_equal. unfold after, with_root, with_last, with_current. simpl. f_equal. lens.
    + unfold object_turn. by erewrite mbind_Ok by (by eapply read_tokens_not_comment).
Qed.
(** A bracket and what follows it. *)
Lemma container_read rv n J ty c w ts l r p ps old v :
  (c, ty) ∈ [("["%ch, vt_array); ("{"%ch, vt_object)] ->
  blank w -> ahead r (w ++ c :: ts ++ l) -> nodes_ r = p :: ps -> value_at p (root_ r) = Some old ->
  comments_before_ r = [] -> stack_depth_ r + n <= stack_limit features_ ->
  (forall tok r, ahead r (ts ++ l) -> nodes_ r = p :: ps -> value_at p (root_ r) = Some old ->
     comments_before_ r = [] -> stack_depth_ r + n <= stack_limit features_ ->
     exists cur e q rt, strip cur = v /\ set_at p cur (root_ r) = Ok rt /\
       (if bool_decide (ty = vt_array) then read_array m features_ rv tok
        else read_object negate_min printf_17g sscanf_lf m features_ rv tok) r
       = Ok (true, after r (current_ r + Zlen ts) e q rt)) ->
  reads rv n J ->
  token_reads rv r p (Zlen w + 1) v (Zlen (w ++ c :: ts)).
Proof.
  intros Hty Hw Ha Hn Hv Hc Hd Hread Hrv.
  assert (forall x, strip (set_offset_limit x v) = strip v) as Hlim by (intros x; by destruct v).
  assert (ahead (move (Zlen w + 1) r) (ts ++ l)) as Ha1.
  { pose proof Ha as Ha'. apply ahead_move, ahead_cons in Ha'. by rewrite move_move in Ha'. }
  edestruct (Hread (token_from r (if bool_decide (ty = vt_array) then tt_array_begin else tt_object_begin) (Zlen w) 1)
    (move (Zlen w + 1) r)) as (cur & e & q & rt & Hcur & Hs & Hrun); [exact Ha1|done|done|done|done|].
  pose proof (set_at_value _ _ _ _ Hs) as Hv1.
  destruct (close_container_spec (after (move (Zlen w + 1) r) (current_ (move (Zlen w + 1) r) + Zlen ts) e q rt) p ps cur
    Hn Hv1) as (new & rt' & Hnew & Hs' & Hclose).
  assert (strip new = v) as Hstrip.
  { rewrite <-Hcur. destruct new as [h1 c1 s1 l1], cur as [h2 c2 s2 l2]. simpl in Hnew. by subst h2. }
  rewrite (set_at_twice _ _ _ _ _ Hs) in Hs'.
  rewrite !elem_of_cons in Hty. destruct Hty as [[= -> ->]|[[= -> ->]|Hty]]; [| |by apply not_elem_of_nil in Hty].
  - pose proof (read_punctuation r w "["%ch (ts ++ l) tt_array_begin Hw eq_refl Ha) as Htok.
    eexists _, new, _, _, _, rt'. split_and!; [exact Htok|done|reflexivity| |done|exact Hs'].
    unfold read_value_token. simpl. erewrite mbind_Ok by exact Hrun. erewrite mbind_Ok by exact Hclose.
    rewrite with_root_after, after_after. simpl. unfold ret. do 2 f_equal. f_equal. lens.
  - pose proof (read_punctuation r w "{"%ch (ts ++ l) tt_object_begin Hw eq_refl Ha) as Htok.
    eexists _, new, _, _, _, rt'. split_and!; [exact Htok|done|reflexivity| |done|exact Hs'].
    unfold read_value_token. simpl. erewrite mbind_Ok by exact Hrun. erewrite mbind_Ok by exact Hclose.
    rewrite with_root_after, after_after. simpl. unfold ret. do 2 f_equal. f_equal. lens.
Qed.

(** [read_value] reads the texts of the grammar. *)
Lemma read_value_reads n : keeps_duplicates -> forall fuel, (n <= fuel)%nat ->
  reads (value_reader fuel) (Z.of_nat n) (json negate_min sscanf_lf n).
Proof.
  intros Hkeep. induction n as [|n IH]; intros fuel Hf; [by intros t v w l r p ps old []|].
  destruct fuel as [|fuel]; [lia|]. specialize (IH fuel ltac:(lia)).
  intros t v w l r p ps old Hj Hw Ha Hl Hlen Hn Hv Hc Hd.
  set (r0 := with_depth (stack_depth_ r + 1) r).
  assert (token_reads (value_reader fuel) r0 p (match t with c :: _ => if bool_decide (c = "["%ch \/ c = "{"%ch)
      then Zlen w + 1 else Zlen w + Zlen t | [] => 0 end) v (Zlen (w ++ t)) ->
    exists new e q rt, strip new = v /\ set_at p new (root_ r) = Ok rt /\
      value_reader (S fuel) r = Ok (true, after r (current_ r + Zlen (w ++ t)) e q rt)) as Hstep.
  { intros (tk & new & c & e & q & rt & Htok & Hty & Hcur & Hrun & Hnew & Hs).
    edestruct (read_value_step fuel r tk) as (e' & q' & Hres); [|exact Hc|exact Htok|exact Hty|exact Hrun|]; [lia|].
    exists new, e', q', rt. split_and!; [done|exact Hs|]. rewrite Hres, Hcur. done. }
  apply Hstep. clear Hstep.
  assert (ahead r0 (w ++ t ++ l)) as Ha0 by exact Ha.
  assert (stack_depth_ r0 + Z.of_nat n <= stack_limit features_) as Hd0 by (unfold r0; simpl; lia).
  destruct Hj as [(h & Hs & ->)|[(w' & Hw' & -> & ->)|[(ts & vs & Hts & -> & ->)|[(w' & Hw' & -> & ->)|(ts & ms & Hts & -> & ->)]]]].
  - replace (match t with c :: _ => _ | [] => 0 end) with (Zlen w + Zlen t); [by eapply scalar_read|].
    destruct Hs as [| | |t h Ht|t s]; [done..| |done].
    apply number_number_text in Ht. destruct (number_text_starts _ Ht) as (c & t' & -> & Hch).
    rewrite bool_decide_false; [done|]. unfold digit in Hch. lia.
  - rewrite bool_decide_true by (by left). rewrite <-app_comm_cons in Ha0. rewrite <-app_comm_cons, Zlen_app, Zlen_cons in Hlen.
    pose proof (Zlen_nonneg w). eapply (container_read _ _ _ vt_array); try done; [by left|].
    intros tok r1 Ha1 Hn1 Hv1 Hc1 Hd1. change (array_ []) with (array_ (indexed [])).
    eapply read_array_spec; [exact IH|by apply json_starts|right; by exists w'|exact Ha1|lia|done..].
  - rewrite bool_decide_true by (by left). rewrite <-app_comm_cons in Ha0. rewrite <-app_comm_cons, Zlen_app, Zlen_cons in Hlen.
    pose proof (Zlen_nonneg w). eapply (container_read _ _ _ vt_array); try done; [by left|].
    intros tok r1 Ha1 Hn1 Hv1 Hc1 Hd1.
    eapply read_array_spec; [exact IH|by apply json_starts|by left|exact Ha1|lia|done..].
  - rewrite bool_decide_true by (by right). rewrite <-app_comm_cons in Ha0. rewrite <-app_comm_cons, Zlen_app, Zlen_cons in Hlen.
    pose proof (Zlen_nonneg w). eapply (container_read _ _ _ vt_object); try done; [right; by left|].
    intros tok r1 Ha1 Hn1 Hv1 Hc1 Hd1. change (object_ []) with (object_ (add_members [] [])).
    eapply read_object_spec; [exact IH|done|right; by exists w'|exact Ha1|lia|done..].
  - rewrite bool_decide_true by (by right). rewrite <-app_comm_cons in Ha0. rewrite <-app_comm_cons, Zlen_app, Zlen_cons in Hlen.
    pose proof (Zlen_nonneg w). eapply (container_read _ _ _ vt_object); try done; [right; by left|].
    intros tok r1 Ha1 Hn1 Hv1 Hc1 Hd1.
    eapply read_object_spec; [exact IH|done|by left|exact Ha1|lia|done..].
Qed.
Lemma read_token_end r w :
  ahead r w -> blank w ->
  read_token m features_ r = Ok (token_from r tt_end_of_stream (Zlen w) 0, move (Zlen w) r).
Proof.
  intros Ha Hw. rewrite <-(app_nil_r w) in Ha. unfold read_token.
  erewrite mbind_Ok by (apply (skip_spaces_ahead r w []); [exact Ha|done|by intros []]). erewrite mbind_Ok by reflexivity.
  erewrite mbind_Ok by (by eapply get_next_char_end, ahead_move). unfold read_token_rest. simpl.
  unfold mbind, get, ret, token_from. simpl. by rewrite Z.add_0_r.
Qed.
End reading.

(** ** Documents *)

Lemma elements_impl (J J' : list Z -> value -> Prop) ts vs :
  elements J ts vs -> (forall t v, J t v -> (length t < length ts)%nat -> J' t v) -> elements J' ts vs.
Proof.
  induction 1 as [w1 t w2 v Hw1 Ht Hw2|w1 t w2 v ts vs Hw1 Ht Hw2 _ IH]; intros HJ.
  - apply elements_last; try done. apply HJ; [done|]. rewrite !length_app. simpl. lia.
  - apply elements_cons; try done.
    + apply HJ; [done|]. rewrite !length_app. simpl. lia.
    + apply IH. intros t' v' Ht' Hlen. apply HJ; [done|]. rewrite !length_app. simpl. lia.
Qed.

Lemma pairs_impl (J J' : list Z -> value -> Prop) ts ms :
  pairs J ts ms -> (forall t v, J t v -> (length t < length ts)%nat -> J' t v) -> pairs J' ts ms.
Proof.
  induction 1 as [w1 k name w2 w3 t w4 v Hw1 Hk Hw2 Hw3 Ht Hw4|w1 k name w2 w3 t w4 v ts ms Hw1 Hk Hw2 Hw3 Ht Hw4 _ IH];
    intros HJ.
  - apply pairs_last; try done. apply HJ; [done|]. repeat (rewrite ?length_app; simpl). lia.
  - apply pairs_cons; try done.
    + apply HJ; [done|]. repeat (rewrite ?length_app; simpl). lia.
    + apply IH. intros t' v' Ht' Hlen. apply HJ; [done|]. repeat (rewrite ?length_app; simpl). lia.
Qed.

Section documents.
Context (negate_min : res Z) (printf_17g : double -> list Z) (sscanf_lf : list Z -> option double).

(** A text is not nested deeper than it is long. *)
Lemma json_depth n : forall t v k, json negate_min sscanf_lf n t v -> (length t <= k)%nat -> json negate_min sscanf_lf k t v.
Proof.
  induction n as [|n IH]; intros t v k; [done|]. intros Hj Hk.
  assert (t <> []) as Hne by (apply json_starts in Hj; by destruct t).
  destruct k as [|k]; [destruct t; [done|simpl in Hk; lia]|]. simpl in Hj |- *.
  destruct Hj as [Hs|[Hs|[(ts & vs & Hts & -> & ->)|[Hs|(ts & ms & Hts & -> & ->)]]]]; [tauto|tauto| |tauto|].
  - right; right; left. exists ts, vs. split_and!; [|done|done]. eapply elements_impl; [done|].
    intros t v Ht Hlen. simpl in Hk. apply IH; [done|lia].
  - do 4 right. exists ts, ms. split_and!; [|done|done]. eapply pairs_impl; [done|].
    intros t v Ht Hlen. simpl in Hk. apply IH; [done|lia].
Qed.

Lemma strip_is_container v : is_array (strip v) = is_array v /\ is_object (strip v) = is_object v.
Proof. destruct v as [h c s l]. by destruct h. Qed.

Lemma parse_document features_ n text v a root collect_comments :
  document negate_min sscanf_lf n text v -> Z.of_nat n <= stack_limit features_ -> Zlen text < 2 ^ 30 ->
  keeps_duplicates features_ -> (strict_root_ features_ = true -> is_array v || is_object v = true) ->
  exists r, parse_string negate_min printf_17g sscanf_lf a features_ text root collect_comments = Ok (true, r) /\
    strip (root_ r) = v /\ errors_ r = [].
Proof.
  intros (w1 & t & w2 & -> & Hw1 & Hj & Hw2) Hn Hlen Hkeep Hstrict.
  assert (exists n', json negate_min sscanf_lf n' t v /\ Z.of_nat n' <= stack_limit features_ /\ (n' <= length t)%nat)
    as (n' & Hj' & Hn' & Hnt).
  { destruct (decide (n <= length t)%nat); [by exists n|]. exists (length t). split_and!; [|lia|lia].
    by eapply json_depth. }
  set (mm := document_memory a (w1 ++ t ++ w2)). unfold parse_string. fold mm. unfold parse.
  set (r0 := start features_ a (a + Zlen (w1 ++ t ++ w2)) collect_comments root).
  assert (ahead mm r0 (w1 ++ t ++ w2)) as Ha.
  { split; [|done]. pose proof (holds_map_seqZ a ((w1 ++ t ++ w2) ++ [0])) as Hm. by apply holds_app in Hm as [Hm _]. }
  destruct (read_value_reads negate_min printf_17g sscanf_lf mm features_ n' Hkeep
    (parse_fuel features_ a (a + Zlen (w1 ++ t ++ w2)))) with (t := t) (v := v) (w := w1) (l := w2) (r := r0)
    (p := @nil key) (ps := @nil (list key)) (old := root) as (new & e & q & rt & Hnew & Hs & Hrun); try done.
  { unfold parse_fuel. autorewrite with intent. unfold Zlen in *. lia. }
  { rewrite <-(app_nil_r w2). apply blank_not_numeric; [done|by intros []]. }
  injection Hs as ->. erewrite mbind_Ok by exact Hrun.
  rewrite app_assoc in Ha. apply ahead_move in Ha.
  set (r1 := after r0 (current_ r0 + Zlen (w1 ++ t)) e q rt).
  pose proof (read_token_end mm features_ r1 w2 Ha Hw2) as Htok.
  erewrite mbind_Ok by (by eapply skip_comment_tokens_not_comment).
  replace (has_extra features_ _) with false.
  2: { unfold has_extra. destruct (ours_ features_); [|done]. simpl. by rewrite andb_false_r. }
  cbn iota. erewrite mbind_Ok.
  2: { unfold set_root_comment, mbind, get. simpl. by rewrite andb_false_r. }
  exists (move (Zlen w2) r1). split_and!; [|done|done].
  unfold check_root. destruct (strict_root_ features_) eqn:E; [|done].
  erewrite mbind_Ok by reflexivity. simpl. specialize (Hstrict eq_refl). rewrite <-Hnew in Hstrict.
  destruct (strip_is_container rt) as [Harr Hobj]. rewrite Harr, Hobj in Hstrict.
  by destruct (is_array rt), (is_object rt).
Qed.
End documents.
