(* ===== verification/JsonRoundTrip.v ===== *)
(** * Writing JSON and reading it back

    [fast_writer] writes texts of [JsonGrammar], so the reader gives back what was
    written, up to the kind of a number: integers that fit [int] and negative ones come
    back as [vt_int], the others as [vt_uint], and a real as what its printed text means, which is
    an integer if the text has neither a point nor an exponent. *)

From stdpp Require Import base tactics list sorting gmap strings.
From Stdlib Require Import ZArith Lia SpecFloat Sorted.
From S2P Require Import Prelude CString StdString ScanNumbers Unicode JsonText JsonValue JsonWriter JsonReader JsonGrammar JsonReading.
#[local] Open Scope Z_scope.
#[local] Arguments str : simpl never.
#[local] Arguments value_to_quoted_string : simpl never.
#[local] Arguments value_to_quoted_string_n : simpl never.

(** ** What comes back *)

Definition reread_integer (n : Z) : holder value :=
  if n <? 0 then int_ n else if n <=? max_int then int_ n else uint_ n.

(** [read_real d] is the number that the printed text of the real [d] means. *)
Fixpoint reread (read_real : double -> holder value) (v : value) : value :=
  match v with
  | Value h _ _ _ =>
      init_basic
        match h with
        | int_ n => reread_integer n
        | uint_ n => reread_integer n
        | array_ m => array_ (map (fun e => (e.1, reread read_real e.2)) m)
        | object_ m => object_ (map (fun e => (e.1, reread read_real e.2)) m)
        | real_ d => read_real d
        | h => h
        end
  end.

Section round_trip.
Context (negate_min : res Z) (printf_17g : double -> list Z) (sscanf_lf : list Z -> option double).
Context (read_real : double -> holder value).
#[local] Notation reread := (reread read_real).

(** What can be written and read: integers in the range of their kind (and a negation of the smallest one
    that wraps, if one is negative), reals of which the C library prints a number of JSON ([read_real] is the one it
    prints), no null strings and no NUL in a string, arrays without gaps, and names in order, as a map has them. *)
Fixpoint printable (v : value) : Prop :=
  match v with
  | Value h _ _ _ =>
      match h with
      | null_ => True
      | int_ n => min_int64 <= n <= max_int64 /\ (0 <= n \/ negate_min = Ok min_int64)
      | uint_ n => 0 <= n <= max_uint64
      | real_ d => exists t, double_to_string printf_17g d = Ok t /\ number negate_min sscanf_lf t (read_real d)
      | string_ s => exists k, s = Some k /\ no_nul k
      | bool_ _ => True
      | array_ m => m.*1 = seqZ 0 (Zlen m) /\ Zlen m < 2 ^ 31 /\ foldr (fun e P => printable e.2 /\ P) True m
      | object_ m =>
          StronglySorted (fun a b => name_less a b = true) m.*1 /\ Forall (fun k => Zlen k < 2 ^ 30) m.*1 /\
          foldr (fun e P => printable e.2 /\ P) True m
      end
  end.

(** ** Integers *)

Lemma num_snoc ds c : num (ds ++ [c]) = num ds * 10 + (c - "0"%ch).
Proof. unfold num. by rewrite foldl_app. Qed.

Lemma uint_digits k : forall fuel n current chars,
  0 <= n < 10 ^ Z.of_nat k -> (1 <= k)%nat -> Z.of_nat k <= current -> (k <= fuel)%nat ->
  exists ds,
    iterate fuel (fun '(n, current) =>
      let! current := put_before (to_char (n mod 10) + "0"%ch) current in
      if negb (n / 10 =? 0) then Ok (inl (n / 10, current)) else Ok (inr current)) (n, (current, chars))
    = Ok (current - Zlen ds, ds ++ chars) /\ num ds = n /\ ds <> [] /\ Forall digit ds /\ Zlen ds <= Z.of_nat k.
Proof.
  induction k as [|k IH]; intros fuel n current chars Hn Hk Hcur Hf; [lia|]. destruct fuel as [|fuel]; [lia|].
  simpl. ztrue (0 <? current). simpl. pose proof (Z.mod_pos_bound n 10 ltac:(lia)).
  assert (to_char (n mod 10) = n mod 10) as -> by (unfold to_char; rewrite Z.mod_small by lia; lia).
  pose proof (Z.div_mod n 10 ltac:(lia)). destruct (Z.eqb_spec (n / 10) 0) as [Hz|Hz]; simpl.
  - exists [n mod 10 + "0"%ch]. rewrite Zlen_cons, Zlen_nil. unfold num. simpl.
    split_and!; [do 3 f_equal; lia|lia|done| |lia]. repeat constructor; unfold digit; lia.
  - destruct (IH fuel (n / 10) (current - 1) (n mod 10 + "0"%ch :: chars)) as (ds & Hrun & Hnum & Hne & Hds & Hlen).
    + split; [apply Z.div_pos; lia|]. apply Z.div_lt_upper_bound; [lia|]. rewrite Nat2Z.inj_succ, Z.pow_succ_r in Hn; lia.
    + destruct k; [|lia]. simpl in Hn. rewrite Z.div_small in Hz; lia.
    + lia.
    + lia.
    + exists (ds ++ [n mod 10 + "0"%ch]). rewrite Hrun, num_snoc, Hnum, <-app_assoc. autorewrite with intent.
      split_and!; [simpl; f_equal; f_equal; lia|lia|by destruct ds| |lia].
      rewrite Forall_app. split; [done|]. repeat constructor; unfold digit; lia.
Qed.

Lemma uint_to_string_spec n : 0 <= n <= max_uint64 ->
  exists ds, uint_to_string n (uint_to_string_buffer_size, []) = Ok (24 - Zlen ds, ds ++ [0]) /\
    num ds = n /\ ds <> [] /\ Forall digit ds /\ Zlen ds <= 20.
Proof.
  intros Hn. unfold max_uint64 in Hn. unfold uint_to_string, uint_to_string_buffer_size. simpl.
  destruct (uint_digits 20 65 n 24 [0]) as (ds & Hrun & Hrest); [lia..|]. by exists ds.
Qed.

Lemma c_str_digits ds : no_nul ds -> c_str (ds ++ [0]) = ds.
Proof.
  induction ds as [|c ds IH]; [done|]. intros [Hc Hds]%no_nul_cons. simpl. zfalse (c =? 0). by rewrite IH.
Qed.

Lemma largest_uint_to_string_spec n : 0 <= n <= max_uint64 ->
  exists ds, largest_uint_to_string n = Ok ds /\ num ds = n /\ ds <> [] /\ Forall digit ds /\ Zlen ds <= 20.
Proof.
  intros Hn. destruct (uint_to_string_spec n Hn) as (ds & Hrun & Hnum & Hne & Hds & Hlen). exists ds.
  unfold largest_uint_to_string. rewrite Hrun. simpl. by rewrite c_str_digits by (by apply digits_no_nul).
Qed.

Lemma number_of_natural ds : ds <> [] -> Forall digit ds -> num ds <= max_uint64 ->
  number negate_min sscanf_lf ds (reread_integer (num ds)).
Proof.
  intros Hne Hds Hle. unfold reread_integer. pose proof (num_nonneg _ Hds). zfalse (num ds <? 0).
  by apply number_natural.
Qed.

Lemma largest_int_to_string_spec n :
  min_int64 <= n <= max_int64 -> 0 <= n \/ negate_min = Ok min_int64 ->
  exists t, largest_int_to_string negate_min n = Ok t /\ number negate_min sscanf_lf t (reread_integer n) /\ Zlen t <= 21.
Proof.
  unfold min_int64, max_int64. intros Hn Hneg. unfold largest_int_to_string. destruct (Z.ltb_spec n 0) as [Hlt|Hge].
  - destruct Hneg as [|Hneg]; [lia|].
    assert (exists n', negate negate_min n = Ok n' /\ u64 n' = - n) as (n' & -> & Hu).
    { unfold negate. destruct (Z.eqb_spec n (- 2 ^ 63)) as [->|]; [rewrite Hneg; by eexists|].
      eexists. split; [done|]. apply u64_small. lia. }
    cbn [bind]. rewrite Hu. destruct (uint_to_string_spec (- n)) as (ds & -> & Hnum & Hne & Hds & Hlen); [unfold max_uint64; lia|].
    cbn [bind]. unfold put_before. ztrue (0 <? 24 - Zlen ds). cbn [bind snd]. change (c_str ("-"%ch :: ds ++ [0]))
      with ("-"%ch :: c_str (ds ++ [0])). rewrite c_str_digits by (by apply digits_no_nul).
    eexists. split; [done|]. rewrite Zlen_cons. split; [|lia]. unfold reread_integer. ztrue (n <? 0).
    replace n with (- num ds) by lia. apply number_negative; try done. unfold min_int64. lia.
  - destruct (uint_to_string_spec n) as (ds & Hrun & Hnum & Hne & Hds & Hlen); [unfold max_uint64; lia|].
    cbn [bind]. rewrite u64_small, Hrun by lia. cbn [bind snd]. rewrite c_str_digits by (by apply digits_no_nul).
    exists ds. split; [done|]. split; [|lia]. rewrite <-Hnum. apply number_of_natural; try done. unfold max_uint64. lia.
Qed.

(** ** Strings *)

Lemma hex_digit_hex n : 0 <= n < 16 -> hex (hex_digit n) n.
Proof. intros Hn. unfold hex_digit, hex. ztest. Qed.

Lemma setw4_hex_small c : 0 <= c < 32 -> setw4_hex c = ["0"%ch; "0"%ch; hex_digit (c / 16); hex_digit (c mod 16)].
Proof.
  intros Hc. assert (Forall (fun c => setw4_hex c = ["0"%ch; "0"%ch; hex_digit (c / 16); hex_digit (c mod 16)]) (seqZ 0 32))
    as Hall by decided.
  rewrite Forall_forall in Hall. apply Hall. apply elem_of_seqZ. lia.
Qed.

Lemma utf8_chars_ascii c : 0 <= c < 128 -> utf8_chars c = [c].
Proof.
  intros Hc. unfold utf8_chars, utf8_bytes. ztrue (c <? 128). simpl. unfold to_char. rewrite Z.mod_small by lia.
  f_equal. lia.
Qed.

Lemma escape_char_chars control c t s :
  (forall c, control c = true -> 0 <= c < 32) -> chars t s -> chars (escape_char control c ++ t) (c :: s).
Proof.
  intros Hcontrol Ht. unfold escape_char.
  do 7 (match goal with |- context [c =? ?k] =>
          destruct (Z.eqb_spec c k) as [Heq|]; [rewrite Heq; apply chars_escape; [unfold escapes; decided|done]|] end).
  destruct (control c) eqn:E; [|by apply chars_plain].
  apply Hcontrol in E. rewrite setw4_hex_small by done. rewrite <-(app_nil_l s), app_comm_cons, <-(utf8_chars_ascii c) by lia.
  apply (chars_unicode ["0"%ch; "0"%ch; hex_digit (c / 16); hex_digit (c mod 16)] c); [|lia|done].
  pose proof (Z.div_mod c 16 ltac:(lia)). pose proof (Z.mod_pos_bound c 16 ltac:(lia)).
  assert (0 <= c / 16 < 2) by (split; [apply Z.div_pos|apply Z.div_lt_upper_bound]; lia).
  replace c with (((0 * 16 + 0) * 16 + c / 16) * 16 + c mod 16) at 3 by lia.
  constructor; [unfold hex; lia..|apply hex_digit_hex; lia|apply hex_digit_hex; lia].
Qed.

Lemma escaped_chars control s :
  (forall c, control c = true -> 0 <= c < 32) -> chars (concat (map (escape_char control) s)) s.
Proof. intros Hcontrol. induction s as [|c s IH]; simpl; [constructor|]. by apply escape_char_chars. Qed.

Lemma plain_chars s : has_special s = false -> chars s s.
Proof using Type.
  induction s as [|c s IH]; simpl; [constructor|]. rewrite orb_false_iff, !orb_false_iff, !Z.eqb_neq.
  intros [Hc Hs]. clear sscanf_lf. apply chars_plain; [tauto|tauto|by apply IH].
Qed.

Lemma is_control_char_range c : is_control_char c = true -> 0 <= c < 32.
Proof. unfold is_control_char. lia. Qed.

Lemma value_to_quoted_string_spec s :
  exists t, value_to_quoted_string (Some s) = DQUOTE :: t ++ [DQUOTE] /\ chars t s.
Proof.
  unfold value_to_quoted_string. destruct (has_special s) eqn:E; simpl.
  - eexists. split; [done|]. by apply escaped_chars, is_control_char_range.
  - destruct (contains_control_char s); simpl; eexists; (split; [done|]);
      [by apply escaped_chars, is_control_char_range|by apply plain_chars].
Qed.

Lemma value_to_quoted_string_n_spec s :
  exists t, value_to_quoted_string_n (Some s) = DQUOTE :: t ++ [DQUOTE] /\ chars t s.
Proof.
  assert (forall c, is_control_char c || (c =? 0) = true -> 0 <= c < 32) as Hcontrol.
  { intros c. unfold is_control_char. lia. }
  unfold value_to_quoted_string_n. destruct (has_special s) eqn:E; simpl.
  - eexists. split; [done|]. by apply escaped_chars.
  - destruct (contains_control_char0 s) eqn:E0; simpl; eexists; (split; [done|]); [by apply escaped_chars|].
    rewrite c_str_no_nul; [by apply plain_chars|]. intros Hin.
    assert (contains_control_char0 s = true) as Hc; [|congruence].
    apply existsb_exists. exists 0. split; [by apply list_elem_of_In|done].
Qed.
(** ** Arrays and objects *)

Lemma map_find_number_from vs : forall i k,
  0 <= k -> map_find Z.ltb (i + k) (number_from i vs) = vs !! Z.to_nat k.
Proof.
  induction vs as [|v vs IH]; intros i k Hk; simpl; [done|]. destruct (Z.eq_dec k 0) as [->|Hne].
  - rewrite Z.add_0_r, Z.ltb_irrefl. done.
  - ztrue (i <? i + k). replace (i + k) with (i + 1 + (k - 1)) by lia. rewrite IH by lia.
    by replace (Z.to_nat k) with (S (Z.to_nat (k - 1))) by lia.
Qed.

(** An array without gaps lists its elements. *)
Lemma dense_number_from (m : list (Z * value)) i : m.*1 = seqZ i (Zlen m) -> m = number_from i m.*2.
Proof.
  revert i. induction m as [|[j v] m IH]; intros i; simpl; [done|].
  rewrite Zlen_cons, seqZ_cons by (pose proof (Zlen_nonneg m); lia). intros [= -> Hm].
  f_equal. apply IH. etrans; [exact Hm|]. f_equal; lia.
Qed.

Lemma last_number_from vs i : vs <> [] -> exists v, last (number_from i vs) = Some (i + Zlen vs - 1, v).
Proof.
  revert i. induction vs as [|v vs IH]; intros i; [done|]. intros _. destruct vs as [|v' vs].
  - exists v. unfold Zlen. simpl. do 2 f_equal. lia.
  - destruct (IH (i + 1)) as [x Hx]; [done|]. exists x. change (last (number_from i (v :: v' :: vs)))
      with (last (number_from (i + 1) (v' :: vs))). rewrite Hx, !Zlen_cons. do 2 f_equal. lia.
Qed.

(** What is written inside the brackets, from the element [i] on. *)
Lemma write_elements (J : list Z -> value -> Prop) (body : Z -> list Z -> res (list Z)) (f : value -> value) vs :
  forall i doc, 0 <= i -> vs <> [] ->
  (forall k v doc, vs !! k = Some v -> exists t,
     body (i + Z.of_nat k) doc = Ok (doc ++ (if 0 <? i + Z.of_nat k then [","%ch] else []) ++ t) /\ J t (f v)) ->
  exists ts, for_each body (seqZ i (Zlen vs)) doc = Ok (doc ++ (if 0 <? i then [","%ch] else []) ++ ts) /\
    elements J (ts ++ ["]"%ch]) (map f vs).
Proof.
  induction vs as [|v vs IH]; intros i doc Hi Hne Hbody; [done|].
  rewrite Zlen_cons, seqZ_cons by (pose proof (Zlen_nonneg vs); lia). simpl.
  destruct (Hbody 0%nat v doc eq_refl) as (t & Ht & HJ). rewrite Z.add_0_r in Ht. rewrite Ht. simpl.
  destruct vs as [|v' vs].
  - exists t. split; [done|]. apply (elements_last J [] t [] (f v)); [constructor|done|constructor].
  - destruct (IH (Z.succ i) (doc ++ (if 0 <? i then [","%ch] else []) ++ t)) as (ts & Hts & Hel); [lia|done| |].
    { intros k x doc' Hk. destruct (Hbody (S k) x doc' Hk) as (tx & Htx & HJx). exists tx.
      replace (Z.succ i + Z.of_nat k) with (i + Z.of_nat (S k)) by lia. done. }
    exists (t ++ ","%ch :: ts). replace (Z.pred (1 + Zlen (v' :: vs))) with (Zlen (v' :: vs)) by lia.
    rewrite Hts. ztrue (0 <? Z.succ i). split.
    + by rewrite <-!app_assoc.
    + rewrite <-app_assoc. simpl. by apply (elements_cons J [] t [] (f v)); [constructor| |constructor|].
Qed.

Lemma find_sorted (m1 : list (list Z * value)) : forall k v m2,
  Forall (fun e => name_less e.1 k = true) m1 -> map_find name_less k (m1 ++ (k, v) :: m2) = Some v.
Proof.
  induction m1 as [|[k' x] m1 IH]; intros k v m2; simpl; [by rewrite name_less_irrefl|].
  intros [Hx Hm]%Forall_cons. simpl in Hx. rewrite Hx. auto.
Qed.

Lemma map_set_last (m1 : list (list Z * value)) k v :
  Forall (fun e => name_less e.1 k = true) m1 -> map_set name_less name_equal k v m1 = m1 ++ [(k, v)].
Proof. induction m1 as [|[k' x] m1 IH]; simpl; [done|]. intros [Hx Hm]%Forall_cons. simpl in Hx. by rewrite Hx, IH. Qed.

(** Names in order are members in order. *)
Lemma add_members_sorted ps : forall m1,
  StronglySorted (fun a b => name_less a b = true) ps.*1 ->
  Forall (fun p => Forall (fun e => name_less e.1 p = true) m1) ps.*1 -> add_members ps m1 = m1 ++ ps.
Proof.
  induction ps as [|[k v] ps IH]; intros m1 Hs Hm; simpl; [by rewrite app_nil_r|].
  simpl in Hs, Hm. apply StronglySorted_inv in Hs as [Hs Hk]. apply Forall_cons in Hm as [Hm1 Hm].
  unfold add_members in *. simpl. rewrite map_set_last by done. rewrite IH; [by rewrite <-app_assoc|done|].
  rewrite Forall_forall in Hk, Hm |- *. intros p Hp. rewrite Forall_app. split; [by apply Hm|].
  repeat constructor. by apply Hk.
Qed.
(** What is written inside the braces, from the member [i] on; [space] follows the colon. *)
Lemma write_pairs (J : list Z -> value -> Prop) (body : nat * list Z -> list Z -> res (list Z)) (f : value -> value)
    (space : list Z) (ps : list (list Z * value)) :
  forall i doc, ps <> [] -> blank space ->
  (forall k name v doc, ps !! k = Some (name, v) -> exists q t,
     body ((i + k)%nat, name) doc
     = Ok (doc ++ (if (0 <? i + k)%nat then [","%ch] else []) ++ DQUOTE :: q ++ DQUOTE :: ":"%ch :: space ++ t) /\
     chars q name /\ J t (f v)) ->
  exists ts, for_each body (imap (fun k name => ((i + k)%nat, name)) ps.*1) doc
      = Ok (doc ++ (if (0 <? i)%nat then [","%ch] else []) ++ ts) /\
    pairs J (ts ++ ["}"%ch]) (map (fun e => (e.1, f e.2)) ps).
Proof.
  induction ps as [|[name v] ps IH]; intros i doc Hne Hsp Hbody; [done|]. cbn [fmap list_fmap imap for_each fst].
  destruct (Hbody 0%nat name v doc eq_refl) as (q & t & Ht & Hq & HJ). rewrite Nat.add_0_r in *. rewrite Ht. cbn [bind].
  destruct ps as [|p ps].
  - exists (DQUOTE :: q ++ DQUOTE :: ":"%ch :: space ++ t). split; [done|].
    replace ((DQUOTE :: q ++ DQUOTE :: ":"%ch :: space ++ t) ++ ["}"%ch])
      with ([] ++ DQUOTE :: q ++ DQUOTE :: [] ++ ":"%ch :: space ++ t ++ [] ++ ["}"%ch])
      by (simpl; by repeat (rewrite <-app_assoc; simpl)).
    simpl map. apply pairs_last; (constructor || done).
  - destruct (IH (S i) (doc ++ (if (0 <? i)%nat then [","%ch] else []) ++ DQUOTE :: q ++ DQUOTE :: ":"%ch :: space ++ t))
      as (ts & Hts & Hel); [done|done| |].
    { intros k name' v' doc' Hk. destruct (Hbody (S k) name' v' doc' Hk) as (q' & t' & Ht' & Hrest). exists q', t'.
      by rewrite Nat.add_succ_comm. }
    exists ((DQUOTE :: q ++ DQUOTE :: ":"%ch :: space ++ t) ++ ","%ch :: ts). split.
    + replace (imap _ _) with (imap (fun k name0 => ((S i + k)%nat, name0)) (p :: ps).*1)
        by (apply imap_ext; intros; simpl; f_equal; lia).
      rewrite Hts. by repeat (rewrite <-app_assoc; simpl).
    + replace (((DQUOTE :: q ++ DQUOTE :: ":"%ch :: space ++ t) ++ ","%ch :: ts) ++ ["}"%ch])
        with ([] ++ DQUOTE :: q ++ DQUOTE :: [] ++ ":"%ch :: space ++ t ++ [] ++ ","%ch :: (ts ++ ["}"%ch]))
        by (simpl; by repeat (rewrite <-app_assoc; simpl)).
      apply (pairs_cons J [] q name [] space t [] (f v)); (constructor || done).
Qed.

Lemma json_mono n : forall n' t v, json negate_min sscanf_lf n t v -> (n <= n')%nat -> json negate_min sscanf_lf n' t v.
Proof.
  induction n as [|n IH]; intros n' t v Hj Hle; [done|]. destruct n' as [|n']; [lia|]. simpl in Hj |- *.
  destruct Hj as [Hs|[Hs|[(ts & vs & Hts & -> & ->)|[Hs|(ts & ms & Hts & -> & ->)]]]]; [tauto|tauto| |tauto|].
  - right; right; left. exists ts, vs. split_and!; [|done|done]. eapply elements_impl; [done|].
    intros t v Ht _. apply IH; [done|lia].
  - do 4 right. exists ts, ms. split_and!; [|done|done]. eapply pairs_impl; [done|].
    intros t v Ht _. apply IH; [done|lia].
Qed.

Lemma foldr_and {A} (P : A -> Prop) (l : list A) : foldr (fun e Q => P e /\ Q) True l <-> Forall P l.
Proof. induction l as [|x l IH]; simpl; [by rewrite Forall_nil|]. by rewrite Forall_cons, IH. Qed.

Lemma depth_member {K} (m : list (K * value)) k v n :
  m !! k = Some v -> (foldr (fun e n => depth e.2 `max` n)%nat 0%nat m <= n)%nat -> (depth v.2 <= n)%nat.
Proof.
  revert k. induction m as [|e m IH]; intros [|k]; simpl; [done..| |]; [intros [= ->]; lia|].
  intros Hk Hn. apply (IH k Hk). lia.
Qed.
(** ** What a writer sees of a container *)

(** An array that can be written: its elements in order, found by their index. *)
Lemma printable_array m c s l (V := Value (array_ m) c s l) (vs := m.*2) :
  printable V ->
  size V = Zlen vs /\ Zlen vs < 2 ^ 31 /\
  (forall i v, vs !! i = Some v -> index_find (Z.of_nat i) V = Ok (Some v) /\ exists j, m !! i = Some (j, v)) /\
  reread V = init_basic (array_ (indexed (map reread vs))).
Proof.
  intros (Hkeys & Hlen & Hp). apply dense_number_from in Hkeys. fold vs in Hkeys.
  assert (Zlen vs = Zlen m) as Hvs by (unfold vs, Zlen; by rewrite length_fmap).
  split_and!; [|lia| |].
  - unfold size, V. cbn [value_]. rewrite Hkeys. destruct (decide (vs = [])) as [->|Hne]; [done|].
    destruct (last_number_from vs 0 Hne) as [x ->]. pose proof (Zlen_nonneg vs). rewrite u32_small; lia.
  - intros i v Hi. split.
    + unfold index_find, V. cbn [value_]. pose proof (map_find_number_from vs 0 (Z.of_nat i) ltac:(lia)) as Hmf.
      rewrite Z.add_0_l in Hmf. by rewrite Hkeys, Hmf, Nat2Z.id, Hi.
    + unfold vs in Hi. rewrite list_lookup_fmap in Hi. destruct (m !! i) as [[j x]|]; [|done].
      injection Hi as ->. eauto.
  - unfold V. simpl. rewrite Hkeys, indexed_number_from. f_equal. f_equal.
    clearbody vs. clear. generalize 0. induction vs as [|v vs IH]; intros i; simpl; [done|]. by rewrite IH.
Qed.

Lemma int_index_find i V : 0 <= i < 2 ^ 32 -> int_find i V = index_find i V.
Proof. intros Hi. unfold int_find. ztrue (0 <=? i). simpl. by rewrite u32_small. Qed.

(** An object that can be written: its members in order, found by their names. *)
Lemma printable_object m c s l (V := Value (object_ m) c s l) :
  printable V ->
  (forall k name v, m !! k = Some (name, v) -> find name V = Ok (Some v)) /\
  reread V = init_basic (object_ (add_members (map (fun e => (e.1, reread e.2)) m) [])).
Proof.
  intros (Hsorted & Hkeys & _). split.
  - intros k name v Hk. unfold find, V. cbn [value_]. rewrite Forall_lookup in Hkeys.
    rewrite czstring_small by (apply (Hkeys k); by rewrite list_lookup_fmap, Hk).
    rewrite <-(take_drop_middle _ _ _ Hk) in Hsorted |- *. rewrite find_sorted; [done|].
    rewrite fmap_app in Hsorted. rewrite Forall_forall. intros e He.
    eapply (StronglySorted_app_1_elem_of (fun a b => name_less a b = true)); [exact Hsorted|by apply list_elem_of_fmap_2|].
    simpl. by left.
  - unfold V. simpl. f_equal. f_equal. rewrite add_members_sorted; [done| |].
    + by rewrite <-list_fmap_compose.
    + rewrite Forall_forall. intros p _. constructor.
Qed.

(** ** The writer *)

Section writer.
Context (w : fast_writer) (Hnull : drop_null_placeholders_ w = false).

(** The text of [v] is written behind the document, whatever that is. *)
Definition writes (v : value) : Prop :=
  forall fuel doc, (depth v <= fuel)%nat ->
  exists t, write_value negate_min printf_17g w fuel v doc = Ok (doc ++ t) /\
    json negate_min sscanf_lf (depth v) t (reread v).

Lemma depth_pos v : (1 <= depth v)%nat.
Proof. destruct v as [h c s l]. destruct h; simpl; lia. Qed.

Lemma writes_leaf h c s l :
  match h with array_ _ | object_ _ => False | _ => True end -> printable (Value h c s l) -> writes (Value h c s l).
Proof using Hnull.
  intros Hleaf Hp fuel doc Hf. destruct fuel as [|fuel]; [pose proof (depth_pos (Value h c s l)); lia|].
  assert (forall t h', scalar negate_min sscanf_lf t h' -> json negate_min sscanf_lf 1 t (init_basic h')) as Hj
    by (intros t h' Hs; left; eauto).
  destruct h as [|n|n|d|s0|b|m|m]; try done; simpl in Hp; cbn [write_value type value_ depth reread].
  - rewrite Hnull. simpl. exists (str "null"). split; [done|]. apply Hj. constructor.
  - destruct Hp as [Hn Hneg]. destruct (largest_int_to_string_spec n Hn Hneg) as (t & Ht & Hnum & _).
    unfold as_largest_int, as_int64. simpl. rewrite Ht. simpl. exists t. split; [done|]. by apply Hj, scalar_number.
  - destruct (largest_uint_to_string_spec n Hp) as (t & Ht & Hnum & Hne & Hds & _).
    unfold as_largest_uint, as_uint64. simpl. rewrite Ht. simpl. exists t. split; [done|].
    apply Hj, scalar_number. rewrite <-Hnum. apply number_of_natural; [done|done|lia].
  - destruct Hp as (t & Ht & Hnum). unfold as_double. simpl. rewrite Ht. simpl. exists t.
    split; [done|]. by apply Hj, scalar_number.
  - destruct Hp as (k & -> & Hk). unfold as_cstring. simpl. rewrite c_str_no_nul by done.
    destruct (value_to_quoted_string_spec k) as (t & -> & Ht). eexists. split; [done|].
    by apply Hj, scalar_string.
  - unfold as_bool. simpl. eexists. split; [done|]. apply Hj. destruct b; constructor.
Qed.

Lemma writes_array m c s l :
  Forall (fun e => printable e.2 -> writes e.2) m -> printable (Value (array_ m) c s l) -> writes (Value (array_ m) c s l).
Proof using Hnull.
  intros IH Hpv fuel doc Hf. destruct (printable_array m c s l Hpv) as (Hsize & Hlen & Hfind & Hreread).
  set (vs := m.*2) in *. set (V := Value (array_ m) c s l) in *. destruct Hpv as (_ & _ & Hp). rewrite foldr_and in Hp.
  destruct fuel as [|fuel]; [simpl in Hf; lia|]. cbn [write_value type value_]. fold V.
  assert (i32 (size V) = Zlen vs) as -> by (pose proof (Zlen_nonneg vs); rewrite Hsize, i32_fits; lia).
  rewrite Hreread. destruct (decide (vs = [])) as [Hvn|Hne].
  - rewrite Hvn. simpl. rewrite <-app_assoc. eexists. split; [done|].
    right; left. exists []. split_and!; [constructor|done|done].
  - destruct (write_elements (json negate_min sscanf_lf (foldr (fun e n => depth e.2 `max` n)%nat 0%nat m))
      (fun index document_ =>
        let document_ := if 0 <? index then document_ ++ [","%ch] else document_ in
        let! child := int_find index V in
        write_value negate_min printf_17g w fuel (deref child) document_) reread vs 0 (doc ++ ["["%ch]))
      as (ts & Hts & Hel); [lia|done| |].
    { intros k v doc' Hk. pose proof (lookup_lt_Some _ _ _ Hk). unfold Zlen in Hlen.
      destruct (Hfind _ _ Hk) as (Hf1 & i & Hmk). rewrite Z.add_0_l, int_index_find, Hf1 by lia. cbn [bind deref default].
      rewrite Forall_lookup in IH, Hp.
      assert (depth v <= foldr (fun e n => depth e.2 `max` n)%nat 0%nat m)%nat as Hdv
        by (apply (depth_member m k (i, v)); [done|lia]).
      destruct (IH _ _ Hmk (Hp _ _ Hmk) fuel (if 0 <? Z.of_nat k then doc' ++ [","%ch] else doc')) as (t & Ht & Hj).
      { simpl in Hf |- *. lia. }
      exists t. split; [|by eapply json_mono]. etrans; [exact Ht|]. destruct (0 <? Z.of_nat k); by rewrite <-?app_assoc. }
    exists ("["%ch :: ts ++ ["]"%ch]). split.
    { etrans; [exact (f_equal (fun x => bind x (fun d => Ok (d ++ ["]"%ch]))) Hts)|]. simpl. by rewrite <-!app_assoc. }
    right; right; left. exists (ts ++ ["]"%ch]), (map reread vs). done.
Qed.

Lemma writes_object m c s l :
  Forall (fun e => printable e.2 -> writes e.2) m -> printable (Value (object_ m) c s l) -> writes (Value (object_ m) c s l).
Proof using Hnull.
  intros IH Hpv fuel doc Hf. destruct (printable_object m c s l Hpv) as (Hfind & Hreread).
  destruct Hpv as (_ & _ & Hp). rewrite foldr_and in Hp. destruct fuel as [|fuel]; [simpl in Hf; lia|].
  cbn [write_value type value_]. set (V := Value (object_ m) c s l) in *.
  assert (foldr (fun e n => depth e.2 `max` n)%nat 0%nat m <= fuel)%nat as Hf' by (simpl in Hf; lia).
  assert (get_member_names V = Ok m.*1) as -> by done. cbn [bind].
  rewrite Hreread. clear Hreread. destruct m as [|e0 m0]; [|set (m := e0 :: m0) in *].
  - simpl. rewrite <-app_assoc. eexists. split; [done|]. do 3 right; left. exists [].
    split_and!; [constructor|done|done].
  - set (space := if yaml_compatibility_enabled_ w then [" "%ch] else []).
    destruct (write_pairs (json negate_min sscanf_lf (foldr (fun e n => depth e.2 `max` n)%nat 0%nat m))
      (fun '(i, name) document_ =>
        let document_ := if (0 <? i)%nat then document_ ++ [","%ch] else document_ in
        let document_ := document_ ++ value_to_quoted_string_n (Some name) in
        let document_ := document_ ++ str (if yaml_compatibility_enabled_ w then ": " else ":") in
        let! child := find name V in
        write_value negate_min printf_17g w fuel (deref child) document_) reread space m 0 (doc ++ ["{"%ch]))
      as (ts & Hts & Hel); [done|unfold space; destruct (yaml_compatibility_enabled_ w); repeat constructor| |].
    { intros k name v doc' Hk. rewrite Nat.add_0_l.
      rewrite (Hfind _ _ _ Hk).
      cbn [bind deref default]. destruct (value_to_quoted_string_n_spec name) as (q & -> & Hq).
      rewrite Forall_lookup in IH, Hp.
      assert (depth v <= foldr (fun e n => depth e.2 `max` n)%nat 0%nat m)%nat as Hdv
        by (apply (depth_member m k (name, v)); [done|lia]).
      edestruct (IH _ _ Hk (Hp _ _ Hk) fuel) as (t & Ht & Hj); [simpl; lia|].
      exists q, t. split_and!; [|done|by eapply json_mono]. etrans; [exact Ht|]. f_equal.
      replace (str (if yaml_compatibility_enabled_ w then ": " else ":")) with (":"%ch :: space)
        by (unfold space; by destruct (yaml_compatibility_enabled_ w)).
      destruct (0 <? k)%nat; by repeat (rewrite <-app_assoc; simpl). }
    exists ("{"%ch :: ts ++ ["}"%ch]). split.
    { etrans; [exact (f_equal (fun x => bind x (fun d => Ok (d ++ ["}"%ch]))) Hts)|]. simpl. by rewrite <-!app_assoc. }
    do 4 right. by exists (ts ++ ["}"%ch]), (map (fun e => (e.1, reread e.2)) m).
Qed.

Lemma printable_writes v : printable v -> writes v.
Proof using Hnull.
  induction v as [h c s l Hleaf|m c s l IH|m c s l IH]; [by apply writes_leaf|by apply writes_array|by apply writes_object].
Qed.
End writer.
End round_trip.

Lemma reread_container negate_min printf_17g sscanf_lf read_real v :
  printable negate_min printf_17g sscanf_lf read_real v ->
  is_array (reread read_real v) = is_array v /\ is_object (reread read_real v) = is_object v.
Proof.
  destruct v as [h c s l]. destruct h as [|n|n|d|s0|b|m|m]; try done; simpl; unfold reread_integer;
    [destruct (n <? 0), (n <=? max_int); done..|].
  intros (t & _ & Hnum). destruct Hnum as [ds ? ? ?| |]; [|done..]. by destruct (num ds <=? max_int).
Qed.

(** * The theorems *)

(** C2: The reader reads JSON: on every text of the grammar of RFC 8259 ([document], a specification
    that knows nothing of the reader: blanks, escapes, surrogate pairs, integers that fit and others, nested
    arrays and objects), nested no deeper than the limit of the stack, [parse] returns true
    without an error, and the root, whatever it was before, is the value the grammar gives
    the text, up to comments and offsets.  It holds for both classes of readers and all their features, except
    that duplicate names must be allowed and that a strict root must be an array or object. *)
Theorem reader_reads_json negate_min printf_17g sscanf_lf features_ n text v a root collect_comments :
  document negate_min sscanf_lf n text v -> Z.of_nat n <= stack_limit features_ -> Zlen text < 2 ^ 30 ->
  keeps_duplicates features_ -> (strict_root_ features_ = true -> is_array v || is_object v = true) ->
  exists r, parse_string negate_min printf_17g sscanf_lf a features_ text root collect_comments = Ok (true, r) /\
    strip (root_ r) = v /\ errors_ r = [].
Proof. apply parse_document. Qed.

(** C4: What [fast_writer] writes of a [printable] value, the reader reads back: the writer never throws and its
    recursion is bounded by the depth of the value; [parse] then succeeds without an error, and the root is the value, comments and offsets aside, with the kinds of numbers that their texts have ([reread]): an integer comes back as [int_] if it is
    negative or fits [int], else as [uint_], and a real [d] as [read_real d], the number of JSON that the C library
    printed for it, which is an integer if the text has neither a point nor an exponent. Conditions: [printable]
    (integers in the range of their kind, and a negation of the smallest integer that wraps if one is negative;
    strings not null and without NUL; arrays without gaps of fewer than 2^31 elements; names in order and shorter
    than 2^30), a writer that does not drop nulls, a text shorter than 2^30, and a reader that allows duplicate
    names, a stack as deep as the value, and the value as its root. *)
Theorem json_round_trip negate_min printf_17g sscanf_lf read_real w features_ v a root collect_comments :
  drop_null_placeholders_ w = false -> printable negate_min printf_17g sscanf_lf read_real v ->
  Z.of_nat (depth v) <= stack_limit features_ -> keeps_duplicates features_ ->
  (strict_root_ features_ = true -> is_array v || is_object v = true) ->
  exists text, write negate_min printf_17g w (depth v) v = Ok text /\
    (Zlen text < 2 ^ 30 ->
     exists r, parse_string negate_min printf_17g sscanf_lf a features_ text root collect_comments = Ok (true, r) /\
       strip (root_ r) = reread read_real v /\ errors_ r = []).
Proof.
  intros Hnull Hp Hd Hkeep Hstrict.
  destruct (printable_writes negate_min printf_17g sscanf_lf read_real w Hnull v Hp (depth v) []) as (t & Ht & Hj); [lia|].
  unfold write. rewrite Ht. cbn [bind]. eexists. split; [done|]. intros Hlen.
  apply parse_document with (depth v); try done.
  - exists [], t, (if negb (omit_ending_line_feed_ w) then [LF] else []).
    split_and!; [by destruct (omit_ending_line_feed_ w); simpl; rewrite ?app_nil_r|constructor|done|].
    destruct (omit_ending_line_feed_ w); simpl; [constructor|]. constructor; [by do 3 right|constructor].
  - destruct (reread_container _ _ _ _ v Hp) as [-> ->]. exact Hstrict.
Qed.

Definition sample_half : double := S754_finite false (2 ^ 52) (- 53).
Definition sample_two : double := S754_finite false (2 ^ 52) (- 51).
Definition sample_printf (d : double) : list Z := match d with S754_finite _ _ (-53) => str "0.5" | _ => str "2" end.
Definition sample_sscanf (s : list Z) : option double := if bool_decide (s = str "0.5") then Some sample_half else None.
Definition sample_read_real (d : double) : holder value :=
  match d with S754_finite _ _ (-53) => real_ sample_half | _ => int_ 2 end.

(** {"a\n":[null,-1,3000000000,0.5,2,"\u0001"],"b":{}} *)
Definition sample_value : value :=
  init_basic (object_
    [(str "a" ++ [LF], init_basic (array_ (indexed
        [null_ref; value_of_int (-1); value_of_uint 3000000000; value_of_double sample_half; value_of_double sample_two;
         init_basic (string_ (Some [1]))])));
     (str "b", init_basic (object_ []))]).

Lemma sample_printable : printable (Ok min_int64) sample_printf sample_sscanf sample_read_real sample_value.
Proof.
  assert (forall k, no_nul k -> exists k0, Some k = Some k0 /\ no_nul k0) as Hs by eauto.
  simpl. split_and!; try done; try (repeat constructor; vm_compute; done); try (vm_compute; split; discriminate).
  + exists (str "0.5"). split; [reflexivity|]. apply number_real; [| | |reflexivity].
    * exists [], (str "0"), (str ".5"), []. split_and!; [done|by left|done|repeat constructor; vm_compute; discriminate| |by left].
      right. exists (str "5"). split; [done|]. repeat constructor; vm_compute; discriminate.
    * intros ds <- Hds. change (str "0.5") with [48; 46; 53] in Hds. rewrite !Forall_cons in Hds. destruct Hds as (_ & Hd & _). unfold digit in Hd. vm_compute in Hd.
      by destruct Hd as [Hd _].
    * intros ds Hds. discriminate Hds.
  + exists (str "2"). split; [reflexivity|]. apply (number_natural _ _ (str "2")); [done| |vm_compute; discriminate].
    repeat constructor; vm_compute; discriminate.
  + apply Hs. unfold no_nul. rewrite list_elem_of_singleton. discriminate.
Qed.

Lemma reader_reads_json_witness :
  exists r, parse_string (Ok min_int64) sample_printf sample_sscanf 1 features_all (str "[ true,1 ]") null_ref true = Ok (true, r)
    /\ strip (root_ r) = init_basic (array_ (indexed [value_of_bool true; value_of_int 1])) /\ errors_ r = [].
Proof.
  apply (reader_reads_json (Ok min_int64) sample_printf sample_sscanf features_all 2).
  - exists [], (str "[ true,1 ]"), []. split_and!; [done|constructor| |constructor].
    right; right; left. exists (str " true,1 ]"), [value_of_bool true; value_of_int 1]. split_and!; [|done|done].
    apply (elements_cons _ [" "%ch] (str "true") [] (value_of_bool true) (str "1 ]")).
    + repeat constructor.
    + left. eexists. split; [constructor|done].
    + constructor.
    + apply (elements_last _ [] (str "1") [" "%ch] (value_of_int 1)); [constructor| |repeat constructor].
      left. eexists. split; [|reflexivity]. apply scalar_number.
      apply (number_natural (Ok min_int64) sample_sscanf (str "1")); [done| |vm_compute; discriminate].
      repeat constructor; vm_compute; discriminate.
  - vm_compute. discriminate.
  - reflexivity.
  - exact I.
  - discriminate.
Defined.

Lemma json_round_trip_witness :
  exists text, write (Ok min_int64) sample_printf fast_writer_new 3 sample_value = Ok text /\
    (Zlen text < 2 ^ 30 ->
     exists r, parse_string (Ok min_int64) sample_printf sample_sscanf 1 features_all text null_ref true = Ok (true, r) /\
       strip (root_ r) = reread sample_read_real sample_value /\ errors_ r = []).
Proof.
  apply (json_round_trip (Ok min_int64) sample_printf sample_sscanf sample_read_real fast_writer_new features_all sample_value).
  - reflexivity.
  - apply sample_printable.
  - vm_compute. discriminate.
  - exact I.
  - discriminate.
Defined.
