(* ===== verification/JsonStyled.v ===== *)
(** * The styled writers: styled_writer, styled_stream_writer and
    built_styled_stream_writer of core/data/json/writer.cpp, and the builder of the last

    The three classes are copies of each other that differ in places, so one set of
    definitions serves all; [class] says which of them [*this] is, and holds the fields of
    the third class that do not change.  The record [writer] holds the others.
    [document_] of the two stream writers is what they have put on their stream.  The fuel
    of [write_value] is a bound on the depth of the value; [depth] is enough. *)

From stdpp Require Import base tactics list strings.
From Stdlib Require Import ZArith Lia.
From S2P Require Import Prelude CString StdString ScanNumbers JsonText JsonValue JsonWriter JsonReader.
#[local] Open Scope Z_scope.

Inductive comment_style : Type := cs_none | cs_most | cs_all.
#[export] Instance comment_style_eq_dec : EqDecision comment_style.
Proof. solve_decision. Defined.

Record built_settings : Type := {
  cs_ : comment_style;
  colon_symbol_ : list Z;
  null_symbol_ : list Z;
  ending_linefeed_symbol_ : list Z
}.
Inductive writer_class : Type :=
| styled_writer
| styled_stream_writer
| built_styled_stream_writer (b : built_settings).

Record writer : Type := {
  child_values_ : list (list Z);
  document_ : list Z;
  indentString_ : list Z;
  add_child_values_ : bool;
  indented_ : bool
}.

Definition right_margin_ : Z := 74.

Definition with_child_values (x : list (list Z)) (s : writer) : writer :=
  {| child_values_ := x; document_ := document_ s; indentString_ := indentString_ s;
     add_child_values_ := add_child_values_ s; indented_ := indented_ s |}.
(** [document_ += x]. *)
Definition put (x : list Z) (s : writer) : writer :=
  {| child_values_ := child_values_ s; document_ := document_ s ++ x; indentString_ := indentString_ s;
     add_child_values_ := add_child_values_ s; indented_ := indented_ s |}.
Definition with_indentString (x : list Z) (s : writer) : writer :=
  {| child_values_ := child_values_ s; document_ := document_ s; indentString_ := x;
     add_child_values_ := add_child_values_ s; indented_ := indented_ s |}.
Definition with_add_child_values (x : bool) (s : writer) : writer :=
  {| child_values_ := child_values_ s; document_ := document_ s; indentString_ := indentString_ s;
     add_child_values_ := x; indented_ := indented_ s |}.
Definition with_indented (x : bool) (s : writer) : writer :=
  {| child_values_ := child_values_ s; document_ := document_ s; indentString_ := indentString_ s;
     add_child_values_ := add_child_values_ s; indented_ := x |}.

(** A sum or product of ints. *)
Definition to_int (n : Z) : res Z := if (min_int <=? n) && (n <=? max_int) then Ok n else Undef.

(** [child_values_[index]]. *)
Definition child_value (index : Z) (s : writer) : res (list Z) :=
  match child_values_ s !! Z.to_nat index with Some t => Ok t | None => Undef end.

Section write.
Context (negate_min : res Z) (printf_17g : double -> list Z) (class : writer_class) (indentation_ : list Z).

(** ** Lines *)

Definition push_value (t : list Z) (s : writer) : writer :=
  if add_child_values_ s then with_child_values (child_values_ s ++ [t]) s else put t s.

Definition writeIndent (s : writer) : writer :=
  match class with
  | styled_writer =>
      match last (document_ s) with
      | Some c =>
          if c =? " "%ch then s
          else
            let s := if negb (c =? LF) then put [LF] s else s in
            put (indentString_ s) s
      | None => put (indentString_ s) s
      end
  | styled_stream_writer => put ([LF] ++ indentString_ s) s
  | built_styled_stream_writer _ => if negb (Zlen indentation_ =? 0) then put ([LF] ++ indentString_ s) s else s
  end.

(** [if (!indented_) writeIndent();] *)
Definition indent_once (s : writer) : writer := if negb (indented_ s) then writeIndent s else s.

Definition write_with_indent (t : list Z) (s : writer) : writer :=
  match class with
  | styled_writer => put t (writeIndent s)
  | _ => with_indented false (put t (indent_once s))
  end.

Definition indent (s : writer) : writer := with_indentString (indentString_ s ++ indentation_) s.
Definition unindent (s : writer) : res writer :=
  let! _ := assert_that (Zlen indentation_ <=? Zlen (indentString_ s)) in
  Ok (with_indentString (take (length (indentString_ s) - length indentation_) (indentString_ s)) s).

(** ** Comments *)

(** The chars of a comment; [new_line] is what happens after a line feed that a slash
    follows.  The test dereferences the end of the string when the line feed is the last char. *)
Fixpoint write_comment (new_line : writer -> writer) (comment : list Z) (s : writer) : res writer :=
  match comment with
  | [] => Ok s
  | c :: rest =>
      let s := put [c] s in
      let! s :=
        (if c =? LF then
           match rest with
           | [] => Undef
           | d :: _ => Ok (if d =? "/"%ch then new_line s else s)
           end
         else Ok s) in
      write_comment new_line rest s
  end.

(** [cs_ == comment_style::none]. *)
Definition drops_comments : bool :=
  match class with built_styled_stream_writer b => bool_decide (cs_ b = cs_none) | _ => false end.

Definition write_comment_before_value (root : value) (s : writer) : res writer :=
  if drops_comments then Ok s
  else if negb (has_comment comment_before root) then Ok s
  else
    let comment := get_comment comment_before root in
    match class with
    | styled_writer =>
        let! s := write_comment writeIndent comment (writeIndent (put [LF] s)) in
        Ok (put [LF] s)
    | _ =>
        let! s := write_comment (fun s => put (indentString_ s) s) comment (indent_once s) in
        Ok (with_indented false s)
    end.

Definition write_comment_after_value_on_same_line (root : value) (s : writer) : writer :=
  if drops_comments then s
  else
    let s :=
      if has_comment comment_after_on_same_line root
      then put ([" "%ch] ++ get_comment comment_after_on_same_line root) s else s in
    let s :=
      if has_comment comment_after root then
        match class with
        | styled_writer => put [LF] (put (get_comment comment_after root) (put [LF] s))
        | _ => put (get_comment comment_after root) (writeIndent s)
        end
      else s in
    match class with
    | styled_stream_writer => with_indented false s
    | _ => s
    end.

Definition has_comment_for_value (v : value) : bool :=
  has_comment comment_before v || has_comment comment_after_on_same_line v || has_comment comment_after v.

(** ** Values *)

Definition quoted (t : option (list Z)) : list Z :=
  match class with
  | styled_stream_writer => value_to_quoted_string t
  | _ => match t with Some t => value_to_quoted_string_n (Some t) | None => [] end
  end.
(** The name of a member. *)
Definition quoted_name (name : list Z) : list Z :=
  match class with
  | built_styled_stream_writer _ => value_to_quoted_string_n (Some name)
  | _ => value_to_quoted_string (Some (c_str name))
  end.
Definition colon : list Z :=
  match class with built_styled_stream_writer b => colon_symbol_ b | _ => str " : " end.
Definition null_text : list Z :=
  match class with built_styled_stream_writer b => null_symbol_ b | _ => str "null" end.

Section children.
Context (write_value : value -> writer -> res writer).

Definition is_multiline_array (v : value) (s : writer) : res (bool * writer) :=
  let size := i32 (size v) in
  let! n := to_int (size * 3) in
  let s := with_child_values [] s in
  let! is_multiline :=
    for_each (fun index is_multiline =>
      if is_multiline : bool then Ok true
      else
        let! child := int_find index v in
        let child := deref child in
        Ok ((is_array child || is_object child) && (0 <? JsonValue.size child)))
      (seqZ 0 size) (right_margin_ <=? n) in
  if is_multiline : bool then Ok (true, s)
  else
    let s := with_add_child_values true s in
    let! lineLength := to_int (4 + (size - 1) * 2) in
    let! (is_multiline, lineLength, s) :=
      for_each (fun index '(is_multiline, lineLength, s) =>
        let! child := int_find index v in
        let child := deref child in
        let is_multiline := if has_comment_for_value child then true else is_multiline in
        let! s := write_value child s in
        let! t := child_value index s in
        let! lineLength := to_int (lineLength + i32 (Zlen t)) in
        Ok (is_multiline, lineLength, s)) (seqZ 0 size) (false, lineLength, s) in
    let s := with_add_child_values false s in
    Ok (is_multiline || (right_margin_ <=? lineLength), s).

(** One element of an array on several lines. *)
Definition write_element (v : value) (size : Z) (has_child_value : bool) (index : Z) (s : writer) : res writer :=
  let! child := index_find index v in
  let child := deref child in
  let! s := write_comment_before_value child s in
  let! s :=
    (if has_child_value then
       let! t := child_value index s in Ok (write_with_indent t s)
     else
       match class with
       | styled_writer => write_value child (writeIndent s)
       | _ =>
           let! s := write_value child (with_indented true (indent_once s)) in
           Ok (with_indented false s)
       end) in
  Ok (write_comment_after_value_on_same_line child (if index + 1 =? size then s else put [","%ch] s)).

Definition write_multiline (v : value) (s : writer) : res writer :=
  let s := indent (write_with_indent ["["%ch] s) in
  let has_child_value := negb (length (child_values_ s) =? 0)%nat in
  let! s := for_each (write_element v (size v) has_child_value) (seqZ 0 (size v)) s in
  let! s := unindent s in
  Ok (write_with_indent ["]"%ch] s).

Definition write_single_line (v : value) (s : writer) : res writer :=
  let! _ := assert_that (Zlen (child_values_ s) =? size v) in
  let space :=
    match class with
    | built_styled_stream_writer _ => if negb (Zlen indentation_ =? 0) then [" "%ch] else []
    | _ => [" "%ch]
    end in
  let s := put (["["%ch] ++ space) s in
  let! s :=
    for_each (fun index s =>
      let s := if 0 <? index then put (str ", ") s else s in
      let! t := child_value index s in
      Ok (put t s)) (seqZ 0 (size v)) s in
  Ok (put (space ++ ["]"%ch]) s).

Definition write_array_value (v : value) (s : writer) : res writer :=
  if size v =? 0 then Ok (push_value (str "[]") s)
  else
    let! (isArrayMultiLine, s) :=
      match class with
      | built_styled_stream_writer b =>
          if bool_decide (cs_ b = cs_all) then Ok (true, s) else is_multiline_array v s
      | _ => is_multiline_array v s
      end in
    if isArrayMultiLine : bool then write_multiline v s else write_single_line v s.

Definition write_member (v : value) (n : nat) '((i, name) : nat * list Z) (s : writer) : res writer :=
  let! child := find name v in
  let child := deref child in
  let! s := write_comment_before_value child s in
  let s := put colon (write_with_indent (quoted_name name) s) in
  let! s := write_value child s in
  Ok (write_comment_after_value_on_same_line child (if (S i =? n)%nat then s else put [","%ch] s)).

Definition write_object_value (v : value) (s : writer) : res writer :=
  let! members := get_member_names v in
  if (length members =? 0)%nat then Ok (push_value (str "{}") s)
  else
    let s := indent (write_with_indent ["{"%ch] s) in
    let! s := for_each (write_member v (length members)) (imap pair members) s in
    let! s := unindent s in
    Ok (write_with_indent ["}"%ch] s).
End children.

Fixpoint write_value (fuel : nat) (v : value) (s : writer) : res writer :=
  match fuel with
  | O => Spin
  | S fuel' =>
      match type v with
      | vt_null => Ok (push_value null_text s)
      | vt_int =>
          let! n := as_largest_int v in
          let! t := largest_int_to_string negate_min n in Ok (push_value t s)
      | vt_uint =>
          let! n := as_largest_uint v in
          let! t := largest_uint_to_string n in Ok (push_value t s)
      | vt_real =>
          let! d := as_double v in
          let! t := double_to_string printf_17g d in Ok (push_value t s)
      | vt_string =>
          match class with
          | styled_stream_writer => let! t := as_cstring v in Ok (push_value (quoted t) s)
          | _ => Ok (push_value (quoted (get_string v)) s)
          end
      | vt_bool =>
          let! b := as_bool v in Ok (push_value (bool_to_string b) s)
      | vt_array => write_array_value (write_value fuel') v s
      | vt_object => write_object_value (write_value fuel') v s
      end
  end.

(** [write]: the document, which the stream writers append to the stream. *)
Definition write (fuel : nat) (root : value) : res (list Z) :=
  let s := {| child_values_ := []; document_ := []; indentString_ := []; add_child_values_ := false; indented_ := true |} in
  let! s := write_comment_before_value root s in
  let s :=
    match class with
    | styled_writer => s
    | _ => with_indented true (indent_once s)
    end in
  let! s := write_value fuel root s in
  let s := write_comment_after_value_on_same_line root s in
  Ok (document_ (put match class with built_styled_stream_writer b => ending_linefeed_symbol_ b | _ => [LF] end s)).
End write.

(** The indentation of a [styled_writer]: [indentSize_] blanks. *)
Definition styled_indentation : list Z := replicate 3 " "%ch.

(** [value::toStyledString]. *)
Definition toStyledString (negate_min : res Z) (printf_17g : double -> list Z) (v : value) : res (list Z) :=
  write negate_min printf_17g styled_writer styled_indentation (depth v) v.

(** ** The builder *)

Definition new_stream_writer (negate_min : res Z) (printf_17g : double -> list Z) (settings : value) : res (writer_class * list Z) :=
  let! indentation := (let! v := setting settings "indentation" in as_string negate_min printf_17g v) in
  let! cs_str := (let! v := setting settings "comment_style" in as_string negate_min printf_17g v) in
  let! eyc := bool_setting settings "enable_yaml_compatibility" in
  let! dnp := bool_setting settings "drop_null_placeholders" in
  let! cs :=
    (if bool_decide (cs_str = str "all") then Ok cs_all
     else if bool_decide (cs_str = str "none") then Ok cs_none
     else Throw (runtime_error (str "comment_style must be 'all' or 'none'"))) in
  let colon_symbol :=
    if eyc : bool then str ": " else if Zlen indentation =? 0 then str ":" else str " : " in
  let null_symbol := if dnp : bool then [] else str "null" in
  Ok (built_styled_stream_writer
        {| cs_ := cs; colon_symbol_ := colon_symbol; null_symbol_ := null_symbol; ending_linefeed_symbol_ := [] |},
      indentation).

Definition writer_keys : list string :=
  ["indentation"%string; "comment_style"%string; "enable_yaml_compatibility"%string; "drop_null_placeholders"%string].
Definition validate_writer (settings invalid : value) : res (bool * value) :=
  let! keys := get_member_names settings in
  let! invalid := validate_keys writer_keys settings keys invalid in
  Ok (size invalid =? 0, invalid).

Definition set_writer_defaults (settings : value) : res value :=
  let! all := value_of_cstr (str "all") in
  let! tab := value_of_cstr [TAB] in
  assign_all [("comment_style"%string, all); ("indentation"%string, tab);
    ("enable_yaml_compatibility"%string, value_of_bool false); ("drop_null_placeholders"%string, value_of_bool false)]
    settings.
Definition stream_writer_builder_new : res value := set_writer_defaults null_ref.

(** [write_string(builder, root)]; [operator<<] does it with a new builder. *)
Definition write_string (negate_min : res Z) (printf_17g : double -> list Z) (settings root : value) : res (list Z) :=
  let! (class, indentation) := new_stream_writer negate_min printf_17g settings in
  write negate_min printf_17g class indentation (depth root) root.
Definition stream_out (negate_min : res Z) (printf_17g : double -> list Z) (sout : list Z) (root : value) : res (list Z) :=
  let! settings := stream_writer_builder_new in
  let! t := write_string negate_min printf_17g settings root in
  Ok (sout ++ t).
