(* ===== verification/JsonStyling.v ===== *)
(** * What the styled writers write is JSON

    A value without comments, or any value when the comments are dropped, is written as a
    text of [JsonGrammar] whatever the class of the writer, so the reader gives it back:
    lines and indentation are blanks between the tokens. *)

From stdpp Require Import base tactics list sorting gmap strings.
From Stdlib Require Import ZArith Lia SpecFloat Sorted.
From S2P Require Import Prelude CString StdString ScanNumbers Unicode JsonText JsonValue JsonWriter JsonReader JsonGrammar JsonReading JsonRoundTrip JsonStyled.
#[local] Open Scope Z_scope.
#[local] Arguments str : simpl never.
#[local] Arguments value_to_quoted_string : simpl never.
#[local] Arguments value_to_quoted_string_n : simpl never.

(** ** Bounds *)

(** The lengths that the line length of an array, an int, can be computed with. *)
Fixpoint moderate (v : value) : Prop :=
  match v with
  | Value h _ _ _ =>
      match h with
      | string_ (Some s) => Zlen s <= 2 ^ 23
      | array_ m => Zlen m <= 2 ^ 29 /\ foldr (fun e P => moderate e.2 /\ P) True m
      | object_ m => Zlen m < 2 ^ 31 /\ foldr (fun e P => moderate e.2 /\ P) True m
      | _ => True
      end
  end.

Fixpoint uncommented (v : value) : Prop :=
  match v with
  | Value h c _ _ =>
      c = None /\
      match h with
      | array_ m => foldr (fun e P => uncommented e.2 /\ P) True m
      | object_ m => foldr (fun e P => uncommented e.2 /\ P) True m
      | _ => True
      end
  end.

Fixpoint plain_names (v : value) : Prop :=
  match v with
  | Value h _ _ _ =>
      match h with
      | array_ m => foldr (fun e P => plain_names e.2 /\ P) True m
      | object_ m => Forall no_nul m.*1 /\ foldr (fun e P => plain_names e.2 /\ P) True m
      | _ => True
      end
  end.

Lemma escape_char_length control c :
  (forall c, control c = true -> 0 <= c < 32) -> Zlen (escape_char control c) <= 6.
Proof.
  intros Hcontrol. unfold escape_char.
  do 7 (match goal with |- context [if c =? ?k then _ else _] => destruct (c =? k); [done|] end).
  destruct (control c) eqn:E; [|done]. rewrite setw4_hex_small by auto. done.
Qed.

Lemma escaped_length control s :
  (forall c, control c = true -> 0 <= c < 32) -> Zlen (concat (map (escape_char control) s)) <= 6 * Zlen s.
Proof.
  intros Hcontrol. induction s as [|c s IH]; simpl; [done|]. rewrite Zlen_app, Zlen_cons.
  pose proof (escape_char_length control c Hcontrol). lia.
Qed.

Lemma quoted_length s : Zlen (value_to_quoted_string (Some s)) <= 6 * Zlen s + 2.
Proof.
  pose proof (Zlen_nonneg s). pose proof (escaped_length is_control_char s is_control_char_range).
  unfold value_to_quoted_string. destruct (_ && _); simpl; rewrite Zlen_cons, Zlen_app; change (Zlen [DQUOTE]) with 1; lia.
Qed.

Lemma quoted_n_length s : Zlen (value_to_quoted_string_n (Some s)) <= 6 * Zlen s + 2.
Proof.
  assert (forall c, is_control_char c || (c =? 0) = true -> 0 <= c < 32) as Hcontrol.
  { intros c. unfold is_control_char. lia. }
  pose proof (Zlen_nonneg s). pose proof (escaped_length _ s Hcontrol). pose proof (c_str_length s).
  unfold value_to_quoted_string_n. destruct (_ && _); simpl; rewrite Zlen_cons, Zlen_app; change (Zlen [DQUOTE]) with 1; lia.
Qed.

(** ** What an operation adds *)

(** The operation put [x] on the document, and left the rest as it was. *)
Definition moved (x : list Z) (s s' : writer) : Prop :=
  document_ s' = document_ s ++ x /\ indentString_ s' = indentString_ s /\
  add_child_values_ s' = add_child_values_ s /\ child_values_ s' = child_values_ s.

(** Whether a writer ever collects the children of an array. *)
Definition prepares (class : writer_class) : bool :=
  match class with built_styled_stream_writer b => negb (bool_decide (cs_ b = cs_all)) | _ => true end.

(** The same as [moved], with other children if the writer collects them. *)
Definition wrote (class : writer_class) (x : list Z) (s s' : writer) : Prop :=
  document_ s' = document_ s ++ x /\ indentString_ s' = indentString_ s /\
  add_child_values_ s' = add_child_values_ s /\ (prepares class = false -> child_values_ s' = child_values_ s).

Lemma moved_put x s : moved x s (put x s).
Proof. done. Qed.
Lemma moved_indented b s : moved [] s (with_indented b s).
Proof. split_and!; try done. simpl. by rewrite app_nil_r. Qed.
Lemma moved_refl s : moved [] s s.
Proof. split_and!; try done. by rewrite app_nil_r. Qed.
Lemma moves_trans x y s1 s2 s3 : moved x s1 s2 -> moved y s2 s3 -> moved (x ++ y) s1 s3.
Proof.
  intros (H1 & H2 & H3 & H4) (H5 & H6 & H7 & H8). split_and!; [|congruence..]. by rewrite H5, H1, app_assoc.
Qed.
Lemma moved_wrote class x s s' : moved x s s' -> wrote class x s s'.
Proof. intros (H1 & H2 & H3 & H4). done. Qed.
Lemma wrote_trans class x y s1 s2 s3 : wrote class x s1 s2 -> wrote class y s2 s3 -> wrote class (x ++ y) s1 s3.
Proof.
  intros (H1 & H2 & H3 & H4) (H5 & H6 & H7 & H8). split_and!; [by rewrite H5, H1, app_assoc|congruence..|].
  intros Hc. rewrite H8, H4; done.
Qed.

#[local] Hint Resolve moved_put moved_indented moved_refl moved_wrote : json_writer.

(** The invariant rule of [for_each]. *)
Lemma for_each_invariant {A S} (body : A -> S -> res S) (P : nat -> S -> Prop) (l : list A) (s : S) :
  P 0%nat s ->
  (forall k x s, l !! k = Some x -> P k s -> exists s', body x s = Ok s' /\ P (Datatypes.S k) s') ->
  exists s', for_each body l s = Ok s' /\ P (length l) s'.
Proof.
  revert P s. induction l as [|x l IH]; intros P s HP Hbody; simpl; [eauto|].
  destruct (Hbody 0%nat x s eq_refl HP) as (s1 & -> & HP1). cbn [bind].
  apply (IH (fun k => P (Datatypes.S k))); [done|]. intros k y s2 Hy. by apply (Hbody (Datatypes.S k)).
Qed.

(** The same for a loop over the indices of [l]. *)
Lemma for_each_index {A S} (body : Z -> S -> res S) (P : nat -> S -> Prop) (l : list A) (s : S) :
  P 0%nat s ->
  (forall k x s, l !! k = Some x -> P k s -> exists s', body (Z.of_nat k) s = Ok s' /\ P (Datatypes.S k) s') ->
  exists s', for_each body (seqZ 0 (Zlen l)) s = Ok s' /\ P (length l) s'.
Proof.
  intros HP Hbody. destruct (for_each_invariant body P (seqZ 0 (Zlen l)) s HP) as (s' & Hs & HP').
  - intros k i s1 [-> Hk]%lookup_seqZ HPk. unfold Zlen in Hk.
    destruct (lookup_lt_is_Some_2 l k ltac:(lia)) as [x Hx]. by apply (Hbody k x).
  - exists s'. split; [done|]. rewrite length_seqZ in HP'. unfold Zlen in HP'. by rewrite Nat2Z.id in HP'.
Qed.

(** The loop of the goal over the indices of [l], with the invariant [P]. *)
Tactic Notation "loop_invariant" constr(P) "over" constr(l) "as" simple_intropattern(pat) :=
  match goal with |- context [for_each ?body (seqZ 0 (Zlen l)) ?s] => destruct (for_each_index body P l s) as pat end.

Lemma unindent_indented indentation_ s s' :
  indentString_ s = indentString_ s' ++ indentation_ ->
  unindent indentation_ s = Ok (with_indentString (indentString_ s') s).
Proof.
  intros Hi. unfold unindent, assert_that. rewrite Hi. pose proof (Zlen_nonneg (indentString_ s')).
  rewrite Zlen_app. ztrue (Zlen indentation_ <=? Zlen (indentString_ s') + Zlen indentation_). simpl. do 2 f_equal.
  rewrite length_app, Nat.add_sub. apply take_app_length.
Qed.

(** ** Lists with commas between and a bracket behind *)

Section front.
Context {A : Type} (G : list Z -> list A -> Prop) (close : Z).

(** [ts] is the text of the first [k] of [rs]: it can be continued. *)
Definition front (k : nat) (ts : list Z) (rs : list A) : Prop :=
  ((k < length rs)%nat -> forall rest, G rest (drop k rs) -> G (ts ++ (if (k =? 0)%nat then [] else [","%ch]) ++ rest) rs) /\
  ((1 <= k)%nat -> k = length rs -> forall w, blank w -> G (ts ++ w ++ [close]) rs).

(** [x] is the text of [r]. *)
Definition item (x : list Z) (r : A) : Prop :=
  (forall rest rs, G rest rs -> G (x ++ ","%ch :: rest) (r :: rs)) /\ (forall w, blank w -> G (x ++ w ++ [close]) [r]).

Lemma front_start rs : front 0 [] rs.
Proof. split; [intros _ rest; by rewrite drop_0|lia]. Qed.

Lemma front_step k ts rs r x :
  front k ts rs -> rs !! k = Some r -> item x r ->
  front (S k) (ts ++ (if (k =? 0)%nat then [] else [","%ch]) ++ x) rs.
Proof.
  intros [Hf _] Hr [Hmore Hend]. pose proof (lookup_lt_Some _ _ _ Hr). apply drop_S in Hr. split.
  - intros _ rest Hrest. rewrite <-!app_assoc. apply Hf; [done|]. rewrite Hr. by apply Hmore.
  - intros _ Hk w Hw. rewrite <-!app_assoc. apply Hf; [done|]. rewrite Hr, Hk, drop_all. by apply Hend.
Qed.
End front.

Lemma item_element J w t r : blank w -> J t r -> item (elements J) "]"%ch (w ++ t) r.
Proof.
  intros Hw Ht. split.
  - intros rest rs Hrest. rewrite <-app_assoc. by apply (elements_cons J w t [] r); [..|constructor|].
  - intros w2 Hw2. rewrite <-app_assoc. by apply elements_last.
Qed.

Lemma item_pair J w1 q name w2 w3 t v :
  blank w1 -> chars q name -> blank w2 -> blank w3 -> J t v ->
  item (pairs J) "}"%ch (w1 ++ DQUOTE :: q ++ DQUOTE :: w2 ++ ":"%ch :: w3 ++ t) (name, v).
Proof.
  intros H1 Hq H2 H3 Ht. split.
  - intros rest rs Hrest. repeat (rewrite <-app_assoc; simpl).
    by apply (pairs_cons J w1 q name w2 w3 t [] v); [..|constructor|].
  - intros w4 H4. repeat (rewrite <-app_assoc; simpl). by apply pairs_last.
Qed.

Section styling.
Context (negate_min : res Z) (printf_17g : double -> list Z) (sscanf_lf : list Z -> option double).
Context (read_real : double -> holder value).
#[local] Notation reread := (reread read_real).
Context (class : writer_class) (indentation_ : list Z).
Context (Hind : blank indentation_).

Abbreviation write_value := (JsonStyled.write_value negate_min printf_17g class indentation_).
Abbreviation writeIndent := (JsonStyled.writeIndent class indentation_).
Abbreviation indent_once := (JsonStyled.indent_once class indentation_).
Abbreviation write_with_indent := (JsonStyled.write_with_indent class indentation_).
Abbreviation wrote := (wrote class).
Abbreviation json := (JsonGrammar.json negate_min sscanf_lf).

Lemma blank_new_line w : blank w -> blank ([LF] ++ w).
Proof. intros Hw. constructor; [unfold white; tauto|done]. Qed.

Lemma writeIndent_moved s : blank (indentString_ s) -> exists w, blank w /\ moved w s (writeIndent s).
Proof.
  intros Hs. pose proof (blank_new_line _ Hs) as Hl. unfold JsonStyled.writeIndent. destruct class.
  - destruct (last (document_ s)) as [c|]; [|eauto with json_writer].
    destruct (c =? " "%ch); [exists []; split; [constructor|apply moved_refl]|].
    destruct (c =? LF); simpl; [eauto with json_writer|].
    exists ([LF] ++ indentString_ s). split; [done|]. apply moves_trans with (put [LF] s); apply moved_put.
  - eauto with json_writer.
  - destruct (negb _); [eauto with json_writer|]. exists []. split; [constructor|apply moved_refl].
Qed.

Lemma indent_once_moved s : blank (indentString_ s) -> exists w, blank w /\ moved w s (indent_once s).
Proof.
  intros Hs. unfold JsonStyled.indent_once. destruct (negb _); [by apply writeIndent_moved|].
  exists []. split; [constructor|apply moved_refl].
Qed.

Lemma write_with_indent_moved t s :
  blank (indentString_ s) -> exists w, blank w /\ moved (w ++ t) s (write_with_indent t s).
Proof.
  intros Hs. unfold JsonStyled.write_with_indent. destruct class eqn:Hclass.
  1: destruct (writeIndent_moved s Hs) as (w & Hw & Hm).
  2,3: destruct (indent_once_moved s Hs) as (w & Hw & Hm).
  all: rewrite Hclass in Hm; exists w; split; [done|].
  - eapply moves_trans; [exact Hm|apply moved_put].
  - rewrite <-(app_nil_r (w ++ t)). eapply moves_trans; [|apply moved_indented].
    eapply moves_trans; [exact Hm|apply moved_put].
  - rewrite <-(app_nil_r (w ++ t)). eapply moves_trans; [|apply moved_indented].
    eapply moves_trans; [exact Hm|apply moved_put].
Qed.

(** ** Comments that are not written *)

Definition quiet (v : value) : Prop := drops_comments class = true \/ uncommented v.

Lemma quiet_none v p : quiet v -> drops_comments class = false -> has_comment p v = false.
Proof. intros [Hd|Hu] Hc; [congruence|]. destruct v as [h c s l]. destruct Hu as [-> _]. done. Qed.

Lemma comment_before_quiet v s : quiet v -> write_comment_before_value class indentation_ v s = Ok s.
Proof.
  intros Hv. unfold write_comment_before_value. destruct (drops_comments class) eqn:E; [done|].
  by rewrite quiet_none.
Qed.

Lemma comment_after_quiet v s :
  quiet v -> moved [] s (write_comment_after_value_on_same_line class indentation_ v s).
Proof.
  intros Hv. unfold write_comment_after_value_on_same_line. destruct (drops_comments class) eqn:E; [apply moved_refl|].
  rewrite !quiet_none by done. destruct class; auto with json_writer.
Qed.

(** The names, which the first two classes write as C strings. *)
Definition named (v : value) : Prop :=
  match class with built_styled_stream_writer _ => True | _ => plain_names v end.

Lemma named_array m c s l : named (Value (array_ m) c s l) -> Forall (fun e => named e.2) m.
Proof.
  unfold named. destruct class; [intros Hm; by apply foldr_and in Hm..|]. intros _. by apply Forall_true.
Qed.
Lemma named_object m c s l :
  named (Value (object_ m) c s l) ->
  Forall (fun e => named e.2) m /\
  forall k name x, m !! k = Some (name, x) ->
    exists q, quoted_name class name = DQUOTE :: q ++ [DQUOTE] /\ chars q name.
Proof.
  unfold named, quoted_name. destruct class.
  1,2: intros [Hn Hm]; rewrite foldr_and in Hm; (split; [done|]); intros k name x Hk;
    rewrite Forall_fmap, Forall_lookup in Hn; rewrite c_str_no_nul by apply (Hn k _ Hk); apply value_to_quoted_string_spec.
  intros _. split; [by apply Forall_true|]. intros k name x Hk. apply value_to_quoted_string_n_spec.
Qed.

Lemma quiet_array m c s l : quiet (Value (array_ m) c s l) -> Forall (fun e => quiet e.2) m.
Proof.
  intros [Hd|(_ & Hu)]; [apply Forall_true; by left|]. rewrite foldr_and in Hu. eapply Forall_impl; [done|]. by right.
Qed.
Lemma quiet_object m c s l : quiet (Value (object_ m) c s l) -> Forall (fun e => quiet e.2) m.
Proof.
  intros [Hd|(_ & Hu)]; [apply Forall_true; by left|]. rewrite foldr_and in Hu. eapply Forall_impl; [done|]. by right.
Qed.
Lemma quoted_spec k : no_nul k ->
  exists q, quoted class (match class with styled_stream_writer => Some (c_str k) | _ => Some k end) = DQUOTE :: q ++ [DQUOTE] /\
    chars q k /\ Zlen (DQUOTE :: q ++ [DQUOTE]) <= 6 * Zlen k + 2.
Proof.
  intros Hk. unfold quoted. destruct class.
  1,3: destruct (value_to_quoted_string_n_spec k) as (q & Hq & Hc); pose proof (quoted_n_length k) as Hl.
  3: rewrite c_str_no_nul by done; destruct (value_to_quoted_string_spec k) as (q & Hq & Hc); pose proof (quoted_length k) as Hl.
  all: exists q; rewrite <-Hq; done.
Qed.

Context (Hcolon : exists w1 w2, colon class = w1 ++ ":"%ch :: w2 /\ blank w1 /\ blank w2).
Context (Hnull : null_text class = str "null").

(** ** Values on one line *)

Definition flat (v : value) : Prop :=
  match value_ v with array_ m => m = [] | object_ m => m = [] | _ => True end.

Lemma flat_text v : printable negate_min printf_17g sscanf_lf read_real v -> flat v ->
  exists t, (forall fuel s, write_value (S fuel) v s = Ok (push_value t s)) /\ json 1 t (reread v) /\
    (moderate v -> Zlen t <= 2 ^ 26).
Proof using Hcolon Hnull.
  intros Hp Hf. destruct v as [h c s l].
  assert (forall t h', scalar negate_min sscanf_lf t h' -> json 1 t (init_basic h')) as Hj
    by (intros t h' Hs; left; eauto).
  destruct h as [|n|n|d|s0|b|m|m]; simpl in Hp, Hf; cbn [JsonStyled.write_value type value_ reread].
  - rewrite Hnull. eexists. split; [done|]. split; [apply Hj; constructor|intros _; decided].
  - destruct Hp as [Hn Hneg].
    destruct (largest_int_to_string_spec negate_min sscanf_lf n Hn Hneg) as (t & Ht & Hnum & Hl).
    unfold as_largest_int, as_int64. simpl. rewrite Ht. simpl. eexists. split; [done|].
    split; [by apply Hj, scalar_number|lia].
  - destruct (largest_uint_to_string_spec n Hp) as (t & Ht & Hnum & Hne & Hds & Hl).
    unfold as_largest_uint, as_uint64. simpl. rewrite Ht. simpl. eexists. split; [done|].
    split; [|lia]. apply Hj, scalar_number. rewrite <-Hnum. apply number_of_natural; [done|done|lia].
  - destruct Hp as (t & Ht & Hnum). unfold as_double. simpl. rewrite Ht. simpl. eexists. split; [done|].
    split; [by apply Hj, scalar_number|]. apply double_length in Ht. lia.
  - destruct Hp as (k & -> & Hk). destruct (quoted_spec k Hk) as (q & Hq & Hc & Hl).
    exists (DQUOTE :: q ++ [DQUOTE]). split; [|split].
    + intros fuel st. rewrite <-Hq. unfold as_cstring, get_string. simpl. by destruct class.
    + by apply Hj, scalar_string.
    + intros Hm. simpl in Hm. lia.
  - unfold as_bool. simpl. eexists. split; [done|]. split; [apply Hj; destruct b; constructor|intros _; destruct b; decided].
  - unfold flat in Hf. simpl in Hf. subst m. eexists. split; [done|]. split; [|intros _; decided].
    right; left. exists []. split_and!; [constructor|done|done].
  - unfold flat in Hf. simpl in Hf. subst m. eexists. split; [done|]. split; [|intros _; decided].
    do 3 right; left. exists []. split_and!; [constructor|done|done].
Qed.

(** [v] is written where the document is, after blanks. *)
Definition styled (v : value) : Prop :=
  forall fuel s, (depth v <= fuel)%nat -> add_child_values_ s = false -> blank (indentString_ s) ->
  (prepares class = false -> child_values_ s = []) ->
  exists w t s', write_value fuel v s = Ok s' /\ wrote (w ++ t) s s' /\ blank w /\ json (depth v) t (reread v).

Lemma flat_styled v : printable negate_min printf_17g sscanf_lf read_real v -> flat v -> styled v.
Proof using Hcolon Hnull.
  intros Hp Hf fuel s Hfuel Hs _ _. destruct (flat_text v Hp Hf) as (t & Ht & Hj & _).
  pose proof (depth_pos v). destruct fuel as [|fuel]; [lia|]. rewrite Ht. unfold push_value. rewrite Hs.
  exists [], t, (put t s). split_and!; [done..|constructor|]. eapply json_mono; [done|lia].
Qed.

(** ** Arrays *)

Lemma flat_check v :
  printable negate_min printf_17g sscanf_lf read_real v -> moderate v ->
  (is_array v || is_object v) && (0 <? size v) = false -> flat v.
Proof using Hcolon Hnull.
  intros Hp Hm. destruct v as [h c s l]. destruct h as [|k|k|d|k|b|m|m]; try done; cbn; intros Hs.
  - destruct (printable_array _ _ _ _ m c s l Hp) as (Hsize & _). unfold size in Hsize. cbn in Hsize, Hs. rewrite Hsize in Hs.
    unfold flat. cbn. destruct m as [|e m]; [done|]. rewrite fmap_cons, Zlen_cons in Hs. pose proof (Zlen_nonneg m.*2). lia.
  - unfold size in Hs. cbn in Hs. destruct Hm as [Hm _]. unfold flat. cbn. destruct m as [|e m]; [done|].
    rewrite Zlen_cons in *. pose proof (Zlen_nonneg m). rewrite u32_small in Hs; lia.
Qed.

Lemma to_int_small k : - 2 ^ 31 <= k < 2 ^ 31 -> to_int k = Ok k.
Proof using Type. intros Hk. unfold to_int, min_int, max_int. by ztrue (- 2 ^ 31 <=? k); ztrue (k <=? 2 ^ 31 - 1). Qed.

Section array.
Context (v : value) (vs : list value).
Context (Hsize : size v = Zlen vs) (Hlen : Zlen vs <= 2 ^ 29).
Context (Hfind : forall i x, vs !! i = Some x -> index_find (Z.of_nat i) v = Ok (Some x)).
Context (Hgood : Forall (fun x => printable negate_min printf_17g sscanf_lf read_real x /\ moderate x /\ quiet x /\ styled x) vs).
Context (n fuel : nat) (Hn : Forall (fun x => depth x <= n)%nat vs) (Hfuel : (n <= fuel)%nat).

Lemma int_find_element k x : vs !! k = Some x -> int_find (Z.of_nat k) v = Ok (Some x).
Proof using Hfind Hlen Hfuel.
  intros Hk. pose proof (lookup_lt_Some _ _ _ Hk). unfold Zlen in Hlen. rewrite int_index_find by lia. by apply Hfind.
Qed.

Lemma element_fuel k x : vs !! k = Some x -> (depth x <= n)%nat /\ exists fuel', fuel = S fuel'.
Proof using Hn Hfuel.
  intros Hk. rewrite Forall_lookup in Hn. specialize (Hn k x Hk). pose proof (depth_pos x).
  split; [done|]. exists (pred fuel). lia.
Qed.

(** What [child_values_] holds: nothing, or the text of each element. *)
Definition prepared (ts : list (list Z)) : Prop :=
  ts = [] \/ Forall2 (fun t x => json n t (reread x)) ts vs.

(** The second loop: the elements, all of them on one line each, go to [child_values_]. *)
Lemma measure_elements s L :
  Forall flat vs -> Zlen vs <= 24 -> - 100 <= L <= 100 -> add_child_values_ s = true -> child_values_ s = [] ->
  exists ml L' s',
    for_each (fun index '(is_multiline, lineLength, s) =>
        let! child := int_find index v in
        let child := deref child in
        let is_multiline := if has_comment_for_value child then true else is_multiline in
        let! s := write_value fuel child s in
        let! t := child_value index s in
        let! lineLength := to_int (lineLength + i32 (Zlen t)) in
        Ok (is_multiline, lineLength, s)) (seqZ 0 (Zlen vs)) (false, L, s) = Ok (ml, L', s') /\
    document_ s' = document_ s /\ indentString_ s' = indentString_ s /\ add_child_values_ s' = true /\
    Forall2 (fun t x => json n t (reread x)) (child_values_ s') vs.
Proof using Hcolon Hnull Hfind Hgood Hlen Hn Hfuel.
  intros Hflat H24 HL Hadd Hc.
  loop_invariant (fun k '((ml, L', s') : bool * Z * writer) =>
      document_ s' = document_ s /\ indentString_ s' = indentString_ s /\ add_child_values_ s' = true /\
      Forall2 (fun t x => json n t (reread x)) (child_values_ s') (take k vs) /\
      - 100 <= L' <= 100 + Z.of_nat k * 2 ^ 26) over vs as ([[ml L'] s'] & Hrun & H1 & H2 & H3 & H4 & _);
    [| |exists ml, L', s'; split; [exact Hrun|]; by rewrite take_ge in H4 by done].
  { rewrite Hc. split_and!; done || lia. }
  intros k x [[ml L'] s'] Hk (H1 & H2 & H3 & H4 & H5). rewrite (int_find_element k x Hk). cbn [bind deref default].
  destruct (element_fuel k x Hk) as (Hd & fuel' & Hfl). rewrite Forall_lookup in Hflat, Hgood.
  destruct (Hgood k x Hk) as (Hp & Hm & _). destruct (flat_text x Hp (Hflat k x Hk)) as (t & Ht & Hj & Hl).
  specialize (Hl Hm). rewrite Hfl, Ht. cbn [bind]. unfold push_value at 1. rewrite H3.
  pose proof (lookup_lt_Some _ _ _ Hk) as Hlt. pose proof (Forall2_length _ _ _ H4) as Hlc.
  rewrite length_take_le in Hlc by lia. unfold child_value. simpl child_values_.
  rewrite Nat2Z.id, list_lookup_middle by done. cbn [bind].
  pose proof (Zlen_nonneg t). rewrite i32_fits by lia. unfold Zlen in H24. rewrite to_int_small by lia. cbn [bind].
  eexists. split; [done|]. unfold push_value. rewrite H3. simpl. split_and!; [done..| |lia|lia].
  rewrite (take_S_r _ _ _ Hk). apply Forall2_app; [done|]. repeat constructor. eapply json_mono; [done|].
  pose proof (depth_pos x). lia.
Qed.

Lemma is_multiline_array_spec s :
  add_child_values_ s = false ->
  exists ml s', is_multiline_array (write_value fuel) v s = Ok (ml, s') /\
    document_ s' = document_ s /\ indentString_ s' = indentString_ s /\ add_child_values_ s' = false /\
    prepared (child_values_ s') /\ (ml = false -> length (child_values_ s') = length vs).
Proof using Hcolon Hnull Hsize Hfind Hgood Hlen Hn Hfuel.
  intros Hadd. unfold is_multiline_array. pose proof (Zlen_nonneg vs). rewrite Hsize, i32_fits by lia.
  rewrite to_int_small by lia. cbn [bind].
  loop_invariant (fun k b => b = false -> Forall flat (take k vs) /\ Zlen vs * 3 < 74) over vs as (b & Hrun & Hb).
  { unfold right_margin_. intros Hb. split; [constructor|lia]. }
  { intros k x b Hk Hb. destruct b.
    - exists true. split; [done|]. intros Hf. discriminate Hf.
    - rewrite (int_find_element k x Hk). cbn [bind deref default]. eexists. split; [done|]. intros Hx.
      destruct (Hb eq_refl) as [Hflat H74]. split; [|done]. rewrite (take_S_r _ _ _ Hk).
      apply Forall_app. split; [done|]. repeat constructor. rewrite Forall_lookup in Hgood.
      destruct (Hgood k x Hk) as (Hp & Hm & _). by apply flat_check. }
  rewrite Hrun. cbn [bind]. destruct b.
  { eexists true, _. split; [done|]. simpl. split_and!; try done. by left. }
  destruct (Hb eq_refl) as [Hflat H74]. rewrite take_ge in Hflat by done. rewrite to_int_small by lia. cbn [bind].
  destruct (measure_elements (with_add_child_values true (with_child_values [] s)) (4 + (Zlen vs - 1) * 2))
    as (ml & L' & s' & Hrun' & H1 & H2 & _ & H4); [done|lia|lia|done..|].
  match goal with |- context [for_each ?b ?l ?i] => assert (for_each b l i = Ok (ml, L', s')) as -> by exact Hrun' end.
  cbn [bind]. eexists _, _. split; [done|]. simpl. split_and!; try done; [by right|].
  intros _. by eapply Forall2_length.
Qed.
(** *** Several lines *)

Section lines.
Context (cv : list (list Z)) (Hcv : prepared cv).
Abbreviation has_child_value := (negb (length cv =? 0)%nat).

Lemma write_element_spec k x s :
  vs !! k = Some x -> add_child_values_ s = false -> blank (indentString_ s) ->
  (has_child_value = true -> child_values_ s = cv) -> (prepares class = false -> child_values_ s = []) ->
  exists w t s', write_element class indentation_ (write_value fuel) v (Zlen vs) has_child_value (Z.of_nat k) s = Ok s' /\
    wrote ((w ++ t) ++ (if (S k =? length vs)%nat then [] else [","%ch])) s s' /\ blank w /\ json n t (reread x) /\
    (has_child_value = true -> child_values_ s' = cv).
Proof using Hcolon Hnull Hind Hsize Hfind Hgood Hlen Hn Hfuel Hcv.
  intros Hk Hadd Hs Hc Hpre. unfold write_element. rewrite (Hfind k x Hk). cbn [bind deref default].
  destruct (element_fuel k x Hk) as (Hd & _). rewrite Forall_lookup in Hgood.
  destruct (Hgood k x Hk) as (Hp & Hm & Hq & Hst). rewrite comment_before_quiet by done. cbn [bind].
  pose proof (lookup_lt_Some _ _ _ Hk) as Hlt.
  assert (forall s1, exists s',
    write_comment_after_value_on_same_line class indentation_ x
      (if Z.of_nat k + 1 =? Zlen vs then s1 else put [","%ch] s1) = s' /\
    moved (if (S k =? length vs)%nat then [] else [","%ch]) s1 s') as Hafter.
  { intros s1. eexists. split; [done|]. unfold Zlen.
    replace (Z.of_nat k + 1 =? Z.of_nat (length vs)) with (S k =? length vs)%nat
      by (destruct (Nat.eqb_spec (S k) (length vs)), (Z.eqb_spec (Z.of_nat k + 1) (Z.of_nat (length vs))); lia).
    destruct (S k =? length vs)%nat; [by apply comment_after_quiet|]. rewrite <-(app_nil_r [","%ch]).
    eapply moves_trans; [apply moved_put|by apply comment_after_quiet]. }
  destruct (length cv =? 0)%nat eqn:Hcv0; simpl in Hc |- *.
  - assert (exists w t s1,
      match class with
      | styled_writer => write_value fuel x (writeIndent s)
      | _ => let! s := write_value fuel x (with_indented true (indent_once s)) in Ok (with_indented false s)
      end = Ok s1 /\ wrote (w ++ t) s s1 /\ blank w /\ json n t (reread x)) as (w & t & s1 & Hrun & Hw & Hb & Hj).
    { assert (exists s0 w0, match class with
        | styled_writer => s0 = writeIndent s | _ => s0 = with_indented true (indent_once s) end /\
        blank w0 /\ moved w0 s s0) as (s0 & w0 & Hs0 & Hw0 & Hm0).
      { destruct (writeIndent_moved s Hs) as (wa & Hwa & Hma).
        destruct (indent_once_moved s Hs) as (wb & Hwb & Hmb).
        destruct class; [by eexists _, wa|exists (with_indented true (JsonStyled.indent_once styled_stream_writer indentation_ s)), wb|
          exists (with_indented true (JsonStyled.indent_once (built_styled_stream_writer b) indentation_ s)), wb];
          (split_and!; [done|done|]); rewrite <-(app_nil_r wb); (eapply moves_trans; [exact Hmb|apply moved_indented]). }
      pose proof Hm0 as (_ & Hi0 & Ha0 & Hc0).
      destruct (Hst fuel s0) as (w1 & t & s1 & Hrun & Hw1 & Hb1 & Hj); [lia|congruence|by rewrite Hi0|by rewrite Hc0|].
      assert (wrote ((w0 ++ w1) ++ t) s s1) as Hw.
      { rewrite <-app_assoc. eapply wrote_trans; [by apply moved_wrote|done]. }
      exists (w0 ++ w1), t. pose proof (json_mono _ _ _ n _ _ Hj Hd) as Hj'.
      destruct class; rewrite Hs0 in Hrun; rewrite Hrun; cbn [bind]; eexists;
        (split_and!; [done|exact Hw|by apply Forall_app|done]). }
    rewrite Hrun. cbn [bind]. destruct (Hafter s1) as (s' & -> & Hm').
    exists w, t, s'. split_and!; [done| |done|done|done]. eapply wrote_trans; [exact Hw|by apply moved_wrote].
  - destruct Hcv as [->|Hcv2]; [done|]. destruct (Forall2_lookup_r _ _ _ _ _ Hcv2 Hk) as (t & Ht & Hj).
    unfold child_value. rewrite Hc, Nat2Z.id, Ht by done. cbn [bind].
    destruct (write_with_indent_moved t s Hs) as (w & Hw & Hm1).
    destruct (Hafter (write_with_indent t s)) as (s' & -> & Hm').
    pose proof (moves_trans _ _ _ _ _ Hm1 Hm') as Hall. exists w, t, s'.
    split_and!; [done|by apply moved_wrote|done|done|]. intros _. destruct Hall as (_ & _ & _ & ->). by apply Hc.
Qed.

(** What is written when [k] of the elements are. *)
Definition lines_at (s0 : writer) (k : nat) (s : writer) : Prop :=
  exists ts, wrote (ts ++ if ((0 <? k) && (k <? length vs))%nat then [","%ch] else []) s0 s /\
    front (elements (json n)) "]"%ch k ts (map reread vs) /\ (has_child_value = true -> child_values_ s = cv).

Lemma lines_step s0 k x s :
  vs !! k = Some x -> add_child_values_ s0 = false -> blank (indentString_ s0) ->
  (prepares class = false -> child_values_ s0 = []) -> lines_at s0 k s ->
  exists s', write_element class indentation_ (write_value fuel) v (Zlen vs) has_child_value (Z.of_nat k) s = Ok s' /\
    lines_at s0 (S k) s'.
Proof using Hcolon Hnull Hind Hsize Hfind Hgood Hlen Hn Hfuel Hcv.
  intros Hk Hadd Hi Hpre (ts & Hw & Hfront & Hc). pose proof Hw as (_ & Hi1 & Ha1 & Hk1). pose proof (lookup_lt_Some _ _ _ Hk).
  destruct (write_element_spec k x s Hk) as (w & t & s' & Hrun & Hw' & Hb & Hj & Hc');
    [congruence|by rewrite Hi1|done|intros Hno; rewrite Hk1; auto|].
  exists s'. split; [done|]. exists (ts ++ (if (k =? 0)%nat then [] else [","%ch]) ++ (w ++ t)). split_and!; [| |done].
  - refine (eq_rect _ (fun l => wrote l s0 s') (wrote_trans _ _ _ _ _ _ Hw Hw') _ _).
    destruct (Nat.ltb_spec 0 k), (Nat.ltb_spec k (length vs)), (Nat.eqb_spec k 0), (Nat.ltb_spec 0 (S k)),
      (Nat.ltb_spec (S k) (length vs)), (Nat.eqb_spec (S k) (length vs)); try lia; simpl;
      rewrite ?app_nil_r; by repeat (rewrite <-app_assoc; simpl).
  - apply front_step with (reread x); [done|by rewrite list_lookup_fmap, Hk|by apply item_element].
Qed.

Lemma write_multiline_spec s :
  vs <> [] -> add_child_values_ s = false -> blank (indentString_ s) -> child_values_ s = cv ->
  (prepares class = false -> cv = []) ->
  exists w ts s', write_multiline class indentation_ (write_value fuel) v s = Ok s' /\
    wrote (w ++ "["%ch :: ts) s s' /\ blank w /\ elements (json n) ts (map reread vs).
Proof using Hcolon Hnull Hind Hsize Hfind Hgood Hlen Hn Hfuel Hcv.
  intros Hne Hadd Hi Hc Hpre. unfold write_multiline.
  destruct (write_with_indent_moved ["["%ch] s Hi) as (w & Hw & Hm1). set (s1 := write_with_indent ["["%ch] s) in *.
  destruct Hm1 as (H1 & H2 & H3 & H4).
  assert (child_values_ (indent indentation_ s1) = cv) as -> by (simpl; congruence). rewrite Hsize.
  loop_invariant (lines_at (indent indentation_ s1)) over vs as (s2 & Hrun & ts & Hw2 & Hfront & _).
  { exists []. split_and!; [|apply front_start|simpl; congruence]. split_and!; try done. simpl. by rewrite app_nil_r. }
  { intros k x s2 Hk HP. apply (lines_step _ k x); [done|simpl; congruence| |simpl; rewrite H4, Hc; done|done].
    simpl. rewrite H2. by apply Forall_app. }
  rewrite Hrun. cbn [bind]. rewrite Nat.ltb_irrefl, andb_false_r, app_nil_r in Hw2. destruct Hw2 as (H5 & H6 & H7 & H7').
  rewrite (unindent_indented indentation_ s2 s) by (rewrite H6; simpl; by rewrite H2). cbn [bind].
  destruct (write_with_indent_moved ["]"%ch] (with_indentString (indentString_ s) s2) Hi) as (w3 & Hw3 & H8 & H9 & H10 & H11).
  destruct Hfront as [_ Hend]. exists w, (ts ++ w3 ++ ["]"%ch]). eexists. split; [done|]. split_and!; [|done|].
  - split_and!; [|done| |].
    + rewrite H8. cbn [with_indentString document_]. rewrite H5. cbn [indent with_indentString document_]. rewrite H1.
      by repeat (rewrite <-app_assoc; simpl).
    + rewrite H10. cbn [with_indentString add_child_values_]. rewrite H7. exact H3.
    + intros Hno. rewrite H11. cbn [with_indentString child_values_]. rewrite H7' by done. exact H4.
  - apply Hend; [destruct vs; simpl; [done|lia]|by rewrite length_map|done].
Qed.

(** *** One line *)

Lemma write_single_line_spec s :
  vs <> [] -> child_values_ s = cv -> length cv = length vs ->
  exists ts s', write_single_line class indentation_ v s = Ok s' /\ wrote ("["%ch :: ts) s s' /\
    elements (json n) ts (map reread vs).
Proof using Hcolon Hnull Hsize Hfind Hgood Hlen Hn Hfuel Hcv.
  intros Hne Hc Hl. unfold write_single_line. set (space := match class with styled_writer => _ | _ => _ end).
  assert (blank space) as Hspace.
  { assert (blank [" "%ch]) by repeat constructor. unfold space. destruct class; [done|done|].
    destruct (negb _); [done|constructor]. }
  clearbody space. rewrite Hsize, Hc. unfold Zlen at 1. rewrite Hl. unfold Zlen at 1. rewrite Z.eqb_refl. simpl assert_that.
  cbn [bind]. destruct Hcv as [->|Hcv2]; [by destruct vs|].
  loop_invariant (fun k s' => exists ts, wrote ("["%ch :: ts) s s' /\ child_values_ s' = cv /\
    (k = 0%nat -> ts = space) /\ (1 <= k -> front (elements (json n)) "]"%ch k ts (map reread vs))%nat) over vs
    as (s2 & Hrun & ts & Hw2 & _ & _ & Hfront).
  { exists space. split_and!; try done. lia. }
  { intros k x s2 Hk (ts & Hw2 & Hc2 & Hz & Hfr). destruct (Forall2_lookup_r _ _ _ _ _ Hcv2 Hk) as (t & Ht & Hj).
    assert (map reread vs !! k = Some (reread x)) as Hrk by (by rewrite list_lookup_fmap, Hk).
    destruct (Nat.eq_dec k 0) as [->|Hk0].
    - change (0 <? Z.of_nat 0) with false. cbn match. unfold child_value. rewrite Hc2. change (Z.to_nat (Z.of_nat 0)) with 0%nat. rewrite Ht. cbn [bind]. eexists. split; [done|]. exists (ts ++ t). split_and!.
      + eapply (wrote_trans _ ("["%ch :: ts)); [done|by apply moved_wrote, moved_put].
      + done.
      + lia.
      + intros _. rewrite Hz by done. apply (front_step _ _ 0 [] _ (reread x) (space ++ t)); [apply front_start|done|].
        by apply item_element.
    - ztrue (0 <? Z.of_nat k). unfold child_value. simpl child_values_. rewrite Hc2, Nat2Z.id, Ht. cbn [bind].
      eexists. split; [done|]. exists (ts ++ str ", " ++ t). split_and!; [|done|lia|].
      + rewrite app_comm_cons. eapply wrote_trans; [exact Hw2|].
        eapply (wrote_trans _ (str ", ") t); by apply moved_wrote, moved_put.
      + intros _. pose proof (front_step _ _ k ts _ (reread x) ([" "%ch] ++ t) (Hfr ltac:(lia)) Hrk) as Hstep.
        destruct (Nat.eqb_spec k 0); [lia|]. apply Hstep. apply item_element; [|done]. repeat constructor. }
  rewrite Hrun. cbn [bind]. assert (1 <= length vs)%nat by (destruct vs; simpl; [done|lia]).
  destruct (Hfront ltac:(done)) as [_ Hend]. eexists (ts ++ space ++ ["]"%ch]), _. split; [done|]. split.
  - rewrite app_comm_cons. eapply wrote_trans; [exact Hw2|by apply moved_wrote, moved_put].
  - apply Hend; [done|by rewrite length_map|done].
Qed.
End lines.
End array.

Lemma array_styled m c s l (V := Value (array_ m) c s l) :
  Forall (fun e => styled e.2) m -> m <> [] ->
  printable negate_min printf_17g sscanf_lf read_real V -> moderate V -> quiet V -> styled V.
Proof using Hcolon Hnull Hind.
  intros IH Hne Hp Hm Hq fuel st Hf Hadd Hi Hpre. destruct (printable_array _ _ _ _ m c s l Hp) as (Hsize & Hlen & Hfind & Hreread).
  fold V in Hsize, Hfind, Hreread. set (vs := m.*2) in *.
  set (n := foldr (fun e n => depth e.2 `max` n)%nat 0%nat m).
  assert (vs <> []) as Hvs by (unfold vs; by destruct m).
  destruct Hp as (_ & _ & Hp). destruct Hm as (Hm29 & Hm). rewrite foldr_and in Hp, Hm. apply quiet_array in Hq.
  destruct fuel as [|fuel]; [simpl in Hf; lia|]. cbn [JsonStyled.write_value type value_ V]. fold V.
  assert (Forall (fun x => printable negate_min printf_17g sscanf_lf read_real x /\ moderate x /\ quiet x /\ styled x) vs) as Hgood.
  { unfold vs. rewrite Forall_fmap, Forall_lookup in *. intros i e He. split_and!; eauto. }
  assert (Forall (fun x => depth x <= n)%nat vs) as Hdepth.
  { unfold vs. rewrite Forall_fmap, Forall_lookup. intros i [j x] He. by apply (depth_member m i (j, x)). }
  assert (n <= fuel)%nat as Hfuel by (simpl in Hf; fold n in Hf; lia).
  assert (Zlen vs <= 2 ^ 29) as Hlen' by (unfold vs, Zlen in *; by rewrite length_fmap).
  assert (forall i x, vs !! i = Some x -> index_find (Z.of_nat i) V = Ok (Some x)) as Hfind' by (intros; by apply Hfind).
  assert (forall x rs, elements (json n) x rs -> rs = map reread vs -> json (depth V) ("["%ch :: x) (reread V)) as Hjson.
  { intros x rs Hx ->. right; right; left. exists x, (map reread vs). split_and!; [exact Hx|done|exact Hreread]. }
  unfold write_array_value. assert (1 <= Zlen vs) by (unfold Zlen; destruct vs; simpl; [done|lia]).
  rewrite Hsize. zfalse (Zlen vs =? 0).
  assert (exists ml s1, match class with
      | built_styled_stream_writer b =>
          if bool_decide (cs_ b = cs_all) then Ok (true, st) else is_multiline_array (write_value fuel) V st
      | _ => is_multiline_array (write_value fuel) V st
      end = Ok (ml, s1) /\ wrote [] st s1 /\ prepared vs n (child_values_ s1) /\
      (ml = false -> length (child_values_ s1) = length vs)) as (ml & s1 & -> & Hw1 & Hcv & Hml).
  { destruct (is_multiline_array_spec V vs Hsize Hlen' Hfind' Hgood n fuel Hdepth Hfuel st Hadd)
      as (ml & s1 & Hrun & H1 & H2 & H3 & H4 & H5).
    assert (prepares class = true -> wrote [] st s1) as Hw.
    { intros Hyes. split_and!; [by rewrite app_nil_r|done|congruence|congruence]. }
    unfold prepares in Hw, Hpre. destruct class; [exists ml, s1; auto 10..|].
    destruct (bool_decide_reflect (cs_ b = cs_all)); [|exists ml, s1; auto 10].
    exists true, st. split_and!; [done| |left; by apply Hpre|done]. apply moved_wrote, moved_refl. }
  cbn [bind]. destruct Hw1 as (H1 & H2 & H3 & H4). rewrite app_nil_r in H1. destruct ml.
  - destruct (write_multiline_spec V vs Hsize Hlen' Hfind' Hgood n fuel Hdepth Hfuel (child_values_ s1) Hcv s1 Hvs)
      as (w & ts & s' & -> & Hw2 & Hb & Hel); [congruence|by rewrite H2|done|intros Hno; rewrite H4; auto|].
    exists w, ("["%ch :: ts), s'. split_and!; [done| |done|by eapply Hjson].
    rewrite <-(app_nil_l (w ++ _)). eapply wrote_trans; [|exact Hw2]. split_and!; [by rewrite app_nil_r|done..].
  - destruct (write_single_line_spec V vs Hsize Hlen' Hfind' Hgood n fuel Hdepth Hfuel (child_values_ s1) Hcv s1 Hvs eq_refl)
      as (ts & s' & -> & Hw2 & Hel); [auto|].
    exists [], ("["%ch :: ts), s'. split_and!; [done| |constructor|by eapply Hjson].
    rewrite <-(app_nil_l ([] ++ _)). eapply wrote_trans; [|exact Hw2]. split_and!; [by rewrite app_nil_r|done..].
Qed.
(** ** Objects *)

Section object.
Context (v : value) (m : list (list Z * value)) (n fuel : nat).
Context (Hfind : forall k name x, m !! k = Some (name, x) -> find name v = Ok (Some x)).
Context (Hnames : forall k name x, m !! k = Some (name, x) ->
           exists q, quoted_name class name = DQUOTE :: q ++ [DQUOTE] /\ chars q name).
Context (Hgood : Forall (fun e => quiet e.2 /\ styled e.2 /\ (depth e.2 <= n)%nat) m) (Hfuel : (n <= fuel)%nat).

(** What is written when [k] of the members are. *)
Definition members_at (s0 : writer) (k : nat) (s : writer) : Prop :=
  exists ts, wrote (ts ++ if ((0 <? k) && (k <? length m))%nat then [","%ch] else []) s0 s /\
    front (pairs (json n)) "}"%ch k ts (map (fun e => (e.1, reread e.2)) m).

Lemma write_member_spec k name x s :
  m !! k = Some (name, x) -> add_child_values_ s = false -> blank (indentString_ s) ->
  (prepares class = false -> child_values_ s = []) ->
  exists t s', write_member class indentation_ (write_value fuel) v (length m) (k, name) s = Ok s' /\
    wrote (t ++ (if (S k =? length m)%nat then [] else [","%ch])) s s' /\
    item (pairs (json n)) "}"%ch t (name, reread x).
Proof using Hcolon Hnull Hind Hfind Hnames Hgood Hfuel.
  intros Hk Hadd Hs Hpre. unfold write_member. rewrite (Hfind k name x Hk). cbn [bind deref default].
  rewrite Forall_lookup in Hgood. destruct (Hgood k _ Hk) as (Hq & Hst & Hd). simpl in Hq, Hst, Hd.
  rewrite comment_before_quiet by done. cbn [bind]. destruct (Hnames k name x Hk) as (q & -> & Hchars).
  destruct Hcolon as (w2 & w3 & Hco & Hw2 & Hw3). rewrite Hco.
  destruct (write_with_indent_moved (DQUOTE :: q ++ [DQUOTE]) s Hs) as (w1 & Hw1 & Hm1).
  pose proof (moves_trans _ _ _ _ _ Hm1 (moved_put (w2 ++ ":"%ch :: w3) _)) as Hm2. pose proof Hm2 as (_ & Hi2 & Ha2 & Hc2).
  destruct (Hst fuel _ ltac:(lia) ltac:(rewrite Ha2; exact Hadd) ltac:(rewrite Hi2; exact Hs) ltac:(rewrite Hc2; exact Hpre))
    as (w4 & t & s3 & Hrun & Hw & Hw4 & Hj).
  change (id x) with x. rewrite Hrun. cbn [bind]. eexists (((w1 ++ DQUOTE :: q ++ [DQUOTE]) ++ w2 ++ ":"%ch :: w3) ++ (w4 ++ t)), _.
  split; [done|]. split.
  - eapply wrote_trans; [eapply wrote_trans; [by apply moved_wrote|exact Hw]|]. apply moved_wrote.
    destruct (S k =? length m)%nat; [by apply comment_after_quiet|]. rewrite <-(app_nil_r [","%ch]).
    eapply moves_trans; [apply moved_put|by apply comment_after_quiet].
  - replace (((w1 ++ DQUOTE :: q ++ [DQUOTE]) ++ w2 ++ ":"%ch :: w3) ++ (w4 ++ t))
      with (w1 ++ DQUOTE :: q ++ DQUOTE :: w2 ++ ":"%ch :: (w3 ++ w4) ++ t) by (by repeat (rewrite <-app_assoc; simpl)).
    apply item_pair; [done..|by apply Forall_app|]. by eapply json_mono.
Qed.

Lemma members_step s0 k name x s :
  m !! k = Some (name, x) -> add_child_values_ s0 = false -> blank (indentString_ s0) ->
  (prepares class = false -> child_values_ s0 = []) -> members_at s0 k s ->
  exists s', write_member class indentation_ (write_value fuel) v (length m) (k, name) s = Ok s' /\ members_at s0 (S k) s'.
Proof using Hcolon Hnull Hind Hfind Hnames Hgood Hfuel.
  intros Hk Hadd Hi Hpre (ts & Hw & Hfront). pose proof Hw as (_ & Hi1 & Ha1 & Hk1). pose proof (lookup_lt_Some _ _ _ Hk).
  destruct (write_member_spec k name x s Hk) as (t & s' & Hrun & Hw' & Hitem);
    [congruence|by rewrite Hi1|intros Hno; rewrite Hk1; auto|].
  exists s'. split; [done|]. exists (ts ++ (if (k =? 0)%nat then [] else [","%ch]) ++ t). split.
  - refine (eq_rect _ (fun l => wrote l s0 s') (wrote_trans _ _ _ _ _ _ Hw Hw') _ _).
    destruct (Nat.ltb_spec 0 k), (Nat.ltb_spec k (length m)), (Nat.eqb_spec k 0), (Nat.ltb_spec 0 (S k)),
      (Nat.ltb_spec (S k) (length m)), (Nat.eqb_spec (S k) (length m)); try lia; simpl;
      rewrite ?app_nil_r; by repeat (rewrite <-app_assoc; simpl).
  - apply front_step with (name, reread x); [done|by rewrite list_lookup_fmap, Hk|done].
Qed.
End object.

Lemma object_styled m c s l (V := Value (object_ m) c s l) :
  Forall (fun e => styled e.2) m -> m <> [] ->
  printable negate_min printf_17g sscanf_lf read_real V -> quiet V -> named V -> styled V.
Proof using Hcolon Hnull Hind.
  intros IH Hne Hp Hq Hnames fuel st Hf Hadd Hi Hpre. destruct (printable_object _ _ _ _ m c s l Hp) as (Hfind & Hreread).
  fold V in Hfind, Hreread. set (n := foldr (fun e n => depth e.2 `max` n)%nat 0%nat m).
  apply quiet_object in Hq. apply named_object in Hnames as [_ Hnames].
  destruct fuel as [|fuel]; [simpl in Hf; lia|]. cbn [JsonStyled.write_value type value_ V]. fold V.
  assert (Forall (fun e => quiet e.2 /\ styled e.2 /\ (depth e.2 <= n)%nat) m) as Hgood.
  { rewrite Forall_lookup in *. intros k e He. split_and!; [eauto..|]. by apply (depth_member m k e). }
  assert (n <= fuel)%nat as Hfuel by (simpl in Hf; fold n in Hf; lia).
  unfold write_object_value. assert (get_member_names V = Ok m.*1) as -> by done. cbn [bind].
  rewrite length_fmap. assert (1 <= length m)%nat by (destruct m; simpl; [done|lia]).
  destruct (Nat.eqb_spec (length m) 0); [lia|].
  destruct (write_with_indent_moved ["{"%ch] st Hi) as (w & Hw & H1 & H2 & H3 & H4). set (s1 := write_with_indent ["{"%ch] st) in *.
  destruct (for_each_invariant (write_member class indentation_ (write_value fuel) V (length m))
    (members_at m n (indent indentation_ s1)) (imap pair m.*1) (indent indentation_ s1)) as (s2 & -> & ts & Hw2 & Hfront).
  { exists []. split; [|apply front_start]. split_and!; try done. simpl. by rewrite app_nil_r. }
  { intros k [i name] s2 Hk HP. apply list_lookup_imap_Some in Hk as (name' & Hk & [= -> ->]).
    rewrite list_lookup_fmap in Hk. destruct (m !! k) as [[name x]|] eqn:Hmk; [|done]. injection Hk as ->.
    apply (members_step V m n fuel Hfind Hnames Hgood Hfuel _ k name' x); [done|simpl; congruence| |simpl; rewrite H4; done|done].
    simpl. rewrite H2. by apply Forall_app. }
  cbn [bind]. rewrite length_imap, length_fmap, Nat.ltb_irrefl, andb_false_r, app_nil_r in *. destruct Hw2 as (H5 & H6 & H7 & H7').
  rewrite (unindent_indented indentation_ s2 st) by (rewrite H6; simpl; by rewrite H2). cbn [bind].
  destruct (write_with_indent_moved ["}"%ch] (with_indentString (indentString_ st) s2) Hi) as (w3 & Hw3 & H8 & H9 & H10 & H11).
  destruct Hfront as [_ Hend]. exists w, ("{"%ch :: ts ++ w3 ++ ["}"%ch]). eexists. split; [done|]. split_and!; [|done|].
  - split_and!; [|done| |].
    + rewrite H8. cbn [with_indentString document_]. rewrite H5. cbn [indent with_indentString document_]. rewrite H1.
      by repeat (rewrite <-app_assoc; simpl).
    + rewrite H10. cbn [with_indentString add_child_values_]. rewrite H7. exact H3.
    + intros Hno. rewrite H11. cbn [with_indentString child_values_]. rewrite H7' by done. exact H4.
  - do 4 right. exists (ts ++ w3 ++ ["}"%ch]), (map (fun e => (e.1, reread e.2)) m). split_and!; [|done|exact Hreread].
    apply Hend; [done|by rewrite length_map|done].
Qed.

(** ** All values *)

Lemma value_styled v :
  printable negate_min printf_17g sscanf_lf read_real v -> moderate v -> quiet v -> named v -> styled v.
Proof using Hcolon Hnull Hind.
  induction v as [h c s l Hleaf|m c s l IH|m c s l IH]; intros Hp Hm Hq Hn.
  - apply flat_styled; [done|]. unfold flat. simpl. by destruct h.
  - destruct (decide (m = [])) as [->|Hne]; [by apply flat_styled|]. apply array_styled; try done.
    destruct Hp as (_ & _ & Hp), Hm as (_ & Hm). rewrite foldr_and in Hp, Hm. apply quiet_array in Hq.
    apply named_array in Hn. rewrite Forall_lookup in *.
    intros i e He. apply (IH i e He); eauto.
  - destruct (decide (m = [])) as [->|Hne]; [by apply flat_styled|]. apply object_styled; try done.
    destruct Hp as (_ & _ & Hp), Hm as (_ & Hm). rewrite foldr_and in Hp, Hm. apply quiet_object in Hq.
    apply named_object in Hn as [Hn _]. rewrite Forall_lookup in *.
    intros i e He. apply (IH i e He); eauto.
Qed.
End styling.

(** * The theorem *)

(** What a writer puts between the tokens is blank, and null is not dropped. *)
Definition json_style (class : writer_class) (indentation_ : list Z) : Prop :=
  blank indentation_ /\
  match class with
  | built_styled_stream_writer b =>
      (exists w1 w2, colon_symbol_ b = w1 ++ ":"%ch :: w2 /\ blank w1 /\ blank w2) /\
      null_symbol_ b = str "null" /\ blank (ending_linefeed_symbol_ b)
  | _ => True
  end.

Lemma styled_document negate_min printf_17g sscanf_lf read_real class indentation_ v :
  json_style class indentation_ -> printable negate_min printf_17g sscanf_lf read_real v -> moderate v ->
  quiet class v -> named class v ->
  exists text, JsonStyled.write negate_min printf_17g class indentation_ (depth v) v = Ok text /\
    document negate_min sscanf_lf (depth v) text (reread read_real v).
Proof.
  intros [Hind Hstyle] Hp Hm Hq Hn.
  assert (exists w1 w2, colon class = w1 ++ ":"%ch :: w2 /\ blank w1 /\ blank w2) as Hcolon.
  { destruct class; [exists [" "%ch], [" "%ch]; repeat constructor..|tauto]. }
  assert (null_text class = str "null") as Hnull by (destruct class; [done..|tauto]).
  unfold JsonStyled.write. rewrite comment_before_quiet by done. cbn [bind].
  match goal with |- context [JsonStyled.write_value _ _ _ _ _ v ?s] =>
    destruct (value_styled negate_min printf_17g sscanf_lf read_real class indentation_ Hind Hcolon Hnull v Hp Hm Hq Hn (depth v) s)
      as (w & t & s1 & -> & Hw & Hb & Hj) end; [done|by destruct class|by destruct class; constructor|by destruct class|].
  cbn [bind]. destruct (comment_after_quiet class indentation_ v s1 Hq) as (Ha & _).
  eexists. split; [done|]. set (e := match class with built_styled_stream_writer b => _ | _ => _ end).
  exists w, t, e. simpl. rewrite Ha. destruct Hw as (-> & _). split_and!; [|done..|].
  - destruct class; simpl; by rewrite app_nil_r, <-!app_assoc.
  - unfold e. destruct class; [repeat constructor; by do 3 right..|tauto].
Qed.

(** A document of a value is accepted where the value may be the root. *)
Lemma reread_document negate_min printf_17g sscanf_lf read_real features_ v a root collect_comments text :
  printable negate_min printf_17g sscanf_lf read_real v -> document negate_min sscanf_lf (depth v) text (reread read_real v) ->
  Z.of_nat (depth v) <= stack_limit features_ -> keeps_duplicates features_ ->
  (strict_root_ features_ = true -> is_array v || is_object v = true) -> Zlen text < 2 ^ 30 ->
  exists r, parse_string negate_min printf_17g sscanf_lf a features_ text root collect_comments = Ok (true, r) /\
    strip (root_ r) = reread read_real v /\ errors_ r = [].
Proof.
  intros Hp Hdoc Hd Hkeep Hstrict Hlen.
  assert (is_array v || is_object v = is_array (reread read_real v) || is_object (reread read_real v)) as Hc
    by (destruct (reread_container _ _ _ _ v Hp) as [-> ->]; done).
  rewrite Hc in Hstrict. by apply (parse_document negate_min printf_17g sscanf_lf features_ (depth v)).
Qed.

(** C5: What a styled writer writes of a [printable] value, the reader reads back as [reread] says, comments and offsets aside, for all three
    classes: with an indentation of blanks, for arrays on one line and on several, the layout never gets into a
    token or between two in a way that changes them; the writer never throws, no int of its line lengths overflows,
    and its recursion is bounded by the depth of the value. Conditions: [printable] and a reader and text as in
    json_round_trip; [moderate] (strings of at most 2^23 bytes, arrays of at most 2^29 elements, objects of fewer
    than 2^31 members); [quiet] (the value has no comments, or the style drops them); [named] (names have no NUL
    where the class writes them as C strings); [json_style] (indentation, line end and what is around the colon are
    blank, and null is written as null). *)
Theorem styled_round_trip negate_min printf_17g sscanf_lf read_real class indentation_ features_ v a root collect_comments :
  json_style class indentation_ -> printable negate_min printf_17g sscanf_lf read_real v -> moderate v ->
  quiet class v -> named class v ->
  Z.of_nat (depth v) <= stack_limit features_ -> keeps_duplicates features_ ->
  (strict_root_ features_ = true -> is_array v || is_object v = true) ->
  exists text, JsonStyled.write negate_min printf_17g class indentation_ (depth v) v = Ok text /\
    (Zlen text < 2 ^ 30 ->
     exists r, parse_string negate_min printf_17g sscanf_lf a features_ text root collect_comments = Ok (true, r) /\
       strip (root_ r) = reread read_real v /\ errors_ r = []).
Proof.
  intros Hstyle Hp Hm Hq Hn Hd Hkeep Hstrict.
  destruct (styled_document negate_min printf_17g sscanf_lf read_real class indentation_ v) as (text & Htext & Hdoc); [done..|].
  exists text. split; [done|]. intros Hlen. by apply reread_document with (v := v).
Qed.

Lemma styled_round_trip_witness :
  exists text, JsonStyled.write (Ok min_int64) sample_printf styled_writer styled_indentation 3 sample_value = Ok text /\
    (Zlen text < 2 ^ 30 ->
     exists r, parse_string (Ok min_int64) sample_printf sample_sscanf 1 features_all text null_ref true = Ok (true, r) /\
       strip (root_ r) = reread sample_read_real sample_value /\ errors_ r = []).
Proof.
  apply (styled_round_trip (Ok min_int64) sample_printf sample_sscanf sample_read_real styled_writer styled_indentation features_all sample_value).
  - split; [|exact I]. repeat constructor.
  - apply sample_printable.
  - vm_compute. intuition discriminate.
  - right. vm_compute. intuition reflexivity.
  - simpl. repeat constructor; unfold no_nul; decided.
  - vm_compute. discriminate.
  - exact I.
  - discriminate.
Defined.
