(* ===== verification/JsonStreams.v ===== *)
(** * Values through streams

    [operator<<] and [operator>>] make a builder each, with its defaults: the builders give
    a writer and a reader that understand each other. *)

From stdpp Require Import base tactics list gmap strings.
From Stdlib Require Import ZArith Lia SpecFloat.
From S2P Require Import Prelude CString StdString ScanNumbers JsonText JsonValue JsonWriter JsonReader JsonGrammar JsonReading JsonRoundTrip JsonStyled JsonStyling.
#[local] Open Scope Z_scope.
#[local] Arguments str : simpl never.

(** ** What the builders make *)

Definition default_writer : writer_class :=
  built_styled_stream_writer {| cs_ := cs_all; colon_symbol_ := str " : "; null_symbol_ := str "null"; ending_linefeed_symbol_ := [] |}.

Lemma default_writer_built negate_min printf_17g :
  (let! settings := stream_writer_builder_new in new_stream_writer negate_min printf_17g settings) = Ok (default_writer, [TAB]).
Proof. reflexivity. Qed.

Definition default_reader : features :=
  {| allow_comments_ := true; strict_root_ := false; allow_dropped_null_placeholders_ := false; allow_numeric_keys_ := false;
     ours_ := Some {| allow_single_quotes_ := false; fail_if_extra_ := false; reject_dup_keys_ := false; stack_limit_ := 1000 |} |}.

Lemma default_reader_built :
  (let! settings := char_reader_builder_new in new_char_reader settings) = Ok (true, default_reader).
Proof. reflexivity. Qed.

Lemma default_style : json_style default_writer [TAB].
Proof.
  split; [constructor; [by right; left|constructor]|]. unfold default_writer. simpl. split_and!; [|done|constructor].
  exists [" "%ch], [" "%ch]. split_and!; [done|repeat constructor..].
Qed.

(** *** The operators *)

Lemma stream_out_writes negate_min printf_17g sout v :
  stream_out negate_min printf_17g sout v =
  let! t := write negate_min printf_17g default_writer [TAB] (depth v) v in Ok (sout ++ t).
Proof.
  pose proof (default_writer_built negate_min printf_17g) as H. apply bind_Ok_inv in H as (settings & Hs & Hw).
  unfold stream_out, write_string. rewrite Hs. cbn [bind]. by rewrite Hw.
Qed.
Lemma stream_in_reads negate_min printf_17g sscanf_lf a sin root r :
  parse_string negate_min printf_17g sscanf_lf a default_reader sin root true = Ok (true, r) -> errors_ r = [] ->
  stream_in negate_min printf_17g sscanf_lf a sin root = Ok (root_ r).
Proof.
  intros Hp He. pose proof default_reader_built as H. apply bind_Ok_inv in H as (settings & Hs & Hr).
  unfold stream_in, parse_from_stream, char_reader_parse. rewrite Hs. cbn [bind]. rewrite Hr. cbn [bind].
  unfold parse_string in Hp. rewrite Hp. cbn [bind]. unfold get_formatted_messages. by rewrite He.
Qed.

(** ** The property *)

(** C6: What [operator<<] puts on a stream for a [printable] value, [operator>>] reads as the value, offsets aside, with the kinds
    of numbers that their texts have ([reread]), whatever the value that is read into was: the defaults of the two
    builders belong together. Conditions: [printable] (no null strings and no NUL in a string, arrays without gaps,
    names in order, integers in their range, reals printed as numbers of JSON), [moderate] (sizes), no comments, a
    depth of at most 1000, and a text shorter than 2^30. *)
Theorem streams_round_trip negate_min printf_17g sscanf_lf read_real v a sout root :
  printable negate_min printf_17g sscanf_lf read_real v -> moderate v -> uncommented v -> Z.of_nat (depth v) <= 1000 ->
  exists text, stream_out negate_min printf_17g sout v = Ok (sout ++ text) /\
    (Zlen text < 2 ^ 30 ->
     exists root', stream_in negate_min printf_17g sscanf_lf a text root = Ok root' /\ strip root' = reread read_real v).
Proof.
  intros Hp Hm Hu Hd.
  destruct (styled_document negate_min printf_17g sscanf_lf read_real default_writer [TAB] v) as (text & Htext & Hdoc);
    [apply default_style|done|done|by right|done|].
  exists text. split; [by rewrite stream_out_writes, Htext|]. intros Hlen.
  destruct (reread_document negate_min printf_17g sscanf_lf read_real default_reader v a root true text) as (r & Hr & Hv & He); [done..|].
  exists (root_ r). split; [by apply stream_in_reads|done].
Qed.

Lemma streams_round_trip_witness :
  exists text, stream_out (Ok min_int64) sample_printf (str "> ") sample_value = Ok (str "> " ++ text) /\
    (Zlen text < 2 ^ 30 ->
     exists root', stream_in (Ok min_int64) sample_printf sample_sscanf 1 text null_ref = Ok root' /\ strip root' = reread sample_read_real sample_value).
Proof.
  apply (streams_round_trip (Ok min_int64) sample_printf sample_sscanf sample_read_real sample_value).
  - apply sample_printable.
  - vm_compute. intuition discriminate.
  - vm_compute. intuition reflexivity.
  - vm_compute. discriminate.
Defined.
