(* ===== verification/JsonContainers.v ===== *)
(** * Values as lists and maps: what the operations of class value on arrays and objects promise

    An array that was filled from the front has the indices 0, 1, 2, ... in its map; the
    operations then are those of a list ([array_refines_list]).  An object is a finite map
    from names to values whose members are in the order of the names
    ([object_refines_map]). *)

From stdpp Require Import base tactics list sorting gmap strings.
From Stdlib Require Import ZArith Lia Sorted.
From S2P Require Import Prelude CString StdString ScanNumbers JsonText JsonValue JsonGrammar JsonReading JsonRoundTrip.
#[local] Open Scope Z_scope.

(** ** Maps with the keys 0, 1, 2, ... *)

Lemma number_from_app vs ws i : number_from i (vs ++ ws) = number_from i vs ++ number_from (i + Zlen vs) ws.
Proof.
  revert i. induction vs as [|v vs IH]; intros i; simpl; [by rewrite Z.add_0_r|].
  rewrite IH, Zlen_cons. do 3 f_equal. lia.
Qed.

Lemma map_ensure_inside d vs : forall i k,
  (k < length vs)%nat -> map_ensure Z.ltb Z.eqb (i + Z.of_nat k) d (number_from i vs) = number_from i vs.
Proof.
  induction vs as [|v vs IH]; intros i k Hk; simpl in *; [lia|]. destruct k as [|k].
  - rewrite Z.add_0_r, Z.ltb_irrefl. by ztrue (i =? i).
  - ztrue (i <? i + Z.of_nat (S k)). f_equal. replace (i + Z.of_nat (S k)) with (i + 1 + Z.of_nat k) by lia.
    apply IH. lia.
Qed.

Lemma map_ensure_behind d vs : forall i,
  map_ensure Z.ltb Z.eqb (i + Zlen vs) d (number_from i vs) = number_from i (vs ++ [d]).
Proof.
  induction vs as [|v vs IH]; intros i; simpl; [by rewrite Z.add_0_r|]. rewrite Zlen_cons. pose proof (Zlen_nonneg vs).
  ztrue (i <? i + (1 + Zlen vs)). f_equal. rewrite <-IH. f_equal. lia.
Qed.

Lemma map_update_inside f x vs : forall i k v,
  vs !! k = Some v -> f v = Ok x ->
  map_update Z.ltb (i + Z.of_nat k) f (number_from i vs) = Ok (number_from i (<[k := x]> vs)).
Proof.
  induction vs as [|w vs IH]; intros i k v Hk Hf; simpl in *; [done|]. destruct k as [|k]; simpl.
  - injection Hk as ->. rewrite Z.add_0_r, Z.ltb_irrefl, Hf. done.
  - ztrue (i <? i + Z.of_nat (S k)). replace (i + Z.of_nat (S k)) with (i + 1 + Z.of_nat k) by lia.
    by rewrite (IH (i + 1) k v).
Qed.

Lemma map_erase_at {V} (m1 : list (Z * V)) k v m2 :
  Forall (fun e => e.1 < k) m1 -> map_erase Z.ltb k (m1 ++ (k, v) :: m2) = m1 ++ m2.
Proof.
  induction m1 as [|[k' w] m1 IH]; simpl; [by rewrite Z.ltb_irrefl|]. intros [Hk Hm]%Forall_cons. simpl in Hk.
  ztrue (k' <? k). by rewrite IH.
Qed.

Lemma number_from_below vs i k : i + Zlen vs <= k -> Forall (fun e => e.1 < k) (number_from i vs).
Proof.
  revert i. induction vs as [|v vs IH]; intros i; simpl; [constructor|]. rewrite Zlen_cons. intros Hk.
  pose proof (Zlen_nonneg vs). constructor; [simpl; lia|apply IH; lia].
Qed.

Lemma erase_behind vs ws : foldl (fun m i => map_erase Z.ltb i m) (number_from 0 (vs ++ ws)) (seqZ (Zlen vs) (Zlen ws)) = number_from 0 vs.
Proof.
  rewrite number_from_app, Z.add_0_l. generalize (Zlen vs) (number_from_below vs 0 (Zlen vs) ltac:(lia)).
  induction ws as [|w ws IH]; intros k Hk; simpl; [by rewrite app_nil_r|].
  rewrite Zlen_cons, seqZ_cons by (pose proof (Zlen_nonneg ws); lia). simpl. rewrite map_erase_at by done.
  replace (Z.pred (1 + Zlen ws)) with (Zlen ws) by lia. apply IH. eapply Forall_impl; [done|]. intros e He. simpl in *. lia.
Qed.

(** ** Arrays *)

(** [v] is null or an array with the elements [vs]. *)
Definition lists (v : value) (vs : list value) : Prop :=
  (value_ v = array_ (number_from 0 vs) \/ (value_ v = null_ /\ vs = [])) /\ Zlen vs < 2 ^ 32 - 1.

Inductive array_op : Type :=
| do_append (x : value)
| do_assign (i : nat) (x : value)
| do_get (i : nat)
| do_remove (i : nat)
| do_resize (n : nat)
| do_clear.

(** Runs an operation: the value and what it gives out. *)
Definition run_array_op (o : array_op) (v : value) : res (value * option value) :=
  match o with
  | do_append x => let! v := append x v in Ok (v, None)
  | do_assign i x => let! v := assign_index (Z.of_nat i) x v in Ok (v, None)
  | do_get i => let! x := index_find (Z.of_nat i) v in Ok (v, x)
  | do_remove i =>
      let! (removed, x, v) := remove_index (Z.of_nat i) null_ref v in
      Ok (v, if removed : bool then Some x else None)
  | do_resize n => let! v := resize (Z.of_nat n) v in Ok (v, None)
  | do_clear => let! v := clear v in Ok (v, None)
  end.

(** The same on a list; no assignment may leave a gap, and no list may get too long. *)
Definition list_op (o : array_op) (vs : list value) : list value * option value :=
  match o with
  | do_append x => (vs ++ [x], None)
  | do_assign i x => (if (i =? length vs)%nat then vs ++ [x] else <[i := x]> vs, None)
  | do_get i => (vs, vs !! i)
  | do_remove i => (delete i vs, vs !! i)
  | do_resize n => (if (n =? S (length vs))%nat then vs ++ [null_ref] else take n vs, None)
  | do_clear => ([], None)
  end.
Definition allowed (o : array_op) (vs : list value) : Prop :=
  match o with
  | do_append _ => Zlen vs < 2 ^ 32 - 2
  | do_assign i _ => (i <= length vs)%nat /\ Zlen vs < 2 ^ 32 - 2
  | do_resize n => (n <= S (length vs))%nat /\ Zlen vs < 2 ^ 32 - 2
  | _ => True
  end.

Lemma lists_become v vs : lists v vs -> value_ (become vt_array v) = array_ (number_from 0 vs).
Proof. intros [[Hv|[Hv ->]] _]; unfold become, is_null; by rewrite Hv. Qed.

Lemma lists_size v vs : lists v vs -> size v = Zlen vs.
Proof.
  intros [[Hv|[Hv ->]] Hlen]; unfold size; rewrite Hv; [|done]. destruct (decide (vs = [])) as [->|Hne]; [done|].
  destruct (last_number_from vs 0 Hne) as [x ->]. pose proof (Zlen_nonneg vs). rewrite u32_small; lia.
Qed.

Lemma lists_payload v ws : Zlen ws < 2 ^ 32 - 1 -> lists (set_payload (array_ (number_from 0 ws)) v) ws.
Proof. intros Hl. split; [left; by rewrite value_set_payload|done]. Qed.

Lemma lists_find v vs k : lists v vs -> index_find (Z.of_nat k) v = Ok (vs !! k).
Proof.
  intros [[Hv|[Hv ->]] _]; unfold index_find; rewrite Hv; [|done].
  pose proof (map_find_number_from vs 0 (Z.of_nat k) ltac:(lia)) as Hf. by rewrite Z.add_0_l, Nat2Z.id in Hf; rewrite Hf.
Qed.

Lemma lists_demand v vs k :
  lists v vs -> (k <= length vs)%nat -> Zlen vs < 2 ^ 32 - 2 ->
  exists v', index_demand (Z.of_nat k) v = Ok v' /\ lists v' (if (k =? length vs)%nat then vs ++ [null_ref] else vs).
Proof.
  intros Hv Hk Hl. unfold index_demand. rewrite (lists_become v vs Hv). eexists. split; [done|].
  destruct (Nat.eqb_spec k (length vs)) as [->|Hne].
  - rewrite <-(Z.add_0_l (Z.of_nat _)). change (Z.of_nat (length vs)) with (Zlen vs). rewrite map_ensure_behind.
    apply lists_payload. rewrite Zlen_app. change (Zlen [null_ref]) with 1. lia.
  - rewrite <-(Z.add_0_l (Z.of_nat _)), map_ensure_inside by lia. apply lists_payload. lia.
Qed.

(** Demanding an element that exists leaves the list. *)
Lemma lists_demand_inside v vs k :
  lists v vs -> (k < length vs)%nat -> exists v', index_demand (Z.of_nat k) v = Ok v' /\ lists v' vs.
Proof.
  intros Hv Hk. unfold index_demand. rewrite (lists_become v vs Hv). eexists. split; [done|].
  rewrite <-(Z.add_0_l (Z.of_nat _)), map_ensure_inside by lia. apply lists_payload. by destruct Hv.
Qed.

Lemma lists_update v vs k x w :
  lists v vs -> vs !! k = Some w ->
  exists v', update_member (index_key (Z.of_nat k)) (fun _ => Ok x) v = Ok v' /\ lists v' (<[k := x]> vs).
Proof.
  intros [[Hv|[Hv ->]] Hl] Hk; [|done]. unfold update_member. rewrite Hv.
  rewrite <-(Z.add_0_l (Z.of_nat k)), (map_update_inside _ x _ _ _ w) by done. cbn [bind].
  eexists. split; [done|]. apply lists_payload. unfold Zlen in *. by rewrite length_insert.
Qed.

Lemma lists_assign v vs k x :
  lists v vs -> (k <= length vs)%nat -> Zlen vs < 2 ^ 32 - 2 ->
  exists v', assign_index (Z.of_nat k) x v = Ok v' /\ lists v' (if (k =? length vs)%nat then vs ++ [x] else <[k := x]> vs).
Proof.
  intros Hv Hk Hl. unfold assign_index. destruct (lists_demand v vs k Hv Hk Hl) as (v1 & -> & Hv1). cbn [bind].
  destruct (Nat.eqb_spec k (length vs)) as [->|Hne].
  - destruct (lists_update v1 _ (length vs) x null_ref Hv1) as (v2 & -> & Hv2); [by apply list_lookup_middle|].
    exists v2. split; [done|]. by rewrite insert_app_r_alt, Nat.sub_diag in Hv2 by lia.
  - destruct (lookup_lt_is_Some_2 vs k ltac:(lia)) as [w Hw]. by apply lists_update with w.
Qed.

(** ** Removal *)

Lemma shift_left_lists v a x y b :
  lists v (a ++ x :: y :: b) -> exists v', shift_left (Zlen a) v = Ok v' /\ lists v' ((a ++ [y]) ++ y :: b).
Proof.
  intros Hv. unfold shift_left. replace (Zlen a + 1) with (Z.of_nat (S (length a))) by (unfold Zlen; lia).
  destruct (lists_demand_inside v _ (S (length a)) Hv) as (v1 & -> & Hv1); [rewrite length_app; simpl; lia|]. cbn [bind].
  rewrite (lists_find v1 _ _ Hv1). cbn [bind]. unfold Zlen.
  destruct (lists_demand_inside v1 _ (length a) Hv1) as (v2 & -> & Hv2); [rewrite length_app; simpl; lia|]. cbn [bind].
  assert ((a ++ x :: y :: b) !! S (length a) = Some y) as ->.
  { rewrite lookup_app_r by lia. by replace (S (length a) - length a)%nat with 1%nat by lia. }
  change (deref (Some y)) with y.
  destruct (lists_update v2 _ (length a) y x Hv2) as (v3 & -> & Hv3); [by apply list_lookup_middle|].
  exists v3. split; [done|]. by rewrite insert_app_r_alt, Nat.sub_diag, <-app_assoc in * by lia.
Qed.

Lemma shift_all_lists b : forall v a x,
  lists v (a ++ x :: b) ->
  exists v', shift_all (seqZ (Zlen a) (Zlen b)) v = Ok v' /\ exists z, lists v' (a ++ b ++ [z]).
Proof.
  induction b as [|y b IH]; intros v a x Hv; simpl; [by exists v; split; [|exists x]|].
  rewrite Zlen_cons, seqZ_cons by (pose proof (Zlen_nonneg b); lia). cbn [shift_all].
  destruct (shift_left_lists v a x y b Hv) as (v1 & -> & Hv1). cbn [bind].
  destruct (IH v1 (a ++ [y]) y Hv1) as (v2 & Hrun & z & Hv2). rewrite Zlen_app in Hrun. change (Zlen [y]) with 1 in Hrun.
  replace (Z.succ (Zlen a)) with (Zlen a + 1) by lia. replace (Z.pred (1 + Zlen b)) with (Zlen b) by lia.
  rewrite Hrun. exists v2. split; [done|]. exists z. by rewrite <-app_assoc in Hv2.
Qed.

Lemma remove_index_lists v vs k :
  lists v vs ->
  exists removed v', remove_index (Z.of_nat k) null_ref v = Ok (bool_decide (is_Some (vs !! k)), removed, v') /\
    lists v' (delete k vs) /\ (forall x, vs !! k = Some x -> removed = x).
Proof.
  intros Hv. pose proof (lists_find v vs k Hv) as Hf. pose proof (lists_size v vs Hv) as Hsz. unfold remove_index, index_find in *.
  destruct Hv as [[Ha|[Hn ->]] Hl].
  2:{ rewrite Hn. exists null_ref, v. split; [done|]. split; [|done]. split; [by right|done]. }
  rewrite Ha in *. injection Hf as ->. destruct (vs !! k) as [x|] eqn:Hk.
  2:{ exists null_ref, v. split; [done|]. split; [|done].
      apply lookup_ge_None in Hk. rewrite delete_take_drop, take_ge, drop_ge, app_nil_r by lia. split; [by left|done]. }
  rewrite Hsz. pose proof (take_drop_middle _ _ _ Hk) as Hmid. set (a := take k vs) in *. set (b := drop (S k) vs) in *.
  assert (length a = k) as Hlk by (unfold a; apply length_take_le; apply lookup_lt_Some in Hk; lia).
  assert (Zlen vs = Zlen a + 1 + Zlen b) as Hlen by (rewrite <-Hmid, Zlen_app, Zlen_cons; lia).
  destruct (shift_all_lists b v a x) as (v1 & Hrun & z & Hv1); [rewrite Hmid; split; [by left|done]|].
  replace (Zlen vs - 1 - Z.of_nat k) with (Zlen b) by (unfold Zlen in *; lia).
  replace (Z.of_nat k) with (Zlen a) by (unfold Zlen; lia). rewrite Hrun. cbn [bind].
  assert (value_ v1 = array_ (number_from 0 (a ++ b ++ [z]))) as Hv1a.
  { destruct Hv1 as [[H|[_ H]] _]; [done|]. destruct a; [|done]. destruct b; done. }
  rewrite Hv1a. exists x. eexists. split; [rewrite bool_decide_true by eauto; done|]. split; [|naive_solver].
  assert (delete k vs = a ++ b) as ->.
  { by rewrite delete_take_drop. }
  rewrite app_assoc, number_from_app. cbn [number_from].
  replace (0 + Zlen (a ++ b)) with (Zlen vs - 1) by (rewrite Zlen_app; lia). rewrite map_erase_at.
  - rewrite app_nil_r. apply lists_payload. rewrite Zlen_app. lia.
  - apply number_from_below. rewrite Zlen_app. lia.
Qed.

Lemma resize_lists v vs n :
  lists v vs -> (n <= S (length vs))%nat -> Zlen vs < 2 ^ 32 - 2 ->
  exists v', resize (Z.of_nat n) v = Ok v' /\ lists v' (if (n =? S (length vs))%nat then vs ++ [null_ref] else take n vs).
Proof.
  intros Hv Hn Hl. pose proof (lists_become v vs Hv) as Hb. unfold resize.
  assert (is_null v || is_array v = true) as -> by (destruct Hv as [[H|[H _]] _]; unfold is_null, is_array; by rewrite H).
  cbn [json_assert bind]. set (w := become vt_array v) in *.
  assert (lists w vs) as Hw by (split; [by left|lia]). rewrite (lists_size w vs Hw).
  destruct (Nat.eq_dec n 0) as [->|Hn0].
  - simpl. unfold clear, is_array. rewrite Hb. rewrite orb_true_r. simpl. eexists. split; [done|]. split; [by left|done].
  - zfalse (Z.of_nat n =? 0). unfold Zlen. destruct (Nat.eqb_spec n (S (length vs))) as [->|Hne].
    + ztrue (Z.of_nat (length vs) <? Z.of_nat (S (length vs))).
      replace (Z.of_nat (S (length vs)) - 1) with (Z.of_nat (length vs)) by lia.
      destruct (lists_demand w vs (length vs) Hw) as (v' & Hrun & Hv'); [lia|done|]. exists v'. rewrite Nat.eqb_refl in Hv'. done.
    + zfalse (Z.of_nat (length vs) <? Z.of_nat n). rewrite Hb. set (m := foldl _ _ _).
      assert (m = number_from 0 (take n vs)) as ->.
      { unfold m. rewrite <-(take_drop n vs) at 1. rewrite <-(erase_behind (take n vs) (drop n vs)). f_equal.
        unfold Zlen. rewrite length_take_le, length_drop by lia. f_equal. lia. }
      assert (lists (set_payload (array_ (number_from 0 (take n vs))) w) (take n vs)) as Hr.
      { apply lists_payload. unfold Zlen in *. rewrite length_take_le; lia. }
      rewrite (lists_size _ _ Hr). unfold assert_that. unfold Zlen at 1. rewrite length_take_le by lia.
      rewrite Z.eqb_refl. eexists. split; [done|exact Hr].
Qed.

Lemma array_op_lists o v vs :
  lists v vs -> allowed o vs ->
  exists v' out, run_array_op o v = Ok (v', out) /\ lists v' (list_op o vs).1 /\ out = (list_op o vs).2.
Proof.
  intros Hv Ho. destruct o as [x|k x|k|k|n|]; simpl in *.
  - unfold append. rewrite (lists_size v vs Hv). unfold Zlen at 1.
    destruct (lists_assign v vs (length vs) x Hv) as (v' & -> & Hv'); [lia|done|]. rewrite Nat.eqb_refl in Hv'. by eexists _, _.
  - destruct Ho as [Hk Hl]. destruct (lists_assign v vs k x Hv Hk Hl) as (v' & -> & Hv'). by eexists _, _.
  - rewrite (lists_find v vs k Hv). by eexists _, _.
  - destruct (remove_index_lists v vs k Hv) as (removed & v' & -> & Hv' & Hx). cbn [bind]. eexists _, _.
    split; [done|]. split; [done|]. destruct (vs !! k) as [x|]; simpl; [|done]. by rewrite (Hx x).
  - destruct Ho as [Hn Hl]. destruct (resize_lists v vs n Hv Hn Hl) as (v' & -> & Hv'). by eexists _, _.
  - unfold clear. destruct Hv as [[H|[H ->]] _]; unfold is_null, is_array; rewrite H; simpl; eexists _, _;
      (split; [done|]); (split; [|done]); (split; [|done]); [by left|by right].
Qed.

(** Operations in sequence, with what each gives out. *)
Fixpoint run_array_ops (os : list array_op) (v : value) : res (value * list (option value)) :=
  match os with
  | [] => Ok (v, [])
  | o :: os' =>
      let! (v, out) := run_array_op o v in
      let! (v, outs) := run_array_ops os' v in
      Ok (v, out :: outs)
  end.
Fixpoint list_ops (os : list array_op) (vs : list value) : list value * list (option value) :=
  match os with
  | [] => (vs, [])
  | o :: os' => let '(vs, out) := list_op o vs in let '(vs, outs) := list_ops os' vs in (vs, out :: outs)
  end.
Fixpoint all_allowed (os : list array_op) (vs : list value) : Prop :=
  match os with
  | [] => True
  | o :: os' => allowed o vs /\ all_allowed os' (list_op o vs).1
  end.

(** C7: An array value refines a list: whatever sequence of append, assignment, access, remove_index, resize and
    clear that makes no gap runs on a null value or an array whose indices have no gap, every operation succeeds,
    gives out what the operation on lists gives, and leaves the elements, the size and the indices (still without a
    gap) of the list. To make no gap ([allowed]) is to assign only to an index up to the size and to resize to a
    smaller size or by one at most; the list has fewer than 2^32 - 2 elements where one is added. *)
Theorem array_refines_list os v vs :
  lists v vs -> all_allowed os vs ->
  exists v', run_array_ops os v = Ok (v', (list_ops os vs).2) /\ lists v' (list_ops os vs).1 /\
    size v' = Zlen (list_ops os vs).1.
Proof.
  revert v vs. induction os as [|o os IH]; intros v vs Hv Ho; simpl; [exists v; split_and!; [done..|by apply lists_size]|].
  destruct Ho as [Ho Hos]. destruct (array_op_lists o v vs Hv Ho) as (v1 & out & -> & Hv1 & ->). cbn [bind].
  destruct (list_op o vs) as [vs1 out]. simpl in *. destruct (IH v1 vs1 Hv1 Hos) as (v2 & -> & Hrest). cbn [bind].
  destruct (list_ops os vs1) as [vs2 outs]. simpl in *. by exists v2.
Qed.

Lemma array_refines_list_witness :
  exists v', run_array_ops [do_append (value_of_int 1); do_append (value_of_int 2); do_resize 3; do_remove 0; do_get 1] null_ref
    = Ok (v', [None; None; None; Some (value_of_int 1); Some null_ref]) /\
  lists v' [value_of_int 2; null_ref] /\ size v' = 2.
Proof.
  apply (array_refines_list [do_append (value_of_int 1); do_append (value_of_int 2); do_resize 3; do_remove 0; do_get 1] null_ref []).
  - split; [by right|done].
  - repeat split; simpl; lia || by vm_compute.
Defined.

(** ** Sorted maps *)

Section sorted.
Context {K V : Type} `{Countable K} (less equal : K -> K -> bool) (good : K -> Prop).
Context (Hirrefl : forall a, less a a = false).
Context (Htrans : forall a b c, less a b = true -> less b c = true -> less a c = true).
Context (Htotal : forall a b, good a -> good b -> less a b = false -> less b a = false -> a = b).
Context (Hequal : forall a b, good a -> good b -> equal a b = bool_decide (a = b)).

Definition sorted (m : list (K * V)) : Prop := StronglySorted (fun a b => less a b = true) m.*1 /\ Forall good m.*1.

Lemma sorted_cons k v m :
  sorted ((k, v) :: m) <-> sorted m /\ Forall (fun a => less k a = true) m.*1 /\ good k.
Proof using Type.
  unfold sorted. simpl. rewrite Forall_cons. split.
  - intros [Hs [Hk Hm]]. apply StronglySorted_inv in Hs as [Hs Hf]. done.
  - intros ([Hs Hm] & Hf & Hk). split_and!; [by constructor|done|done].
Qed.

Lemma below_notin k m : Forall (fun a => less k a = true) m.*1 -> (list_to_map m : gmap K V) !! k = None.
Proof using Hirrefl.
  intros Hf. apply not_elem_of_list_to_map. intros Hin. rewrite Forall_forall in Hf. specialize (Hf k Hin).
  by rewrite Hirrefl in Hf.
Qed.

Lemma sorted_find k m : good k -> sorted m -> map_find less k m = (list_to_map m : gmap K V) !! k.
Proof using Hirrefl Htotal Htrans.
  intros Hk. induction m as [|[k' v] m IH]; [done|]. intros (Hm & Hf & Hk')%sorted_cons. simpl.
  destruct (less k' k) eqn:E1.
  - rewrite lookup_insert_ne by (intros ->; congruence). by apply IH.
  - destruct (less k k') eqn:E2.
    + rewrite lookup_insert_ne by (intros ->; congruence). symmetry. apply below_notin.
      eapply Forall_impl; [done|]. intros a. by apply Htrans.
    + rewrite (Htotal k' k) by done. by rewrite lookup_insert_eq.
Qed.

Lemma map_set_below (x : K) (k : K) (v : V) m :
  less x k = true -> Forall (fun a => less x a = true) m.*1 -> Forall (fun a => less x a = true) (map_set less equal k v m).*1.
Proof using Type.
  intros Hk. induction m as [|[k' w] m IH]; simpl; [by repeat constructor|]. intros [Hk' Hm]%Forall_cons.
  destruct (less k' k); [constructor; auto|]. destruct (equal k' k); repeat constructor; auto.
Qed.

Lemma sorted_set k (v : V) m :
  good k -> sorted m ->
  sorted (map_set less equal k v m) /\ (list_to_map (map_set less equal k v m) : gmap K V) = <[k := v]> (list_to_map m).
Proof using Hirrefl Htotal Htrans Hequal.
  intros Hk. induction m as [|[k' w] m IH]; simpl.
  - intros _. split; [|done]. split; repeat constructor. done.
  - intros (Hm & Hf & Hk')%sorted_cons. destruct (IH Hm) as [IHs IHm]. destruct (less k' k) eqn:E1.
    + split; [apply sorted_cons; split_and!; [done|by apply map_set_below|done]|]. simpl. rewrite IHm.
      apply insert_insert_ne. intros ->. congruence.
    + rewrite (Hequal k' k) by done. case_bool_decide as Heq.
      * subst k'. split; [by apply sorted_cons|]. simpl. by rewrite insert_insert_eq.
      * split; [|done]. destruct (less k k') eqn:E2; [|by destruct Heq; apply Htotal]. apply sorted_cons.
        split_and!; [by apply sorted_cons| |done]. constructor; [done|]. eapply Forall_impl; [done|]. intros a. by apply Htrans.
Qed.

Lemma map_erase_subset (P : K -> Prop) k (m : list (K * V)) : Forall P m.*1 -> Forall P (map_erase less k m).*1.
Proof using Type.
  induction m as [|[k' w] m IH]; simpl; [done|]. intros [Hk' Hm]%Forall_cons.
  destruct (less k' k); [constructor; auto|]. destruct (less k k'); [by constructor|done].
Qed.

Lemma sorted_erase k (m : list (K * V)) :
  good k -> sorted m ->
  sorted (map_erase less k m) /\ (list_to_map (map_erase less k m) : gmap K V) = delete k (list_to_map m).
Proof using Hirrefl Htotal Htrans.
  intros Hk. induction m as [|[k' w] m IH]; simpl.
  - intros Hs. split; [done|]. by rewrite delete_empty.
  - intros Hs. pose proof Hs as (Hm & Hf & Hk')%sorted_cons. destruct (IH Hm) as [IHs IHm]. destruct (less k' k) eqn:E1.
    + split; [apply sorted_cons; split_and!; [done|by apply map_erase_subset|done]|]. simpl. rewrite IHm.
      symmetry. apply delete_insert_ne. intros ->. congruence.
    + destruct (less k k') eqn:E2.
      * split; [done|]. simpl. rewrite delete_id; [done|]. rewrite lookup_insert_ne by (intros ->; congruence).
        apply below_notin. eapply Forall_impl; [done|]. intros a. by apply Htrans.
      * assert (k' = k) as -> by (by apply Htotal). split; [done|]. rewrite delete_insert_eq, delete_id; [done|]. by apply below_notin.
Qed.

Lemma sorted_NoDup m : sorted m -> NoDup m.*1.
Proof using Hirrefl.
  induction m as [|[k v] m IH]; [constructor|]. intros (Hm & Hf & _)%sorted_cons. constructor; [|by apply IH].
  intros Hin. rewrite Forall_forall in Hf. specialize (Hf k Hin). by rewrite Hirrefl in Hf.
Qed.

Lemma sorted_length m : sorted m -> base.size (list_to_map m : gmap K V) = length m.
Proof using Hirrefl.
  intros Hs. rewrite <-length_map_to_list. apply Permutation_length, map_to_list_to_map. by apply sorted_NoDup.
Qed.
End sorted.

(** ** The order of names *)

Definition proper_name (s : list Z) : Prop := Forall is_char s /\ Zlen s < 2 ^ 30.

Lemma name_less_cons x a y b :
  name_less (x :: a) (y :: b) = (u8 x <? u8 y) || ((u8 x =? u8 y) && name_less a b).
Proof.
  unfold name_less. simpl. rewrite !Zlen_cons. destruct (Z.compare_spec (u8 x) (u8 y)) as [E|E|E].
  - rewrite E, Z.ltb_irrefl, Z.eqb_refl. simpl. destruct (memcmp a b); try done.
    destruct (Z.ltb_spec (Zlen a) (Zlen b)), (Z.ltb_spec (1 + Zlen a) (1 + Zlen b)); done || lia.
  - by ztrue (u8 x <? u8 y).
  - zfalse (u8 x <? u8 y). by zfalse (u8 x =? u8 y).
Qed.
Lemma name_less_nil_l b : name_less [] b = bool_decide (b <> []).
Proof.
  unfold name_less. simpl. destruct b as [|y b]; [done|]. rewrite Zlen_cons. pose proof (Zlen_nonneg b).
  destruct (Z.ltb_spec (Zlen (@nil Z)) (1 + Zlen b)); [done|]. change (Zlen (@nil Z)) with 0 in *. lia.
Qed.
Lemma name_less_nil_r a : name_less a [] = false.
Proof. unfold name_less. destruct a as [|x a]; [done|]. simpl. rewrite Zlen_cons. pose proof (Zlen_nonneg a). destruct (Z.ltb_spec (1 + Zlen a) (Zlen (@nil Z))); [|done]. change (Zlen (@nil Z)) with 0 in *. lia. Qed.

Lemma name_less_trans a : forall b c, name_less a b = true -> name_less b c = true -> name_less a c = true.
Proof.
  induction a as [|x a IH]; intros [|y b] [|z c]; rewrite ?name_less_nil_l, ?name_less_nil_r, ?name_less_cons; try done.
  rewrite !orb_true_iff, !andb_true_iff, !Z.ltb_lt, !Z.eqb_eq.
  intros [Hxy|[Hxy Ha]] [Hyz|[Hyz Hb]]; [left; lia..|]. right. split; [lia|]. by apply IH with b.
Qed.

Lemma name_less_total a : forall b,
  Forall is_char a -> Forall is_char b -> name_less a b = false -> name_less b a = false -> a = b.
Proof.
  induction a as [|x a IH]; intros [|y b]; rewrite ?name_less_nil_l, ?name_less_cons; try done.
  intros [Hx Ha]%Forall_cons [Hy Hb]%Forall_cons. rewrite !orb_false_iff, !andb_false_iff, !Z.ltb_ge, !Z.eqb_neq.
  intros [Hxy H1] [Hyx H2]. f_equal; [apply u8_inj; [done..|lia]|apply IH; [done..| |]].
  - destruct H1 as [H1|H1]; [lia|done].
  - destruct H2 as [H2|H2]; [lia|done].
Qed.

Lemma name_equal_decides a b : proper_name a -> proper_name b -> name_equal a b = bool_decide (a = b).
Proof.
  intros [Ha _] [Hb _]. case_bool_decide as E.
  - subst b. unfold name_equal. by rewrite Z.eqb_refl, memcmp_refl.
  - destruct (name_equal a b) eqn:Eq; [|done]. apply name_equal_less in Eq as [H1 H2]. by destruct E; apply name_less_total.
Qed.

(** ** Objects *)

(** [v] is null or an object with the members [M]. *)
Definition maps (v : value) (M : gmap (list Z) value) : Prop :=
  exists m, (value_ v = object_ m \/ (value_ v = null_ /\ m = [])) /\ sorted name_less proper_name m /\ list_to_map m = M.

Inductive object_op : Type :=
| do_set (name : list Z) (x : value)
| do_find (name : list Z)
| do_remove_member (name : list Z)
| do_names
| do_size.

Inductive answer : Type :=
| nothing
| found (x : option value)
| names (l : list (list Z))
| counted (n : Z).

Definition run_object_op (o : object_op) (v : value) : res (value * answer) :=
  match o with
  | do_set name x => let! v := assign_name name x v in Ok (v, nothing)
  | do_find name => let! x := find name v in Ok (v, found x)
  | do_remove_member name =>
      let '(removed, x, v) := remove_member_into name null_ref v in
      Ok (v, found (if removed then Some x else None))
  | do_names => let! l := get_member_names v in Ok (v, names l)
  | do_size => Ok (v, counted (size v))
  end.

(** The same on a finite map, and what the answer may be. *)
Definition map_op (o : object_op) (M : gmap (list Z) value) : gmap (list Z) value :=
  match o with
  | do_set name x => <[name := x]> M
  | do_remove_member name => delete name M
  | _ => M
  end.
Definition answers (o : object_op) (M : gmap (list Z) value) (a : answer) : Prop :=
  match o with
  | do_set _ _ => a = nothing
  | do_find name | do_remove_member name => a = found (M !! name)
  | do_names => exists l, a = names l /\ StronglySorted (fun x y => name_less x y = true) l /\ forall k, k ∈ l <-> is_Some (M !! k)
  | do_size => a = counted (Z.of_nat (base.size M))
  end.
Definition named_properly (o : object_op) (M : gmap (list Z) value) : Prop :=
  match o with
  | do_set name _ | do_find name | do_remove_member name => proper_name name
  | do_names => True
  | do_size => Z.of_nat (base.size M) < 2 ^ 32
  end.

Lemma proper_total a b : proper_name a -> proper_name b -> name_less a b = false -> name_less b a = false -> a = b.
Proof. intros [Ha _] [Hb _]. by apply name_less_total. Qed.

Lemma object_op_maps o v M :
  maps v M -> named_properly o M ->
  exists v' a, run_object_op o v = Ok (v', a) /\ maps v' (map_op o M) /\ answers o M a.
Proof.
  intros (m & Hv & Hs & <-) Ho. destruct o as [name x|name|name| |]; simpl in Ho |- *.
  - pose proof Ho as [_ Hlen]. unfold assign_name, name_demand. rewrite czstring_small by done.
    assert (value_ (become vt_object v) = object_ m) as -> by (destruct Hv as [Hv|[Hv ->]]; unfold become, is_null; by rewrite Hv).
    cbn [bind]. unfold update_member. rewrite value_set_payload.
    destruct (map_ensure_find name_less name_equal name_equal_less name_less_irrefl name null_ref m) as [w Hw].
    destruct (map_update_find name_less name _ w x Hw) as (m' & Hm & _). rewrite Hm. cbn [bind].
    apply (map_ensure_update name_less name_equal name_equal_less name_less_irrefl) in Hm as ->.
    destruct (sorted_set name_less name_equal proper_name name_less_irrefl name_less_trans proper_total name_equal_decides
      name x m Ho Hs) as [Hs' Hm']. eexists _, _. split; [done|]. split; [|done].
    eexists. split; [left; apply value_set_payload|]. split; [done|exact Hm'].
  - pose proof Ho as [_ Hlen]. unfold find. rewrite czstring_small by done.
    assert (maps v (list_to_map m)) as Hmaps by (by exists m).
    pose proof (sorted_find name_less proper_name name_less_irrefl name_less_trans proper_total name m Ho Hs) as Hf.
    destruct Hv as [Hv|[Hv ->]]; rewrite Hv; eexists _, _; (split; [done|]); (split; [exact Hmaps|]); [by rewrite <-Hf|done].
  - pose proof Ho as [_ Hlen]. unfold remove_member_into. rewrite czstring_small by done.
    destruct Hv as [Hv|[Hv ->]]; rewrite Hv.
    2:{ eexists _, _. split; [done|]. split; [|done]. exists []. split_and!; [by right|done|]. simpl. by rewrite delete_empty. }
    pose proof (sorted_find name_less proper_name name_less_irrefl name_less_trans proper_total name m Ho Hs) as Hf.
    rewrite Hf. destruct (sorted_erase name_less proper_name name_less_irrefl name_less_trans proper_total name m Ho Hs) as [Hs' Hm'].
    destruct (list_to_map m !! name) as [x|] eqn:E; eexists _, _; (split; [done|]); (split; [|done]).
    + eexists. split; [left; apply value_set_payload|]. split; [done|exact Hm'].
    + exists m. split_and!; [by left|done|]. by rewrite delete_id.
  - assert (get_member_names v = Ok m.*1) as -> by (unfold get_member_names; by destruct Hv as [->|[-> ->]]).
    eexists _, _. split; [done|]. split; [by exists m|]. exists m.*1. split_and!; [done|apply Hs|]. intros k.
    pose proof (not_elem_of_list_to_map (M := gmap (list Z)) m k) as Hnot. rewrite <-not_eq_None_Some, <-Hnot.
    destruct (decide (k ∈ m.*1)); tauto.
  - eexists _, _. split; [done|]. split; [by exists m|].
    rewrite (sorted_length name_less proper_name name_less_irrefl m Hs) in *. f_equal.
    unfold size. destruct Hv as [->|[-> ->]]; [|done]. apply u32_small. unfold Zlen. lia.
Qed.

Fixpoint run_object_ops (os : list object_op) (v : value) : res (value * list answer) :=
  match os with
  | [] => Ok (v, [])
  | o :: os' =>
      let! (v, a) := run_object_op o v in
      let! (v, l) := run_object_ops os' v in
      Ok (v, a :: l)
  end.
(** The maps before each operation, and the last. *)
Fixpoint maps_of (os : list object_op) (M : gmap (list Z) value) : list (gmap (list Z) value) * gmap (list Z) value :=
  match os with
  | [] => ([], M)
  | o :: os' => let '(l, M') := maps_of os' (map_op o M) in (M :: l, M')
  end.

(** C8: An object value refines a finite map: whatever sequence of assignments to members, find, remove_member, size and
    get_member_names runs on a null value or an object, every operation succeeds and answers what the map says at that point; the
    names come in the order of their bytes, each once.  Names are chars, fewer than 2^30 of them. *)
Theorem object_refines_map os v M :
  maps v M -> Forall2 named_properly os (maps_of os M).1 ->
  exists v' l, run_object_ops os v = Ok (v', l) /\ maps v' (maps_of os M).2 /\
    Forall3 answers os (maps_of os M).1 l.
Proof.
  revert v M. induction os as [|o os IH]; intros v M Hv Hos; simpl in *.
  - eexists _, _. split; [done|]. split; [done|constructor].
  - destruct (maps_of os (map_op o M)) as [l M'] eqn:E. simpl in *. apply Forall2_cons in Hos as [Ho Hos].
    destruct (object_op_maps o v M Hv Ho) as (v1 & a & -> & Hv1 & Ha). cbn [bind].
    destruct (IH v1 (map_op o M) Hv1) as (v2 & l2 & -> & Hv2 & Hl); rewrite E in *; [done|]. cbn [bind].
    eexists _, _. split; [done|]. split; [done|]. by constructor.
Qed.

Lemma object_refines_map_witness :
  let os := [do_set (str "b") (value_of_int 1); do_set (str "a") (value_of_int 2); do_names; do_remove_member (str "b"); do_size] in
  exists v' l, run_object_ops os null_ref = Ok (v', l) /\ maps v' (maps_of os ∅).2 /\ Forall3 answers os (maps_of os ∅).1 l.
Proof.
  intros os. apply (object_refines_map os null_ref ∅).
  - exists []. split_and!; [by right| |done]. split; constructor.
  - unfold os. simpl. repeat constructor; simpl; try decided; vm_compute; reflexivity.
Defined.
