(* ===== verification/JsonPath.v ===== *)
(** * Paths and iterators: classes path_argument, path and value_iterator_base of
    core/data/json/value.h, value.cpp and value_iterator.inl

    An iterator is a place in the map it was made from; the map is an argument.  A node
    that [path::make] returns is the list of keys that leads to it. *)

From stdpp Require Import base tactics list strings.
From Stdlib Require Import ZArith Lia.
From S2P Require Import Prelude CString StdString ScanNumbers JsonText JsonValue JsonGrammar JsonReading.
#[local] Open Scope Z_scope.

(** ** Paths *)

Inductive path_argument : Type :=
| kind_none
| kind_index (index_ : Z)
| kind_key (key_ : list Z).

(** [add_path_in_arg], for the argument that [it_in_arg] is at. *)
Definition of_kind (index : bool) (a : path_argument) : bool :=
  match a with kind_none => false | kind_index _ => index | kind_key _ => negb index end.
Definition add_path_in_arg (in_arg : list path_argument) (index : bool) (args_ : list path_argument) : list path_argument :=
  match in_arg with
  | [] => args_
  | a :: _ => if of_kind index a then args_ ++ [a] else args_
  end.

(** The loop over the digits of an index, from [*current] on; behind the last char of
    the path is a NUL. *)
Fixpoint read_index (current : list Z) (index : Z) : Z * list Z :=
  match current with
  | c :: rest =>
      if ("0"%ch <=? c) && (c <=? "9"%ch) then read_index rest (u32 (u32 (index * 10) + u32 (c - "0"%ch))) else (index, current)
  | [] => (index, [])
  end.

(** [while (current != end && !strchr("[.", *current))]; [strchr] finds the NUL. *)
Fixpoint read_name (current : list Z) : list Z * list Z :=
  match current with
  | c :: rest =>
      if (c =? "["%ch) || (c =? "."%ch) || (c =? 0) then ([], current)
      else let '(name, rest) := read_name rest in (c :: name, rest)
  | [] => ([], [])
  end.

(** [if (current == end || *current++ != ']') invalidPath(...)], which does nothing. *)
Definition skip_bracket (current : list Z) : list Z := match current with [] => [] | _ :: rest => rest end.

Definition path_turn (in_arg : list path_argument) '((current, args_) : list Z * list path_argument) :
    res (list Z * list path_argument + list path_argument) :=
  match current with
  | [] => Ok (inr args_)
  | c :: rest =>
      if c =? "["%ch then
        match rest with
        | d :: _ =>
            if d =? "%"%ch then Ok (inl (skip_bracket rest, add_path_in_arg in_arg true args_))
            else let '(index, rest) := read_index rest 0 in Ok (inl (skip_bracket rest, args_ ++ [kind_index index]))
        | [] => Ok (inl ([], args_ ++ [kind_index 0]))
        end
      else if c =? "%"%ch then Ok (inl (rest, add_path_in_arg in_arg false args_))
      else if c =? "."%ch then Ok (inl (rest, args_))
      else let '(name, rest) := read_name current in Ok (inl (rest, args_ ++ [kind_key (c_str name)]))
  end.
Definition make_path (path : list Z) (in_arg : list path_argument) : res (list path_argument) :=
  iterate (S (length path)) (path_turn in_arg) (path, []).

(** [resolve(root)]: the node, with null where there is none. *)
Fixpoint resolve (args_ : list path_argument) (node : value) : res value :=
  match args_ with
  | [] => Ok node
  | kind_index i :: args_ => let! found := index_find i node in resolve args_ (deref found)
  | kind_key s :: args_ => let! found := find s node in resolve args_ (deref found)
  | kind_none :: args_ => resolve args_ node
  end.

(** [resolve(root, default_value)]. *)
Fixpoint resolve_default (default_value : value) (args_ : list path_argument) (node : value) : res value :=
  match args_ with
  | [] => Ok node
  | kind_index i :: args_ =>
      if negb (is_array node) || negb (is_valid_index i node) then Ok default_value
      else let! found := index_find i node in resolve_default default_value args_ (deref found)
  | kind_key s :: args_ =>
      if negb (is_object node) then Ok default_value
      else
        let! found := find s node in
        match found with
        | None => Ok default_value
        | Some node => resolve_default default_value args_ node
        end
  | kind_none :: args_ => resolve_default default_value args_ node
  end.

(** [make(root)]: the node, as the way to it, and the root with what was created. *)
Fixpoint make_from (args_ : list path_argument) (node : list key) (root : value) : res (list key * value) :=
  match args_ with
  | [] => Ok (node, root)
  | kind_index i :: args_ =>
      let! root := update_at node (index_demand i) root in make_from args_ (node ++ [index_key i]) root
  | kind_key s :: args_ =>
      let! root := update_at node (name_demand s) root in make_from args_ (node ++ [name_key (czstring s)]) root
  | kind_none :: args_ => make_from args_ node root
  end.
Definition make (args_ : list path_argument) (root : value) : res (list key * value) := make_from args_ [] root.

(** ** Iterators *)

(** [current_] is the number of entries before it; [None] for an iterator of a null value,
    whose [is_null_] is set. *)
Abbreviation iterator := (option nat).
Abbreviation entries := (list (key * value)).

Definition entries_of (v : value) : option entries :=
  match value_ v with
  | array_ m => Some (map (fun e => (index_key e.1, e.2)) m)
  | object_ m => Some (map (fun e => (name_key e.1, e.2)) m)
  | _ => None
  end.
Definition value_begin (v : value) : iterator := match entries_of v with Some _ => Some 0%nat | None => None end.
Definition value_end (v : value) : iterator := match entries_of v with Some m => Some (length m) | None => None end.

(** [*current_]. *)
Definition entry (m : entries) (it : iterator) : res (key * value) :=
  match it with
  | Some k => match m !! k with Some e => Ok e | None => Undef end
  | None => Undef
  end.
Definition iterator_deref (m : entries) (it : iterator) : res value := let! e := entry m it in Ok e.2.
Definition increment (m : entries) (it : iterator) : res iterator :=
  match it with Some k => if (k <? length m)%nat then Ok (Some (S k)) else Undef | None => Undef end.
Definition decrement (it : iterator) : res iterator :=
  match it with Some (S k) => Ok (Some k) | _ => Undef end.

(** An iterator of a null value has a [current_] that was never in a map: comparing it
    with another is undefined. *)
Definition is_equal (it other : iterator) : res bool :=
  match it, other with
  | None, None => Ok true
  | None, Some _ => Ok false
  | Some k, Some l => Ok (k =? l)%nat
  | Some _, None => Undef
  end.
Definition compute_distance (m : entries) (it other : iterator) : res Z :=
  match it, other with
  | None, None => Ok 0
  | Some k, Some l =>
      iterate (S (length m)) (fun '(it, my_distance) =>
        let! eq := is_equal it other in
        if negb eq then let! it := increment m it in Ok (inl (it, i32 (my_distance + 1))) else Ok (inr my_distance)) (it, 0)
  | _, _ => Undef
  end.

(** [key()], [index()] and [name()]. *)
Definition iterator_key (m : entries) (it : iterator) : res value :=
  let! e := entry m it in
  match e.1 with
  | name_key s => value_of_string s
  | index_key i => Ok (value_of_uint i)
  end.
Definition iterator_index (m : entries) (it : iterator) : res Z :=
  let! e := entry m it in
  match e.1 with name_key _ => Ok (u32 (-1)) | index_key i => Ok i end.
Definition member_name (m : entries) (it : iterator) : res (option (list Z)) :=
  let! e := entry m it in
  match e.1 with name_key s => Ok (Some s) | index_key _ => Ok None end.
Definition iterator_name (m : entries) (it : iterator) : res (list Z) :=
  let! name := member_name m it in Ok (default [] name).

(** * What a path means *)

(** Indices in brackets, and names behind a dot. *)
Inductive path_text : list Z -> list path_argument -> Prop :=
| path_end : path_text [] []
| path_index ds t args_ :
    ds <> [] -> Forall digit ds -> num ds < 2 ^ 32 - 1 -> path_text t args_ ->
    path_text ("["%ch :: ds ++ "]"%ch :: t) (kind_index (num ds) :: args_)
| path_name s t args_ :
    s <> [] -> head s <> Some "%"%ch -> Forall (fun c => c <> "["%ch /\ c <> "."%ch /\ c <> 0) s -> Zlen s < 2 ^ 30 ->
    path_text t args_ -> path_text ("."%ch :: s ++ t) (kind_key s :: args_).

Lemma read_index_spec ds : forall t n,
  Forall digit ds -> 0 <= n -> foldl (fun n c => n * 10 + (c - "0"%ch)) n ds < 2 ^ 32 ->
  read_index (ds ++ "]"%ch :: t) n = (foldl (fun n c => n * 10 + (c - "0"%ch)) n ds, "]"%ch :: t).
Proof.
  induction ds as [|c ds IH]; intros t n Hds Hn Hlt; simpl; [done|]. apply Forall_cons in Hds as [Hc Hds].
  unfold digit in Hc. ztrue ("0"%ch <=? c). ztrue (c <=? "9"%ch). simpl in Hlt |- *.
  pose proof (num_from_ge ds (n * 10 + (c - "0"%ch)) Hds ltac:(lia)) as Hge.
  unfold num_from in Hge. rewrite (u32_small (n * 10)), (u32_small (c - _)), u32_small by lia. apply IH; [done|lia|done].
Qed.

(** A path goes on with a bracket or a dot. *)
Lemma path_text_starts t args_ : path_text t args_ -> t = [] \/ exists c r, t = c :: r /\ (c = "["%ch \/ c = "."%ch).
Proof. destruct 1; [by left|right; eauto..]. Qed.

Lemma read_name_spec s t :
  Forall (fun c => c <> "["%ch /\ c <> "."%ch /\ c <> 0) s ->
  t = [] \/ (exists c r, t = c :: r /\ (c = "["%ch \/ c = "."%ch)) -> read_name (s ++ t) = (s, t).
Proof.
  intros Hs Ht. induction s as [|c s IH]; simpl.
  - destruct Ht as [->|(c & r & -> & [->| ->])]; done.
  - apply Forall_cons in Hs as [(H1 & H2 & H3) Hs]. zfalse (c =? "["%ch). zfalse (c =? "."%ch). zfalse (c =? 0). simpl.
    by rewrite IH.
Qed.

Lemma make_path_spec t args_ : path_text t args_ -> forall in_arg fuel done_args,
  (S (length t) <= fuel)%nat -> iterate fuel (path_turn in_arg) (t, done_args) = Ok (done_args ++ args_).
Proof.
  induction 1 as [|ds t args_ Hne Hds Hlt Ht IH|s t args_ Hne Hhd Hs Hlen Ht IH]; intros in_arg fuel done_args Hf;
    (destruct fuel as [|fuel]; [lia|]).
  - simpl. by rewrite app_nil_r.
  - rewrite length_cons, length_app in Hf. simpl in Hf. cbn [iterate path_turn]. change ("["%ch =? "["%ch) with true. cbn match.
    destruct ds as [|d ds]; [done|]. cbn [app]. assert (d =? "%"%ch = false) as ->.
    { apply Forall_cons in Hds as [Hd _]. unfold digit in Hd. apply Z.eqb_neq. lia. }
    rewrite (app_comm_cons ds), read_index_spec by (done || (unfold num in Hlt; lia)). cbn [bind skip_bracket].
    rewrite IH by lia. by rewrite <-app_assoc.
  - rewrite length_cons, length_app in Hf. cbn [iterate path_turn]. change ("."%ch =? "["%ch) with false.
    change ("."%ch =? "%"%ch) with false. change ("."%ch =? "."%ch) with true. cbn match. cbn [bind].
    destruct fuel as [|fuel]; [lia|]. pose proof (read_name_spec s t Hs (path_text_starts _ _ Ht)) as Hread.
    destruct s as [|c s]; [done|]. cbn [app] in *. cbn [iterate path_turn].
    apply Forall_cons in Hs as Hs'. destruct Hs' as [(H1 & H2 & H3) Hs'].
    zfalse (c =? "["%ch). assert (c =? "%"%ch = false) as -> by (apply Z.eqb_neq; simpl in Hhd; congruence).
    zfalse (c =? "."%ch). rewrite Hread. cbn [bind]. assert (no_nul (c :: s)) as Hno.
    { intros Hin. rewrite Forall_forall in Hs. by destruct (Hs 0 Hin) as (_ & _ & ?). }
    rewrite c_str_no_nul, IH by (done || simpl in Hf; lia). by rewrite <-app_assoc.
Qed.

(** The value with [x] at the end of a path and nothing else. *)
Fixpoint nest (args_ : list path_argument) (x : value) : value :=
  match args_ with
  | [] => x
  | kind_index i :: args_ => init_basic (array_ [(i, nest args_ x)])
  | kind_key s :: args_ => init_basic (object_ [(s, nest args_ x)])
  | kind_none :: args_ => nest args_ x
  end.
Fixpoint way (args_ : list path_argument) : list key :=
  match args_ with
  | [] => []
  | kind_index i :: args_ => index_key i :: way args_
  | kind_key s :: args_ => name_key s :: way args_
  | kind_none :: args_ => way args_
  end.
Definition proper (a : path_argument) : Prop :=
  match a with
  | kind_none => True
  | kind_index i => 0 <= i < 2 ^ 32 - 1
  | kind_key s => Zlen s < 2 ^ 30
  end.

Lemma path_text_proper t args_ : path_text t args_ -> Forall proper args_.
Proof.
  induction 1 as [|ds t args_ Hne Hds Hlt Ht IH|s t args_ Hne Hhd Hs Hlen Ht IH]; constructor; try done.
  simpl. pose proof (num_nonneg ds Hds). lia.
Qed.

(** One step of [make]: where null was, there is a value with one null member. *)
Lemma make_step p k w root :
  value_at p root = Some null_ref -> member k w = Some null_ref ->
  exists root', set_at p w root = Ok root' /\ value_at (p ++ [k]) root' = Some null_ref.
Proof.
  intros Hp Hw. destruct (set_at_total p root null_ref w Hp) as (root' & Hs & Hv). exists root'. split; [done|].
  by rewrite value_at_snoc, Hv.
Qed.

Lemma set_at_member p k v w v' root root' x :
  value_at p root = Some v -> set_at p w root = Ok root' -> update_member k (fun _ => Ok x) w = Ok v' ->
  set_at (p ++ [k]) x root' = set_at p v' root.
Proof.
  intros Hp Hs Hu. rewrite (set_at_snoc p k root' w v') by (done || by eapply set_at_value).
  by apply set_at_twice with w.
Qed.

Lemma make_from_null args_ : forall p root,
  Forall proper args_ -> value_at p root = Some null_ref ->
  exists root1, make_from args_ p root = Ok (p ++ way args_, root1) /\ set_at p (nest args_ null_ref) root = Ok root1.
Proof.
  induction args_ as [|a args_ IH]; intros p root Hargs Hp; simpl.
  - rewrite app_nil_r. exists root. split; [done|]. by apply set_at_same.
  - apply Forall_cons in Hargs as [Ha Hargs]. destruct a as [|i|s]; [by apply IH| |].
    + destruct (make_step p (index_key i) (init_basic (array_ [(i, null_ref)])) root Hp) as (root' & Hs & Hv).
      { unfold member. simpl. by rewrite Z.ltb_irrefl. }
      rewrite (update_at_spec _ _ _ null_ref (init_basic (array_ [(i, null_ref)])) Hp), Hs by done. cbn [bind].
      destruct (IH (p ++ [index_key i]) root' Hargs Hv) as (root1 & -> & Hs1). exists root1.
      rewrite <-app_assoc. split; [done|]. rewrite <-Hs1. symmetry.
      apply (set_at_member p _ null_ref (init_basic (array_ [(i, null_ref)]))); [done|done|].
      unfold update_member. simpl. by rewrite Z.ltb_irrefl.
    + simpl in Ha. destruct (make_step p (name_key s) (init_basic (object_ [(s, null_ref)])) root Hp) as (root' & Hs & Hv).
      { unfold member. simpl. by rewrite name_less_irrefl. }
      rewrite (update_at_spec _ _ _ null_ref (init_basic (object_ [(s, null_ref)])) Hp), Hs
        by (unfold name_demand; simpl; by rewrite czstring_small). cbn [bind].
      rewrite czstring_small by done.
      destruct (IH (p ++ [name_key s]) root' Hargs Hv) as (root1 & -> & Hs1). exists root1.
      rewrite <-app_assoc. split; [done|]. rewrite <-Hs1. symmetry.
      apply (set_at_member p _ null_ref (init_basic (object_ [(s, null_ref)]))); [done|done|].
      unfold update_member. simpl. by rewrite name_less_irrefl.
Qed.

Lemma set_nest args_ x y : set_at (way args_) x (nest args_ y) = Ok (nest args_ x).
Proof.
  unfold set_at. induction args_ as [|[|i|s] args_ IH]; simpl; [done|done| |]; unfold update_member; simpl.
  - by rewrite Z.ltb_irrefl, IH.
  - by rewrite name_less_irrefl, IH.
Qed.

Lemma resolve_nest args_ x : Forall proper args_ -> resolve args_ (nest args_ x) = Ok x.
Proof.
  induction args_ as [|[|i|s] args_ IH]; simpl; [done|intros [_ H]%Forall_cons; auto| |]; intros [Ha Hargs]%Forall_cons.
  - unfold index_find. simpl. rewrite Z.ltb_irrefl. simpl. auto.
  - unfold find. simpl in Ha |- *. rewrite czstring_small, name_less_irrefl by done. simpl. auto.
Qed.

Lemma resolve_default_nest d args_ x : Forall proper args_ -> resolve_default d args_ (nest args_ x) = Ok x.
Proof.
  induction args_ as [|[|i|s] args_ IH]; simpl; [done|intros [_ H]%Forall_cons; auto| |]; intros [Ha Hargs]%Forall_cons.
  - unfold is_valid_index, size, index_find. simpl in Ha |- *. rewrite u32_small by lia. ztrue (i <? i + 1).
    simpl. rewrite Z.ltb_irrefl. simpl. auto.
  - unfold find. simpl in Ha |- *. rewrite czstring_small, name_less_irrefl by done. simpl. auto.
Qed.

(** C39: A path finds what it made: the text of indices in brackets and of names behind dots is read as those indices and
    names, [make] on a null value builds the arrays and objects that lead to one null node, and whatever is assigned to
    that node, both [resolve]s find it at the end of the path.  Arguments for placeholders are not used by such a path. *)
Theorem path_finds_what_it_made text args_ in_arg x d :
  path_text text args_ ->
  make_path text in_arg = Ok args_ /\
  exists node root1 root2, make args_ null_ref = Ok (node, root1) /\ value_at node root1 = Some null_ref /\
    set_at node x root1 = Ok root2 /\ resolve args_ root2 = Ok x /\ resolve_default d args_ root2 = Ok x.
Proof.
  intros Ht. pose proof (path_text_proper _ _ Ht) as Hargs. split.
  - unfold make_path. by rewrite (make_path_spec text args_ Ht).
  - destruct (make_from_null args_ [] null_ref Hargs eq_refl) as (root1 & Hmake & Hs). injection Hs as <-.
    exists (way args_), (nest args_ null_ref), (nest args_ x). split; [exact Hmake|].
    split; [by apply set_at_value with (nest args_ x), set_nest|].
    split; [apply set_nest|]. split; [by apply resolve_nest|by apply resolve_default_nest].
Qed.

Lemma path_finds_what_it_made_witness :
  make_path (str "[12].ab") [] = Ok [kind_index 12; kind_key (str "ab")] /\
  exists node root1 root2, make [kind_index 12; kind_key (str "ab")] null_ref = Ok (node, root1) /\
    value_at node root1 = Some null_ref /\ set_at node (value_of_int 7) root1 = Ok root2 /\
    resolve [kind_index 12; kind_key (str "ab")] root2 = Ok (value_of_int 7) /\
    resolve_default null_ref [kind_index 12; kind_key (str "ab")] root2 = Ok (value_of_int 7).
Proof.
  apply path_finds_what_it_made.
  apply (path_index (str "12") (str ".ab")); [done|repeat constructor; vm_compute; discriminate|by vm_compute|].
  apply (path_name (str "ab") []); [done|done| |by vm_compute|constructor].
  repeat constructor; vm_compute; discriminate.
Defined.

(** An iterator walks over every entry, from [begin] to [end]. *)
Lemma distance_from_begin v m :
  entries_of v = Some m -> Zlen m < 2 ^ 31 -> compute_distance m (value_begin v) (value_end v) = Ok (Zlen m).
Proof.
  unfold Zlen. intros Hm Hl. unfold value_begin, value_end. rewrite Hm. unfold compute_distance.
  assert (forall k fuel, (k <= length m)%nat -> (length m - k < fuel)%nat ->
    iterate fuel (fun '(it, my_distance) =>
        let! eq := is_equal it (Some (length m)) in
        if negb eq then let! it := increment m it in Ok (inl (it, i32 (my_distance + 1))) else Ok (inr my_distance))
      (Some k, Z.of_nat k) = Ok (Z.of_nat (length m))) as Hloop.
  { intros k fuel. revert k. induction fuel as [|fuel IH]; intros k Hk Hf; [lia|]. cbn [iterate is_equal bind].
    destruct (Nat.eqb_spec k (length m)) as [->|Hne]; simpl; [done|].
    assert ((k <? length m)%nat = true) as -> by (apply Nat.ltb_lt; lia). cbn [bind].
    rewrite i32_fits by lia. replace (Z.of_nat k + 1) with (Z.of_nat (S k)) by lia. apply IH; lia. }
  apply (Hloop 0%nat); lia.
Qed.
