(* ===== verification/JsonSafety.v ===== *)
(** * The reader is safe on every document

    Whatever the document holds, [parse] ends, reads only the chars of the document and
    the NUL behind them, never uses a pointer to a value that is gone, and reports an
    error exactly when it returns false.  The pointers are those in [nodes_] and
    [last_value_]; a payload that is replaced takes the values below it away, so the
    invariant is that [last_value_] is never deeper than the value being read. *)

From stdpp Require Import base tactics list gmap strings.
From Stdlib Require Import ZArith Lia SpecFloat.
From S2P Require Import Prelude CString StdString ScanNumbers JsonText JsonValue JsonReader JsonGrammar JsonReading JsonRoundTrip JsonContainers.
#[local] Open Scope Z_scope.
#[local] Arguments str : simpl never.

(** ** Members that stay *)

Section entries.
Context {K : Type} (less equal : K -> K -> bool).

Lemma map_update_keeps (k k' : K) (x w : value) (m m' : list (K * value)) :
  map_update less k (fun _ => Ok x) m = Ok m' -> map_find less k' m = Some w ->
  map_find less k' m' = Some w \/ (map_find less k' m' = Some x /\ map_find less k m = Some w).
Proof.
  revert m'. induction m as [|[j v] m IH]; intros m'; simpl; [done|]. destruct (less j k).
  - intros (m1 & Hm & [= <-])%bind_Ok_inv. simpl. destruct (less j k'); [by apply IH|]. auto.
  - destruct (less k j); [done|]. intros [= <-]. simpl. destruct (less j k'); [auto|]. destruct (less k' j); [done|]. auto.
Qed.

Context (Hbefore : forall j k q, less j k = false -> equal j k = false -> less q j = false -> less k q = true).
Context (Hasym : forall j q, less j q = true -> less q j = false).

Lemma map_ensure_keeps (k q : K) (d w : value) (m : list (K * value)) :
  map_find less q m = Some w -> map_find less q (map_ensure less equal k d m) = Some w.
Proof using Hbefore Hasym.
  induction m as [|[j v] m IH]; simpl; [done|]. destruct (less j k) eqn:E1; simpl.
  - destruct (less j q); [done|]. by destruct (less q j).
  - destruct (equal j k) eqn:E2; [done|]. intros Hq. simpl. rewrite (Hbefore j k q); [done..|].
    destruct (less j q) eqn:E3; [by apply Hasym|]. by destruct (less q j).
Qed.
End entries.

Lemma name_less_le_trans a : forall b c, name_less a b = true -> name_less c b = false -> name_less a c = true.
Proof.
  induction a as [|x a IH]; intros [|y b] [|z c]; rewrite ?name_less_nil_l, ?name_less_nil_r, ?name_less_cons; try done.
  rewrite !orb_true_iff, !orb_false_iff, !andb_true_iff, !andb_false_iff, !Z.ltb_lt, !Z.ltb_ge, !Z.eqb_eq, !Z.eqb_neq.
  intros [Hxy|[Hxy Ha]] [Hyz Hb]; [left; lia|]. destruct Hb as [|Hb]; [left; lia|].
  destruct (decide (u8 z = u8 y)); [|left; lia]. right. split; [lia|]. by apply IH with b.
Qed.
Lemma name_less_asym a b : name_less a b = true -> name_less b a = false.
Proof.
  intros Ha. destruct (name_less b a) eqn:Hb; [|done]. pose proof (name_less_trans _ _ _ Ha Hb) as H.
  by rewrite name_less_irrefl in H.
Qed.
Lemma name_before j k q :
  name_less j k = false -> name_equal j k = false -> name_less q j = false -> name_less k q = true.
Proof.
  intros H1 H2 H3. apply name_less_le_trans with j; [|done]. revert H1 H2. unfold name_less, name_equal.
  rewrite (memcmp_sym j k). destruct (memcmp j k); simpl; [|done..]. rewrite Z.ltb_ge, Z.ltb_lt.
  destruct (Z.eqb_spec (Zlen j) (Zlen k)); simpl; [done|lia].
Qed.

(** ** Trees that change

    [agree d v v']: what was in [v] at a depth of at most [d] is still there in [v'], of the
    same type above that depth. *)

Definition agree (d : nat) (v v' : value) : Prop :=
  forall p w, value_at p v = Some w -> (length p <= d)%nat ->
    exists w', value_at p v' = Some w' /\ ((length p < d)%nat -> type w' = type w).

Lemma agree_refl d v : agree d v v.
Proof. intros p w Hw _. by exists w. Qed.
Lemma agree_trans d v1 v2 v3 : agree d v1 v2 -> agree d v2 v3 -> agree d v1 v3.
Proof.
  intros H12 H23 p w Hw Hp. destruct (H12 p w Hw Hp) as (w2 & Hw2 & Ht2).
  destruct (H23 p w2 Hw2 Hp) as (w3 & Hw3 & Ht3). exists w3. split; [done|]. intros Hd. by rewrite Ht3, Ht2.
Qed.
Lemma agree_le d d' v v' : (d <= d')%nat -> agree d' v v' -> agree d v v'.
Proof. intros Hd Ha p w Hw Hp. destruct (Ha p w Hw) as (w' & Hw' & Ht); [lia|]. exists w'. split; [done|]. intros. apply Ht. lia. Qed.
Lemma agree_0 v v' : agree 0 v v'.
Proof. intros [|k p] w Hw Hp; simpl in Hp; [|lia]. exists v'. split; [done|lia]. Qed.
Lemma agree_members d v v' :
  type v' = type v -> (forall k w, member k v = Some w -> member k v' = Some w) -> agree d v v'.
Proof.
  intros Ht Hm [|k p] w; simpl; [intros [= <-]; by exists v'|]. destruct (member k v) as [c|] eqn:Hc; [|done].
  rewrite (Hm k c Hc). intros Hw _. by exists w.
Qed.
Lemma agree_payload d v v' : value_ v' = value_ v -> agree d v v'.
Proof. intros Hv. apply agree_members; unfold type, member; by rewrite Hv. Qed.

Lemma update_member_type k x v v' : update_member k (fun _ => Ok x) v = Ok v' -> type v' = type v.
Proof.
  unfold update_member. destruct k; destruct (value_ v) eqn:E; try done; intros (m' & _ & [= <-])%bind_Ok_inv;
    unfold type; by rewrite value_set_payload, E.
Qed.
Lemma update_member_keeps k k' x v v' w :
  update_member k (fun _ => Ok x) v = Ok v' -> member k' v = Some w ->
  member k' v' = Some w \/ (member k' v' = Some x /\ member k v = Some w).
Proof.
  unfold update_member, member. destruct k, k'; destruct (value_ v) eqn:E; try done;
    intros (m' & Hm & [= <-])%bind_Ok_inv; rewrite value_set_payload; by apply map_update_keeps.
Qed.

(** Assignment at [n] agrees as far as what is assigned does. *)
Lemma set_at_agree d x n : forall root root' v,
  set_at n x root = Ok root' -> value_at n root = Some v -> agree d v x -> agree (length n + d) root root'.
Proof.
  induction n as [|k n IH]; intros root root' v Hs Hv Hd; simpl in Hv |- *.
  - injection Hv as ->. injection Hs as <-. done.
  - destruct (member k root) as [c|] eqn:Hc; [|done]. destruct (set_at_total n c v x Hv) as (c' & Hs' & _).
    rewrite (set_at_cons _ _ _ _ _ _ Hc Hs') in Hs. pose proof (IH c c' v Hs' Hv Hd) as Ha.
    intros [|k' p] w; simpl.
    { intros [= <-] _. exists root'. split; [done|]. intros _. by eapply update_member_type. }
    destruct (member k' root) as [w0|] eqn:Hw0; [|done]. intros Hw Hp.
    destruct (update_member_keeps _ _ _ _ _ _ Hs Hw0) as [->|[-> Hc']]; [by exists w|].
    assert (w0 = c) as -> by congruence. destruct (Ha p w Hw) as (w' & Hw' & Ht); [lia|]. exists w'. split; [done|].
    intros. apply Ht. lia.
Qed.

(** What [operator[]] adds leaves the other members. *)
Lemma int_demand_keeps i v :
  0 <= i -> type v = vt_array ->
  exists v', int_demand i v = Ok v' /\ type v' = vt_array /\ (forall d, agree d v v') /\ is_Some (member (index_key (u32 i)) v').
Proof.
  intros Hi Ht. unfold int_demand, index_demand, become, is_null. ztrue (0 <=? i). simpl.
  unfold type in Ht. destruct (value_ v) eqn:E; try done. rewrite E. eexists. split; [done|].
  assert (type (set_payload (array_ (map_ensure Z.ltb Z.eqb (u32 i) null_ref m)) v) = type v) as Hty
    by (unfold type; by rewrite value_set_payload, E).
  split_and!.
  - rewrite Hty. unfold type. by rewrite E.
  - intros d. apply agree_members; [done|]. intros [j|s] w; unfold member; rewrite value_set_payload, E; [|done].
    apply map_ensure_keeps; [intros a k q; rewrite !Z.ltb_ge, Z.eqb_neq, Z.ltb_lt; lia|intros a k; rewrite Z.ltb_ge, Z.ltb_lt; lia].
  - unfold member. rewrite value_set_payload.
    destruct (map_ensure_find Z.ltb Z.eqb index_equal_less Z.ltb_irrefl (u32 i) null_ref m) as [x ->]. by exists x.
Qed.
Lemma name_demand_keeps s v :
  type v = vt_object ->
  exists v', name_demand s v = Ok v' /\ type v' = vt_object /\ (forall d, agree d v v') /\ is_Some (member (name_key (czstring s)) v').
Proof.
  intros Ht. unfold name_demand, become, is_null. unfold type in Ht. destruct (value_ v) eqn:E; try done. rewrite E.
  eexists. split; [done|].
  assert (type (set_payload (object_ (map_ensure name_less name_equal (czstring s) null_ref m)) v) = type v) as Hty
    by (unfold type; by rewrite value_set_payload, E).
  split_and!.
  - rewrite Hty. unfold type. by rewrite E.
  - intros d. apply agree_members; [done|]. intros [j|q] w; unfold member; rewrite value_set_payload, E; [done|].
    apply map_ensure_keeps; [apply name_before|apply name_less_asym].
  - unfold member. rewrite value_set_payload.
    destruct (map_ensure_find name_less name_equal name_equal_less name_less_irrefl (czstring s) null_ref m) as [x ->]. by exists x.
Qed.

(** ** What may be thrown, and safe runs *)

Section safety.
Context (negate_min : res Z) (printf_17g : double -> list Z) (sscanf_lf : list Z -> option double).
Context (m : mem) (features_ : features) (b e : Z).
Context (Hm : forall q, b <= q <= e -> is_Some (m !! q)) (Hlen : e - b < 2 ^ 30).
Context (Hneg : negate_min = Ok min_int64) (Hprintf : forall d, Zlen (printf_17g d) <= 32).

(** [our_reader] without single quotes takes a quote for the start of a comment, and
    [set_comment] wants a slash there. *)
Definition quirk : Prop := match ours_ features_ with Some x => allow_single_quotes_ x = false | None => False end.
Definition thrown (x : exn) : Prop :=
  x = runtime_error (str "Exceeded stack_limit in read_value().") \/
  (quirk /\ x = logic_error (str "in json::value::set_comment(): Comments must start with /")).

Definition runs {A} (x : res (A * reader)) (Q : A -> reader -> Prop) : Prop :=
  match x with Ok (a, r) => Q a r | Throw x => thrown x | _ => False end.

Lemma runs_bind {A B} (x : M A) (k : A -> M B) r Q :
  runs (x r) (fun a r' => runs (k a r') Q) -> runs (mbind x k r) Q.
Proof. unfold mbind. by destruct (x r) as [[a r']| | |]. Qed.
Lemma runs_mono {A} (x : res (A * reader)) (P Q : A -> reader -> Prop) :
  runs x P -> (forall a r, P a r -> Q a r) -> runs x Q.
Proof. destruct x as [[a r]| | |]; simpl; auto. Qed.
Lemma runs_get {A} (f : reader -> A) r (Q : A -> reader -> Prop) : Q (f r) r -> runs (get f r) Q.
Proof. done. Qed.
Lemma runs_put (f : reader -> reader) r (Q : unit -> reader -> Prop) : Q tt (f r) -> runs (put f r) Q.
Proof. done. Qed.
Lemma runs_ret {A} (a : A) r (Q : A -> reader -> Prop) : Q a r -> runs (ret a r) Q.
Proof. done. Qed.
Lemma runs_lift {A} (x : res A) r (Q : A -> reader -> Prop) : wp x (fun a => Q a r) -> runs (lift x r) Q.
Proof. unfold lift. by destruct x. Qed.
Lemma runs_loop {S A} (I : S -> reader -> Prop) (measure : S -> reader -> nat) (Q : A -> reader -> Prop)
    (body : S -> M (S + A)) :
  (forall s r, I s r ->
     runs (body s r) (fun x r' => match x with
                                  | inl s' => I s' r' /\ (measure s' r' < measure s r)%nat
                                  | inr a => Q a r'
                                  end)) ->
  forall fuel s r, I s r -> (measure s r < fuel)%nat -> runs (loop fuel body s r) Q.
Proof.
  intros Hbody. induction fuel as [|fuel IH]; intros s r HI Hf; [lia|]. specialize (Hbody s r HI).
  unfold loop. simpl. destruct (body s r) as [[x r']| | |]; simpl in *; [|done..]. destruct x as [s'|a]; [|done].
  apply IH; [apply Hbody|destruct Hbody; lia].
Qed.

(** ** The invariant

    [last_value_] is at a depth of at most [d]. *)

Definition comment_ok (s : list Z) : Prop := head s = None \/ head s = Some "/"%ch \/ quirk.

Record inv (d : nat) (r : reader) : Prop := {
  inv_begin : begin_ r = b;
  inv_end : end_ r = e;
  inv_current : b <= current_ r <= e;
  inv_last : last_value_end_ r = 0 \/
    (collect_comments_ r = true /\ b <= last_value_end_ r <= current_ r /\
     exists p, last_value_ r = Some p /\ (length p <= d)%nat /\ is_Some (value_at p (root_ r)));
  inv_comments : comment_ok (comments_before_ r)
}.

(** From [r] to [r'], with a result that says whether there was an error; what was in the
    tree at a depth of at most [d] still is. *)
Record went (i d : nat) (r : reader) (ok : bool) (r' : reader) : Prop := {
  went_inv : inv i r';
  went_nodes : nodes_ r' = nodes_ r;
  went_agree : agree d (root_ r) (root_ r');
  went_current : current_ r <= current_ r';
  went_depth : stack_depth_ r <= stack_depth_ r';
  went_errors : if ok then errors_ r' = errors_ r else errors_ r' <> []
}.

Lemma inv_le d d' r : (d <= d')%nat -> inv d r -> inv d' r.
Proof.
  intros Hd [? ? ? Hl ?]. constructor; try done. destruct Hl as [|(? & ? & p & ? & ? & ?)]; [by left|].
  right. split_and!; try lia; [done|]. exists p. split_and!; [done|lia|done].
Qed.
Lemma went_refl i d r : inv i r -> went i d r true r.
Proof. intros. constructor; [done|done|apply agree_refl|lia|lia|done]. Qed.
Lemma went_trans i i' d r1 r2 r3 a c : went i d r1 a r2 -> went i' d r2 c r3 -> went i' d r1 (a && c) r3.
Proof.
  intros [_ Hn Ha Hc Hd He] [Hi' Hn' Ha' Hc' Hd' He']. constructor; [done|congruence|by eapply agree_trans|lia|lia|].
  destruct a, c; simpl; congruence.
Qed.

(** *** Moving over the text *)

Definition walks (r r' : reader) : Prop := exists q, r' = with_current q r /\ current_ r <= q <= e.

Lemma inv_with_current d q r :
  inv d r -> b <= q <= e -> last_value_end_ r = 0 \/ last_value_end_ r <= q -> inv d (with_current q r).
Proof.
  intros [? ? ? Hl ?] Hq Hle. constructor; try done. simpl. destruct Hl as [|(? & ? & ?)]; [by left|]. destruct Hle as [|]; [by left|].
  right. split_and!; try lia; done.
Qed.
Lemma walks_inv d r r' : inv d r -> walks r r' -> inv d r'.
Proof.
  intros Hi (q & -> & Hq). pose proof (inv_current _ _ Hi). apply inv_with_current; [done|lia|].
  destruct (inv_last _ _ Hi) as [|(_ & ? & _)]; [by left|right; lia].
Qed.
Lemma walks_went i d r r' : inv i r -> walks r r' -> went i d r true r'.
Proof.
  intros Hi Hw. pose proof (walks_inv _ _ _ Hi Hw). destruct Hw as (q & -> & Hq).
  constructor; simpl; [done|done|apply agree_refl|lia|lia|done].
Qed.
Lemma walks_refl r : current_ r <= e -> walks r r.
Proof. exists (current_ r). split; [by destruct r|lia]. Qed.
Lemma walks_trans r1 r2 r3 : walks r1 r2 -> walks r2 r3 -> walks r1 r3.
Proof. intros (q & -> & Hq) (q' & -> & Hq'). exists q'. simpl in *. split; [done|lia]. Qed.

(** *** Chars *)

Lemma wp_load q (Q : Z -> Prop) : b <= q <= e -> (forall c, m !! q = Some c -> Q c) -> wp (load m q) Q.
Proof using Hm. intros Hq HQ. destruct (Hm q Hq) as [c Hc]. rewrite (load_Some _ _ _ Hc). by apply HQ. Qed.

Lemma document_range p q : b <= p <= q -> q <= e ->
  exists l, load_range m p q = Ok l /\ Zlen l = q - p /\ (p < q -> head l = m !! p).
Proof using Hm.
  intros Hp Hq. destruct (Z.eq_dec p q) as [<-|Hne].
  { exists []. unfold load_range. rewrite Z.sub_diag. split_and!; [done|done|lia]. }
  assert (exists l, holds m p l /\ Zlen l = q - p) as (l & Hl & Hn).
  { remember (Z.to_nat (q - p)) as n eqn:En. assert (q = p + Z.of_nat n) as -> by lia. clear En Hne. revert p Hp Hq.
    induction n as [|n IH]; intros p Hp Hq; [exists []; split; [done|rewrite Zlen_nil; lia]|].
    destruct (Hm p ltac:(lia)) as [c Hc]. destruct (IH (p + 1)) as (l & Hl & Hn); [lia..|].
    exists (c :: l). rewrite Zlen_cons. split; [done|lia]. }
  exists l. rewrite <-Hn at 1. replace q with (p + Zlen l) by lia. rewrite load_range_spec by done. split_and!; [done|lia|].
  intros _. destruct l as [|c l]; [rewrite Zlen_nil in Hn; lia|]. destruct Hl as [-> _]. done.
Qed.

Lemma get_next_char_runs i r : inv i r ->
  runs (get_next_char m r) (fun c r' =>
    (current_ r = e /\ c = 0 /\ r' = r) \/ (current_ r < e /\ m !! current_ r = Some c /\ r' = with_current (current_ r + 1) r)).
Proof using Hm.
  intros Hi. pose proof (inv_current _ _ Hi). unfold get_next_char. rewrite (inv_end _ _ Hi).
  destruct (Z.eqb_spec (current_ r) e); [simpl; auto|]. destruct (Hm (current_ r) ltac:(lia)) as [c Hc].
  rewrite (load_Some _ _ _ Hc). simpl. right. split_and!; [lia|done|done].
Qed.
Lemma next_char_walks i r (Q : Z -> reader -> Prop) : inv i r ->
  (forall c r', walks r r' -> (current_ r < e -> current_ r < current_ r') -> Q c r') -> runs (get_next_char m r) Q.
Proof using Hm.
  intros Hi HQ. pose proof (inv_current _ _ Hi). eapply runs_mono; [by eapply get_next_char_runs|].
  intros c r' [(Hc & -> & ->)|(Hc & _ & ->)]; apply HQ.
  - apply walks_refl. lia.
  - lia.
  - eexists. split; [done|lia].
  - simpl. lia.
Qed.

(** The loops over chars: each turn walks on. *)
Lemma walking_loop {S A} i (ok : S -> reader -> Prop) (Q : A -> reader -> Prop) (body : S -> M (S + A)) s r :
  (forall s r', inv i r' -> ok s r' ->
     runs (body s r') (fun x r'' => walks r' r'' /\
       match x with inl s' => ok s' r'' /\ current_ r' < current_ r'' | inr a => Q a r'' end)) ->
  inv i r -> ok s r ->
  runs (loop (span_fuel (current_ r) e) body s r) (fun a r' => walks r r' /\ Q a r').
Proof using.
  intros Hbody Hi Hok. pose proof (inv_current _ _ Hi).
  apply (runs_loop (fun s r' => walks r r' /\ ok s r') (fun _ r' => Z.to_nat (e - current_ r'))).
  - clear s Hok. intros s r' [Hw Hs]. eapply runs_mono; [apply Hbody; [by eapply walks_inv|done]|].
    intros x r'' [Hw' Hx]. pose proof (walks_trans _ _ _ Hw Hw') as Hw''. destruct x; [|done].
    destruct Hx as [Hx Hlt]. split; [done|]. pose proof (walks_inv _ _ _ Hi Hw'') as Hi''. pose proof (inv_current _ _ Hi''). lia.
  - split; [apply walks_refl; lia|done].
  - apply span_fuel_gt.
Qed.

Lemma skip_spaces_runs i r : inv i r -> runs (skip_spaces m r) (fun _ r' => walks r r').
Proof using Hm.
  intros Hi. pose proof (inv_current _ _ Hi) as Hc. unfold skip_spaces. rewrite (inv_end _ _ Hi).
  match goal with |- context [iterate ?fuel ?body ?s] => assert (wp (iterate fuel body s) (fun q => current_ r <= q <= e)) as Hw end.
  { apply (wp_iterate (fun q => current_ r <= q <= e) (fun q => Z.to_nat (e - q))); [|lia|apply span_fuel_gt].
    intros q Hq. destruct (Z.eqb_spec q e); simpl; [done|]. apply wp_bind, wp_load; [lia|]. intros c _.
    destruct (is_space c); simpl; lia. }
  apply wp_Ok_iff in Hw as (q & -> & Hq). simpl. by exists q.
Qed.

Lemma match_runs i r pattern : inv i r -> runs (match_ m pattern r) (fun _ r' => walks r r').
Proof using Hm.
  intros Hi. pose proof (inv_current _ _ Hi) as Hc. pose proof (Zlen_nonneg pattern). unfold match_. rewrite (inv_end _ _ Hi).
  destruct (Z.ltb_spec (e - current_ r) (Zlen pattern)); [apply walks_refl; lia|].
  destruct (document_range (current_ r) (current_ r + Zlen pattern)) as (l & -> & _); [lia..|]. simpl.
  case_bool_decide; simpl; [|apply walks_refl; lia]. eexists. split; [done|lia].
Qed.

Lemma more_runs i r (Q : bool -> reader -> Prop) : inv i r ->
  Q (negb (current_ r =? e)) r -> runs (get (fun r => negb (current_ r =? end_ r)) r) Q.
Proof using. intros Hi HQ. apply runs_get. by rewrite (inv_end _ _ Hi). Qed.

Lemma read_c_style_comment_runs i r : inv i r -> runs (read_c_style_comment m r) (fun _ r' => walks r r').
Proof using Hm.
  intros Hi. apply runs_bind, runs_get. rewrite (inv_end _ _ Hi). apply runs_bind. eapply runs_mono.
  { apply (walking_loop i (fun _ _ => True) (fun _ _ => True)); [|done|done]. clear r Hi. intros [] r Hi _.
    pose proof (inv_current _ _ Hi) as Hc. apply runs_bind, (more_runs i); [done|].
    destruct (Z.eqb_spec (current_ r) e); simpl; [split; [apply walks_refl; lia|done]|].
    apply runs_bind, (next_char_walks i); [done|]. intros c r' Hw Hlt. specialize (Hlt ltac:(lia)).
    destruct (c =? "*"%ch); [|simpl; auto]. apply runs_bind, runs_get, runs_bind, runs_lift, wp_load.
    { apply (inv_current i). by eapply walks_inv. }
    intros d _. destruct (d =? "/"%ch); simpl; auto. }
  intros [] r' [Hw _]. apply runs_bind, (next_char_walks i); [by eapply walks_inv|]. intros c r'' Hw' _. simpl.
  by eapply walks_trans.
Qed.

Lemma read_cpp_style_comment_runs i r : inv i r -> runs (read_cpp_style_comment m r) (fun _ r' => walks r r').
Proof using Hm.
  intros Hi. apply runs_bind, runs_get. rewrite (inv_end _ _ Hi). apply runs_bind. eapply runs_mono.
  { apply (walking_loop i (fun _ _ => True) (fun _ _ => True)); [|done|done]. clear r Hi. intros [] r Hi _.
    pose proof (inv_current _ _ Hi) as Hc. apply runs_bind, (more_runs i); [done|].
    destruct (Z.eqb_spec (current_ r) e); simpl; [split; [apply walks_refl; lia|done]|].
    apply runs_bind, (next_char_walks i); [done|]. intros c r' Hw Hlt. specialize (Hlt ltac:(lia)).
    destruct (c =? LF); [simpl; auto|]. destruct (c =? CR); [|simpl; auto].
    pose proof (walks_inv _ _ _ Hi Hw) as Hi'. apply runs_bind, (more_runs i); [done|].
    destruct (negb (current_ r' =? e)); [|simpl; auto]. apply runs_bind, runs_get, runs_bind, runs_lift, wp_load; [apply (inv_current i); done|].
    intros d _. destruct (d =? LF); [|simpl; auto]. apply runs_bind, (next_char_walks i); [done|]. intros c' r'' Hw' _. simpl.
    split; [by eapply walks_trans|done]. }
  intros [] r' [Hw _]. done.
Qed.

(** A string that ends with its quote takes a char at least. *)
Lemma read_quoted_runs i r quote : quote <> 0 -> quote <> BACKSLASH -> inv i r ->
  runs (read_quoted m quote r) (fun ok r' => walks r r' /\ (ok = true -> current_ r < current_ r')).
Proof using Hm.
  intros Hq0 Hqb Hi. apply runs_bind, runs_get. rewrite (inv_end _ _ Hi). apply runs_bind. eapply runs_mono.
  { apply (walking_loop i (fun c r' => c <> quote /\ current_ r <= current_ r') (fun c r' => c = quote -> current_ r < current_ r'));
      [|done|split; [done|lia]].
    clear Hi. intros c0 r1 Hi [Hc0 Hle].
    pose proof (inv_current _ _ Hi) as Hc. apply runs_bind, (more_runs i); [done|].
    destruct (Z.eqb_spec (current_ r1) e); simpl; [split; [apply walks_refl; lia|done]|].
    apply runs_bind, (next_char_walks i); [done|]. intros c r' Hw Hlt. specialize (Hlt ltac:(lia)).
    destruct (Z.eqb_spec c BACKSLASH) as [->|Hb].
    - apply runs_bind, (next_char_walks i); [by eapply walks_inv|]. intros c' r'' Hw' _. simpl.
      assert (current_ r' <= current_ r'') by (destruct Hw' as (q & -> & ?); simpl; lia).
      split_and!; [by eapply walks_trans|done|lia|lia].
    - destruct (Z.eqb_spec c quote) as [->|Hc']; simpl; split_and!; try done; lia. }
  intros c r' [Hw Hc]. simpl. split; [done|]. intros ?%Z.eqb_eq. auto.
Qed.

(** *** Numbers *)

Lemma number_char_wp p : b <= p <= e ->
  wp (number_char m e p) (fun '(current, c, p') => current = p /\ p <= p' <= e /\ (p' = p -> c = 0)).
Proof using Hm.
  intros Hp. unfold number_char. destruct (Z.ltb_spec p e); [|simpl; lia].
  apply wp_bind, wp_load; [lia|]. intros c _. simpl. lia.
Qed.

Lemma number_digits_wp p0 current c p : b <= p0 -> p0 <= current <= p -> p <= e ->
  wp (number_digits m e (current, c, p)) (fun '(current, c, p') => p0 <= current <= p' /\ p' <= e).
Proof using Hm.
  intros Hb Hc Hp. unfold number_digits. cbn [fst snd].
  apply (wp_iterate (fun '(q, c, p) => p0 <= q <= p /\ p <= e)
    (fun '(q, c, p) => (Z.to_nat (e - p) + (if is_digit c then 1 else 0))%nat)); [|lia|].
  - intros [[q c1] p1] [Hq Hp1]. destruct (is_digit c1) eqn:Ed; [|simpl; lia].
    apply wp_bind. eapply wp_mono; [|apply number_char_wp; lia]. intros [[q2 c2] p2] (-> & Hp2 & Hz). simpl.
    split; [lia|]. destruct (Z.eq_dec p2 p1) as [->|]; [rewrite (Hz eq_refl); simpl; lia|]. destruct (is_digit c2); lia.
  - unfold span_fuel. destruct (is_digit c); lia.
Qed.

Lemma read_number_runs i r : inv i r -> runs (read_number m r) (fun _ r' => walks r r').
Proof using Hm.
  intros Hi. pose proof (inv_current _ _ Hi) as Hc. unfold read_number. rewrite (inv_end _ _ Hi).
  match goal with |- runs ?x _ => assert (wp x (fun y => walks r y.2)) as Hw; [|destruct x as [[]| | |]; done] end.
  apply wp_bind. eapply wp_mono; [|apply (number_digits_wp (current_ r)); lia]. intros [[q1 c1] p1] [Hq1 Hp1].
  apply wp_bind, (wp_mono _ (fun '(q, c, p) => current_ r <= q <= p /\ p <= e)).
  2: { destruct (c1 =? "."%ch); [|simpl; lia]. apply wp_bind. eapply wp_mono; [|apply number_char_wp; lia].
       intros [[q c] p] (-> & Hp & _). apply number_digits_wp; lia. }
  intros [[q2 c2] p2] [Hq2 Hp2]. apply wp_bind, (wp_mono _ (fun '(q, c, p) => current_ r <= q <= p /\ p <= e)).
  2: { destruct ((c2 =? "e"%ch) || (c2 =? "E"%ch)); [|simpl; lia]. apply wp_bind.
       eapply wp_mono; [|apply number_char_wp; lia]. intros [[q c] p] (-> & Hp & _).
       apply wp_bind, (wp_mono _ (fun '(q, c, p) => current_ r <= q <= p /\ p <= e)).
       - intros [[q' c'] p'] [? ?]. apply number_digits_wp; lia.
       - destruct ((c =? "+"%ch) || (c =? "-"%ch)); [|simpl; lia].
         eapply wp_mono; [|apply number_char_wp; lia]. intros [[q' c'] p'] (-> & ? & _). lia. }
  intros [[q3 c3] p3] [Hq3 Hp3]. simpl. eexists. split; [done|lia].
Qed.

(** *** Comments *)

Lemma contains_new_line_wp p q : b <= p -> q <= e -> wp (contains_new_line m p q) (fun _ => True).
Proof using Hm.
  intros Hp Hq. apply (wp_iterate (fun p => b <= p) (fun p => Z.to_nat (q - p))); [|done|apply span_fuel_gt].
  intros p1 Hp1. destruct (Z.ltb_spec p1 q); [|done]. apply wp_bind, wp_load; [lia|]. intros c _.
  destruct ((c =? LF) || (c =? CR)); simpl; [done|lia].
Qed.

Lemma head_normalize_eol s c : head s = Some c -> c <> CR -> head (normalize_eol s) = Some c.
Proof using. destruct s as [|c' s]; [done|]. intros [= ->] Hc. simpl. by zfalse (c =? CR). Qed.

Lemma comment_ok_app s t : comment_ok s -> comment_ok t -> comment_ok (s ++ t).
Proof using. destruct s; [done|]. intros [Hs|Hs] _; [done|by right]. Qed.

(** A comment that may be set is set, unless it is the one that [set_comment] does not take. *)
Lemma set_comment_safe s placement v : comment_ok s ->
  match set_comment s placement v with Ok v' => value_ v' = value_ v | Throw x => thrown x | _ => False end.
Proof using.
  intros Hs. unfold set_comment, comment_info_set_comment. destruct v as [h c st l].
  assert ((default 0 (head s) =? 0) || (default 0 (head s) =? "/"%ch) = true \/ quirk) as [->|Hq].
  { destruct Hs as [->|[->|]]; auto. }
  - done.
  - destruct (_ || _); simpl; [done|]. by right.
Qed.


(** An update throws when its function does. *)
Lemma map_update_throws {K} (less : K -> K -> bool) k (f : value -> res value) c x (l : list (K * value)) :
  map_find less k l = Some c -> f c = Throw x -> map_update less k f l = Throw x.
Proof using.
  induction l as [|[k' w] l IH]; simpl; [done|]. destruct (less k' k); [by intros H1 H2; rewrite IH|].
  destruct (less k k'); [done|]. by intros [= ->] ->.
Qed.
Lemma update_at_throws p f x : forall root v, value_at p root = Some v -> f v = Throw x -> update_at p f root = Throw x.
Proof using.
  induction p as [|k p IH]; intros root v; simpl; [by intros [= ->]|].
  destruct (member k root) as [c|] eqn:Hc; [|done]. intros Hv Hf. specialize (IH c v Hv Hf).
  unfold member, update_member in *. destruct k, (value_ root); try done; by rewrite (map_update_throws _ _ _ c x).
Qed.

(** What runs on the value that a path designates. *)
Lemma update_at_runs p f (root v : value) (Q : value -> Prop) :
  value_at p root = Some v ->
  match f v with Ok v' => forall root', set_at p v' root = Ok root' -> Q root' | Throw x => thrown x | _ => False end ->
  match update_at p f root with Ok root' => Q root' | Throw x => thrown x | _ => False end.
Proof using.
  intros Hv. destruct (f v) as [v'|x| |] eqn:Hf; [|by rewrite (update_at_throws _ _ _ _ _ Hv Hf)|done..].
  rewrite (update_at_spec _ _ _ _ _ Hv Hf). destruct (set_at_total _ _ _ v' Hv) as (root' & Hs & _). rewrite Hs. auto.
Qed.

Lemma inv_with_root i root r : inv i r -> agree i (root_ r) root -> inv i (with_root root r).
Proof using.
  intros [? ? ? Hl ?] Ha. constructor; try done. destruct Hl as [|(? & ? & p & ? & ? & w & Hw)]; [by left|]. right.
  split; [done|]. split; [done|]. exists p. destruct (Ha p w Hw) as (w' & Hw' & _); [done|]. simpl. rewrite Hw'. eauto.
Qed.
Lemma with_root_went i r root : inv i r -> (forall d, agree d (root_ r) root) -> went i i r true (with_root root r).
Proof using. intros Hi Ha. constructor; simpl; try done; [by apply inv_with_root|lia..]. Qed.
Lemma agree_everywhere n x root root' v :
  set_at n x root = Ok root' -> value_at n root = Some v -> value_ x = value_ v -> forall d, agree d root root'.
Proof using.
  intros Hs Hv Hx d. apply agree_le with (length n + d)%nat; [lia|]. eapply set_at_agree; [done..|]. by apply agree_payload.
Qed.

Lemma set_comment_at n s placement root v :
  comment_ok s -> value_at n root = Some v ->
  match update_at n (set_comment s placement) root with
  | Ok root' => forall d, agree d root root'
  | Throw x => thrown x
  | _ => False
  end.
Proof using.
  intros Hs Hv. apply (update_at_runs n _ root v); [done|]. pose proof (set_comment_safe s placement v Hs) as Hc.
  destruct (set_comment s placement v); try done. intros root' Hr. by eapply agree_everywhere.
Qed.

Lemma add_comment_runs i r p q placement :
  inv i r -> collect_comments_ r = true -> b <= p -> p < q -> q <= e ->
  (exists c, m !! p = Some c /\ c <> CR /\ (c = "/"%ch \/ quirk)) ->
  (placement = comment_after_on_same_line -> last_value_end_ r <> 0) ->
  runs (add_comment m p q placement r) (fun _ r' => went i i r true r' /\ current_ r' = current_ r /\ last_value_end_ r' = last_value_end_ r).
Proof using Hm.
  intros Hi Hcol Hp Hpq Hq (c & Hc & Hcr & Hok) Hlast. unfold add_comment. rewrite Hcol. cbn [assert_that bind].
  destruct (document_range p q) as (l & -> & Hl & Hhd); [lia..|]. cbn [bind]. rewrite Hc in Hhd. specialize (Hhd Hpq).
  assert (comment_ok (normalize_eol l)) as Hn.
  { right. rewrite (head_normalize_eol _ c) by done. destruct Hok as [->|]; auto. }
  assert (went i i r true (with_comments (comments_before_ r ++ normalize_eol l) r)) as Hbefore.
  { constructor; simpl; try done; [|apply agree_refl|lia..]. destruct Hi as [? ? ? ? Hcom]. constructor; try done. by apply comment_ok_app. }
  destruct placement; [done| |done]. destruct (inv_last _ _ Hi) as [|(_ & Hle & n & Hn' & Hd & v & Hv)]; [by destruct Hlast|].
  rewrite Hn'. pose proof (set_comment_at n _ comment_after_on_same_line _ v Hn Hv) as Hu.
  destruct (update_at n _ (root_ r)) as [root'|x| |]; simpl; try done. split; [|done]. by apply with_root_went.
Qed.

(** The location before the current one holds what a comment starts with. *)
Definition at_comment (r : reader) : Prop :=
  b <= current_ r - 1 /\ (last_value_end_ r = 0 \/ last_value_end_ r <= current_ r - 1) /\
  exists c, m !! (current_ r - 1) = Some c /\ c <> CR /\ (c = "/"%ch \/ quirk).

Lemma read_comment_runs i r : inv i r -> at_comment r ->
  runs (read_comment m r) (fun _ r' => went i i r true r' /\ last_value_end_ r' = last_value_end_ r).
Proof using Hm.
  intros Hi (Hb & Hlast & Hc). pose proof (inv_current _ _ Hi) as Hcur. apply runs_bind, runs_get, runs_bind.
  apply (next_char_walks i); [done|]. intros c r1 Hw1 _. pose proof (walks_inv _ _ _ Hi Hw1) as Hi1.
  apply runs_bind, (runs_mono _ (fun _ r' => walks r r')).
  { destruct (c =? "*"%ch); [|destruct (c =? "/"%ch); [|done]].
    - eapply runs_mono; [by apply (read_c_style_comment_runs i)|]. intros. by eapply walks_trans.
    - eapply runs_mono; [by apply (read_cpp_style_comment_runs i)|]. intros. by eapply walks_trans. }
  intros ok r2 Hw2. pose proof (walks_inv _ _ _ Hi Hw2) as Hi2. pose proof (inv_current _ _ Hi2) as Hcur2.
  pose proof (walks_went i i _ _ Hi Hw2) as Hwent. destruct Hw2 as (q & -> & Hq). cbn [current_ with_current] in *.
  destruct ok; simpl; [|done]. apply runs_bind, runs_get. simpl. destruct (collect_comments_ r) eqn:Hcol; [|done].
  apply runs_bind, runs_get, runs_bind. simpl.
  apply (runs_mono _ (fun same r' => r' = with_current q r /\ (same = true -> last_value_end_ r <> 0))).
  { destruct (Z.eqb_spec (last_value_end_ r) 0); simpl; [done|]. apply runs_bind, runs_lift.
    eapply wp_mono; [|apply contains_new_line_wp]; [by simpl| |lia]. destruct (inv_last _ _ Hi) as [|(_ & ? & _)]; [done|lia]. }
  intros same r3 [-> Hsame]. apply runs_bind, runs_get, runs_bind. simpl.
  apply (runs_mono _ (fun single r' => r' = with_current q r /\ (single = true -> last_value_end_ r <> 0))).
  { destruct same; simpl; [|done]. destruct (c =? "*"%ch); simpl; [|auto]. apply runs_bind, runs_lift.
    eapply wp_mono; [|apply contains_new_line_wp; lia]. intros ? _. simpl. auto. }
  intros single r4 [-> Hsingle]. apply runs_bind. eapply runs_mono.
  { apply (add_comment_runs i); [done|done|lia|lia|lia|done|]. destruct single; [auto|done]. }
  intros [] r5 (Hwent' & _ & Hl). simpl. split; [|done]. change true with (true && true). by eapply went_trans.
Qed.

(** *** Tokens *)

Definition is_mark (ty : token_type) : Prop := ty = tt_array_separator \/ ty = tt_object_end \/ ty = tt_array_end.

(** A token that was just read. *)
Record tok (t : token) (r : reader) : Prop := {
  tok_start : b <= token_start_ t <= token_end_ t;
  tok_end : token_end_ t = current_ r;
  tok_last : last_value_end_ r = 0 \/ last_value_end_ r <= token_start_ t;
  tok_progress : token_type_ t <> tt_end_of_stream -> token_start_ t < token_end_ t;
  tok_string : token_type_ t = tt_string -> token_start_ t + 2 <= token_end_ t;
  tok_mark : is_mark (token_type_ t) -> token_end_ t = token_start_ t + 1
}.

Definition rest_ok (i : nat) (c : Z) (r : reader) (x : token_type * bool) (r' : reader) : Prop :=
  went i i r true r' /\ last_value_end_ r' = last_value_end_ r /\ (x = (tt_string, true) -> current_ r < current_ r') /\
  (is_mark x.1 -> current_ r' = current_ r) /\ (c = 0 -> x = (tt_end_of_stream, true)).

Lemma rest_ret i c r x : inv i r -> x.1 <> tt_string -> (c = 0 -> x = (tt_end_of_stream, true)) -> rest_ok i c r x r.
Proof using. intros Hi Hx Hc. split_and!; [by apply went_refl|done|by intros ->|done|done]. Qed.
Lemma rest_went i c r x r' :
  went i i r true r' -> last_value_end_ r' = last_value_end_ r -> x.1 <> tt_string -> ~ is_mark x.1 -> c <> 0 -> rest_ok i c r x r'.
Proof using. intros Hw Hl Hs Hx Hc. split_and!; [done..|by intros ->|done|done]. Qed.
Lemma rest_walks i c r x r' :
  inv i r -> walks r r' -> x.1 <> tt_string -> ~ is_mark x.1 -> c <> 0 -> rest_ok i c r x r'.
Proof using. intros Hi Hw. apply rest_went; [by apply walks_went|]. by destruct Hw as (q & -> & _). Qed.

Lemma not_mark ty : bool_decide (ty = tt_array_separator) || bool_decide (ty = tt_object_end) || bool_decide (ty = tt_array_end) = false -> ~ is_mark ty.
Proof using. intros H [->|[->| ->]]; done. Qed.

Lemma read_token_rest_runs i c r :
  inv i r -> (c <> 0 -> m !! (current_ r - 1) = Some c /\ b <= current_ r - 1) ->
  last_value_end_ r = 0 \/ last_value_end_ r <= current_ r - 1 \/ c = 0 ->
  runs (read_token_rest m features_ c r) (rest_ok i c r).
Proof using Hm.
  intros Hi Hc Hlast. unfold read_token_rest.
  assert (c <> 0 -> c <> CR -> c = "/"%ch \/ quirk ->
    runs ((let* ok := read_comment m in ret (tt_comment, ok)) r) (rest_ok i c r)) as Hcomment.
  { intros Hc0 Hcr Hq. destruct (Hc Hc0) as [Hc1 Hb1]. apply runs_bind. eapply runs_mono.
    { apply (read_comment_runs i); [done|]. split_and!; [done|destruct Hlast as [|[|]]; auto; lia|eauto]. }
    intros ok r' [Hw Hl]. apply rest_went; try done. by apply not_mark. }
  assert (forall quote, c <> 0 -> quote <> 0 -> quote <> BACKSLASH ->
    runs ((let* ok := read_quoted m quote in ret (tt_string, ok)) r) (rest_ok i c r)) as Hquoted.
  { intros quote Hc0 Hq0 Hqb. apply runs_bind. eapply runs_mono; [by apply (read_quoted_runs i)|].
    intros ok r' [Hw Hok]. split_and!; [by apply walks_went|by destruct Hw as (q & -> & _)| | |done].
    - intros [= ->]. auto.
    - intros Hx. by eapply not_mark in Hx. }
  assert (forall ty pattern, c <> 0 -> ty <> tt_string -> ~ is_mark ty ->
    runs ((let* ok := match_ m pattern in ret (ty, ok)) r) (rest_ok i c r)) as Hmatch.
  { intros ty pattern Hc0 Hty Hnm. apply runs_bind. eapply runs_mono; [by apply (match_runs i)|].
    intros ok r' Hw. by apply rest_walks. }
  destruct (Z.eqb_spec c "{"%ch) as [->|]; [by apply rest_ret|].
  destruct (Z.eqb_spec c "}"%ch) as [->|]; [by apply rest_ret|].
  destruct (Z.eqb_spec c "["%ch) as [->|]; [by apply rest_ret|].
  destruct (Z.eqb_spec c "]"%ch) as [->|]; [by apply rest_ret|].
  destruct (Z.eqb_spec c DQUOTE) as [->|]; [by apply Hquoted|].
  destruct (Z.eqb_spec c "'"%ch) as [->|].
  { unfold quirk in Hcomment. destruct (ours_ features_) as [x|]; [|by apply rest_ret].
    destruct (allow_single_quotes_ x); [by apply Hquoted|]. apply Hcomment; auto; done. }
  destruct (Z.eqb_spec c "/"%ch) as [->|]; [apply Hcomment; auto; done|].
  destruct (is_digit c || (c =? "-"%ch)) eqn:Ed.
  { apply runs_bind. eapply runs_mono; [by apply (read_number_runs i)|]. intros [] r' Hw.
    apply rest_walks; try done; [by apply not_mark|]. intros ->. done. }
  destruct (Z.eqb_spec c "t"%ch) as [->|]; [apply Hmatch; try done; by apply not_mark|].
  destruct (Z.eqb_spec c "f"%ch) as [->|]; [apply Hmatch; try done; by apply not_mark|].
  destruct (Z.eqb_spec c "n"%ch) as [->|]; [apply Hmatch; try done; by apply not_mark|].
  destruct (Z.eqb_spec c ","%ch) as [->|]; [by apply rest_ret|].
  destruct (Z.eqb_spec c ":"%ch) as [->|]; [by apply rest_ret|].
  destruct (Z.eqb_spec c 0) as [->|]; by apply rest_ret.
Qed.

Definition reads_token (i : nat) (r : reader) (t : token) (r' : reader) : Prop :=
  went i i r true r' /\ tok t r' /\ current_ r <= token_start_ t.

Lemma read_token_runs i r : inv i r -> runs (read_token m features_ r) (reads_token i r).
Proof using Hm.
  intros Hi. apply runs_bind. eapply runs_mono; [by apply (skip_spaces_runs i)|]. intros [] r1 Hw1.
  pose proof (walks_inv _ _ _ Hi Hw1) as Hi1. apply runs_bind, runs_get, runs_bind.
  eapply runs_mono; [by apply (get_next_char_runs i)|]. intros c r2 Hc. pose proof (inv_current _ _ Hi1) as Hcur1.
  assert (walks r1 r2) as Hw2.
  { destruct Hc as [(_ & _ & ->)|(Hlt & _ & ->)]; [apply walks_refl; lia|]. eexists. split; [done|lia]. }
  pose proof (walks_inv _ _ _ Hi1 Hw2) as Hi2.
  assert (last_value_end_ r2 = 0 \/ last_value_end_ r2 <= current_ r1) as Hl2.
  { destruct (inv_last _ _ Hi1) as [Hl|(_ & Hl & _)]; destruct Hw2 as (q & -> & _); simpl; [by left|right; lia]. }
  apply runs_bind. eapply runs_mono.
  { apply (read_token_rest_runs i c r2); [done|..].
    - destruct Hc as [(_ & -> & _)|(Hlt & Hc & ->)]; [done|]. simpl. replace (current_ r1 + 1 - 1) with (current_ r1) by lia. auto with lia.
    - destruct Hc as [(_ & -> & _)|(Hlt & Hc & ->)]; [auto|]. simpl in *. lia. }
  intros [ty ok] r3 (Hwent & Hl & Hstr & Hmark & H0). apply runs_bind, runs_get, runs_ret.
  pose proof (went_current _ _ _ _ _ Hwent) as Hcur3.
  assert (current_ r1 <= current_ r2) as Hcur2 by (destruct Hw2 as (q & -> & ?); simpl; lia).
  assert (c <> 0 -> current_ r2 = current_ r1 + 1) as Hstep.
  { destruct Hc as [(_ & -> & _)|(_ & _ & ->)]; [done|]. done. }
  assert (current_ r <= current_ r1) as Hcur0 by (destruct Hw1 as (q & -> & ?); simpl; lia).
  split_and!; [|constructor; cbn [token_type_ token_start_ token_end_]|done].
  - change true with (true && (true && true)). eapply went_trans; [by apply walks_went|]. eapply went_trans; [by apply walks_went|done].
  - lia.
  - done.
  - destruct Hl2; [left; congruence|right; lia].
  - intros Hty. assert (c <> 0) as Hc0 by (intros ->; specialize (H0 eq_refl); by injection H0 as -> ->). specialize (Hstep Hc0). lia.
  - destruct ok; [|done]. intros ->. specialize (Hstr eq_refl).
    assert (c <> 0) as Hc0 by (intros ->; by specialize (H0 eq_refl)). specialize (Hstep Hc0). lia.
  - destruct ok; [|by intros Hx; eapply not_mark in Hx]. intros Hx. specialize (Hmark Hx). simpl in Hmark.
    assert (c <> 0) as Hc0 by (intros ->; specialize (H0 eq_refl); injection H0 as ->; by eapply not_mark in Hx).
    specialize (Hstep Hc0). lia.
Qed.

Lemma reads_token_after i r r1 r2 t : went i i r true r1 -> reads_token i r1 t r2 -> reads_token i r t r2.
Proof using.
  intros Hw (Hw' & Ht & Hle). pose proof (went_current _ _ _ _ _ Hw). split_and!; [|done|lia].
  change true with (true && true). by eapply went_trans.
Qed.
Lemma reads_token_moves i r t r' : reads_token i r t r' -> token_type_ t <> tt_end_of_stream -> current_ r < current_ r'.
Proof using. intros (_ & Ht & Hle) Hty. pose proof (tok_progress _ _ Ht Hty). pose proof (tok_end _ _ Ht). lia. Qed.

(** A loop that reads tokens, each of which is not the end. *)
Lemma token_loop {A} i (Q : A -> reader -> Prop) (body : unit -> M (unit + A)) r :
  (forall r', went i i r true r' -> runs (body tt r') (fun x r'' =>
     match x with inl _ => went i i r true r'' /\ current_ r' < current_ r'' | inr a => Q a r'' end)) ->
  inv i r -> runs ((let* fuel := get (fun r => S (span_fuel (current_ r) (end_ r))) in loop fuel body tt) r) Q.
Proof using.
  intros Hbody Hi. apply runs_bind, runs_get.
  apply (runs_loop (fun _ r' => went i i r true r') (fun _ r' => Z.to_nat (e - current_ r'))).
  - intros [] r' Hw. eapply runs_mono; [by apply Hbody|]. intros [[]|a] r''; [|done]. intros [Hw' Hlt]. split; [done|].
    pose proof (inv_current _ _ (went_inv _ _ _ _ _ Hw')). lia.
  - by apply went_refl.
  - rewrite (inv_end _ _ Hi). pose proof (span_fuel_gt (current_ r) e). lia.
Qed.

Lemma read_tokens_past_comments_runs i r : inv i r -> runs (read_tokens_past_comments m features_ r) (reads_token i r).
Proof using Hm.
  intros Hi. apply (token_loop i); [|done]. intros r' Hw. apply runs_bind. pose proof (went_inv _ _ _ _ _ Hw) as Hi'.
  eapply runs_mono; [by apply (read_token_runs i)|]. intros t r'' Ht.
  case_bool_decide as Hty; simpl; [|by eapply reads_token_after]. split.
  - change true with (true && true). eapply went_trans; [done|apply Ht].
  - eapply reads_token_moves; [done|]. by rewrite Hty.
Qed.
Lemma skip_comment_tokens_runs i r : inv i r -> runs (skip_comment_tokens m features_ r) (reads_token i r).
Proof using Hm.
  intros Hi. unfold skip_comment_tokens. destruct (allow_comments_ features_);
    [by apply read_tokens_past_comments_runs|by apply read_token_runs].
Qed.

(** *** Errors *)

Definition fails (r r' : reader) : Prop := exists x, r' = with_errors (errors_ r ++ [x]) r.

Lemma fails_went i r r' : inv i r -> fails r r' -> went i i r false r'.
Proof using.
  intros Hi (x & ->). constructor; simpl; [|done|apply agree_refl|lia|lia|by destruct (errors_ r)].
  destruct Hi as [? ? ? Hl ?]. by constructor.
Qed.
Lemma add_error_runs i r message t extra : inv i r ->
  runs (add_error message t extra r) (fun ok r' => ok = false /\ went i i r false r').
Proof using. intros Hi. simpl. split; [done|]. apply fails_went; [done|]. by eexists. Qed.

Lemma recover_from_error_runs i r ty : inv i r ->
  runs (recover_from_error m features_ ty r) (fun ok r' => ok = false /\ went i i r true r').
Proof using Hm.
  intros Hi. unfold recover_from_error. apply runs_bind, runs_get.
  assert (runs ((let* fuel := get (fun r => S (span_fuel (current_ r) (end_ r))) in
    loop fuel (recover_turn m features_ ty) tt) r) (fun _ r' => went i i r true r')) as Hloop.
  { apply (token_loop i); [|done]. intros r' Hw. apply runs_bind. pose proof (went_inv _ _ _ _ _ Hw) as Hi'.
    eapply runs_mono; [by apply (read_token_runs i)|]. intros t r'' Ht.
    assert (went i i r true r'') as Hw' by (change true with (true && true); eapply went_trans; [done|apply Ht]).
    destruct (bool_decide (token_type_ t = ty)); simpl; [done|]. case_bool_decide as Hty; simpl; [done|].
    split; [done|]. by eapply reads_token_moves. }
  unfold runs, mbind, get, put in *. simpl in *.
  destruct (loop _ (recover_turn m features_ ty) tt r) as [[[] r']| | |]; simpl; try done.
  split; [done|]. pose proof (went_errors _ _ _ _ _ Hloop) as He. rewrite He, take_ge by lia. rewrite <-He.
  by destruct r', Hloop.
Qed.
Lemma add_error_and_recover_runs i r message t ty : inv i r ->
  runs (add_error_and_recover m features_ message t ty r) (fun ok r' => ok = false /\ went i i r false r').
Proof using Hm.
  intros Hi. apply runs_bind. eapply runs_mono; [by apply (add_error_runs i)|]. intros ok r1 [-> Hw].
  eapply runs_mono; [apply (recover_from_error_runs i), (went_inv _ _ _ _ _ Hw)|]. intros ok r2 [-> Hw']. split; [done|].
  change false with (false && true). by eapply went_trans.
Qed.

(** *** Decoding *)

(** A decoder leaves the reader as it is, or reports an error. *)
Definition decodes {A} (r : reader) (P : A -> Prop) (x : option A) (r' : reader) : Prop :=
  match x with Some a => r' = r /\ P a | None => fails r r' end.

Lemma failed_runs {A} r (P : A -> Prop) message t extra : runs (failed message t extra r) (decodes r P).
Proof using. simpl. by eexists. Qed.

(** Numbers as the reader makes them. *)
Definition read_number_value (v : value) : Prop :=
  match value_ v with
  | int_ n => min_int64 <= n <= max_int64
  | uint_ n => 0 <= n <= max_uint64
  | real_ _ => True
  | _ => False
  end.

Lemma decode_double_runs t r : b <= token_start_ t <= token_end_ t -> token_end_ t <= e ->
  runs (decode_double sscanf_lf m t r) (decodes r read_number_value).
Proof using Hm Hlen.
  intros Hs He. unfold decode_double. rewrite i32_fits by lia. zfalse (token_end_ t - token_start_ t <? 0).
  apply runs_bind, runs_lift. destruct (document_range (token_start_ t) (token_end_ t)) as (l & -> & _); [lia..|]. simpl.
  destruct (sscanf_lf (c_str l)); [done|apply failed_runs].
Qed.

Lemma decode_digits_wp limit stop a : b <= a -> stop <= e ->
  wp (decode_digits m limit stop (a, 0)) (fun x => match x with Some v => 0 <= v <= max_uint64 | None => True end).
Proof using Hm.
  intros Ha Hs. apply (wp_iterate (fun '(q, v) => b <= q /\ 0 <= v <= max_uint64) (fun '(q, _) => Z.to_nat (stop - q))).
  - intros [q v] [Hq Hv]. destruct (Z.ltb_spec q stop); [|done]. apply wp_bind, wp_load; [lia|]. intros c _.
    destruct ((c <? "0"%ch) || ("9"%ch <? c)); [done|]. cbv zeta.
    match goal with |- context [if ?x then _ else _] => destruct x end; [done|]. simpl.
    pose proof (u64_range (u64 (v * 10) + u32 (c - "0"%ch))). unfold max_uint64. lia.
  - unfold max_uint64. lia.
  - apply span_fuel_gt.
Qed.

Lemma i64_range x : - 2 ^ 63 <= i64 x < 2 ^ 63.
Proof using. unfold i64. pose proof (Z.mod_pos_bound (x + 2 ^ 63) (2 ^ 64) ltac:(lia)). lia. Qed.

Lemma decode_number_runs t r : b <= token_start_ t < token_end_ t -> token_end_ t <= e ->
  runs (decode_number negate_min sscanf_lf m t r) (decodes r read_number_value).
Proof using Hm Hlen Hneg.
  intros Hs He. unfold decode_number. apply runs_bind, runs_lift, wp_load; [lia|]. intros c _.
  apply runs_bind, runs_lift, (wp_mono _ (fun _ => True)).
  2: { destruct (c =? "-"%ch); [|done]. unfold negate. rewrite Hneg. by destruct (min_int64 =? _). }
  intros limit _. apply runs_bind, runs_lift. eapply wp_mono; [|apply decode_digits_wp; destruct (c =? "-"%ch); lia].
  intros [v|] Hv; [|apply decode_double_runs; lia]. destruct (c =? "-"%ch).
  - unfold negate. rewrite Hneg. pose proof (i64_range v). unfold min_int64, max_int64.
    destruct (Z.eqb_spec (i64 v) (- 2 ^ 63)); simpl; unfold read_number_value; simpl; unfold min_int64, max_int64; split; try done; lia.
  - pose proof (i64_range v). destruct (v <=? u64 max_int); simpl; unfold read_number_value; simpl; unfold min_int64, max_int64; split; try done; lia.
Qed.

Lemma as_string_number v : read_number_value v -> exists s, as_string negate_min printf_17g v = Ok s /\ Zlen s < 2 ^ 30.
Proof using Hneg Hprintf sscanf_lf.
  unfold read_number_value, as_string. destruct (value_ v) eqn:E; try done; intros Hv.
  - destruct (largest_int_to_string_spec negate_min sscanf_lf _ Hv (or_intror Hneg)) as (s & -> & _ & Hs). exists s. split; [done|lia].
  - destruct (largest_uint_to_string_spec _ Hv) as (s & -> & _ & _ & _ & Hs). exists s. split; [done|lia].
  - assert (exists s, double_to_string printf_17g d = Ok s) as [s Hs]; [|exists s; split; [done|apply double_length in Hs; lia]].
    unfold double_to_string. assert (Zlen (if is_finite d then printf_17g d else if negb (SFeqb d d) then str "null"
      else if SFltb d (S754_zero false) then str "-1e+9999" else str "1e+9999") <= 32) as Hp.
    { repeat case_match; [apply Hprintf|by vm_compute..]. }
    rewrite (proj2 (Z.ltb_ge _ _) Hp). by eexists.
Qed.

(** *** Strings *)

Lemma escape_digits_runs t current r : b <= current -> current + 4 <= e ->
  runs (loop 5 (escape_digit m t) (0, current, 0) r) (decodes r (fun x => x.1 = current + 4)).
Proof using Hm.
  intros Hb He. apply (runs_loop (fun '(k, q, _) r' => r' = r /\ q = current + k /\ 0 <= k <= 4) (fun '(k, _, _) _ => Z.to_nat (4 - k)));
    [|split; [done|lia]|simpl; lia].
  intros [[k q] u] r' (-> & -> & Hk). unfold escape_digit. destruct (Z.ltb_spec k 4); [|simpl; split; [done|lia]].
  apply runs_bind, runs_lift, wp_load; [lia|]. intros c _.
  assert (forall u', runs (ret (A := Z * Z * Z + option (Z * Z)) (inl (k + 1, current + k + 1, u')) r) (fun x r' =>
    match x with
    | inl s => (let '(k, q, _) := s in fun r' => r' = r /\ q = current + k /\ 0 <= k <= 4) r' /\
        ((let '(k, _, _) := s in fun _ : reader => Z.to_nat (4 - k)) r' < Z.to_nat (4 - k))%nat
    | inr a => decodes r (fun x => x.1 = current + 4) a r'
    end)) as Hnext by (intros u'; simpl; split_and!; [done|lia..]).
  destruct (is_digit c); [apply Hnext|]. destruct (("a"%ch <=? c) && (c <=? "f"%ch)); [apply Hnext|].
  destruct (("A"%ch <=? c) && (c <=? "F"%ch)); [apply Hnext|]. apply runs_bind. simpl. by eexists.
Qed.

Lemma decode_escape_runs t current stop r : b <= current -> stop <= e ->
  runs (decode_unicode_escape_sequence m t current stop r) (decodes r (fun x => x.1 = current + 4 /\ current + 4 <= stop)).
Proof using Hm.
  intros Hb He. unfold decode_unicode_escape_sequence. destruct (Z.ltb_spec (stop - current) 4); [apply failed_runs|].
  eapply runs_mono; [apply escape_digits_runs; lia|]. intros [x|] r'; [|done]. intros [-> Hx]. split; [done|lia].
Qed.

Lemma decode_codepoint_runs t current stop r : b <= current -> stop <= e ->
  runs (decode_unicode_codepoint m t current stop r) (decodes r (fun x => current + 4 <= x.1 <= stop)).
Proof using Hm.
  intros Hb He. unfold decode_unicode_codepoint. apply runs_bind. eapply runs_mono; [by apply decode_escape_runs|].
  intros [[q u]|] r'; [|done]. intros [-> [Hq Hs]]. simpl in Hq. subst q.
  destruct (_ && _); [|simpl; split; [done|lia]]. destruct (Z.ltb_spec (stop - (current + 4)) 6); [apply failed_runs|].
  apply runs_bind, runs_lift, wp_load; [lia|]. intros c _. destruct (c =? BACKSLASH); [|apply failed_runs].
  apply runs_bind, runs_lift, wp_load; [lia|]. intros c' _. destruct (c' =? "u"%ch); [|apply failed_runs].
  apply runs_bind. eapply runs_mono; [apply decode_escape_runs; lia|]. intros [[q v]|] r'; [|done].
  intros [-> [Hq Hs']]. simpl in *. split; [done|lia].
Qed.

Lemma codepoint_to_utf8_length cp : Zlen (codepoint_to_utf8 cp) <= 4.
Proof using. unfold codepoint_to_utf8. repeat case_match; vm_compute; congruence. Qed.

Lemma decode_string_runs t r :
  b <= token_start_ t -> token_start_ t + 2 <= token_end_ t -> token_end_ t <= e ->
  runs (decode_string m t r) (decodes r (fun s => Zlen s < 2 ^ 30)).
Proof using Hm Hlen.
  intros Hb Hs He. unfold decode_string. set (stop := token_end_ t - 1).
  apply (runs_loop (fun '(q, d) r' => r' = r /\ token_start_ t + 1 <= q <= stop /\ Zlen d <= q - token_start_ t)
    (fun '(q, _) _ => Z.to_nat (stop - q))); [|split_and!; [done|lia|lia|rewrite Zlen_nil; lia]|unfold span_fuel; lia].
  intros [q d] r' (-> & Hq & Hd). unfold string_turn. destruct (Z.eqb_spec q stop); simpl negb; cbv iota; [simpl; split; [done|lia]|].
  apply runs_bind, runs_lift, wp_load; [lia|]. intros c _. destruct (c =? DQUOTE); [simpl; split; [done|lia]|].
  destruct (c =? BACKSLASH); [|simpl; rewrite Zlen_app; change (Zlen [c]) with 1; split_and!; try done; lia].
  destruct (Z.eqb_spec (q + 1) stop); [apply runs_bind; simpl; by eexists|].
  apply runs_bind, runs_lift, wp_load; [lia|]. intros c' _. destruct (simple_escape c') as [x|].
  { simpl. rewrite Zlen_app. change (Zlen [x]) with 1. split_and!; try done; lia. }
  destruct (c' =? "u"%ch); [|apply runs_bind; simpl; by eexists].
  apply runs_bind. eapply runs_mono; [apply decode_codepoint_runs; lia|]. intros [[q' u]|] r'; [|done].
  intros [-> Hq']. simpl in *. rewrite Zlen_app. pose proof (codepoint_to_utf8_length u). split_and!; try done; lia.
Qed.

(** ** Values *)

(** The node on top designates a value of this type. *)
Definition here (n : list key) (ty : value_type) (r : reader) : Prop :=
  exists rest v, nodes_ r = n :: rest /\ value_at n (root_ r) = Some v /\ type v = ty.
Definition alive (n : list key) (r : reader) : Prop := exists ty, here n ty r.

Lemma here_went i n ty r ok r' : here n ty r -> went i (S (length n)) r ok r' -> here n ty r'.
Proof using.
  intros (rest & v & Hn & Hv & Ht) Hw. destruct (went_agree _ _ _ _ _ Hw n v Hv) as (w & Hw' & Hty); [lia|].
  exists rest, w. rewrite (went_nodes _ _ _ _ _ Hw), Hty by lia. done.
Qed.
Lemma alive_went i n r ok r' : alive n r -> went i (length n) r ok r' -> alive n r'.
Proof using.
  intros (ty & rest & v & Hn & Hv & Ht) Hw. destruct (went_agree _ _ _ _ _ Hw n v Hv) as (w & Hw' & _); [lia|].
  exists (type w), rest, w. by rewrite (went_nodes _ _ _ _ _ Hw).
Qed.
Lemma went_shallow i d d' r ok r' : (d <= d')%nat -> went i d' r ok r' -> went i d r ok r'.
Proof using. intros Hd [? ? ? ? ? ?]. constructor; try done. by eapply agree_le. Qed.
Lemma went_le i i' d r ok r' : (i <= i')%nat -> went i d r ok r' -> went i' d r ok r'.
Proof using. intros Hi [? ? ? ? ? ?]. constructor; try done. by eapply inv_le. Qed.

(** What replaces the current value. *)
Lemma replace_runs n r f g ty :
  alive n r -> inv (length n) r -> (forall v, f v = Ok (g v)) -> (forall v, type (g v) = ty) ->
  runs (on_current_value f r) (fun _ r' => went (length n) (length n) r true r' /\ here n ty r' /\ current_ r' = current_ r).
Proof using.
  intros (ty0 & rest & v & Hn & Hv & _) Hi Hf Hg. unfold on_current_value. rewrite Hn, (update_at_spec n f _ v (g v)) by done.
  destruct (set_at_total n _ v (g v) Hv) as (root & Hs & Hx). rewrite Hs. simpl.
  assert (agree (length n) (root_ r) root) as Ha.
  { rewrite <-(Nat.add_0_r (length n)). eapply set_at_agree; [done..|apply agree_0]. }
  split_and!; [|by exists rest, (g v)|done]. constructor; simpl; try done; [by apply inv_with_root|lia..].
Qed.

(** What keeps the payload of the current value, or adds to it. *)
Lemma keep_runs i n ty r f :
  here n ty r -> inv i r ->
  (forall v, type v = ty -> exists v', f v = Ok v' /\ type v' = ty /\ forall d, agree d v v') ->
  runs (on_current_value f r) (fun _ r' => (forall d, went i d r true r') /\ current_ r' = current_ r /\
    exists rest v v', nodes_ r = n :: rest /\ nodes_ r' = n :: rest /\ type v = ty /\ f v = Ok v' /\ value_at n (root_ r') = Some v').
Proof using.
  intros (rest & v & Hn & Hv & Ht) Hi Hf. destruct (Hf v Ht) as (v' & Hv' & Hty & Ha). unfold on_current_value.
  rewrite Hn, (update_at_spec n f _ v v') by done. destruct (set_at_total n _ v v' Hv) as (root & Hs & Hx). rewrite Hs. simpl.
  assert (forall d, agree d (root_ r) root) as Hag.
  { intros d. apply agree_le with (length n + d)%nat; [lia|]. by eapply set_at_agree. }
  split_and!; [|done|by exists rest, v, v']. intros d. constructor; simpl; try done; [by apply inv_with_root|lia..].
Qed.

Lemma with_nodes_inv i l r : inv i r -> inv i (with_nodes l r).
Proof using. intros [? ? ? ? ?]. by constructor. Qed.

(** The depth of calls that a state has room for. *)
Definition room (r : reader) : nat := Z.to_nat (Z.min (e - current_ r) (stack_limit features_ - stack_depth_ r)).
Lemma room_went i d r ok r' : went i d r ok r' -> (room r' <= room r)%nat.
Proof using. intros [_ _ _ ? ? _]. unfold room. lia. Qed.

Definition reads_values (fuel : nat) (rv : M bool) : Prop := forall r n,
  alive n r -> inv (length n) r -> (room r < fuel)%nat -> runs (rv r) (went (length n) (length n) r).

Section members.
Context (fuel : nat) (rv : M bool) (Hrv : reads_values fuel rv) (n : list key).
#[local] Abbreviation d := (S (length n)).

Lemma read_member_runs demand k ty r :
  here n ty r -> inv d r -> (room r < fuel)%nat ->
  (forall v, type v = ty -> exists v', demand v = Ok v' /\ type v' = ty /\ (forall d, agree d v v') /\ is_Some (member k v')) ->
  runs (read_member rv demand k r) (went d d r).
Proof using Hrv.
  intros Hh Hi Hroom Hd. apply runs_bind. eapply runs_mono.
  { apply (keep_runs d n ty); [done..|]. intros v Hv. destruct (Hd v Hv) as (v' & ? & ? & ? & _). by exists v'. }
  intros [] r1 (Hw & _ & rest & v & v' & Hn & Hn1 & Ht & Hv & Hat). destruct (Hd v Ht) as (v2 & Hv2 & _ & _ & w & Hk).
  rewrite Hv2 in Hv. injection Hv as ->. apply runs_bind. unfold push_node. rewrite Hn1. simpl. apply runs_bind.
  set (r2 := with_nodes _ r1). pose proof (went_inv _ _ _ _ _ (Hw d)) as Hi1.
  assert (length (n ++ [k]) = d) as Hlk by (rewrite length_app; simpl; lia).
  eapply runs_mono.
  { apply (Hrv r2 (n ++ [k])); [|rewrite Hlk; by apply with_nodes_inv|pose proof (room_went _ _ _ _ _ (Hw d)); unfold room in *; simpl; lia].
    exists (type w), (n :: rest), w. simpl. by rewrite value_at_snoc, Hat. }
  intros ok r3 Hw3. rewrite Hlk in Hw3. apply runs_bind, runs_put, runs_ret.
  pose proof (went_nodes _ _ _ _ _ Hw3) as Hn3. simpl in Hn3. destruct Hw3 as [Hi3 _ Ha3 Hc3 Hd3 He3].
  destruct (Hw d) as [_ _ Ha _ Hdep He]. pose proof (went_current _ _ _ _ _ (Hw d)). simpl in *.
  constructor; simpl; [by apply with_nodes_inv|by rewrite Hn3|by eapply agree_trans|lia|lia|].
  destruct ok; [by rewrite He3|done].
Qed.

(** One turn of the loop over the members. *)
Definition turns {S} (ok : S -> Prop) (r : reader) (x : S + bool) (r' : reader) : Prop :=
  match x with
  | inl s => ok s /\ went d d r true r' /\ current_ r < current_ r'
  | inr a => went d d r a r'
  end.

Lemma turns_loop {S} (ok : S -> Prop) ty (body : S -> M (S + bool)) s r :
  (forall s r', ok s -> here n ty r' -> inv d r' -> (room r' < fuel)%nat -> runs (body s r') (turns ok r')) ->
  ok s -> here n ty r -> inv d r -> (room r < fuel)%nat ->
  runs ((let* fuel := get (fun r => span_fuel (current_ r) (end_ r)) in loop fuel body s) r) (went d d r).
Proof using.
  intros Hbody Hs Hh Hi Hroom. apply runs_bind, runs_get. rewrite (inv_end _ _ Hi).
  apply (runs_loop (fun s r' => ok s /\ went d d r true r') (fun _ r' => Z.to_nat (e - current_ r'))).
  - clear s Hs. intros s r' [Hs Hw]. eapply runs_mono; [apply Hbody; [done|by eapply here_went|apply (went_inv _ _ _ _ _ Hw)|]|].
    { pose proof (room_went _ _ _ _ _ Hw). lia. }
    intros [s'|a] r''; simpl.
    + intros (Hs' & Hw' & Hlt). pose proof (inv_current _ _ (went_inv _ _ _ _ _ Hw')).
      split; [|lia]. split; [done|]. change true with (true && true). by eapply went_trans.
    + intros Hw'. change a with (true && a). by eapply went_trans.
  - split; [done|by apply went_refl].
  - apply span_fuel_gt.
Qed.

Lemma went_then r r1 r2 ok : went d d r true r1 -> went d d r1 ok r2 -> went d d r ok r2.
Proof using. intros H1 H2. change ok with (true && ok). by eapply went_trans. Qed.
Lemma failed_then r r1 r2 : went d d r false r1 -> went d d r1 true r2 -> went d d r false r2.
Proof using. intros H1 H2. change false with (false && true). by eapply went_trans. Qed.
End members.

Section containers.
Context (fuel : nat) (rv : M bool) (Hrv : reads_values fuel rv) (n : list key).
#[local] Abbreviation d := (S (length n)).

Lemma array_turn_runs i r :
  0 <= i -> here n vt_array r -> inv d r -> (room r < fuel)%nat ->
  runs (array_turn m features_ rv i r) (turns n (fun i => 0 <= i) r).
Proof using Hm Hrv.
  intros Hi Hh Hinv Hroom. apply runs_bind. eapply runs_mono.
  { apply (read_member_runs fuel rv Hrv n _ _ vt_array); [done..|]. intros v Hv.
    destruct (int_demand_keeps i v Hi Hv) as (v' & ? & ? & ? & ?). by exists v'. }
  intros ok r1 Hw1. pose proof (went_inv _ _ _ _ _ Hw1) as Hi1. destruct ok; cbn [negb].
  - apply runs_bind. eapply runs_mono; [by apply (read_tokens_past_comments_runs d)|]. intros t r2 Ht.
    assert (went d d r true r2) as Hw2 by (eapply went_then; [done|apply Ht]).
    pose proof (went_current _ _ _ _ _ Hw1) as Hc1. case_bool_decide as Hsep.
    { simpl. split_and!; [lia|done|]. pose proof (reads_token_moves _ _ _ _ Ht). rewrite Hsep in H. specialize (H ltac:(done)). lia. }
    case_bool_decide; [done|]. apply runs_bind. eapply runs_mono; [apply (add_error_and_recover_runs d), Ht|].
    intros ok r3 [-> Hw3]. simpl. by eapply went_then.
  - apply runs_bind. eapply runs_mono; [by apply (recover_from_error_runs d)|]. intros ok r2 [-> Hw2]. simpl. by eapply failed_then.
Qed.

(** A container: what was deeper than its node is gone. *)
Definition contained (r : reader) (ok : bool) (r' : reader) : Prop := went d (length n) r ok r'.

Lemma contained_then r r1 ok r2 : went (length n) (length n) r true r1 -> went d d r1 ok r2 -> contained r ok r2.
Proof using.
  intros H1 H2. unfold contained. change ok with (true && ok). eapply went_trans; [done|]. eapply went_shallow; [|done]. lia.
Qed.

Lemma begin_container_runs ty t r :
  alive n r -> inv (length n) r -> ty = vt_array \/ ty = vt_object ->
  runs (begin_container ty t r) (fun _ r' => went (length n) (length n) r true r' /\ here n ty r' /\ inv d r' /\ current_ r' = current_ r).
Proof using.
  intros Ha Hi Hty. apply runs_bind, runs_get. eapply runs_mono.
  - apply (replace_runs n _ _ (fun v => set_offset_start (token_start_ t - begin_ r) (swap_payload (value_of_type ty) v)) ty); [done..|].
    intros v. destruct v. unfold type. by destruct Hty as [->| ->].
  - intros [] r' (Hw & Hh & Hc). split_and!; [done..| |done]. eapply inv_le; [|apply (went_inv _ _ _ _ _ Hw)]. lia.
Qed.

Lemma read_array_runs t r :
  alive n r -> inv (length n) r -> (room r < fuel)%nat -> runs (read_array m features_ rv t r) (contained r).
Proof using Hm Hrv.
  intros Ha Hi Hroom. apply runs_bind. eapply runs_mono; [by apply begin_container_runs; auto|]. intros [] r1 (Hw1 & Hh1 & Hi1 & Hc1).
  apply runs_bind. eapply runs_mono; [by apply (skip_spaces_runs d)|]. intros [] r2 Hwalk.
  pose proof (walks_inv _ _ _ Hi1 Hwalk) as Hi2. pose proof (walks_went d d _ _ Hi1 Hwalk) as Hw2.
  apply runs_bind, runs_get, runs_bind, runs_lift, wp_load; [by apply (inv_current d)|]. intros c _. destruct (c =? "]"%ch).
  - apply runs_bind. eapply runs_mono; [by apply (read_token_runs d)|]. intros t' r3 Ht. simpl.
    eapply contained_then; [done|]. eapply went_then; [done|apply Ht].
  - eapply runs_mono.
    { apply (turns_loop fuel n (fun i => 0 <= i) vt_array); [|done|by eapply here_went|done|].
      - intros. by apply array_turn_runs.
      - pose proof (room_went _ _ _ _ _ Hw1). pose proof (room_went _ _ _ _ _ Hw2). lia. }
    intros ok r3 Hw3. eapply contained_then; [done|]. by eapply went_then.
Qed.

(** *** Objects *)

Lemma member_name_runs t r :
  tok t r -> inv d r ->
  runs (member_name negate_min printf_17g sscanf_lf m features_ t r) (fun x r' =>
    match x with
    | Some (inl name) => r' = r /\ Zlen name < 2 ^ 30 /\ token_type_ t <> tt_end_of_stream
    | Some (inr ok) => went d d r ok r' /\ ok = false
    | None => r' = r
    end).
Proof using Hm Hlen Hneg Hprintf.
  intros Ht Hi. pose proof (tok_start _ _ Ht). pose proof (tok_end _ _ Ht) as He. pose proof (inv_current _ _ Hi). unfold member_name.
  assert (forall r1 (A : Type), went d d r false r1 ->
    runs ((let* r := recover_from_error m features_ tt_object_end in ret (Some (inr r))) r1) (fun (x : option (list Z + bool)) r' =>
    match x with
    | Some (inl name) => r' = r /\ Zlen name < 2 ^ 30 /\ token_type_ t <> tt_end_of_stream
    | Some (inr ok) => went d d r ok r' /\ ok = false
    | None => r' = r
    end)) as Hrecover.
  { intros r1 _ Hw1. apply runs_bind. eapply runs_mono; [apply (recover_from_error_runs d), (went_inv _ _ _ _ _ Hw1)|].
    intros ok r2 [-> Hw2]. simpl. split; [by eapply failed_then|done]. }
  case_bool_decide as Hs.
  - apply runs_bind. eapply runs_mono; [apply decode_string_runs; [lia|by apply (tok_string t r)|lia]|].
    intros [name|] r1; simpl; [|intros Hf; apply (Hrecover _ unit); by apply fails_went]. intros [-> Hn]. split_and!; [done..|by rewrite Hs].
  - destruct (bool_decide (token_type_ t = tt_number)) eqn:Hnum; [|done]. apply bool_decide_eq_true in Hnum.
    destruct (allow_numeric_keys_ features_); [|done]. apply runs_bind.
    pose proof (tok_progress _ _ Ht) as Hp. rewrite Hnum in Hp. specialize (Hp ltac:(done)).
    eapply runs_mono; [apply decode_number_runs; lia|].
    intros [v|] r1; simpl; [|intros Hf; apply (Hrecover _ unit); by apply fails_went]. intros [-> Hv].
    apply runs_bind, runs_lift. destruct (as_string_number v Hv) as (s & -> & Hs'). simpl. split_and!; [done..|by rewrite Hnum].
Qed.

Lemma check_name_runs t name r :
  here n vt_object r -> inv d r -> Zlen name < 2 ^ 30 ->
  runs (check_name m features_ t name r) (fun x r' =>
    match x with None => r' = r | Some ok => went d d r ok r' end).
Proof using Hm.
  intros (rest & v & Hn & Hv & Ht) Hi Hname. unfold check_name. destruct (ours_ features_) as [x|]; [|done].
  zfalse (2 ^ 30 <=? Zlen name). destruct (reject_dup_keys_ x); [|done]. apply runs_bind. unfold get_current_value. rewrite Hn, Hv.
  simpl. apply runs_bind, runs_lift. unfold is_member, find. unfold type in Ht. destruct (value_ v); try done. simpl.
  case_bool_decide; [|done]. apply runs_bind. eapply runs_mono; [by apply (add_error_and_recover_runs d)|].
  intros ok r1 [-> Hw1]. done.
Qed.

Lemma object_member_runs t name r :
  here n vt_object r -> inv d r -> (room r < fuel)%nat -> Zlen name < 2 ^ 30 ->
  runs (object_member m features_ rv t name r) (fun x r' =>
    match x with inl _ => went d d r true r' | inr ok => went d d r ok r' end).
Proof using Hm Hrv.
  intros Hh Hi Hroom Hname. apply runs_bind. eapply runs_mono; [by apply (read_token_runs d)|]. intros colon r1 (Hw1 & _).
  pose proof (went_inv _ _ _ _ _ Hw1) as Hi1. case_bool_decide; cbn [negb].
  2: { apply runs_bind. eapply runs_mono; [by apply (add_error_and_recover_runs d)|]. intros ok r2 [-> Hw2]. simpl. by eapply went_then. }
  apply runs_bind. eapply runs_mono; [apply check_name_runs; [by eapply here_went|done..]|].
  intros [ok|] r2; [intros Hw2; by eapply went_then|]. intros ->. apply runs_bind. eapply runs_mono.
  { apply (read_member_runs fuel rv Hrv n _ _ vt_object); [by eapply here_went|done| |].
    - pose proof (room_went _ _ _ _ _ Hw1). lia.
    - intros v Hv. destruct (name_demand_keeps name v Hv) as (v' & ? & ? & ? & ?). by exists v'. }
  intros ok r2 Hw2'. assert (went d d r ok r2) as Hw2 by (by eapply went_then). pose proof (went_inv _ _ _ _ _ Hw2) as Hi2.
  destruct ok; cbn [negb].
  2: { apply runs_bind. eapply runs_mono; [by apply (recover_from_error_runs d)|]. intros ok r3 [-> Hw3]. simpl. by eapply failed_then. }
  apply runs_bind. eapply runs_mono; [by apply (read_token_runs d)|]. intros comma r3 (Hw3' & _).
  assert (went d d r true r3) as Hw3 by (by eapply went_then). pose proof (went_inv _ _ _ _ _ Hw3) as Hi3.
  case_bool_decide; [done|]. case_bool_decide; [done|]. case_bool_decide.
  - apply runs_bind. eapply runs_mono; [by apply (read_tokens_past_comments_runs d)|]. intros comma' r4 (Hw4 & _).
    case_bool_decide; simpl; by eapply went_then.
  - apply runs_bind. eapply runs_mono; [by apply (add_error_and_recover_runs d)|]. intros ok r4 [-> Hw4]. simpl. by eapply went_then.
Qed.

Lemma object_turn_runs name r :
  here n vt_object r -> inv d r -> (room r < fuel)%nat ->
  runs (object_turn negate_min printf_17g sscanf_lf m features_ rv name r) (turns n (fun _ => True) r).
Proof using Hm Hrv Hlen Hneg Hprintf.
  intros Hh Hi Hroom. apply runs_bind. eapply runs_mono; [by apply (read_tokens_past_comments_runs d)|]. intros t r1 Ht.
  pose proof Ht as (Hw1 & Htok & _). pose proof (went_inv _ _ _ _ _ Hw1) as Hi1.
  destruct (_ && _); [done|]. apply runs_bind. eapply runs_mono; [by apply member_name_runs|]. intros [[name'|ok]|] r2.
  - intros (-> & Hname & Hty). pose proof (reads_token_moves _ _ _ _ Ht Hty). eapply runs_mono.
    { apply object_member_runs; [by eapply here_went|done| |done]. pose proof (room_went _ _ _ _ _ Hw1). lia. }
    intros [name2|ok] r3 Hw3; simpl; [|by eapply went_then]. split_and!; [done|by eapply went_then|].
    pose proof (went_current _ _ _ _ _ Hw3). lia.
  - intros [Hw2 ->]. simpl. by eapply went_then.
  - intros ->. apply runs_bind. eapply runs_mono; [by apply (add_error_and_recover_runs d)|]. intros ok r2 [-> Hw2]. simpl. by eapply went_then.
Qed.

Lemma read_object_runs t r :
  alive n r -> inv (length n) r -> (room r < fuel)%nat ->
  runs (read_object negate_min printf_17g sscanf_lf m features_ rv t r) (contained r).
Proof using Hm Hrv Hlen Hneg Hprintf.
  intros Ha Hi Hroom. apply runs_bind. eapply runs_mono; [by apply begin_container_runs; auto|]. intros [] r1 (Hw1 & Hh1 & Hi1 & Hc1).
  eapply runs_mono.
  { apply (turns_loop fuel n (fun _ => True) vt_object); [|done|done|done|pose proof (room_went _ _ _ _ _ Hw1); lia].
    intros. by apply object_turn_runs. }
  intros ok r2 Hw2. by eapply contained_then.
Qed.
End containers.

(** *** read_value *)

Lemma set_current_value_runs n x start limit r :
  alive n r -> inv (length n) r ->
  runs (set_current_value x start limit r) (fun _ r' => went (length n) (length n) r true r').
Proof using.
  intros Ha Hi. eapply runs_mono.
  - apply (replace_runs n r _ (fun v => set_offset_limit limit (set_offset_start start (swap_payload x v))) (type x)); [done..|].
    intros v. by destruct v, x.
  - by intros [] r' (Hw & _).
Qed.
Lemma set_token_value_runs n t x r :
  alive n r -> inv (length n) r -> runs (set_token_value t x r) (fun _ r' => went (length n) (length n) r true r').
Proof using. intros Ha Hi. apply runs_bind, runs_get. by apply set_current_value_runs. Qed.

Lemma payload_runs i n r f :
  alive n r -> inv i r -> (forall v, exists v', f v = Ok v' /\ value_ v' = value_ v) ->
  runs (on_current_value f r) (fun _ r' => forall d, went i d r true r').
Proof using.
  intros (ty & Ha) Hi Hf. eapply runs_mono; [apply (keep_runs i n ty); [done..|]|by intros [] r' (Hw & _)].
  intros v <-. destruct (Hf v) as (v' & Hv' & Hp). exists v'. split_and!; [done|unfold type; by rewrite Hp|].
  intros d. by apply agree_payload.
Qed.
Lemma close_container_runs i n r :
  alive n r -> inv i r -> runs (close_container r) (fun _ r' => forall d, went i d r true r').
Proof using.
  intros Ha Hi. apply runs_bind, runs_get. apply (payload_runs i n); [done..|]. intros v. eexists. split; [done|]. by destruct v.
Qed.

Lemma went_no_comments i d r r' : went i d r true r' -> went i d r true (with_comments [] r').
Proof using. intros [[? ? ? ? ?] ? ? ? ? ?]. constructor; try done. constructor; try done. by left. Qed.

Lemma attach_comments_runs n r :
  alive n r -> inv (length n) r ->
  runs (attach_comments r) (fun _ r' => went (length n) (length n) r true r' /\ current_ r' = current_ r /\ last_value_end_ r' = last_value_end_ r).
Proof using.
  intros Ha Hi. assert (went (length n) (length n) r true r) as Hrefl by (by apply went_refl).
  apply runs_bind, runs_get, runs_bind, runs_get. destruct (collect_comments_ r && _); [|done].
  apply runs_bind. destruct Ha as (ty & rest & v & Hn & Hv & _). unfold on_current_value. rewrite Hn.
  pose proof (set_comment_at n _ comment_before _ v (inv_comments _ _ Hi) Hv) as Hu.
  destruct (update_at n _ (root_ r)) as [root'|x| |]; simpl; try done. split; [|done].
  by apply (went_no_comments (length n) (length n) r (with_root root' r)), with_root_went.
Qed.

(** How [read_value_token] leaves the reader that was at [r0] before the token. *)
Definition value_done (n : list key) (r0 : reader) (x : option bool) (r' : reader) : Prop :=
  match x with
  | None => went (length n) (length n) r0 false r'
  | Some ok => went (S (length n)) (length n) r0 ok r'
  end.

Section token.
Context (n : list key) (t : token) (r0 r : reader).
Context (Hw0 : went (length n) (length n) r0 true r) (Ha : alive n r) (Ht : tok t r) (Hstart : current_ r0 <= token_start_ t).

Lemma done_some ok r' : went (S (length n)) (length n) r ok r' -> value_done n r0 (Some ok) r'.
Proof using Hw0. intros Hw. change ok with (true && ok). by eapply went_trans. Qed.
Lemma done_plain ok r' : went (length n) (length n) r ok r' -> value_done n r0 (Some ok) r'.
Proof using Hw0. intros Hw. apply done_some. eapply went_le; [|done]. lia. Qed.

Lemma literal_done v : runs ((let* _ := set_token_value t v in ret (Some true)) r) (value_done n r0).
Proof using Hw0 Ha.
  apply runs_bind. eapply runs_mono; [apply (set_token_value_runs n); [done|apply (went_inv _ _ _ _ _ Hw0)]|].
  intros [] r' Hw. by apply done_plain.
Qed.
Lemma scalar_done (x : M bool) : runs (x r) (went (length n) (length n) r) -> runs ((let* ok := x in ret (Some ok)) r) (value_done n r0).
Proof using Hw0. intros Hx. apply runs_bind. eapply runs_mono; [done|]. intros ok r' Hw. by apply done_plain. Qed.
Lemma container_done (x : M bool) :
  runs (x r) (contained n r) -> runs ((let* ok := x in let* _ := close_container in ret (Some ok)) r) (value_done n r0).
Proof using Hw0 Ha.
  intros Hx. apply runs_bind. eapply runs_mono; [done|]. intros ok r1 Hw1. apply runs_bind.
  eapply runs_mono; [apply (close_container_runs (S (length n)) n); [by eapply alive_went|apply (went_inv _ _ _ _ _ Hw1)]|].
  intros [] r2 Hw2. apply done_some. rewrite <-(andb_true_r ok). by eapply went_trans.
Qed.

Lemma syntax_error_done : runs (syntax_error t r) (value_done n r0).
Proof using Hw0 Ha.
  pose proof (went_inv _ _ _ _ _ Hw0) as Hi. apply runs_bind, runs_get, runs_bind. eapply runs_mono.
  { apply (payload_runs (length n) n); [done..|]. intros v. eexists. split; [done|]. by destruct v. }
  intros [] r1 Hw1. apply runs_bind. eapply runs_mono; [apply (add_error_runs (length n)), (went_inv _ _ _ _ _ (Hw1 O))|].
  intros ok r2 [-> Hw2]. simpl. change false with (true && (true && false)). eapply went_trans; [done|]. by eapply went_trans.
Qed.

(** The char before the separator's end is where its token starts. *)
Lemma dropped_null_done : is_mark (token_type_ t) -> runs (dropped_null features_ t r) (value_done n r0).
Proof using Hw0 Ha Ht Hstart.
  intros Hmark. unfold dropped_null. destruct (allow_dropped_null_placeholders_ features_); [|apply syntax_error_done].
  pose proof (went_inv _ _ _ _ _ Hw0) as Hi. pose proof (tok_mark _ _ Ht Hmark). pose proof (tok_start _ _ Ht).
  pose proof (tok_end _ _ Ht). pose proof (inv_current _ _ Hi).
  apply runs_bind, runs_put, runs_bind, runs_get, runs_bind. set (r1 := with_current (current_ r - 1) r).
  assert (inv (length n) r1) as Hi1.
  { apply inv_with_current; [done|lia|]. destruct (tok_last _ _ Ht); [by left|right; lia]. }
  eapply runs_mono; [apply (set_current_value_runs n); [|done]|].
  { destruct Ha as (ty & rest & v & Hn & Hv & Hty). by exists ty, rest, v. }
  intros [] r2 [Hi2 Hn2 Ha2 Hc2 Hd2 He2]. destruct Hw0 as [_ Hn0 Ha0 _ Hd0 He0]. simpl in *.
  constructor; [by eapply inv_le; [|done]; lia|congruence|by eapply agree_trans|lia|lia|congruence].
Qed.

Lemma read_value_token_runs fuel rv :
  reads_values fuel rv -> (token_type_ t <> tt_end_of_stream -> (room r < fuel)%nat) ->
  runs (read_value_token negate_min printf_17g sscanf_lf m features_ rv t r) (value_done n r0).
Proof using Hm Hlen Hneg Hprintf Hw0 Ha Ht Hstart.
  intros Hrv Hroom. pose proof (went_inv _ _ _ _ _ Hw0) as Hi. unfold read_value_token. cbv zeta.
  pose proof (tok_start _ _ Ht) as Hs. pose proof (tok_end _ _ Ht) as He. pose proof (inv_current _ _ Hi) as Hc.
  assert (forall x, runs ((let* _ := set_token_value t x in ret true) r) (went (length n) (length n) r)) as Hvalue.
  { intros x. apply runs_bind. by apply set_token_value_runs. }
  destruct (token_type_ t) eqn:Hty; try apply syntax_error_done; try apply literal_done;
    try (apply dropped_null_done; rewrite Hty; unfold is_mark; auto).
  - apply container_done, (read_object_runs fuel); [done..|]. by apply Hroom.
  - apply container_done, (read_array_runs fuel); [done..|]. by apply Hroom.
  - apply scalar_done, runs_bind. eapply runs_mono; [apply decode_string_runs; [lia|by apply (tok_string t r)|lia]|].
    intros [s|] r1; simpl; [|by apply fails_went]. intros [-> Hl]. apply runs_bind, runs_lift.
    unfold value_of_string, duplicate_and_prefix_string_value. rewrite u32_small by (pose proof (Zlen_nonneg s); lia).
    assert (Zlen s <=? max_int - 4 - 1 = true) as -> by (unfold max_int; lia). simpl. apply Hvalue.
  - apply scalar_done, runs_bind. pose proof (tok_progress _ _ Ht) as Hp. rewrite Hty in Hp. specialize (Hp ltac:(done)).
    eapply runs_mono; [apply decode_number_runs; lia|].
    intros [v|] r1; simpl; [|by apply fails_went]. intros [-> _]. apply Hvalue.
Qed.
End token.

Lemma tok_same t r r' : tok t r -> current_ r' = current_ r -> last_value_end_ r' = last_value_end_ r -> tok t r'.
Proof using. intros [? ? ? ? ? ?] Hc Hl. constructor; rewrite ?Hc, ?Hl; done. Qed.

Lemma deeper_went i d r : inv i r -> went i d r true (with_depth (stack_depth_ r + 1) r).
Proof using. intros [? ? ? ? ?]. constructor; simpl; [by constructor|done|apply agree_refl|lia|lia|done]. Qed.

(** The last value is the current one now. *)
Lemma leave_value n r0 ok r1 :
  alive n r0 -> went (S (length n)) (length n) r0 ok r1 -> stack_depth_ r0 + 1 <= stack_depth_ r1 ->
  runs ((let* collect := get collect_comments_ in
    let* _ := (if collect : bool then put (fun r => with_last (current_ r) (head (nodes_ r)) r) else ret tt) in
    let* _ := put (fun r => with_depth (stack_depth_ r - 1) r) in ret ok) r1) (went (length n) (length n) r0).
Proof using.
  intros Ha Hw Hd. assert (alive n r1) as (ty & rest & v & Hn & Hv & _) by (by eapply alive_went).
  destruct Hw as [[Hb He Hc Hl Hco] Hno Hag Hcu Hde Her]. apply runs_bind, runs_get. destruct (collect_comments_ r1) eqn:Hcol; simpl.
  - constructor; simpl; try done; [|lia]. constructor; simpl; try done. right. split; [done|]. split; [lia|].
    exists n. rewrite Hn, Hv. by split_and!.
  - constructor; simpl; try done; [|lia]. constructor; simpl; try done. destruct Hl as [|[? _]]; [by left|done].
Qed.

Lemma read_value_runs fuel : reads_values fuel (read_value negate_min printf_17g sscanf_lf m features_ fuel).
Proof using Hm Hlen Hneg Hprintf.
  induction fuel as [|fuel IH]; intros r n Ha Hi Hroom; [lia|]. cbn [read_value]. apply runs_bind, runs_get.
  destruct (Z.leb_spec (stack_limit features_) (stack_depth_ r)) as [|Hdepth]; [by left|].
  apply runs_bind, runs_put. pose proof (deeper_went (length n) (length n) r Hi) as Hw1. set (r1 := with_depth _ r) in *.
  apply runs_bind. eapply runs_mono; [apply (skip_comment_tokens_runs (length n)), (went_inv _ _ _ _ _ Hw1)|].
  intros t r2 Ht2. pose proof Ht2 as (Hw2' & Ht & Hstart). assert (went (length n) (length n) r1 true r2) as Hw2 by done.
  assert (alive n r2) as Ha2 by (eapply alive_went; [|done]; by eapply alive_went).
  apply runs_bind. eapply runs_mono; [apply (attach_comments_runs n); [done|apply (went_inv _ _ _ _ _ Hw2)]|].
  intros [] r3 (Hw3 & Hc3 & Hl3). assert (alive n r3) as Ha3 by (by eapply alive_went).
  assert (went (length n) (length n) r true r3) as Hw.
  { change true with (true && (true && true)). eapply went_trans; [done|]. by eapply went_trans. }
  pose proof (went_depth _ _ _ _ _ Hw2) as Hd2. pose proof (went_depth _ _ _ _ _ Hw3) as Hd3. simpl in Hd2.
  assert (went (length n) (length n) r1 true r3) as Hw13 by (change true with (true && true); by eapply went_trans).
  apply runs_bind. eapply runs_mono.
  { apply (read_value_token_runs n t r1 r3 Hw13 Ha3) with fuel; [by eapply tok_same|done|done|].
    intros Hty. pose proof (reads_token_moves _ _ _ _ Ht2 Hty) as Hlt. simpl in Hlt.
    pose proof (inv_current _ _ (went_inv _ _ _ _ _ Hw3)). unfold room in *. lia. }
  intros [ok|] r4 Hdone; simpl in Hdone.
  - pose proof (went_depth _ _ _ _ _ Hdone) as Hd4. simpl in Hd4. apply leave_value; [done| |lia].
    exact (done_some n r r1 Hw1 ok r4 Hdone).
  - exact (went_trans _ _ _ _ _ _ true false Hw1 Hdone).
Qed.

(** ** Documents *)

Lemma start_inv root collect : b <= e -> inv 0 (start features_ b e collect root).
Proof using. intros Hbe. constructor; simpl; [done|done|lia|by left|by left]. Qed.

(** What [parse] returns says whether there are errors. *)
Definition reported (ok : bool) (r : reader) : Prop := ok = good r /\ begin_ r = b /\ end_ r = e.

Lemma went_reported i d root collect ok r :
  went i d (start features_ b e collect root) ok r -> reported ok r.
Proof using.
  intros [[? ? ? ? ?] ? ? ? ? He]. split_and!; [|done..]. unfold good. destruct ok; simpl in He; [by rewrite He|].
  by destruct (errors_ r).
Qed.

Lemma set_root_comment_runs ok r :
  comment_ok (comments_before_ r) -> reported ok r -> runs (set_root_comment r) (fun _ r' => reported ok r').
Proof using.
  intros Hc Hr. apply runs_bind, runs_get, runs_bind, runs_get. destruct (_ && _); [|done].
  pose proof (set_comment_safe _ comment_after (root_ r) Hc) as Hs. by destruct (set_comment _ _ _).
Qed.
Lemma check_root_runs ok r : reported ok r -> runs (check_root features_ ok r) reported.
Proof using.
  intros Hr. unfold check_root. destruct (strict_root_ features_); [|done]. apply runs_bind, runs_get.
  destruct (_ && _); [|done]. apply runs_bind, runs_get, runs_bind, runs_get. simpl. destruct Hr as (_ & ? & ?).
  split_and!; [|done..]. unfold good. simpl. by destruct (errors_ r).
Qed.

Lemma parse_runs root collect :
  b <= e -> runs (parse negate_min printf_17g sscanf_lf m features_ b e root collect) reported.
Proof using Hm Hlen Hneg Hprintf.
  intros Hbe. unfold parse. pose proof (start_inv root collect Hbe) as Hi. apply runs_bind. eapply runs_mono.
  { apply (read_value_runs (parse_fuel features_ b e) _ []); [by exists (type root), [], root|done|].
    unfold room, parse_fuel. simpl. lia. }
  intros ok r1 Hw1. apply runs_bind. eapply runs_mono; [apply (skip_comment_tokens_runs O), (went_inv _ _ _ _ _ Hw1)|].
  intros t r2 (Hw2 & _ & _). pose proof (went_inv _ _ _ _ _ Hw2) as Hi2.
  assert (went 0 0 (start features_ b e collect root) ok r2) as Hw by (rewrite <-(andb_true_r ok); by eapply went_trans).
  destruct (has_extra features_ t).
  - eapply runs_mono; [by apply (add_error_runs 0)|]. intros ok' r3 [-> Hw3]. eapply went_reported with (i := O) (d := O).
    rewrite <-(andb_false_r ok). by eapply went_trans.
  - apply runs_bind. eapply runs_mono; [apply (set_root_comment_runs ok); [apply (inv_comments _ _ Hi2)|by eapply went_reported]|].
    intros [] r3 Hr. by apply check_root_runs.
Qed.

(** ** Messages *)

Context (Hnul : m !! e <> Some LF).

Lemma line_and_column_wp r location : begin_ r = b -> end_ r = e -> b <= e -> wp (line_and_column m r location) (fun _ => True).
Proof using Hm Hnul.
  intros Hb He Hbe. unfold line_and_column. rewrite Hb, He.
  apply (wp_iterate (fun '(q, _, _) => b <= q <= e) (fun '(q, _, _) => Z.to_nat (e - q))); [|lia|apply span_fuel_gt].
  intros [[q first] line] Hq. destruct (Z.eqb_spec q e); [by rewrite andb_false_r|]. rewrite andb_true_r.
  destruct (q <? location); [|done]. apply wp_bind, wp_load; [lia|]. intros c _. destruct (c =? CR).
  - apply wp_bind, wp_load; [lia|]. intros c' Hc'. destruct (Z.eqb_spec c' LF) as [->|]; simpl; [|lia].
    assert (q + 1 <> e) by (by intros Heq; rewrite Heq in Hc'). lia.
  - destruct (c =? LF); simpl; lia.
Qed.
Lemma messages_wp r : begin_ r = b -> end_ r = e -> b <= e -> wp (get_formatted_messages m r) (fun _ => True).
Proof using Hm Hnul.
  intros Hb He Hbe. unfold get_formatted_messages.
  assert (forall q, wp (get_location_line_and_column m r q) (fun _ => True)) as Hplace.
  { intros q. apply wp_bind. eapply wp_mono; [|by apply line_and_column_wp]. by intros []. }
  induction (errors_ r) as [|x l IH]; [done|]. apply wp_bind, (wp_mono _ (fun _ => True)).
  - intros s _. apply wp_bind. by eapply wp_mono; [|apply IH].
  - apply wp_bind. eapply wp_mono; [|apply Hplace]. intros place _. destruct (negb _); [|done].
    apply wp_bind. by eapply wp_mono; [|apply Hplace].
Qed.
End safety.

(** ** The property *)

Lemma document_memory_holds a document : holds (document_memory a document) a (document ++ [0]).
Proof. apply holds_map_seqZ. Qed.
Lemma document_char a document q : a <= q <= a + Zlen document -> is_Some (document_memory a document !! q).
Proof.
  intros Hq. destruct (lookup_lt_is_Some_2 (document ++ [0]) (Z.to_nat (q - a))) as [c Hc].
  { rewrite length_app. simpl. unfold Zlen in Hq. lia. }
  exists c. replace q with (a + Z.of_nat (Z.to_nat (q - a))) by lia. by apply (holds_lookup _ _ _ _ _ (document_memory_holds a document)).
Qed.

(** C3: on any document shorter than 2^30 chars, whatever its chars are, [parse] of
    [reader] and [our_reader] ends and does nothing undefined: it reads no char outside
    the document and its NUL, and uses no value that is gone.  It throws when the values
    are nested deeper than the limit of the stack, or, in an [our_reader] without single
    quotes, at a comment that starts with one; else it returns true when it found no error
    and false when it did, and the messages about the errors can be made. *)
Theorem parse_safe negate_min printf_17g sscanf_lf a features_ document root collect_comments :
  Zlen document < 2 ^ 30 -> negate_min = Ok min_int64 -> (forall d, Zlen (printf_17g d) <= 32) ->
  match parse_string negate_min printf_17g sscanf_lf a features_ document root collect_comments with
  | Ok (ok, r) => ok = good r /\ exists messages, get_formatted_messages (document_memory a document) r = Ok messages
  | Throw x => thrown features_ x
  | Undef | Spin => False
  end.
Proof.
  intros Hlen Hneg Hprintf. unfold parse_string. set (m := document_memory a document). set (e := a + Zlen document).
  assert (forall q, a <= q <= e -> is_Some (m !! q)) as Hm by (intros q Hq; by apply document_char).
  assert (e - a < 2 ^ 30) as Hl by (unfold e; lia). assert (a <= e) as Hae by (unfold e; pose proof (Zlen_nonneg document); lia).
  assert (m !! e <> Some LF) as Hnul.
  { pose proof (document_memory_holds a document) as H. apply holds_app in H as [_ [H _]]. fold m e in H. by rewrite H. }
  pose proof (parse_runs negate_min printf_17g sscanf_lf m features_ a e Hm Hl Hneg Hprintf root collect_comments Hae) as Hp.
  destruct (parse _ _ _ _ _ _ _ _ _) as [[ok r]| | |]; simpl in Hp; try done. destruct Hp as (Hok & Hb & He). split; [done|].
  pose proof (messages_wp m a e Hm Hnul r Hb He Hae) as Hw. apply wp_Ok_iff in Hw as (s & Hs & _). by exists s.
Qed.

(** A document with a comment, an array that lacks its end, and half an escape. *)
Definition strict_features : features :=
  {| allow_comments_ := true; strict_root_ := true; allow_dropped_null_placeholders_ := true; allow_numeric_keys_ := true;
     ours_ := Some {| allow_single_quotes_ := true; fail_if_extra_ := true; reject_dup_keys_ := true; stack_limit_ := 1000 |} |}.
Definition broken_document : list Z := str "/* x */ {'a': [1, [nul, 'b" ++ [BACKSLASH] ++ str "u12'".
Lemma parse_safe_witness :
  Zlen broken_document < 2 ^ 30 /\
  match parse_string (Ok min_int64) (fun _ => str "0") (fun _ => None) 1 strict_features broken_document null_ref true with
  | Ok (ok, r) => ok = good r /\ exists messages, get_formatted_messages (document_memory 1 broken_document) r = Ok messages
  | Throw x => thrown strict_features x
  | Undef | Spin => False
  end.
Proof.
  split; [done|]. apply (parse_safe (Ok min_int64) (fun _ => str "0") (fun _ => None) 1 strict_features broken_document null_ref true);
    [done|done|]. intros d. by vm_compute.
Defined.
